(* ===== verification/_CoqProject ===== *)
-Q . S2P
Prelude.v
RegExp.v
Redactor.v
JsNum.v
Binary64.v
Budget.v
PromptCache.v
Hash.v
Effects.v
LlmGateway.v
Schema.v
JsText.v
JsonParse.v
JsonLaws.v
Disclosure.v
Guardrail.v
AttemptStatus.v
EventStore.v
Mentor.v
MentorLaws.v
Bkt.v
Elo.v
SkillGraph.v
SkillData.v
SkillSeeds.v
Mastery.v
Curriculum.v
Catalog.v
CatalogLaws.v
Authoring.v
AuthoringAssistant.v
Eligibility.v
Recommendation.v
RecommendationLaws.v
Experiment.v
Criteria.v
Scoring.v
AttemptRepository.v
ValidatorRunner.v
ShellValidators.v
TestReport.v
CloudAssert.v
T3Executor.v
T3Laws.v
ExecutorBackends.v
Artifact.v
LlmToolCall.v
LlmProviders.v
Grader.v
GraderLaws.v
WeightedKappa.v
Evaluation.v
WorkspaceFiles.v
Privacy.v
AnalyticsIngestion.v
AnalyticsQuery.v
AttemptService.v
AttemptLaws.v
Lifecycle.v
Hint.v
Consumers.v
ProjectScoring.v
ProjectRepository.v
GitHosting.v
Defence.v
Project.v
ProjectLaws.v
ProjectPool.v
OrchestratorClients.v
ContentCi.v
VivaModels.v
WebSim.v
WebClient.v
WebRoutes.v
Reporting.v
Dashboard.v
Calibrate.v
WebPages.v
WebWorkspace.v
