(* ===== verification/Prelude.v ===== *)
(** * Practice Core: a verification library

    src/practice-core is the back end of a hands-on learning platform: a
    learner attempts an activity in a provisioned environment, validators check
    the tasks, and a submission is scored and turned into ratings and mastery
    of skills.  Around that core, projects run through gated milestones and a
    viva, a mentor answers questions through a gateway to language models,
    authors publish activities, and recommendations and experiments choose what
    a learner sees.  It is a NestJS service over PostgreSQL.  src/web is the
    front end: pages that call its routes.  This library models the services
    under src/practice-core/src/modules/ (paths below without a root are
    relative to it) and common/ beside it, the scripts that seed and check
    content (src/practice-core/scripts/), and what the pages of src/web/src
    compute and offer, and proves what makes them correct.

    ** How a handler is modelled

    An async method is a [prog] (Effects.v): a sequence of atomic actions on a
    shared state, one per SQL statement, transaction or remote call, with
    TypeScript exceptions.  [run h s] executes one handler alone.  [pstep]
    interleaves a pool of handlers between actions, which is what a Node
    process over READ COMMITTED does, and [pool_guarantee] lifts a property
    that every action of a handler keeps ([guaranteed]) to all interleavings.
    A failed statement changes nothing; what earlier statements wrote stays.  A
    transaction of the source that only writes, or whose reads lock the rows it
    writes, is one action; those that read without a lock and then write
    (skill/mastery.service.ts, catalog/catalog.repository.ts) are split.

    The states: [Store] (Schema.v) is the modelled part of db/schema.ts: finite
    maps for the tables read by key, lists in insertion order for the others,
    the clock [now], the id supply [next_id], the in-memory viva queues, and
    [calls], the log of every call to another service.  [Gateway] (LlmGateway.v)
    is the memory of the gateway: ledger, cache and records.  [World]
    (Mentor.v) is both.  [Experiments] (Experiment.v) is the two experiment
    tables, [Platform] (Privacy.v) the store with the accounts, [Ingestion]
    (AnalyticsIngestion.v) the store with the analytics copy and its cursor,
    [Editor] (WorkspaceFiles.v) the store with a pod.  A client of another
    program runs over the list of the requests it has sent ([sends], Effects.v).
    The browser's components are step functions on their React state, and a
    theorem about them is for every order of events.  Handlers run alone see a constant clock.

    A JavaScript number is a rational and each operator rounds its result:
    JsNum.v has the interface [Rounding] with the laws of round-to-nearest,
    Binary64.v the executable binary64 instance that witnesses evaluate.
    Theorems proved for every [Rounding] hold for the doubles; the direction,
    monotonicity and decay theorems of Bkt.v, [ai_cap], [bucket_split] and
    [kappa_bounds] are stated for exact arithmetic, because a rounded result may
    be an ulp off, and say so.  NaN, infinities and overflow are outside, except
    where a definition returns an option for them.

    A text is a [string] of code units below 256: a character of the source
    beyond that is its UTF-8 bytes.

    ** What is outside

    Other programs are parameters, as type classes or records, that may reject
    or answer anything; a witness instantiates each with a concrete function.
    Some of these are interfaces between modelled components, proved against the
    interface and implemented elsewhere:
    - [AttemptService.Orchestrator], [Project.ProjectOrchestrator]: by the gRPC
      clients of OrchestratorClients.v, over [OrchestratorClients.GrpcServer];
    - [ValidatorRunner.Executor]: by [T3Executor.t3_executor], over
      [T3Executor.ValidatorRpc] and [ShellValidators.ShellRunner], which the two
      backends of ExecutorBackends.v implement over [ExecShellRpc] and
      [LocalHost];
    - [Artifact.ArtifactGrading]: by [Artifact.ArtifactService]; the services'
      [Artifact.AiGrading]: by [Grader.ai_grading]; [LlmToolCall.LlmToolCaller]:
      by [LlmToolCall.caller_of], over [LlmToolCall.ProviderSdk];
    - [LlmGateway.LlmProvider]: by LlmProviders.v, over
      [LlmProviders.CompletionSdk];
    - [ProjectRepository.GitHost]: by [GitHosting.git_service], over
      [GitHosting.ForgejoHost]; [Defence.VivaModel]: by VivaModels.v;
    - [PromptCache.Sha256], [Experiment.Digest]: by the executable SHA-256 of
      Hash.v.
    Parameters throughout: fault files ([Evaluation.FaultPaths]), tokens
    ([Authoring.JwtService]), YAML and JSON Schema ([Authoring.SpecFormat], the
    front matter of Calibrate.v), the pod of an editor
    ([WorkspaceFiles.WorkspacePod]), the host of a content run
    ([ContentCi.CiHost]), dates of ClickHouse ([AnalyticsQuery.ClickHouseTime]),
    the URL parser of fetch and the router of Express ([WebRoutes.UrlParser],
    [WebRoutes.Router]),
    the division of numerics, casts and collation of PostgreSQL (Reporting.v),
    the texts of uuids, the messages of a browser's exceptions (WebClient.v),
    the implementation-defined Math.pow ([Bkt.MathPow]) and the order in which
    PostgreSQL returns unordered rows ([Schema.RowOrder]).

    ** The files: foundations

    - Prelude: record update, tactics, lemmas on lists and options, hints.
    - RegExp: the regular expressions the source uses; the backtracking matcher
      finds a match exactly when the pattern denotes one.  The fuel of a
      repetition is the length of the text left, and each iteration consumes.
    - JsNum, Binary64: numbers.  Effects: handlers.  Schema: rows and store.
    - JsText: String(number) (at most 17 digits are tried, which is enough for
      a double), dates, JSON.stringify, String.replace.
    - JsonParse: JSON.parse, whose fuel is the length of the text, and
      evaluation/t3/json-util.ts.  JsonLaws: what stringify writes is read back
      ([loose_json_roundtrip]).
    - Hash: SHA-256 as node computes it.
    - AttemptStatus: common/attempt-status-groups.ts; the status graph [edge],
      [late_graph] with the moves of a late provisioning, and [evolves], the order
      of stores along a graph.

    ** The attempt and its evaluation

    - EventStore: event-store/.  [append] numbers events per attempt
      ([append_replay]); [deriveTaskState] is the fold of the log, shown equal
      to a declarative reading of it ([task_state_from_log]), and its rebuild
      is idempotent ([rebuild_idempotent]).
    - Bkt: skill/bkt.service.ts.  The update stays within its clamp for every
      rounding, moves in the direction of the evidence and is monotone in the
      score; decay moves towards the prior without crossing it.
    - Elo: skill/elo.service.ts, spaced-repetition.ts.
    - SkillGraph: skill/skill.repository.ts.  The recursive query computes
      exactly the pairs connected by prerequisite edges, with the least depth
      ([closure_correct]).  A walk holds no repeated node, so its rounds are
      bounded by the number of skills: [walk] uses that as fuel.
    - Mastery: skill/mastery.service.ts: Elo matches, evidence and the gate.
    - Eligibility: attempt/eligibility.service.ts, one reason code per failed
      check ([eligibility_correct]).
    - Criteria, Scoring: evaluation/criteria.ts, scoring-engine.service.ts,
      scoring-profile.ts, cooldown.ts: values in [0,1], monotone scores,
      cooldown bounds.
    - AttemptRepository: attempt/attempt.repository.ts; [transition] is the
      version-checked update every status change uses.
    - ValidatorRunner: three tries per validator ([retry_policy]; the try count
      is the recursion's measure), verdict per task ([runner_verdicts]).
    - Artifact: evaluation/artifact.service.ts.
    - Evaluation: evaluation/evaluation.service.ts, the whole pipeline
      ([evaluation_closes]).
    - AttemptService: attempt/attempt.service.ts, all handlers.
      AttemptLaws: what each does on every branch (creation, provisioning,
      start, checks, submission, teardown, reactivation).
    - Lifecycle: the handlers together.  [lifecycle_pool] is the main safety
      theorem: any number of requests, interleaved action by action, only move
      attempts along the status graph, one version per move, and an attempt
      that nobody asks to provision keeps its final status; a provisioning that
      answers late may take its own attempt to READY or PROVISION_FAILED from
      anywhere.
    - Hint: attempt/hint.service.ts, the hint ladder and guided fallback.
    - Consumers: event consumers, the cache sweep, the ownership guard.
    - OrchestratorClients: attempt/grpc-orchestrator.client.ts,
      project/grpc-project-orchestrator.ts, common/base-grpc-client.ts: requests,
      credentials, status tables ([grpc_provisioning]).
    - WorkspaceFiles: attempt/workspace-file.service.ts: paths stay below the
      home directory ([file_path_confined]), what is written is read back
      ([write_then_read]).
    - SkillData, SkillSeeds: scripts/seed-skills*.ts and
      backfill-skill-order.ts, their tables and what running them makes of the
      graph ([courses_seeded]).
    - Curriculum: curriculum/ and scripts/seed-curriculum*.ts ([course_tree],
      [curriculum_linked]).
    - ContentCi: scripts/content-ci.ts: the verdict on an activity
      ([ci_verdict]) and its environment ([environment_destroyed]).

    ** Validators in the workspace and AI graders

    - ShellValidators, TestReport, CloudAssert: the six handlers of
      evaluation/t3/ that run commands in the workspace, with the command lines
      they send, the reports they read and the verdicts they draw.
    - T3Executor: their dispatch, the gRPC executor the other types go to and
      the runner's timeout.  T3Laws: whatever the shell does the executor
      answers ([t3_answers]); a chaos probe ends and judges as documented
      ([chaos_probe_ends]; each round sleeps at least a millisecond, so the
      milliseconds of the recovery window are fuel enough); when a test report
      passes ([suite_gate]); what the timeout and unreadable reports make of it
      ([chaos_never_judged], [unreadable_report_passes]).
    - ExecutorBackends: the two shells; a command line is the command and
      nothing else ([command_line_quoted]), a local command stays below its
      root ([local_confined]).
    - LlmToolCall, Grader: evaluation/llm-tool-call.port.ts,
      claude-ai-grader.service.ts, fake-ai-grader.service.ts.  GraderLaws: what
      a grading reports ([grade_spec]), the two vendors are interchangeable
      ([providers_agree]), which grader is injected ([grader_wiring]).
    - WeightedKappa: evaluation/calibration/weighted-kappa.ts, the statistic the
      calibration of a rubric gates on ([kappa_bounds], [kappa_computed]).
      Calibrate: scripts/rubric-calibrate.ts, when a rubric counts as calibrated
      ([calibration_sound], [agreement_accepted]).

    ** Projects

    - ProjectScoring: project/project-scoring.ts; the cap on AI-graded weight
      ([ai_cap]).  ProjectRepository: project/project.repository.ts and the
      submissions of git.service.ts.  Project: project/project.service.ts.
      Defence: project/defence.service.ts, whose queues are in memory
      ([viva_protocol]).
    - ProjectLaws: listing seeds once (two rounds of [listMilestones_upto] are
      enough, [listing]), every branch of a submission ([submit_gates]), the
      order of milestones ([milestones_in_order]).
    - ProjectPool: all interleavings of project requests refine an abstract
      milestone machine ([milestone_machine]).
    - GitHosting: project/git.service.ts and forgejo.client.ts: what an
      enrolment sends ([enrol_traffic]).  VivaModels: project/viva-model.port.ts
      and its two generators ([fake_viva_grounded]).

    ** Mentor and gateway

    - Redactor, Budget, PromptCache, LlmGateway: llm-gateway/.  Nothing
      unredacted leaves ([egress_redacted]), every call is answered
      ([gateway_answers]), one after another they exceed a
      budget by no more than one answer was billed above its estimate
      ([budget_kept]), the cache is bounded and answers what was put
      ([cache_invariant], [cache_retains]).
    - LlmProviders: llm-gateway/providers.ts, which providers are configured and
      what they send ([stand_in_only_offline]).
    - Disclosure, Guardrail: mentor/disclosure-policy.ts, intent-classifier.ts,
      output-guardrail.ts ([disclosure_policy], [guardrail_sound]).
    - Mentor: mentor/mentor.service.ts and its helpers.  MentorLaws: every
      branch of a reply ([reply_spec]); the mentor never touches an attempt
      ([mentor_readonly]).

    ** Catalog, recommendation, experiments

    - Catalog: catalog/.  CatalogLaws: a version is written completely or not
      at all ([version_authored]); under any interleaving versions stay
      numbered and published ones frozen ([catalog_pool]); what the
      skill-driven listing contains ([skill_catalog_spec]).
    - Authoring: auth/, content-ci/spec-lint.service.ts and the authoring routes
      of admin/: who may do what ([authoring_guarded]), lint before publication
      ([publish_route_spec]), draft to catalog ([review_flow]).
      AuthoringAssistant: authoring/ ([draft_spec]).
    - Recommendation: recommendation/.  RecommendationLaws: [recommend] refines
      a declarative reading of the sources ([recommend_spec]).
    - Experiment: experiment/experiment.service.ts: sticky assignment
      ([assignment_sticky], [concurrent_assign_agrees]), the split
      ([bucket_split]).

    ** Privacy and reports

    - Privacy: privacy/: the archive of a learner and the erasure
      ([erasure_spec]).
    - AnalyticsIngestion, AnalyticsQuery: analytics/: the copy of the event log
      is complete without outages ([ingestion_complete]) and only moves forward
      with them ([stream_moves_forward]); rollups agree between the two stores
      ([rollups_agree]).
    - Reporting: admin/analytics.service.ts, cost-dashboard.service.ts,
      experiment/north-star.service.ts, their routes, and the rows the
      orchestrator's cost meter writes ([grains_agree], [reports_confined]).
    - Dashboard: dashboard/, the listings and the routes of an attempt
      ([home_page], [attempt_private]).

    ** The front end

    - WebClient: lib/api-client.ts, error-message.ts, session.ts, auth-token.ts
      and common/all-exceptions.filter.ts: what a caller is shown of an error
      ([error_shown]), one login at a time ([one_login_at_a_time]).
    - WebRoutes: every call of the client with the route that serves it
      ([calls_served]), over the documented laws of the URL parser and the router,
      of which [Standard] is an instance.
    - WebSim: lib/sim.ts, components/sim/: ticket, symptoms, clock, debrief.
    - WebPages: the attempt, home, activity and catalog pages: what can be done
      from each ([continue_from_home], [submit_confirmed], [catalog_page]).
    - WebWorkspace: components/WorkspaceEditor.tsx with the queries of the file
      contents, and WorkspaceTerminal.tsx ([saved_is_on_disk], [one_chain]).

    ** What modelling showed

    Some theorems exhibit behaviour the code does not intend, each on a
    concrete input or schedule.  Races: [provision_overrides_destroy],
    [quota_bypass], [evaluation_conflict], [evidence_lost_update],
    [reveal_double_charge], [submission_race], [overspend_race],
    [transition_race], [passed_reopened], [typed_while_saving],
    [stale_after_refused_write], [stale_after_save].  Lost or ignored data:
    [fallback_mark_wiped], [repo_never_linked], [missing_rubric],
    [unmatched_tasks_pass], [repeated_topic_refused], [foreign_version_shown],
    [environment_never_restored], [erased_rebuild_fails],
    [cursor_outage_duplicates], [duplicate_id_hides_flake],
    [earlier_injection_masked], [slugs_not_enforced], [failed_seed_stuck],
    [seeded_order_gaps], [switched_unsaved], [changed_in_terminal], [stale_gate],
    [nothing_to_do].  Wrong or missing
    answers: [tombstone_collision], [repositories_shared], [vendors_disagree],
    [empty_answer_fails], [unreadable_error], [empty_answer_rejected],
    [unserved], [fraction_disagrees], [north_star_zero],
    [minutes_charged_again], [compute_never_charged],
    [accounts_of_every_tenant], [escalations_never_injected], [plumbing_fails].
    Policies that do not
    hold as documented: [ai_cap_lost], [redact_misses], [second_command_passes],
    [give_command_without_hints], [guardrail_leaks], [ceiling_from_request],
    [author_publishes], [active_lab_hides_all], [weaker_reason_kept],
    [cold_start_starved], [concluded_keeps_variant], [unreadable_report_passes].

    ** What is not modelled

    Explanation objects and messages that decide nothing, logging, printed
    text, and the Prometheus counters of metrics/, which a library keeps.  The
    SDKs and drivers under the clients (gRPC, HTTP, NATS, PostgreSQL), YAML
    loading and process spawning are input and output.  Of src/web the markup,
    styling, icons and the cache of the queries other than those of the editor;
    of scripts/ the loops around lint and publication, whose steps are in
    Authoring.v and Catalog.v.
    src/orchestrator is a separate program in Go, of which only the rows of the
    cost meter are modelled; src/evaluation holds load scripts, src/content data
    and src/infra deployment. *)
From Stdlib Require Export QArith Qabs Qround Lqa Lia ZArith.
From Stdlib Require Sorting.Sorted.
From stdpp Require Export base tactics list strings gmap fin_maps.

(** ** Functional record update

    [r <| f := v |>] is TypeScript's [{ ...r, f: v }].  A record type that
    wants it gives its eta expansion once, as an [Eta] instance; the setter of
    each projection is then computed from that term. *)
Class Eta (R : Type) := eta : R -> R.
Class Setter {R E : Type} (proj : R -> E) := set_field : (E -> E) -> R -> R.
Arguments set_field {R E} proj {_} _ _ /.

Ltac derive_setter :=
  lazymatch goal with
  | |- @Setter ?R ?E ?proj =>
      let inst := constr:(_ : Eta R) in
      let e := eval red in inst in
      exact (fun (f : E -> E) (r : R) =>
        ltac:(let t := eval cbv beta in (e r) in
              let p := eval cbv beta in (proj r) in
              let t := eval pattern p in t in
              lazymatch t with
              | ?g _ => let u := eval cbv beta in (g (f p)) in exact u
              end))
  end.

#[export] Hint Extern 1 (Setter _) => derive_setter : typeclass_instances.

Declare Scope rec_scope.
Open Scope rec_scope.
Notation "r <| proj ::= f |>" := (set_field proj f r)
  (at level 1, left associativity) : rec_scope.
Notation "r <| proj := v |>" := (set_field proj (fun _ => v) r)
  (at level 1, left associativity) : rec_scope.

(** Evaluates the decisions between constructors that a case split left. *)
Ltac decide_concrete :=
  repeat match goal with
  | |- context [bool_decide (?a = ?b)] =>
      let v := eval vm_compute in (bool_decide (a = b)) in
      lazymatch v with
      | true => change (bool_decide (a = b)) with true
      | false => change (bool_decide (a = b)) with false
      end
  end;
  cbn [andb orb negb].

(** ** [Array.from(new Set(l))]: the distinct elements in order of first occurrence *)
Definition uniq {A} `{EqDecision A} (l : list A) : list A :=
  fold_left (fun acc x => if decide (x ∈ acc) then acc else acc ++ [x]) l [].

Section Uniq.
Context {A : Type} `{EqDecision A}.

Lemma uniq_fold (l acc : list A) x :
  x ∈ fold_left (fun acc x => if decide (x ∈ acc) then acc else acc ++ [x]) l acc <-> x ∈ acc \/ x ∈ l.
Proof.
  revert acc. induction l as [|y l IH]; intros acc; cbn; [rewrite elem_of_nil; tauto |].
  rewrite IH, elem_of_cons. destruct (decide (y ∈ acc)) as [I|I].
  - split; [tauto |]. intros [?|[->|?]]; tauto.
  - rewrite elem_of_app, list_elem_of_singleton. tauto.
Qed.
Lemma elem_of_uniq (l : list A) x : x ∈ uniq l <-> x ∈ l.
Proof. unfold uniq. rewrite uniq_fold, elem_of_nil. tauto. Qed.

Lemma NoDup_uniq (l : list A) : NoDup (uniq l).
Proof.
  unfold uniq. assert (G : forall acc, NoDup acc ->
    NoDup (fold_left (fun acc x => if decide (x ∈ acc) then acc else acc ++ [x]) l acc));
    [|apply G; constructor].
  induction l as [|y l IH]; intros acc N; cbn; [easy |]. apply IH. destruct (decide (y ∈ acc)) as [I|I]; [easy |].
  apply NoDup_app. split; [easy |]. split; [|apply NoDup_singleton].
  now intros z Z ->%list_elem_of_singleton.
Qed.
End Uniq.

(** ** [Array.filter] *)
Lemma append_nil_r (s : string) : (s ++ "" = s)%string.
Proof. induction s as [|c s IH]; [reflexivity | exact (f_equal (String.String c) IH)]. Qed.
Lemma append_assoc (a b c : string) : ((a ++ b) ++ c = a ++ b ++ c)%string.
Proof. induction a as [|x a IH]; [reflexivity | exact (f_equal (String.String x) IH)]. Qed.

Lemma filter_all {A} (p : A -> bool) l : (forall x, x ∈ l -> p x = true) -> List.filter p l = l.
Proof.
  induction l as [|x l IH]; intros P; cbn; [easy |]. rewrite (P x) by now left.
  f_equal. apply IH. intros y Y. apply P. now right.
Qed.
Lemma filter_Permutation {A} (p : A -> bool) l l' : l ≡ₚ l' -> List.filter p l ≡ₚ List.filter p l'.
Proof.
  induction 1; cbn; [easy | destruct (p x); auto using perm_skip | destruct (p x), (p y); try reflexivity; apply perm_swap | etrans; eassumption].
Qed.
Lemma StronglySorted_list_filter {A} (R : relation A) (p : A -> bool) l :
  Sorted.StronglySorted R l -> Sorted.StronglySorted R (List.filter p l).
Proof.
  induction 1 as [|x l _ IH F]; cbn; [constructor|]. destruct (p x); [|exact IH]. constructor; [exact IH|].
  rewrite List.Forall_forall in *. intros y [I _]%filter_In. auto.
Qed.
Lemma filter_filter {A} (p q : A -> bool) l : (forall x, p x = true -> q x = true) ->
  List.filter p (List.filter q l) = List.filter p l.
Proof.
  intros I. induction l as [|x l IH]; cbn; [easy|]. destruct (q x) eqn:Q; cbn; rewrite IH; [easy|].
  destruct (p x) eqn:P; [|easy]. apply I in P. congruence.
Qed.
Lemma filter_omap {A B} (f : A -> option B) (p : B -> bool) (q : A -> bool) l :
  (forall x y, f x = Some y -> p y = q x) -> List.filter p (omap f l) = omap f (List.filter q l).
Proof.
  intros E. induction l as [|x l IH]; cbn; [easy|]. destruct (f x) as [y|] eqn:F; cbn.
  - rewrite (E x y F). destruct (q x); cbn; rewrite ?F, IH; reflexivity.
  - destruct (q x); cbn; rewrite ?F; exact IH.
Qed.
Lemma filter_nil {A} (f : A -> bool) l : List.filter f l = [] <-> Forall (fun x => f x = false) l.
Proof.
  induction l as [|x l IH]; cbn; [split; [constructor | easy]|]. rewrite Forall_cons, <- IH. destruct (f x); [split; [discriminate | intros [? _]; discriminate]|tauto].
Qed.
