(* ===== verification/RegExp.v ===== *)
(** * Regular expressions of JavaScript

    The part of RegExp the source uses: a parser of pattern source text, the
    backtracking matcher of ECMAScript (priorities of alternatives and of greedy
    and lazy repetition included), and [test], [match], [replace] and [split]
    on top of it.  A text is a [string] of code units below 256.  Patterns are
    written as in the source, with [\x22] and [\x60] for the quote and the
    backtick where the Rocq string cannot hold them.

    [mtch] is shown to find a match exactly when one exists in the declarative
    sense of [matches] ([test_iff]); the iterations of a repetition are bounded
    by the text that is left, so the fuel of [rep_loop] never runs out. *)
From Stdlib Require Import Ascii String.
From S2P Require Import Prelude.
Open Scope nat_scope.

Abbreviation chars := (list ascii) (only parsing).
Abbreviation explode := String.list_ascii_of_string.
Abbreviation implode := String.string_of_list_ascii.
Lemma explode_app s t : explode (s ++ t)%string = (explode s ++ explode t)%list.
Proof. induction s as [|c s IH]; [easy |]. exact (f_equal (cons c) IH). Qed.

(** ** Characters *)
Definition code (c : ascii) : N := N_of_ascii c.
Definition between (lo hi c : ascii) : bool := (code lo <=? code c)%N && (code c <=? code hi)%N.
Definition upper (c : ascii) : ascii :=
  if between "a" "z" c then ascii_of_N (code c - 32) else c.
Definition lower (c : ascii) : ascii :=
  if between "A" "Z" c then ascii_of_N (code c + 32) else c.
Definition is_digit (c : ascii) : bool := between "0" "9" c.
Definition is_word (c : ascii) : bool :=
  between "a" "z" c || between "A" "Z" c || is_digit c || (c =? "_")%char.
(** [\s]: tab to carriage return, space and no-break space. *)
Definition is_space (c : ascii) : bool :=
  ((9 <=? code c)%N && (code c <=? 13)%N) || (code c =? 32)%N || (code c =? 160)%N.
Definition is_newline (c : ascii) : bool := (code c =? 10)%N || (code c =? 13)%N.

Definition word_opt (c : option ascii) : bool := from_option is_word false c.

(** ** Patterns *)
Inductive escape := Space | Word | Digit.
Inductive item := Range (lo hi : ascii) | Esc (negated : bool) (e : escape).
Record cclass := mkClass { cc_negated : bool; cc_items : list item }.

Inductive re :=
  | Empty
  | Class (c : cclass)
  | Seq (r1 r2 : re)
  | Alt (r1 r2 : re)
  | Rep (greedy : bool) (lo : nat) (hi : option nat) (r : re)
  | Start | Finish
  | LineStart | LineFinish
  | Bound.

Definition escape_mem (e : escape) : ascii -> bool :=
  match e with Space => is_space | Word => is_word | Digit => is_digit end.
Definition item_mem (c : ascii) (i : item) : bool :=
  match i with
  | Range lo hi => between lo hi c
  | Esc negated e => xorb negated (escape_mem e c)
  end.
(** The [i] flag compares upper cases. *)
Definition class_mem (icase : bool) (cl : cclass) (c : ascii) : bool :=
  let mem c := existsb (item_mem c) (cc_items cl) in
  xorb (cc_negated cl) (mem c || icase && (mem (lower c) || mem (upper c))).

(** ** The parser of pattern text *)
Definition one (c : ascii) : cclass := mkClass false [Range c c].
Definition any : cclass := mkClass true [Range "010" "010"; Range "013" "013"].

Definition hex_value (c : ascii) : option N :=
  if is_digit c then Some (code c - 48)%N
  else if between "a" "f" c then Some (code c - 87)%N
  else if between "A" "F" c then Some (code c - 55)%N else None.

(** What follows a backslash: a class escape, or a character. *)
Definition parse_escape (s : chars) : option (item * chars) :=
  match s with
  | "s"%char :: s => Some (Esc false Space, s) | "S"%char :: s => Some (Esc true Space, s)
  | "w"%char :: s => Some (Esc false Word, s) | "W"%char :: s => Some (Esc true Word, s)
  | "d"%char :: s => Some (Esc false Digit, s) | "D"%char :: s => Some (Esc true Digit, s)
  | "n"%char :: s => Some (Range "010" "010", s)
  | "x"%char :: a :: b :: s =>
      a ← hex_value a; b ← hex_value b;
      let c := ascii_of_N (16 * a + b) in Some (Range c c, s)
  | c :: s => if is_word c then None else Some (Range c c, s)
  | [] => None
  end.

(** The items of a character class, up to the closing bracket. *)
Fixpoint parse_items (fuel : nat) (s : chars) : option (list item * chars) :=
  match fuel with
  | 0 => None
  | S fuel =>
      match s with
      | "]"%char :: s => Some ([], s)
      | _ =>
          '(i, s) ← match s with
                    | "\"%char :: s => parse_escape s
                    | c :: s => Some (Range c c, s)
                    | [] => None
                    end;
          '(i, s) ← match i, s with
                    | Range lo _, "-"%char :: hi :: s' =>
                        if (hi =? "]")%char then Some (i, s) else Some (Range lo hi, s')
                    | _, _ => Some (i, s)
                    end;
          '(its, s) ← parse_items fuel s;
          Some (i :: its, s)
      end
  end.

Fixpoint parse_number (acc : nat) (s : chars) : nat * chars :=
  match s with
  | c :: s' => if is_digit c then parse_number (10 * acc + N.to_nat (code c - 48)) s' else (acc, s)
  | [] => (acc, s)
  end.

Definition parse_bounds (s : chars) : option (nat * option nat * chars) :=
  let '(lo, s) := parse_number 0 s in
  match s with
  | "}"%char :: s => Some (lo, Some lo, s)
  | ","%char :: "}"%char :: s => Some (lo, None, s)
  | ","%char :: s =>
      let '(hi, s) := parse_number 0 s in
      match s with "}"%char :: s => Some (lo, Some hi, s) | _ => None end
  | _ => None
  end.

Definition parse_quantifier (r : re) (s : chars) : option (re * chars) :=
  let lazy lo hi s :=
    match s with
    | "?"%char :: s => Some (Rep false lo hi r, s)
    | _ => Some (Rep true lo hi r, s)
    end in
  match s with
  | "*"%char :: s => lazy 0 None s
  | "+"%char :: s => lazy 1 None s
  | "?"%char :: s => lazy 0 (Some 1) s
  | "{"%char :: s => '(lo, hi, s) ← parse_bounds s; lazy lo hi s
  | _ => Some (r, s)
  end.

(** Alternatives of sequences of quantified atoms; a capturing group is a
    group. *)
Fixpoint parse_alt (fuel : nat) (s : chars) : option (re * chars) :=
  match fuel with
  | 0 => None
  | S fuel =>
      '(r, s) ← parse_seq fuel s;
      match s with
      | "|"%char :: s => '(r', s) ← parse_alt fuel s; Some (Alt r r', s)
      | _ => Some (r, s)
      end
  end
with parse_seq (fuel : nat) (s : chars) : option (re * chars) :=
  match fuel with
  | 0 => None
  | S fuel =>
      match s with
      | [] | "|"%char :: _ | ")"%char :: _ => Some (Empty, s)
      | _ =>
          '(r, s) ← parse_atom fuel s;
          '(r, s) ← parse_quantifier r s;
          '(r', s) ← parse_seq fuel s;
          Some (Seq r r', s)
      end
  end
with parse_atom (fuel : nat) (s : chars) : option (re * chars) :=
  match fuel with
  | 0 => None
  | S fuel =>
      let group s :=
        '(r, s) ← parse_alt fuel s;
        match s with ")"%char :: s => Some (r, s) | _ => None end in
      match s with
      | "("%char :: "?"%char :: ":"%char :: s => group s
      | "("%char :: s => group s
      | "["%char :: "^"%char :: s => '(its, s) ← parse_items fuel s; Some (Class (mkClass true its), s)
      | "["%char :: s => '(its, s) ← parse_items fuel s; Some (Class (mkClass false its), s)
      | "\"%char :: "b"%char :: s => Some (Bound, s)
      | "\"%char :: s => '(i, s) ← parse_escape s; Some (Class (mkClass false [i]), s)
      | "."%char :: s => Some (Class any, s)
      | "^"%char :: s => Some (Start, s)
      | "$"%char :: s => Some (Finish, s)
      | c :: s => Some (Class (one c), s)
      | [] => None
      end
  end.

Definition parse (source : string) : option re :=
  let s := explode source in
  match parse_alt (2 + 4 * List.length s) s with
  | Some (r, []) => Some r
  | _ => None
  end.

(** A regular expression literal; a text that is no pattern matches nothing. *)
Record regexp := mkRegExp { rx_icase : bool; rx_re : re }.
Definition nothing : re := Class (mkClass false []).
Definition rx (source : string) : regexp := mkRegExp false (default nothing (parse source)).
(** The [m] flag: the anchors also hold at line breaks. *)
Fixpoint multiline (r : re) : re :=
  match r with
  | Seq r1 r2 => Seq (multiline r1) (multiline r2)
  | Alt r1 r2 => Alt (multiline r1) (multiline r2)
  | Rep greedy lo hi r => Rep greedy lo hi (multiline r)
  | Start => LineStart | Finish => LineFinish
  | _ => r
  end.
Definition rx_m (source : string) : regexp := mkRegExp false (multiline (default nothing (parse source))).
Definition rx_i (source : string) : regexp := mkRegExp true (default nothing (parse source)).

(** ** The matcher

    A position is the character before it and the text after it; a matcher
    calls its continuation on the positions where a match can end, in the order
    of ECMAScript, and returns its first answer. *)
Abbreviation pos := (option ascii * chars)%type (only parsing).

Section Matcher.
Context {A : Type} (icase : bool).

Definition orelse (x y : option A) : option A := match x with Some a => Some a | None => y end.

Fixpoint rep_loop (m : (pos -> option A) -> pos -> option A) (greedy : bool) (fuel lo : nat)
    (hi : option nat) (k : pos -> option A) (p : pos) : option A :=
  match fuel with
  | 0 => None
  | S fuel =>
      let stop := if lo =? 0 then k p else None in
      if decide (hi = Some 0) then stop
      else
        let more := m (fun q =>
          (* an optional iteration that consumed nothing is refused *)
          if (lo =? 0) && (List.length (q.2) =? List.length (p.2)) then None
          else rep_loop m greedy fuel (pred lo) (pred <$> hi) k q) p in
        if greedy then orelse more stop else orelse stop more
  end.

Fixpoint mtch (r : re) (k : pos -> option A) (p : pos) : option A :=
  match r with
  | Empty => k p
  | Class cl =>
      match p.2 with
      | c :: s => if class_mem icase cl c then k (Some c, s) else None
      | [] => None
      end
  | Seq r1 r2 => mtch r1 (mtch r2 k) p
  | Alt r1 r2 => orelse (mtch r1 k p) (mtch r2 k p)
  | Rep greedy lo hi r => rep_loop (mtch r) greedy (S (lo + List.length (p.2))) lo hi k p
  | Start => match p.1 with None => k p | Some _ => None end
  | Finish => match p.2 with [] => k p | _ => None end
  | LineStart => if from_option is_newline true (p.1) then k p else None
  | LineFinish => if from_option is_newline true (head (p.2)) then k p else None
  | Bound => if xorb (word_opt (p.1)) (word_opt (head (p.2))) then k p else None
  end.
End Matcher.

(** The first match at or after a position: the text skipped, the text
    matched, and the position after it. *)
Fixpoint find_match (x : regexp) (before : option ascii) (s : chars) : option (chars * chars * pos) :=
  match mtch (rx_icase x) (rx_re x) Some (before, s) with
  | Some q => Some ([], take (List.length s - List.length (q.2)) s, q)
  | None =>
      match s with
      | [] => None
      | c :: s' => '(skipped, m, q) ← find_match x (Some c) s'; Some (c :: skipped, m, q)
      end
  end.

(** All matches from left to right: the text before each, the match, and what
    is left at the end.  After an empty match the next character is skipped. *)
Fixpoint find_all (fuel : nat) (x : regexp) (before : option ascii) (s : chars) :
    list (chars * chars) * chars :=
  match fuel with
  | 0 => ([], s)
  | S fuel =>
      match find_match x before s with
      | None => ([], s)
      | Some (skipped, m, (b, rest)) =>
          match m, rest with
          | [], c :: rest =>
              let '(ms, final) := find_all fuel x (Some c) rest in
              match ms with
              | (g, m2) :: ms => ((skipped, []) :: (c :: g, m2) :: ms, final)
              | [] => ([(skipped, [])], c :: final)
              end
          | [], [] => ([(skipped, [])], [])
          | _, _ => let '(ms, final) := find_all fuel x b rest in ((skipped, m) :: ms, final)
          end
      end
  end.

Definition matches_in (x : regexp) (s : chars) : list (chars * chars) * chars :=
  find_all (S (List.length s)) x None s.

(** ** The methods of String and RegExp *)
Definition test (x : regexp) (s : string) : bool :=
  bool_decide (is_Some (find_match x None (explode s))).
(** [s.match(/x/g)]: the matched texts. *)
Definition match_all (x : regexp) (s : string) : list string :=
  implode <$> (snd <$> (matches_in x (explode s)).1).
(** [s.replace(/x/g, f)]. *)
Definition replace_all (x : regexp) (f : string -> string) (s : string) : string :=
  let '(ms, final) := matches_in x (explode s) in
  implode (concat ((fun gm => gm.1 ++ explode (f (implode gm.2))) <$> ms) ++ final).
(** [s.replace(/x/, t)], [t] without dollar signs. *)
Definition replace_first (x : regexp) (t : string) (s : string) : string :=
  match find_match x None (explode s) with
  | Some (skipped, _, (_, rest)) => implode (skipped ++ explode t ++ rest)
  | None => s
  end.
(** [s.replace(/x/, f)]: without the [g] flag only the first match is replaced. *)
Definition replace_first_with (x : regexp) (f : string -> string) (s : string) : string :=
  match find_match x None (explode s) with
  | Some (skipped, m, (_, rest)) => implode (skipped ++ explode (f (implode m)) ++ rest)
  | None => s
  end.
(** [s.match(/x/)[0]]. *)
Definition first_match (x : regexp) (s : string) : option string :=
  match find_match x None (explode s) with Some (_, m, _) => Some (implode m) | None => None end.
(** [s.split(/x/)], for a pattern without empty matches. *)
Definition split (x : regexp) (s : string) : list string :=
  let '(ms, final) := matches_in x (explode s) in
  implode <$> (fst <$> ms) ++ [final].

Fixpoint drop_space (s : chars) : chars :=
  match s with c :: s' => if is_space c then drop_space s' else s | [] => [] end.
Definition trim (s : string) : string :=
  implode (rev (drop_space (rev (drop_space (explode s))))).
Definition to_lower (s : string) : string := implode (lower <$> explode s).
Definition slice_to (n : nat) (s : string) : string := implode (take n (explode s)).

(** ** What a match is *)
Inductive matches (icase : bool) : re -> pos -> pos -> Prop :=
  | M_empty p : matches icase Empty p p
  | M_class cl before c s :
      class_mem icase cl c = true -> matches icase (Class cl) (before, c :: s) (Some c, s)
  | M_seq r1 r2 p q t :
      matches icase r1 p q -> matches icase r2 q t -> matches icase (Seq r1 r2) p t
  | M_alt_l r1 r2 p q : matches icase r1 p q -> matches icase (Alt r1 r2) p q
  | M_alt_r r1 r2 p q : matches icase r2 p q -> matches icase (Alt r1 r2) p q
  | M_stop greedy hi r p : matches icase (Rep greedy 0 hi r) p p
  | M_more greedy lo hi r p q t :
      hi <> Some 0 -> matches icase r p q ->
      matches icase (Rep greedy (pred lo) (pred <$> hi) r) q t ->
      matches icase (Rep greedy lo hi r) p t
  | M_start s : matches icase Start (None, s) (None, s)
  | M_finish before : matches icase Finish (before, []) (before, [])
  | M_line_start before s :
      from_option is_newline true before = true -> matches icase LineStart (before, s) (before, s)
  | M_line_finish before s :
      from_option is_newline true (head s) = true -> matches icase LineFinish (before, s) (before, s)
  | M_bound before s :
      xorb (word_opt before) (word_opt (head s)) = true ->
      matches icase Bound (before, s) (before, s).
Create HintDb regexp.
#[export] Hint Constructors matches : regexp.

(** [q] is [p] after some characters. *)
Inductive advances : pos -> pos -> Prop :=
  | adv_refl p : advances p p
  | adv_step b c s q : advances (Some c, s) q -> advances (b, c :: s) q.
#[export] Hint Constructors advances : regexp.

Lemma advances_trans p q t : advances p q -> advances q t -> advances p t.
Proof. induction 1; auto with regexp. Qed.

Lemma advances_length p q : advances p q -> p = q \/ List.length (q.2) < List.length (p.2).
Proof. induction 1 as [p|b c s q _ [<-|IH]]; cbn in *; auto; right; lia. Qed.

Lemma advances_suffix p q : advances p q -> exists m, p.2 = m ++ q.2.
Proof. induction 1 as [p|b c s q _ [m IH]]; [now exists [] | exists (c :: m); cbn in *; congruence]. Qed.

Lemma matches_advances icase r p q : matches icase r p q -> advances p q.
Proof. induction 1; eauto using advances_trans with regexp. Qed.

Lemma matches_shrink icase r p q : matches icase r p q -> p = q \/ List.length (q.2) < List.length (p.2).
Proof. intros H. eapply advances_length, matches_advances, H. Qed.

Section Correct.
Context {A : Type} (icase : bool).
Implicit Types (k : pos -> option A) (p q t : pos).

Definition sound (m : (pos -> option A) -> pos -> option A) (r : re) : Prop :=
  forall k p a, m k p = Some a -> exists q, matches icase r p q /\ k q = Some a.
Definition complete (m : (pos -> option A) -> pos -> option A) (r : re) : Prop :=
  forall k p q, matches icase r p q -> is_Some (k q) -> is_Some (m k p).

Lemma orelse_some (x y : option A) a : orelse x y = Some a -> x = Some a \/ y = Some a.
Proof. destruct x; cbn; auto. Qed.
Lemma orelse_is_some (x y : option A) : is_Some (orelse x y) <-> is_Some x \/ is_Some y.
Proof. destruct x; cbn; split; intros; eauto; destruct_or?; eauto; now destruct H. Qed.

Lemma rep_sound m r greedy : sound m r -> forall fuel lo hi k p a,
  rep_loop m greedy fuel lo hi k p = Some a ->
  exists q, matches icase (Rep greedy lo hi r) p q /\ k q = Some a.
Proof.
  intros S fuel. induction fuel as [|fuel IH]; intros lo hi k p a; cbn; [easy |].
  set (stop := if lo =? 0 then k p else None).
  assert (T : stop = Some a -> exists q, matches icase (Rep greedy lo hi r) p q /\ k q = Some a).
  { subst stop. destruct lo; cbn; [|easy]. intros E. exists p. auto with regexp. }
  destruct (decide (hi = Some 0)) as [_|N]; [exact T |].
  set (more := m _ p).
  assert (M : more = Some a -> exists q, matches icase (Rep greedy lo hi r) p q /\ k q = Some a).
  { subst more. intros (q & Hq & E)%S.
    destruct (_ && _); [easy |]. apply IH in E as (t & Ht & E). exists t. eauto with regexp. }
  destruct greedy; intros [E|E]%orelse_some; auto.
Qed.

(** A smaller upper bound allows less. *)
Lemma rep_weaken r greedy p q lo hi hi' :
  matches icase (Rep greedy lo hi r) p q ->
  (forall n', hi' = Some n' -> exists n, hi = Some n /\ n <= n') ->
  matches icase (Rep greedy lo hi' r) p q.
Proof.
  intros H. remember (Rep greedy lo hi r) as rr eqn:R. revert lo hi hi' R.
  induction H as [| | | | |gs hs rs ps|g lo' h r' p q t N Hr _ Ht IH| | | | |];
    intros lo hi hi' R B; try discriminate; injection R as R1 R2 R3 R4; subst; [auto with regexp |].
  apply (M_more _ _ _ _ _ p q); [|easy |].
  - intros ->. destruct (B 0 eq_refl) as (n & -> & L). apply N. f_equal. lia.
  - apply (IH _ _ _ eq_refl). intros n' E. destruct hi' as [m'|]; cbn in E; [|easy].
    destruct (B m' eq_refl) as (n & -> & L). exists (pred n). injection E as <-. cbn. split; [easy | lia].
Qed.

(** A repetition that goes on makes progress in its optional iterations. *)
Lemma rep_unfold r greedy lo hi p q :
  matches icase (Rep greedy lo hi r) p q ->
  (lo = 0 /\ p = q) \/
  (hi <> Some 0 /\ exists t, matches icase r p t /\
    (lo = 0 -> List.length (t.2) < List.length (p.2)) /\
    matches icase (Rep greedy (pred lo) (pred <$> hi) r) t q).
Proof.
  intros H. remember (Rep greedy lo hi r) as rr eqn:R. revert lo hi R.
  induction H as [| | | | |gs hs rs ps|g lo' h r' p q t N Hr _ Ht IH| | | | |];
    intros lo hi R; try discriminate; injection R as R1 R2 R3 R4; subst; [now left |].
  destruct (matches_shrink _ _ _ _ Hr) as [<-|L]; [|right; split; [easy | eauto]].
  destruct lo as [|lo]; [|right; split; [easy |]; exists p; split; [easy |]; split; [lia | easy]].
  destruct (IH _ _ eq_refl) as [[_ ->]|(N2 & t2 & H1 & L2 & H2)]; [now left | right].
  split; [easy |]. exists t2. split; [easy |]. split; [auto |].
  apply (rep_weaken _ _ _ _ _ _ (pred <$> hi)) in H2; [exact H2 |].
  intros n'. destruct hi as [n|]; cbn; [|easy]. intros [= <-]. exists (pred (pred n)). split; [easy | lia].
Qed.

Lemma rep_complete m r greedy : complete m r -> forall fuel lo hi k p q,
  matches icase (Rep greedy lo hi r) p q -> is_Some (k q) -> lo + List.length (p.2) < fuel ->
  is_Some (rep_loop m greedy fuel lo hi k p).
Proof.
  intros C fuel. induction fuel as [|fuel IH]; intros lo hi k p q H K F; [lia | cbn].
  apply rep_unfold in H as [[-> ->]|(N & t & Hr & L & Ht)]; cbn.
  - destruct (decide (hi = Some 0)); [easy |]. destruct greedy; apply orelse_is_some; auto.
  - destruct (decide (hi = Some 0)) as [|_]; [easy |].
    assert (M : is_Some (m (fun q0 => if (lo =? 0) && (List.length (q0.2) =? List.length (p.2)) then None
        else rep_loop m greedy fuel (pred lo) (pred <$> hi) k q0) p)).
    { apply (C _ p t Hr). pose proof (matches_shrink _ _ _ _ Hr) as D.
      destruct lo as [|lo]; cbn.
      - rewrite (proj2 (Nat.eqb_neq _ _)) by (specialize (L eq_refl); lia).
        apply (IH _ _ _ _ _ Ht K). specialize (L eq_refl). cbn in *. lia.
      - apply (IH _ _ _ _ _ Ht K). cbn in *. destruct D as [<-|D]; lia. }
    destruct greedy; apply orelse_is_some; auto.
Qed.

Lemma mtch_sound r : sound (mtch icase r) r.
Proof.
  induction r as [|cl|r1 IH1 r2 IH2|r1 IH1 r2 IH2|g lo hi r IH| | | | |]; intros k [b s] a; cbn -[rep_loop].
  - eauto with regexp.
  - destruct s as [|c s]; [easy |]. destruct (class_mem icase cl c) eqn:E; [eauto with regexp | easy].
  - intros (q & H1 & (t & H2 & E)%IH2)%IH1. eauto with regexp.
  - intros [(q & H & E)%IH1|(q & H & E)%IH2]%orelse_some; eauto with regexp.
  - apply rep_sound, IH.
  - destruct b; [easy | eauto with regexp].
  - destruct s; [eauto with regexp | easy].
  - destruct (from_option is_newline true b) eqn:E; [eauto with regexp | easy].
  - destruct (from_option is_newline true (head s)) eqn:E; [eauto with regexp | easy].
  - destruct (xorb _ _) eqn:E; [eauto with regexp | easy].
Qed.

Lemma mtch_complete r : complete (mtch icase r) r.
Proof.
  induction r as [|cl|r1 IH1 r2 IH2|r1 IH1 r2 IH2|g lo hi r IH| | | | |]; intros k p q H K.
  5: { cbn -[rep_loop]. eapply rep_complete; [exact IH | exact H | exact K | lia]. }
  all: inversion H; subst; cbn -[word_opt is_newline]; auto.
  - match goal with E : class_mem _ _ _ = true |- _ => now rewrite E end.
  - eapply IH1; [eassumption |]. eapply IH2; eassumption.
  - apply orelse_is_some. eauto.
  - apply orelse_is_some. eauto.
  - match goal with E : from_option is_newline true _ = true |- _ => now rewrite E end.
  - match goal with E : from_option is_newline true _ = true |- _ => now rewrite E end.
  - match goal with E : xorb _ _ = true |- _ => now rewrite E end.
Qed.
End Correct.

(** ** Searching *)

(** A match of [x] somewhere in [s] read after [before]. *)
Definition occurs (x : regexp) (before : option ascii) (s : chars) : Prop :=
  exists p q, advances (before, s) p /\ matches (rx_icase x) (rx_re x) p q.

Lemma find_match_none x before s : find_match x before s = None -> ~ occurs x before s.
Proof.
  revert before. induction s as [|c s IH]; intros before; cbn;
    (destruct (mtch _ _ _ _) as [q|] eqn:E; [easy |]); intros F (p & q & A & M).
  - inversion A; subst. destruct (mtch_complete (rx_icase x) (rx_re x) Some _ _ M) as [? G]; [eauto | congruence].
  - destruct (find_match x (Some c) s) as [[[]]|] eqn:G; [easy |].
    inversion A; subst; [|apply (IH _ G); now exists p, q].
    destruct (mtch_complete (rx_icase x) (rx_re x) Some _ _ M) as [? G']; [eauto | congruence].
Qed.

Lemma take_suffix {B} (m s : list B) : take (List.length (m ++ s) - List.length s) (m ++ s) = m.
Proof. rewrite length_app. replace (_ + _ - _) with (List.length m) by lia. apply take_app_length. Qed.

(** The first match: what it skips holds no earlier start of a match. *)
Lemma find_match_some x before s skipped m q :
  find_match x before s = Some (skipped, m, q) ->
  s = skipped ++ m ++ q.2 /\
  exists p, advances (before, s) p /\ p.2 = m ++ q.2 /\ matches (rx_icase x) (rx_re x) p q.
Proof.
  revert before skipped m q. induction s as [|c s IH]; intros before skipped m q; cbn;
    (destruct (mtch _ _ _ _) as [t|] eqn:E;
     [ intros [= <- <- <-]; destruct (mtch_sound _ _ _ _ _ E) as (q' & M & [= ->]);
       destruct (advances_suffix _ _ (matches_advances _ _ _ _ M)) as [u U]; cbn in U | ]).
  - rewrite U at 1. split; [now destruct u |]. exists (before, []). repeat split; auto with regexp.
    cbn. destruct u; [exact U | easy].
  - easy.
  - assert (T : take (List.length (c :: s) - List.length (t.2)) (c :: s) = u).
    { rewrite U at 1 2. apply take_suffix. }
    cbn in T. rewrite T. split; [exact U |].
    exists (before, c :: s). repeat split; auto with regexp.
  - destruct (find_match x (Some c) s) as [[[sk m'] q']|] eqn:G; [|easy]. intros [= <- <- <-].
    apply IH in G as (-> & p & A & P & M). split; [easy |]. exists p. eauto with regexp.
Qed.

Lemma find_match_occurs x before s : is_Some (find_match x before s) <-> occurs x before s.
Proof.
  split.
  - intros [[[sk m] q] (_ & p & A & _ & M)%find_match_some]. now exists p, q.
  - intros H. destruct (find_match x before s) eqn:E; [eauto |].
    now apply find_match_none in E.
Qed.

(** [test] decides whether some part of the text is in the language of the
    pattern. *)
Lemma test_occurs x s : test x s = true <-> occurs x None (explode s).
Proof. unfold test. rewrite bool_decide_eq_true. apply find_match_occurs. Qed.

(** The matches found and the text between them make up the text. *)
Definition glue (ms : list (chars * chars)) (final : chars) : chars :=
  concat ((fun gm => gm.1 ++ gm.2) <$> ms) ++ final.

Lemma find_all_glue x fuel before s :
  glue (find_all fuel x before s).1 (find_all fuel x before s).2 = s.
Proof.
  revert before s. induction fuel as [|fuel IH]; intros before s; cbn; [easy |].
  destruct (find_match x before s) as [[[sk m] [b rest]]|] eqn:E; [|easy].
  apply find_match_some in E as (-> & _). cbn.
  destruct m as [|c0 m].
  - destruct rest as [|c rest]; [unfold glue; cbn; now rewrite !app_nil_r |].
    specialize (IH (Some c) rest). destruct (find_all fuel x (Some c) rest) as [ms final].
    unfold glue in *. cbn in *. destruct ms as [|[g m2] ms]; cbn in *; rewrite <- IH;
      rewrite ?app_nil_r, <- ?app_assoc; cbn; rewrite <- ?app_assoc; reflexivity.
  - specialize (IH b rest). destruct (find_all fuel x b rest) as [ms final].
    unfold glue in *. cbn in *. rewrite <- IH. now rewrite <- !app_assoc.
Qed.

Lemma replace_id_glue x (f : string -> string) s :
  Forall (fun gm => explode (f (implode gm.2)) = gm.2) (matches_in x (explode s)).1 ->
  replace_all x f s = s.
Proof.
  intros H. unfold replace_all.
  pose proof (find_all_glue x (S (List.length (explode s))) None (explode s)) as G.
  unfold matches_in in *. destruct (find_all _ _ _ _) as [ms final]. cbn in *.
  replace ((fun gm => gm.1 ++ explode (f (implode gm.2))) <$> ms) with ((fun gm : chars * chars => gm.1 ++ gm.2) <$> ms).
  - unfold glue in G. rewrite G. apply String.string_of_list_ascii_of_string.
  - apply list_fmap_ext. intros i gm L. apply Forall_lookup_1 with (i := i) (x := gm) in H; [|easy].
    now rewrite H.
Qed.

(** A text without a match is not changed. *)
Lemma replace_none x f s : test x s = false -> replace_all x f s = s.
Proof.
  intros T. apply replace_id_glue. unfold matches_in. cbn.
  destruct (find_match x None (explode s)) as [[[sk m] q]|] eqn:E; [|constructor].
  assert (test x s = true) by (apply test_occurs, find_match_occurs; eauto). congruence.
Qed.

Lemma replace_first_with_id x (f : string -> string) s :
  from_option (fun m => f m = m) True (first_match x s) -> replace_first_with x f s = s.
Proof.
  unfold first_match, replace_first_with.
  destruct (find_match x None (explode s)) as [[[sk m] [b rest]]|] eqn:E; [|easy]. cbn. intros ->.
  apply find_match_some in E as (E & _). cbn in E.
  rewrite String.list_ascii_of_string_of_list_ascii, <- E. apply String.string_of_list_ascii_of_string.
Qed.

Lemma find_all_matches x fuel : forall before s gm, gm ∈ (find_all fuel x before s).1 ->
  exists p q, matches (rx_icase x) (rx_re x) p q /\ p.2 = gm.2 ++ q.2.
Proof.
  induction fuel as [|fuel IH]; intros before s gm; cbn; [intros []%not_elem_of_nil |].
  destruct (find_match x before s) as [[[sk m] [b rest]]|] eqn:E; [|intros []%not_elem_of_nil].
  apply find_match_some in E as (_ & p & _ & P & M).
  assert (Here : exists p q, matches (rx_icase x) (rx_re x) p q /\ p.2 = m ++ q.2) by eauto.
  destruct m as [|c0 m].
  - destruct rest as [|c rest]; [intros ->%list_elem_of_singleton; exact Here |].
    specialize (IH (Some c) rest). destruct (find_all fuel x (Some c) rest) as [[|[g m2] ms] final]; cbn in *.
    + intros ->%list_elem_of_singleton. exact Here.
    + intros [->|[->|I]%elem_of_cons]%elem_of_cons; [exact Here | apply (IH (g, m2)); now left | apply IH; now right].
  - specialize (IH b rest). destruct (find_all fuel x b rest) as [ms final]. cbn in *.
    intros [->|I]%elem_of_cons; [exact Here | auto].
Qed.

Lemma implode_app a b : implode (a ++ b) = String.append (implode a) (implode b).
Proof. induction a as [|c a IH]; [reflexivity | exact (f_equal (String.String c) IH)]. Qed.

(** The pieces between matches, joined by what was matched, are the text. *)
Lemma concat_pieces (sep : chars) (ms : list (chars * chars)) final :
  Forall (fun gm => gm.2 = sep) ms ->
  String.concat (implode sep) (implode <$> (fst <$> ms) ++ [final]) = implode (glue ms final).
Proof.
  unfold glue. induction ms as [|[g m] ms IH]; intros F; [reflexivity |].
  apply Forall_cons in F as [F1 F2]. cbn in F1. subst m.
  specialize (IH F2). rewrite implode_app in IH. cbn. rewrite <- !app_assoc, !implode_app, <- IH.
  destruct ms as [|[g2 m2] ms]; reflexivity.
Qed.

Lemma join_split x (sep : chars) s :
  (forall p q m, matches (rx_icase x) (rx_re x) p q -> p.2 = m ++ q.2 -> m = sep) ->
  String.concat (implode sep) (split x s) = s.
Proof.
  intros L. unfold split. pose proof (find_all_glue x (S (List.length (explode s))) None (explode s)) as G.
  pose proof (find_all_matches x (S (List.length (explode s))) None (explode s)) as A. unfold matches_in.
  destruct (find_all _ _ _ _) as [ms final]. cbn [fst snd] in G, A.
  rewrite concat_pieces, G; [apply String.string_of_list_ascii_of_string |].
  apply Forall_forall. intros gm I. destruct (A gm I) as (p & q & M & P). eauto.
Qed.
