(* ===== verification/Redactor.v ===== *)
(** * Redaction of prompts

    llm-gateway/redactor.ts: credentials and addresses are replaced before a
    prompt leaves the platform.  [redact_clean] says when a text leaves
    unchanged, [redact_misses] two forms of secrets the patterns do not see. *)
From Stdlib Require Import Ascii.
From S2P Require Import Prelude RegExp.

Definition PATTERNS : list (regexp * string) := [
  (rx "\bAKIA[0-9A-Z]{16}\b", "aws_access_key_id");
  (rx_i "\baws_secret_access_key\s*[=:]\s*[A-Za-z0-9/+]{40}\b", "aws_secret_access_key");
  (rx "\bsk-[A-Za-z0-9_-]{16,}\b", "api_key");
  (rx "\bghp_[A-Za-z0-9]{36}\b", "github_pat");
  (rx_i "\b(?:authorization|x-api-key|api[_-]?key|token|secret|password)\s*[=:]\s*[\x22']?[^\s\x22']{8,}[\x22']?", "credential_kv");
  (rx "\beyJ[A-Za-z0-9_-]{10,}\.[A-Za-z0-9_-]{10,}\.[A-Za-z0-9_-]{10,}\b", "jwt");
  (rx "-----BEGIN [A-Z ]*PRIVATE KEY-----[\s\S]*?-----END [A-Z ]*PRIVATE KEY-----", "private_key");
  (rx "\b[A-Za-z0-9._%+-]+@[A-Za-z0-9.-]+\.[A-Za-z]{2,}\b", "email")]%string.

Record RedactionResult := mkRedactionResult { rr_text : string; rr_hits : list string }.

(** One pattern: every match is replaced, each one pushes a hit. *)
Definition redact_step (acc : string * list string) (p : regexp * string) : string * list string :=
  let '(out, hits) := acc in
  let '(re, label) := p in
  (replace_all re (fun _ => "[redacted:" ++ label ++ "]")%string out,
   hits ++ ((fun _ => label) <$> match_all re out)).

Definition redact (text : string) : RedactionResult :=
  let '(out, hits) := fold_left redact_step PATTERNS (text, []) in
  mkRedactionResult out (uniq hits).

(** A JSON string. *)
Definition quoted (s : string) : string := String "034"%char (s ++ String "034"%char EmptyString).

(** ** Lemmas *)

(** Every pattern of the list is well-formed. *)
Lemma patterns_parse : Forall (fun p => rx_re p.1 <> nothing) PATTERNS.
Proof. repeat constructor; vm_compute; discriminate. Qed.

Lemma match_all_nil x s : match_all x s = [] <-> ~ occurs x None (explode s).
Proof.
  rewrite <- test_occurs, not_true_iff_false. unfold match_all, matches_in, test. cbn.
  destruct (find_match x None (explode s)) as [[[sk m] [b rest]]|]; cbn; [|easy].
  split; [|easy]. destruct m, rest; cbn; try (destruct (find_all _ _ _ _) as [[|[]] ?]); easy.
Qed.

Lemma redact_step_hits ps : forall out hits,
  exists more, (fold_left redact_step ps (out, hits)).2 = hits ++ more.
Proof.
  induction ps as [|[re label] ps IH]; intros out hits; cbn; [exists []; now rewrite app_nil_r |].
  destruct (IH (replace_all re (fun _ => "[redacted:" ++ label ++ "]")%string out)
    (hits ++ ((fun _ => label) <$> match_all re out))) as [more ->].
  exists (((fun _ => label) <$> match_all re out) ++ more). now rewrite app_assoc.
Qed.

Lemma redact_step_clean ps : forall out,
  (fold_left redact_step ps (out, [])).2 = [] <->
  Forall (fun p => ~ occurs p.1 None (explode out)) ps.
Proof.
  induction ps as [|[re label] ps IH]; intros out; cbn; [easy |]. rewrite Forall_cons. cbn.
  rewrite <- match_all_nil. destruct (match_all re out) as [|m ms] eqn:E; cbn.
  - rewrite (replace_none re _ out), IH; [tauto |].
    apply not_true_iff_false. rewrite test_occurs. now apply match_all_nil.
  - destruct (redact_step_hits ps (replace_all re (fun _ => "[redacted:" ++ label ++ "]")%string out)
      (label :: ((fun _ => label) <$> ms))) as [more ->]. easy.
Qed.

Lemma redact_step_same ps : forall out,
  Forall (fun p => ~ occurs p.1 None (explode out)) ps ->
  fold_left redact_step ps (out, []) = (out, []).
Proof.
  induction ps as [|[re label] ps IH]; intros out F; cbn; [easy |].
  apply Forall_cons in F as [F1 F2]. cbn in F1.
  rewrite (proj2 (match_all_nil re out) F1), replace_none; [now apply IH |].
  apply not_true_iff_false. now rewrite test_occurs.
Qed.

(** ** Theorems *)

(** No hit is reported exactly when no credential pattern matches any part of
    the text (in the declarative sense of [occurs]), and the text is then sent
    unchanged; the reported labels are distinct and name patterns. *)
Theorem redact_clean text :
  (rr_hits (redact text) = [] <-> forall p, p ∈ PATTERNS -> ~ occurs p.1 None (explode text)) /\
  (rr_hits (redact text) = [] -> rr_text (redact text) = text) /\
  NoDup (rr_hits (redact text)).
Proof.
  unfold redact. pose proof (redact_step_clean PATTERNS text) as C.
  pose proof (redact_step_same PATTERNS text) as S. rewrite <- C in S.
  destruct (fold_left redact_step PATTERNS (text, [])) as [out hits]. cbn in *.
  assert (E : uniq hits = [] <-> hits = []).
  { split; [|now intros ->]. intros E. destruct hits as [|h hits]; [easy |].
    assert (h ∈ uniq (h :: hits)) by (apply elem_of_uniq; left). rewrite E in *. set_solver. }
  rewrite E, C, Forall_forall. split; [easy |]. split; [|apply NoDup_uniq].
  intros H. apply Forall_forall, C in H. now injection (S H).
Qed.

(** What the patterns do not see: an AWS secret key that ends in a slash or a plus
    sign (the closing word boundary fails there), a credential in JSON (the quote
    after its name), as the prompts of the mentor carry the environment state, and
    a name with an underscore before it.  The same secrets written otherwise are
    redacted. *)
Theorem redact_misses :
  (forall text, text ∈ [
     "aws_secret_access_key = wJalrXUtnFEMI/K7MDENG/bPxRfiCYEXAMPLEKE/";
     "{" ++ quoted "password" ++ ":" ++ quoted "supersecret1" ++ "}"; "DB_PASSWORD=supersecret1"]%string ->
     redact text = mkRedactionResult text []) /\
  (forall text, text ∈ [
     "aws_secret_access_key = wJalrXUtnFEMI/K7MDENG/bPxRfiCYEXAMPLEKEY";
     "{password:" ++ quoted "supersecret1" ++ "}"; "PASSWORD=supersecret1"]%string ->
     rr_hits (redact text) <> []).
Proof.
  split; intros text H; repeat (apply elem_of_cons in H as [->|H]; [vm_compute; first [reflexivity | discriminate] |]);
    now apply elem_of_nil in H.
Qed.
