(* ===== verification/JsNum.v ===== *)
(** * JavaScript numbers

    A finite JavaScript number is an IEEE-754 double.  It is modelled here by
    the rational it denotes, and every arithmetic operator of the source rounds
    its exact result ([x +! y] is [rnd (x + y)]).  The rounding is an interface,
    [Rounding], that states what IEEE-754 round-to-nearest guarantees; theorems
    are proved against it and so hold for the doubles as well as for exact
    arithmetic.  [binary64] is the concrete 53-bit round-half-even instance,
    [exact] the identity.  NaN and the infinities do not occur in a [Q]; where
    the source can produce one the component models it separately. *)
From S2P Require Import Prelude.
Open Scope Q_scope.

(** ** The interface *)
Class Rounding := {
  rnd : Q -> Q;
  rnd_mono : forall x y, x <= y -> rnd x <= rnd y;
  rnd_dyadic : forall z k, (Z.abs z <= 2 ^ 53)%Z -> (0 <= k <= 1074)%Z ->
    rnd (inject_Z z / inject_Z (2 ^ k)) == inject_Z z / inject_Z (2 ^ k);
  rnd_idem : forall x, rnd (rnd x) == rnd x
}.

#[export] Instance rnd_proper `{Rounding} : Proper (Qeq ==> Qeq) rnd.
Proof. intros x y E. apply Qle_antisym; apply rnd_mono; rewrite E; apply Qle_refl. Qed.

(** Integers up to 2^53 are exact. *)
Lemma rnd_int `{Rounding} z : (Z.abs z <= 2 ^ 53)%Z -> rnd (inject_Z z) == inject_Z z.
Proof.
  intros Hz. assert (E : inject_Z z == inject_Z z / inject_Z (2 ^ 0)) by
    (symmetry; apply Qmult_1_r).
  rewrite E. apply rnd_dyadic; lia.
Qed.

(** ** Operators and the parts of [Math] the source uses *)
Definition add `{Rounding} (x y : Q) : Q := rnd (x + y).
Definition sub `{Rounding} (x y : Q) : Q := rnd (x - y).
Definition mul `{Rounding} (x y : Q) : Q := rnd (x * y).
Definition div `{Rounding} (x y : Q) : Q := rnd (x / y).
(** A decimal literal of the source, and [Number(s)] of a decimal string. *)
Definition lit `{Rounding} (x : Q) : Q := rnd x.

Declare Scope js_scope.
Delimit Scope js_scope with js.
Infix "+!" := add (at level 50, left associativity) : js_scope.
Infix "-!" := sub (at level 50, left associativity) : js_scope.
Infix "*!" := mul (at level 40, left associativity) : js_scope.
Infix "/!" := div (at level 40, left associativity) : js_scope.
Open Scope js_scope.

Definition Qltb (x y : Q) : bool := negb (Qle_bool y x).
Infix "<?" := Qltb : Q_scope.
Infix "<=?" := Qle_bool : Q_scope.

(** [Math.min], [Math.max], [Math.abs], [Math.floor] and [Math.round] (ties go up). *)
Definition jmin (x y : Q) : Q := if x <=? y then x else y.
Definition jmax (x y : Q) : Q := if x <=? y then y else x.
Definition jabs (x : Q) : Q := Qabs x.
Definition jfloor (x : Q) : Z := Qfloor x.
Definition jceil (x : Q) : Z := Qceiling x.
Definition jround (x : Q) : Z := Qfloor (x + (1 # 2)).

(** [Math.min(max, Math.max(min, value))], declared in several source files. *)
Definition clamp (value lo hi : Q) : Q := jmin hi (jmax lo value).
Definition clamp01 (n : Q) : Q := jmin 1 (jmax 0 n).

(** [Math.round(n * 1e4) / 1e4]. *)
Definition round4 `{Rounding} (n : Q) : Q :=
  inject_Z (jround (n *! 10000)) /! 10000.

(** [Array.prototype.reduce] of an addition, from 0, left to right. *)
Definition sum_by `{Rounding} {A} (f : A -> Q) (l : list A) : Q :=
  fold_left (fun acc x => acc +! f x) l 0.

(** ** Comparison and min/max lemmas *)
Lemma Qltb_lt x y : (x <? y) = true <-> x < y.
Proof.
  unfold Qltb. rewrite negb_true_iff, <- not_true_iff_false, Qle_bool_iff.
  split; [apply Qnot_le_lt | apply Qlt_not_le].
Qed.

Lemma Qltb_ge x y : (x <? y) = false <-> y <= x.
Proof. unfold Qltb. now rewrite negb_false_iff, Qle_bool_iff. Qed.

Lemma Qleb_gt x y : (x <=? y) = false <-> y < x.
Proof.
  rewrite <- not_true_iff_false, Qle_bool_iff.
  split; [apply Qnot_le_lt | apply Qlt_not_le].
Qed.

Lemma Qleb_le x y : (x <=? y) = true <-> x <= y.
Proof. apply Qle_bool_iff. Qed.

(** Case analysis on the boolean comparisons of a goal or hypothesis. *)
Ltac no_if t := lazymatch t with context [if _ then _ else _] => fail | _ => idtac end.
Ltac qcase1 :=
  match goal with
  | |- context [?x <=? ?y] => no_if x; no_if y; destruct (x <=? y) eqn:?
  | |- context [?x <? ?y] => no_if x; no_if y; destruct (x <? y) eqn:?
  | H : context [if ?x <=? ?y then _ else _] |- _ =>
      no_if x; no_if y; destruct (x <=? y) eqn:?
  | H : context [if ?x <? ?y then _ else _] |- _ =>
      no_if x; no_if y; destruct (x <? y) eqn:?
  end.
Ltac qprop :=
  repeat match goal with
  | H : (_ <=? _) = true |- _ => apply Qleb_le in H
  | H : (_ <=? _) = false |- _ => apply Qleb_gt in H
  | H : (_ <? _) = true |- _ => apply Qltb_lt in H
  | H : (_ <? _) = false |- _ => apply Qltb_ge in H
  end.
Ltac qminmax := unfold clamp, clamp01, jmin, jmax in *; repeat qcase1; qprop.
Ltac qlra := qminmax; lra.

Lemma jmin_le_l x y : jmin x y <= x. Proof. qlra. Qed.
Lemma jmin_le_r x y : jmin x y <= y. Proof. qlra. Qed.
Lemma jmin_glb x y z : z <= x -> z <= y -> z <= jmin x y. Proof. intros; qlra. Qed.
Lemma jmin_mono x x' y y' : x <= x' -> y <= y' -> jmin x y <= jmin x' y'.
Proof. intros; qlra. Qed.
Lemma jmax_mono x x' y y' : x <= x' -> y <= y' -> jmax x y <= jmax x' y'.
Proof. intros; qlra. Qed.

Lemma clamp_bounds v lo hi : lo <= hi -> lo <= clamp v lo hi <= hi.
Proof. intros; qlra. Qed.
Lemma clamp01_bounds v : 0 <= clamp01 v <= 1.
Proof. qlra. Qed.
Lemma clamp01_id v : 0 <= v <= 1 -> clamp01 v == v.
Proof. intros; qlra. Qed.
Lemma clamp01_mono v w : v <= w -> clamp01 v <= clamp01 w.
Proof. intros; qlra. Qed.
Lemma clamp_mono v w lo hi : v <= w -> clamp v lo hi <= clamp w lo hi.
Proof. intros; qlra. Qed.

Lemma jround_mono x y : x <= y -> (jround x <= jround y)%Z.
Proof. intros L. apply Qfloor_resp_le. lra. Qed.
Lemma jround_int z : jround (inject_Z z) = z.
Proof.
  unfold jround. pose proof (Qfloor_le (inject_Z z + (1 # 2))) as L.
  pose proof (Qlt_floor (inject_Z z + (1 # 2))) as U. set (f := Qfloor _) in *.
  assert (inject_Z f < inject_Z (z + 1)) by (rewrite inject_Z_plus; change (inject_Z 1) with 1; lra).
  assert (inject_Z z < inject_Z (f + 1)) by lra.
  rewrite <- Zlt_Qlt in *. lia.
Qed.
#[export] Instance jround_proper : Proper (Qeq ==> eq) jround.
Proof. intros x y E. unfold jround. now rewrite E. Qed.

#[export] Instance jmin_proper : Proper (Qeq ==> Qeq ==> Qeq) jmin.
Proof. intros x x' E y y' E'. qlra. Qed.
#[export] Instance jmax_proper : Proper (Qeq ==> Qeq ==> Qeq) jmax.
Proof. intros x x' E y y' E'. qlra. Qed.
#[export] Instance clamp01_proper : Proper (Qeq ==> Qeq) clamp01.
Proof. intros x x' E. unfold clamp01. now rewrite E. Qed.
#[export] Instance Qltb_proper : Proper (Qeq ==> Qeq ==> eq) Qltb.
Proof.
  intros x x' E y y' E'. destruct (x <? y) eqn:H1, (x' <? y') eqn:H2; auto; qprop; lra.
Qed.

(** ** Laws of the rounded operators *)
Section RoundingLaws.
Context `{Rounding}.

Lemma rnd_0 : rnd 0 == 0.
Proof. apply (rnd_int 0). lia. Qed.
Lemma rnd_1 : rnd 1 == 1.
Proof. apply (rnd_int 1). lia. Qed.

Lemma rnd_ub x z : (Z.abs z <= 2 ^ 53)%Z -> x <= inject_Z z -> rnd x <= inject_Z z.
Proof. intros Hz Hx. rewrite <- (rnd_int z Hz). now apply rnd_mono. Qed.
Lemma rnd_lb x z : (Z.abs z <= 2 ^ 53)%Z -> inject_Z z <= x -> inject_Z z <= rnd x.
Proof. intros Hz Hx. rewrite <- (rnd_int z Hz) at 1. now apply rnd_mono. Qed.

Lemma rnd_nonneg x : 0 <= x -> 0 <= rnd x.
Proof. apply (rnd_lb x 0). lia. Qed.
Lemma rnd_nonpos x : x <= 0 -> rnd x <= 0.
Proof. apply (rnd_ub x 0). lia. Qed.
Lemma rnd_le_1 x : x <= 1 -> rnd x <= 1.
Proof. apply (rnd_ub x 1). lia. Qed.
(** A half is a double: what lies below it stays below it. *)
Lemma rnd_half_ub x : x <= 1 # 2 -> rnd x <= 1 # 2.
Proof. intros L. change (1 # 2) with (inject_Z 1 / inject_Z (2 ^ 1)). rewrite <- rnd_dyadic by lia. now apply rnd_mono. Qed.
Lemma rnd_half_lb x : 1 # 2 <= x -> 1 # 2 <= rnd x.
Proof. intros L. change (1 # 2) with (inject_Z 1 / inject_Z (2 ^ 1)). rewrite <- rnd_dyadic by lia. now apply rnd_mono. Qed.
Lemma rnd_unit x : 0 <= x <= 1 -> 0 <= rnd x <= 1.
Proof. intros []. split; [now apply rnd_nonneg | now apply rnd_le_1]. Qed.

(** A rounded result stays on the same side of an already rounded number. *)
Lemma rnd_ge_fix x y : rnd x == x -> x <= y -> x <= rnd y.
Proof. intros E L. rewrite <- E at 1. now apply rnd_mono. Qed.
Lemma rnd_le_fix x y : rnd y == y -> x <= y -> rnd x <= y.
Proof. intros E L. rewrite <- E. now apply rnd_mono. Qed.

(** Dyadic fractions bound what they bound before rounding. *)
Lemma rnd_frac_lb z k x : (Z.abs z <= 2 ^ 53)%Z -> (0 <= k <= 1074)%Z ->
  inject_Z z / inject_Z (2 ^ k) <= x -> inject_Z z / inject_Z (2 ^ k) <= rnd x.
Proof. intros Hz Hk L. rewrite <- (rnd_dyadic z k Hz Hk) at 1. now apply rnd_mono. Qed.
Lemma rnd_frac_ub z k x : (Z.abs z <= 2 ^ 53)%Z -> (0 <= k <= 1074)%Z ->
  x <= inject_Z z / inject_Z (2 ^ k) -> rnd x <= inject_Z z / inject_Z (2 ^ k).
Proof. intros Hz Hk L. rewrite <- (rnd_dyadic z k Hz Hk). now apply rnd_mono. Qed.

Lemma lit_mono x y : x <= y -> lit x <= lit y.
Proof. apply rnd_mono. Qed.
Lemma lit_unit x : 0 <= x <= 1 -> 0 <= lit x <= 1.
Proof. apply rnd_unit. Qed.

Lemma add_mono x x' y y' : x <= x' -> y <= y' -> x +! y <= x' +! y'.
Proof. intros; unfold add; apply rnd_mono; lra. Qed.
Lemma sub_mono x x' y y' : x <= x' -> y' <= y -> x -! y <= x' -! y'.
Proof. intros; unfold sub; apply rnd_mono; lra. Qed.
Lemma mul_mono_l x y y' : 0 <= x -> y <= y' -> x *! y <= x *! y'.
Proof. intros; unfold mul; apply rnd_mono; nra. Qed.
Lemma mul_mono_r x x' y : 0 <= y -> x <= x' -> x *! y <= x' *! y.
Proof. intros; unfold mul; apply rnd_mono; nra. Qed.
Lemma add_nonneg x y : 0 <= x -> 0 <= y -> 0 <= x +! y.
Proof. intros; unfold add; apply rnd_nonneg; lra. Qed.
Lemma mul_nonneg x y : 0 <= x -> 0 <= y -> 0 <= x *! y.
Proof. intros; unfold mul; apply rnd_nonneg; nra. Qed.

Lemma div_nonneg x y : 0 <= x -> 0 <= y -> 0 <= x /! y.
Proof.
  intros Hx Hy. apply rnd_nonneg. unfold Qdiv.
  apply Qmult_le_0_compat; [easy | now apply Qinv_le_0_compat].
Qed.

Lemma div_le_1 x y : 0 < y -> x <= y -> x /! y <= 1.
Proof. intros Hy L. apply rnd_le_1, Qle_shift_div_r; lra. Qed.

Lemma div_self x : 0 < x -> x /! x == 1.
Proof.
  intros L. unfold div, Qdiv. rewrite (Qmult_inv_r x); [apply rnd_1 | intros E; lra].
Qed.

#[export] Instance add_proper : Proper (Qeq ==> Qeq ==> Qeq) add.
Proof. intros x x' E y y' E'. unfold add. now rewrite E, E'. Qed.
#[export] Instance sub_proper : Proper (Qeq ==> Qeq ==> Qeq) sub.
Proof. intros x x' E y y' E'. unfold sub. now rewrite E, E'. Qed.
#[export] Instance mul_proper : Proper (Qeq ==> Qeq ==> Qeq) mul.
Proof. intros x x' E y y' E'. unfold mul. now rewrite E, E'. Qed.
#[export] Instance div_proper : Proper (Qeq ==> Qeq ==> Qeq) div.
Proof. intros x x' E y y' E'. unfold div. now rewrite E, E'. Qed.
#[export] Instance round4_proper : Proper (Qeq ==> Qeq) round4.
Proof. intros x x' E. unfold round4, jround. now rewrite E. Qed.

(** *** Sums *)
Lemma fold_add_mono {A} (f g : A -> Q) l acc acc' :
  (forall x, x ∈ l -> f x <= g x) -> acc <= acc' ->
  fold_left (fun a x => a +! f x) l acc <= fold_left (fun a x => a +! g x) l acc'.
Proof.
  revert acc acc'. induction l as [|x l IH]; intros acc acc' L La; cbn; [easy |].
  apply IH; [set_solver | apply add_mono; [easy |]; apply L; set_solver].
Qed.

Lemma sum_by_mono {A} (f g : A -> Q) l :
  (forall x, x ∈ l -> f x <= g x) -> sum_by f l <= sum_by g l.
Proof. intros L. apply fold_add_mono; [easy | apply Qle_refl]. Qed.

Lemma fold_add_ge {A} (f : A -> Q) l acc :
  (forall x, x ∈ l -> 0 <= f x) -> rnd acc == acc ->
  acc <= fold_left (fun a x => a +! f x) l acc.
Proof.
  revert acc. induction l as [|x l IH]; intros acc L E; cbn; [apply Qle_refl |].
  apply Qle_trans with (acc +! f x).
  - apply rnd_ge_fix; [easy |]. specialize (L x ltac:(set_solver)). lra.
  - apply IH; [set_solver | apply rnd_idem].
Qed.

Lemma sum_by_nonneg {A} (f : A -> Q) l : (forall x, x ∈ l -> 0 <= f x) -> 0 <= sum_by f l.
Proof. intros L. apply fold_add_ge; [easy | apply rnd_0]. Qed.

(** Dropping nonnegative summands cannot make a rounded sum larger. *)
Lemma sum_by_filter_le {A} (f : A -> Q) (p : A -> bool) l :
  (forall x, x ∈ l -> 0 <= f x) -> sum_by f (List.filter p l) <= sum_by f l.
Proof.
  intros L. unfold sum_by.
  assert (G : forall acc acc', rnd acc' == acc' -> acc <= acc' ->
    fold_left (fun a x => a +! f x) (List.filter p l) acc <=
    fold_left (fun a x => a +! f x) l acc').
  { induction l as [|x l IH]; intros acc acc' E La; cbn; [easy |].
    pose proof (L x ltac:(set_solver)).
    destruct (p x); cbn; apply IH; try apply rnd_idem; try set_solver.
    - apply add_mono; lra.
    - apply Qle_trans with acc'; [easy | apply rnd_ge_fix; [easy | lra]]. }
  apply G; [apply rnd_0 | apply Qle_refl].
Qed.
End RoundingLaws.

(** Proves a bound of a rounded expression by the fraction [z / 2^k]. *)
Ltac dyadic z k :=
  let v := eval vm_compute in (inject_Z z / inject_Z (2 ^ k)) in
  first [refine (rnd_frac_lb z k _ _ _ _) | refine (rnd_frac_ub z k _ _ _ _)];
    [easy | easy | change (inject_Z z / inject_Z (2 ^ k)) with v].

(** ** Exact arithmetic *)
Program Definition exact : Rounding := {| rnd := fun x => x |}.
Solve Obligations with (intros; (easy || apply Qeq_refl)).
