(* ===== verification/Binary64.v ===== *)
(** * IEEE-754 binary64 rounding, executable

    [rnd64] rounds a rational to the nearest double (53-bit significand, ties
    to even, gradual underflow at 2^-1074) and is the instance of [Rounding]
    that JavaScript uses.  Overflow to infinity (above 1.8e308) is outside the
    model: no quantity of the program comes near it. *)
From Stdlib Require Import Qpower Qreduction.
From S2P Require Import Prelude JsNum.

Definition pow2 (e : Z) : Q := Qpower 2 e.

(** floor(log2 q), for q > 0. *)
Definition qexp (q : Q) : Z :=
  let l := (Z.log2 (Qnum q) - Z.log2 (Zpos (Qden q)))%Z in
  if pow2 l <=? q then l else (l - 1)%Z.

(** Nearest integer, ties to even. *)
Definition rne (x : Q) : Z :=
  let f := Qfloor x in
  match Qcompare (x - inject_Z f) (1 # 2) with
  | Lt => f
  | Gt => (f + 1)%Z
  | Eq => if Z.even f then f else (f + 1)%Z
  end.

Definition ulp (q : Q) : Z := Z.max (qexp q - 52) (-1074).
Definition rnd_pos (q : Q) : Q := inject_Z (rne (q / pow2 (ulp q))) * pow2 (ulp q).
Definition rnd64 (q : Q) : Q :=
  match Z.compare (Qnum q) 0 with
  | Eq => 0
  | Gt => Qred (rnd_pos q)
  | Lt => Qred (- rnd_pos (- q))
  end.

(** ** Powers of two *)
Lemma pow2_pos e : 0 < pow2 e.
Proof. apply Qpower_0_lt. easy. Qed.

Lemma pow2_add a b : pow2 (a + b) == pow2 a * pow2 b.
Proof. apply Qpower_plus. easy. Qed.

Lemma pow2_int e : (0 <= e)%Z -> pow2 e == inject_Z (2 ^ e).
Proof. intros. unfold pow2. now rewrite Zpower_Qpower. Qed.

Lemma pow2_mono a b : (a <= b)%Z -> pow2 a <= pow2 b.
Proof.
  intros L. replace b with (a + (b - a))%Z by lia. rewrite pow2_add, (pow2_int (b - a)) by lia.
  pose proof (pow2_pos a). assert (1 <= inject_Z (2 ^ (b - a))).
  { change 1 with (inject_Z 1). rewrite <- Zle_Qle. lia. }
  nra.
Qed.

Lemma pow2_lt_inv a b : pow2 a < pow2 b -> (a < b)%Z.
Proof.
  intros L. destruct (Z_lt_le_dec a b) as [|G]; [easy |].
  apply pow2_mono in G. lra.
Qed.

(** [q / 2^u] in terms of products, so that [nra] can use it. *)
Lemma div_pow2_mul q u : q / pow2 u * pow2 u == q.
Proof. unfold Qdiv. pose proof (pow2_pos u). field. lra. Qed.

Lemma div_pow2_mono x y u : x <= y -> x / pow2 u <= y / pow2 u.
Proof. intros L. apply Qmult_le_compat_r; [easy | apply Qinv_le_0_compat, Qlt_le_weak, pow2_pos]. Qed.

Lemma pow2_div a u : (u <= a)%Z -> pow2 a / pow2 u == inject_Z (2 ^ (a - u)).
Proof.
  intros L. replace a with (u + (a - u))%Z at 1 by lia.
  rewrite pow2_add, (pow2_int (a - u)) by lia. pose proof (pow2_pos u). field. lra.
Qed.

(** ** The binary exponent *)
Lemma frac_lt q d n p k m :
  0 < q -> 0 < k -> q * d == n -> p * k == m -> n < m -> k <= d -> q < p.
Proof.
  intros Hq Hk E1 E2 L1 L2. apply Qnot_le_lt. intros C.
  assert (p * k <= q * k) by (apply Qmult_le_compat_r; lra).
  assert (q * k <= q * d) by (apply Qmult_le_l; easy). lra.
Qed.
Lemma frac_le q d n p k m :
  0 < q -> 0 < k -> q * d == n -> p * k == m -> m <= n -> d < k -> p <= q.
Proof.
  intros Hq Hk E1 E2 L1 L2. apply Qnot_lt_le. intros C.
  assert (q * k < p * k) by (apply Qmult_lt_r; easy).
  assert (q * d < q * k) by (apply Qmult_lt_l; easy). lra.
Qed.

Lemma qexp_spec q : 0 < q -> pow2 (qexp q) <= q < pow2 (qexp q + 1).
Proof.
  intros Hq. destruct q as [n d].
  assert (Hn : (0 < n)%Z) by (unfold Qlt in Hq; cbn in Hq; lia).
  pose proof (Z.log2_spec n Hn) as [N1 N2].
  pose proof (Z.log2_spec (Zpos d) eq_refl) as [D1 D2].
  pose proof (Z.log2_nonneg n). pose proof (Z.log2_nonneg (Zpos d)).
  set (ln := Z.log2 n) in *. set (ld := Z.log2 (Zpos d)) in *.
  assert (E : (n # d) * inject_Z (Zpos d) == inject_Z n) by (unfold Qeq; cbn; lia).
  assert (U : (n # d) < pow2 (ln - ld + 1)).
  { assert (pow2 (ln - ld + 1) * pow2 ld == inject_Z (2 ^ (Z.succ ln))) as EU.
    { rewrite <- pow2_add, <- pow2_int by lia. f_equiv. lia. }
    rewrite Zlt_Qlt in N2. rewrite Zle_Qle in D1. rewrite <- pow2_int in D1 by lia.
    exact (frac_lt _ _ _ _ _ _ Hq (pow2_pos ld) E EU N2 D1). }
  assert (L : pow2 (ln - ld - 1) <= (n # d)).
  { assert (pow2 (ln - ld - 1) * pow2 (Z.succ ld) == inject_Z (2 ^ ln)) as EU.
    { rewrite <- pow2_add, <- pow2_int by lia. f_equiv. lia. }
    rewrite Zle_Qle in N1. rewrite Zlt_Qlt in D2. rewrite <- pow2_int in D2 by lia.
    exact (frac_le _ _ _ _ _ _ Hq (pow2_pos (Z.succ ld)) E EU N1 D2). }
  unfold qexp; cbn [Qnum Qden]. fold ln ld.
  destruct (pow2 (ln - ld) <=? (n # d)) eqn:C; qprop; split; try easy.
  now replace (ln - ld - 1 + 1)%Z with (ln - ld)%Z by lia.
Qed.

Lemma qexp_mono x y : 0 < x -> x <= y -> (qexp x <= qexp y)%Z.
Proof.
  intros Hx L. destruct (qexp_spec x Hx), (qexp_spec y ltac:(lra)).
  assert (qexp x < qexp y + 1)%Z; [apply pow2_lt_inv; lra | lia].
Qed.

(** ** Round to nearest, ties to even *)
Lemma Qfloor_spec x : inject_Z (Qfloor x) <= x < inject_Z (Qfloor x) + 1.
Proof.
  split; [apply Qfloor_le |]. pose proof (Qlt_floor x) as L.
  now rewrite inject_Z_plus in L.
Qed.

Lemma rne_range x : (Qfloor x <= rne x <= Qfloor x + 1)%Z.
Proof. unfold rne. destruct (_ ?= _); try destruct (Z.even _); lia. Qed.

Lemma rne_mono x y : x <= y -> (rne x <= rne y)%Z.
Proof.
  intros L. pose proof (Qfloor_resp_le _ _ L) as F.
  pose proof (rne_range x). pose proof (rne_range y).
  destruct (Z.eq_dec (Qfloor x) (Qfloor y)) as [E|]; [|lia].
  unfold rne. rewrite E.
  destruct (Qcompare_spec (x - inject_Z (Qfloor y)) (1 # 2)),
           (Qcompare_spec (y - inject_Z (Qfloor y)) (1 # 2));
    try destruct (Z.even _); try lia; exfalso; lra.
Qed.

#[export] Instance rne_proper : Proper (Qeq ==> eq) rne.
Proof. intros x y E. apply Z.le_antisymm; apply rne_mono; lra. Qed.

Lemma rne_int z : rne (inject_Z z) = z.
Proof.
  unfold rne. rewrite Qfloor_Z.
  destruct (Qcompare_spec (inject_Z z - inject_Z z) (1 # 2)); lra || easy.
Qed.

Lemma rne_le_int x z : x <= inject_Z z -> (rne x <= z)%Z.
Proof. intros L. rewrite <- (rne_int z). now apply rne_mono. Qed.
Lemma rne_ge_int x z : inject_Z z <= x -> (z <= rne x)%Z.
Proof. intros L. rewrite <- (rne_int z). now apply rne_mono. Qed.

(** ** Rounding positive numbers *)
Lemma qexp_proper_pos x y : 0 < x -> x == y -> qexp x = qexp y.
Proof. intros Hx E. apply Z.le_antisymm; apply qexp_mono; lra. Qed.

Lemma ulp_mono x y : 0 < x -> x <= y -> (ulp x <= ulp y)%Z.
Proof. intros Hx L. unfold ulp. pose proof (qexp_mono x y Hx L). lia. Qed.

Lemma rnd_pos_le_pow2 x a : 0 < x -> x <= pow2 a -> (ulp x <= a)%Z -> rnd_pos x <= pow2 a.
Proof.
  intros Hx L U. unfold rnd_pos.
  assert (G : (rne (x / pow2 (ulp x)) <= 2 ^ (a - ulp x))%Z).
  { apply rne_le_int. rewrite <- pow2_div by easy. now apply div_pow2_mono. }
  rewrite Zle_Qle, <- pow2_int, <- (Qmult_le_r _ _ (pow2 (ulp x))) in G by (lia || apply pow2_pos).
  rewrite <- pow2_add in G. now replace (a - ulp x + ulp x)%Z with a in G by lia.
Qed.

Lemma rnd_pos_ge_pow2 x a : 0 < x -> pow2 a <= x -> (ulp x <= a)%Z -> pow2 a <= rnd_pos x.
Proof.
  intros Hx L U. unfold rnd_pos.
  assert (G : (2 ^ (a - ulp x) <= rne (x / pow2 (ulp x)))%Z).
  { apply rne_ge_int. rewrite <- pow2_div by easy. now apply div_pow2_mono. }
  rewrite Zle_Qle, <- pow2_int, <- (Qmult_le_r _ _ (pow2 (ulp x))) in G by (lia || apply pow2_pos).
  rewrite <- pow2_add in G. now replace (a - ulp x + ulp x)%Z with a in G by lia.
Qed.

Lemma rnd_pos_mono x y : 0 < x -> x <= y -> rnd_pos x <= rnd_pos y.
Proof.
  intros Hx L. pose proof (ulp_mono x y Hx L) as U.
  destruct (Z.eq_dec (ulp x) (ulp y)) as [E|].
  - unfold rnd_pos. rewrite E. apply Qmult_le_compat_r; [|apply Qlt_le_weak, pow2_pos].
    rewrite <- Zle_Qle. now apply rne_mono, div_pow2_mono.
  - destruct (qexp_spec x Hx) as [_ X]. destruct (qexp_spec y ltac:(lra)) as [Y _].
    unfold ulp in *. apply Qle_trans with (pow2 (qexp y)).
    + apply rnd_pos_le_pow2; [easy | | unfold ulp; lia].
      apply Qlt_le_weak. apply Qlt_le_trans with (pow2 (qexp x + 1)); [easy | apply pow2_mono; lia].
    + apply rnd_pos_ge_pow2; [lra | easy | unfold ulp; lia].
Qed.

Lemma rnd_pos_nonneg x : 0 < x -> 0 <= rnd_pos x.
Proof.
  intros Hx. apply Qmult_le_0_compat; [|apply Qlt_le_weak, pow2_pos].
  change 0 with (inject_Z 0). rewrite <- Zle_Qle. apply rne_ge_int.
  apply Qmult_le_0_compat; [lra | apply Qinv_le_0_compat, Qlt_le_weak, pow2_pos].
Qed.

Lemma rnd_pos_eq x y : 0 < x -> x == y -> rnd_pos x == rnd_pos y.
Proof. intros Hx E. apply Qle_antisym; apply rnd_pos_mono; lra. Qed.

(** A multiple [z * 2^k] with at most 53 significant bits is a double. *)
Lemma scaled_int r z k u :
  r == inject_Z z * pow2 k -> (u <= k)%Z -> r / pow2 u == inject_Z (z * 2 ^ (k - u)).
Proof.
  intros E L. rewrite E, inject_Z_mult, <- (pow2_div k u) by easy. unfold Qdiv. ring.
Qed.

Lemma rnd_pos_exact r z k :
  0 < r -> r == inject_Z z * pow2 k -> (-1074 <= k)%Z -> (z <= 2 ^ 53)%Z -> rnd_pos r == r.
Proof.
  intros Hr E K Z53. destruct (qexp_spec r Hr) as [L _].
  assert (I : exists m, r / pow2 (ulp r) == inject_Z m).
  { destruct (Z_le_gt_dec (ulp r) k) as [|G]; [exists (z * 2 ^ (k - ulp r))%Z; exact (scaled_int r z k _ E l) |].
    assert (R53 : r <= pow2 (53 + k)).
    { rewrite E, pow2_add. apply Qmult_le_compat_r; [|apply Qlt_le_weak, pow2_pos].
      rewrite pow2_int, <- Zle_Qle; lia. }
    assert (qexp r < 53 + k + 1)%Z.
    { apply pow2_lt_inv. rewrite (pow2_add (53 + k) 1).
      pose proof (pow2_pos (53 + k)). change (pow2 1) with (2 # 1). lra. }
    assert (ulp r = k + 1)%Z by (unfold ulp in *; lia).
    assert (Q53 : qexp r = (53 + k)%Z) by (unfold ulp in *; lia). rewrite Q53 in L.
    exists (2 ^ 52)%Z. replace (ulp r) with (k + 1)%Z by lia.
    transitivity (pow2 (53 + k) / pow2 (k + 1)); [unfold Qdiv; f_equiv; now apply Qle_antisym |].
    rewrite pow2_div by lia. now replace (53 + k - (k + 1))%Z with 52%Z by lia. }
  destruct I as [m M]. unfold rnd_pos. rewrite M, rne_int, <- M. apply div_pow2_mul.
Qed.

Lemma rnd_pos_idem x : 0 < x -> 0 < rnd_pos x -> rnd_pos (rnd_pos x) == rnd_pos x.
Proof.
  intros Hx Hr. apply (rnd_pos_exact _ (rne (x / pow2 (ulp x))) (ulp x)); [easy | easy | unfold ulp; lia |].
  apply rne_le_int. destruct (qexp_spec x Hx) as [_ X].
  replace (2 ^ 53)%Z with (2 ^ (53 + ulp x - ulp x))%Z by (f_equal; lia).
  rewrite <- pow2_div by lia. apply div_pow2_mono.
  apply Qle_trans with (pow2 (qexp x + 1)); [lra | apply pow2_mono; unfold ulp; lia].
Qed.

(** ** All signs *)
Lemma rnd64_cases q :
  (0 < q /\ rnd64 q == rnd_pos q) \/ (q == 0 /\ rnd64 q == 0) \/
  (q < 0 /\ rnd64 q == - rnd_pos (- q)).
Proof.
  unfold rnd64. destruct (Z.compare_spec (Qnum q) 0).
  - right; left. split; [unfold Qeq; cbn; lia | easy].
  - right; right. split; [unfold Qlt; cbn; lia | apply Qred_correct].
  - left. split; [unfold Qlt; cbn; lia | apply Qred_correct].
Qed.

Lemma rnd64_mono x y : x <= y -> rnd64 x <= rnd64 y.
Proof.
  intros L.
  destruct (rnd64_cases x) as [[Hx ->]|[[Hx ->]|[Hx ->]]],
           (rnd64_cases y) as [[Hy ->]|[[Hy ->]|[Hy ->]]]; try lra.
  - now apply rnd_pos_mono.
  - now apply rnd_pos_nonneg.
  - pose proof (rnd_pos_nonneg (-x) ltac:(lra)). pose proof (rnd_pos_nonneg y Hy). lra.
  - pose proof (rnd_pos_nonneg (-x) ltac:(lra)). lra.
  - pose proof (rnd_pos_mono (-y) (-x) ltac:(lra) ltac:(lra)). lra.
Qed.

Lemma rnd64_exact r z k :
  r == inject_Z z * pow2 k -> (-1074 <= k)%Z -> (Z.abs z <= 2 ^ 53)%Z -> rnd64 r == r.
Proof.
  intros E K Z53. destruct (rnd64_cases r) as [[Hr ->]|[[Hr ->]|[Hr ->]]].
  - apply (rnd_pos_exact r z k); easy || lia.
  - now rewrite Hr.
  - rewrite (rnd_pos_exact (- r) (- z) k); [ring | lra | | easy | lia].
    rewrite E, inject_Z_opp. ring.
Qed.

Lemma rnd64_idem x : rnd64 (rnd64 x) == rnd64 x.
Proof.
  destruct (rnd64_cases x) as [[Hx E]|[[Hx E]|[Hx E]]], (rnd64_cases (rnd64 x))
    as [[Hr ->]|[[Hr ->]|[Hr ->]]]; try lra.
  - rewrite (rnd_pos_eq (rnd64 x) (rnd_pos x)), E by lra. apply rnd_pos_idem; lra.
  - pose proof (rnd_pos_nonneg x Hx). lra.
  - pose proof (rnd_pos_nonneg (- x) ltac:(lra)). lra.
  - rewrite (rnd_pos_eq (- rnd64 x) (rnd_pos (- x))), E by lra.
    rewrite rnd_pos_idem; lra.
Qed.

Program Definition binary64 : Rounding := {| rnd := rnd64 |}.
Next Obligation. intros. now apply rnd64_mono. Qed.
Next Obligation.
  intros z k Hz Hk. apply (rnd64_exact _ z (- k)); [|lia | easy].
  unfold Qdiv. f_equiv. unfold pow2. rewrite Qpower_opp. f_equiv. symmetry. apply pow2_int. lia.
Qed.
Next Obligation. intros. apply rnd64_idem. Qed.

(** The classic sanity checks of double arithmetic. *)
Example sum_01_02 : Qcompare (@add binary64 (rnd64 (1 # 10)) (rnd64 (2 # 10))) (rnd64 (3 # 10)) = Gt.
Proof. vm_compute. reflexivity. Qed.
Example guided_weights : @add binary64 (@add binary64 (rnd64 (7 # 10)) (rnd64 (2 # 10))) (rnd64 (1 # 10))
  == 1 - pow2 (-53).
Proof. vm_compute. reflexivity. Qed.
