(* ===== verification/Budget.v ===== *)
(** * The budget ledger of the LLM gateway

    llm-gateway/budget-ledger.ts: rolling spend counters per attempt, learner,
    tenant and globally, and the circuit breaker that a run of provider errors
    opens.  The ledger lives in memory; [budget_kept] of LlmGateway.v is its
    invariant. *)
From S2P Require Import Prelude JsNum Binary64.
Open Scope Q_scope.

Record BudgetConfig := mkBudgetConfig {
  perAttemptUsd : Q; perUserDailyUsd : Q; perTenantMonthlyUsd : Q; globalDailyUsd : Q }.

Record Counter := mkCounter { spentUsd : Q; windowStart : Z }.

(** The fields of a request that name whom a call is charged to. *)
Record Scope := mkScope {
  sc_attemptId : option string; sc_userId : option string; sc_tenantId : option string }.

Inductive BudgetScope := B_attempt | B_user | B_tenant | B_global.

Record BudgetLedger := mkBudgetLedger {
  cfg : BudgetConfig; by_attempt : gmap string Counter; by_user : gmap string Counter;
  by_tenant : gmap string Counter; by_all : Counter;
  globalBreakerUntil : Z; consecutiveProviderErrors : nat }.
#[export] Instance eta_BudgetLedger : Eta BudgetLedger := fun r =>
  mkBudgetLedger (cfg r) (by_attempt r) (by_user r) (by_tenant r) (by_all r)
     (globalBreakerUntil r) (consecutiveProviderErrors r).

Definition DAY : Z := 86400000.
Definition MONTH : Z := 30 * DAY.

(** [if (id)]: an absent or empty id names no scope. *)
Definition given (id : option string) : option string :=
  match id with Some id => if decide (id = EmptyString) then None else Some id | None => None end.

Section BudgetLedger.
Context `{Rounding}.

Definition DEFAULTS : BudgetConfig := mkBudgetConfig (lit (5 # 100)) (lit (1 # 2)) 50 500.

Definition new_ledger (now : Z) (c : BudgetConfig) : BudgetLedger :=
  mkBudgetLedger c ∅ ∅ ∅ (mkCounter 0 now) 0 0.

Definition roll (now : Z) (c : option Counter) (windowMs : Z) : Counter :=
  match c with
  | Some c => if (windowMs <=? now - windowStart c)%Z then mkCounter 0 now else c
  | None => mkCounter 0 now
  end.

(** The estimate would breach a cap. *)
Definition breaches (c : Counter) (est cap : Q) : bool := cap <? spentUsd c +! est.

(** The scope whose budget is exhausted, if one is. *)
Definition checkOrThrow (now : Z) (l : BudgetLedger) (est : Q) (scope : Scope) : option BudgetScope :=
  if (now <? globalBreakerUntil l)%Z then Some B_global
  else if breaches (roll now (Some (by_all l)) DAY) est (globalDailyUsd (cfg l)) then Some B_global
  else if from_option (fun id => breaches (roll now (by_attempt l !! id) DAY) est (perAttemptUsd (cfg l)))
            false (given (sc_attemptId scope)) then Some B_attempt
  else if from_option (fun id => breaches (roll now (by_user l !! id) DAY) est (perUserDailyUsd (cfg l)))
            false (given (sc_userId scope)) then Some B_user
  else if from_option (fun id => breaches (roll now (by_tenant l !! id) MONTH) est (perTenantMonthlyUsd (cfg l)))
            false (given (sc_tenantId scope)) then Some B_tenant
  else None.

Definition spend (now : Z) (windowMs : Z) (cost : Q) (c : option Counter) : Counter :=
  let c := roll now c windowMs in mkCounter (spentUsd c +! cost) (windowStart c).
Definition charge_in (now : Z) (windowMs : Z) (cost : Q) (id : option string)
    (m : gmap string Counter) : gmap string Counter :=
  match given id with
  | Some id => <[id := spend now windowMs cost (m !! id)]> m
  | None => m
  end.

Definition charge (now : Z) (cost : Q) (scope : Scope) (l : BudgetLedger) : BudgetLedger :=
  l <| by_all := spend now DAY cost (Some (by_all l)) |>
    <| by_attempt ::= charge_in now DAY cost (sc_attemptId scope) |>
    <| by_user ::= charge_in now DAY cost (sc_userId scope) |>
    <| by_tenant ::= charge_in now MONTH cost (sc_tenantId scope) |>
    <| consecutiveProviderErrors := 0%nat |>.

Definition BREAKER_ERRORS : nat := 5.
Definition BREAKER_MS : Z := 60000.

(** The breaker opens on the fifth error in a row, and on each one after. *)
Definition noteProviderError (now : Z) (l : BudgetLedger) : BudgetLedger :=
  let l := l <| consecutiveProviderErrors ::= S |> in
  if (BREAKER_ERRORS <=? consecutiveProviderErrors l)%nat
  then l <| globalBreakerUntil := (now + BREAKER_MS)%Z |> else l.

Definition breakerOpen (now : Z) (l : BudgetLedger) : bool := (now <? globalBreakerUntil l)%Z.

Definition spentOnAttempt (now : Z) (l : BudgetLedger) (attemptId : string) : Q :=
  spentUsd (roll now (by_attempt l !! attemptId) DAY).

(** ** The budget is kept *)

(** A property of every counter and its cap. *)
Definition tables (P : Q -> Counter -> Prop) (l : BudgetLedger) : Prop :=
  P (globalDailyUsd (cfg l)) (by_all l) /\
  map_Forall (fun _ => P (perAttemptUsd (cfg l))) (by_attempt l) /\
  map_Forall (fun _ => P (perUserDailyUsd (cfg l))) (by_user l) /\
  map_Forall (fun _ => P (perTenantMonthlyUsd (cfg l))) (by_tenant l).
(** No counter is negative or above its cap. *)
Definition capped (cap : Q) (c : Counter) : Prop := 0 <= spentUsd c <= cap.
Definition within : BudgetLedger -> Prop := tables capped.
(** A counter as a charge leaves it: what was there before fitted under the cap with
    the estimate the charge was checked for. *)
Definition charged_on (cap est cost : Q) (c : Counter) : Prop := exists before,
  0 <= before /\ before +! est <= cap /\ spentUsd c = before +! cost.

Lemma tables_mono (P P' : Q -> Counter -> Prop) l : (forall cap c, P cap c -> P' cap c) -> tables P l -> tables P' l.
Proof. intros M (T1 & T2 & T3 & T4). split_and!; [auto | eapply map_Forall_impl; eauto ..]. Qed.

Lemma roll_charged now now' c w est cap cost : (now <= now')%Z ->
  from_option (fun c => 0 <= spentUsd c) True c -> breaches (roll now c w) est cap = false ->
  charged_on cap est cost (spend now' w cost c).
Proof.
  intros T P B. unfold breaches in B. apply Qltb_ge in B. exists (spentUsd (roll now' c w)).
  assert (R : 0 <= spentUsd (roll now' c w) <= spentUsd (roll now c w)).
  { destruct c as [c|]; cbn in *; [|lra].
    destruct (w <=? now - windowStart c)%Z eqn:W1, (w <=? now' - windowStart c)%Z eqn:W2; cbn; try lra.
    apply Z.leb_le in W1. apply Z.leb_gt in W2. lia. }
  split; [tauto |]. split; [|reflexivity].
  eapply Qle_trans; [|exact B]. apply add_mono; [tauto | apply Qle_refl].
Qed.

Lemma charge_in_all (P : Q -> Counter -> Prop) now now' m id w est cap cost : (now <= now')%Z ->
  (forall c, P cap c -> 0 <= spentUsd c) -> (forall c, charged_on cap est cost c -> P cap c) ->
  map_Forall (fun _ => P cap) m ->
  from_option (fun id => breaches (roll now (m !! id) w) est cap) false (given id) = false ->
  map_Forall (fun _ => P cap) (charge_in now' w cost id m).
Proof.
  intros T N C M B. unfold charge_in. destruct (given id) as [i|]; [|exact M].
  cbn in B. apply map_Forall_insert_2; [|exact M].
  apply C, (roll_charged now); auto. destruct (m !! i) as [c|] eqn:L; cbn; [|easy].
  now apply M, N in L.
Qed.

(** The estimate fits every budget of the scope. *)
Definition room (now : Z) (l : BudgetLedger) (est : Q) (scope : Scope) : Prop :=
  breaches (roll now (Some (by_all l)) DAY) est (globalDailyUsd (cfg l)) = false /\
  from_option (fun id => breaches (roll now (by_attempt l !! id) DAY) est (perAttemptUsd (cfg l)))
    false (given (sc_attemptId scope)) = false /\
  from_option (fun id => breaches (roll now (by_user l !! id) DAY) est (perUserDailyUsd (cfg l)))
    false (given (sc_userId scope)) = false /\
  from_option (fun id => breaches (roll now (by_tenant l !! id) MONTH) est (perTenantMonthlyUsd (cfg l)))
    false (given (sc_tenantId scope)) = false.

Lemma check_passes now l est scope : checkOrThrow now l est scope = None <->
  breakerOpen now l = false /\ room now l est scope.
Proof.
  unfold checkOrThrow, breakerOpen, room.
  repeat match goal with |- context [if ?b then _ else _] => destruct b; [intuition easy |] end. intuition easy.
Qed.

(** A charge at any time after its check: the counters it changes are [charged_on]. *)
Lemma charge_tables (P : Q -> Counter -> Prop) now now' l est cost scope : tables P l -> (now <= now')%Z ->
  (forall cap c, P cap c -> 0 <= spentUsd c) -> (forall cap c, charged_on cap est cost c -> P cap c) ->
  room now l est scope -> tables P (charge now' cost scope l).
Proof.
  intros (W1 & W2 & W3 & W4) T N C (B1 & B2 & B3 & B4). split_and!; cbn.
  - apply C. eapply roll_charged; [exact T | exact (N _ _ W1) | exact B1].
  - apply (charge_in_all P now now' _ _ _ est); [exact T | apply N | apply C | assumption ..].
  - apply (charge_in_all P now now' _ _ _ est); [exact T | apply N | apply C | assumption ..].
  - apply (charge_in_all P now now' _ _ _ est); [exact T | apply N | apply C | assumption ..].
Qed.
(** One that does not exceed its estimate keeps every counter within its cap. *)
Lemma charge_within now now' l est cost scope : within l -> (now <= now')%Z ->
  0 <= cost -> cost <= est -> room now l est scope -> within (charge now' cost scope l).
Proof.
  intros W T C E R. apply (charge_tables capped now now' l est); auto; [now intros cap c [] |].
  intros cap c (b & B & Le & S). unfold capped. rewrite S. split; [now apply add_nonneg |].
  eapply Qle_trans; [|exact Le]. apply add_mono; [apply Qle_refl | exact E].
Qed.

(** A counter of the scope is above its cap. *)
Definition over (now : Z) (l : BudgetLedger) (scope : Scope) : Prop :=
  globalDailyUsd (cfg l) < spentUsd (roll now (Some (by_all l)) DAY) \/
  (exists id, given (sc_attemptId scope) = Some id /\ perAttemptUsd (cfg l) < spentUsd (roll now (by_attempt l !! id) DAY)) \/
  (exists id, given (sc_userId scope) = Some id /\ perUserDailyUsd (cfg l) < spentUsd (roll now (by_user l !! id) DAY)) \/
  (exists id, given (sc_tenantId scope) = Some id /\ perTenantMonthlyUsd (cfg l) < spentUsd (roll now (by_tenant l !! id) MONTH)).

(** A sum that was rounded is not rounded below itself by adding to it. *)
Definition exact_over (cap : Q) (c : Counter) : Prop := cap < spentUsd c -> rnd (spentUsd c) == spentUsd c.
Lemma roll_breaches now c w est cap : 0 <= est -> from_option (exact_over cap) True c ->
  cap < spentUsd (roll now c w) -> breaches (roll now c w) est cap = true.
Proof.
  intros E X L. unfold breaches. apply not_false_iff_true. intros B%Qltb_ge.
  assert (R : rnd (spentUsd (roll now c w)) == spentUsd (roll now c w)).
  { destruct c as [c|]; cbn in *; [destruct (_ <=? _)%Z; cbn in *; [apply (rnd_int 0); cbn; lia | now apply X] | apply (rnd_int 0); cbn; lia]. }
  assert (G : rnd (spentUsd (roll now c w)) <= spentUsd (roll now c w) +! est) by (apply rnd_mono; lra).
  rewrite R in G. lra.
Qed.
Lemma over_refused now l est scope : 0 <= est -> tables exact_over l -> over now l scope ->
  checkOrThrow now l est scope <> None.
Proof.
  intros E (T1 & T2 & T3 & T4) O C. apply check_passes in C as (_ & B1 & B2 & B3 & B4).
  assert (M : forall (m : gmap string Counter) cap i, map_Forall (fun _ => exact_over cap) m -> from_option (exact_over cap) True (m !! i)).
  { intros m cap i F. destruct (m !! i) eqn:L; cbn; [exact (F _ _ L) | exact I]. }
  destruct O as [O|[(i & G & O)|[(i & G & O)|(i & G & O)]]]; [|rewrite G in * ..].
  - now rewrite (roll_breaches now (Some (by_all l)) DAY est _ E T1 O) in B1.
  - cbn in B2. now rewrite (roll_breaches _ _ _ _ _ E (M _ _ _ T2) O) in B2.
  - cbn in B3. now rewrite (roll_breaches _ _ _ _ _ E (M _ _ _ T3) O) in B3.
  - cbn in B4. now rewrite (roll_breaches _ _ _ _ _ E (M _ _ _ T4) O) in B4.
Qed.

Lemma error_tables P now l : tables P l -> tables P (noteProviderError now l).
Proof. intros W. unfold noteProviderError. destruct (_ <=? _)%nat; exact W. Qed.

Lemma note_count now l :
  consecutiveProviderErrors (noteProviderError now l) = S (consecutiveProviderErrors l).
Proof. unfold noteProviderError. now destruct (_ <=? _)%nat. Qed.
Lemma note_until now l : globalBreakerUntil (noteProviderError now l) =
  if (BREAKER_ERRORS <=? S (consecutiveProviderErrors l))%nat then (now + BREAKER_MS)%Z else globalBreakerUntil l.
Proof. unfold noteProviderError. cbn [consecutiveProviderErrors set_field]. now destruct (_ <=? _)%nat. Qed.

Lemma errors_count n now l :
  consecutiveProviderErrors (Nat.iter n (noteProviderError now) l) = (n + consecutiveProviderErrors l)%nat.
Proof. induction n as [|n IH]; [easy |]. now rewrite Nat.iter_succ, note_count, IH. Qed.
Lemma errors_open n now l : (0 < n)%nat -> (BREAKER_ERRORS <= n + consecutiveProviderErrors l)%nat ->
  globalBreakerUntil (Nat.iter n (noteProviderError now) l) = (now + BREAKER_MS)%Z.
Proof.
  intros N L. destruct n as [|n]; [lia |].
  rewrite Nat.iter_succ, note_until, errors_count, (proj2 (Nat.leb_le _ _)); [easy | lia].
Qed.
Lemma errors_shut n now l : (n + consecutiveProviderErrors l < BREAKER_ERRORS)%nat ->
  globalBreakerUntil (Nat.iter n (noteProviderError now) l) = globalBreakerUntil l.
Proof.
  induction n as [|n IH]; intros L; [easy |].
  rewrite Nat.iter_succ, note_until, errors_count, (proj2 (Nat.leb_gt _ _)) by lia. apply IH. lia.
Qed.
Lemma error_room t now l est scope : room t l est scope -> room t (noteProviderError now l) est scope.
Proof. unfold noteProviderError. now destruct (_ <=? _)%nat. Qed.

Lemma breaker_blocks now l est scope : breakerOpen now l = true -> checkOrThrow now l est scope = Some B_global.
Proof. unfold breakerOpen, checkOrThrow. now intros ->. Qed.

(** The circuit breaker: from any ledger, [n] provider errors in a row with no
    success between them open it for the next minute exactly when the errors since
    the last success number at least five; while it is open every call is refused
    whatever its scope and estimate, and a charge, which only a success makes,
    resets the count. *)
Theorem breaker_opens n now l est scope cost : (0 < n)%nat -> (globalBreakerUntil l <= now)%Z ->
  let l' := Nat.iter n (noteProviderError now) l in
  (breakerOpen now l' = true <-> (BREAKER_ERRORS <= n + consecutiveProviderErrors l)%nat) /\
  (breakerOpen now l' = true -> forall t, (t < now + BREAKER_MS)%Z -> checkOrThrow t l' est scope = Some B_global) /\
  (forall t, (now + BREAKER_MS <= t)%Z -> breakerOpen t l' = false) /\
  consecutiveProviderErrors (charge now cost scope l') = 0%nat.
Proof.
  intros N U l'. subst l'. unfold breakerOpen.
  destruct (decide (BREAKER_ERRORS <= n + consecutiveProviderErrors l)%nat) as [L|L].
  - rewrite (errors_open n now l N L). split_and!; [rewrite Z.ltb_lt; unfold BREAKER_MS; intuition lia | | |easy].
    + intros _ t T. apply breaker_blocks. unfold breakerOpen. rewrite (errors_open n now l N L). now apply Z.ltb_lt.
    + intros t T. now apply Z.ltb_ge.
  - rewrite (errors_shut n now l) by lia. rewrite (proj2 (Z.ltb_ge _ _) U).
    split_and!; [split; [easy | lia] | easy | | easy].
    intros t T. apply Z.ltb_ge. unfold BREAKER_MS in T. lia.
Qed.
End BudgetLedger.

#[local] Existing Instance binary64.
Lemma breaker_opens_witness :
  let l := new_ledger 1000 DEFAULTS in
  let l' := Nat.iter 5 (noteProviderError 2000) l in
  breakerOpen 2000 l' = true /\ breakerOpen 62000 l' = false /\
  breakerOpen 2000 (Nat.iter 4 (noteProviderError 2000) l) = false.
Proof.
  intros l l'.
  destruct (breaker_opens 5 2000 l 1 (mkScope None None None) 1 ltac:(lia) ltac:(vm_compute; discriminate)) as (A & _ & B & _).
  destruct (breaker_opens 4 2000 l 1 (mkScope None None None) 1 ltac:(lia) ltac:(vm_compute; discriminate)) as (C & _).
  split; [apply A; vm_compute; lia |]. split; [apply B; vm_compute; discriminate |].
  apply not_true_iff_false. rewrite C. vm_compute. lia.
Defined.
