(* ===== verification/PromptCache.v ===== *)
(** * The prompt cache of the LLM gateway

    llm-gateway/prompt-cache.ts: a bounded, expiring, least-recently-used cache
    of answers, exact by hash and near-exact by word overlap.  The JavaScript
    Map is the list of its entries in insertion order, which is the order of
    use.  SHA-256 is a parameter; nothing here depends on which function it is. *)
From S2P Require Import Prelude RegExp JsNum Binary64.
Open Scope Q_scope.

Class Sha256 := sha256 : string -> string.

Record CachedValue := mkCachedValue {
  cv_text : string; cv_model : string; cv_inputTokens : Z; cv_outputTokens : Z }.
Inductive HitKind := Exact | Semantic.
Record CacheHit := mkCacheHit { ch_value : CachedValue; ch_kind : HitKind }.

Record Entry := mkEntry {
  en_key : string; en_promptVersion : string; en_systemKey : string;
  en_shingles : list string; en_value : CachedValue; en_expiresAt : Z }.

Record PromptCache := mkPromptCache { ttlMs : Z; maxEntries : nat; entries : list Entry }.
#[export] Instance eta_PromptCache : Eta PromptCache := fun r =>
  mkPromptCache (ttlMs r) (maxEntries r) (entries r).

Definition DEFAULT_TTL_MS : Z := 24 * 60 * 60 * 1000.
Definition DEFAULT_MAX_ENTRIES : nat := 2000.
Definition new_cache : PromptCache := mkPromptCache DEFAULT_TTL_MS DEFAULT_MAX_ENTRIES [].


(** [Map.delete], [Map.get] and [Map.set] of a key that is not in the map. *)
Definition map_delete (key : string) (es : list Entry) : list Entry :=
  filter (fun e => en_key e <> key) es.
Definition map_get (key : string) (es : list Entry) : option Entry :=
  List.find (fun e => bool_decide (en_key e = key)) es.
Definition map_append (e : Entry) (es : list Entry) : list Entry := es ++ [e].

Definition NUL : string := String Ascii.zero EmptyString.

Section PromptCache.
Context `{Rounding} `{Sha256}.

Definition SEMANTIC_THRESHOLD : Q := lit (6 # 10).

(** What is hashed: the three parts, with a NUL byte after each of the first two (the
    string literals of the source hold the byte itself, which most editors show as a
    space). *)
Definition key_text (promptVersion system user : string) : string :=
  (promptVersion ++ NUL ++ system ++ NUL ++ user)%string.
Definition exactKey (promptVersion system user : string) : string :=
  sha256 (key_text promptVersion system user).

(** The words of a text and its pairs of adjacent words. *)
Fixpoint bigrams (words : list string) : list string :=
  match words with
  | w :: (w' :: _) as rest => w :: (w ++ " " ++ w')%string :: bigrams rest
  | [w] => [w]
  | [] => []
  end.
Definition words_of (text : string) : list string :=
  List.filter (fun w => negb (bool_decide (w = EmptyString)))
    (split (rx "\s+") (replace_all (rx "[^a-z0-9\s]") (fun _ => " "%string) (to_lower text))).
Definition shingle (text : string) : list string := uniq (bigrams (words_of text)).

Definition jaccard (a b : list string) : Q :=
  let size (l : list string) := inject_Z (Z.of_nat (List.length l)) in
  match a, b with
  | [], _ | _, [] => 0
  | _, _ =>
      let inter := size (List.filter (fun x => bool_decide (x ∈ b)) a) in
      inter /! (size a +! size b -! inter)
  end.

Definition evictExpired (now : Z) (c : PromptCache) : PromptCache :=
  c <| entries ::= List.filter (fun e => negb (en_expiresAt e <=? now)%Z) |>.

(** The best entry of the bucket so far. *)
Definition better (pv systemKey : string) (q : list string) (best : option (Entry * Q)) (e : Entry) :
    option (Entry * Q) :=
  if decide (en_promptVersion e <> pv) then best
  else if decide (en_systemKey e <> systemKey) then best
  else
    let score := jaccard q (en_shingles e) in
    if (SEMANTIC_THRESHOLD <=? score) && match best with None => true | Some (_, s) => s <? score end
    then Some (e, score) else best.
Definition semantic (pv system user : string) (es : list Entry) : option Entry :=
  fst <$> fold_left (better pv (sha256 system) (shingle user)) es None.

Definition get (now : Z) (pv system user : string) (c : PromptCache) : option CacheHit * PromptCache :=
  let c := evictExpired now c in
  let ek := exactKey pv system user in
  match map_get ek (entries c) with
  | Some e =>
      if (now <? en_expiresAt e)%Z
      then (Some (mkCacheHit (en_value e) Exact),
            c <| entries ::= fun es => map_append e (map_delete ek es) |>)
      else ((fun e => mkCacheHit (en_value e) Semantic) <$> semantic pv system user (entries c), c)
  | None => ((fun e => mkCacheHit (en_value e) Semantic) <$> semantic pv system user (entries c), c)
  end.

(** [while (size > maxEntries) delete the oldest]. *)
Fixpoint evict_oldest (max : nat) (es : list Entry) : list Entry :=
  match es with
  | [] => []
  | _ :: es' => if (max <? List.length es)%nat then evict_oldest max es' else es
  end.

Definition put (now : Z) (pv system user : string) (value : CachedValue) (c : PromptCache) : PromptCache :=
  let key := exactKey pv system user in
  let e := mkEntry key pv (sha256 system) (shingle user) value (now + ttlMs c)%Z in
  c <| entries ::= fun es => evict_oldest (maxEntries c) (map_append e (map_delete key es)) |>.

(** ** Well-formed caches

    Distinct keys, no more than the maximum, every key the hash of the prompt
    the entry was stored for. *)
Definition entry_ok (e : Entry) : Prop := exists system user,
  en_key e = exactKey (en_promptVersion e) system user /\
  en_systemKey e = sha256 system /\ en_shingles e = shingle user.
Definition cache_wf (c : PromptCache) : Prop :=
  NoDup (en_key <$> entries c) /\ (List.length (entries c) <= maxEntries c)%nat /\
  Forall entry_ok (entries c).

Lemma evict_oldest_suffix max es :
  exists old, es = old ++ evict_oldest max es /\
    (List.length (evict_oldest max es) <= max)%nat /\
    List.length old = (List.length es - max)%nat.
Proof.
  induction es as [|e es (old & IH & L & O)]; [exists []; cbn; repeat split; lia |].
  cbn [evict_oldest]. destruct (max <? List.length (e :: es))%nat eqn:M.
  - exists (e :: old). apply Nat.ltb_lt in M. cbn in *. repeat split; [congruence | exact L | lia].
  - exists []. apply Nat.ltb_ge in M. repeat split; [exact M | cbn in *; lia].
Qed.
Lemma evict_oldest_sublist max es : sublist (evict_oldest max es) es.
Proof.
  destruct (evict_oldest_suffix max es) as (old & E & _). rewrite E at 2. now apply sublist_inserts_l.
Qed.

Lemma list_filter_sublist (f : Entry -> bool) es : sublist (List.filter f es) es.
Proof. induction es as [|e es IH]; cbn; [constructor |]. destruct (f e); now constructor. Qed.

Lemma evictExpired_elem now c e : e ∈ entries (evictExpired now c) <-> e ∈ entries c /\ (now < en_expiresAt e)%Z.
Proof. cbn. rewrite !list_elem_of_In, List.filter_In, negb_true_iff, Z.leb_gt. easy. Qed.

(** Part of the entries of a well-formed cache. *)
Lemma wf_sublist es' c : cache_wf c -> sublist es' (entries c) -> cache_wf (c <| entries := es' |>).
Proof.
  intros (N & L & F) S. split_and!; cbn.
  - eapply sublist_NoDup; [exact N | now apply fmap_sublist].
  - apply sublist_length in S. lia.
  - rewrite Forall_forall in *. intros e I. apply F. eapply elem_of_submseteq; [exact I | now apply sublist_submseteq].
Qed.

Lemma map_delete_fresh k es : k ∉ (en_key <$> map_delete k es).
Proof. intros (e & E & I)%list_elem_of_fmap. apply list_elem_of_filter in I as [N _]. congruence. Qed.
Lemma map_get_some k es e : map_get k es = Some e -> e ∈ es /\ en_key e = k.
Proof.
  intros F. apply List.find_some in F as [I E].
  split; [now apply list_elem_of_In | now apply bool_decide_eq_true in E].
Qed.
Lemma map_get_none k es : map_get k es = None <-> k ∉ (en_key <$> es).
Proof.
  unfold map_get. induction es as [|e es IH]; cbn; [set_solver |].
  rewrite not_elem_of_cons. destruct (bool_decide (en_key e = k)) eqn:E; [apply bool_decide_eq_true in E | apply bool_decide_eq_false in E];
    rewrite ?IH; intuition congruence.
Qed.
Lemma map_get_elem k es e : NoDup (en_key <$> es) -> e ∈ es -> en_key e = k -> map_get k es = Some e.
Proof.
  unfold map_get. induction es as [|x es IH]; cbn; [set_solver |].
  intros [N1 N2]%NoDup_cons [->|I]%elem_of_cons K; destruct (bool_decide (en_key x = k)) eqn:E;
    try apply bool_decide_eq_true in E; try apply bool_decide_eq_false in E; auto; [congruence |].
  destruct N1. rewrite E, <- K. apply list_elem_of_fmap. eauto.
Qed.

(** ** What a lookup answers *)

(** An entry that may serve the request semantically. *)
Definition qualifies (pv system user : string) (e : Entry) : Prop :=
  en_promptVersion e = pv /\ en_systemKey e = sha256 system /\
  SEMANTIC_THRESHOLD <= jaccard (shingle user) (en_shingles e).

Lemma best_fold pv system user es : forall best : option (Entry * Q),
  from_option (fun b => b.2 = jaccard (shingle user) (en_shingles (b.1))) True best ->
  match fold_left (better pv (sha256 system) (shingle user)) es best with
  | None => best = None /\ forall e, e ∈ es -> ~ qualifies pv system user e
  | Some (e, s) => (Some (e, s) = best \/ e ∈ es /\ qualifies pv system user e) /\
      s = jaccard (shingle user) (en_shingles e) /\
      (forall e', e' ∈ es -> qualifies pv system user e' -> jaccard (shingle user) (en_shingles e') <= s) /\
      from_option (fun b => b.2 <= s) True best
  end.
Proof.
  induction es as [|x es IH]; intros best B; cbn [fold_left].
  { destruct best as [[e s]|]; cbn in *; [|split; [easy | set_solver]].
    split; [now left |]. split; [easy |]. split; [set_solver | apply Qle_refl]. }
  set (q := jaccard (shingle user) (en_shingles x)).
  assert (D : (better pv (sha256 system) (shingle user) best x = best /\
                (qualifies pv system user x -> from_option (fun b => q <= b.2) False best)) \/
              (better pv (sha256 system) (shingle user) best x = Some (x, q) /\ qualifies pv system user x /\
                from_option (fun b => b.2 <= q) True best)).
  { unfold better. destruct (decide _) as [N|P]; [left; split; [easy | now intros (E & _)] |].
    destruct (decide _) as [N|K]; [left; split; [easy | now intros (_ & E & _)] |].
    apply dec_stable in P, K. fold q.
    destruct (SEMANTIC_THRESHOLD <=? q) eqn:T; qprop; cbn.
    - destruct best as [[e s]|]; cbn.
      + destruct (s <? q) eqn:C; qprop; [right; repeat split; auto; lra | left; split; [easy | intros; cbn; lra]].
      + right. repeat split; auto.
    - left. split; [easy |]. intros (_ & _ & X). fold q in X. lra. }
  destruct D as [[-> Q1]|(-> & Q1 & Q2)].
  - specialize (IH best B). destruct (fold_left _ es best) as [[e s]|].
    + destruct IH as (I1 & I2 & I3 & I4). split; [destruct I1 as [|[]]; [now left | right; split; [now right | easy]] |].
      split; [easy |]. split; [|easy]. intros e' [->|I]%elem_of_cons Qe; [|auto].
      specialize (Q1 Qe). change (q <= s). destruct best as [[]|]; cbn in *; [lra | easy].
    + destruct IH as (-> & I). split; [easy |]. intros e' [->|J]%elem_of_cons; [intros Qe; exact (Q1 Qe) | auto].
  - specialize (IH (Some (x, q)) eq_refl). destruct (fold_left _ es _) as [[e s]|]; [|now destruct IH].
    destruct IH as (I1 & I2 & I3 & I4). cbn in I4. split.
    { destruct I1 as [[= -> ->]|[]]; right; (split; [|easy]); [now left | now right]. }
    split; [easy |]. split.
    { intros e' [->|I]%elem_of_cons Qe; [exact I4 | auto]. }
    destruct best as [[]|]; cbn in *; [lra | easy].
Qed.

Lemma semantic_spec pv system user es :
  match semantic pv system user es with
  | None => forall e, e ∈ es -> ~ qualifies pv system user e
  | Some e => e ∈ es /\ qualifies pv system user e /\
      forall e', e' ∈ es -> qualifies pv system user e' ->
      jaccard (shingle user) (en_shingles e') <= jaccard (shingle user) (en_shingles e)
  end.
Proof.
  unfold semantic. pose proof (best_fold pv system user es None I) as B.
  destruct (fold_left _ es None) as [[e s]|]; cbn; [|apply B].
  destruct B as ([|[I Qe]] & -> & M & _); [easy | auto].
Qed.

(** A lookup in a well-formed cache: an exact hit is the live entry stored under the
    hash of the prompt; otherwise the answer is that of a live entry of the same prompt
    version and system prompt whose words overlap the question by at least the
    threshold, no other such entry overlapping more; and nothing is returned exactly
    when there is neither.  No expired entry is ever served. *)
Theorem cache_hit_spec now pv system user c : cache_wf c ->
  let live e := e ∈ entries c /\ (now < en_expiresAt e)%Z in
  let found e := live e /\ en_key e = exactKey pv system user in
  match fst (get now pv system user c) with
  | Some (mkCacheHit v Exact) => exists e, found e /\ en_value e = v
  | Some (mkCacheHit v Semantic) => (forall e, ~ found e) /\
      exists e, live e /\ en_value e = v /\ qualifies pv system user e /\
      forall e', live e' -> qualifies pv system user e' ->
        jaccard (shingle user) (en_shingles e') <= jaccard (shingle user) (en_shingles e)
  | None => (forall e, ~ found e) /\ (forall e, live e -> ~ qualifies pv system user e)
  end.
Proof.
  intros W live found. assert (L : forall e, e ∈ entries (evictExpired now c) <-> live e) by apply evictExpired_elem.
  unfold get. pose proof (semantic_spec pv system user (entries (evictExpired now c))) as S.
  destruct (map_get _ _) as [e|] eqn:G.
  - apply map_get_some in G as [I K]. apply L in I as [I X].
    rewrite (proj2 (Z.ltb_lt _ _) X). cbn. exists e. repeat split; auto.
  - apply map_get_none in G.
    assert (F : forall e, ~ found e).
    { intros e [I K]. apply G. rewrite <- K. apply list_elem_of_fmap. exists e. split; [easy | now apply L]. }
    destruct (semantic _ _ _ _) as [e|]; cbn.
    + destruct S as (I & Qe & M). split; [exact F |]. exists e. split; [now apply L |].
      repeat split; try apply Qe. intros e' I'. apply M, L, I'.
    + split; [exact F |]. intros e I'. apply S, L, I'.
Qed.

(** ** Every operation keeps the cache well-formed *)

Lemma wf_move e es c : cache_wf c -> sublist es (entries c) -> (List.length es < maxEntries c)%nat ->
  en_key e ∉ (en_key <$> es) -> entry_ok e -> cache_wf (c <| entries := map_append e es |>).
Proof.
  intros W S L K O. destruct (wf_sublist _ _ W S) as (N & _ & F). cbn in *. split_and!; cbn.
  - unfold map_append. rewrite fmap_app. apply NoDup_app. split; [easy |]. split; [|apply NoDup_singleton].
    intros k Ik ->%list_elem_of_singleton. now apply K.
  - unfold map_append. rewrite length_app. cbn. lia.
  - apply Forall_app. auto.
Qed.

Lemma map_delete_shorter k es : k ∈ (en_key <$> es) -> (List.length (map_delete k es) < List.length es)%nat.
Proof.
  intros (e & -> & I)%list_elem_of_fmap. unfold map_delete.
  apply (length_filter_lt (fun x => en_key x <> en_key e) es e I). tauto.
Qed.

Lemma get_wf now pv system user c : cache_wf c -> cache_wf (get now pv system user c).2.
Proof.
  intros W. pose proof (wf_sublist _ _ W (list_filter_sublist _ (entries c)) : cache_wf (evictExpired now c)) as W'.
  unfold get. destruct (map_get _ _) as [e|] eqn:G; [|exact W'].
  destruct (_ <? _)%Z; [|exact W']. apply map_get_some in G as [I K].
  apply (wf_move e _ (evictExpired now c) W').
  - apply sublist_filter.
  - destruct W' as (_ & L & _).
    pose proof (map_delete_shorter (exactKey pv system user) (entries (evictExpired now c))) as D.
    specialize (D ltac:(apply list_elem_of_fmap; eauto)). cbn in *. lia.
  - rewrite K. apply map_delete_fresh.
  - destruct W' as (_ & _ & F). rewrite Forall_forall in F. now apply F.
Qed.

Definition stored now pv system user v c : Entry :=
  mkEntry (exactKey pv system user) pv (sha256 system) (shingle user) v (now + ttlMs c)%Z.

Lemma put_wf now pv system user v c : cache_wf c -> cache_wf (put now pv system user v c).
Proof.
  intros (N & L & F). set (k := exactKey pv system user). fold (stored now pv system user v c).
  set (c' := mkPromptCache (ttlMs c) (S (maxEntries c)) (entries c)).
  assert (W : cache_wf (c' <| entries := map_append (stored now pv system user v c) (map_delete k (entries c)) |>)).
  { apply wf_move.
    - split_and!; cbn; auto.
    - apply sublist_filter.
    - pose proof (length_filter (fun e => en_key e <> k) (entries c)). cbn. unfold map_delete. lia.
    - apply map_delete_fresh.
    - now exists system, user. }
  destruct (wf_sublist _ _ W (evict_oldest_sublist (maxEntries c) _)) as (N' & _ & F').
  split_and!; [exact N' | | exact F'].
  destruct (evict_oldest_suffix (maxEntries c) (map_append (stored now pv system user v c) (map_delete k (entries c)))) as (_ & _ & B & _).
  exact B.
Qed.

(** Operations as data, each at its time. *)
Inductive CacheOp := OpGet (pv system user : string) | OpPut (pv system user : string) (v : CachedValue).
Definition apply_op (c : PromptCache) (op : Z * CacheOp) : PromptCache :=
  match op with
  | (now, OpGet pv system user) => snd (get now pv system user c)
  | (now, OpPut pv system user v) => put now pv system user v c
  end.

(** C17: The cache type invariant: from the empty cache, after any sequence of lookups
    and insertions at any times, keys are distinct, there are never more entries than
    the maximum, and every entry sits under the hash of the prompt it answers, with
    that prompt's bucket and words. *)
Theorem cache_invariant ttl max ops :
  let c := fold_left apply_op ops (mkPromptCache ttl max []) in
  cache_wf c /\ ttlMs c = ttl /\ maxEntries c = max.
Proof.
  intros c. subst c.
  assert (G : forall c, cache_wf c -> cache_wf (fold_left apply_op ops c) /\
    ttlMs (fold_left apply_op ops c) = ttlMs c /\ maxEntries (fold_left apply_op ops c) = maxEntries c).
  { induction ops as [|[now op] ops IH]; intros c W; cbn [fold_left]; [easy |].
    assert (S : cache_wf (apply_op c (now, op)) /\ ttlMs (apply_op c (now, op)) = ttlMs c /\
      maxEntries (apply_op c (now, op)) = maxEntries c).
    { destruct op; cbn [apply_op]; (split; [auto using get_wf, put_wf |]); [|easy].
      unfold get. destruct (map_get _ _); [destruct (_ <? _)%Z |]; easy. }
    destruct S as (S1 & <- & <-). now apply IH. }
  apply G. split_and!; cbn; [constructor | lia | constructor].
Qed.

(** ** Least recently used *)

(** The entry [e] is in the cache and at most [n] entries were used after it. *)
Definition held (e : Entry) (n : nat) (c : PromptCache) : Prop :=
  exists older newer, entries c = older ++ e :: newer /\ (List.length newer <= n)%nat.

Lemma held_filter (P : Entry -> Prop) `{!forall x, Decision (P x)} e es older newer :
  es = older ++ e :: newer -> P e ->
  filter P es = filter P older ++ e :: filter P newer /\ (List.length (filter P newer) <= List.length newer)%nat.
Proof. intros -> Pe. rewrite filter_app, filter_cons_True by easy. split; [easy | apply length_filter]. Qed.

Lemma held_expired now e n c : held e n c -> (now < en_expiresAt e)%Z -> held e n (evictExpired now c).
Proof.
  intros (older & newer & E & L) X. unfold held, evictExpired. cbn. rewrite E, List.filter_app. cbn.
  rewrite (proj2 (Z.leb_gt _ _) X). cbn.
  eexists _, _. split; [reflexivity |]. pose proof (filter_length_le (fun e0 => negb (en_expiresAt e0 <=? now)%Z) newer). lia.
Qed.

(** Using another entry lets [e] age by one. *)
Lemma held_append e n c x : held e n c -> en_key x <> en_key e ->
  held e (S n) (c <| entries ::= fun es => map_append x (map_delete (en_key x) es) |>).
Proof.
  intros (older & newer & E & L) N.
  destruct (held_filter (fun y => en_key y <> en_key x) e _ older newer E ltac:(congruence)) as [F M].
  unfold held, map_append, map_delete. cbn. rewrite F. eexists _, (_ ++ [x]).
  split; [now rewrite <- app_assoc |]. rewrite length_app. cbn. lia.
Qed.

Lemma held_evict e n c : held e n c -> (n < maxEntries c)%nat ->
  held e n (c <| entries ::= evict_oldest (maxEntries c) |>).
Proof.
  intros (older & newer & E & L) M. unfold held. cbn. setoid_rewrite E.
  destruct (evict_oldest_suffix (maxEntries c) (entries c)) as (old & S & _ & O). rewrite E in S, O.
  rewrite length_app in O. cbn in O.
  apply app_eq_inv in S as [(k & -> & ->)|(k & -> & S)]; [now exists k, newer |].
  rewrite length_app in O. destruct k as [|y k]; [|cbn in O; lia].
  exists [], newer. cbn in S. now rewrite <- S.
Qed.

Lemma held_put now pv system user v c : (0 < maxEntries c)%nat ->
  held (stored now pv system user v c) 0 (put now pv system user v c).
Proof.
  set (e := stored now pv system user v c). intros M.
  set (c' := c <| entries ::= fun es => map_append e (map_delete (en_key e) es) |>).
  assert (Hd : held e 0 c') by now exists (map_delete (en_key e) (entries c)), [].
  exact (held_evict e 0 c' Hd M).
Qed.

(** An operation that does not store under the key of [e], while [e] is live. *)
Definition spares (e : Entry) (op : Z * CacheOp) : Prop :=
  (fst op < en_expiresAt e)%Z /\
  match snd op with
  | OpPut pv system user _ => exactKey pv system user <> en_key e
  | OpGet _ _ _ => True
  end.

Lemma held_get_exact now pv system user c e n : cache_wf c -> held e n c ->
  (now < en_expiresAt e)%Z -> en_key e = exactKey pv system user ->
  get now pv system user c =
    (Some (mkCacheHit (en_value e) Exact),
     (evictExpired now c) <| entries ::= fun es => map_append e (map_delete (en_key e) es) |>).
Proof.
  intros W (older & newer & E & L) X K. unfold get.
  assert (W' : cache_wf (evictExpired now c)) by (apply wf_sublist; [exact W | apply list_filter_sublist]).
  destruct W' as [N _].
  rewrite (map_get_elem _ _ e N); [| |exact K].
  - now rewrite (proj2 (Z.ltb_lt _ _) X), K.
  - apply evictExpired_elem. rewrite E. split; [set_solver | exact X].
Qed.

Lemma held_op e n c op : cache_wf c -> held e n c -> spares e op -> (S n < maxEntries c)%nat ->
  held e (S n) (apply_op c op).
Proof.
  intros W Hd [X Sp] M. destruct op as [now [pv system user|pv system user v]]; cbn [fst snd apply_op] in *.
  - pose proof (held_expired now e n c Hd X) as Hx.
    assert (Weaken : held e (S n) (evictExpired now c)) by (destruct Hx as (o & w & E & L); exists o, w; auto).
    unfold get. destruct (map_get _ _) as [x|] eqn:G; [|exact Weaken].
    destruct (now <? en_expiresAt x)%Z; [|exact Weaken]. apply map_get_some in G as [I K].
    destruct (decide (en_key x = en_key e)) as [Same|Other].
    + replace x with e; [|].
      * exists (map_delete (exactKey pv system user) (entries (evictExpired now c))), [].
        split; [easy | cbn; lia].
      * assert (W' : cache_wf (evictExpired now c)) by (apply wf_sublist; [exact W | apply list_filter_sublist]).
        destruct W' as [N _], Hx as (o & w & E & _).
        pose proof (map_get_elem _ _ x N I Same) as Gx.
        rewrite (map_get_elem _ _ e N) in Gx; [now injection Gx | rewrite E; set_solver | easy].
    + rewrite <- K. now apply held_append.
  - unfold put. cbn zeta. fold (stored now pv system user v c).
    pose proof (held_append e n c (stored now pv system user v c) Hd Sp) as Ha.
    exact (held_evict e (S n) _ Ha M).
Qed.

(** Least recently used: an answer put in a well-formed cache is returned exactly,
    for the prompt it was put for, at any time before it expires, as long as fewer
    operations than the cache has places came in between and none of them stored
    another answer for the same prompt. *)
Theorem cache_retains now pv system user v c ops t : cache_wf c -> (0 < ttlMs c)%Z ->
  (List.length ops < maxEntries c)%nat ->
  Forall (spares (stored now pv system user v c)) ops -> (t < now + ttlMs c)%Z ->
  fst (get t pv system user (fold_left apply_op ops (put now pv system user v c))) =
    Some (mkCacheHit v Exact).
Proof.
  intros W P L F T. set (e := stored now pv system user v c) in *.
  pose proof (held_put now pv system user v c ltac:(lia)) as H0'.
  assert (G : forall ops n c', cache_wf c' -> held e n c' -> (n + List.length ops < maxEntries c')%nat ->
    Forall (spares e) ops -> cache_wf (fold_left apply_op ops c') /\
    held e (n + List.length ops) (fold_left apply_op ops c')).
  { clear L F ops. induction ops as [|op ops IH]; intros n c' W' Hd L F; cbn [fold_left].
    - now rewrite Nat.add_0_r.
    - apply Forall_cons in F as [F1 F2]. cbn in L.
      assert (W2 : cache_wf (apply_op c' op)) by (destruct op as [? []]; cbn; auto using get_wf, put_wf).
      assert (M : maxEntries (apply_op c' op) = maxEntries c').
      { destruct op as [? []]; cbn; [|easy]. unfold get. destruct (map_get _ _); [destruct (_ <? _)%Z |]; easy. }
      replace (n + List.length (op :: ops))%nat with (S n + List.length ops)%nat by (cbn; lia).
      apply IH; auto; [apply held_op; auto; lia | rewrite M; lia]. }
  destruct (G ops 0%nat _ (put_wf now pv system user v c W) H0' ltac:(cbn; lia) F) as [W2 Hd].
  now rewrite (held_get_exact t pv system user _ e _ W2 Hd T eq_refl).
Qed.

(** Two prompts whose version and system text hold no NUL byte share the hashed text
    only when they are the same prompt: no part can run over into the next, so an exact
    hit across two prompts is a collision of SHA-256 itself. *)
Lemma nul_split a : forall b c d, Ascii.zero ∉ explode a ->
  Ascii.zero ∉ explode b ->
  (a ++ NUL ++ c = b ++ NUL ++ d)%string -> a = b /\ c = d.
Proof.
  induction a as [|x a IH]; intros [|y b] c d A B E; cbn in *; [split; [reflexivity | now injection E] | | |].
  - apply not_elem_of_cons in B as [B _]. injection E as E _. now destruct B.
  - apply not_elem_of_cons in A as [A _]. injection E as E _. now destruct A.
  - apply not_elem_of_cons in A as [_ A], B as [_ B]. injection E as -> E.
    now destruct (IH b c d A B E) as [-> ->].
Qed.
Lemma key_text_inj pv system user pv' system' user' :
  Ascii.zero ∉ explode (pv ++ system) ->
  Ascii.zero ∉ explode (pv' ++ system') ->
  key_text pv system user = key_text pv' system' user' -> (pv, system, user) = (pv', system', user').
Proof.
  rewrite !explode_app. intros [A1 A2]%not_elem_of_app [B1 B2]%not_elem_of_app E.
  destruct (nul_split _ _ _ _ A1 B1 E) as [-> E2]. now destruct (nul_split _ _ _ _ A2 B2 E2) as [-> ->].
Qed.
End PromptCache.

(** Concrete inputs: a small cache, with the prompt itself as its hash. *)
Module CacheSample.
#[export] Existing Instance binary64.
#[export] Instance plain : Sha256 := fun s => s.

Definition small : PromptCache := mkPromptCache 1000 2 [].
Definition answer : CachedValue := mkCachedValue "use a readiness probe" "m" 10 20.

Lemma small_wf : cache_wf small.
Proof. split_and!; [constructor | cbn; lia | constructor]. Defined.
End CacheSample.
Import CacheSample.

Lemma cache_hit_spec_witness :
  let c := put 0 "v1" "sys" "why does my pod restart" answer small in
  fst (get 10 "v1" "sys" "why does my pod restart?" c) = Some (mkCacheHit answer Semantic) /\
  exists e, e ∈ entries c /\ en_value e = answer.
Proof.
  intros c. pose proof (cache_hit_spec 10 "v1" "sys" "why does my pod restart?" c (put_wf _ _ _ _ _ _ small_wf)) as S.
  assert (G : fst (get 10 "v1" "sys" "why does my pod restart?" c) = Some (mkCacheHit answer Semantic)) by (vm_compute; reflexivity).
  rewrite G in S. split; [exact G |]. destruct S as (_ & e & (I & _) & E & _). eauto.
Defined.

Lemma cache_retains_witness :
  fst (get 999 "v1" "sys" "q" (fold_left apply_op [(5%Z, OpPut "v1" "sys" "other" answer)]
    (put 0 "v1" "sys" "q" answer small))) = Some (mkCacheHit answer Exact).
Proof.
  apply (cache_retains 0 "v1" "sys" "q" answer small); [exact small_wf | reflexivity | cbn; lia | | reflexivity].
  repeat constructor. vm_compute. discriminate.
Defined.

(** A word moved across the seam of the system and the user text gives another key. *)
Example seam_matters : exactKey "v1" "env: ok" "note hello" <> exactKey "v1" "env: ok note" "hello".
Proof. vm_compute. discriminate. Qed.
