(* ===== verification/Hash.v ===== *)
(** * SHA-256

    [createHash('sha256')] of Node's crypto module (FIPS 180-4), which names
    cached prompts, assigns experiment variants and fingerprints artifacts.
    Words are 32-bit integers, bytes are characters. *)
From Stdlib Require Import Ascii.
From S2P Require Import Prelude RegExp JsNum Binary64 PromptCache.
Open Scope Z_scope.

Module Fips.
(** ** 32-bit words *)
Definition word (z : Z) : Z := z mod 2 ^ 32.
Definition rotr (n x : Z) : Z := word (Z.lor (Z.shiftr x n) (Z.shiftl x (32 - n))).
Definition big_endian (l : chars) : Z := fold_left (fun z c => z * 256 + Z.of_N (code c)) l 0.
Fixpoint bytes_of (n : nat) (z : Z) : chars :=
  match n with O => [] | S n => bytes_of n (z / 256) ++ [ascii_of_N (Z.to_N (z mod 256))] end.

(** ** The constants: fractions of the roots of the first primes *)
Definition is_prime (n : nat) : bool := forallb (fun d => negb (Nat.eqb (Nat.modulo n d) 0)) (List.seq 2 (n - 2)).
Definition primes : list Z := Eval vm_compute in Z.of_nat <$> take 64 (List.filter is_prime (List.seq 2 310)).
(** The greatest [r] below [2 ^ bits] with [r ^ 3 <= z]. *)
Fixpoint cube_root (bits : nat) (r z : Z) : Z :=
  match bits with
  | O => r
  | S b => let r' := r + 2 ^ Z.of_nat b in cube_root b (if r' ^ 3 <=? z then r' else r) z
  end.
Definition initial : list Z := Eval vm_compute in (fun p => word (Z.sqrt (p * 2 ^ 64))) <$> take 8 primes.
Definition constants : list Z := Eval vm_compute in (fun p => word (cube_root 36 0 (p * 2 ^ 96))) <$> primes.

(** ** One block *)
Definition choose (x y z : Z) : Z := Z.lxor (Z.land x y) (Z.land (2 ^ 32 - 1 - x) z).
Definition majority (x y z : Z) : Z := Z.lxor (Z.lxor (Z.land x y) (Z.land x z)) (Z.land y z).
Definition mix (a b c x : Z) : Z := Z.lxor (Z.lxor (rotr a x) (rotr b x)) (rotr c x).
Definition spread (a b c x : Z) : Z := Z.lxor (Z.lxor (rotr a x) (rotr b x)) (Z.shiftr x c).

(** The message schedule, latest word first. *)
Definition next_word (w : list Z) : Z :=
  word (spread 17 19 10 (nth 1 w 0) + nth 6 w 0 + spread 7 18 3 (nth 14 w 0) + nth 15 w 0).
Definition schedule (block : list Z) : list Z := rev (Nat.iter 48 (fun w => next_word w :: w) (rev block)).
Definition round (st : list Z) (kw : Z * Z) : list Z :=
  match st with
  | [a; b; c; d; e; f; g; h] =>
      let t1 := h + mix 6 11 25 e + choose e f g + kw.1 + kw.2 in
      let t2 := mix 2 13 22 a + majority a b c in
      [word (t1 + t2); a; b; c; word (d + t1); e; f; g]
  | _ => st
  end.
Definition compress (st block : list Z) : list Z :=
  (fun xy => word (xy.1 + xy.2)) <$> combine st (fold_left round (combine constants (schedule block)) st).

(** ** The message *)
Definition padding (len : Z) : chars :=
  ascii_of_N 128 :: repeat zero (Z.to_nat ((55 - len) mod 64)) ++ bytes_of 8 (8 * len).
Fixpoint words (fuel : nat) (l : chars) : list Z :=
  match fuel with O => [] | S n => big_endian (take 4 l) :: words n (drop 4 l) end.
Fixpoint digest_blocks (fuel : nat) (st : list Z) (l : chars) : list Z :=
  match fuel, l with
  | O, _ | _, [] => st
  | S n, _ => digest_blocks n (compress st (words 16 (take 64 l))) (drop 64 l)
  end.
Definition padded (s : string) : chars := explode s ++ padding (Z.of_nat (String.length s)).
Definition digest (s : string) : list Z := digest_blocks (List.length (padded s)) initial (padded s).
Definition hex_digit (n : N) : ascii := default zero (explode "0123456789abcdef" !! N.to_nat n).
Definition hex (c : ascii) : chars := [hex_digit (code c / 16); hex_digit (code c mod 16)]%N.
Definition digest_bytes (s : string) : chars := concat (bytes_of 4 <$> digest s).
End Fips.

(** [digest('hex')] and [digest().readUInt32BE(0)]. *)
Definition sha256_hex (s : string) : string := implode (concat (Fips.hex <$> Fips.digest_bytes s)).
Definition sha256_u32 (s : string) : Z := Fips.big_endian (take 4 (Fips.digest_bytes s)).
#[export] Instance node_sha256 : Sha256 := sha256_hex.

(** The example digests of the standard. *)
Example sha256_abc : sha256_hex "abc" = "ba7816bf8f01cfea414140de5dae2223b00361a396177a9cb410ff61f20015ad"%string.
Proof. vm_compute. reflexivity. Qed.
Example sha256_empty : sha256_hex EmptyString = "e3b0c44298fc1c149afbf4c8996fb92427ae41e4649b934ca495991b7852b855"%string.
Proof. vm_compute. reflexivity. Qed.
Example sha256_two_blocks : sha256_hex "abcdbcdecdefdefgefghfghighijhijkijkljklmklmnlmnomnopnopq" =
  "248d6a61d20638b8e5c026930c3e6039a33ce45964ff2167f6ecedd419db06c1"%string.
Proof. vm_compute. reflexivity. Qed.

Section Shapes.
Import Fips.
(** ** Shapes: whole blocks, eight words, sixty-four digits *)
Lemma padded_whole s : (List.length (padded s) mod 64 = 0)%nat.
Proof.
  unfold padded, padding. rewrite length_app. cbn [List.length]. rewrite length_app, repeat_length.
  assert (E : List.length (explode s) = String.length s) by (induction s; cbn; auto). rewrite E.
  assert (B : forall n z, List.length (bytes_of n z) = n) by (induction n; intros; cbn; rewrite ?length_app, ?IHn; cbn; lia).
  rewrite B. set (n := String.length s). pose proof (Z.mod_pos_bound (55 - Z.of_nat n) 64 ltac:(lia)).
  apply Nat2Z.inj. rewrite Nat2Z.inj_mod, !Nat2Z.inj_add, Nat2Z.inj_succ, Nat2Z.inj_add, Z2Nat.id by lia.
  Z.to_euclidean_division_equations. lia.
Qed.
Lemma round_shape st kw : List.length st = 8%nat -> List.length (round st kw) = 8%nat.
Proof. intros L. do 8 (destruct st as [|? st]; [discriminate L|]). destruct st; [reflexivity | discriminate L]. Qed.
Lemma compress_shape st block : List.length st = 8%nat -> List.length (compress st block) = 8%nat.
Proof.
  intros L. unfold compress. rewrite length_fmap, length_combine.
  assert (R : forall l st, List.length st = 8%nat -> List.length (fold_left round l st) = 8%nat).
  { induction l as [|x l IH]; intros st' L'; cbn; [exact L' | apply IH, round_shape, L']. }
  rewrite R by exact L. lia.
Qed.
Lemma digest_shape s : List.length (digest s) = 8%nat.
Proof.
  unfold digest. assert (G : forall n st l, List.length st = 8%nat -> List.length (digest_blocks n st l) = 8%nat).
  { induction n as [|n IH]; intros st l L; cbn [digest_blocks]; [exact L|]. destruct l; [exact L | now apply IH, compress_shape]. }
  now apply G.
Qed.
Lemma big_endian_range l : 0 <= big_endian l < 256 ^ Z.of_nat (List.length l).
Proof.
  unfold big_endian. induction l as [|c l IH] using rev_ind; [cbn; lia|].
  rewrite fold_left_app, length_app. cbn [fold_left List.length]. rewrite Nat2Z.inj_add, Z.pow_add_r by lia.
  pose proof (N_ascii_bounded c). change (N_of_ascii c) with (code c) in *. change (256 ^ Z.of_nat 1) with 256. lia.
Qed.
Lemma sha256_u32_range s : 0 <= sha256_u32 s < 2 ^ 32.
Proof.
  unfold sha256_u32. pose proof (big_endian_range (take 4 (digest_bytes s))) as [L U]. split; [exact L|].
  eapply Z.lt_le_trans; [exact U|]. change (2 ^ 32) with (256 ^ 4). apply Z.pow_le_mono_r; [lia|].
  pose proof (firstn_le_length 4 (digest_bytes s)). lia.
Qed.
End Shapes.
