(* ===== verification/Effects.v ===== *)
(** * Effects: async handlers over a shared store

    An async method of the source is a [prog]: a finite sequence of atomic
    actions on the shared store, each one a SQL statement, a transaction that
    holds its locks, or a call to another service; between two actions (an
    [await]) other handlers may run.  An action either fails with a thrown
    exception and leaves the store as it was (a failed statement or a rolled
    back transaction), or returns a value and the new store; what earlier
    actions wrote stays written.

    [run] executes a handler alone.  [pstep] interleaves a pool of handlers
    action by action, and [guaranteed] is the rely/guarantee reasoning that
    lifts a per-handler proof to every interleaving ([pool_guarantee]). *)
From S2P Require Import Prelude.

(** The exceptions the modelled code throws or lets through. *)
Inductive exn :=
  | BadRequestException (reason : string)
  | AttemptErrors (codes : list string)
  | ConflictException
  | NotFoundException
  | ForbiddenException
  | UnauthorizedException
  | NoResultError          (* executeTakeFirstOrThrow on an empty result *)
  | DbError (constraint : string)
  | RemoteError            (* a rejected call to another service *)
  | HttpError (status : Z) (message : string)   (* an answer other than 2xx *)
  | JsError (message : string).
#[export] Instance exn_eq_dec : EqDecision exn.
Proof. solve_decision. Defined.

Inductive prog (S A : Type) : Type :=
  | Ret (a : A)
  | Throw (e : exn)
  | Act (B : Type) (act : S -> exn + (B * S)) (k : B -> prog S A).
Arguments Ret {S A} a.
Arguments Throw {S A} e.
Arguments Act {S A B} act k.

Fixpoint bind {S A B} (p : prog S A) (f : A -> prog S B) : prog S B :=
  match p with
  | Ret a => f a
  | Throw e => Throw e
  | Act act k => Act act (fun b => bind (k b) f)
  end.

Declare Scope prog_scope.
Delimit Scope prog_scope with prog.
Notation "'let*' x := m 'in' k" := (bind m (fun x => k))
  (at level 10, x name, k at level 200) : prog_scope.
Notation "'let*' ' p := m 'in' k" := (bind m (fun '(p) => k))
  (at level 10, p strict pattern, k at level 200) : prog_scope.
Notation "m ;; k" := (bind m (fun _ => k))
  (at level 100, k at level 200, right associativity) : prog_scope.
Open Scope prog_scope.

(** ** Primitive actions *)
Section Actions.
Context {S : Type}.

Definition act {A} (f : S -> exn + (A * S)) : prog S A := Act f Ret.
Definition select {A} (f : S -> A) : prog S A := act (fun s => inr (f s, s)).
Definition execute (f : S -> S) : prog S unit := act (fun s => inr (tt, f s)).
(** [executeTakeFirstOrThrow]. *)
Definition select_or_throw {A} (f : S -> option A) : prog S A :=
  act (fun s => match f s with Some a => inr (a, s) | None => inl NoResultError end).
(** common/find-or-throw.ts. *)
Definition findOrThrow {A} (row : option A) : prog S A :=
  match row with Some a => Ret a | None => Throw NotFoundException end.

(** [try { p } catch (e) { h e }]. *)
Fixpoint try_catch {A} (p : prog S A) (h : exn -> prog S A) : prog S A :=
  match p with
  | Ret a => Ret a
  | Throw e => h e
  | Act f k =>
      Act (fun s => match f s with
                    | inl e => inr (inl e, s)
                    | inr (b, s') => inr (inr b, s')
                    end)
          (fun r => match r with inl e => h e | inr b => try_catch (k b) h end)
  end.

(** [for (const x of l) await f(x)] and [for (...) out.push(await f(x))]. *)
Fixpoint for_each {A} (l : list A) (f : A -> prog S unit) : prog S unit :=
  match l with [] => Ret tt | x :: l => f x ;; for_each l f end.
Fixpoint for_map {A B} (l : list A) (f : A -> prog S B) : prog S (list B) :=
  match l with
  | [] => Ret []
  | x :: l => let* b := f x in let* bs := for_map l f in Ret (b :: bs)
  end.

(** [l.map(f)] with an [f] that may throw. *)
Fixpoint map_or_throw {A B} (f : A -> exn + B) (l : list A) : exn + list B :=
  match l with
  | [] => inr []
  | x :: l =>
      match f x with
      | inl e => inl e
      | inr y => match map_or_throw f l with inl e => inl e | inr ys => inr (y :: ys) end
      end
  end.

Definition when (b : bool) (p : prog S unit) : prog S unit :=
  if b then p else Ret tt.

(** ** Running a handler alone *)
Fixpoint run {A} (p : prog S A) (s : S) : (exn + A) * S :=
  match p with
  | Ret a => (inr a, s)
  | Throw e => (inl e, s)
  | Act f k => match f s with inl e => (inl e, s) | inr (b, s') => run (k b) s' end
  end.

(** A transaction body, run as one action: rolled back when it throws. *)
Definition transaction {A} (p : prog S A) : prog S A :=
  act (fun s => match run p s with
                | (inl e, _) => inl e
                | (inr a, s') => inr (a, s')
                end).
End Actions.

(** ** Equations of [run] *)
Section Run.
Context {S : Type}.

Lemma run_bind {A B} (p : prog S A) (f : A -> prog S B) s :
  run (bind p f) s =
  match run p s with
  | (inr a, s') => run (f a) s'
  | (inl e, s') => (inl e, s')
  end.
Proof. revert s. induction p as [| |C g k IH]; intros s; cbn; auto. destruct (g s) as [|[]]; auto. Qed.

Lemma run_try {A} (p : prog S A) h s :
  run (try_catch p h) s =
  match run p s with
  | (inr a, s') => (inr a, s')
  | (inl e, s') => run (h e) s'
  end.
Proof. revert s. induction p as [a|e|C g k IH]; intros s; cbn; auto. destruct (g s) as [|[]]; auto. Qed.

Lemma run_act {A} (f : S -> exn + (A * S)) s :
  run (act f) s = match f s with inl e => (inl e, s) | inr (a, s') => (inr a, s') end.
Proof. reflexivity. Qed.

Lemma run_ret {A} (a : A) (s : S) : run (Ret a) s = (inr a, s).
Proof. reflexivity. Qed.
Lemma run_throw {A} e (s : S) : run (@Throw S A e) s = (inl e, s).
Proof. reflexivity. Qed.
Lemma run_select_or_throw {A} (f : S -> option A) s :
  run (select_or_throw f) s = match f s with Some a => (inr a, s) | None => (inl NoResultError, s) end.
Proof. cbn. now destruct (f s). Qed.
Lemma run_find {A} (o : option A) (s : S) :
  run (findOrThrow o) s = match o with Some a => (inr a, s) | None => (inl NotFoundException, s) end.
Proof. now destruct o. Qed.

Lemma run_select {A} (f : S -> A) s : run (select f) s = (inr (f s), s).
Proof. reflexivity. Qed.
Lemma run_execute (f : S -> S) s : run (execute f) s = (inr tt, f s).
Proof. reflexivity. Qed.

Lemma run_transaction {A} (p : prog S A) s :
  run (transaction p) s =
  match run p s with (inl e, _) => (inl e, s) | (inr a, s') => (inr a, s') end.
Proof. cbn. destruct (run p s) as [[|] ?]; reflexivity. Qed.
End Run.
Create Rewrite HintDb run.
#[export] Hint Rewrite @run_bind @run_try @run_act @run_ret @run_throw @run_select_or_throw @run_find @run_select @run_execute @run_transaction : run.

(** Executes a handler statement by statement; stops at undecided matches. *)
Ltac run_simpl := repeat (progress (autorewrite with run; cbn beta iota)).

(** ** Total correctness of a handler run alone *)
Section Runs.
Context {S : Type}.

Definition runs {A} (p : prog S A) (s : S) (Q : A -> S -> Prop) : Prop :=
  exists a s', run p s = (inr a, s') /\ Q a s'.

Lemma runs_bind {A B} (p : prog S A) (f : A -> prog S B) s Q :
  runs p s (fun a s' => runs (f a) s' Q) -> runs (bind p f) s Q.
Proof. intros (a & s1 & E & b & s2 & E2 & H). exists b, s2. now rewrite run_bind, E. Qed.
Lemma runs_ret {A} (a : A) (s : S) (Q : A -> S -> Prop) : Q a s -> runs (Ret a) s Q.
Proof. intros H. now exists a, s. Qed.
Lemma runs_mono {A} (p : prog S A) s (Q Q' : A -> S -> Prop) :
  runs p s Q -> (forall a s', Q a s' -> Q' a s') -> runs p s Q'.
Proof. intros (a & s' & E & H) I. exists a, s'. auto. Qed.

(** A loop that collects results, with an invariant on what is done so far. *)
Lemma runs_for_map {A B} (I : list A -> list B -> S -> Prop) (f : A -> prog S B) l s :
  (forall done bs x s, I done bs s -> runs (f x) s (fun b s' => I (done ++ [x]) (bs ++ [b]) s')) ->
  I [] [] s -> runs (for_map l f) s (fun bs s' => I l bs s').
Proof.
  intros H. assert (G : forall l done bs s, I done bs s ->
    runs (for_map l f) s (fun rest s' => I (done ++ l) (bs ++ rest) s')).
  { clear l s. induction l as [|x l IH]; intros done bs s Hs; cbn [for_map].
    - apply runs_ret. now rewrite !app_nil_r.
    - apply runs_bind. eapply runs_mono; [exact (H done bs x s Hs) |]. cbn. intros b s' Hb.
      apply runs_bind. eapply runs_mono; [exact (IH _ _ _ Hb) |]. cbn. intros rest s2 Hr.
      apply runs_ret. now rewrite <- !app_assoc in Hr. }
  intros Hs. exact (G l [] [] s Hs).
Qed.
Lemma runs_for_each {A} (I : list A -> S -> Prop) (f : A -> prog S unit) l s :
  (forall done x s, I done s -> runs (f x) s (fun _ s' => I (done ++ [x]) s')) ->
  I [] s -> runs (for_each l f) s (fun _ s' => I l s').
Proof.
  intros H. assert (G : forall l done s, I done s -> runs (for_each l f) s (fun _ s' => I (done ++ l) s')).
  { clear l s. induction l as [|x l IH]; intros done s Hs; cbn [for_each].
    - apply runs_ret. now rewrite app_nil_r.
    - apply runs_bind. eapply runs_mono; [exact (H done x s Hs) |]. cbn. intros _ s' Hb.
      eapply runs_mono; [exact (IH _ _ Hb) |]. cbn. intros _ s2 Hr. now rewrite <- app_assoc in Hr. }
  intros Hs. exact (G l [] s Hs).
Qed.
End Runs.

(** ** What a handler may do to the store

    [preserves R p]: every action of [p], wherever it is interleaved, takes the
    store to an [R]-related one. *)
Fixpoint preserves {S A} (R : S -> S -> Prop) (p : prog S A) : Prop :=
  match p with
  | Ret _ | Throw _ => True
  | Act f k => (forall s b s', f s = inr (b, s') -> R s s') /\ (forall b, preserves R (k b))
  end.

Section Preserves.
Context {S : Type} (R : S -> S -> Prop) `{!PreOrder R}.

Lemma preserves_run {A} (p : prog S A) s : preserves R p -> R s (snd (run p s)).
Proof.
  revert s. induction p as [a|e|B f k IH]; intros s H; cbn; [reflexivity.. |].
  destruct H as [H1 H2]. destruct (f s) as [e|[b s']] eqn:E; [reflexivity |].
  etrans; [exact (H1 _ _ _ E) | apply IH, H2].
Qed.

Lemma preserves_bind {A B} (p : prog S A) (f : A -> prog S B) :
  preserves R p -> (forall a, preserves R (f a)) -> preserves R (bind p f).
Proof. intros Hp Hf. induction p as [| |C g k IH]; cbn; auto. destruct Hp; split; auto. Qed.
Lemma preserves_ret {A} (a : A) : preserves R (Ret a).
Proof. exact I. Qed.
Lemma preserves_throw {A} e : preserves R (@Throw S A e).
Proof. exact I. Qed.
Lemma preserves_act {A} (f : S -> exn + (A * S)) :
  (forall s a s', f s = inr (a, s') -> R s s') -> preserves R (act f).
Proof. intros H. split; [exact H | intros; exact I]. Qed.
Lemma preserves_total {A} (f : S -> A * S) :
  (forall s, R s (snd (f s))) -> preserves R (act (fun s => inr (f s))).
Proof. intros H. apply preserves_act. intros s a s' E. specialize (H s). destruct (f s). now injection E as <- <-. Qed.
Lemma preserves_select {A} (f : S -> A) : preserves R (select f).
Proof. apply preserves_act. intros s a s' [= <- <-]. reflexivity. Qed.
Lemma preserves_select_or_throw {A} (f : S -> option A) : preserves R (select_or_throw f).
Proof. apply preserves_act. intros s a s'. destruct (f s); intros [= <- <-]. reflexivity. Qed.
Lemma preserves_find {A} (o : option A) : preserves R (findOrThrow o).
Proof. destruct o; exact I. Qed.
Lemma preserves_execute f : (forall s, R s (f s)) -> preserves R (execute f).
Proof. intros H. apply preserves_act. intros s a s' [= <- <-]. apply H. Qed.
Lemma preserves_transaction {A} (p : prog S A) : preserves R p -> preserves R (transaction p).
Proof.
  intros H. apply preserves_act. intros s a s' E. pose proof (preserves_run p s H) as G.
  destruct (run p s) as [[|] ?]; [easy |]. now injection E as <- <-.
Qed.
Lemma preserves_try {A} (p : prog S A) h :
  preserves R p -> (forall e, preserves R (h e)) -> preserves R (try_catch p h).
Proof.
  intros Hp Hh. induction p as [|e|C g k IH]; cbn; auto. destruct Hp as [H1 H2].
  split; [|intros [e|b]; auto].
  intros s r s'. destruct (g s) as [e|[b s2]] eqn:E; intros [= <- <-]; [reflexivity | eauto].
Qed.
Lemma preserves_for_each {A} (l : list A) f :
  (forall a, preserves R (f a)) -> preserves R (for_each l f).
Proof.
  intros H. induction l as [|x l IH]; cbn; [exact I |]. apply preserves_bind; auto.
Qed.
Lemma preserves_for_map {A B} (l : list A) (f : A -> prog S B) :
  (forall a, preserves R (f a)) -> preserves R (for_map l f).
Proof.
  intros H. induction l as [|x l IH]; cbn; [exact I |].
  repeat (apply preserves_bind; [now auto | intros]). exact I.
Qed.
Lemma preserves_when b p : preserves R p -> preserves R (when b p).
Proof. intros H. now destruct b. Qed.
End Preserves.

Create HintDb preserves.
#[export] Hint Resolve preserves_ret preserves_throw preserves_select
  preserves_select_or_throw preserves_find : preserves.

(** Walks a handler's syntax; leaves the statements that write. *)
Ltac preserves_step :=
  intros;
  match goal with
  | |- preserves _ (bind _ _) => apply preserves_bind
  | |- preserves _ (try_catch _ _) => apply preserves_try; [try typeclasses eauto | | ]
  | |- preserves _ (for_each _ _) => apply preserves_for_each
  | |- preserves _ (for_map _ _) => apply preserves_for_map
  | |- preserves _ (transaction _) => apply preserves_transaction; [try typeclasses eauto | ]
  | |- preserves _ (when _ _) => apply preserves_when
  | |- preserves _ (match ?x with _ => _ end) => destruct x
  | |- preserves _ _ => solve [auto with preserves typeclass_instances]
  end.
Ltac preserves := repeat preserves_step.

(** ** Interleaving

    A pool of handlers; each step runs one action of one of them, or admits a
    new request. *)
Definition thread_step {S A} (p : prog S A) (s : S) : option (prog S A * S) :=
  match p with
  | Act f k => match f s with inl e => Some (Throw e, s) | inr (b, s') => Some (k b, s') end
  | _ => None
  end.

Inductive pstep {S A} (request : prog S A -> Prop) :
    list (prog S A) * S -> list (prog S A) * S -> Prop :=
  | pstep_run ps s i p p' s' :
      ps !! i = Some p -> thread_step p s = Some (p', s') ->
      pstep request (ps, s) (<[i := p']> ps, s')
  | pstep_admit ps s p : request p -> pstep request (ps, s) (ps ++ [p], s).

(** Runs the handlers in the order a schedule names them; a handler that has
    finished is passed over. *)
Fixpoint schedule {S A} (turns : list nat) (ps : list (prog S A)) (s : S) : list (prog S A) * S :=
  match turns with
  | [] => (ps, s)
  | i :: turns =>
      match ps !! i with
      | Some p => match thread_step p s with
                  | Some (p', s') => schedule turns (<[i := p']> ps) s'
                  | None => schedule turns ps s
                  end
      | None => schedule turns ps s
      end
  end.

Definition finished {S A} (p : prog S A) : bool := match p with Act _ _ => false | _ => true end.

Lemma schedule_rtc {S A} (request : prog S A -> Prop) turns ps s :
  rtc (pstep request) (ps, s) (schedule turns ps s).
Proof.
  revert ps s. induction turns as [|i turns IH]; intros ps s; cbn; [reflexivity |].
  destruct (ps !! i) as [p|] eqn:P; [|apply IH].
  destruct (thread_step p s) as [[p' s']|] eqn:T; [|apply IH].
  eapply rtc_l; [|apply IH]. now apply (pstep_run _ ps s i p).
Qed.

Section RelyGuarantee.
Context {S : Type} (R : S -> S -> Prop) `{!PreOrder R}.

(** [guaranteed p Q s]: from [s], whatever [R]-steps the others take between
    the actions of [p], each action of [p] is itself an [R]-step, and a normal
    result satisfies [Q]. *)
Fixpoint guaranteed {A} (p : prog S A) (Q : A -> S -> Prop) (s : S) : Prop :=
  match p with
  | Ret a => forall s', R s s' -> Q a s'
  | Throw _ => True
  | Act f k => forall s', R s s' ->
      match f s' with
      | inl _ => True
      | inr (b, s2) => R s' s2 /\ guaranteed (k b) Q s2
      end
  end.

Lemma guaranteed_env {A} (p : prog S A) Q s s' :
  guaranteed p Q s -> R s s' -> guaranteed p Q s'.
Proof.
  destruct p as [a|e|B f k]; cbn; auto; intros H L s2 L2; apply H; (etrans; [exact L | exact L2]).
Qed.

Lemma guaranteed_bind {A B} (p : prog S A) (f : A -> prog S B) Q s :
  guaranteed p (fun a s' => guaranteed (f a) Q s') s -> guaranteed (bind p f) Q s.
Proof.
  revert s. induction p as [a|e|C g k IH]; intros s H; cbn in *; auto.
  - apply H. reflexivity.
  - intros s' L. specialize (H s' L). destruct (g s') as [|[b s2]]; auto.
    destruct H; auto.
Qed.

Lemma guaranteed_mono {A} (p : prog S A) (Q Q' : A -> S -> Prop) s :
  guaranteed p Q s -> (forall a s', R s s' -> Q a s' -> Q' a s') -> guaranteed p Q' s.
Proof.
  revert s. induction p as [a|e|C g k IH]; intros s H W; cbn in *; auto.
  intros s' L. specialize (H s' L). destruct (g s') as [|[b s2]]; auto.
  destruct H as [H1 H2]. split; auto. apply IH; auto.
  intros a s3 L3. apply W. etrans; [exact L | etrans; eauto].
Qed.

(** Handlers whose actions are all harmless need no further reasoning. *)
Lemma guaranteed_preserves {A} (p : prog S A) s :
  preserves R p -> guaranteed p (fun _ s' => R s s') s.
Proof.
  intros H. assert (G : forall s0, R s0 s -> guaranteed p (fun _ s' => R s0 s') s).
  { revert s H. induction p as [a|e|C g k IH]; intros s H s0 L0; cbn in *; auto.
    - intros s' L. (etrans; eassumption).
    - destruct H as [H1 H2]. intros s' L.
      destruct (g s') as [|[b s2]] eqn:E; auto.
      split; [eauto |]. apply IH; auto. etrans; [exact L0 | etrans; [exact L | eauto]]. }
  apply G. reflexivity.
Qed.

Lemma guaranteed_seq {A B} (p : prog S A) (f : A -> prog S B) Q s :
  preserves R p -> (forall a s', R s s' -> guaranteed (f a) Q s') ->
  guaranteed (bind p f) Q s.
Proof.
  intros Hp Hf. apply guaranteed_bind.
  eapply guaranteed_mono; [now apply guaranteed_preserves | cbn; auto].
Qed.

(** A read: what it saw held in a store the later actions start from. *)
Lemma guaranteed_reads {A B} (f : S -> A) (k : A -> prog S B) Q s :
  (forall s', R s s' -> guaranteed (k (f s')) Q s') -> guaranteed (bind (select f) k) Q s.
Proof. intros G s' L. split; [reflexivity | now apply G]. Qed.

Lemma guaranteed_step {A} (p p' : prog S A) Q s s' :
  guaranteed p Q s -> thread_step p s = Some (p', s') ->
  R s s' /\ guaranteed p' Q s'.
Proof.
  destruct p as [a|e|B f k]; cbn; try easy. intros H. specialize (H s ltac:(reflexivity)).
  destruct (f s) as [e|[b s2]]; intros [= <- <-]; [split; [reflexivity | exact I] | easy].
Qed.

(** Every interleaving of guaranteed handlers moves the store along [R]. *)
Theorem pool_guarantee {A} (request : prog S A -> Prop) (Q : A -> S -> Prop) ps s ps' s' :
  (forall p, request p -> forall s, guaranteed p Q s) ->
  (forall p, p ∈ ps -> guaranteed p Q s) ->
  rtc (pstep request) (ps, s) (ps', s') ->
  R s s' /\ forall p, p ∈ ps' -> guaranteed p Q s'.
Proof.
  intros Hreq Hps Hrtc.
  remember (ps, s) as c eqn:Ec. remember (ps', s') as c' eqn:Ec'.
  revert ps s Ec Hps. induction Hrtc as [c|c1 c2 c3 Hstep Hrtc IH]; intros ps s -> Hps.
  - injection Ec' as -> ->. split; [reflexivity | easy].
  - inversion Hstep as [qs q i p p2 s2 Hi Ht|qs q p Hp]; subst.
    + destruct (guaranteed_step p p2 Q s s2) as [L G];
        [apply Hps; eauto using list_elem_of_lookup_2 | easy |].
      destruct (IH eq_refl _ _ eq_refl) as [L' G'].
      * intros q Hq. apply list_elem_of_lookup in Hq as [j Hj].
        destruct (decide (i = j)) as [<-|Hne].
        -- rewrite list_lookup_insert_eq in Hj by now apply lookup_lt_Some in Hi.
           now injection Hj as <-.
        -- rewrite list_lookup_insert_ne in Hj by easy.
           apply guaranteed_env with s; [apply Hps; eauto using list_elem_of_lookup_2 | easy].
      * split; [(etrans; eassumption) | easy].
    + apply (IH eq_refl _ _ eq_refl). intros q Hq.
      apply elem_of_app in Hq as [Hq|Hq]; [auto |].
      apply list_elem_of_singleton in Hq as ->. auto.
Qed.
End RelyGuarantee.

(** ** Handlers that answer

    [answers Q n p]: whatever the store is at each of its actions, [p] returns a
    value satisfying [Q] after at most [n] of them and never throws.
    [acts Q n p] allows it to throw. *)
Inductive answers {S A} (Q : A -> Prop) : nat -> prog S A -> Prop :=
  | answers_ret n a : Q a -> answers Q n (Ret a)
  | answers_act n B (f : S -> exn + (B * S)) k :
      (forall s e, f s <> inl e) -> (forall s b s', f s = inr (b, s') -> answers Q n (k b)) ->
      answers Q (Datatypes.S n) (Act f k).
Inductive acts {S A} (Q : A -> Prop) : nat -> prog S A -> Prop :=
  | acts_ret n a : Q a -> acts Q n (Ret a)
  | acts_throw n e : acts Q n (Throw e)
  | acts_act n B (f : S -> exn + (B * S)) k :
      (forall s b s', f s = inr (b, s') -> acts Q n (k b)) -> acts Q (Datatypes.S n) (Act f k).

Section Answers.
Context {S : Type}.

Lemma answers_mono {A} (Q : A -> Prop) n m (p : prog S A) : answers Q n p -> (n <= m)%nat -> answers Q m p.
Proof.
  intros H. revert m. induction H as [n a|n B f k F _ IH]; intros m L; [now constructor |].
  destruct m as [|m]; [lia |]. constructor; [exact F | intros s b s' E; apply (IH s b s' E); lia].
Qed.
Lemma acts_mono {A} (Q : A -> Prop) n m (p : prog S A) : acts Q n p -> (n <= m)%nat -> acts Q m p.
Proof.
  intros H. revert m. induction H as [n a|n e|n B f k _ IH]; intros m L; [now constructor.. |].
  destruct m as [|m]; [lia |]. constructor. intros s b s' E; apply (IH s b s' E); lia.
Qed.
Lemma answers_bind {A B} (P : A -> Prop) (Q : B -> Prop) n m (p : prog S A) (f : A -> prog S B) :
  answers P n p -> (forall a, P a -> answers Q m (f a)) -> answers Q (n + m) (bind p f).
Proof.
  intros H F. induction H as [n a Pa|n C g k G _ IH]; cbn.
  - apply (answers_mono _ m); [now apply F | lia].
  - constructor; eauto.
Qed.
Lemma acts_bind {A B} (P : A -> Prop) (Q : B -> Prop) n m (p : prog S A) (f : A -> prog S B) :
  acts P n p -> (forall a, P a -> acts Q m (f a)) -> acts Q (n + m) (bind p f).
Proof.
  intros H F. induction H as [n a Pa|n e|n C g k _ IH]; cbn; [|constructor | constructor; eauto].
  apply (acts_mono _ m); [now apply F | lia].
Qed.
Lemma answers_try {A} (Q : A -> Prop) n m (p : prog S A) h :
  acts Q n p -> (forall e, answers Q m (h e)) -> answers Q (n + m) (try_catch p h).
Proof.
  intros H F. induction H as [n a Qa|n e|n C g k _ IH]; cbn.
  - now constructor.
  - apply (answers_mono _ m); [apply F | lia].
  - constructor; [intros s e; now destruct (g s) as [|[]] |].
    intros s [e|b] s' E; [apply (answers_mono _ m); [apply F | lia] |].
    apply (IH s b s'). destruct (g s) as [|[]]; [discriminate | now injection E as -> ->].
Qed.
Lemma answers_total {A} (f : S -> A * S) : answers (fun _ => True) 1 (act (fun s => inr (f s))).
Proof. constructor; [easy | intros s b s' E; now constructor]. Qed.
Lemma answers_select {A} (f : S -> A) (Q : A -> Prop) : (forall s, Q (f s)) -> answers Q 1 (select f).
Proof. intros H. constructor; [easy | intros s b s' [= <- <-]; now constructor]. Qed.
Lemma answers_execute (f : S -> S) : answers (fun _ => True) 1 (execute f).
Proof. constructor; [easy | intros s b s' E; now constructor]. Qed.
Lemma acts_one {A} (f : S -> exn + (A * S)) : acts (fun _ => True) 1 (act f).
Proof. constructor. intros s b s' E. now constructor. Qed.
Lemma answers_for_map {A B} n (l : list A) (f : A -> prog S B) :
  (forall a, answers (fun _ => True) n (f a)) ->
  answers (fun bs => List.length bs = List.length l) (n * List.length l) (for_map l f).
Proof.
  intros F. induction l as [|x l IH]; cbn; [now constructor |].
  replace (n * Datatypes.S (List.length l))%nat with (n + (n * List.length l + 0))%nat by lia.
  apply (answers_bind (fun _ => True)); [apply F |]. intros b _.
  apply (answers_bind _ _ _ _ _ _ IH). intros bs E. constructor. cbn. congruence.
Qed.

(** A handler that answers has returned once a schedule has given it its turns,
    whatever the other handlers do. *)
Lemma schedule_answers {A} (Q : A -> Prop) n i turns : forall (ps : list (prog S A)) s p,
  ps !! i = Some p -> answers Q n p -> (n <= count_occ Nat.eq_dec turns i)%nat ->
  exists a, (schedule turns ps s).1 !! i = Some (Ret a) /\ Q a.
Proof.
  assert (Keep : forall turns (ps : list (prog S A)) s a, ps !! i = Some (Ret a) ->
    (schedule turns ps s).1 !! i = Some (Ret a)).
  { clear turns. intros turns. induction turns as [|j turns IH]; intros ps s a E; cbn; [exact E |].
    destruct (ps !! j) as [q|] eqn:J; [|auto]. destruct (thread_step q s) as [[q' s']|] eqn:T; [|auto].
    apply IH. destruct (decide (j = i)) as [->|N]; [|now rewrite list_lookup_insert_ne].
    rewrite E in J. injection J as <-. discriminate T. }
  revert n. induction turns as [|j turns IH]; intros n ps s p E H L.
  - cbn in L. inversion H; subst; [eauto | lia].
  - destruct (decide (j = i)) as [->|N].
    + rewrite count_occ_cons_eq in L by easy. destruct H as [n a Qa|n B f k F K].
      * exists a. split; [now apply Keep | exact Qa].
      * cbn [schedule]. rewrite E. cbn. destruct (f s) as [e|[b s']] eqn:Fs; [now destruct (F s e) |].
        apply (IH n _ s' (k b)); [apply list_lookup_insert_eq; now apply lookup_lt_Some in E | exact (K s b s' Fs) | lia].
    + rewrite count_occ_cons_neq in L by easy. cbn [schedule].
      destruct (ps !! j) as [q|]; [|eauto]. destruct (thread_step q s) as [[q' s']|]; [|eauto].
      apply (IH n _ s' p); [now rewrite list_lookup_insert_ne | exact H | exact L].
Qed.
End Answers.

(** ** A handler on a part of a larger store *)
Fixpoint lift {S T A} (get : T -> S) (set : S -> T -> T) (p : prog S A) : prog T A :=
  match p with
  | Ret a => Ret a
  | Throw e => Throw e
  | Act f k => Act (fun t => match f (get t) with inl e => inl e | inr (b, s) => inr (b, set s t) end)
                   (fun b => lift get set (k b))
  end.

Section Lift.
Context {S T : Type} (get : T -> S) (set : S -> T -> T).
Hypothesis get_set : forall s t, get (set s t) = s.
Hypothesis set_get : forall t, set (get t) t = t.
Hypothesis set_set : forall s s' t, set s (set s' t) = set s t.

Lemma run_lift {A} (p : prog S A) t :
  run (lift get set p) t = (fst (run p (get t)), set (snd (run p (get t))) t).
Proof using get_set set_get set_set.
  revert t. induction p as [a|e|B f k IH]; intros t; cbn; [now rewrite set_get.. |].
  destruct (f (get t)) as [e|[b s]]; cbn; [now rewrite set_get |].
  now rewrite IH, get_set, set_set.
Qed.
Lemma preserves_lift {A} (R : T -> T -> Prop) (Q : S -> S -> Prop) (p : prog S A) :
  (forall t s, Q (get t) s -> R t (set s t)) -> preserves Q p -> preserves R (lift get set p).
Proof.
  intros L. induction p as [a|e|B f k IH]; cbn; auto. intros [H1 H2]. split; auto.
  intros t b t' E. destruct (f (get t)) as [e|[b' s]] eqn:F; [easy |]. injection E as <- <-. eauto.
Qed.
Lemma answers_lift {A} (Q : A -> Prop) n (p : prog S A) : answers Q n p -> answers Q n (lift get set p).
Proof.
  induction 1 as [n a|n B f k F K IH]; cbn; constructor; auto.
  - intros t e. destruct (f (get t)) as [e'|[]] eqn:E; [now destruct (F (get t) e') | discriminate].
  - intros t b t' E. destruct (f (get t)) as [e'|[b' s]] eqn:G; [discriminate |].
    injection E as -> <-. exact (IH (get t) b s G).
Qed.
End Lift.

(** ** Programs whose state is what they sent

    A client of another program is a [prog] over the list of the requests sent
    so far, on which the answers may depend.  [sends P p]: whatever is answered,
    [p] only adds requests of [P]. *)
Definition raise {R A} (r : exn + A) : prog R A := match r with inl e => Throw e | inr a => Ret a end.
Lemma run_raise {R A} (r : exn + A) (s : R) : run (raise r) s = (r, s).
Proof. now destruct r. Qed.

Section Sends.
Context {R : Type}.
Abbreviation io := (prog (list R)) (only parsing).

Definition sends (P : R -> Prop) {A} (p : io A) : Prop :=
  forall log, exists sent, snd (run p log) = log ++ sent /\ Forall P sent.
Lemma sends_ret P {A} (a : A) : sends P (Ret a).
Proof. intros log. exists []. now rewrite app_nil_r. Qed.
Lemma sends_throw P {A} e : sends P (@Throw _ A e).
Proof. intros log. exists []. now rewrite app_nil_r. Qed.
Lemma sends_raise P {A} (r : exn + A) : sends P (raise r).
Proof. destruct r; [apply sends_throw | apply sends_ret]. Qed.
Lemma sends_select P {A} (f : list R -> A) : sends P (select f).
Proof. intros log. exists []. now rewrite app_nil_r. Qed.
(** One request, whatever is answered. *)
Lemma sends_act P {A} (f : list R -> A) rq : P rq -> sends P (act (fun log => inr (f log, log ++ [rq]))).
Proof. intros Q log. exists [rq]. split; [reflexivity | now constructor]. Qed.
Lemma sends_bind P {A B} (p : io A) (f : A -> io B) : sends P p -> (forall a, sends P (f a)) -> sends P (bind p f).
Proof.
  intros S F log. rewrite run_bind. destruct (S log) as (sent & E & Q). destruct (run p log) as [[e|a] log1]; cbn in E; subst log1; [eauto|].
  destruct (F a (log ++ sent)) as (more & E & X). exists (sent ++ more). rewrite E, app_assoc, Forall_app. auto.
Qed.
Lemma sends_try P {A} (p : io A) h : sends P p -> (forall e, sends P (h e)) -> sends P (try_catch p h).
Proof.
  intros S F log. rewrite run_try. destruct (S log) as (sent & E & Q). destruct (run p log) as [[e|a] log1]; cbn in E; subst log1; [|eauto].
  destruct (F e (log ++ sent)) as (more & E & X). exists (sent ++ more). rewrite E, app_assoc, Forall_app. auto.
Qed.
Lemma sends_for_map P {A B} (l : list A) (f : A -> io B) : (forall a, sends P (f a)) -> sends P (for_map l f).
Proof.
  intros F. induction l as [|x l IH]; [apply sends_ret|]. apply sends_bind; [apply F|]. intros b. apply sends_bind; [exact IH|].
  intros bs. apply sends_ret.
Qed.
Lemma sends_for_each P {A} (l : list A) (f : A -> io unit) : (forall a, sends P (f a)) -> sends P (for_each l f).
Proof. intros F. induction l as [|x l IH]; [apply sends_ret|]. now apply sends_bind. Qed.
End Sends.

Create HintDb sends.
#[export] Hint Resolve sends_ret sends_throw sends_raise sends_select sends_act sends_bind sends_try sends_for_map sends_for_each : sends.
