(* ===== verification/Schema.v ===== *)
(** * The database schema and the store

    practice-core/src/db/schema.ts and db/migrations, the row types of
    catalog/activity-spec.ts the services read, and [Store]: every table the
    modelled handlers touch, the clock and the log of calls to other services.
    A uuid is a [nat] drawn from [next_id]; a timestamp is in milliseconds. *)
From S2P Require Import Prelude JsNum Effects.

Abbreviation Id := nat (only parsing).

(** ** JSON documents (event payloads) *)
Inductive Json :=
  | JNull
  | JBool (b : bool)
  | JNum (q : Q)
  | JStr (s : string)
  | JArr (l : list Json)
  | JObj (fields : list (string * Json)).

Definition jnat (n : nat) : Json := JNum (inject_Z (Z.of_nat n)).
Definition jopt {A} (f : A -> Json) (o : option A) : Json :=
  match o with Some a => f a | None => JNull end.

(** [payload.key], undefined when absent or when the payload is no object. *)
Definition jfield (key : string) (j : Json) : option Json :=
  match j with
  | JObj fs => snd <$> List.find (fun kv => String.eqb kv.1 key) fs
  | _ => None
  end.
Definition jstring (key : string) (j : Json) : option string :=
  match jfield key j with Some (JStr s) => Some s | _ => None end.
Definition jnumber (key : string) (j : Json) : option Q :=
  match jfield key j with Some (JNum q) => Some q | _ => None end.

(** ** Enumerations *)
Inductive ActivityMode := GUIDED_LAB | PRODUCTION_SIM | PROJECT.
#[export] Instance mode_eq_dec : EqDecision ActivityMode.
Proof. solve_decision. Defined.

Inductive ActivityVersionStatus :=
  | V_DRAFT | V_IN_REVIEW | V_APPROVED | V_PUBLISHED
  | V_CANARY | V_DEPRECATED | V_RETIRED | V_ROLLED_BACK.
#[export] Instance vstatus_eq_dec : EqDecision ActivityVersionStatus.
Proof. solve_decision. Defined.

Inductive AttemptStatus :=
  | CREATED | PROVISIONING | READY | IN_PROGRESS | SUBMITTED | EVALUATING
  | PASSED | FAILED | COMPLETED | PROVISION_FAILED | SUSPENDED | EVAL_FAILED
  | EXPIRED | ABANDONED | CACHED.
#[export] Instance status_eq_dec : EqDecision AttemptStatus.
Proof. solve_decision. Defined.

Inductive EventActor := LEARNER | SYSTEM | VALIDATOR | AI | ADMIN.
#[export] Instance actor_eq_dec : EqDecision EventActor.
Proof. solve_decision. Defined.

Inductive ValidatorResultStatus := PASS | FAIL | ERROR | SKIP.
#[export] Instance vrs_eq_dec : EqDecision ValidatorResultStatus.
Proof. solve_decision. Defined.

Inductive Severity := BLOCKING | WARN.
#[export] Instance severity_eq_dec : EqDecision Severity.
Proof. solve_decision. Defined.

Inductive SkillEdgeType := REQUIRES | BUILDS_ON | SIBLING | SPECIALIZES | SUPERSEDES.
#[export] Instance edge_type_eq_dec : EqDecision SkillEdgeType.
Proof. solve_decision. Defined.

Inductive DifficultyLevel := L1 | L2 | L3 | L4 | L5.
#[export] Instance level_eq_dec : EqDecision DifficultyLevel.
Proof. solve_decision. Defined.

Inductive MasteryBand := Novice | Developing | Competent | Proficient | Mastered.
#[export] Instance band_eq_dec : EqDecision MasteryBand.
Proof. solve_decision. Defined.

(** event-store/attempt-event-type.ts: ATTEMPT_EVENT_TYPES. *)
Inductive AttemptEventType :=
  | ATTEMPT_CREATED | ENV_REQUESTED | ENV_READY | ENV_FAILED | ATTEMPT_STARTED
  | E_SUSPENDED | RESUMED | E_SUBMITTED | EVALUATED | SEALED
  | COMMAND_EXECUTED | FILE_CHANGED | EDITOR_SAVE | TERMINAL_SESSION_OPEN
  | TERMINAL_SESSION_CLOSE
  | VALIDATION_REQUESTED | VALIDATOR_RESULT | TASK_PASSED | TASK_FAILED | TASK_SKIPPED
  | HINT_REQUESTED | AI_MESSAGE | SOLUTION_VIEWED
  | RESET | FAULT_INJECTED | IDLE_DETECTED | TTL_WARNING | ENV_DESTROYED | SNAPSHOT_TAKEN
  | TICKET_OPENED | ESCALATION_FIRED
  | MILESTONE_SUBMITTED | MILESTONE_GATED | DEFENCE_MESSAGE
  | ACCOUNT_CLAIMED | ACCOUNT_NUKED | ACCOUNT_QUARANTINED.
#[export] Instance event_type_eq_dec : EqDecision AttemptEventType.
Proof. solve_decision. Defined.

(** ** The activity spec (content.activity_version.spec_jsonb) *)
Inductive EnvTier := BROWSER | SHARED_CONTAINER | ISOLATED_VM | CLOUD_ACCOUNT.

(** Per-type configuration of the validators that run in the workspace. *)
Record IacStateConfig := mkIacStateConfig {
  is_working_dir : option string; is_no_drift : option bool;
  is_require_remote_backend : option bool; is_forbid_secrets_in_state : option bool }.
Record CloudAssertConfig := mkCloudAssertConfig { ca_checks : list string; ca_region : option string }.
Record TestSuiteConfig := mkTestSuiteConfig {
  tsu_command : option string; tsu_report_format : option string; tsu_report_path : option string;
  tsu_min_pass_rate : option Q }.
Record StaticAnalysisConfig := mkStaticAnalysisConfig {
  sac_tool : option string; sac_target : option string; sac_max_severity_allowed : option string;
  sac_max_findings : option Z }.
Record HealthCheck := mkHealthCheck { hc_url : option string; hc_expect_status : option Z; hc_interval_ms : option Z }.
Record ChaosProbeConfig := mkChaosProbeConfig {
  cp_action : option string; cp_target_selector : option string; cp_health_check : option HealthCheck;
  cp_recovery_timeout_ms : option Z }.
Record PerfBenchConfig := mkPerfBenchConfig {
  pb_script : option string; pb_target_url : option string; pb_rps : option Z; pb_duration_s : option Z;
  pb_p95_ms_max : option Z; pb_error_rate_max : option Q }.
Record ValidatorConfig := mkValidatorConfig {
  vc_iac_state : option IacStateConfig; vc_cloud_assert : option CloudAssertConfig;
  vc_test_suite : option TestSuiteConfig; vc_static_analysis : option StaticAnalysisConfig;
  vc_chaos_probe : option ChaosProbeConfig; vc_perf_bench : option PerfBenchConfig }.

Record ValidatorSpec := mkValidatorSpec {
  vs_id : string; vs_type : string; vs_weight : Q;
  vs_severity : option Severity; vs_timeoutMs : option Z;
  vs_run : option string; vs_expect : Json; vs_config : option ValidatorConfig }.

Record HintSpec := mkHintSpec { h_level : Z; h_penalty : Q; h_text : string }.

Record TaskSpec := mkTaskSpec {
  t_key : string; t_title : option string; t_instructions_md : option string; t_required : bool;
  t_validators : list ValidatorSpec; t_hints : option (list HintSpec) }.

Record FaultSpec := mkFaultSpec {
  f_id : string; f_apply_at : string; f_params : option (list (string * string));
  f_canonical_diagnostic_path : option string }.

Record EnvironmentSpec := mkEnvironmentSpec {
  e_tier : option EnvTier; e_ttl_minutes : option Z;
  e_idle_timeout_minutes : option Z; e_seed : option (list string) }.

Record ProcessSignals := mkProcessSignals {
  ps_good_actions : option (list string); ps_bad_actions : option (list string);
  ps_forbidden : option (list string) }.

Inductive MilestoneKey := design | infra | implementation | hardening | final.
#[export] Instance mkey_eq_dec : EqDecision MilestoneKey.
Proof. solve_decision. Defined.

Definition mkey_index (k : MilestoneKey) : nat :=
  match k with design => 0 | infra => 1 | implementation => 2 | hardening => 3 | final => 4 end%nat.
Definition mkey_of_index (n : nat) : MilestoneKey :=
  match n with 0 => design | 1 => infra | 2 => implementation | 3 => hardening | _ => final end%nat.
#[export] Instance mkey_countable : Countable MilestoneKey.
Proof. apply (inj_countable' mkey_index mkey_of_index). now intros []. Defined.

Inductive MilestoneGate := ALL_VALIDATORS_PASS | RUBRIC_MIN_LEVEL | BOTH.
#[export] Instance gate_eq_dec : EqDecision MilestoneGate.
Proof. solve_decision. Defined.

Record MilestoneAuthored := mkMilestoneAuthored {
  ma_key : MilestoneKey; ma_title : string; ma_gate : MilestoneGate;
  ma_blocking : option bool; ma_environment_required : bool;
  ma_task_keys : option (list string); ma_rubric : option string;
  ma_min_level : option Z }.

Record ArtifactRequired := mkArtifactRequired { aq_key : string; aq_rubric : option string }.

(** The part of the spec only the mentor reads. *)
Record AiMentorSpec := mkAiMentorSpec {
  am_disclosure_ceiling : option Z; am_concept_notes : option string }.

Record ActivitySpec := mkActivitySpec {
  s_objectives : option (list string);
  s_ai_mentor : option AiMentorSpec;
  s_tasks : option (list TaskSpec);
  s_environment : option EnvironmentSpec;
  s_health_gate : option (list Json);
  s_faults : option (list FaultSpec);
  s_scoring_profile : option string;
  s_artifacts_required : option (list ArtifactRequired);
  s_process_signals : option ProcessSignals;
  s_milestones : option (list MilestoneAuthored) }.

(** ** Rows *)
Record ActivityVersion := mkActivityVersion {
  av_activity_id : Id; av_version : nat; av_status : ActivityVersionStatus;
  av_spec : ActivitySpec; av_blueprint_id : option string;
  av_blueprint_version : option string; av_difficulty_level : option DifficultyLevel;
  av_difficulty_elo : option Q; av_estimated_minutes : option Z;
  av_cost_budget_usd : option Q; av_published_at : option Z; av_published_by : option Id }.
#[export] Instance eta_ActivityVersion : Eta ActivityVersion := fun r =>
  mkActivityVersion (av_activity_id r) (av_version r) (av_status r) (av_spec r)
     (av_blueprint_id r) (av_blueprint_version r) (av_difficulty_level r)
     (av_difficulty_elo r) (av_estimated_minutes r) (av_cost_budget_usd r)
     (av_published_at r) (av_published_by r).


Record Activity := mkActivity {
  a_tenant_id : Id; a_slug : string; a_mode : ActivityMode }.
#[export] Instance eta_Activity : Eta Activity := fun r =>
  mkActivity (a_tenant_id r) (a_slug r) (a_mode r).


Record ActivitySkill := mkActivitySkill {
  as_version_id : Id; as_skill_id : Id; as_weight : Q; as_is_primary : bool;
  as_bloom_level : option string }.
#[export] Instance eta_ActivitySkill : Eta ActivitySkill := fun r =>
  mkActivitySkill (as_version_id r) (as_skill_id r) (as_weight r) (as_is_primary r)
     (as_bloom_level r).


Record Course := mkCourse { co_tenant_id : Id; co_slug : string; co_title : string; co_status : string }.
#[export] Instance eta_Course : Eta Course := fun r =>
  mkCourse (co_tenant_id r) (co_slug r) (co_title r) (co_status r).

Record Module_ := mkModule { md_course_id : Id; md_title : string; md_position : Z; md_slug : option string }.

Record Topic := mkTopic {
  tp_module_id : option Id; tp_title : string; tp_position : Z; tp_slug : option string }.

Record Subtopic := mkSubtopic { sb_topic_id : Id; sb_title : string; sb_position : Z }.

Record TopicSkill := mkTopicSkill {
  ts_topic_id : Id; ts_skill_id : Id; ts_coverage_weight : Q; ts_bloom_level : string }.

Record ActivityTopic := mkActivityTopic { at_version_id : Id; at_topic_id : Id; at_relevance : Q }.

Record Skill := mkSkill {
  sk_slug : string; sk_name : string; sk_domain : string; sk_description : option string; sk_status : string;
  sk_domain_order : Z; sk_sequence : Z; sk_course_slug : string;
  sk_bkt_p_init : Q; sk_bkt_p_transit : Q; sk_bkt_p_slip : Q; sk_bkt_p_guess : Q;
  sk_decay_half_life_days : Z }.
#[export] Instance eta_Skill : Eta Skill := fun r =>
  mkSkill (sk_slug r) (sk_name r) (sk_domain r) (sk_description r) (sk_status r) (sk_domain_order r) (sk_sequence r)
     (sk_course_slug r) (sk_bkt_p_init r) (sk_bkt_p_transit r) (sk_bkt_p_slip r) (sk_bkt_p_guess r)
     (sk_decay_half_life_days r).


Record SkillEdge := mkSkillEdge {
  se_from : Id; se_to : Id; se_type : SkillEdgeType }.
#[export] Instance eta_SkillEdge : Eta SkillEdge := fun r =>
  mkSkillEdge (se_from r) (se_to r) (se_type r).


Record SkillClosureRow := mkSkillClosureRow {
  sc_ancestor : Id; sc_descendant : Id; sc_depth : nat; sc_edge_types : list SkillEdgeType }.
#[export] Instance eta_SkillClosureRow : Eta SkillClosureRow := fun r =>
  mkSkillClosureRow (sc_ancestor r) (sc_descendant r) (sc_depth r) (sc_edge_types r).


(** attempt.attempt; [version] starts at 1. *)
Record Attempt := mkAttempt {
  tenant_id : Id; user_id : Id; activity_id : Id; activity_version_id : Id;
  mode : ActivityMode; status : AttemptStatus; retry_of_attempt_id : option Id;
  retry_index : Z; assistance_flags : list string; environment_id : option string;
  idempotency_key : option string; created_at : Z; started_at : option Z;
  submitted_at : option Z; completed_at : option Z; expires_at : option Z;
  last_activity_at : Z; reset_count : Z; hint_penalty_total : Q; version : nat;
  snapshot_id : option string; snapshot_taken_at : option Z }.
#[export] Instance eta_Attempt : Eta Attempt := fun r =>
  mkAttempt (tenant_id r) (user_id r) (activity_id r) (activity_version_id r) (mode r)
     (status r) (retry_of_attempt_id r) (retry_index r) (assistance_flags r)
     (environment_id r) (idempotency_key r) (created_at r) (started_at r) (submitted_at r)
     (completed_at r) (expires_at r) (last_activity_at r) (reset_count r)
     (hint_penalty_total r) (version r) (snapshot_id r) (snapshot_taken_at r).


Record AttemptEventRow := mkAttemptEventRow {
  ev_attempt_id : Id; ev_seq : nat; ev_occurred_at : Z; ev_actor : EventActor;
  ev_type : AttemptEventType; ev_payload : Json }.
#[export] Instance eta_AttemptEventRow : Eta AttemptEventRow := fun r =>
  mkAttemptEventRow (ev_attempt_id r) (ev_seq r) (ev_occurred_at r) (ev_actor r) (ev_type r)
     (ev_payload r).


Inductive TaskStatus := T_PENDING | T_PASSED | T_FAILED | T_SKIPPED.
#[export] Instance task_status_eq_dec : EqDecision TaskStatus.
Proof. solve_decision. Defined.

(** attempt.attempt_task_state, keyed by (attempt_id, task_key). *)
Record TaskState := mkTaskState {
  ts_status : TaskStatus; ts_first_pass_at : option Z; ts_attempts_count : Z;
  ts_hints_used_max_level : Z; ts_skipped : bool; ts_assisted : bool }.
#[export] Instance eta_TaskState : Eta TaskState := fun r =>
  mkTaskState (ts_status r) (ts_first_pass_at r) (ts_attempts_count r)
     (ts_hints_used_max_level r) (ts_skipped r) (ts_assisted r).


Record ValidationRun := mkValidationRun {
  vr_id : Id; vr_attempt_id : Id; vr_scope : string; vr_trigger : string;
  vr_completed : bool; vr_started_at : Z }.
#[export] Instance eta_ValidationRun : Eta ValidationRun := fun r =>
  mkValidationRun (vr_id r) (vr_attempt_id r) (vr_scope r) (vr_trigger r) (vr_completed r)
     (vr_started_at r).


Record ValidatorResultRow := mkValidatorResultRow {
  vres_run_id : Id; vres_validator_id : string; vres_status : ValidatorResultStatus;
  vres_observed : option Json; vres_expected : option Json }.
#[export] Instance eta_ValidatorResultRow : Eta ValidatorResultRow := fun r =>
  mkValidatorResultRow (vres_run_id r) (vres_validator_id r) (vres_status r)
     (vres_observed r) (vres_expected r).


Record AttemptScore := mkAttemptScore {
  score_attempt_id : Id; score_profile : string; score_final : Q; score_passed : bool;
  score_criteria : list (string * Q); score_computed_at : Z }.
#[export] Instance eta_AttemptScore : Eta AttemptScore := fun r =>
  mkAttemptScore (score_attempt_id r) (score_profile r) (score_final r) (score_passed r)
     (score_criteria r) (score_computed_at r).


(** skill.skill_mastery, keyed by (user_id, skill_id). *)
Record SkillMastery := mkSkillMastery {
  sm_p_mastery : Q; sm_last_evidence_at : option Z; sm_evidence_count : Z;
  sm_elo_rating : option Q; sm_review_due_at : option Z; sm_band : option MasteryBand }.
#[export] Instance eta_SkillMastery : Eta SkillMastery := fun r =>
  mkSkillMastery (sm_p_mastery r) (sm_last_evidence_at r) (sm_evidence_count r)
     (sm_elo_rating r) (sm_review_due_at r) (sm_band r).


Record MasteryEvidence := mkMasteryEvidence {
  me_user_id : Id; me_skill_id : Id; me_attempt_id : Id; me_delta : Q; me_p_before : Q;
  me_p_after : Q; me_weight : Q }.
#[export] Instance eta_MasteryEvidence : Eta MasteryEvidence := fun r =>
  mkMasteryEvidence (me_user_id r) (me_skill_id r) (me_attempt_id r) (me_delta r)
     (me_p_before r) (me_p_after r) (me_weight r).


(** learner.learner_activity_state, keyed by (user_id, activity_id). *)
Record LearnerActivityState := mkLearnerActivityState {
  la_best_score : option Q; la_latest_score : option Q; la_status : string;
  la_attempts_count : Z; la_last_attempt_at : option Z; la_cooldown_until : option Z }.
#[export] Instance eta_LearnerActivityState : Eta LearnerActivityState := fun r =>
  mkLearnerActivityState (la_best_score r) (la_latest_score r) (la_status r)
     (la_attempts_count r) (la_last_attempt_at r) (la_cooldown_until r).


Inductive MilestoneStatus := LOCKED | OPEN | M_SUBMITTED | GATED_PASS | GATED_FAIL.
#[export] Instance mstatus_eq_dec : EqDecision MilestoneStatus.
Proof. solve_decision. Defined.

(** attempt.project_milestone_state, keyed by (attempt_id, milestone_key). *)
Record MilestoneState := mkMilestoneState {
  ms_status : MilestoneStatus; ms_ordinal : nat; ms_submitted_at : option Z;
  ms_gated_at : option Z; ms_score : option Q; ms_rubric_level : option Z;
  ms_attempt_count : nat }.
#[export] Instance eta_MilestoneState : Eta MilestoneState := fun r =>
  mkMilestoneState (ms_status r) (ms_ordinal r) (ms_submitted_at r) (ms_gated_at r)
     (ms_score r) (ms_rubric_level r) (ms_attempt_count r).


Record ProjectSubmission := mkProjectSubmission {
  sub_attempt_id : Id; sub_milestone_key : MilestoneKey; sub_repo_ref : string;
  sub_commit_sha : string; sub_attempt_number : nat; sub_outcome : option MilestoneStatus;
  sub_score : option Q; sub_submitted_at : Z }.
#[export] Instance eta_ProjectSubmission : Eta ProjectSubmission := fun r =>
  mkProjectSubmission (sub_attempt_id r) (sub_milestone_key r) (sub_repo_ref r)
     (sub_commit_sha r) (sub_attempt_number r) (sub_outcome r) (sub_score r)
     (sub_submitted_at r).


(** learner.recommendation; the interaction columns start NULL. *)
Record RecommendationRow := mkRecommendationRow {
  rec_user_id : Id; rec_activity_id : Id; rec_score : Q; rec_features : Json;
  rec_reason_code : string; rec_reason_params : Json; rec_ranker_version : string;
  rec_generated_at : Z }.

(** attempt.artifact. *)
Record Artifact := mkArtifact {
  ar_attempt_id : Id; ar_kind : string; ar_storage_uri : string; ar_checksum : option string;
  ar_content : option string; ar_created_at : Z }.
#[export] Instance eta_Artifact : Eta Artifact := fun r =>
  mkArtifact (ar_attempt_id r) (ar_kind r) (ar_storage_uri r) (ar_checksum r) (ar_content r) (ar_created_at r).

(** ** Calls to the orchestrator that the handlers make (a log in the store) *)
Record ProvisionRequest := mkProvisionRequest {
  pr_attempt_id : Id; pr_blueprint_id : string; pr_blueprint_version : string;
  pr_tier : string; pr_ttl_minutes : Z; pr_idle_timeout_minutes : Z;
  pr_fixtures : list (string * string); pr_health_gate : option (list Json) }.

Inductive RemoteCall :=
  | CallProvision (req : ProvisionRequest)
  | CallInjectFault (environment : string) (fault : FaultSpec) (attempt : Id)
  | CallDestroy (environment : string) (reason : string) (attempt : Id)
  | CallConnect (environment : string) (attempt : Id)
  | CallValidator (environment : string) (attempt : Id) (validator : string)
  | CallSuspend (environment : string) (attempt : Id)
  | CallProvisionMilestone (attempt : Id) (milestone : MilestoneKey).

(** DefenceService.state: the question queues of the vivas under way, kept in
    memory.  The map holds references to objects that handlers keep and mutate:
    [vivas] maps an attempt to an index of [queues]. *)
Inductive VivaKind := Divergence | Reasoning.
Record VivaQuestion := mkVivaQuestion { vq_text : string; vq_groundedIn : string; vq_kind : VivaKind }.
Record VivaState := mkVivaState { vv_questions : list VivaQuestion; vv_asked : nat; vv_closed : bool }.
#[export] Instance eta_VivaState : Eta VivaState := fun r =>
  mkVivaState (vv_questions r) (vv_asked r) (vv_closed r).

(** ** The store *)
Record Store := mkStore {
  now : Z; next_id : Id; activities : gmap Id Activity; versions : gmap Id ActivityVersion;
  activity_skills : list ActivitySkill; skills : gmap Id Skill;
  skill_edges : list SkillEdge; skill_closure : list SkillClosureRow;
  attempts : gmap Id Attempt; events : list AttemptEventRow;
  task_states : gmap (Id * string) TaskState; validation_runs : list ValidationRun;
  validator_results : list ValidatorResultRow; signals : gmap (Id * string) Q;
  scores : list AttemptScore; mastery : gmap (Id * Id) SkillMastery;
  evidence : list MasteryEvidence; activity_states : gmap (Id * Id) LearnerActivityState;
  milestones : gmap (Id * MilestoneKey) MilestoneState;
  submissions : list ProjectSubmission; artifacts : list Artifact; vivas : gmap Id nat; queues : list VivaState;
  calls : list RemoteCall; courses : gmap Id Course; modules : gmap Id Module_; topics : gmap Id Topic;
  subtopics : gmap Id Subtopic; topic_skills : list TopicSkill; activity_topics : list ActivityTopic;
  recommendations : list RecommendationRow }.
#[export] Instance eta_Store : Eta Store := fun r =>
  mkStore (now r) (next_id r) (activities r) (versions r) (activity_skills r) (skills r)
     (skill_edges r) (skill_closure r) (attempts r) (events r) (task_states r)
     (validation_runs r) (validator_results r) (signals r) (scores r) (mastery r)
     (evidence r) (activity_states r) (milestones r) (submissions r) (artifacts r) (vivas r)
     (queues r) (calls r) (courses r) (modules r) (topics r) (subtopics r) (topic_skills r) (activity_topics r) (recommendations r).


(** The tables before any row is inserted. *)
Definition empty_store : Store :=
  mkStore 0 1 ∅ ∅ [] ∅ [] [] ∅ [] ∅ [] [] ∅ [] ∅ [] ∅ ∅ [] [] ∅ [] [] ∅ ∅ ∅ ∅ [] [] [].

#[export] Instance Q_eq_dec : EqDecision Q.
Proof. solve_decision. Defined.

(** A SELECT without ORDER BY returns its rows in an order the server chooses;
    the same goes for ties of an ORDER BY and for the rows a LIMIT keeps. *)
Class RowOrder := {
  in_order : forall {A}, list A -> list A;
  in_order_perm : forall {A} (l : list A), in_order l ≡ₚ l
}.
Definition insertion_order : RowOrder := {| in_order _ l := l; in_order_perm _ l := reflexivity l |}.

Lemma elem_of_in_order `{RowOrder} {A} (l : list A) x : x ∈ in_order l <-> x ∈ l.
Proof. now rewrite in_order_perm. Qed.

(** [numeric(p, s)]: rounds half away from zero to [s] decimals; a value that
    needs more than [p] digits is refused. *)
Definition pow10 (n : nat) : Z := (10 ^ Z.of_nat n)%Z.
Definition numeric (p s : nat) (q : Q) : option Q :=
  let scaled := q * inject_Z (pow10 s) in
  let r := if 0 <=? scaled then Qfloor (scaled + (1 # 2)) else (- Qfloor (- scaled + (1 # 2)))%Z in
  if (Z.abs r <? pow10 p)%Z then Some (Qred (inject_Z r / inject_Z (pow10 s))) else None.

Lemma pow10_pos n : 0 < inject_Z (pow10 n).
Proof. unfold pow10. change 0 with (inject_Z 0). rewrite <- Zlt_Qlt. lia. Qed.

Lemma Qfloor_half_le x z : x <= inject_Z z -> (Qfloor (x + (1 # 2)) <= z)%Z.
Proof.
  intros L. pose proof (Qfloor_le (x + (1 # 2))) as F. set (f := Qfloor _) in *.
  assert (inject_Z f < inject_Z (z + 1)) by (rewrite inject_Z_plus; change (inject_Z 1) with 1; lra).
  rewrite <- Zlt_Qlt in *. lia.
Qed.
Lemma Qfloor_half_nonneg x : 0 <= x -> (0 <= Qfloor (x + (1 # 2)))%Z.
Proof. intros L. change 0%Z with (Qfloor 0). apply Qfloor_resp_le. lra. Qed.

(** A value between -1 and 1 fits every column with an integer digit. *)
Lemma numeric_signed p s q : (s < p)%nat -> -(1) <= q <= 1 ->
  exists v, numeric p s q = Some v /\ -(1) <= v <= 1 /\ (0 <= q -> 0 <= v).
Proof.
  intros L B. unfold numeric. pose proof (pow10_pos s) as P. set (t := inject_Z (pow10 s)) in *.
  assert (T : (pow10 s < pow10 p)%Z) by (unfold pow10; apply Z.pow_lt_mono_r; lia).
  assert (S : - t <= q * t <= t) by nra.
  set (r := if 0 <=? q * t then _ else _).
  assert (R : (- pow10 s <= r <= pow10 s)%Z /\ (0 <= q -> (0 <= r)%Z)).
  { subst r. destruct (0 <=? q * t) eqn:E; qprop.
    - pose proof (Qfloor_half_nonneg _ E). pose proof (Qfloor_half_le (q * t) (pow10 s) ltac:(fold t; lra)). lia.
    - pose proof (Qfloor_half_nonneg (- (q * t)) ltac:(lra)).
      pose proof (Qfloor_half_le (- (q * t)) (pow10 s) ltac:(fold t; lra)).
      split; [lia | intros; exfalso; nra]. }
  destruct R as [R R0]. rewrite (proj2 (Z.ltb_lt _ _)) by lia.
  eexists. split; [reflexivity |]. rewrite Qred_correct.
  assert (I : inject_Z (- pow10 s) <= inject_Z r <= inject_Z (pow10 s)) by (rewrite <- !Zle_Qle; lia).
  rewrite inject_Z_opp in I. fold t in I. split_and!.
  - apply Qle_shift_div_l; lra.
  - apply Qle_shift_div_r; lra.
  - intros Q0. specialize (R0 Q0). apply Qle_shift_div_l; [easy |]. rewrite Qmult_0_l.
    change 0 with (inject_Z 0). now rewrite <- Zle_Qle.
Qed.

Lemma numeric_proper p s q q' : q == q' -> numeric p s q = numeric p s q'.
Proof.
  intros E. unfold numeric.
  assert (B : (0 <=? q * inject_Z (pow10 s)) = (0 <=? q' * inject_Z (pow10 s))) by (now rewrite E).
  rewrite B. replace (Qfloor (q * _ + _)) with (Qfloor (q' * inject_Z (pow10 s) + (1 # 2))) by (now rewrite E).
  replace (Qfloor (- (q * _) + _)) with (Qfloor (- (q' * inject_Z (pow10 s)) + (1 # 2))) by (now rewrite E).
  reflexivity.
Qed.
