(* ===== verification/JsText.v ===== *)
(** * Texts of JavaScript values

    What the prompts are built with: [String(number)] (ECMAScript's
    Number::toString: the shortest decimal that reads back as the number),
    [Date.toISOString], [JSON.stringify], and [String.replace] with a string
    pattern, whose replacement text may refer to the match by dollar signs. *)
From Stdlib Require Import Ascii.
From stdpp Require Import pretty.
From S2P Require Import Prelude RegExp JsNum Binary64 Effects Schema.
Open Scope Z_scope.

Definition repeat_text (n : Z) (s : string) : string :=
  Nat.iter (Z.to_nat n) (String.append s) EmptyString.

(** ** Numbers *)
Section Numbers.
Context `{Rounding}.

Definition scale (e : Z) : Q := Qpower 10 e.

(** The [n] with [10 ^ (n - 1) <= x < 10 ^ n]; a double has at most 324 leading
    zeros after the point. *)
Fixpoint leading (fuel : nat) (x : Q) : Z :=
  match fuel with
  | 0%nat => 0
  | S fuel => if (x * 10 <? 1)%Q then leading fuel (x * 10)%Q - 1 else 0
  end.
Definition decimal_exponent (x : Q) : Z :=
  if (x <? 1)%Q then leading 330 x else Z.of_nat (String.length (pretty (Qfloor x))).

(** The least number of digits, from [k], that denotes [x], and the digits. *)
Fixpoint shortest (fuel : nat) (k n : Z) (x : Q) : Z * Z :=
  let s := Qfloor (x * scale (k - n) + (1 # 2)) in
  match fuel with
  | 0%nat => (k, s)
  | S fuel => if Qeq_bool (lit (inject_Z s * scale (n - k))) x then (k, s) else shortest fuel (k + 1) n x
  end.

(** The layouts of [s * 10 ^ (n - k)], where [s] has [k] digits. *)
Definition layout (k n s : Z) : string :=
  let ds := pretty s in
  let split_at (i : Z) := (slice_to (Z.to_nat i) ds ++ "." ++ String.substring (Z.to_nat i) (String.length ds) ds)%string in
  if ((k <=? n) && (n <=? 21))%Z then (ds ++ repeat_text (n - k) "0")%string
  else if ((0 <? n) && (n <=? 21))%Z then split_at n
  else if ((-6 <? n) && (n <=? 0))%Z then ("0." ++ repeat_text (- n) "0" ++ ds)%string
  else ((if (k =? 1)%Z then ds else split_at 1) ++ "e" ++ (if (n <? 1)%Z then "-" else "+") ++ pretty (Z.abs (n - 1)))%string.

(** Rounding up to the next power of ten gains a digit, as for 1e23. *)
Definition positive_text (x : Q) : string :=
  let n := decimal_exponent x in
  let '(k, s) := shortest 16 1 n x in
  if (s =? 10 ^ k)%Z then layout k (n + 1) (10 ^ (k - 1)) else layout k n s.

Definition number_text (x : Q) : string :=
  let x := Qred x in
  if Qeq_bool x 0 then "0" else if (x <? 0)%Q then ("-" ++ positive_text (- x)%Q)%string else positive_text x.
End Numbers.

(** ** Dates: milliseconds since 1970, years 0 to 9999 *)
Definition padded (width : Z) (n : Z) : string :=
  let ds := pretty n in (repeat_text (width - Z.of_nat (String.length ds)) "0" ++ ds)%string.

(** Day, month and year of a day count, in the proleptic Gregorian calendar. *)
Definition civil_from_days (days : Z) : Z * Z * Z :=
  let z := days + 719468 in
  let era := z / 146097 in
  let doe := z mod 146097 in
  let yoe := (doe - doe / 1460 + doe / 36524 - doe / 146096) / 365 in
  let doy := doe - (365 * yoe + yoe / 4 - yoe / 100) in
  let mp := (5 * doy + 2) / 153 in
  let month := if mp <? 10 then mp + 3 else mp - 9 in
  (doy - (153 * mp + 2) / 5 + 1, month, yoe + era * 400 + (if month <=? 2 then 1 else 0)).

Definition toISOString (ms : Z) : string :=
  let '(d, m, y) := civil_from_days (ms / 86400000) in
  let t := ms mod 86400000 in
  (padded 4 y ++ "-" ++ padded 2 m ++ "-" ++ padded 2 d ++ "T" ++
   padded 2 (t / 3600000) ++ ":" ++ padded 2 (t / 60000 mod 60) ++ ":" ++ padded 2 (t / 1000 mod 60) ++ "." ++
   padded 3 (t mod 1000) ++ "Z")%string.

(** ** JSON *)
Definition hex_digit (n : N) : ascii :=
  if (n <? 10)%N then ascii_of_N (48 + n) else ascii_of_N (87 + n).
Definition json_char (c : ascii) : chars :=
  let bs := "\"%char in
  match code c with
  | 34%N => [bs; c] | 92%N => [bs; c]
  | 8%N => [bs; "b"%char] | 9%N => [bs; "t"%char] | 10%N => [bs; "n"%char]
  | 12%N => [bs; "f"%char] | 13%N => [bs; "r"%char]
  | n => if (n <? 32)%N then [bs; "u"%char; "0"%char; "0"%char; hex_digit (n / 16); hex_digit (n mod 16)] else [c]
  end.
Definition json_quote (s : string) : string :=
  implode ("034"%char :: concat (json_char <$> explode s) ++ ["034"%char]).

Fixpoint stringify `{Rounding} (j : Json) : string :=
  match j with
  | JNull => "null"
  | JBool b => if b then "true" else "false"
  | JNum q => number_text q
  | JStr s => json_quote s
  | JArr l => ("[" ++ String.concat "," (map stringify l) ++ "]")%string
  | JObj fs => ("{" ++ String.concat "," (map (fun '(k, v) => (json_quote k ++ ":" ++ stringify v)%string) fs) ++ "}")%string
  end.

(** ** [s.replace(pattern, replacement)] with string arguments *)
Fixpoint strip (p s : chars) : option chars :=
  match p, s with
  | [], _ => Some s
  | a :: p, b :: s => if (a =? b)%char then strip p s else None
  | _ :: _, [] => None
  end.
(** The text before and after the first occurrence. *)
Fixpoint find_text (p s : chars) : option (chars * chars) :=
  match strip p s with
  | Some rest => Some ([], rest)
  | None => match s with
            | [] => None
            | c :: s => '(before, after) ← find_text p s; Some (c :: before, after)
            end
  end.
(** Two dollars, or a dollar with an ampersand, a backtick or a quote, stand for
    a dollar, the match, what is before it and what is after it. *)
Fixpoint substitution (before matched after t : chars) : chars :=
  match t with
  | "$"%char :: "$"%char :: t => "$"%char :: substitution before matched after t
  | "$"%char :: "&"%char :: t => matched ++ substitution before matched after t
  | "$"%char :: "`"%char :: t => before ++ substitution before matched after t
  | "$"%char :: "'"%char :: t => after ++ substitution before matched after t
  | c :: t => c :: substitution before matched after t
  | [] => []
  end.
Definition replace_text (pattern replacement s : string) : string :=
  match find_text (explode pattern) (explode s) with
  | Some (before, after) =>
      implode (before ++ substitution before (explode pattern) after (explode replacement) ++ after)
  | None => s
  end.

(** [cfg.x || fallback]: the empty string is falsy. *)
Definition truthy (s : option string) : option string :=
  match s with Some EmptyString | None => None | Some t => Some t end.

(** Lines and double quotes of a template. *)
Definition newline : string := String "010"%char EmptyString.
Definition join_lines : list string -> string := String.concat newline.
Definition dquoted (s : string) : string := (String "034" s ++ String "034" EmptyString)%string.

(** [s || fallback] and the case mappings, on ASCII letters. *)
Definition or_text (s fallback : string) : string := match s with EmptyString => fallback | _ => s end.
Definition to_lower (s : string) : string := implode (lower <$> explode s).

(** [String(v)]: an array's texts are joined, its nulls written as nothing. *)
Fixpoint js_string `{Rounding} (j : Json) : string :=
  match j with
  | JNull => "null"
  | JBool b => if b then "true" else "false"
  | JNum q => number_text q
  | JStr s => s
  | JArr l => String.concat "," (map (fun x => match x with JNull => EmptyString | _ => js_string x end) l)
  | JObj _ => "[object Object]"
  end.

(** [s.includes(t)]. *)
Definition includes (t s : string) : bool := bool_decide (is_Some (find_text (explode t) (explode s))).

(** Sample values. *)
Section Samples.
#[local] Existing Instance binary64.
Example number_texts :
  map number_text [0; 1 # 2; lit (1 # 10); lit (3 # 10); lit (1 # 10) +! lit (2 # 10); 1200; 10 ^ 21; lit (15 # 10 ^ 8); -7 # 4; lit (10 ^ 23)]%Q
  = ["0"; "0.5"; "0.1"; "0.3"; "0.30000000000000004"; "1200"; "1e+21"; "1.5e-7"; "-1.75"; "1e+23"]%string.
Proof. vm_compute. reflexivity. Qed.
Example iso_texts :
  map toISOString [0; 951782400000; 1767225599999]
  = ["1970-01-01T00:00:00.000Z"; "2000-02-29T00:00:00.000Z"; "2025-12-31T23:59:59.999Z"]%string.
Proof. vm_compute. reflexivity. Qed.
End Samples.

(** ** Splitting *)

(** [s.split(c)] with a one-character separator. *)
Fixpoint split_on (c : ascii) (s : string) : list string :=
  match s with
  | EmptyString => [EmptyString]
  | String a s =>
      if (a =? c)%char then EmptyString :: split_on c s
      else match split_on c s with w :: l => String a w :: l | [] => [String a EmptyString] end
  end.
Definition free_of (c : ascii) (s : string) : Prop := ~ In c (explode s).

Lemma split_on_nonempty c s : split_on c s <> [].
Proof. destruct s as [|a s]; cbn; [easy|]. destruct (a =? c)%char; [easy|]. now destruct (split_on c s). Qed.
Lemma split_on_free c s : Forall (free_of c) (split_on c s).
Proof.
  induction s as [|a s IH]; cbn; [constructor; [now intros [] | constructor]|].
  destruct (a =? c)%char eqn:E; [constructor; [now intros [] | exact IH]|].
  apply Ascii.eqb_neq in E. destruct (split_on c s) as [|w l]; inversion_clear IH; constructor; auto;
    intros [->|I]; cbn in *; try easy; contradiction.
Qed.
(** A separator-free word is one piece, and the separator ends it. *)
Lemma split_on_app c w s : free_of c w ->
  split_on c (w ++ String c s) = w :: split_on c s /\ split_on c w = [w].
Proof.
  intros F. split; revert F.
  - induction w as [|a w IH]; intros F.
    + change ("" ++ String c s)%string with (String c s). cbn. now rewrite Ascii.eqb_refl.
    + change (String a w ++ String c s)%string with (String a (w ++ String c s)). cbn [split_on].
      destruct (Ascii.eqb_spec a c) as [->|N]; [exfalso; apply F; now left|].
      now rewrite IH by (intros I; apply F; now right).
  - induction w as [|a w IH]; intros F; cbn [split_on]; [easy|].
    destruct (Ascii.eqb_spec a c) as [->|N]; [exfalso; apply F; now left|].
    now rewrite IH by (intros I; apply F; now right).
Qed.
Lemma split_on_concat c l : l <> [] -> Forall (free_of c) l -> split_on c (String.concat (String c EmptyString) l) = l.
Proof.
  induction l as [|w l IH]; [easy|]. intros _ F. inversion_clear F as [|? ? Fw Fl].
  destruct l as [|v l]; [now apply (split_on_app c w EmptyString)|].
  change (String.concat _ (w :: v :: l)) with (w ++ String c (String.concat (String c EmptyString) (v :: l)))%string.
  rewrite (proj1 (split_on_app c w _ Fw)). f_equal. now apply IH.
Qed.
