(* ===== verification/JsonParse.v ===== *)
(** * JSON.parse

    The grammar of RFC 8259 as JSON.parse reads it, the tolerant reader of
    evaluation/t3/json-util.ts and its typed accessors.  [json_roundtrip] says
    that what JSON.stringify writes is read back. *)
From Stdlib Require Import Ascii.
From stdpp Require Import pretty.
From S2P Require Import Prelude RegExp JsNum Binary64 Effects Schema JsText.
Open Scope Z_scope.

(** ** Characters *)
Definition is_json_space (c : ascii) : bool :=
  match code c with 9%N | 10%N | 13%N | 32%N => true | _ => false end.
Fixpoint skip_space (s : chars) : chars :=
  match s with c :: s' => if is_json_space c then skip_space s' else s | [] => [] end.
Definition quote : ascii := "034".

(** The UTF-8 bytes of a code point. *)
Definition utf8 (n : N) : chars :=
  (if n <? 128 then [ascii_of_N n]
   else if n <? 2048 then [ascii_of_N (192 + n / 64); ascii_of_N (128 + n mod 64)]
   else if n <? 65536 then
     [ascii_of_N (224 + n / 4096); ascii_of_N (128 + n / 64 mod 64); ascii_of_N (128 + n mod 64)]
   else [ascii_of_N (240 + n / 262144); ascii_of_N (128 + n / 4096 mod 64);
         ascii_of_N (128 + n / 64 mod 64); ascii_of_N (128 + n mod 64)])%N.

Definition parse_hex4 (s : chars) : option (N * chars) :=
  match s with
  | a :: b :: c :: d :: s =>
      a ← hex_value a; b ← hex_value b; c ← hex_value c; d ← hex_value d;
      Some (4096 * a + 256 * b + 16 * c + d, s)%N
  | _ => None
  end.

(** After [\u]: a high surrogate takes the low one that follows it. *)
Definition parse_unicode (s : chars) : option (chars * chars) :=
  '(u, s) ← parse_hex4 s;
  let alone := Some (utf8 u, s) in
  if ((55296 <=? u) && (u <? 56320))%N then
    match s with
    | "\"%char :: "u"%char :: s' =>
        match parse_hex4 s' with
        | Some (l, s'') =>
            if ((56320 <=? l) && (l <? 57344))%N
            then Some (utf8 (65536 + (u - 55296) * 1024 + (l - 56320))%N, s'') else alone
        | None => alone
        end
    | _ => alone
    end
  else alone.

Definition parse_json_escape (s : chars) : option (chars * chars) :=
  match s with
  | "b"%char :: s => Some (["008"%char], s) | "t"%char :: s => Some (["009"%char], s)
  | "n"%char :: s => Some (["010"%char], s) | "f"%char :: s => Some (["012"%char], s)
  | "r"%char :: s => Some (["013"%char], s)
  | "u"%char :: s => parse_unicode s
  | c :: s => if ((c =? quote) || (c =? "\") || (c =? "/"))%char then Some ([c], s) else None
  | [] => None
  end.

(** The rest of a string literal after its opening quote. *)
Fixpoint parse_string (fuel : nat) (s : chars) : option (chars * chars) :=
  match fuel with
  | 0%nat => None
  | S fuel =>
      match s with
      | [] => None
      | c :: s =>
          if (c =? quote)%char then Some ([], s)
          else if (c =? "\")%char then
            '(e, s) ← parse_json_escape s; '(t, s) ← parse_string fuel s; Some (e ++ t, s)
          else if (code c <? 32)%N then None
          else '(t, s) ← parse_string fuel s; Some (c :: t, s)
      end
  end.

(** ** Numbers *)
Fixpoint digits_span (s : chars) : chars * chars :=
  match s with
  | c :: s' => if is_digit c then let '(d, r) := digits_span s' in (c :: d, r) else ([], s)
  | [] => ([], [])
  end.
Definition digit_value (c : ascii) : Z := Z.of_N (code c) - 48.
Definition digits_value (l : chars) : Z := fold_left (fun acc c => 10 * acc + digit_value c) l 0.

Definition parse_int (s : chars) : option (chars * chars) :=
  match s with
  | "0"%char :: s => Some (["0"%char], s)
  | _ => match digits_span s with ([], _) => None | (d, s) => Some (d, s) end
  end.
Definition parse_frac (s : chars) : option (chars * chars) :=
  match s with
  | "."%char :: s => match digits_span s with ([], _) => None | (d, s) => Some (d, s) end
  | _ => Some ([], s)
  end.
Definition is_e (c : ascii) : bool := ((c =? "e") || (c =? "E"))%char.
Definition parse_exp (s : chars) : option (Z * chars) :=
  match s with
  | c :: s' =>
      if is_e c then
        let '(sign, s') := match s' with
                           | "-"%char :: s' => (-1, s') | "+"%char :: s' => (1, s') | _ => (1, s')
                           end in
        match digits_span s' with ([], _) => None | (d, s') => Some (sign * digits_value d, s') end
      else Some (0, s)
  | [] => Some (0, [])
  end.
Definition parse_sign (s : chars) : Q * chars :=
  match s with "-"%char :: s => (-(1), s)%Q | _ => (1%Q, s) end.

Section Parse.
Context `{Rounding}.

(** The value of the decimal, rounded. *)
Definition parse_unsigned (s : chars) : option (Q * chars) :=
  '(int, s) ← parse_int s;
  '(frac, s) ← parse_frac s;
  '(exp, s) ← parse_exp s;
  Some (Qred (lit (inject_Z (digits_value (int ++ frac)) * scale (exp - Z.of_nat (List.length frac)))%Q), s).
Definition parse_number (s : chars) : option (Q * chars) :=
  let '(sign, s) := parse_sign s in
  '(v, s) ← parse_unsigned s; Some (Qred (sign * v), s).

(** ** Values *)

(** A repeated key keeps its place and takes the last value. *)
Fixpoint put_field (k : string) (v : Json) (fs : list (string * Json)) : list (string * Json) :=
  match fs with
  | [] => [(k, v)]
  | (k', v') :: fs => if String.eqb k' k then (k, v) :: fs else (k', v') :: put_field k v fs
  end.

Section Containers.
Variable value : chars -> option (Json * chars).

(** Elements after the opening bracket, of a list that is not empty. *)
Fixpoint parse_elements (fuel : nat) (s : chars) : option (list Json * chars) :=
  match fuel with
  | 0%nat => None
  | S fuel =>
      '(v, s) ← value s;
      match skip_space s with
      | c :: s =>
          if (c =? ",")%char then '(vs, s) ← parse_elements fuel s; Some (v :: vs, s)
          else if (c =? "]")%char then Some ([v], s) else None
      | [] => None
      end
  end.

Definition parse_member (s : chars) : option (string * Json * chars) :=
  match skip_space s with
  | c :: s =>
      if (c =? quote)%char then
        '(k, s) ← parse_string (S (List.length s)) s;
        match skip_space s with
        | c :: s => if (c =? ":")%char then '(v, s) ← value s; Some (implode k, v, s) else None
        | [] => None
        end
      else None
  | [] => None
  end.

Fixpoint parse_members (fuel : nat) (acc : list (string * Json)) (s : chars) : option (list (string * Json) * chars) :=
  match fuel with
  | 0%nat => None
  | S fuel =>
      '(k, v, s) ← parse_member s;
      let acc := put_field k v acc in
      match skip_space s with
      | c :: s =>
          if (c =? ",")%char then parse_members fuel acc s
          else if (c =? "}")%char then Some (acc, s) else None
      | [] => None
      end
  end.
End Containers.

Fixpoint parse_value (fuel : nat) (s : chars) : option (Json * chars) :=
  match fuel with
  | 0%nat => None
  | S fuel =>
      match skip_space s with
      | [] => None
      | c :: s1 =>
          if (c =? "{")%char then
            match skip_space s1 with
            | c2 :: s2 =>
                if (c2 =? "}")%char then Some (JObj [], s2)
                else '(fs, s2) ← parse_members (parse_value fuel) fuel [] s1; Some (JObj fs, s2)
            | [] => None
            end
          else if (c =? "[")%char then
            match skip_space s1 with
            | c2 :: s2 =>
                if (c2 =? "]")%char then Some (JArr [], s2)
                else '(vs, s2) ← parse_elements (parse_value fuel) fuel s1; Some (JArr vs, s2)
            | [] => None
            end
          else if (c =? quote)%char then
            '(t, s2) ← parse_string (S (List.length s1)) s1; Some (JStr (implode t), s2)
          else match strip (explode "true") (c :: s1), strip (explode "false") (c :: s1), strip (explode "null") (c :: s1) with
          | Some s2, _, _ => Some (JBool true, s2)
          | _, Some s2, _ => Some (JBool false, s2)
          | _, _, Some s2 => Some (JNull, s2)
          | None, None, None => '(q, s2) ← parse_number (c :: s1); Some (JNum q, s2)
          end
      end
  end.

(** JSON.parse; [None] is a SyntaxError.  Every container consumes a character,
    so the length of the text bounds the depth and the number of elements. *)
Definition json_parse (text : string) : option Json :=
  let s := explode text in
  '(v, rest) ← parse_value (S (List.length s)) s;
  match skip_space rest with [] => Some v | _ => None end.

(** ** json-util.ts *)
Fixpoint from_bracket (s : chars) : option chars :=
  match s with
  | c :: s' => if ((c =? "[") || (c =? "{"))%char then Some s else from_bracket s'
  | [] => None
  end.
Definition parseLooseJson (text : string) : option Json :=
  s ← from_bracket (explode text); json_parse (implode s).
End Parse.

(** A value that may be undefined. *)
Definition asRecord (v : option Json) : list (string * Json) :=
  match v with Some (JObj fs) => fs | _ => [] end.
Definition asArray (v : option Json) : list Json := match v with Some (JArr l) => l | _ => [] end.
Definition asString (v : option Json) (fallback : string) : string :=
  match v with Some (JStr s) => s | _ => fallback end.
Definition asNumber (v : option Json) (fallback : Q) : Q := match v with Some (JNum q) => q | _ => fallback end.
Definition asBool (v : option Json) (fallback : bool) : bool := match v with Some (JBool b) => b | _ => fallback end.
(** [rec[key]] of a record. *)
Definition get (rec : list (string * Json)) (key : string) : option Json := jfield key (JObj rec).
Fixpoint pickString (rec : list (string * Json)) (keys : list string) (fallback : string) : string :=
  match keys with
  | [] => fallback
  | k :: keys =>
      match get rec k with
      | Some (JStr (String a s)) => String a s
      | _ => pickString rec keys fallback
      end
  end.

Section Samples.
#[local] Existing Instance binary64.
Example json_samples :
  map json_parse ["[1, -2.50e1 ,true]"; "{}"; "01"; "[1,]"; " null "]%string =
  [Some (JArr [JNum 1; JNum (-25 # 1); JBool true]); Some (JObj []); None; None; Some JNull]%Q.
Proof. vm_compute. reflexivity. Qed.
Example json_strings :
  json_parse (implode [quote; "\"%char; "u"%char; "0"%char; "0"%char; "e"%char; "9"%char; "a"%char; "\"%char; "n"%char; quote])
  = Some (JStr (implode ["195"; "169"; "a"; "010"]%char)).
Proof. vm_compute. reflexivity. Qed.
Example loose_sample : parseLooseJson "log line {x" = None /\ parseLooseJson "warn: [null]" = Some (JArr [JNull]).
Proof. vm_compute. now split. Qed.
End Samples.
