(* ===== verification/JsonLaws.v ===== *)
(** * What JSON.stringify writes, JSON.parse reads

    First the digits of a printed number, then the four formats of
    Number::toString, then whole documents. *)
From Stdlib Require Import Ascii Qpower.
From stdpp Require Import pretty.
From S2P Require Import Prelude RegExp JsNum Binary64 Effects Schema JsText JsonParse.
Open Scope Z_scope.

Lemma explode_implode l : explode (implode l) = l.
Proof. apply String.list_ascii_of_string_of_list_ascii. Qed.
Lemma implode_explode s : implode (explode s) = s.
Proof. apply String.string_of_list_ascii_of_string. Qed.
Lemma explode_length s : List.length (explode s) = String.length s.
Proof. induction s; cbn; auto. Qed.
Lemma string_length_app s t : String.length (s +:+ t) = (String.length s + String.length t)%nat.
Proof. now rewrite <- !explode_length, explode_app, length_app. Qed.

(** ** Digit strings *)
Lemma pow10_S n : pow10 (S n) = 10 * pow10 n.
Proof. unfold pow10. now rewrite Nat2Z.inj_succ, Z.pow_succ_r by lia. Qed.
Lemma pow10_0 : pow10 0 = 1.
Proof. reflexivity. Qed.

Lemma digits_value_from l acc : fold_left (fun acc c => 10 * acc + digit_value c) l acc =
  acc * pow10 (List.length l) + digits_value l.
Proof.
  unfold digits_value. revert acc. induction l as [|c l IH]; intros acc; [change (pow10 _) with 1; cbn; lia |].
  cbn [fold_left List.length]. rewrite IH, (IH (10 * 0 + _)), pow10_S. ring.
Qed.
Lemma digits_value_app a b : digits_value (a ++ b) = digits_value a * pow10 (List.length b) + digits_value b.
Proof. unfold digits_value at 1. rewrite fold_left_app. apply digits_value_from. Qed.

Lemma digit_range c : is_digit c = true -> 0 <= digit_value c < 10.
Proof.
  unfold is_digit, between, digit_value. rewrite andb_true_iff, !N.leb_le.
  change (code "0") with 48%N. change (code "9") with 57%N. lia.
Qed.
Lemma digits_bound l : Forall is_digit l -> 0 <= digits_value l < pow10 (List.length l).
Proof.
  induction l as [|c l IH] using rev_ind; [change (pow10 _) with 1; cbn; lia |]. rewrite Forall_app, Forall_singleton. intros [F D].
  rewrite digits_value_app, length_app. specialize (IH F). apply Is_true_true, digit_range in D.
  cbn [List.length]. rewrite Nat.add_1_r, !pow10_S, pow10_0. change (digits_value [c]) with (digit_value c). lia.
Qed.

(** [d] is the decimal notation of [z]: no leading zero. *)
Definition decimal (z : Z) (d : chars) : Prop :=
  Forall is_digit d /\ digits_value d = z /\ pow10 (List.length d - 1) <= z < pow10 (List.length d).

Lemma pretty_digit x : (x < 10)%N -> is_digit (pretty_N_char x) = true /\ digit_value (pretty_N_char x) = Z.of_N x.
Proof.
  intros L. assert (x = 0 \/ x = 1 \/ x = 2 \/ x = 3 \/ x = 4 \/ x = 5 \/ x = 6 \/ x = 7 \/ x = 8 \/ x = 9)%N as C by lia.
  repeat destruct C as [-> |C]; try (now split). now subst x.
Qed.
Lemma pretty_N_go_digits x : (0 < x)%N -> exists d, decimal (Z.of_N x) d /\
  forall s, explode (pretty_N_go x s) = d ++ explode s.
Proof.
  induction (N.lt_wf_0 x) as [x _ IH]. intros P. destruct (pretty_digit (x mod 10)) as [D V]; [now apply N.mod_lt |].
  pose proof (N.div_mod x 10 ltac:(easy)) as E. pose proof (N.mod_lt x 10 ltac:(easy)) as M.
  destruct (N.eq_0_gt_0_cases (x / 10)) as [Z|G].
  - exists [pretty_N_char (x mod 10)]. split.
    + split; [repeat constructor; now apply Is_true_true |]. change (digits_value [?c]) with (digit_value c). rewrite V.
      change (pow10 (List.length [_])) with 10. change (pow10 _) with 1. lia.
    + intros s. rewrite pretty_N_go_step, Z by easy. reflexivity.
  - destruct (IH (x / 10)%N) as (d & (F & Vd & B) & T); [now apply N.div_lt | easy |].
    exists (d ++ [pretty_N_char (x mod 10)]). split.
    + split; [apply Forall_app; split; [easy | repeat constructor; now apply Is_true_true] |].
      rewrite digits_value_app, length_app, Vd. change (digits_value [?c]) with (digit_value c). rewrite V.
      cbn [List.length]. destruct d as [|c d]; [cbn in B; lia |]. cbn [List.length] in *.
      rewrite Nat.sub_succ, Nat.sub_0_r in B. rewrite Nat.add_1_r, Nat.sub_succ, Nat.sub_0_r.
      rewrite !pow10_S, pow10_0 in *. clear -E M B. set (q := (x / 10)%N) in *. set (r := (x mod 10)%N) in *. clearbody q r. lia.
    + intros s. rewrite pretty_N_go_step, T by easy. cbn. now rewrite <- app_assoc.
Qed.
Lemma pretty_decimal z : 0 < z -> decimal z (explode (pretty z)).
Proof.
  intros P. destruct z as [|p|p]; [easy | | easy]. destruct (pretty_N_go_digits (Npos p)) as (d & D & T); [easy |].
  change (decimal (Z.of_N (Npos p)) (explode (pretty_N_go (Npos p) ""))). rewrite T, app_nil_r. exact D.
Qed.
Lemma decimal_cons z d : decimal z d -> 0 < z -> exists c d', d = c :: d' /\ is_digit c = true /\ c <> "0"%char.
Proof.
  intros (F & V & B) P. destruct d as [|c d]; [cbn in B; lia |]. exists c, d. inversion F as [|? ? D F']; subst.
  split_and!; [easy | now apply Is_true_true |]. intros ->. pose proof (digits_bound d F') as [_ U].
  cbn [List.length] in B. rewrite Nat.sub_succ, Nat.sub_0_r in B. change (digits_value ("0"%char :: d)) with (digits_value d) in B. lia.
Qed.
Lemma decimal_length z d k : decimal z d -> 10 ^ (k - 1) <= z < 10 ^ k -> Z.of_nat (List.length d) = k.
Proof.
  intros (_ & _ & L & U) [Lk Uk]. unfold pow10 in *.
  assert (K : 0 < k). { destruct (Z_le_gt_dec k 0); [|lia]. rewrite (Z.pow_neg_r 10 (k - 1)) in Lk by lia.
    destruct (Z.eq_dec k 0) as [->|]; [cbn in Uk |rewrite Z.pow_neg_r in Uk by lia]; 
    assert (0 < 10 ^ Z.of_nat (List.length d - 1)) by (apply Z.pow_pos_nonneg; lia); lia. }
  destruct (Z.lt_trichotomy (Z.of_nat (List.length d)) k) as [G|[G|G]]; [|exact G |].
  - assert (10 ^ Z.of_nat (List.length d) <= 10 ^ (k - 1)) by (apply Z.pow_le_mono_r; lia). lia.
  - assert (10 ^ k <= 10 ^ Z.of_nat (List.length d - 1)) by (apply Z.pow_le_mono_r; lia). lia.
Qed.

(** ** Powers of ten *)
Lemma scale_pos e : (0 < scale e)%Q.
Proof. apply Qpower_0_lt. easy. Qed.
Lemma scale_add a b : (scale (a + b) == scale a * scale b)%Q.
Proof. apply Qpower_plus. easy. Qed.
Lemma scale_int e : 0 <= e -> (scale e == inject_Z (10 ^ e))%Q.
Proof. intros. unfold scale. now rewrite Zpower_Qpower. Qed.
Lemma scale_pow10 n : (scale (Z.of_nat n) == inject_Z (pow10 n))%Q.
Proof. apply scale_int. lia. Qed.
Lemma scale_succ e : (scale (e + 1) == 10 * scale e)%Q.
Proof. rewrite scale_add. change (scale 1) with 10%Q. ring. Qed.

Lemma leading_spec fuel x : (scale (- Z.of_nat fuel) <= x < 1)%Q ->
  (scale (leading fuel x - 1) <= x < scale (leading fuel x))%Q.
Proof.
  revert x. induction fuel as [|fuel IH]; intros x [L U].
  - change (scale (- Z.of_nat 0)) with 1%Q in L. lra.
  - cbn [leading]. destruct (x * 10 <? 1)%Q eqn:E; qprop.
    + assert (B : (scale (- Z.of_nat fuel) <= x * 10)%Q).
      { replace (- Z.of_nat fuel) with (- Z.of_nat (S fuel) + 1) by lia. rewrite scale_succ. lra. }
      destruct (IH _ (conj B E)) as [L' U']. set (n := leading fuel (x * 10)) in *.
      pose proof (scale_succ (n - 1)) as S1. pose proof (scale_succ (n - 1 - 1)) as S2. rewrite Z.sub_add in S1, S2. lra.
    + change (scale (0 - 1)) with (1 # 10)%Q. change (scale 0) with 1%Q. lra.
Qed.
Lemma decimal_exponent_spec x : (scale (-330) <= x)%Q ->
  (scale (decimal_exponent x - 1) <= x < scale (decimal_exponent x))%Q.
Proof.
  intros L. unfold decimal_exponent. destruct (x <? 1)%Q eqn:E; qprop.
  - apply leading_spec. now split.
  - assert (F : 1 <= Qfloor x) by (change 1 with (Qfloor 1); now apply Qfloor_resp_le).
    destruct (pretty_decimal (Qfloor x) ltac:(lia)) as (_ & _ & B). rewrite explode_length in B.
    set (n := String.length _) in *. destruct n as [|n]; [change (pow10 0) with 1 in B; lia |].
    rewrite Nat.sub_succ, Nat.sub_0_r in B. replace (Z.of_nat (S n) - 1) with (Z.of_nat n) by lia.
    rewrite !scale_pow10. pose proof (Qfloor_le x) as Fl. pose proof (Qlt_floor x) as Fu. split.
    + apply Qle_trans with (inject_Z (Qfloor x)); [|easy]. rewrite <- Zle_Qle. lia.
    + apply Qlt_le_trans with (inject_Z (Qfloor x + 1)); [easy |]. rewrite <- Zle_Qle. lia.
Qed.

Section NumberText.
Context `{Rounding}.

Definition digits_at (k n : Z) (x : Q) : Z := Qfloor (x * scale (k - n) + (1 # 2)).
Lemma shortest_spec fuel k n x : 1 <= k -> let r := shortest fuel k n x in 1 <= r.1 /\ r.2 = digits_at r.1 n x.
Proof.
  revert k. induction fuel as [|fuel IH]; intros k K; cbn; [easy |].
  destruct (Qeq_bool _ _); [easy | apply IH; lia].
Qed.
Lemma digits_at_bounds k n x : (scale (n - 1) <= x < scale n)%Q -> 1 <= k -> 10 ^ (k - 1) <= digits_at k n x <= 10 ^ k.
Proof.
  intros [L U] K. unfold digits_at. pose proof (scale_pos (k - n)) as P.
  assert (A : (scale (k - 1) <= x * scale (k - n) < scale k)%Q).
  { replace (k - 1) with (n - 1 + (k - n)) by lia. replace (scale k) with (scale (n + (k - n))) by (f_equal; lia).
    rewrite !scale_add. nra. }
  rewrite (scale_int (k - 1)), (scale_int k) in A by lia. set (t := (x * scale (k - n))%Q) in *.
  pose proof (Qfloor_le (t + (1 # 2))) as Fl. pose proof (Qlt_floor (t + (1 # 2))) as Fu. set (f := Qfloor _) in *.
  assert (inject_Z (10 ^ (k - 1)) < inject_Z (f + 1))%Q by lra.
  assert (inject_Z f < inject_Z (10 ^ k + 1))%Q by (rewrite inject_Z_plus; change (inject_Z 1) with 1%Q; lra).
  rewrite <- Zlt_Qlt in *. lia.
Qed.

(** The search of [shortest] ended in a decimal that reads back as [x], not
    for want of digits. *)
Definition reads_back (x : Q) : bool :=
  let n := decimal_exponent x in
  let '(k, s) := shortest 16 1 n x in
  Qeq_bool (lit (inject_Z s * scale (n - k))) x.

Lemma positive_text_layout x : (scale (-330) <= x)%Q -> reads_back x = true -> exists k n s,
  positive_text x = layout k n s /\ 1 <= k /\ 10 ^ (k - 1) <= s < 10 ^ k /\ (lit (inject_Z s * scale (n - k)) == x)%Q.
Proof.
  intros L R. pose proof (decimal_exponent_spec x L) as B. unfold positive_text, reads_back in *.
  set (n := decimal_exponent x) in *. destruct (shortest_spec 16 1 n x ltac:(lia)) as [K S].
  destruct (shortest 16 1 n x) as [k s]. cbn [fst snd] in *. apply Qeq_bool_iff in R.
  pose proof (digits_at_bounds k n x B K) as D. rewrite <- S in D. destruct (Z.eqb_spec s (10 ^ k)) as [->|N].
  - assert (E : 10 ^ k = 10 * 10 ^ (k - 1)) by (rewrite <- Z.pow_succ_r by lia; f_equal; lia).
    pose proof (Z.pow_pos_nonneg 10 (k - 1) ltac:(lia) ltac:(lia)) as P.
    exists k, (n + 1), (10 ^ (k - 1)). split; [easy |]. split; [easy |]. split; [lia |].
    rewrite <- R. apply rnd_proper. replace (n + 1 - k) with (n - k + 1) by lia.
    rewrite scale_succ, E, inject_Z_mult. change (inject_Z 10) with 10%Q. ring.
  - exists k, n, s. split_and!; [easy .. | lia | easy].
Qed.


(** *** Reading the layouts *)
Definition stops (rest : chars) : Prop :=
  match rest with [] => True | c :: _ => is_digit c = false /\ c <> "."%char /\ is_e c = false end.

Lemma digits_span_app d rest : Forall is_digit d -> (forall c r, rest = c :: r -> is_digit c = false) ->
  digits_span (d ++ rest) = (d, rest).
Proof.
  intros F N. induction F as [|c d D _ IH]; cbn [digits_span app].
  - destruct rest as [|c r]; [easy |]. cbn [digits_span]. now rewrite (N c r eq_refl).
  - apply Is_true_true in D. now rewrite D, IH.
Qed.
Lemma stops_digit rest c r : stops rest -> rest = c :: r -> is_digit c = false.
Proof. intros S ->. apply S. Qed.
Lemma parse_sign_digit c s : is_digit c = true -> parse_sign (c :: s) = (1%Q, c :: s).
Proof. destruct c as [[] [] [] [] [] [] [] []]; easy. Qed.
Lemma parse_int_nonzero c s : c <> "0"%char ->
  parse_int (c :: s) = match digits_span (c :: s) with ([], _) => None | (d, s) => Some (d, s) end.
Proof. intros N. destruct c as [[] [] [] [] [] [] [] []]; try reflexivity. now destruct N. Qed.
Lemma parse_frac_stop rest : (forall c r, rest = c :: r -> c <> "."%char) -> parse_frac rest = Some ([], rest).
Proof.
  intros N. destruct rest as [|c r]; [easy |]. specialize (N c r eq_refl).
  destruct c as [[] [] [] [] [] [] [] []]; try reflexivity. now destruct N.
Qed.
Lemma parse_exp_stop rest : stops rest -> parse_exp rest = Some (0, rest).
Proof. destruct rest as [|c r]; [easy |]. intros (_ & _ & E). cbn [parse_exp]. now rewrite E. Qed.

Lemma Qred_lit a b : (a == b)%Q -> Qred (lit a) = Qred (lit b).
Proof. intros E. apply Qred_complete. unfold lit. now rewrite E. Qed.

(** An unsigned number, by its parts. *)
Lemma parse_decimal int frac e q rest rest' rest'' :
  Forall is_digit int -> (exists c d, int = c :: d /\ c <> "0"%char) ->
  (forall x r, rest = x :: r -> is_digit x = false) ->
  parse_frac rest = Some (frac, rest') -> parse_exp rest' = Some (e, rest'') ->
  (inject_Z (digits_value (int ++ frac)) * scale (e - Z.of_nat (List.length frac)) == q)%Q ->
  parse_unsigned (int ++ rest) = Some (Qred (lit q), rest'').
Proof.
  intros F (c & d & -> & N) Nd Pf Pe E. unfold parse_unsigned. 
  change ((c :: d) ++ rest) with (c :: (d ++ rest)). rewrite parse_int_nonzero by easy.
  change (c :: (d ++ rest)) with ((c :: d) ++ rest). rewrite digits_span_app by easy. cbn [mbind option_bind].
  rewrite Pf. cbn [mbind option_bind]. rewrite Pe. cbn [mbind option_bind]. now rewrite (Qred_lit _ _ E).
Qed.

Lemma explode_zeros m : explode (repeat_text m "0") = List.repeat "0"%char (Z.to_nat m).
Proof.
  unfold repeat_text. induction (Z.to_nat m) as [|j IH]; [easy |].
  change (Nat.iter (S j) ?f ?x) with (f (Nat.iter j f x)). rewrite explode_app, IH. reflexivity.
Qed.
Lemma zeros_value j : digits_value (List.repeat "0"%char j) = 0 /\ Forall is_digit (List.repeat "0"%char j).
Proof. induction j as [|j [IH F]]; [easy |]. split; [exact IH | now constructor]. Qed.
Lemma explode_substring i m s : explode (String.substring i m s) = take m (drop i (explode s)).
Proof.
  revert i m. induction s as [|c s IH]; intros i m; destruct i, m; cbn; rewrite ?IH, ?drop_0; easy.
Qed.


(** The exponent after the digits. *)
Lemma parse_exponent m rest : stops rest ->
  parse_exp ("e"%char :: (if m <? 0 then "-"%char else "+"%char) :: explode (pretty (Z.abs m)) ++ rest) = Some (m, rest).
Proof.
  intros St. cbn [parse_exp is_e]. change (("e" =? "e")%char || ("e" =? "E")%char) with true. cbn iota.
  assert (D : exists c d, explode (pretty (Z.abs m)) = c :: d /\ Forall is_digit (c :: d) /\ digits_value (c :: d) = Z.abs m).
  { destruct (Z.eq_dec m 0) as [->|Nz]; [exists "0"%char, []; split_and!; [easy | now constructor | easy] |].
    pose proof (pretty_decimal (Z.abs m) ltac:(lia)) as D. destruct (decimal_cons _ _ D ltac:(lia)) as (c & d & E & _).
    exists c, d. rewrite <- E. split_and!; [easy | apply D ..]. }
  destruct D as (c & d & E & F & V). rewrite E.
  assert (Sp : digits_span ((c :: d) ++ rest) = (c :: d, rest)) by (apply digits_span_app; [easy | intros ? ?; now apply stops_digit]).
  destruct (Z.ltb_spec m 0); cbn iota; rewrite Sp, V; f_equal; f_equal; lia.
Qed.

Lemma parse_layout k n s rest : 1 <= k -> 10 ^ (k - 1) <= s < 10 ^ k -> stops rest ->
  parse_unsigned (explode (layout k n s) ++ rest) = Some (Qred (lit (inject_Z s * scale (n - k))), rest).
Proof.
  intros K B St. assert (P : 0 < s) by (pose proof (Z.pow_pos_nonneg 10 (k - 1)); lia).
  pose proof (pretty_decimal s P) as D. pose proof (decimal_length s _ k D B) as Ln.
  pose proof (decimal_cons s _ D P) as C. destruct D as (F & V & _).
  unfold layout. set (ds := pretty s) in *. set (l := explode ds) in *.
  assert (Es : String.length ds = Z.to_nat k) by (rewrite <- explode_length; fold l; lia).
  assert (Fr : parse_frac rest = Some ([], rest)) by (apply parse_frac_stop; intros ? ? ->; apply St).
  assert (Nd : forall x r, rest = x :: r -> is_digit x = false) by (intros ? ?; now apply stops_digit).
  (* the digits up to and after the point *)
  assert (Cut : forall i, 0 < i < k -> exists a b, l = a ++ b /\ b <> [] /\ Forall is_digit a /\ Forall is_digit b /\
    Z.of_nat (List.length b) = k - i /\ (exists c d, a = c :: d /\ c <> "0"%char) /\
    explode (slice_to (Z.to_nat i) ds ++ "." ++ String.substring (Z.to_nat i) (String.length ds) ds)%string = a ++ "."%char :: b).
  { intros i I. exists (take (Z.to_nat i) l), (drop (Z.to_nat i) l). rewrite take_drop.
    assert (Lb : Z.of_nat (List.length (drop (Z.to_nat i) l)) = k - i) by (rewrite length_drop; lia).
    split_and!; [easy | intros X; rewrite X in Lb; cbn in Lb; lia | now apply Forall_take | now apply Forall_drop | easy | |].
    - destruct C as (c & d & -> & _ & N). destruct (Z.to_nat i) eqn:X; [lia |]. now exists c, (take n0 d).
    - unfold slice_to. rewrite !explode_app, explode_implode, explode_substring. fold l. cbn [app].
      now rewrite (take_ge (drop _ _)) by (rewrite length_drop; lia). }
  assert (Pf : forall b r, Forall is_digit b -> b <> [] -> (forall x r', r = x :: r' -> is_digit x = false) ->
    parse_frac ("."%char :: b ++ r) = Some (b, r)).
  { intros b r Fb Nb Nr. cbn [parse_frac]. rewrite digits_span_app by easy. now destruct b. }
  destruct ((k <=? n) && (n <=? 21)) eqn:C1; [|destruct ((0 <? n) && (n <=? 21)) eqn:C2; [|destruct ((-6 <? n) && (n <=? 0)) eqn:C3]].
  - apply andb_true_iff in C1 as [C1 _]. apply Z.leb_le in C1. destruct (zeros_value (Z.to_nat (n - k))) as [Z0 ZF].
    rewrite explode_app, explode_zeros. fold l.
    eapply parse_decimal; [now apply Forall_app | | exact Nd | exact Fr | now apply parse_exp_stop |].
    + destruct C as (c & d & -> & _ & N). now exists c, (d ++ List.repeat "0"%char (Z.to_nat (n - k))).
    + rewrite app_nil_r, digits_value_app, V, Z0, repeat_length, Z.add_0_r, inject_Z_mult.
      rewrite <- scale_pow10, Z2Nat.id by lia. change (scale (0 - Z.of_nat _)) with 1%Q. ring.
  - apply andb_false_iff in C1. apply andb_true_iff in C2 as [C2 C2']. apply Z.ltb_lt in C2. rewrite C2' in C1.
    destruct C1 as [C1|]; [|easy]. apply Z.leb_gt in C1.
    destruct (Cut n ltac:(lia)) as (a & b & E & Nb & Fa & Fb & Lb & Ha & ->). rewrite <- app_assoc. cbn [app].
    eapply parse_decimal; [easy | easy | now intros ? ? [= <- _] | now apply Pf | now apply parse_exp_stop |].
    rewrite <- E, V. replace (0 - Z.of_nat (List.length b)) with (n - k) by lia. reflexivity.
  - apply andb_true_iff in C3 as [C3 C4]. apply Z.ltb_lt in C3. apply Z.leb_le in C4.
    rewrite !explode_app, explode_zeros. fold l. cbn [explode app]. unfold parse_unsigned. cbn [parse_int mbind option_bind].
    destruct (zeros_value (Z.to_nat (- n))) as [Z0 ZF].
    set (b := List.repeat "0"%char (Z.to_nat (- n)) ++ l).
    change (String.list_ascii_of_string "0.") with ["0"; "."]%char. cbn [app].
    cbn [parse_int mbind option_bind]. rewrite (Pf b rest); [|now apply Forall_app | | easy].
    + cbn [mbind option_bind]. rewrite parse_exp_stop by easy. cbn [mbind option_bind]. f_equal. f_equal. apply Qred_lit.
      change (["0"%char] ++ b) with ("0"%char :: b). change (digits_value ("0"%char :: b)) with (digits_value b).
      subst b. rewrite digits_value_app, Z0, V, length_app, repeat_length. cbn [Z.mul Z.add].
      replace (0 - Z.of_nat (Z.to_nat (- n) + List.length l)) with (n - k) by lia. reflexivity.
    + subst b. destruct C as (c & d & -> & _). now destruct (List.repeat _ _).
  - set (tail := explode ("e" ++ (if (n <? 1)%Z then "-" else "+") ++ pretty (Z.abs (n - 1)))%string ++ rest).
    assert (Pe : parse_exp tail = Some (n - 1, rest)).
    { subst tail. rewrite <- (parse_exponent (n - 1) rest St). f_equal. rewrite !explode_app. cbn [explode app].
      replace (n - 1 <? 0) with (n <? 1) by (destruct (Z.ltb_spec n 1), (Z.ltb_spec (n - 1) 0); lia || easy). now destruct (n <? 1). }
    assert (Ne : forall x r, tail = x :: r -> is_digit x = false /\ x <> "."%char) by now intros ? ? [= <- _].
    rewrite explode_app, <- app_assoc. fold tail. destruct (Z.eqb_spec k 1) as [->|K1].
    + fold l. eapply parse_decimal; [easy | | now intros ? ? ?%Ne | | exact Pe |].
      * destruct C as (c & d & X & _ & N). now exists c, d.
      * apply parse_frac_stop. now intros ? ? ?%Ne.
      * rewrite app_nil_r, V. now replace (n - 1 - Z.of_nat (List.length [])) with (n - 1) by (cbn; lia).
    + destruct (Cut 1 ltac:(lia)) as (a & b & E & Nb & Fa & Fb & Lb & Ha & X). cbn zeta. rewrite X, <- app_assoc. cbn [app].
      eapply parse_decimal; [easy | easy | now intros ? ? [= <- _] | apply Pf; [easy | easy | now intros ? ? ?%Ne] | exact Pe |].
      rewrite <- E, V. replace (n - 1 - Z.of_nat (List.length b)) with (n - k) by lia. reflexivity.
Qed.
(** A number as JSON can carry it: reduced, and denoted by its text. *)
Definition textual (q : Q) : bool :=
  bool_decide (Qred q = q) &&
  (Qeq_bool q 0 || (scale (-330) <=? Qabs q)%Q && reads_back (if (q <? 0)%Q then - q else q)%Q).

Lemma positive_text_parse x rest : (scale (-330) <= x)%Q -> reads_back x = true -> stops rest ->
  (exists c t, explode (positive_text x) = c :: t /\ is_digit c = true) /\
  parse_unsigned (explode (positive_text x) ++ rest) = Some (Qred x, rest).
Proof.
  intros L R St. destruct (positive_text_layout x L R) as (k & n & s & -> & K & B & E). split.
  - pose proof (parse_layout k n s [] K B I) as P. rewrite app_nil_r in P. destruct (explode _) as [|c t]; [easy |].
    exists c, t. split; [easy |]. unfold parse_unsigned in P. destruct (is_digit c) eqn:D; [easy |]. exfalso.
    assert (Z0 : c <> "0"%char) by (intros ->; discriminate). rewrite parse_int_nonzero in P by easy. cbn [digits_span] in P. now rewrite D in P.
  - rewrite parse_layout by easy. f_equal. f_equal. now apply Qred_complete.
Qed.

Lemma number_text_parse q rest : textual q = true -> stops rest ->
  (exists c t, explode (number_text q) = c :: t /\ (is_digit c = true \/ c = "-"%char)) /\
  parse_number (explode (number_text q) ++ rest) = Some (q, rest).
Proof.
  intros T St. unfold textual in T. apply andb_true_iff in T as [Rq T]. apply bool_decide_eq_true in Rq.
  unfold number_text. rewrite Rq. destruct (Qeq_bool q 0) eqn:Z0.
  - apply Qeq_bool_iff in Z0. split; [exists "0"%char, []; auto |]. cbn [explode app]. unfold parse_number. cbn [parse_sign].
    unfold parse_unsigned. cbn [parse_int mbind option_bind]. rewrite parse_frac_stop by (intros ? ? ->; apply St).
    cbn [mbind option_bind]. rewrite parse_exp_stop by easy. cbn [mbind option_bind]. f_equal. f_equal. rewrite <- Rq. apply Qred_complete.
    rewrite Qred_correct, Z0. change (digits_value _) with 0. unfold lit. rewrite Qmult_0_l, rnd_0. ring.
  - cbn [orb] in T. apply andb_true_iff in T as [L R]. qprop. destruct (q <? 0)%Q eqn:Neg; qprop.
    + rewrite Qabs_neg in L by lra. destruct (positive_text_parse (- q) rest L R St) as [_ P].
      split; [now eexists "-"%char, _; split; [reflexivity | right] |]. cbn [explode app]. unfold parse_number. cbn [parse_sign].
      change (String.list_ascii_of_string (String "-" ?s)) with ("-"%char :: explode s).
      rewrite explode_app. cbn [explode app parse_sign]. rewrite P. cbn [mbind option_bind]. f_equal. f_equal.
      rewrite <- Rq. apply Qred_complete. rewrite !Qred_correct. ring.
    + rewrite Qabs_pos in L by easy. destruct (positive_text_parse q rest L R St) as [(c & t & E & D) P].
      split; [exists c, t; auto |]. unfold parse_number. rewrite E. cbn [app]. rewrite parse_sign_digit by easy.
      rewrite E in P. cbn [app] in P. rewrite P. cbn [mbind option_bind]. f_equal. f_equal.
      rewrite <- Rq at 2. apply Qred_complete. rewrite Qred_correct. ring.
Qed.
End NumberText.

(** ** Strings *)
Lemma parse_string_char f c t : parse_string (S f) (json_char c ++ t) = '(u, r) ← parse_string f t; Some (c :: u, r).
Proof. destruct c as [[] [] [] [] [] [] [] []]; reflexivity. Qed.
Lemma json_char_length c : (1 <= List.length (json_char c))%nat.
Proof. destruct c as [[] [] [] [] [] [] [] []]; apply le_n_S, Nat.le_0_l. Qed.
Lemma quoted_length l : (List.length l <= List.length (concat (json_char <$> l)))%nat.
Proof. induction l as [|c l IH]; [cbn; lia |]. cbn [fmap list_fmap concat List.length]. rewrite length_app. pose proof (json_char_length c). lia. Qed.

Lemma parse_string_quoted l rest f : (List.length l < f)%nat ->
  parse_string f (concat (json_char <$> l) ++ quote :: rest) = Some (l, rest).
Proof.
  revert f. induction l as [|c l IH]; intros f L; (destruct f as [|f]; [cbn in L; lia |]); [reflexivity |].
  cbn [fmap list_fmap concat]. rewrite <- app_assoc, parse_string_char, IH; [easy |]. cbn in L. lia.
Qed.
Lemma explode_quote s : explode (json_quote s) = quote :: concat (json_char <$> explode s) ++ [quote].
Proof. unfold json_quote. now rewrite explode_implode. Qed.

(** ** Documents *)
Section JsonInd.
Variable P : Json -> Prop.
Hypothesis (Pnull : P JNull) (Pbool : forall b, P (JBool b)) (Pnum : forall q, P (JNum q)) (Pstr : forall s, P (JStr s)).
Hypothesis (Parr : forall l, Forall P l -> P (JArr l)) (Pobj : forall fs, Forall (P ∘ snd) fs -> P (JObj fs)).
Fixpoint Json_nested (j : Json) : P j :=
  match j with
  | JNull => Pnull | JBool b => Pbool b | JNum q => Pnum q | JStr s => Pstr s
  | JArr l => Parr l ((fix go l : Forall P l :=
      match l with [] => Forall_nil_2 _ | x :: l => Forall_cons_2 _ _ _ (Json_nested x) (go l) end) l)
  | JObj fs => Pobj fs ((fix go fs : Forall (P ∘ snd) fs :=
      match fs with [] => Forall_nil_2 _ | kv :: fs => Forall_cons_2 (P ∘ snd) _ _ (Json_nested kv.2) (go fs) end) fs)
  end.
End JsonInd.

Section Documents.
Context `{Rounding}.

(** Every number has a text, and no object repeats a key. *)
Fixpoint json_ok (j : Json) : bool :=
  match j with
  | JNull | JBool _ | JStr _ => true
  | JNum q => textual q
  | JArr l => forallb json_ok l
  | JObj fs => bool_decide (NoDup fs.*1) && forallb (fun kv => json_ok kv.2) fs
  end.

Definition closing (c : ascii) : bool := ((c =? ",") || (c =? "]") || (c =? "}"))%char.
Definition delimited (rest : chars) : Prop := match rest with [] => True | c :: _ => closing c = true end.
Lemma delimited_stops rest : delimited rest -> stops rest.
Proof. destruct rest as [|c r]; [easy |]. destruct c as [[] [] [] [] [] [] [] []]; easy. Qed.

(** The first character of a text of a value. *)
Definition opens (c : ascii) : bool :=
  (is_digit c || (c =? "-") || (c =? "t") || (c =? "f") || (c =? "n") || (c =? quote) || (c =? "[") || (c =? "{"))%char.
Lemma opens_space c t : opens c = true -> skip_space (c :: t) = c :: t /\ closing c = false.
Proof. destruct c as [[] [] [] [] [] [] [] []]; easy. Qed.
Lemma stringify_opens j : json_ok j = true -> exists c t, explode (stringify j) = c :: t /\ opens c = true.
Proof.
  destruct j as [|[]|q|s|l|fs]; cbn [stringify json_ok]; intros K; [now do 2 eexists | now do 2 eexists | now do 2 eexists | | | now do 2 eexists | now do 2 eexists].
  - destruct (number_text_parse q [] K I) as [(c & t & E & D) _]. exists c, t. split; [easy |]. unfold opens.
    destruct D as [-> | ->]; easy.
  - rewrite explode_quote. now do 2 eexists.
Qed.

Lemma number_start c s : is_digit c = true \/ c = "-"%char ->
  skip_space (c :: s) = c :: s /\ (c =? "{")%char = false /\ (c =? "[")%char = false /\ (c =? quote)%char = false /\
  strip (explode "true") (c :: s) = None /\ strip (explode "false") (c :: s) = None /\ strip (explode "null") (c :: s) = None.
Proof. intros [D| ->]; [|now split_and!]. revert D. destruct c as [[] [] [] [] [] [] [] []]; easy. Qed.

(** [value] reads back [v] before any delimiter. *)
Definition reads (value : chars -> option (Json * chars)) (v : Json) : Prop :=
  forall rest, delimited rest -> value (explode (stringify v) ++ rest) = Some (v, rest).

Lemma parse_elements_reads value l fuel rest : l <> [] -> Forall (reads value) l -> (List.length l <= fuel)%nat ->
  parse_elements value fuel (explode (String.concat "," (map stringify l)) ++ "]"%char :: rest) = Some (l, rest).
Proof.
  intros N F. revert fuel. induction F as [|v l V F IH]; intros fuel L; [easy |].
  destruct fuel as [|fuel]; [cbn in L; lia |]. destruct l as [|w l].
  - cbn [map String.concat parse_elements]. now rewrite V.
  - change (String.concat "," (map stringify (v :: w :: l))) with
      (stringify v +:+ "," +:+ String.concat "," (map stringify (w :: l))).
    rewrite !explode_app, <- !app_assoc. cbn [parse_elements]. rewrite V by easy. cbn [mbind option_bind].
    change (explode "," ++ ?x) with (","%char :: x). cbn [skip_space is_json_space]. change (is_json_space ",") with false. cbn iota.
    change ((",")%char =? ",")%char with true. cbn iota. rewrite IH; [easy | easy | cbn in *; lia].
Qed.

Definition member_text (kv : string * Json) : string := (json_quote kv.1 ++ ":" ++ stringify kv.2)%string.
Lemma parse_member_reads value k v rest : reads value v -> delimited rest ->
  parse_member value (explode (member_text (k, v)) ++ rest) = Some (k, v, rest).
Proof.
  intros V D. unfold member_text. cbn [fst snd]. rewrite !explode_app, explode_quote, <- !app_assoc.
  unfold parse_member. rewrite <- !app_comm_cons. cbn [skip_space]. change (is_json_space quote) with false. cbn iota.
  change (quote =? quote)%char with true. cbn iota. rewrite <- app_assoc.
  change ([quote] ++ ?x) with (quote :: x). rewrite parse_string_quoted.
  - cbn [mbind option_bind]. change (explode ":" ++ ?x) with (":"%char :: x). cbn [skip_space]. change (is_json_space ":") with false. cbn iota.
    change (":" =? ":")%char with true. cbn iota. rewrite V by easy. cbn [mbind option_bind]. now rewrite implode_explode.
  - rewrite length_app. pose proof (quoted_length (explode k)). lia.
Qed.

Lemma put_field_new k v acc : k ∉ acc.*1 -> put_field k v acc = acc ++ [(k, v)].
Proof.
  induction acc as [|[k' v'] acc IH]; [easy |]. cbn. rewrite elem_of_cons. intros N.
  destruct (String.eqb_spec k' k) as [->|]; [now destruct N; left | rewrite IH; tauto].
Qed.
Lemma parse_members_reads value fs fuel acc rest : fs <> [] -> Forall (reads value ∘ snd) fs -> (List.length fs <= fuel)%nat ->
  NoDup (acc ++ fs).*1 ->
  parse_members value fuel acc (explode (String.concat "," (map member_text fs)) ++ "}"%char :: rest) = Some (acc ++ fs, rest).
Proof.
  intros N F. revert fuel acc. induction F as [|[k v] fs V F IH]; intros fuel acc L D; [easy |].
  destruct fuel as [|fuel]; [cbn in L; lia |].
  assert (K : k ∉ acc.*1). { rewrite fmap_app in D. apply NoDup_app in D as (_ & D & _). intros X. apply (D k X). now left. }
  destruct fs as [|w fs].
  - cbn [map String.concat parse_members]. rewrite parse_member_reads by easy. cbn [mbind option_bind].
    cbn [skip_space]. change (is_json_space "}") with false. cbn iota. change ("}" =? ",")%char with false.
    change ("}" =? "}")%char with true. cbn iota. now rewrite put_field_new.
  - change (String.concat "," (map member_text ((k, v) :: w :: fs))) with
      (member_text (k, v) +:+ "," +:+ String.concat "," (map member_text (w :: fs))).
    rewrite !explode_app, <- !app_assoc. cbn [parse_members]. rewrite parse_member_reads by easy. cbn [mbind option_bind].
    change (explode "," ++ ?x) with (","%char :: x). cbn [skip_space]. change (is_json_space ",") with false. cbn iota.
    change ("," =? ",")%char with true. cbn iota. rewrite put_field_new by easy.
    rewrite IH; [now rewrite <- app_assoc | easy | cbn in *; lia | now rewrite <- app_assoc].
Qed.

Lemma concat_cons {A} (f : A -> string) x y l :
  String.concat "," (map f (x :: y :: l)) = f x +:+ "," +:+ String.concat "," (map f (y :: l)).
Proof. reflexivity. Qed.
Lemma concat_length {A} (f : A -> string) l :
  Forall (fun x => String.length (f x) <= String.length (String.concat "," (map f l)))%nat l /\
  (List.length l <= S (String.length (String.concat "," (map f l))))%nat.
Proof.
  induction l as [|x [|y l] [F L]]; [split; [constructor | cbn; lia] | split; [repeat constructor | cbn; lia] |].
  rewrite concat_cons, !string_length_app. change (String.length ",") with 1%nat. split; [|cbn [List.length] in *; lia].
  constructor; [lia |]. eapply Forall_impl; [exact F |]. cbn beta. intros z Z. lia.
Qed.

Lemma parse_value_reads j : json_ok j = true -> forall fuel, (String.length (stringify j) < fuel)%nat ->
  reads (parse_value fuel) j.
Proof.
  induction j as [|b|q|s|l IH|fs IH] using Json_nested; intros K fuel L rest D;
    (destruct fuel as [|fuel]; [lia |]); cbn [stringify json_ok] in *.
  - reflexivity.
  - now destruct b.
  - destruct (number_text_parse q rest K (delimited_stops rest D)) as [(c & t & E & C) P].
    rewrite E in *. cbn [app] in *. destruct (number_start c (t ++ rest) C) as (S1 & S2 & S3 & S4 & S5 & S6 & S7).
    cbn [parse_value]. rewrite S1, S2, S3, S4, S5, S6, S7, P. reflexivity.
  - rewrite explode_quote. cbn [app parse_value]. cbn [skip_space]. change (is_json_space quote) with false. cbn iota.
    change (quote =? "{")%char with false. change (quote =? "[")%char with false. change (quote =? quote)%char with true. cbn iota.
    rewrite <- app_assoc. change ([quote] ++ ?x) with (quote :: x). rewrite parse_string_quoted.
    + cbn [mbind option_bind]. now rewrite implode_explode.
    + rewrite length_app. pose proof (quoted_length (explode s)). lia.
  - destruct (concat_length stringify l) as [Fl Ll]. rewrite !string_length_app in L. change (String.length "[") with 1%nat in L.
    rewrite !explode_app, <- !app_assoc. change (explode "[" ++ ?x) with ("["%char :: x). change (explode "]" ++ ?x) with ("]"%char :: x).
    cbn [parse_value skip_space]. change (is_json_space "[") with false. cbn iota.
    change ("[" =? "{")%char with false. change ("[" =? "[")%char with true. cbn iota.
    destruct l as [|v l]; [reflexivity |].
    assert (O : exists c t, explode (String.concat "," (map stringify (v :: l))) ++ "]"%char :: rest = c :: t /\ opens c = true).
    { cbn [forallb] in K. apply andb_true_iff in K as [K _]. destruct (stringify_opens v K) as (c & t & E & O).
      destruct l as [|w l]; [cbn [map String.concat] | rewrite concat_cons, explode_app]; rewrite E; cbn [app]; now do 2 eexists. }
    destruct O as (c & t & E & O). rewrite E. destruct (opens_space c t O) as [-> C]. unfold closing in C.
    destruct (c =? "]")%char; [now rewrite orb_true_r in C |]. rewrite <- E, parse_elements_reads; [easy | easy | | lia].
    clear E. rewrite Forall_forall in *. rewrite forallb_forall in K. intros x I. apply IH; [easy | apply K; now apply list_elem_of_In |].
    specialize (Fl x I). lia.
  - apply andb_true_iff in K as [N K]. apply bool_decide_eq_true in N.
    change (map (fun '(k, v) => (json_quote k ++ ":" ++ stringify v)%string) fs) with (map (fun '(k, v) => member_text (k, v)) fs) in *.
    replace (map (fun '(k, v) => member_text (k, v)) fs) with (map member_text fs) in * by (apply map_ext; now intros [] ).
    destruct (concat_length member_text fs) as [Fl Ll]. rewrite !string_length_app in L. change (String.length "{") with 1%nat in L.
    rewrite !explode_app, <- !app_assoc. change (explode "{" ++ ?x) with ("{"%char :: x). change (explode "}" ++ ?x) with ("}"%char :: x).
    cbn [parse_value skip_space]. change (is_json_space "{") with false. cbn iota. change ("{" =? "{")%char with true. cbn iota.
    destruct fs as [|[k v] fs]; [reflexivity |].
    assert (O : exists t, explode (String.concat "," (map member_text ((k, v) :: fs))) ++ "}"%char :: rest = quote :: t).
    { destruct fs as [|w fs]; [cbn [map String.concat] | rewrite concat_cons, explode_app]; unfold member_text; cbn [fst];
        rewrite explode_app, explode_quote; cbn [app]; now eexists. }
    destruct O as (t & E). rewrite E. destruct (opens_space quote t eq_refl) as [-> _]. change (quote =? "}")%char with false. cbn iota.
    rewrite <- E, parse_members_reads; [easy | easy | | lia | exact N].
    clear E. rewrite Forall_forall in *. rewrite forallb_forall in K. intros x I. cbn. apply IH; [easy | apply (K x); now apply list_elem_of_In |].
    specialize (Fl x I). set (n := String.length (String.concat _ _)) in *. clearbody n. unfold member_text in Fl. rewrite !string_length_app in Fl. lia.
Qed.

Lemma parse_stringify j : json_ok j = true -> json_parse (stringify j) = Some j.
Proof.
  intros K. unfold json_parse. rewrite <- (app_nil_r (explode (stringify j))).
  rewrite (parse_value_reads j K); [easy | | exact I]. rewrite app_nil_r, explode_length. lia.
Qed.

(** A JSON document written by JSON.stringify is read back by JSON.parse
    unchanged: its strings with every control character and quote, its numbers
    to the last bit, its keys in their order. *)
Theorem json_roundtrip j : json_ok j = true -> json_parse (stringify j) = Some j.
Proof. exact (parse_stringify j). Qed.

(** No bracket of a JSON text to come. *)
Definition no_bracket (c : ascii) : bool := negb ((c =? "[") || (c =? "{"))%char.
Lemma from_bracket_skip l rest : forallb no_bracket l = true -> from_bracket (l ++ rest) = from_bracket rest.
Proof.
  induction l as [|c l IH]; [easy |]. cbn. intros [N F]%andb_true_iff. unfold no_bracket in N. apply negb_true_iff in N.
  rewrite N. auto.
Qed.
Definition compound (j : Json) : bool := match j with JObj _ | JArr _ => true | _ => false end.

(** C22: The tolerant reader reads a tool's report behind the log line some tools
    print first: whatever text without an opening bracket comes before a JSON
    array or object, and whatever its strings, numbers, escapes and nesting, the
    value that JSON.stringify wrote is what is read. *)
Theorem loose_json_roundtrip log j : forallb no_bracket (explode log) = true -> compound j = true -> json_ok j = true ->
  parseLooseJson (log ++ stringify j) = Some j.
Proof.
  intros L C K. unfold parseLooseJson. rewrite explode_app, from_bracket_skip by exact L.
  assert (from_bracket (explode (stringify j)) = Some (explode (stringify j))) as -> by (destruct j; try discriminate C; reflexivity).
  cbn [mbind option_bind]. rewrite implode_explode. now apply parse_stringify.
Qed.
End Documents.

Module JsonSample.
Definition observed : Json :=
  JObj [("status"%string, JStr (implode ["O"; "K"; quote; "010"; "233"]%char));
        ("latency"%string, JArr [JNum (@lit binary64 (1 # 10)); JNum (inject_Z (10 ^ 21)); JNum (- (3 # 2))]);
        ("pods"%string, JObj []); ("ready"%string, JBool true); ("error"%string, JNull)].
End JsonSample.

Lemma json_roundtrip_witness :
  @json_ok binary64 JsonSample.observed = true /\
  @json_parse binary64 (@stringify binary64 JsonSample.observed) = Some JsonSample.observed.
Proof. assert (K : @json_ok binary64 JsonSample.observed = true) by (vm_compute; reflexivity). split; [exact K | exact (@json_roundtrip binary64 _ K)]. Defined.
Lemma loose_json_roundtrip_witness :
  @parseLooseJson binary64 ("WARN: slow " ++ @stringify binary64 JsonSample.observed)%string = Some JsonSample.observed.
Proof. apply (@loose_json_roundtrip binary64 "WARN: slow " JsonSample.observed); vm_compute; reflexivity. Defined.
