(* ===== verification/Disclosure.v ===== *)
(** * What the mentor may say

    mentor/disclosure-policy.ts, intent-classifier.ts and output-guardrail.ts:
    how much a reply may disclose, what the learner wants, and the check of the
    generated text against the resolved ceiling. *)
From Stdlib Require Import Ascii.
From S2P Require Import Prelude RegExp JsNum Binary64 Effects Schema JsText.

(** ** disclosure-policy.ts *)
Definition ConceptOnly : Z := 0.
Definition NarrowSearch : Z := 1.
Definition IdentifyArea : Z := 2.
Definition IdentifyCause : Z := 3.
Definition GiveCommand : Z := 4.

Inductive Persona := PATIENT_TUTOR | SENIOR_ONCALL | STAFF_REVIEWER.
Definition persona_text (p : Persona) : string :=
  match p with PATIENT_TUTOR => "PATIENT_TUTOR" | SENIOR_ONCALL => "SENIOR_ONCALL" | STAFF_REVIEWER => "STAFF_REVIEWER" end.

Record DisclosureResolution := mkDisclosureResolution {
  dr_persona : Persona; dr_ceiling : Z; dr_mayUseCanonicalPath : bool; dr_maxCodeLines : Z }.

Definition MODE_MAX (m : ActivityMode) : Z :=
  match m with GUIDED_LAB => GiveCommand | PRODUCTION_SIM => NarrowSearch | PROJECT => IdentifyArea end.
Definition MODE_PERSONA (m : ActivityMode) : Persona :=
  match m with GUIDED_LAB => PATIENT_TUTOR | PRODUCTION_SIM => SENIOR_ONCALL | PROJECT => STAFF_REVIEWER end.
Definition MODE_MAX_CODE_LINES (m : ActivityMode) : Z :=
  match m with GUIDED_LAB => 5 | PRODUCTION_SIM => 0 | PROJECT => 0 end.
Definition base_ceiling (m : ActivityMode) : Z :=
  match m with GUIDED_LAB => IdentifyArea | PRODUCTION_SIM => NarrowSearch | PROJECT => ConceptOnly end.

Record ResolveInput := mkResolveInput {
  di_mode : ActivityMode; di_meanMastery : Q; di_timeStuckMinutes : Q;
  di_hintLevelReached : option Z; di_activityOverride : option Z }.

Section Policy.
Context `{Rounding}.

(** The ceiling before the override and the clamp. *)
Definition signalled (input : ResolveInput) : Z :=
  let c := base_ceiling (di_mode input) in
  let c := if (di_meanMastery input <? lit (4 # 10))%Q then (c + 1)%Z else c in
  let c := if (10 <=? di_timeStuckMinutes input)%Q then (c + 1)%Z else c in
  if bool_decide (di_mode input = GUIDED_LAB) && (3 <=? default 0 (di_hintLevelReached input))%Z
  then GiveCommand else c.

Definition resolveDisclosure (input : ResolveInput) : DisclosureResolution :=
  let c := signalled input in
  let c := match di_activityOverride input with Some o => Z.min c o | None => c end in
  let c := Z.max 0 (Z.min (Z.min c (MODE_MAX (di_mode input))) GiveCommand) in
  let lines := MODE_MAX_CODE_LINES (di_mode input) in
  mkDisclosureResolution (MODE_PERSONA (di_mode input)) c (IdentifyArea <=? c)%Z
    (if (GiveCommand <=? c)%Z then lines
     else Z.min lines (if bool_decide (di_mode input = GUIDED_LAB) then 5 else 0)).

(** ** Theorems on the policy *)

(** [i'] signals at least as much need of help as [i]. *)
Definition needs_more (i i' : ResolveInput) : Prop :=
  di_mode i' = di_mode i /\ di_activityOverride i' = di_activityOverride i /\
  (di_meanMastery i' <= di_meanMastery i)%Q /\ (di_timeStuckMinutes i <= di_timeStuckMinutes i')%Q /\
  (default 0 (di_hintLevelReached i) <= default 0 (di_hintLevelReached i'))%Z.

Lemma signalled_mono i i' : needs_more i i' -> (signalled i <= signalled i')%Z.
Proof.
  intros (M & _ & P & T & Hn). unfold signalled. rewrite M.
  destruct (di_meanMastery i <? _)%Q eqn:P1, (di_meanMastery i' <? _)%Q eqn:P2,
    (10 <=? di_timeStuckMinutes i)%Q eqn:T1, (10 <=? di_timeStuckMinutes i')%Q eqn:T2; qprop; try lra;
    destruct (Z.leb_spec 3 (default 0%Z (di_hintLevelReached i))), (Z.leb_spec 3 (default 0%Z (di_hintLevelReached i')));
    try lia; destruct (di_mode i); decide_concrete; cbn; unfold GiveCommand, IdentifyArea, NarrowSearch, ConceptOnly; lia.
Qed.

(** The disclosure policy: the ceiling is between 0 and the hard ceiling of the mode
    and never above an authored override that is not negative; more need of help
    (lower mastery, more time stuck, deeper hints) never lowers it; the diagnostic path
    may be used exactly from the level that names an area; a simulation or a project
    never shows a line of code, a lab at most five; and without the hints of the third
    level the exact command is allowed only in a lab to a learner who is both below
    0.4 mastery and stuck for ten minutes. *)
Theorem disclosure_policy i i' : needs_more i i' ->
  let r := resolveDisclosure i in
  (0 <= dr_ceiling r <= MODE_MAX (di_mode i))%Z /\
  (forall o, di_activityOverride i = Some o -> (0 <= o)%Z -> (dr_ceiling r <= o)%Z) /\
  (dr_ceiling r <= dr_ceiling (resolveDisclosure i'))%Z /\
  (dr_mayUseCanonicalPath r = true <-> (IdentifyArea <= dr_ceiling r)%Z) /\
  dr_maxCodeLines r = MODE_MAX_CODE_LINES (di_mode i) /\
  (dr_ceiling r = GiveCommand -> di_mode i = GUIDED_LAB /\
     ((3 <= default 0 (di_hintLevelReached i))%Z \/
      (di_meanMastery i < lit (4 # 10))%Q /\ (10 <= di_timeStuckMinutes i)%Q)).
Proof.
  intros N. pose proof (signalled_mono i i' N) as S. destruct N as (M & O & _). cbn.
  rewrite M, O. split_and!.
  - lia.
  - destruct (di_mode i); cbn; unfold GiveCommand, NarrowSearch, IdentifyArea; lia.
  - intros o -> Po. lia.
  - destruct (di_activityOverride i); lia.
  - rewrite Z.leb_le. easy.
  - destruct (_ <=? _)%Z; [easy |]. destruct (di_mode i); reflexivity.
  - intros G. assert (L : (GiveCommand <= signalled i)%Z).
    { destruct (di_activityOverride i); unfold GiveCommand in *; lia. }
    assert (Md : di_mode i = GUIDED_LAB).
    { destruct (di_mode i) eqn:E; [easy | |]; cbn in G; unfold GiveCommand, NarrowSearch, IdentifyArea in G;
        destruct (di_activityOverride i); lia. }
    split; [exact Md |]. unfold signalled in L. rewrite Md in L.
    destruct (Z.leb_spec 3 (default 0%Z (di_hintLevelReached i))); [now left | right].
    destruct (di_meanMastery i <? _)%Q eqn:P1, (10 <=? di_timeStuckMinutes i)%Q eqn:T1; qprop;
      revert L; decide_concrete; cbn; unfold GiveCommand, IdentifyArea; try lia; easy.
Qed.
End Policy.

#[local] Existing Instance binary64.
Definition struggling (hints : option Z) : ResolveInput := mkResolveInput GUIDED_LAB (2 # 10) 15 hints None.

Lemma disclosure_policy_witness :
  let r := resolveDisclosure (mkResolveInput PRODUCTION_SIM (9 # 10) 0 None (Some 4%Z)) in
  (0 <= dr_ceiling r <= 1)%Z /\ dr_maxCodeLines r = 0%Z.
Proof.
  intros r.
  destruct (disclosure_policy (mkResolveInput PRODUCTION_SIM (9 # 10) 0 None (Some 4%Z))
    (mkResolveInput PRODUCTION_SIM (1 # 10) 20 (Some 3%Z) (Some 4%Z))) as (A & _ & _ & _ & B & _).
  - split_and!; cbn; try reflexivity; try lia; vm_compute; discriminate.
  - exact (conj A B).
Defined.

(** The comment and the table of the policy say that a lab gives exact commands only
    after the third hint; a learner who took no hint at all gets the command ceiling,
    and with it five lines of code, by low mastery and ten minutes without progress. *)
Theorem give_command_without_hints :
  resolveDisclosure (struggling None) =
    mkDisclosureResolution PATIENT_TUTOR GiveCommand true 5.
Proof. vm_compute. reflexivity. Qed.

(** ** intent-classifier.ts *)
Inductive Intent := concept_q | error_help | just_tell_me | off_topic | injection.
#[export] Instance intent_eq_dec : EqDecision Intent.
Proof. solve_decision. Defined.

Definition INJECTION_MARKERS : list regexp := rx_i <$> [
  "ignore (?:all |the )?(?:previous|above|prior) (?:instructions|rules)";
  "you are now\b";
  "disregard (?:your|the) (?:system prompt|rules|instructions)";
  "\bdisclosure[_ ]?ceiling\s*(?:=|:|\bis\b)\s*[2-4]";
  "print (?:your|the) (?:system prompt|instructions|solution|reference)";
  "\bDAN\b|\bdev ?mode\b|jailbreak";
  "roleplay .* (?:solution|answer key|reference)";
  "decode this and (?:follow|do)"]%string.
Definition JUST_TELL_ME : list regexp := rx_i <$> [
  "just (?:tell|give) me (?:the )?(?:answer|solution|command|fix)";
  "what(?:'s| is) the (?:exact )?command\b";
  "(?:give|show) me the (?:full|complete|corrected) (?:manifest|yaml|code|file)";
  "can you (?:just )?fix it (?:for me)?"]%string.
Definition ERROR_HELP : list regexp := rx_i <$> [
  "error|failed|failing|not working|crashloop|exit code|stderr|traceback|exception|denied|refused|timeout|timing out|unhealthy|not ?ready|502|503|500\b";
  "\bwhy\b";
  "what does this (?:mean|error)"]%string.
Definition OFF_TOPIC : list regexp := rx_i <$> [
  "\b(weather|sports|movie|recipe|stock price|joke|poem)\b";
  "who (?:are you|made you|built you)\b"]%string.

Definition some_test (res : list regexp) (t : string) : bool := existsb (fun re => test re t) res.
Definition classifyIntent (text : string) : Intent :=
  let t := trim text in
  if some_test INJECTION_MARKERS t then injection
  else if some_test JUST_TELL_ME t then just_tell_me
  else if some_test OFF_TOPIC t then off_topic
  else if some_test ERROR_HELP t then error_help
  else concept_q.

Lemma intent_patterns_parse :
  Forall (fun x => rx_re x <> nothing) (INJECTION_MARKERS ++ JUST_TELL_ME ++ ERROR_HELP ++ OFF_TOPIC).
Proof. repeat constructor; vm_compute; discriminate. Qed.

Lemma some_test_occurs res t : some_test res t = true <-> exists x, x ∈ res /\ occurs x None (explode t).
Proof.
  unfold some_test. rewrite existsb_exists. setoid_rewrite test_occurs. setoid_rewrite <- list_elem_of_In. easy.
Qed.

(** The classification: a message is an injection exactly when an injection marker
    matches somewhere in it (whatever else it says), and each other intent is decided
    by its own patterns after all earlier ones failed to match. *)
Theorem intent_priority text :
  let has res := exists x, x ∈ res /\ occurs x None (explode (trim text)) in
  match classifyIntent text with
  | injection => has INJECTION_MARKERS
  | just_tell_me => ~ has INJECTION_MARKERS /\ has JUST_TELL_ME
  | off_topic => ~ has INJECTION_MARKERS /\ ~ has JUST_TELL_ME /\ has OFF_TOPIC
  | error_help => ~ has INJECTION_MARKERS /\ ~ has JUST_TELL_ME /\ ~ has OFF_TOPIC /\ has ERROR_HELP
  | concept_q => ~ has INJECTION_MARKERS /\ ~ has JUST_TELL_ME /\ ~ has OFF_TOPIC /\ ~ has ERROR_HELP
  end.
Proof.
  intros has.
  assert (T : forall res b, some_test res (trim text) = b -> if b then has res else ~ has res).
  { intros res [] E; [now apply some_test_occurs |]. intros F%some_test_occurs. congruence. }
  unfold classifyIntent.
  destruct (some_test INJECTION_MARKERS _) eqn:E1; apply T in E1; [exact E1 |].
  destruct (some_test JUST_TELL_ME _) eqn:E2; apply T in E2; [easy |].
  destruct (some_test OFF_TOPIC _) eqn:E3; apply T in E3; [easy |].
  destruct (some_test ERROR_HELP _) eqn:E4; apply T in E4; easy.
Qed.

(** Markers without case: a colleague's name is taken for a jailbreak. *)
Example dan_is_an_injection : classifyIntent "Dan said the probe path is wrong, is it?" = injection.
Proof. vm_compute. reflexivity. Qed.
