(* ===== verification/AttemptStatus.v ===== *)
(** * Attempt statuses

    common/attempt-status-groups.ts, and the status graph of the attempt
    life cycle: [edge] lists the moves the service makes, [late_graph] those with
    what a late provisioning adds, [row_evolves] says that a row moved along a
    graph, one version per move, and [evolves] that every row of a store did.  [evolves] is the relation under which the handlers of
    AttemptService are interleaved. *)
From S2P Require Import Prelude JsNum Effects Schema.

Module AttemptStatusGroups.
Definition TERMINAL : list AttemptStatus :=
  [PASSED; FAILED; COMPLETED; PROVISION_FAILED; EVAL_FAILED; EXPIRED; ABANDONED].
Definition RETRYABLE_FROM : list AttemptStatus :=
  [FAILED; COMPLETED; PROVISION_FAILED; EVAL_FAILED; ABANDONED; EXPIRED].
Definition SUCCESS : list AttemptStatus := [PASSED; COMPLETED].
End AttemptStatusGroups.

(** AttemptRepository.LIVE_CACHEABLE_STATUSES. *)
Definition LIVE_CACHEABLE_STATUSES : list AttemptStatus := [CREATED; PROVISIONING; READY; IN_PROGRESS].
(** AttemptService.REACTIVATABLE_STATUSES. *)
Definition REACTIVATABLE_STATUSES : list AttemptStatus := [SUSPENDED; CACHED; PROVISION_FAILED].
(** The statuses EligibilityService counts against the environment quota. *)
Definition QUOTA_STATUSES : list AttemptStatus := [PROVISIONING; READY; IN_PROGRESS; SUBMITTED; EVALUATING].

Definition includes {A} `{EqDecision A} (l : list A) (x : A) : bool := bool_decide (x ∈ l).

Lemma includes_spec {A} `{EqDecision A} (l : list A) x : includes l x = true <-> x ∈ l.
Proof. apply bool_decide_eq_true. Qed.

Definition is_terminal (st : AttemptStatus) : bool := includes AttemptStatusGroups.TERMINAL st.

(** ** The status graph *)
Definition edge (st st' : AttemptStatus) : bool :=
  match st, st' with
  | CREATED, PROVISIONING
  | PROVISIONING, (READY | PROVISION_FAILED)
  | READY, IN_PROGRESS
  | IN_PROGRESS, SUBMITTED
  | (SUBMITTED | EVALUATING), (PASSED | FAILED)
  | SUSPENDED, CACHED
  | (SUSPENDED | CACHED | PROVISION_FAILED), CREATED => true
  | (SUSPENDED | CACHED), SUSPENDED => false
  | _, (SUSPENDED | EVALUATING) => negb (is_terminal st)
  | _, _ => false
  end.

(** The statuses nothing leaves. *)
Definition is_final (st : AttemptStatus) : bool :=
  includes [PASSED; FAILED; COMPLETED; EVAL_FAILED; EXPIRED; ABANDONED] st.

Lemma final_no_edge st st' : is_final st = true -> edge st st' = false.
Proof. now destruct st, st'. Qed.

Lemma terminal_final st : is_terminal st = true <-> is_final st = true \/ st = PROVISION_FAILED.
Proof. destruct st; vm_compute; intuition discriminate. Qed.

(** The moves an observer allows the rows of each attempt: at least the edges. *)
Class Graph := {
  move : Id -> AttemptStatus -> AttemptStatus -> bool;
  move_edge id st st' : edge st st' = true -> move id st st' = true }.

(** What a provisioning that answers late may do on top, to the attempts of [late]:
    take the attempt, whatever its status by then, to READY or PROVISION_FAILED. *)
Definition late_move (late : Id -> bool) (id : Id) (st st' : AttemptStatus) : bool :=
  edge st st' || late id && includes [READY; PROVISION_FAILED] st'.
Definition late_graph (late : Id -> bool) : Graph :=
  {| move := late_move late; move_edge id st st' E := proj2 (orb_true_iff _ _) (or_introl E) |}.
(** No late answers: the graph itself. *)
Definition status_graph : Graph := {| move _ := edge; move_edge _ _ _ E := E |}.

(** ** Rows and stores moving along the graph *)
Section Evolution.
Context {G : Graph}.

Definition row_evolves (id : Id) (r r' : Attempt) : Prop :=
  (version r <= version r')%nat /\
  nsteps (move id) (version r' - version r) (status r) (status r').

#[export] Instance row_evolves_preorder id : PreOrder (row_evolves id).
Proof.
  split.
  - intros r. split; [easy |]. rewrite Nat.sub_diag. constructor.
  - intros r1 r2 r3 [V1 E1] [V2 E2]. split; [lia |].
    replace (version r3 - version r1)%nat
      with ((version r2 - version r1) + (version r3 - version r2))%nat by lia.
    eapply nsteps_trans; eauto.
Qed.

(** Equal versions, equal statuses: what the optimistic lock relies on. *)
Lemma row_evolves_same id r r' : row_evolves id r r' -> version r' = version r -> status r' = status r.
Proof. intros [_ E] V. rewrite V, Nat.sub_diag in E. now inversion E. Qed.

Lemma row_evolves_same_row id r r' :
  status r' = status r -> version r' = version r -> row_evolves id r r'.
Proof. intros S V. split; [lia |]. rewrite V, S, Nat.sub_diag. constructor. Qed.

Lemma row_evolves_move id r r' :
  move id (status r) (status r') = true -> version r' = S (version r) -> row_evolves id r r'.
Proof.
  intros E V. split; [lia |]. rewrite V. replace (S (version r) - version r)%nat with 1%nat by lia.
  apply nsteps_once. now rewrite E.
Qed.
Lemma row_evolves_edge id r r' :
  edge (status r) (status r') = true -> version r' = S (version r) -> row_evolves id r r'.
Proof. intros E. now apply row_evolves_move, move_edge. Qed.

Lemma row_evolves_two id r r' mid : edge (status r) mid = true -> edge mid (status r') = true ->
  version r' = S (S (version r)) -> row_evolves id r r'.
Proof.
  intros E1 E2 V. split; [lia |]. rewrite V. replace (S (S (version r)) - version r)%nat with 2%nat by lia.
  econstructor; [now rewrite (move_edge id _ _ E1) |]. apply nsteps_once. now rewrite (move_edge id _ _ E2).
Qed.

Lemma nsteps_final id n st st' : (forall x y, move id x y = edge x y) ->
  nsteps (move id) n st st' -> is_final st = true -> st' = st.
Proof.
  intros M H F. destruct H as [|n st st1 st' E]; [easy |].
  now rewrite M, (final_no_edge st st1 F) in E.
Qed.

Lemma row_evolves_final id r r' : (forall x y, move id x y = edge x y) ->
  row_evolves id r r' -> is_final (status r) = true -> status r' = status r.
Proof. intros M [_ E]. apply (nsteps_final _ _ _ _ M E). Qed.

(** A new row is born CREATED with version 1. *)
Definition row_opt_evolves (id : Id) (o o' : option Attempt) : Prop :=
  match o, o' with
  | Some r, Some r' => row_evolves id r r'
  | None, Some r' => exists r0, version r0 = 1%nat /\ status r0 = CREATED /\ row_evolves id r0 r'
  | None, None => True
  | Some _, None => False
  end.

Definition evolves (s s' : Store) : Prop :=
  forall id, row_opt_evolves id (attempts s !! id) (attempts s' !! id).

#[export] Instance evolves_preorder : PreOrder evolves.
Proof.
  split.
  - intros s id. destruct (attempts s !! id); cbn; [reflexivity | exact I].
  - intros s1 s2 s3 H1 H2 id. specialize (H1 id); specialize (H2 id).
    destruct (attempts s1 !! id), (attempts s2 !! id), (attempts s3 !! id); cbn in *; try easy.
    + etrans; eassumption.
    + destruct H1 as (r0 & ? & ? & ?). exists r0. split_and!; [easy.. | etrans; eassumption].
Qed.

Lemma evolves_lookup s s' id r : evolves s s' -> attempts s !! id = Some r ->
  exists r', attempts s' !! id = Some r' /\ row_evolves id r r'.
Proof. intros H E. specialize (H id). rewrite E in H. destruct (attempts s' !! id); [eauto | easy]. Qed.

(** Statements that leave the attempts table alone. *)
Lemma evolves_frame s s' : attempts s' = attempts s -> evolves s s'.
Proof. intros E id. rewrite E. destruct (attempts s !! id); cbn; [reflexivity | exact I]. Qed.

Lemma evolves_insert s s' id r r' :
  attempts s' = <[id := r']> (attempts s) -> attempts s !! id = Some r ->
  row_evolves id r r' -> evolves s s'.
Proof.
  intros E H L j. rewrite E. destruct (decide (id = j)) as [<-|Hne].
  - now rewrite lookup_insert_eq, H.
  - rewrite lookup_insert_ne by easy. destruct (attempts s !! j); cbn; [reflexivity | exact I].
Qed.

Lemma evolves_create s s' id r :
  attempts s' = <[id := r]> (attempts s) -> attempts s !! id = None ->
  version r = 1%nat -> status r = CREATED -> evolves s s'.
Proof.
  intros E H V C j. rewrite E. destruct (decide (id = j)) as [<-|Hne].
  - rewrite lookup_insert_eq, H. exists r. split_and!; [easy.. | reflexivity].
  - rewrite lookup_insert_ne by easy. destruct (attempts s !! j); cbn; [reflexivity | exact I].
Qed.
End Evolution.
