(* ===== verification/EventStore.v ===== *)
(** * The event store and its replay

    event-store/event-store.repository.ts, attempt-event-type.ts
    (appendTypedEvent) and replay.service.ts.  attempt_events is the source of
    truth; attempt_task_state is derived from it by a fold. *)
From stdpp Require Import sorting.
From S2P Require Import Prelude JsNum Effects Schema AttemptStatus.

(** ** EventStoreRepository *)
Definition of_attempt (id : Id) (l : list AttemptEventRow) : list AttemptEventRow :=
  List.filter (fun e => Nat.eqb (ev_attempt_id e) id) l.

(** COALESCE((SELECT max(seq) ...), 0). *)
Definition max_seq (l : list AttemptEventRow) : nat :=
  fold_right (fun e m => Nat.max (ev_seq e) m) 0%nat l.

(** [append]: one transaction under an advisory lock on the attempt. *)
Definition append (id : Id) (actor : EventActor) (type : AttemptEventType) (payload : Json)
    : prog Store nat :=
  act (fun s =>
    let seq := (max_seq (of_attempt id (events s)) + 1)%nat in
    let row := mkAttemptEventRow id seq (now s) actor type payload in
    inr (seq, s <| events ::= fun l => l ++ [row] |>)).

Definition appendTypedEvent (id : Id) (actor : EventActor) (type : AttemptEventType) (payload : Json)
    : prog Store unit :=
  append id actor type payload ;; Ret tt.

Definition by_seq : relation AttemptEventRow := fun a b => (ev_seq a <= ev_seq b)%nat.
#[export] Instance by_seq_dec : RelDecision by_seq.
Proof. intros a b. apply Nat.le_dec. Defined.
#[export] Instance by_seq_total : Total by_seq.
Proof. intros a b. unfold by_seq. lia. Qed.
#[export] Instance by_seq_trans : Transitive by_seq.
Proof. intros a b c. unfold by_seq. lia. Qed.

(** [ORDER BY seq ASC]. *)
Definition replay_rows (id : Id) (s : Store) : list AttemptEventRow :=
  merge_sort by_seq (of_attempt id (events s)).
Definition replay (id : Id) : prog Store (list AttemptEventRow) := select (replay_rows id).
Definition listSince (id : Id) (afterSeq : nat) : prog Store (list AttemptEventRow) :=
  select (fun s => List.filter (fun e => Nat.ltb afterSeq (ev_seq e)) (replay_rows id s)).

(** ** ReplayService *)
Definition empty_task : TaskState := mkTaskState T_PENDING None 0 0 false false.

(** Keys are [payload.task]; a payload without one maps to [undefined] ([None]). *)
Abbreviation TaskMap := (gmap (option string) TaskState) (only parsing).

Definition ensure (state : TaskMap) (task : option string) : TaskState :=
  default empty_task (state !! task).

(** [payload.level] of a HINT_REQUESTED event. *)
Definition payload_level (p : Json) : Z := Qfloor (default 0 (jnumber "level" p)).

Definition derive_step (state : TaskMap) (e : AttemptEventRow) : TaskMap :=
  let task := jstring "task" (ev_payload e) in
  let s := ensure state task in
  match ev_type e with
  | TASK_PASSED =>
      let s := s <| ts_attempts_count ::= Z.succ |> in
      <[task := if decide (ts_status s = T_PASSED) then s
                else s <| ts_status := T_PASSED |> <| ts_first_pass_at := Some (ev_occurred_at e) |>]> state
  | TASK_FAILED =>
      let s := s <| ts_attempts_count ::= Z.succ |> in
      <[task := if decide (ts_status s = T_PASSED) then s else s <| ts_status := T_FAILED |>]> state
  | TASK_SKIPPED =>
      <[task := s <| ts_status := T_SKIPPED |> <| ts_skipped := true |> <| ts_assisted := true |>]> state
  | HINT_REQUESTED =>
      <[task := s <| ts_hints_used_max_level ::= Z.max (payload_level (ev_payload e)) |>]> state
  | _ => state
  end.

Definition deriveTaskState (evs : list AttemptEventRow) : TaskMap := fold_left derive_step evs ∅.

(** DELETE of the attempt's rows, then one INSERT per derived task. *)
Definition delete_task_states (id : Id) (m : gmap (Id * string) TaskState) : gmap (Id * string) TaskState :=
  filter (fun kv => kv.1.1 <> id) m.
Definition insert_task_states (id : Id) (derived : list (option string * TaskState))
    (m : gmap (Id * string) TaskState) : option (gmap (Id * string) TaskState) :=
  foldr (fun kv acc => m' ← acc; k ← kv.1; Some (<[(id, k) := kv.2]> m')) (Some m) derived.

Definition rebuildForAttempt (id : Id) : prog Store nat :=
  let* evs := replay id in
  let derived := deriveTaskState evs in
  act (fun s =>
    match insert_task_states id (map_to_list derived) (delete_task_states id (task_states s)) with
    | Some m => inr (size derived, s <| task_states := m |>)
    | None => inl (DbError "null value in column task_key")
    end).

(** ** Sequence numbers

    The log of every attempt is numbered 1, 2, 3, ... in insertion order. *)
Definition log_ok (s : Store) : Prop :=
  forall id, ev_seq <$> of_attempt id (events s) = seq 1 (length (of_attempt id (events s))).

Lemma of_attempt_app id l l' : of_attempt id (l ++ l') = of_attempt id l ++ of_attempt id l'.
Proof. apply List.filter_app. Qed.

Lemma max_seq_of_numbered l : ev_seq <$> l = seq 1 (length l) -> max_seq l = length l.
Proof.
  intros H. assert (G : forall n l, ev_seq <$> l = seq n (length l) -> l <> [] ->
    max_seq l = (n + length l - 1)%nat).
  { clear. intros n l. revert n. induction l as [|e l IH]; intros n H N; [easy |].
    injection H as H1 H2. transitivity (Nat.max (ev_seq e) (max_seq l)); [reflexivity |].
    destruct l as [|e' l]; [cbn; lia |].
    rewrite (IH (S n) H2) by easy. cbn in *. lia. }
  destruct l as [|e l]; [easy |]. rewrite (G 1%nat) by easy. lia.
Qed.

(** *** Appending and reading back *)
Section Append.
Variables (id : Id) (actor : EventActor) (type : AttemptEventType) (payload : Json).

Definition appended (s : Store) : AttemptEventRow :=
  mkAttemptEventRow id (S (max_seq (of_attempt id (events s)))) (now s) actor type payload.

Lemma run_appendTypedEvent s :
  run (appendTypedEvent id actor type payload) s =
  (inr tt, s <| events ::= fun l => l ++ [appended s] |>).
Proof. unfold appended. cbn. now rewrite Nat.add_1_r. Qed.

Lemma appended_of_attempt s id' :
  of_attempt id' (events s ++ [appended s]) =
  if Nat.eqb id id' then of_attempt id' (events s) ++ [appended s] else of_attempt id' (events s).
Proof.
  rewrite of_attempt_app. cbn. destruct (Nat.eqb id id'); [easy | apply app_nil_r].
Qed.

Lemma append_log_ok s : log_ok s -> log_ok (snd (run (appendTypedEvent id actor type payload) s)).
Proof.
  intros H id'. rewrite run_appendTypedEvent. change (events (snd _)) with (events s ++ [appended s]).
  rewrite appended_of_attempt.
  destruct (Nat.eqb_spec id id') as [<-|]; [|apply H].
  rewrite fmap_app, length_app, H, seq_app. cbn.
  rewrite (max_seq_of_numbered _ (H id)). do 2 f_equal; lia.
Qed.
End Append.

(** A numbered log is already sorted, and has no two equal numbers. *)
Lemma numbered_ge n l : ev_seq <$> l = seq n (length l) -> Forall (fun e => n <= ev_seq e)%nat l.
Proof.
  revert n. induction l as [|e l IH]; intros n H; cbn in *; [constructor |].
  injection H as H1 H2. constructor; [lia |].
  eapply Forall_impl; [exact (IH _ H2) | cbn; lia].
Qed.

Lemma numbered_sorted n l : ev_seq <$> l = seq n (length l) -> StronglySorted by_seq l.
Proof.
  revert n. induction l as [|e l IH]; intros n H; cbn in *; [constructor |].
  injection H as H1 H2. constructor; [eauto |].
  eapply Forall_impl; [exact (numbered_ge _ _ H2) |]. unfold by_seq. intros e' L. cbn in L. lia.
Qed.

Lemma numbered_inj n l e e' : ev_seq <$> l = seq n (length l) -> e ∈ l -> e' ∈ l ->
  ev_seq e = ev_seq e' -> e = e'.
Proof.
  intros H I I' E. apply list_elem_of_lookup in I as [i Hi]. apply list_elem_of_lookup in I' as [j Hj].
  assert (N : NoDup (ev_seq <$> l)) by (rewrite H; apply NoDup_seq).
  assert (i = j) as ->; [|congruence].
  apply (NoDup_lookup _ i j (ev_seq e) N); rewrite list_lookup_fmap.
  - now rewrite Hi.
  - rewrite Hj. cbn. now f_equal.
Qed.

Lemma replay_log id s : log_ok s -> replay_rows id s = of_attempt id (events s).
Proof.
  intros H. specialize (H id). apply (StronglySorted_unique_strong by_seq).
  - intros e e' I I' L L'. unfold replay_rows in I. rewrite merge_sort_Permutation in I.
    apply (numbered_inj 1 (of_attempt id (events s))); auto. unfold by_seq in *. lia.
  - apply Sorted_StronglySorted; [apply _ | apply Sorted_merge_sort, _].
  - now apply numbered_sorted in H.
  - apply merge_sort_Permutation.
Qed.

(** ** The fold, task by task *)
Definition names_task (k : option string) (e : AttemptEventRow) : bool :=
  bool_decide (jstring "task" (ev_payload e) = k).
Definition is_event (ty : AttemptEventType) (k : option string) (e : AttemptEventRow) : bool :=
  bool_decide (ev_type e = ty) && names_task k e.
Definition is_validated (k : option string) (e : AttemptEventRow) : bool :=
  is_event TASK_PASSED k e || is_event TASK_FAILED k e.
Definition is_task_event (e : AttemptEventRow) : bool :=
  includes [TASK_PASSED; TASK_FAILED; TASK_SKIPPED; HINT_REQUESTED] (ev_type e).

Lemma derive_snoc evs e : deriveTaskState (evs ++ [e]) = derive_step (deriveTaskState evs) e.
Proof. unfold deriveTaskState. now rewrite fold_left_app. Qed.

Lemma derive_step_other state e k :
  names_task k e = false -> derive_step state e !! k = state !! k.
Proof.
  unfold names_task. rewrite bool_decide_eq_false. intros N.
  unfold derive_step. destruct (ev_type e); auto; now rewrite lookup_insert_ne.
Qed.

Lemma existsb_snoc {A} (p : A -> bool) l x : existsb p (l ++ [x]) = existsb p l || p x.
Proof. rewrite existsb_app. cbn. now rewrite orb_false_r. Qed.
Lemma count_snoc {A} (p : A -> bool) l x :
  Z.of_nat (length (List.filter p (l ++ [x]))) =
  (Z.of_nat (length (List.filter p l)) + (if p x then 1 else 0))%Z.
Proof. rewrite List.filter_app, length_app. cbn. destruct (p x); cbn; lia. Qed.
Lemma find_snoc {A} (p : A -> bool) l x :
  List.find p (l ++ [x]) =
  match List.find p l with Some y => Some y | None => if p x then Some x else None end.
Proof. induction l as [|y l IH]; cbn; [easy |]. now destruct (p y). Qed.
Lemma existsb_find {A} (p : A -> bool) l :
  existsb p l = match List.find p l with Some _ => true | None => false end.
Proof. induction l as [|y l IH]; cbn; [easy |]. now destruct (p y). Qed.

(** Levels of the hints requested for [k]. *)
Definition hint_levels (k : option string) (evs : list AttemptEventRow) : list Z :=
  (fun e => payload_level (ev_payload e)) <$> List.filter (is_event HINT_REQUESTED k) evs.

(** The effect of one of its events on a task's state. *)
Definition task_step (s : TaskState) (e : AttemptEventRow) : TaskState :=
  match ev_type e with
  | TASK_PASSED =>
      let s := s <| ts_attempts_count ::= Z.succ |> in
      if decide (ts_status s = T_PASSED) then s
      else s <| ts_status := T_PASSED |> <| ts_first_pass_at := Some (ev_occurred_at e) |>
  | TASK_FAILED =>
      let s := s <| ts_attempts_count ::= Z.succ |> in
      if decide (ts_status s = T_PASSED) then s else s <| ts_status := T_FAILED |>
  | TASK_SKIPPED => s <| ts_status := T_SKIPPED |> <| ts_skipped := true |> <| ts_assisted := true |>
  | HINT_REQUESTED => s <| ts_hints_used_max_level ::= Z.max (payload_level (ev_payload e)) |>
  | _ => s
  end.

Lemma ensure_snoc evs e k :
  ensure (deriveTaskState (evs ++ [e])) k =
  if names_task k e then task_step (ensure (deriveTaskState evs) k) e
  else ensure (deriveTaskState evs) k.
Proof.
  rewrite derive_snoc. destruct (names_task k e) eqn:N.
  - unfold names_task in N. rewrite bool_decide_eq_true in N. subst k.
    unfold derive_step, task_step, ensure at 1.
    destruct (ev_type e); rewrite ?lookup_insert_eq; easy.
  - unfold ensure. now rewrite derive_step_other.
Qed.

Lemma is_event_other ty k e : names_task k e = false -> is_event ty k e = false.
Proof. intros N. unfold is_event. now rewrite N, andb_false_r. Qed.
Lemma is_event_this ty k e : names_task k e = true -> is_event ty k e = bool_decide (ev_type e = ty).
Proof. intros N. unfold is_event. now rewrite N, andb_true_r. Qed.

Lemma hint_levels_snoc k evs e : hint_levels k (evs ++ [e]) = hint_levels k evs ++
  (if is_event HINT_REQUESTED k e then [payload_level (ev_payload e)] else []).
Proof. unfold hint_levels. rewrite List.filter_app, fmap_app. cbn. now destruct (is_event _ _ e). Qed.

(** ** What the fold computes *)
Definition task_counts (k : option string) (evs : list AttemptEventRow) (s : TaskState) : Prop :=
  ts_attempts_count s = Z.of_nat (length (List.filter (is_validated k) evs)) /\
  ts_hints_used_max_level s = fold_left Z.max (hint_levels k evs) 0%Z /\
  ts_skipped s = existsb (is_event TASK_SKIPPED k) evs /\
  ts_assisted s = existsb (is_event TASK_SKIPPED k) evs.

Ltac snoc_event k e :=
  try change (is_validated k e) with (is_event TASK_PASSED k e || is_event TASK_FAILED k e);
  destruct (names_task k e) eqn:N;
  rewrite ?(is_event_other _ k e N), ?(is_event_this _ k e N);
  [unfold task_step; destruct (ev_type e); decide_concrete; try case_decide; cbn in *; subst | ].

Lemma derive_counts evs k : task_counts k evs (ensure (deriveTaskState evs) k).
Proof.
  induction evs as [|e evs IH] using rev_ind; [easy |].
  unfold task_counts. rewrite count_snoc, existsb_snoc, hint_levels_snoc, fold_left_app, ensure_snoc.
  destruct IH as (I1 & I2 & I3 & I4).
  snoc_event k e; cbn in *; rewrite ?I1, ?I2, ?I3, ?I4, ?orb_true_r, ?orb_false_r;
    split_and!; cbn; lia || easy.
Qed.

(** Pass state is sticky, and the first pass is remembered, unless the task is skipped. *)
Lemma derive_status evs k :
  existsb (is_event TASK_SKIPPED k) evs = false ->
  let s := ensure (deriveTaskState evs) k in
  ts_status s = (if existsb (is_event TASK_PASSED k) evs then T_PASSED
                 else if existsb (is_event TASK_FAILED k) evs then T_FAILED else T_PENDING) /\
  ts_first_pass_at s = ev_occurred_at <$> List.find (is_event TASK_PASSED k) evs.
Proof.
  induction evs as [|e evs IH] using rev_ind; [easy |].
  rewrite !existsb_snoc, find_snoc, ensure_snoc, orb_false_iff. intros [Hs He].
  destruct (IH Hs) as [I1 I2]. clear IH. cbn zeta in *. revert He.
  rewrite (existsb_find (is_event TASK_PASSED k)) in *.
  snoc_event k e; intros He; try easy;
    destruct (List.find (is_event TASK_PASSED k) evs); cbn in *;
    destruct (existsb (is_event TASK_FAILED k) evs); cbn in *;
    rewrite ?I1, ?I2 in *; easy.
Qed.

(** ** The rebuild *)
Section InsertTaskStates.
Variable id : Id.
Implicit Types (l : list (option string * TaskState)) (m : gmap (Id * string) TaskState).

Lemma insert_task_states_spec l m :
  NoDup l.*1 -> Forall is_Some l.*1 ->
  exists m', insert_task_states id l m = Some m' /\
    (forall k st, (Some k, st) ∈ l -> m' !! (id, k) = Some st) /\
    (forall j k, j <> id \/ Some k ∉ l.*1 -> m' !! (j, k) = m !! (j, k)).
Proof.
  induction l as [|[o st] l IH]; intros ND F; cbn [fmap list_fmap fst] in *.
  - exists m. split_and!; [easy | intros k st H; now apply elem_of_nil in H | easy].
  - inversion ND as [|? ? Hn ND']; inversion F as [|? ? [k0 ->] F']; subst.
    destruct (IH ND' F') as (m' & E & H1 & H2).
    exists (<[(id, k0) := st]> m'). split_and!.
    + cbn. change (foldr _ _ l) with (insert_task_states id l m). now rewrite E.
    + intros k st' [ [= -> ->] | I]%elem_of_cons; [apply lookup_insert_eq |].
      rewrite lookup_insert_ne; [auto |]. intros [= ->]. apply Hn.
      now apply (list_elem_of_fmap_2 fst) in I.
    + intros j k N. rewrite elem_of_cons in N. rewrite lookup_insert_ne; [apply H2; intuition auto |].
      intros [= <- <-]. intuition auto.
Qed.

Lemma delete_task_states_this m k : delete_task_states id m !! (id, k) = None.
Proof. apply map_lookup_filter_None. right. intros st _. cbn. auto. Qed.
Lemma delete_task_states_other m j k : j <> id -> delete_task_states id m !! (j, k) = m !! (j, k).
Proof.
  intros N. unfold delete_task_states. destruct (m !! (j, k)) eqn:E.
  - now apply map_lookup_filter_Some.
  - apply map_lookup_filter_None. now left.
Qed.
End InsertTaskStates.

(** Every task event of the log names its task. *)
Definition tasks_named (l : list AttemptEventRow) : Prop :=
  Forall (fun e => is_task_event e = true -> is_Some (jstring "task" (ev_payload e))) l.

Lemma derive_keys_named l : tasks_named l -> forall k st, deriveTaskState l !! k = Some st -> is_Some k.
Proof.
  induction l as [|e l IH] using rev_ind; [easy |].
  unfold tasks_named. rewrite Forall_app, Forall_singleton. intros [F He] k st.
  rewrite derive_snoc. unfold derive_step, is_task_event in *.
  destruct (ev_type e); try apply (IH F);
    intros [ [<- _] | [_ E] ]%lookup_insert_Some; eauto using IH; now apply He.
Qed.

(** The rebuilt rows: what the events say for this attempt, and nothing else. *)
Definition rebuilt (id : Id) (s : Store) (m : gmap (Id * string) TaskState) : Prop :=
  (forall k, m !! (id, k) = deriveTaskState (of_attempt id (events s)) !! Some k) /\
  (forall j k, j <> id -> m !! (j, k) = task_states s !! (j, k)).

Lemma run_rebuild id s :
  log_ok s -> tasks_named (of_attempt id (events s)) ->
  exists m, rebuilt id s m /\
    run (rebuildForAttempt id) s =
    (inr (size (deriveTaskState (of_attempt id (events s)))), s <| task_states := m |>).
Proof.
  intros L N. unfold rebuildForAttempt, replay. autorewrite with run. rewrite replay_log by easy.
  set (d := deriveTaskState _).
  destruct (insert_task_states_spec id (map_to_list d) (delete_task_states id (task_states s)))
    as (m & E & H1 & H2).
  - apply NoDup_fst_map_to_list.
  - apply Forall_forall. intros k [ [k' st] [-> I] ]%list_elem_of_fmap.
    apply elem_of_map_to_list in I. exact (derive_keys_named _ N _ _ I).
  - exists m. split; [split |].
    + intros k. change (deriveTaskState _) with d. destruct (d !! Some k) as [st|] eqn:Ek.
      * apply H1. now apply elem_of_map_to_list.
      * rewrite H2; [apply delete_task_states_this |]. right.
        intros [ [k' st] [Ek' I] ]%list_elem_of_fmap. apply elem_of_map_to_list in I. cbn in Ek'. congruence.
    + intros j k Hj. rewrite H2 by auto. now apply delete_task_states_other.
    + rewrite E. reflexivity.
Qed.

Lemma rebuilt_unique id s m m' : rebuilt id s m -> rebuilt id s m' -> m = m'.
Proof.
  intros [H1 H2] [H1' H2']. apply map_eq. intros [j k].
  destruct (decide (j = id)) as [->|]; [now rewrite H1, H1' | now rewrite H2, H2'].
Qed.

(** ** The properties *)

(** Events are numbered 1, 2, 3, ... per attempt: appending to a well-numbered
    log keeps it so, gives the event the next number, and a replay returns the
    events of the attempt in that order, the new one last; other attempts' replays
    do not change. *)
Theorem append_replay id actor ty payload s : log_ok s ->
  exists s' e, run (append id actor ty payload) s = (inr (ev_seq e), s') /\
    ev_seq e = S (length (replay_rows id s)) /\ ev_type e = ty /\ ev_payload e = payload /\
    replay_rows id s' = replay_rows id s ++ [e] /\ log_ok s' /\
    forall j, j <> id -> replay_rows j s' = replay_rows j s.
Proof.
  intros L. pose proof (append_log_ok id actor ty payload s L) as L'. rewrite run_appendTypedEvent in L'. cbn [snd] in L'.
  exists (s <| events ::= fun l => l ++ [appended id actor ty payload s] |>), (appended id actor ty payload s).
  split; [unfold append, appended; rewrite run_act; cbn [ev_seq]; now rewrite Nat.add_1_r |].
  rewrite !replay_log by easy. change (events (set_field _ _ s)) with (events s ++ [appended id actor ty payload s]).
  split; [cbn [ev_seq appended]; now rewrite (max_seq_of_numbered _ (L id)) |]. do 2 (split; [reflexivity |]).
  split; [now rewrite appended_of_attempt, Nat.eqb_refl |]. split; [exact L' |].
  intros j N. rewrite !replay_log by easy. change (events (set_field _ _ s)) with (events s ++ [appended id actor ty payload s]).
  rewrite appended_of_attempt. now rewrite (proj2 (Nat.eqb_neq id j)) by easy.
Qed.

Lemma append_replay_witness : exists s' e,
  run (append 9 SYSTEM ENV_READY JNull) empty_store = (inr (ev_seq e), s') /\ ev_seq e = 1%nat.
Proof.
  destruct (append_replay 9 SYSTEM ENV_READY JNull empty_store) as (s' & e & E & S & _); [intros id; reflexivity |].
  exists s', e. split; [exact E | exact S].
Defined.

(** C27: What the replay derives for a task: as many attempts as TASK_PASSED and
    TASK_FAILED events, the highest hint level requested, skipped and assisted
    exactly when a TASK_SKIPPED was logged; without a skip it is passed for ever
    from its first TASK_PASSED on, whose time is remembered, else failed after a
    TASK_FAILED, else pending. *)
Theorem task_state_from_log evs k :
  let s := ensure (deriveTaskState evs) k in
  task_counts k evs s /\
  if existsb (is_event TASK_SKIPPED k) evs then ts_skipped s = true
  else ts_status s = (if existsb (is_event TASK_PASSED k) evs then T_PASSED
                      else if existsb (is_event TASK_FAILED k) evs then T_FAILED else T_PENDING) /\
       ts_first_pass_at s = ev_occurred_at <$> List.find (is_event TASK_PASSED k) evs.
Proof.
  pose proof (derive_counts evs k) as C. split; [exact C |].
  destruct (existsb (is_event TASK_SKIPPED k) evs) eqn:E; [|now apply derive_status].
  destruct C as (_ & _ & C & _). now rewrite C, E.
Qed.

(** A rebuild replaces exactly the attempt's task states by what its events
    say, leaves every other attempt's alone, and rebuilding again changes nothing. *)
Theorem rebuild_idempotent id s : log_ok s -> tasks_named (of_attempt id (events s)) ->
  exists n s', run (rebuildForAttempt id) s = (inr n, s') /\ rebuilt id s (task_states s') /\
    events s' = events s /\ run (rebuildForAttempt id) s' = (inr n, s').
Proof.
  intros L N. destruct (run_rebuild id s L N) as (m & R & E). eexists _, _. split; [exact E |].
  split; [exact R |]. split; [reflexivity |].
  set (s' := s <| task_states := m |>). destruct (run_rebuild id s') as (m' & R' & E'); [exact L | exact N |].
  rewrite E'. change (events s') with (events s). f_equal.
  assert (m' = m) as ->; [|now destruct s]. apply map_eq. intros [j k]. destruct R as [R1 R2], R' as [R1' R2'].
  destruct (decide (j = id)) as [->|Nj]; [now rewrite R1, R1' | now rewrite R2'].
Qed.

Lemma rebuild_idempotent_witness : exists n s',
  let log := [mkAttemptEventRow 9 1 5 SYSTEM TASK_PASSED (JObj [("task"%string, JStr "t1")])] in
  run (rebuildForAttempt 9) (empty_store <| events := log |>) = (inr n, s') /\
  run (rebuildForAttempt 9) s' = (inr n, s').
Proof.
  set (log := [_]). destruct (rebuild_idempotent 9 (empty_store <| events := log |>)) as (n & s' & E & _ & _ & E').
  - intros id. destruct (decide (id = 9)%nat) as [->|N]; [reflexivity |].
    unfold of_attempt. cbn [events set_field log List.filter ev_attempt_id]. now rewrite (proj2 (Nat.eqb_neq 9 id)) by congruence.
  - repeat constructor. intros _. eexists. reflexivity.
  - exists n, s'. split; [exact E | exact E'].
Defined.
