(* ===== verification/Bkt.v ===== *)
(** * Bayesian knowledge tracing

    skill/bkt.service.ts: the update of a mastery probability on one piece of
    evidence, its lazy decay and the mastery bands.  The bounds are proved for
    every [Rounding], the direction of the update for exact arithmetic (a
    rounded posterior can fall an ulp short of its prior). *)
From Stdlib Require Import Qpower.
From S2P Require Import Prelude JsNum Binary64 Effects Schema.

(** [Math.pow] on the two bases the source uses, 0.5 and 10.  ECMAScript leaves
    the value of a fractional power to the implementation; this is what the
    source relies on. *)
Class MathPow := {
  pow_half : Q -> Q;
  pow_ten : Q -> Q;
  pow_half_unit : forall x, 0 <= x -> 0 <= pow_half x <= 1;
  pow_half_anti : forall x y, x <= y -> pow_half y <= pow_half x;
  pow_ten_nonneg : forall x, 0 <= pow_ten x;
  pow_ten_mono : forall x y, x <= y -> pow_ten x <= pow_ten y
}.

Record BktParams := mkBktParams { pInit : Q; pTransit : Q; pSlip : Q; pGuess : Q }.

Record BktUpdateInput := mkBktUpdateInput {
  priorP : Q; params : BktParams; score : Q; weight : Q; passThreshold : Q;
  difficultyAdjust : Q; wasGenuineAttempt : bool }.
#[export] Instance eta_BktUpdateInput : Eta BktUpdateInput := fun i =>
  mkBktUpdateInput (priorP i) (params i) (score i) (weight i) (passThreshold i)
    (difficultyAdjust i) (wasGenuineAttempt i).

Record BktUpdateResult := mkBktUpdateResult {
  pBefore : Q; pAfter : Q; delta : Q; evidenceStrength : Q }.

Section BktService.
Context `{Rounding}.

Definition P_MIN : Q := lit (1 # 1000000).
Definition P_MAX : Q := 1 -! lit (1 # 1000000).

(** Step 1: binarise with partial credit. *)
Definition evidence_strength (i : BktUpdateInput) : Q :=
  let denom := 1 -! passThreshold i in
  let rawEvidence :=
    if 0 <? denom then (weight i *! (score i -! passThreshold i)) /! denom else 0 in
  clamp rawEvidence (-1) 1.

(** Step 2: difficulty-adjust. *)
Definition adj_magnitude (i : BktUpdateInput) : Q := clamp (jabs (difficultyAdjust i)) 0 (1 # 2).
Definition adjusted_guess (i : BktUpdateInput) : Q :=
  if 0 <? difficultyAdjust i then pGuess (params i) *! (1 -! adj_magnitude i)
  else pGuess (params i) *! (1 +! adj_magnitude i).
Definition adjusted_slip (i : BktUpdateInput) : Q :=
  if 0 <? difficultyAdjust i then jmin (pSlip (params i) *! (1 +! adj_magnitude i)) (lit (9 # 10))
  else pSlip (params i) *! (1 -! adj_magnitude i).

(** Step 3: Bayes; [None] when the quotient is no finite number. *)
Definition bayes (passed : bool) (pPrior pGuess pSlip : Q) : option Q :=
  let likelihoodGivenMastery := if passed then 1 -! pSlip else pSlip in
  let likelihoodGivenNoMastery := if passed then pGuess else 1 -! pGuess in
  let numerator := pPrior *! likelihoodGivenMastery in
  let denominator := numerator +! (1 -! pPrior) *! likelihoodGivenNoMastery in
  if Qeq_bool denominator 0 then None else Some (numerator /! denominator).

(** Steps 3 and 4: blend by the strength, then the learning transit. *)
Definition blend (pPrior posterior strength : Q) : Q := pPrior +! (posterior -! pPrior) *! strength.
Definition transit (p : BktParams) (blended : Q) : Q := blended +! (1 -! blended) *! pTransit p.

Definition update (i : BktUpdateInput) : option BktUpdateResult :=
  let evidenceStrength := evidence_strength i in
  let passed := 0 <=? evidenceStrength in
  let pPrior := clamp (priorP i) P_MIN P_MAX in
  pAfter ← (if wasGenuineAttempt i then
              posterior ← bayes passed pPrior (adjusted_guess i) (adjusted_slip i);
              Some (transit (params i) (blend pPrior posterior (jabs evidenceStrength)))
            else Some pPrior);
  let clampedAfter := clamp pAfter P_MIN P_MAX in
  Some (mkBktUpdateResult pPrior clampedAfter (clampedAfter -! pPrior) evidenceStrength).

(** Dates are in milliseconds.  A zero half life divides to [Infinity], and
    [Math.pow(0.5, Infinity)] is 0. *)
Definition daysSince (lastEvidenceAt now : Z) : Q :=
  inject_Z (now - lastEvidenceAt) /! inject_Z (1000 * 60 * 60 * 24).
Definition decayedMastery `{MathPow} (pMastery pInit : Q) (lastEvidenceAt halfLifeDays now : Z) : Q :=
  let daysSince := daysSince lastEvidenceAt now in
  if daysSince <=? 0 then pMastery
  else
    let decayFactor := if Z.eqb halfLifeDays 0 then 0 else pow_half (daysSince /! inject_Z halfLifeDays) in
    pInit +! (pMastery -! pInit) *! decayFactor.

Definition bandFor (pMastery : Q) : MasteryBand :=
  if pMastery <? lit (3 # 10) then Novice
  else if pMastery <? lit (55 # 100) then Developing
  else if pMastery <? lit (75 # 100) then Competent
  else if pMastery <? lit (9 # 10) then Proficient
  else Mastered.
End BktService.

(** A [MathPow]: powers at the integer part of the exponent. *)
Lemma Qpower_le_exp (b : Q) (m n : Z) : 1 <= b -> (m <= n)%Z -> Qpower b m <= Qpower b n.
Proof. intros B L. now apply Qpower_le_compat_l. Qed.

Program Definition step_pow : MathPow :=
  {| pow_half x := Qpower 2 (- Qfloor x); pow_ten x := Qpower 10 (Qfloor x) |}.
Next Obligation.
  intros x L. assert (0 <= Qfloor x)%Z by (change 0%Z with (Qfloor 0); now apply Qfloor_resp_le).
  split; [now apply Qpower_0_le | apply (Qpower_le_exp 2 _ 0); [easy | lia]].
Qed.
Next Obligation.
  intros x y L. apply Qfloor_resp_le in L. apply Qpower_le_exp; [easy | lia].
Qed.
Next Obligation. intros x. now apply Qpower_0_le. Qed.
Next Obligation. intros x y L. apply Qpower_le_exp; [easy | now apply Qfloor_resp_le]. Qed.

(** The seeded skills (migration 0001 defaults) are well inside this range. *)
Definition sane (p : BktParams) : Prop :=
  0 <= pTransit p <= 1 /\ 0 <= pSlip p <= 9 # 10 /\ 0 <= pGuess p <= 6 # 10.

(** Guessing and slipping together are rarer than knowing. *)
Definition informative (p : BktParams) : Prop :=
  0 <= pTransit p <= 1 /\ 0 <= pSlip p /\ 0 <= pGuess p /\ pSlip p + pGuess p <= 2 # 3.

Definition default_params : BktParams := mkBktParams (15 # 100) (25 # 100) (1 # 10) (8 # 100).

Definition band_rank (b : MasteryBand) : nat :=
  match b with Novice => 0 | Developing => 1 | Competent => 2 | Proficient => 3 | Mastered => 4 end.

(** ** Bounds, for every rounding *)
Section Bounds.
Context `{Rounding}.

Lemma P_MIN_lb : 1 # 1048576 <= P_MIN.
Proof. dyadic 1%Z 20%Z. lra. Qed.
Lemma P_MIN_ub : P_MIN <= 1 # 2.
Proof. apply rnd_half_ub. easy. Qed.
Lemma P_MAX_lb : 1 # 2 <= P_MAX.
Proof. apply rnd_half_lb. pose proof P_MIN_ub. unfold P_MIN in *. lra. Qed.
Lemma P_MAX_ub : P_MAX <= 1048575 # 1048576.
Proof.
  dyadic 1048575%Z 20%Z. pose proof P_MIN_lb. unfold P_MIN in *. lra.
Qed.
Lemma P_MIN_MAX : P_MIN <= P_MAX.
Proof. pose proof P_MIN_ub. pose proof P_MAX_lb. lra. Qed.

Lemma adj_magnitude_bounds i : 0 <= adj_magnitude i <= 1 # 2.
Proof. apply clamp_bounds. easy. Qed.

Lemma one_plus_adj i : 1 <= 1 +! adj_magnitude i <= 3 # 2.
Proof.
  pose proof (adj_magnitude_bounds i). split; [dyadic 1%Z 0%Z; lra |].
  dyadic 3%Z 1%Z. lra.
Qed.
Lemma one_minus_adj i : 1 # 2 <= 1 -! adj_magnitude i <= 1.
Proof.
  pose proof (adj_magnitude_bounds i).
  split; [apply rnd_half_lb; lra | apply rnd_le_1; lra].
Qed.

Lemma rnd_15_16 x : 0 <= x <= 9 # 10 -> 0 <= rnd x <= 15 # 16.
Proof.
  intros [L U]. split; [now apply rnd_nonneg |].
  dyadic 15%Z 4%Z. lra.
Qed.

Lemma adjusted_guess_bounds i : sane (params i) -> 0 <= adjusted_guess i <= 15 # 16.
Proof.
  intros (_ & _ & G). unfold adjusted_guess, mul.
  pose proof (one_plus_adj i). pose proof (one_minus_adj i).
  destruct (_ <? _); apply rnd_15_16; nra.
Qed.

Lemma adjusted_slip_bounds i : sane (params i) -> 0 <= adjusted_slip i <= 15 # 16.
Proof.
  intros (_ & S & _). unfold adjusted_slip, mul.
  pose proof (one_plus_adj i). pose proof (one_minus_adj i).
  pose proof (rnd_15_16 (9 # 10) ltac:(lra)).
  destruct (_ <? _); [|apply rnd_15_16; nra].
  assert (0 <= rnd (pSlip (params i) * (1 +! adj_magnitude i))) by (apply rnd_nonneg; nra).
  unfold lit. qlra.
Qed.

Lemma one_minus_16 x : x <= 15 # 16 -> 1 # 16 <= 1 -! x.
Proof.
  intros L. dyadic 1%Z 4%Z. lra.
Qed.

Lemma mul_16 x y : 1 # 1048576 <= x -> 1 # 16 <= y -> 1 # 16777216 <= x *! y.
Proof.
  intros X Y. dyadic 1%Z 24%Z. nra.
Qed.

(** Bayes' rule never divides by zero on sane parameters. *)
Lemma bayes_total passed p g s :
  P_MIN <= p <= P_MAX -> 0 <= g <= 15 # 16 -> 0 <= s <= 15 # 16 ->
  exists q, bayes passed p g s = Some q /\ 0 <= q <= 1.
Proof.
  intros Hp Hg Hs. pose proof P_MIN_lb. pose proof P_MAX_ub.
  assert (L : 1 # 1048576 <= 1 -! p).
  { dyadic 1%Z 20%Z. lra. }
  pose proof (one_minus_16 g ltac:(lra)). pose proof (one_minus_16 s ltac:(lra)).
  unfold bayes. set (n := p *! _). set (m := (1 -! p) *! _).
  assert (N : 0 <= n) by (subst n; destruct passed; apply mul_nonneg; lra).
  assert (M : 0 <= m) by (subst m; destruct passed; apply mul_nonneg; lra).
  assert (S : 1 # 16777216 <= n + m).
  { destruct passed.
    - assert (1 # 16777216 <= n) by (apply mul_16; lra). lra.
    - assert (1 # 16777216 <= m) by (apply mul_16; lra). lra. }
  assert (D : 1 # 16777216 <= n +! m).
  { dyadic 1%Z 24%Z. lra. }
  assert (n <= n +! m).
  { apply rnd_ge_fix; [apply rnd_idem | lra]. }
  destruct (Qeq_bool (n +! m) 0) eqn:E; [apply Qeq_bool_iff in E; lra |].
  exists (n /! (n +! m)). split; [easy |].
  split; [apply div_nonneg; lra | apply div_le_1; lra].
Qed.
End Bounds.

(** ** Direction, in exact arithmetic *)
Section Direction.
#[local] Existing Instance exact.

Lemma quot_ge p n d : 0 < d -> p * d <= n -> p <= n / d.
Proof. intros D L. now apply Qle_shift_div_l. Qed.
Lemma quot_le p n d : 0 < d -> n <= p * d -> n / d <= p.
Proof. intros D L. now apply Qle_shift_div_r. Qed.

Lemma Qnz_pos x : 0 <= x -> ~ x == 0 -> 0 < x.
Proof. intros L N. apply Qle_lteq in L as [L|L]; [easy | now symmetry in L]. Qed.

(** A pass raises the posterior, a failure lowers it. *)
Lemma bayes_direction passed p g s q :
  0 <= p <= 1 -> 0 <= g -> 0 <= s -> g + s <= 1 ->
  bayes passed p g s = Some q -> if passed then p <= q else q <= p.
Proof.
  unfold bayes, mul, add, sub, div. cbn. intros Hp Hg Hs L.
  destruct (Qeq_bool _ 0) eqn:E; [easy | intros [= <-]]. apply Qeq_bool_neq in E.
  assert (0 <= p * (1 - p) * (1 - g - s)) by (apply Qmult_le_0_compat; [nra | lra]).
  destruct passed.
  - assert (0 <= p * (1 - s) + (1 - p) * g) by nra. apply quot_ge; [now apply Qnz_pos | nra].
  - assert (0 <= p * s + (1 - p) * (1 - g)) by nra. apply quot_le; [now apply Qnz_pos | nra].
Qed.

Lemma informative_adjusted i : informative (params i) ->
  0 <= adjusted_guess i /\ 0 <= adjusted_slip i /\ adjusted_guess i + adjusted_slip i <= 1.
Proof.
  intros (_ & S & G & L). unfold adjusted_guess, adjusted_slip.
  pose proof (adj_magnitude_bounds i). set (a := adj_magnitude i) in *.
  unfold mul, add, sub, lit. cbn.
  destruct (_ <? _); [|split_and!; nra].
  split_and!; [nra | qminmax; nra |].
  assert (jmin (pSlip (params i) * (1 + a)) (9 # 10) <= pSlip (params i) * (1 + a)) by apply jmin_le_l. nra.
Qed.

Lemma transit_mono (p : BktParams) b b' : pTransit p <= 1 -> b <= b' -> transit p b <= transit p b'.
Proof. unfold transit, add, sub, mul. cbn. intros. nra. Qed.
Lemma transit_ge (p : BktParams) b : 0 <= pTransit p -> b <= 1 -> b <= transit p b.
Proof. unfold transit, add, sub, mul. cbn. intros. nra. Qed.

Lemma evidence_mono i s s' : 0 <= weight i -> s <= s' ->
  evidence_strength (i <| score := s |>) <= evidence_strength (i <| score := s' |>).
Proof.
  intros W L. unfold evidence_strength. cbn. apply clamp_mono. unfold mul, sub, div. cbn.
  destruct (_ <? _) eqn:D; [|apply Qle_refl]. qprop.
  apply Qle_shift_div_l; [easy |]. unfold Qdiv. rewrite <- Qmult_assoc, (Qmult_comm (/ _)), Qmult_inv_r by lra. nra.
Qed.

(** The mastery after the Bayes step, as a function of the evidence strength. *)
Definition moved (i : BktUpdateInput) (e : Q) : option Q :=
  let pPrior := clamp (priorP i) P_MIN P_MAX in
  posterior ← bayes (0 <=? e) pPrior (adjusted_guess i) (adjusted_slip i);
  Some (blend pPrior posterior (jabs e)).

Lemma moved_direction i e m : informative (params i) -> -(1) <= e <= 1 ->
  moved i e = Some m ->
  if 0 <=? e then clamp (priorP i) P_MIN P_MAX <= m else m <= clamp (priorP i) P_MIN P_MAX.
Proof.
  intros I E. unfold moved. destruct (informative_adjusted i I) as (G & S & L).
  set (p := clamp _ _ _). assert (P : 0 <= p <= 1).
  { pose proof (clamp_bounds (priorP i) P_MIN P_MAX ltac:(easy)). fold p in H.
    unfold P_MIN, P_MAX, lit, sub in H. cbn in H. lra. }
  destruct (bayes _ _ _ _) as [q|] eqn:B; [|easy]. intros [= <-].
  pose proof (bayes_direction _ _ _ _ _ P G S L B) as D.
  unfold blend, add, sub, mul, jabs. cbn. pose proof (Qabs_nonneg e).
  destruct (0 <=? e); nra.
Qed.

Lemma moved_mono i e e' m m' :
  informative (params i) -> -(1) <= e -> e <= e' -> e' <= 1 ->
  moved i e = Some m -> moved i e' = Some m' -> m <= m'.
Proof.
  intros I L1 L L2 M M'.
  pose proof (moved_direction i e m I ltac:(lra) M) as D.
  pose proof (moved_direction i e' m' I ltac:(lra) M') as D'.
  unfold moved in *. set (p := clamp _ _ _) in *.
  destruct (0 <=? e) eqn:E, (0 <=? e') eqn:E'; qprop; try lra.
  - destruct (bayes _ _ _ _) as [q|]; [|easy]. injection M as <-. injection M' as <-.
    unfold blend, add, sub, mul, jabs in *. cbn in *. rewrite !Qabs_pos in * by easy.
    destruct (Qlt_le_dec 0 e) as [P|P]; [assert (p <= q) by nra; nra |].
    assert (e == 0) by lra. rewrite H in *. lra.
  - destruct (bayes _ _ _ _) as [q|]; [|easy]. injection M as <-. injection M' as <-.
    unfold blend, add, sub, mul, jabs in *. cbn in *. rewrite !Qabs_neg in * by lra. nra.
Qed.
End Direction.

(** ** Properties *)
Section Decomposed.
Context `{Rounding}.

Lemma update_unfold i r : update i = Some r ->
  pBefore r = clamp (priorP i) P_MIN P_MAX /\ evidenceStrength r = evidence_strength i /\
  delta r = pAfter r -! pBefore r /\
  if wasGenuineAttempt i
  then exists q, bayes (0 <=? evidence_strength i) (pBefore r) (adjusted_guess i) (adjusted_slip i) = Some q /\
       pAfter r = clamp (transit (params i) (blend (pBefore r) q (jabs (evidence_strength i)))) P_MIN P_MAX
  else pAfter r = clamp (pBefore r) P_MIN P_MAX.
Proof.
  unfold update. cbn [mbind option_bind]. destruct (wasGenuineAttempt i).
  - destruct (bayes _ _ _ _) as [q|] eqn:B; cbn [mbind option_bind]; [|easy].
    intros [= <-]. split_and!; [easy.. |]. now exists q.
  - intros [= <-]. split_and!; easy.
Qed.

Lemma clamp_idem x lo hi : lo <= hi -> clamp (clamp x lo hi) lo hi == clamp x lo hi.
Proof. intros. qlra. Qed.

Lemma update_defined i : sane (params i) -> exists r, update i = Some r.
Proof.
  intros S. pose proof (clamp_bounds (priorP i) _ _ P_MIN_MAX) as P. unfold update.
  destruct (wasGenuineAttempt i); [|eexists; reflexivity].
  destruct (bayes_total (0 <=? evidence_strength i) _ _ _ P
    (adjusted_guess_bounds i S) (adjusted_slip_bounds i S)) as (q & -> & _).
  eexists. reflexivity.
Qed.

Lemma update_range i r : update i = Some r ->
  P_MIN <= pBefore r <= P_MAX /\ P_MIN <= pAfter r <= P_MAX /\ -(1) <= evidenceStrength r <= 1.
Proof.
  intros E. destruct (update_unfold i r E) as (B & V & _ & A). rewrite B, V.
  split_and!; try (apply clamp_bounds; first [apply P_MIN_MAX | easy]);
    (destruct (wasGenuineAttempt i); [destruct A as (q & _ & A)|]; rewrite A; apply clamp_bounds, P_MIN_MAX).
Qed.

Lemma delta_range i r : update i = Some r -> -(1) <= delta r <= 1.
Proof.
  intros E. destruct (update_unfold i r E) as (_ & _ & D & _). destruct (update_range i r E) as (B & A & _).
  rewrite D. pose proof P_MIN_lb. pose proof P_MAX_ub.
  split; [apply (rnd_lb _ (-1)) | apply (rnd_ub _ 1)]; try easy;
    [change (inject_Z (-1)) with (-(1)) | change (inject_Z 1) with 1]; lra.
Qed.
End Decomposed.

Lemma update_moved i r :
  @update exact i = Some r -> wasGenuineAttempt i = true ->
  exists m, moved i (@evidence_strength exact i) = Some m /\
    pAfter r = clamp (@transit exact (params i) m) (@P_MIN exact) (@P_MAX exact).
Proof.
  intros U G. destruct (@update_unfold exact i r U) as (B & _ & _ & A). rewrite G in A.
  destruct A as (q & Eq & A). eexists. split; [|exact A].
  unfold moved. rewrite <- B, Eq. reflexivity.
Qed.

(** C24: On sane BKT parameters an update never divides by zero: it returns a
    result, whatever the score, weight, threshold and difficulty adjustment,
    in which both mastery values lie between 1e-6 and 1 - 1e-6 and the evidence
    strength between -1 and 1; a non-genuine attempt leaves mastery where it
    was.  Holds for every rounding, so for doubles. *)
Theorem bkt_update_bounds `{Rounding} i :
  sane (params i) ->
  exists r, update i = Some r /\
    P_MIN <= pBefore r <= P_MAX /\ P_MIN <= pAfter r <= P_MAX /\
    -(1) <= evidenceStrength r <= 1 /\
    (wasGenuineAttempt i = false -> pAfter r == pBefore r /\ delta r == 0).
Proof.
  intros S. destruct (update_defined i S) as [r E]. exists r. split; [easy |].
  destruct (update_range i r E) as (PB & PA & V). split_and!; try easy. intros N.
  destruct (update_unfold i r E) as (B & _ & D & A). rewrite N in A.
  rewrite D, A, B, clamp_idem by apply P_MIN_MAX.
  split; [apply Qeq_refl |]. unfold sub, Qminus. rewrite Qplus_opp_r. apply rnd_0.
Qed.

(** In exact arithmetic and on informative parameters, a genuine passing
    score never lowers mastery, and a failing one never leaves it above what
    the learning transit alone would give. *)
Theorem bkt_update_direction i r :
  informative (params i) -> wasGenuineAttempt i = true -> @update exact i = Some r ->
  if 0 <=? evidenceStrength r then pBefore r <= pAfter r
  else pAfter r <= clamp (@transit exact (params i) (pBefore r)) (@P_MIN exact) (@P_MAX exact).
Proof.
  intros I G U. destruct (@update_unfold exact i r U) as (B & V & _ & _).
  destruct (update_moved i r U G) as (b & M & A). rewrite V, A.
  assert (E : -(1) <= @evidence_strength exact i <= 1) by now apply clamp_bounds.
  pose proof (moved_direction i _ _ I E M) as D. rewrite <- B in D. destruct I as (T & _).
  destruct (0 <=? _); [|apply clamp_mono, transit_mono; lra].
  assert (C : @P_MIN exact <= pBefore r <= @P_MAX exact) by (rewrite B; now apply clamp_bounds).
  assert (K : pBefore r <= @transit exact (params i) b).
  { unfold transit, add, sub, mul. cbn. destruct (Qlt_le_dec 1 b); [|nra].
    assert (pBefore r <= 1) by (unfold P_MAX, lit, sub in C; cbn in C; lra). nra. }
  unfold clamp, jmin, jmax. repeat qcase1; qprop; lra.
Qed.

(** In exact arithmetic a higher score on the same evidence never yields a
    lower mastery (across the pass threshold too). *)
Theorem bkt_update_monotone i s s' r r' :
  informative (params i) -> 0 <= weight i -> s <= s' ->
  @update exact (i <| score := s |>) = Some r -> @update exact (i <| score := s' |>) = Some r' ->
  pAfter r <= pAfter r'.
Proof.
  intros I W L U U'. pose proof (evidence_mono i s s' W L) as M.
  destruct (wasGenuineAttempt i) eqn:G.
  - destruct (update_moved _ r U G) as (m & Em & ->), (update_moved _ r' U' G) as (m' & Em' & ->).
    apply clamp_mono, transit_mono; [apply I |].
    refine (moved_mono i _ _ m m' I _ M _ Em Em'); now apply clamp_bounds.
  - destruct (@update_unfold exact _ r U) as (B & _ & _ & A), (@update_unfold exact _ r' U') as (B' & _ & _ & A').
    cbn [wasGenuineAttempt set_field] in A, A'. rewrite G in A, A'. rewrite A, A', B, B'. apply Qle_refl.
Qed.

Lemma lt_antitone p p' t : p <= p' -> (p' <? t) = true -> (p <? t) = true.
Proof. intros L H. apply Qltb_lt in H. apply Qltb_lt. lra. Qed.

Lemma bandFor_mono `{Rounding} p p' : p <= p' -> (band_rank (bandFor p) <= band_rank (bandFor p'))%nat.
Proof.
  intros L. unfold bandFor.
  pose proof (lt_antitone p p' (lit (3 # 10)) L). pose proof (lt_antitone p p' (lit (55 # 100)) L).
  pose proof (lt_antitone p p' (lit (75 # 100)) L). pose proof (lt_antitone p p' (lit (9 # 10)) L).
  repeat (match goal with |- context [if ?b then _ else _] => destruct b end; cbn; try lia);
  intuition discriminate.
Qed.

Lemma bandFor_competent `{Rounding} p :
  (lit (55 # 100) <=? p) = true <-> (2 <= band_rank (bandFor p))%nat.
Proof.
  unfold bandFor. rewrite Qleb_le.
  assert (lit (3 # 10) <= lit (55 # 100)) by now apply lit_mono.
  assert (lit (55 # 100) <= lit (75 # 100)) by now apply lit_mono.
  assert (lit (75 # 100) <= lit (9 # 10)) by now apply lit_mono.
  repeat qcase1; qprop; cbn; (split; intros; [try lia; exfalso; lra | try lia; lra]).
Qed.

Section Decay.
#[local] Existing Instance exact.
Context `{MathPow}.

(** The decay factor, 1 at the time of the evidence. *)
Definition decay_factor (lastEvidenceAt halfLifeDays now : Z) : Q :=
  let d := daysSince lastEvidenceAt now in
  if d <=? 0 then 1 else pow_half (d /! inject_Z halfLifeDays).

Lemma decayed_factor p pi t h n : (0 < h)%Z ->
  decayedMastery p pi t h n == pi + (p - pi) * decay_factor t h n.
Proof.
  intros L. unfold decayedMastery, decay_factor. destruct (daysSince t n <=? 0).
  - ring.
  - destruct (Z.eqb_spec h 0); [lia | apply Qeq_refl].
Qed.

Lemma daysSince_mono t n n' : (n <= n')%Z -> daysSince t n <= daysSince t n'.
Proof.
  intros L. unfold daysSince, div, Qdiv. cbn [rnd exact]. apply Qmult_le_compat_r; [|easy].
  rewrite <- Zle_Qle. lia.
Qed.

Lemma div_pos_mono x y z : 0 <= z -> x <= y -> x /! z <= y /! z.
Proof. intros Z L. unfold div, Qdiv. cbn. apply Qmult_le_compat_r; [easy | now apply Qinv_le_0_compat]. Qed.

Lemma decay_factor_anti t h n n' : (0 < h)%Z -> (n <= n')%Z ->
  0 <= decay_factor t h n' <= decay_factor t h n /\ decay_factor t h n <= 1.
Proof.
  intros Lh Ln. pose proof (daysSince_mono t n n' Ln) as D. unfold decay_factor.
  assert (Hh : 0 <= inject_Z h) by (change 0 with (inject_Z 0); rewrite <- Zle_Qle; lia).
  destruct (daysSince t n <=? 0) eqn:E, (daysSince t n' <=? 0) eqn:E'; qprop; try lra.
  - pose proof (pow_half_unit (daysSince t n' /! inject_Z h)). assert (0 <= daysSince t n' /! inject_Z h) by (apply div_nonneg; lra).
    intuition lra.
  - assert (A : 0 <= daysSince t n /! inject_Z h) by (apply div_nonneg; lra).
    assert (A' : 0 <= daysSince t n' /! inject_Z h) by (apply div_nonneg; lra).
    pose proof (pow_half_unit _ A). pose proof (pow_half_unit _ A').
    pose proof (pow_half_anti _ _ (div_pos_mono _ _ _ Hh D)). lra.
Qed.
End Decay.

(** Decay is lazy and one-way: read later, a mastery value has moved
    further towards the skill's prior, never past it, and never beyond the
    stored value (exact arithmetic, any half-life power function with the laws
    of [MathPow]). *)
Theorem decay_towards_prior `{MathPow} p pi t h n n' :
  (0 < h)%Z -> (n <= n')%Z ->
  let d := @decayedMastery exact _ p pi t h n in let d' := @decayedMastery exact _ p pi t h n' in
  (pi <= p -> pi <= d' /\ d' <= d /\ d <= p) /\ (p <= pi -> p <= d /\ d <= d' /\ d' <= pi).
Proof.
  intros Lh Ln. cbn zeta. rewrite (decayed_factor p pi t h n Lh), (decayed_factor p pi t h n' Lh).
  destruct (decay_factor_anti t h n n' Lh Ln) as [[F1 F2] F3]. revert F1 F2 F3.
  generalize (decay_factor t h n) (decay_factor t h n'). intros f f' F1 F2 F3.
  split; intros L.
  - assert (0 <= (p - pi) * f') by nra. assert (0 <= (p - pi) * (f - f')) by nra.
    assert (0 <= (p - pi) * (1 - f)) by nra. split_and!; lra.
  - assert (0 <= (pi - p) * f') by nra. assert (0 <= (pi - p) * (f - f')) by nra.
    assert (0 <= (pi - p) * (1 - f)) by nra. split_and!; lra.
Qed.

Lemma bkt_update_bounds_witness :
  sane default_params /\
  exists r, @update binary64 (mkBktUpdateInput (15 # 100) default_params (9 # 10) 1 (7 # 10) (1 # 4) true) = Some r /\
    (@P_MIN binary64 <= pAfter r <= @P_MAX binary64).
Proof.
  assert (S : sane default_params) by (unfold sane; cbn; lra). split; [exact S |].
  destruct (@bkt_update_bounds binary64 (mkBktUpdateInput (15 # 100) default_params (9 # 10) 1 (7 # 10) (1 # 4) true) S)
    as (r & E & _ & B & _). exists r. split; [exact E | exact B].
Defined.

Definition failing_input : BktUpdateInput :=
  mkBktUpdateInput (1 # 2) default_params (1 # 2) 1 (7 # 10) 0 true.
Definition failing_result : option BktUpdateResult := @update exact failing_input.

Lemma informative_default : informative default_params.
Proof. unfold informative. cbn. lra. Qed.

Lemma bkt_update_direction_witness :
  exists r, @update exact failing_input = Some r /\ evidenceStrength r < 0 /\
    pAfter r <= clamp (@transit exact default_params (pBefore r)) (@P_MIN exact) (@P_MAX exact).
Proof.
  destruct (@update exact failing_input) as [r|] eqn:E; [|exfalso; revert E; vm_compute; discriminate].
  exists r. split; [reflexivity |].
  pose proof (bkt_update_direction failing_input r informative_default eq_refl E) as D.
  assert (N : (0 <=? evidenceStrength r) = false) by (revert E; vm_compute; now intros [= <-]).
  rewrite N in D. split; [|exact D]. now apply Qleb_gt in N.
Defined.

Lemma bkt_update_monotone_witness :
  exists r r', @update exact (failing_input <| score := 1 # 4 |>) = Some r /\
    @update exact (failing_input <| score := 9 # 10 |>) = Some r' /\ pAfter r <= pAfter r'.
Proof.
  destruct (@update exact (failing_input <| score := 1 # 4 |>)) as [r|] eqn:E;
    [|exfalso; revert E; vm_compute; discriminate].
  destruct (@update exact (failing_input <| score := 9 # 10 |>)) as [r'|] eqn:E';
    [|exfalso; revert E'; vm_compute; discriminate].
  exists r, r'. split; [reflexivity | split; [reflexivity |]].
  exact (bkt_update_monotone failing_input (1 # 4) (9 # 10) r r' informative_default ltac:(easy) ltac:(easy) E E').
Defined.

Lemma decay_towards_prior_witness :
  let d := @decayedMastery exact step_pow (8 # 10) (15 # 100) 0 180 (400 * 86400000) in
  d == 3125 # 10000 /\ (15 # 100) <= d.
Proof.
  split; [vm_compute; reflexivity |].
  apply (@decay_towards_prior step_pow (8 # 10) (15 # 100) 0 180 (400 * 86400000) (400 * 86400000)); easy.
Defined.
