(* ===== verification/Elo.v ===== *)
(** * Elo ratings and review scheduling

    skill/elo.service.ts and skill/spaced-repetition.ts: an attempt is a match
    between the learner's rating in a skill and the activity's difficulty
    rating; a known skill is scheduled for review. *)
From S2P Require Import Prelude JsNum Binary64 Effects Schema Bkt.

(** ** EloService *)
Module EloService.
Section EloService.
Context `{Rounding} `{MathPow}.

Inductive EloOutcome := WIN | DRAW | LOSS.
Definition outcome_value (o : EloOutcome) : Q :=
  match o with WIN => 1 | DRAW => 1 # 2 | LOSS => 0 end.

Record EloUpdateInput := mkEloUpdateInput {
  learnerElo : Q; activityElo : Q; learnerMatchCount : nat; activityAttemptCount : nat;
  outcome : EloOutcome }.
Record EloUpdateResult := mkEloUpdateResult {
  r_expectedPass : Q; r_learnerElo : Q; r_activityElo : Q; r_difficultyAdjust : Q }.

Definition DEFAULT_RATING : Q := 1200.
Definition K_LEARNER_START : Q := 32.
Definition K_LEARNER_FLOOR : Q := 12.
Definition K_LEARNER_DECAY_MATCHES : Q := 20.
Definition K_ACTIVITY : Q := 4.
Definition ACTIVITY_FREEZE_ATTEMPT_COUNT : nat := 500.

Definition kLearnerFor (matchCount : nat) : Q :=
  let progress := jmin (inject_Z (Z.of_nat matchCount) /! K_LEARNER_DECAY_MATCHES) 1 in
  K_LEARNER_START -! (K_LEARNER_START -! K_LEARNER_FLOOR) *! progress.

Definition difficulty_gap (i : EloUpdateInput) : Q := (activityElo i -! learnerElo i) /! 400.
Definition expectedPass (i : EloUpdateInput) : Q := 1 /! (1 +! rnd (pow_ten (difficulty_gap i))).

Definition update (i : EloUpdateInput) : EloUpdateResult :=
  let surprise := outcome_value (outcome i) -! expectedPass i in
  let kLearner := kLearnerFor (learnerMatchCount i) in
  let kActivity := if Nat.ltb ACTIVITY_FREEZE_ATTEMPT_COUNT (activityAttemptCount i) then 0 else K_ACTIVITY in
  mkEloUpdateResult (expectedPass i)
    (learnerElo i +! kLearner *! surprise)
    (activityElo i -! kActivity *! surprise)
    (difficulty_gap i).

Definition defaultRating : Q := DEFAULT_RATING.
End EloService.
End EloService.

(** ** Spaced repetition *)
Module SpacedRepetition.
Section SpacedRepetition.
Context `{Rounding}.

Definition DAY_MS : Z := 24 * 60 * 60 * 1000.
Definition BASE_INTERVAL_DAYS (b : MasteryBand) : option Q :=
  match b with
  | Novice | Developing => None
  | Competent => Some 7
  | Proficient => Some 14
  | Mastered => Some 30
  end.
Definition ON_TIME_GROWTH : Q := lit (18 # 10).
Definition MAX_INTERVAL_DAYS : Q := 180.

Definition computeReviewDueAt (band : MasteryBand) (now : Z) (prevReviewDueAt : option Z) : option Z :=
  match BASE_INTERVAL_DAYS band with
  | None => None
  | Some base =>
      let intervalDays :=
        match prevReviewDueAt with
        | Some prev =>
            if Z.leb now prev then
              let prevIntervalDays := jmax base base in
              jmin (prevIntervalDays *! ON_TIME_GROWTH) MAX_INTERVAL_DAYS
            else base
        | None => base
        end in
      Some (now + jround (intervalDays *! inject_Z DAY_MS))%Z
  end.

Definition isReviewDue (reviewDueAt : option Z) (now : Z) : bool :=
  match reviewDueAt with None => false | Some d => Z.leb d now end.
End SpacedRepetition.
End SpacedRepetition.

(** ** Elo: laws *)
Section EloLaws.
Context `{Rounding} `{MathPow}.
Import EloService.

Lemma jmin_unit x : 0 <= x -> 0 <= jmin x 1 <= 1.
Proof. intros. qlra. Qed.

Lemma progress_unit n : 0 <= jmin (inject_Z (Z.of_nat n) /! K_LEARNER_DECAY_MATCHES) 1 <= 1.
Proof.
  apply jmin_unit, div_nonneg; [|easy]. change 0 with (inject_Z 0). rewrite <- Zle_Qle. lia.
Qed.

Lemma k_span : K_LEARNER_START -! K_LEARNER_FLOOR == 20.
Proof. unfold sub. apply (rnd_int 20). easy. Qed.

Lemma kLearner_bounds n : 12 <= kLearnerFor n <= 32.
Proof.
  pose proof (progress_unit n). unfold kLearnerFor. set (p := jmin _ 1) in *.
  assert (P : 0 <= (K_LEARNER_START -! K_LEARNER_FLOOR) *! p <= 20).
  { rewrite k_span. unfold mul. split; [apply rnd_nonneg; nra | apply (rnd_ub _ 20); [easy | change (inject_Z 20) with 20; nra]]. }
  revert P. generalize ((K_LEARNER_START -! K_LEARNER_FLOOR) *! p). intros X P.
  unfold K_LEARNER_START. split; [apply (rnd_lb _ 12) | apply (rnd_ub _ 32)]; try easy;
    [change (inject_Z 12) with 12 | change (inject_Z 32) with 32]; lra.
Qed.

Lemma kLearner_anti m n : (m <= n)%nat -> kLearnerFor n <= kLearnerFor m.
Proof.
  intros L. unfold kLearnerFor. apply sub_mono; [apply Qle_refl |]. apply mul_mono_l; [rewrite k_span; easy |].
  apply jmin_mono; [|apply Qle_refl]. unfold div. apply rnd_mono. unfold Qdiv.
  apply Qmult_le_compat_r; [|easy]. rewrite <- Zle_Qle. lia.
Qed.

Lemma kLearner_floor n : (20 <= n)%nat -> kLearnerFor n == 12.
Proof.
  intros L. unfold kLearnerFor. rewrite k_span.
  assert (P : 1 <= inject_Z (Z.of_nat n) /! K_LEARNER_DECAY_MATCHES).
  { unfold div. apply (rnd_lb _ 1); [easy |]. apply Qle_shift_div_l; [easy |].
    unfold K_LEARNER_DECAY_MATCHES. change (inject_Z 1 * 20) with (inject_Z 20). rewrite <- Zle_Qle. lia. }
  assert (E : jmin (inject_Z (Z.of_nat n) /! K_LEARNER_DECAY_MATCHES) 1 == 1) by qlra.
  rewrite E. unfold mul. change (20 * 1) with 20. rewrite (rnd_int 20) by easy.
  apply (rnd_int 12). easy.
Qed.

Lemma expectedPass_unit i : 0 <= expectedPass i <= 1.
Proof.
  unfold expectedPass. set (t := rnd _). assert (T : 0 <= t) by apply rnd_nonneg, pow_ten_nonneg.
  assert (1 <= 1 +! t) by (apply (rnd_lb _ 1); [easy | change (inject_Z 1) with 1; lra]).
  split; [apply div_nonneg; lra | apply div_le_1; lra].
Qed.

Definition surprise (i : EloUpdateInput) : Q := outcome_value (outcome i) -! expectedPass i.

Lemma surprise_bounds i : -(1) <= surprise i <= 1.
Proof.
  pose proof (expectedPass_unit i). unfold surprise.
  assert (0 <= outcome_value (outcome i) <= 1) by (destruct (outcome i); cbn; lra).
  split; [apply (rnd_lb _ (-1)) | apply (rnd_ub _ 1)]; try easy;
    [change (inject_Z (-1)) with (-(1)) | change (inject_Z 1) with 1]; lra.
Qed.

Lemma surprise_win i : outcome i = WIN -> 0 <= surprise i.
Proof. intros E. pose proof (expectedPass_unit i). unfold surprise. rewrite E. apply rnd_nonneg. cbn. lra. Qed.
Lemma surprise_loss i : outcome i = LOSS -> surprise i <= 0.
Proof. intros E. pose proof (expectedPass_unit i). unfold surprise. rewrite E. apply rnd_nonpos. cbn. lra. Qed.

Lemma scaled_bounds (k s : Q) z : (0 <= z <= 2 ^ 53)%Z -> 0 <= k <= inject_Z z -> -(1) <= s <= 1 ->
  inject_Z (- z) <= k *! s <= inject_Z z.
Proof.
  intros Z K S. pose proof (inject_Z_opp z) as O. assert (inject_Z (- z) <= k * s <= inject_Z z) by (rewrite O; nra).
  split; [apply rnd_lb | apply rnd_ub]; lia || easy.
Qed.

Lemma update_learner i :
  r_learnerElo (update i) = learnerElo i +! kLearnerFor (learnerMatchCount i) *! surprise i.
Proof. reflexivity. Qed.
End EloLaws.

(** One match moves the learner's rating by at most K <= 32 points and never
    against the result: a win does not lower it, a loss does not raise it.  K
    starts at 32, decreases with the matches played and is 12 from the 20th on;
    the expected pass probability lies in [0, 1].  For every rounding and every
    power function; the rating is any double. *)
Theorem elo_learner_step `{Rounding} `{MathPow} (i : EloService.EloUpdateInput) :
  rnd (EloService.learnerElo i) == EloService.learnerElo i ->
  let r := EloService.update i in
  EloService.learnerElo i -! 32 <= EloService.r_learnerElo r <= EloService.learnerElo i +! 32 /\
  (EloService.outcome i = EloService.WIN -> EloService.learnerElo i <= EloService.r_learnerElo r) /\
  (EloService.outcome i = EloService.LOSS -> EloService.r_learnerElo r <= EloService.learnerElo i) /\
  0 <= EloService.r_expectedPass r <= 1 /\
  (forall n, 12 <= EloService.kLearnerFor n <= 32) /\
  (forall m n, (m <= n)%nat -> EloService.kLearnerFor n <= EloService.kLearnerFor m) /\
  (forall n, (20 <= n)%nat -> EloService.kLearnerFor n == 12).
Proof.
  intros E. cbn zeta. rewrite update_learner.
  pose proof (kLearner_bounds (EloService.learnerMatchCount i)) as K. pose proof (surprise_bounds i) as S.
  assert (B : inject_Z (- 32) <= EloService.kLearnerFor (EloService.learnerMatchCount i) *! surprise i <= inject_Z 32).
  { apply (scaled_bounds _ _ 32); [easy | change (inject_Z 32) with 32; lra | easy]. }
  change (inject_Z (-32)) with (-(32)) in B. change (inject_Z 32) with 32 in B.
  split_and!.
  - unfold sub, add. apply rnd_mono. lra.
  - unfold add. apply rnd_mono. lra.
  - intros W. apply rnd_ge_fix; [easy |]. assert (0 <= EloService.kLearnerFor (EloService.learnerMatchCount i) *! surprise i)
      by (apply mul_nonneg; [lra | now apply surprise_win]). lra.
  - intros L. apply rnd_le_fix; [easy |].
    assert (EloService.kLearnerFor (EloService.learnerMatchCount i) *! surprise i <= 0).
    { apply rnd_nonpos. pose proof (surprise_loss i L). nra. }
    lra.
  - apply expectedPass_unit.
  - apply expectedPass_unit.
  - apply kLearner_bounds.
  - apply kLearner_anti.
  - apply kLearner_floor.
Qed.

(** An activity's rating moves by at most 4 points a match, opposite to the
    learner's result, and no longer moves once the activity has more than 500
    attempts. *)
Theorem elo_activity_step `{Rounding} `{MathPow} (i : EloService.EloUpdateInput) :
  rnd (EloService.activityElo i) == EloService.activityElo i ->
  let r := EloService.update i in
  EloService.activityElo i -! 4 <= EloService.r_activityElo r <= EloService.activityElo i +! 4 /\
  (EloService.outcome i = EloService.WIN -> EloService.r_activityElo r <= EloService.activityElo i) /\
  (EloService.outcome i = EloService.LOSS -> EloService.activityElo i <= EloService.r_activityElo r) /\
  ((500 < EloService.activityAttemptCount i)%nat -> EloService.r_activityElo r == EloService.activityElo i).
Proof.
  intros E. cbn zeta. unfold EloService.update. cbn [EloService.r_activityElo]. fold (surprise i).
  pose proof (surprise_bounds i) as S. set (k := if Nat.ltb _ _ then 0 else EloService.K_ACTIVITY).
  assert (K : 0 <= k <= 4) by (subst k; destruct (Nat.ltb _ _); unfold EloService.K_ACTIVITY; lra).
  assert (B : inject_Z (- 4) <= k *! surprise i <= inject_Z 4) by (apply (scaled_bounds _ _ 4); easy).
  change (inject_Z (-4)) with (-(4)) in B. change (inject_Z 4) with 4 in B.
  split_and!.
  - unfold sub. apply rnd_mono. lra.
  - unfold sub, add. apply rnd_mono. lra.
  - intros W. apply rnd_le_fix; [easy |]. assert (0 <= k *! surprise i) by (apply mul_nonneg; [lra | now apply surprise_win]). lra.
  - intros L. apply rnd_ge_fix; [easy |].
    assert (k *! surprise i <= 0) by (apply rnd_nonpos; pose proof (surprise_loss i L); nra). lra.
  - intros N. subst k. unfold EloService.ACTIVITY_FREEZE_ATTEMPT_COUNT.
    apply Nat.ltb_lt in N. rewrite N. unfold sub, mul. rewrite Qmult_0_l, rnd_0.
    unfold Qminus. rewrite Qplus_0_r. exact E.
Qed.

(** ** Review intervals *)
Section ReviewLaws.
Context `{Rounding}.
Import SpacedRepetition.


Definition base_days (b : MasteryBand) : Z :=
  match b with Novice | Developing => 0 | Competent => 7 | Proficient => 14 | Mastered => 30 end.

Lemma base_interval b :
  BASE_INTERVAL_DAYS b = if Nat.leb 2 (band_rank b) then Some (inject_Z (base_days b)) else None.
Proof. now destruct b. Qed.

Lemma interval_ms (days : Z) : (0 <= days <= 180)%Z ->
  jround (inject_Z days *! inject_Z DAY_MS) = (days * DAY_MS)%Z.
Proof.
  intros D. unfold mul. rewrite <- inject_Z_mult, rnd_int; [apply jround_int |]. unfold DAY_MS. lia.
Qed.

Lemma growth_ge : 1 <= ON_TIME_GROWTH.
Proof. apply (rnd_lb _ 1); easy. Qed.

Lemma on_time_days (base : Z) : (0 <= base <= 180)%Z ->
  inject_Z base <= jmin (jmax (inject_Z base) (inject_Z base) *! ON_TIME_GROWTH) MAX_INTERVAL_DAYS <= 180.
Proof.
  intros B. split; [|apply jmin_le_r]. apply jmin_glb.
  - unfold mul. apply rnd_lb; [lia |]. pose proof growth_ge.
    assert (0 <= inject_Z base) by (change 0 with (inject_Z 0); rewrite <- Zle_Qle; lia).
    assert (E : jmax (inject_Z base) (inject_Z base) == inject_Z base) by qlra. rewrite E. nra.
  - change MAX_INTERVAL_DAYS with (inject_Z 180). rewrite <- Zle_Qle. lia.
Qed.

Lemma ms_mono d d' : d <= d' ->
  (jround (d *! inject_Z DAY_MS) <= jround (d' *! inject_Z DAY_MS))%Z.
Proof. intros L. apply jround_mono, mul_mono_r; [easy | exact L]. Qed.
End ReviewLaws.

(** A skill is in the review rotation exactly when its band is Competent or
    better; its review then falls between the band's base interval (7, 14 or
    30 days) and 180 days after the evidence; a late or first review gets
    exactly the base interval; and the interval does not depend on how long
    the previous one was, only on whether the review was on time. *)
Theorem review_schedule `{Rounding} band now prev :
  let due := SpacedRepetition.computeReviewDueAt band now prev in
  (is_Some due <-> (2 <= band_rank band)%nat) /\
  (forall d, due = Some d ->
     (base_days band * SpacedRepetition.DAY_MS <= d - now <= 180 * SpacedRepetition.DAY_MS)%Z /\
     SpacedRepetition.isReviewDue due now = false /\
     ((forall p, prev = Some p -> (p < now)%Z) -> (d = now + base_days band * SpacedRepetition.DAY_MS)%Z) /\
     (forall p p', prev = Some p -> (now <= p)%Z -> (now <= p')%Z ->
        SpacedRepetition.computeReviewDueAt band now (Some p') = Some d)).
Proof.
  unfold SpacedRepetition.computeReviewDueAt. rewrite base_interval.
  destruct (Nat.leb_spec 2 (band_rank band)) as [R|R]; [|split; [split; [now intros [] | lia] | easy]].
  assert (B : (7 <= base_days band <= 30)%Z) by (destruct band; cbn in *; lia).
  pose proof (on_time_days (base_days band) ltac:(lia)) as T.
  assert (I : forall days, inject_Z (base_days band) <= days <= 180 ->
    (base_days band * SpacedRepetition.DAY_MS <= jround (days *! inject_Z SpacedRepetition.DAY_MS)
      <= 180 * SpacedRepetition.DAY_MS)%Z).
  { intros days D. rewrite <- !interval_ms by lia. split; apply ms_mono; apply D. }
  assert (B180 : inject_Z (base_days band) <= inject_Z (base_days band) <= 180).
  { split; [apply Qle_refl |]. change 180 with (inject_Z 180). rewrite <- Zle_Qle. lia. }
  split; [split; [intros _; exact R | intros _; eexists; reflexivity] |].
  intros d E. injection E as <-.
  match goal with |- context [(now + jround (?x *! _))%Z] =>
    assert (D : inject_Z (base_days band) <= x <= 180)
      by (destruct prev as [p|]; [destruct (Z.leb now p)|]; first [exact T | exact B180])
  end.
  apply I in D.
  split_and!; [lia | lia | | |].
  - apply Z.leb_gt. unfold SpacedRepetition.DAY_MS in D |- *. lia.
  - intros L. destruct prev as [p|]; [|now rewrite interval_ms by lia].
    specialize (L p eq_refl). destruct (Z.leb_spec now p); [lia | now rewrite interval_ms by lia].
  - intros p p' -> Lp Lp'. now rewrite !(proj2 (Z.leb_le _ _)) by easy.
Qed.

Lemma elo_learner_step_witness :
  let i := EloService.mkEloUpdateInput 1200 1400 3 12 EloService.WIN in
  1200 <= @EloService.r_learnerElo (@EloService.update binary64 step_pow i) <= 1232.
Proof.
  cbn zeta. set (i := EloService.mkEloUpdateInput _ _ _ _ _).
  destruct (@elo_learner_step binary64 step_pow i) as ((_ & U) & W & _); [vm_compute; reflexivity |].
  split; [apply W; reflexivity |]. eapply Qle_trans; [exact U |]. vm_compute. discriminate.
Defined.

Lemma elo_activity_step_witness :
  let i := EloService.mkEloUpdateInput 1200 1400 3 501 EloService.LOSS in
  @EloService.r_activityElo (@EloService.update binary64 step_pow i) == 1400.
Proof.
  cbn zeta. apply (@elo_activity_step binary64 step_pow (EloService.mkEloUpdateInput 1200 1400 3 501 EloService.LOSS));
    [vm_compute; reflexivity | cbn; lia].
Defined.
