(* ===== verification/SkillGraph.v ===== *)
(** * The skill graph

    skill/skill.repository.ts: the prerequisite closure of the skill graph,
    rebuilt by a recursive query, and the ancestors the eligibility gate asks
    for, skills found and inserted by slug. *)
From S2P Require Import Prelude JsNum Effects Schema AttemptStatus.

(** ** SkillRepository *)

Record SkillInput := mkSkillInput {
  si_slug : string; si_name : string; si_domain : string; si_description : option string;
  si_decayHalfLifeDays : option Z; si_domainOrder : option Z; si_sequence : option Z; si_courseSlug : option string }.

(** The row an INSERT makes: the columns' defaults fill what is not given. *)
Definition new_skill (i : SkillInput) : Skill :=
  mkSkill (si_slug i) (si_name i) (si_domain i) (si_description i) "active"
    (default 0%Z (si_domainOrder i)) (default 0%Z (si_sequence i)) (default "devops-with-ai" (si_courseSlug i))
    (15 # 100) (25 # 100) (10 # 100) (8 # 100) (default 180%Z (si_decayHalfLifeDays i)).
Definition fresh_skill (s : Store) : Id := fresh (dom (skills s) : gset Id).
Definition has_slug (slug : string) (kv : Id * Skill) : bool := bool_decide (sk_slug kv.2 = slug).
Definition find_skill (slug : string) (s : Store) : option (Id * Skill) :=
  head (List.filter (has_slug slug) (map_to_list (skills s))).

(** [slug] is UNIQUE. *)
Definition createSkill (i : SkillInput) : prog Store (Id * Skill) :=
  act (fun s => match find_skill (si_slug i) s with
                | Some _ => inl (DbError "skill_slug_key")
                | None => inr ((fresh_skill s, new_skill i), s <| skills ::= <[fresh_skill s := new_skill i]> |>)
                end).
Definition findBySlug (slug : string) : prog Store (option (Id * Skill)) := select (find_skill slug).
Definition listByDomain `{RowOrder} (domain : string) : prog Store (list (Id * Skill)) :=
  select (fun s => in_order (List.filter
    (fun kv => bool_decide (sk_domain kv.2 = domain) && bool_decide (sk_status kv.2 = "active"%string))
    (map_to_list (skills s)))).

(** A row of the recursive table [walk]. *)
Record Walk := mkWalk {
  w_ancestor : Id; w_descendant : Id; w_depth : nat; w_types : list SkillEdgeType; w_path : list Id }.

Definition is_prereq (e : SkillEdge) : bool := includes [REQUIRES; BUILDS_ON] (se_type e).

Definition walk_base (edges : list SkillEdge) : list Walk :=
  (fun e => mkWalk (se_from e) (se_to e) 1 [se_type e] [se_from e; se_to e]) <$> List.filter is_prereq edges.

Definition walk_extend (edges : list SkillEdge) (w : Walk) : list Walk :=
  (fun e => mkWalk (w_ancestor w) (se_to e) (w_depth w + 1) (w_types w ++ [se_type e]) (w_path w ++ [se_to e]))
  <$> List.filter (fun e => Nat.eqb (se_from e) (w_descendant w) && is_prereq e
                            && negb (includes (w_path w) (se_to e))) edges.

(** WITH RECURSIVE: the rows of each round, until a round yields none. *)
Fixpoint walk_rounds (fuel : nat) (edges : list SkillEdge) (frontier : list Walk) : option (list Walk) :=
  match frontier with
  | [] => Some []
  | _ =>
      match fuel with
      | 0%nat => None
      | S n =>
          rest ← walk_rounds n edges (frontier ≫= walk_extend edges);
          Some (frontier ++ rest)
      end
  end.
Definition walk (edges : list SkillEdge) : option (list Walk) :=
  walk_rounds (S (length edges)) edges (walk_base edges).

(** GROUP BY ancestor, descendant, with MIN(depth) and array_agg(DISTINCT et). *)
Definition same_pair (p : Id * Id) (w : Walk) : bool :=
  Nat.eqb (w_ancestor w) p.1 && Nat.eqb (w_descendant w) p.2.
Definition group_row (ws : list Walk) (p : Id * Id) : SkillClosureRow :=
  let group := List.filter (same_pair p) ws in
  mkSkillClosureRow p.1 p.2
    (match w_depth <$> group with [] => 0%nat | d :: ds => fold_left Nat.min ds d end)
    (remove_dups (group ≫= w_types)).
Definition closure_of (ws : list Walk) : list SkillClosureRow :=
  group_row ws <$> remove_dups ((fun w => (w_ancestor w, w_descendant w)) <$> ws).

Definition rebuildClosure : prog Store unit :=
  act (fun s => match walk (skill_edges s) with
                | Some ws => inr (tt, s <| skill_closure := closure_of ws |>)
                | None => inl (JsError "recursion limit")
                end).

(** ON CONFLICT (from, to, type) DO NOTHING. *)
Definition addEdge (from to : Id) (type : SkillEdgeType) : prog Store unit :=
  execute (fun s =>
    if existsb (fun e => Nat.eqb (se_from e) from && Nat.eqb (se_to e) to && bool_decide (se_type e = type))
         (skill_edges s)
    then s else s <| skill_edges ::= fun l => l ++ [mkSkillEdge from to type] |>).

Definition requires_ancestors (closure : list SkillClosureRow) (skillId : Id) : list Id :=
  sc_ancestor <$> List.filter (fun r => Nat.eqb (sc_descendant r) skillId && includes (sc_edge_types r) REQUIRES) closure.
Definition getRequiresAncestors (skillId : Id) : prog Store (list Id) :=
  select (fun s => requires_ancestors (skill_closure s) skillId).

(** ** Chains of prerequisite edges, independently of the query *)
Inductive chain (edges : list SkillEdge) : Id -> Id -> list SkillEdgeType -> list Id -> Prop :=
  | chain_edge e : e ∈ edges -> is_prereq e = true ->
      chain edges (se_from e) (se_to e) [se_type e] [se_from e; se_to e]
  | chain_snoc a b ts p e : chain edges a b ts p -> e ∈ edges -> is_prereq e = true -> se_from e = b ->
      chain edges a (se_to e) (ts ++ [se_type e]) (p ++ [se_to e]).

Definition acyclic (edges : list SkillEdge) : Prop := forall a ts p, ~ chain edges a a ts p.

(** ** What the recursion finds *)
Section Walks.
Variable edges : list SkillEdge.

Lemma elem_filter {A} (f : A -> bool) l x : x ∈ List.filter f l <-> x ∈ l /\ f x = true.
Proof. rewrite !list_elem_of_In. apply List.filter_In. Qed.

(** A row of the table is a chain; its path lists the visited skills. *)
Definition walk_ok (w : Walk) : Prop :=
  chain edges (w_ancestor w) (w_descendant w) (w_types w) (w_path w) /\
  w_depth w = length (w_types w) /\ length (w_path w) = S (w_depth w) /\
  NoDup (tail (w_path w)) /\ tail (w_path w) ⊆ (se_to <$> edges).

Lemma walk_base_ok w : w ∈ walk_base edges -> walk_ok w /\ w_depth w = 1%nat.
Proof.
  intros (e & -> & [I P]%elem_filter)%list_elem_of_fmap. split; [|easy]. split_and!; cbn.
  - now constructor.
  - easy.
  - easy.
  - apply NoDup_singleton.
  - intros x ->%list_elem_of_singleton. now apply list_elem_of_fmap_2.
Qed.

Lemma walk_extend_ok w w' : walk_ok w -> w' ∈ walk_extend edges w ->
  walk_ok w' /\ w_depth w' = S (w_depth w).
Proof.
  intros (C & D & L & N & T) (e & -> & [I P]%elem_filter)%list_elem_of_fmap.
  apply andb_prop in P as [ [F P]%andb_prop G]. apply Nat.eqb_eq in F.
  apply negb_true_iff, not_true_iff_false in G. rewrite includes_spec in G.
  split; [|cbn; lia]. destruct (w_path w) as [|x p] eqn:E; [cbn in L; lia |]. split_and!; cbn [w_ancestor w_descendant w_depth w_types w_path]; rewrite ?E.
  - now apply (chain_snoc edges _ (w_descendant w)).
  - rewrite length_app. cbn. lia.
  - rewrite length_app. cbn in *. lia.
  - apply NoDup_app. cbn in N. split_and!; [easy | | apply NoDup_singleton].
    intros y Y ->%list_elem_of_singleton. apply G. now right.
  - intros y [Y|Y]%elem_of_app; [now apply T |].
    apply list_elem_of_singleton in Y as ->. now apply list_elem_of_fmap_2.
Qed.

Lemma walk_depth_bound w : walk_ok w -> (w_depth w <= length edges)%nat.
Proof.
  intros (_ & _ & L & N & T).
  pose proof (NoDup_submseteq _ _ N T) as S. apply submseteq_length in S.
  rewrite length_fmap in S. destruct (w_path w); cbn in *; lia.
Qed.

(** Every round's rows are one deeper, so the rounds end within the fuel. *)
Lemma walk_rounds_total fuel frontier d :
  (forall w, w ∈ frontier -> walk_ok w /\ w_depth w = d) -> (length edges < d + fuel)%nat ->
  exists ws, walk_rounds fuel edges frontier = Some ws /\ (forall w, w ∈ ws -> walk_ok w).
Proof.
  revert frontier d. induction fuel as [|fuel IH]; intros [|w0 fr] d H L; cbn;
    try (exists []; split; [easy | intros w []%elem_of_nil]).
  - destruct (H w0 ltac:(now left)) as [W D]. pose proof (walk_depth_bound w0 W). lia.
  - destruct (IH ((w0 :: fr) ≫= walk_extend edges) (S d)) as (ws & E & G).
    + intros w' (w & I' & I)%list_elem_of_bind. destruct (H w I) as [W D].
      rewrite <- D. now apply walk_extend_ok.
    + lia.
    + cbn in E. rewrite E. exists (w0 :: fr ++ ws). split; [easy |].
      intros w I. rewrite app_comm_cons in I. apply elem_of_app in I as [I|I]; [now apply H | now apply G].
Qed.

Lemma walk_total : exists ws, walk edges = Some ws /\ forall w, w ∈ ws -> walk_ok w.
Proof. apply (walk_rounds_total _ _ 1%nat); [apply walk_base_ok | lia]. Qed.

(** The rounds contain every chain that repeats no skill. *)
Lemma walk_rounds_closed fuel frontier ws :
  walk_rounds fuel edges frontier = Some ws ->
  frontier ⊆ ws /\ (forall w w', w ∈ ws -> w' ∈ walk_extend edges w -> w' ∈ ws).
Proof.
  revert frontier ws. induction fuel as [|fuel IH]; intros [|w0 fr] ws; cbn; try easy;
    try (intros [= <-]; split; [easy | intros w w' []%elem_of_nil]).
  destruct (walk_rounds fuel edges _) as [rest|] eqn:E; [|easy]. intros [= <-].
  destruct (IH _ _ E) as [I C]. clear IH. rewrite app_comm_cons.
  split; [intros w Hw; apply elem_of_app; now left |].
  intros w w' [Hw|Hw]%elem_of_app Hw'; apply elem_of_app; right; [|eauto].
  apply I. change (w' ∈ (w0 :: fr) ≫= walk_extend edges). apply list_elem_of_bind. eauto.
Qed.

Lemma walk_complete ws a b ts p : walk edges = Some ws -> chain edges a b ts p -> NoDup p ->
  mkWalk a b (length ts) ts p ∈ ws.
Proof.
  intros E C. destruct (walk_rounds_closed _ _ _ E) as [B X]. induction C as [e I P|a b ts p e C IH I P F]; intros N.
  - apply B. unfold walk_base. apply list_elem_of_fmap. exists e. split; [easy |]. now apply elem_filter.
  - apply NoDup_app in N as (N & D & _). eapply X; [exact (IH N) |].
    apply list_elem_of_fmap. exists e. split; [now rewrite length_app |].
    apply elem_filter. split; [easy |]. cbn. rewrite F, Nat.eqb_refl, P. cbn.
    apply negb_true_iff, not_true_iff_false. rewrite includes_spec. intros Y. apply (D _ Y). now left.
Qed.
End Walks.

(** ** Acyclic graphs *)
Lemma chain_suffix edges a b ts p x : chain edges a b ts p -> x ∈ p ->
  x = b \/ exists ts' p', chain edges x b ts' p'.
Proof.
  induction 1 as [e I P|a b ts p e C IH I P F]; intros X.
  - apply elem_of_cons in X as [->|X%list_elem_of_singleton]; [right; eauto using chain | now left].
  - apply elem_of_app in X as [X|X%list_elem_of_singleton]; [right | now left].
    destruct (IH X) as [->|(ts' & p' & C')]; [rewrite <- F; eauto using chain |].
    eauto using chain.
Qed.

Lemma acyclic_nodup edges a b ts p : acyclic edges -> chain edges a b ts p -> NoDup p.
Proof.
  intros A. induction 1 as [e I P|a b ts p e C IH I P F].
  - apply NoDup_cons. split; [|apply NoDup_singleton]. intros X%list_elem_of_singleton.
    pose proof (chain_edge edges e I P) as C. rewrite <- X in C. now apply A in C.
  - apply NoDup_app. split_and!; [easy | | apply NoDup_singleton].
    intros x X ->%list_elem_of_singleton. destruct (chain_suffix _ _ _ _ _ _ C X) as [E|(ts' & p' & C')].
    + pose proof (chain_edge edges e I P) as C'. rewrite F, E in C'. now apply A in C'.
    + apply (A (se_to e) (ts' ++ [se_type e]) (p' ++ [se_to e])). eauto using chain.
Qed.

Lemma chain_length edges a b ts p : chain edges a b ts p -> length p = S (length ts).
Proof. induction 1; [easy |]. rewrite !length_app. cbn. lia. Qed.

(** The rows of the recursion are exactly the chains of an acyclic graph. *)
Lemma walk_chains edges ws a b ts : acyclic edges -> walk edges = Some ws ->
  (exists w, w ∈ ws /\ w_ancestor w = a /\ w_descendant w = b /\ w_types w = ts /\ w_depth w = length ts) <->
  (exists p, chain edges a b ts p).
Proof.
  intros A E. destruct (walk_total edges) as (ws' & E' & W). rewrite E in E'. injection E' as <-. split.
  - intros (w & I & <- & <- & <- & _). destruct (W w I) as [C _]. eauto.
  - intros [p C]. exists (mkWalk a b (length ts) ts p). split; [|easy].
    apply (walk_complete edges); [easy.. |]. eauto using acyclic_nodup.
Qed.

(** ** The closure table *)
Lemma same_pair_spec p w : same_pair p w = true <-> (w_ancestor w, w_descendant w) = p.
Proof.
  unfold same_pair. destruct p. cbn. rewrite andb_true_iff, !Nat.eqb_eq. split; [now intros [-> ->] | now intros [= -> ->]].
Qed.

Lemma closure_row ws r : r ∈ closure_of ws <->
  exists w, w ∈ ws /\ r = group_row ws (w_ancestor w, w_descendant w).
Proof.
  unfold closure_of. rewrite list_elem_of_fmap. split.
  - intros (p & -> & I). apply elem_of_remove_dups, list_elem_of_fmap in I as (w & -> & I). eauto.
  - intros (w & I & ->). eexists. split; [reflexivity |]. apply elem_of_remove_dups, list_elem_of_fmap. eauto.
Qed.

Lemma group_types ws p t : t ∈ sc_edge_types (group_row ws p) <->
  exists w, w ∈ ws /\ (w_ancestor w, w_descendant w) = p /\ t ∈ w_types w.
Proof.
  cbn. rewrite elem_of_remove_dups, list_elem_of_bind. setoid_rewrite elem_filter.
  setoid_rewrite same_pair_spec. split; [intros (w & T & I & E) | intros (w & I & E & T)]; exists w; auto.
Qed.

Lemma fold_min_spec l d : let m := fold_left Nat.min l d in
  m ∈ d :: l /\ forall x, x ∈ d :: l -> (m <= x)%nat.
Proof.
  revert d. induction l as [|y l IH]; intros d; cbn.
  - split; [now left |]. intros x [->|[]%elem_of_nil]%elem_of_cons. easy.
  - destruct (IH (Nat.min d y)) as [I L]. split.
    + apply elem_of_cons in I as [->|I]; [|now do 2 right].
      destruct (Nat.min_dec d y) as [->| ->]; [now left | right; now left].
    + pose proof (L (Nat.min d y) ltac:(now left)). intros x [->|[->|X]%elem_of_cons]%elem_of_cons; [lia.. |].
      apply L. now right.
Qed.

Lemma group_depth ws w : w ∈ ws ->
  let r := group_row ws (w_ancestor w, w_descendant w) in
  (exists w', w' ∈ ws /\ same_pair (w_ancestor w, w_descendant w) w' = true /\ w_depth w' = sc_depth r) /\
  (forall w', w' ∈ ws -> same_pair (w_ancestor w, w_descendant w) w' = true -> (sc_depth r <= w_depth w')%nat).
Proof.
  intros I. cbn. set (p := (_, _)).
  assert (M : w_depth w ∈ (w_depth <$> List.filter (same_pair p) ws)).
  { apply list_elem_of_fmap_2, elem_filter. split; [easy | now apply same_pair_spec]. }
  destruct (w_depth <$> List.filter (same_pair p) ws) as [|d ds] eqn:E; [now apply elem_of_nil in M |].
  destruct (fold_min_spec ds d) as [F L]. rewrite <- E in F, L. split.
  - apply list_elem_of_fmap in F as (w' & F & [I' S]%elem_filter). eauto.
  - intros w' I' S. apply L, list_elem_of_fmap_2, elem_filter. auto.
Qed.

Lemma run_rebuildClosure s : exists ws, walk (skill_edges s) = Some ws /\
  run rebuildClosure s = (inr tt, s <| skill_closure := closure_of ws |>).
Proof.
  destruct (walk_total (skill_edges s)) as (ws & E & _). exists ws. split; [easy |].
  unfold rebuildClosure. rewrite run_act. now rewrite E.
Qed.

(** The pairs of the closure are those joined by a chain. *)
Lemma closure_pairs edges ws a d : acyclic edges -> walk edges = Some ws ->
  (exists r, r ∈ closure_of ws /\ sc_ancestor r = a /\ sc_descendant r = d) <-> (exists ts p, chain edges a d ts p).
Proof.
  intros A E. split.
  - intros (r & (w & I & ->)%closure_row & <- & <-).
    destruct (walk_chains _ ws (w_ancestor w) (w_descendant w) (w_types w) A E) as [C _].
    destruct (walk_total edges) as (ws' & E' & W). rewrite E in E'. injection E' as <-.
    destruct C as [p C]; [|now exists (w_types w), p]. exists w. destruct (W w I) as (_ & D & _). auto.
  - intros (ts & p & C). destruct (proj2 (walk_chains _ ws a d ts A E)) as (w & I & <- & <- & _); [eauto |].
    eexists. split; [apply closure_row; eauto | easy].
Qed.

(** C26: Rebuilding the closure of an acyclic skill graph always succeeds, and the
    closure then holds exactly the pairs joined by a chain of REQUIRES and
    BUILDS_ON edges, each once, at the length of the shortest chain. *)
Theorem closure_correct s :
  acyclic (skill_edges s) ->
  exists s', run rebuildClosure s = (inr tt, s') /\ skill_edges s' = skill_edges s /\
    (forall a d, (exists r, r ∈ skill_closure s' /\ sc_ancestor r = a /\ sc_descendant r = d) <->
                 (exists ts p, chain (skill_edges s) a d ts p)) /\
    NoDup ((fun r => (sc_ancestor r, sc_descendant r)) <$> skill_closure s') /\
    (forall r, r ∈ skill_closure s' ->
       (exists ts p, chain (skill_edges s) (sc_ancestor r) (sc_descendant r) ts p /\ length ts = sc_depth r) /\
       (forall ts p, chain (skill_edges s) (sc_ancestor r) (sc_descendant r) ts p -> (sc_depth r <= length ts)%nat)).
Proof.
  intros A. destruct (run_rebuildClosure s) as (ws & E & ->). eexists. split; [reflexivity |].
  cbn [skill_closure skill_edges set_field]. split_and!; [easy | | |].
  - intros a d. now apply closure_pairs.
  - unfold closure_of. rewrite <- list_fmap_compose. cbn.
    rewrite (list_fmap_ext _ id); [rewrite list_fmap_id; apply NoDup_remove_dups | now intros _ [] _].
  - intros r (w & I & ->)%closure_row. destruct (group_depth ws w I) as [(w' & I' & S & D) M].
    destruct (walk_total (skill_edges s)) as (ws' & E' & W). rewrite E in E'. injection E' as <-. split.
    + apply same_pair_spec in S. injection S as S1 S2. destruct (W w' I') as (C & L & _).
      exists (w_types w'), (w_path w'). split; [cbn [sc_ancestor sc_descendant group_row fst snd]; now rewrite <- S1, <- S2 | now rewrite <- L].
    + intros ts p C. cbn [sc_ancestor sc_descendant group_row fst snd] in C.
      destruct (proj2 (walk_chains _ ws _ _ ts A E) (ex_intro _ p C)) as (w2 & I2 & E1 & E2 & _ & <-).
      apply M; [easy |]. apply same_pair_spec. now rewrite E1, E2.
Qed.

(** The ancestors the eligibility gate checks for a skill are those joined to
    it by a chain that contains at least one REQUIRES edge, wherever on the chain
    it is (acyclic graph, closure just rebuilt). *)
Theorem requires_ancestors_correct s d :
  acyclic (skill_edges s) ->
  exists l, run (rebuildClosure ;; getRequiresAncestors d) s = (inr l, snd (run rebuildClosure s)) /\
    (forall a, a ∈ l <-> exists ts p, chain (skill_edges s) a d ts p /\ REQUIRES ∈ ts).
Proof.
  intros A. destruct (run_rebuildClosure s) as (ws & E & R). unfold getRequiresAncestors.
  autorewrite with run. rewrite R. eexists. split; [autorewrite with run; reflexivity |].
  cbn [skill_closure set_field]. intros a. unfold requires_ancestors. rewrite list_elem_of_fmap.
  setoid_rewrite elem_filter. setoid_rewrite andb_true_iff. setoid_rewrite includes_spec.
  setoid_rewrite Nat.eqb_eq. split.
  - intros (r & -> & (w & I & ->)%closure_row & D & T).
    apply group_types in T as (w' & I' & [= Ea Ed] & T).
    destruct (walk_total (skill_edges s)) as (ws' & E' & W). rewrite E in E'. injection E' as <-.
    destruct (W w' I') as [C _]. cbn in D. subst d. exists (w_types w'), (w_path w'). cbn.
    rewrite <- Ea, <- Ed. exact (conj C T).
  - intros (ts & p & C & T).
    destruct (proj2 (walk_chains _ ws a d ts A E) (ex_intro _ p C)) as (w & I & <- & <- & <- & _).
    exists (group_row ws (w_ancestor w, w_descendant w)). split_and!; [easy | apply closure_row; eauto | easy |].
    apply group_types. eauto.
Qed.

(** A graph whose edges go up in some ranking is acyclic. *)
Lemma ranked_acyclic (rank : Id -> nat) edges :
  (forall e, e ∈ edges -> (rank (se_from e) < rank (se_to e))%nat) -> acyclic edges.
Proof.
  intros R a ts p C. assert (G : forall a b, chain edges a b ts p -> (rank a < rank b)%nat); [|now apply G in C; lia].
  clear C. intros x y C. induction C as [e I|x y ts p e C IH I P F]; [now apply R |].
  pose proof (R e I). subst. lia.
Qed.

Definition three_skills : Store :=
  empty_store <| skill_edges := [mkSkillEdge 1 2 BUILDS_ON; mkSkillEdge 2 3 REQUIRES; mkSkillEdge 1 3 SIBLING] |>.

Lemma three_skills_acyclic : acyclic (skill_edges three_skills).
Proof. apply (ranked_acyclic id). intros e I. repeat (apply elem_of_cons in I as [->|I]; [cbn; lia |]). now apply elem_of_nil in I. Qed.

Lemma closure_correct_witness :
  exists s', run rebuildClosure three_skills = (inr tt, s') /\
    exists r, r ∈ skill_closure s' /\ sc_ancestor r = 1%nat /\ sc_descendant r = 3%nat.
Proof.
  destruct (closure_correct three_skills three_skills_acyclic) as (s' & R & _ & C & _).
  exists s'. split; [exact R |]. apply C. exists [BUILDS_ON; REQUIRES], [1; 2; 3]%nat.
  apply (chain_snoc _ 1%nat 2%nat [BUILDS_ON] [1; 2]%nat (mkSkillEdge 2 3 REQUIRES));
    [apply (chain_edge _ (mkSkillEdge 1 2 BUILDS_ON)) | | |]; cbn; try reflexivity; repeat constructor.
Defined.

Lemma requires_ancestors_correct_witness :
  exists l s', run (rebuildClosure ;; getRequiresAncestors 3) three_skills = (inr l, s') /\ 1%nat ∈ l.
Proof.
  destruct (requires_ancestors_correct three_skills 3 three_skills_acyclic) as (l & R & C).
  exists l. eexists. split; [exact R |]. apply C. exists [BUILDS_ON; REQUIRES], [1; 2; 3]%nat.
  split; [|repeat constructor].
  apply (chain_snoc _ 1%nat 2%nat [BUILDS_ON] [1; 2]%nat (mkSkillEdge 2 3 REQUIRES));
    [apply (chain_edge _ (mkSkillEdge 1 2 BUILDS_ON)) | | |]; cbn; try reflexivity; repeat constructor.
Defined.
