(* ===== verification/SkillData.v ===== *)
(** * The seeded skill graph

    The tables of the four scripts that fill skill.skill and skill.skill_edge:
    practice-core/scripts/seed-skills.ts ([Devops]), seed-skills-genai.ts
    ([Genai]), seed-skills-sre.ts ([Sre]) and backfill-skill-order.ts
    ([Backfill]), row by row.  SkillSeeds.v has the scripts themselves. *)
From S2P Require Import Prelude JsText.
Local Open Scope string_scope.

Record SkillDef := mkSkillDef { sd_slug : string; sd_name : string; sd_domain : string; sd_description : string }.
Record EdgeDef := mkEdgeDef { ed_from : string; ed_to : string }.
Declare Scope seed_scope.
Notation "x ~> y" := (mkEdgeDef x y) (at level 65, no associativity) : seed_scope.
Delimit Scope seed_scope with seed.
Local Open Scope seed_scope.
Local Open Scope Z_scope.
Local Open Scope string_scope.

Module Devops.
Definition CORE : list SkillDef := [
  mkSkillDef "devops.fundamentals" "DevOps Fundamentals" "core"
    "DevOps lifecycle, tools landscape, and DevOps-on-cloud basics.";
  mkSkillDef "linux.cli" "Linux Fundamentals for DevOps" "core"
    "Shell navigation, file operations, and process basics on Linux.";
  mkSkillDef "devops.gitops-evolution" "CI/CD to GitOps Evolution" "core"
    "History and principles of the shift from CI/CD to GitOps.";
  mkSkillDef "iac.fundamentals" "Infrastructure as Code Fundamentals" "core"
    "IaC principles: automation, consistency, versioning, scalability.";
  mkSkillDef "microservices.fundamentals" "Microservices Architecture Principles" "core"
    "Modularity, bounded contexts, decentralized data management.";
  mkSkillDef "microservices.devops-impact" "Microservices Impact on DevOps" "core"
    "CI/CD for independently deployed services; service discovery, load balancing.";
  mkSkillDef "devsecops.fundamentals" "DevSecOps Principles" "core"
    "Shift-left security, security automation, vulnerability scanning.";
  mkSkillDef "devsecops.container-security-tools" "Container Security Tooling" "core"
    "Docker Bench, Clair, and infrastructure-security-as-code practices.";
  mkSkillDef "iac.terraform-vs-cloudformation" "Terraform vs CloudFormation" "core"
    "Comparing declarative IaC tools and when to use each.";
  mkSkillDef "git.basics" "Git Basic Workflow" "core"
    "Commits, branches, tags, revert/reset, .gitignore.";
  mkSkillDef "git.branching-strategies" "Git Branching Strategies" "core"
    "Feature branching, release branching, hotfixes, conflict resolution.";
  mkSkillDef "git.internals" "Git Internals and Advanced Branching" "core"
    "Git objects (blobs/trees/commits/tags), rebase vs merge, git hooks.";
  mkSkillDef "git.workflow-patterns" "GitFlow / GitHub Flow / GitLab Flow" "core"
    "Team collaboration workflow patterns and release tagging strategy.";
  mkSkillDef "git.release-management" "Git Release Management" "core"
    "Semantic versioning, trunk-based development vs feature branches."].
Definition CICD : list SkillDef := [
  mkSkillDef "jenkins.basics" "Jenkins Job Creation & Plugins" "cicd"
    "Freestyle vs pipeline jobs, plugin management, auth/authz basics.";
  mkSkillDef "jenkins.pipeline-as-code" "Jenkins Pipeline as Code" "cicd"
    "Declarative Jenkinsfile syntax: stages, steps, version-controlled pipelines.";
  mkSkillDef "jenkins.security-integration" "Security Tools in Jenkins Pipelines" "cicd"
    "SonarQube/Checkmarx integration, security gates, vulnerability assessment.";
  mkSkillDef "jenkins.distributed-builds" "Jenkins Master-Slave Architecture" "cicd"
    "Distributed builds, agent scaling, load balancing across Jenkins nodes.";
  mkSkillDef "jenkins.advanced-pipelines" "Advanced Jenkins Pipeline Config" "cicd"
    "Env variables, caching, retries, HA/disaster-recovery configuration.";
  mkSkillDef "gitlab.cicd-pipelines" "GitLab CI/CD Pipelines" "cicd"
    "Pipeline YAML, multi-project pipelines, cross-project dependencies.";
  mkSkillDef "github.actions-workflows" "GitHub Actions Advanced Workflows" "cicd"
    "Matrix builds, conditional steps, environment deployments, PR integration.";
  mkSkillDef "cicd.troubleshooting" "CI/CD Pipeline Troubleshooting" "cicd"
    "Diagnosing and optimizing failing or slow pipeline runs across tools."].
Definition CONTAINERS : list SkillDef := [
  mkSkillDef "docker.basics" "Docker Images & DockerHub" "containers"
    "Docker architecture, Dockerfile syntax, image build/publish.";
  mkSkillDef "docker.networking" "Docker Networking" "containers"
    "Bridge networks, host networking, CNIs, overlay networks.";
  mkSkillDef "docker.swarm" "Docker Swarm Mode" "containers"
    "Manager/worker nodes, service orchestration, stack deployment, HA.";
  mkSkillDef "k8s.architecture" "Kubernetes Architecture" "containers"
    "Control plane components: kube-apiserver, scheduler, etcd, kubelet.";
  mkSkillDef "k8s.pods" "Kubernetes Pods" "containers"
    "Pod anatomy, multi-container pods, shared storage and networking.";
  mkSkillDef "k8s.deployments" "Kubernetes Deployments" "containers"
    "Declarative deployment management, rolling updates, rollback strategies.";
  mkSkillDef "k8s.services" "Kubernetes Services" "containers"
    "ClusterIP, NodePort, LoadBalancer, ExternalName; service discovery.";
  mkSkillDef "k8s.config-secrets" "Kubernetes ConfigMaps & Secrets" "containers"
    "Application configuration and sensitive data management.";
  mkSkillDef "k8s.helm" "Helm Package Management" "containers"
    "Templating and packaging Kubernetes applications with Helm.";
  mkSkillDef "k8s.statefulsets" "Kubernetes StatefulSets" "containers"
    "Stateful application deployment, pod identity, ordered scaling.";
  mkSkillDef "k8s.storage" "Kubernetes Persistent Volumes" "containers"
    "Storage classes, volume plugins, dynamic provisioning, PV/PVC.";
  mkSkillDef "k8s.scheduling" "Advanced Kubernetes Scheduling" "containers"
    "Node/pod affinity, anti-affinity, taints and tolerations.";
  mkSkillDef "k8s.resource-management" "Kubernetes Resource Management" "containers"
    "ResourceQuotas and LimitRanges for namespace-level constraints.";
  mkSkillDef "k8s.production-deployments" "Kubernetes Production Deployment Strategies" "containers"
    "Canary and blue/green deployments in Kubernetes.";
  mkSkillDef "k8s.autoscaling" "Kubernetes Autoscaling" "containers"
    "HPA, Cluster Autoscaler, Vertical Pod Autoscaler.";
  mkSkillDef "k8s.troubleshooting" "Kubernetes Troubleshooting" "containers"
    "Diagnosing failed deployments, resource contention, scheduling issues.";
  mkSkillDef "istio.traffic-management" "Istio Service Mesh Traffic Management" "containers"
    "VirtualServices, request routing, traffic shifting, load balancing.";
  mkSkillDef "istio.mtls-security" "Istio mTLS & Distributed Tracing" "containers"
    "Service-to-service mTLS auth, Jaeger distributed tracing.";
  mkSkillDef "tekton.pipelines" "Tekton CI/CD Pipelines" "containers"
    "Tasks, Pipelines, and PipelineRuns for in-cluster CI/CD.";
  mkSkillDef "gitops.fluxcd-argocd" "GitOps with FluxCD & Argo CD" "containers"
    "Declarative infrastructure and continuous delivery via GitOps tooling."].
Definition CLOUD : list SkillDef := [
  mkSkillDef "cloud.twelve-factor" "Twelve-Factor App Methodology" "cloud"
    "Cloud-native design patterns: environment parity, config, backing services.";
  mkSkillDef "cloud.k8s-serverless" "Kubernetes & Serverless Architectures" "cloud"
    "Choosing/combining container orchestration and serverless compute.";
  mkSkillDef "cloud.progressive-delivery" "Progressive Delivery (Canary/Blue-Green)" "cloud"
    "Gradual rollout strategies and feature-flag-driven delivery.";
  mkSkillDef "cloud.zero-trust-security" "Zero Trust Security Model" "cloud"
    "Identity-based access control and least-privilege for cloud-native systems.";
  mkSkillDef "cloud.mtls-spiffe" "mTLS & SPIFFE/SPIRE Identity" "cloud"
    "Secure service-to-service communication and workload identity.";
  mkSkillDef "cloud.aws-core-services" "AWS Core Services" "cloud"
    "Compute, storage, networking, and database services on AWS.";
  mkSkillDef "cloud.azure-core-services" "Azure Core Services" "cloud"
    "VMs, AKS, Azure Functions, Azure DevOps and ARM.";
  mkSkillDef "cloud.aws-lambda-serverless" "AWS Lambda & Serverless Computing" "cloud"
    "Building and deploying serverless functions on AWS.";
  mkSkillDef "cloud.aws-vs-azure" "AWS vs Azure Platform Selection" "cloud"
    "Contrasting scalability, pricing, and features to choose a cloud platform.";
  mkSkillDef "cloud.api-container-security" "Securing APIs, Containers & Orchestrators" "cloud"
    "Monitoring and auditing cloud-native workloads for compliance and threats."].
Definition IAC : list SkillDef := [
  mkSkillDef "ansible.basics" "Ansible Basics & Advanced" "iac"
    "Playbooks and configuration management fundamentals.";
  mkSkillDef "terraform.basics" "Terraform Configuration Language" "iac"
    "Providers, resources, variables, output/dynamic blocks, state management.";
  mkSkillDef "terraform.state-management" "Terraform State Management" "iac"
    "State file formats, state locking, and handling concurrent operations.";
  mkSkillDef "terraform.modules-workspaces" "Terraform Modules & Workspaces" "iac"
    "Reusable modules, multi-environment workspaces.";
  mkSkillDef "terraform.cloud-enterprise" "Terraform Cloud & Enterprise" "iac"
    "Remote state, collaboration, RBAC, Sentinel policy-as-code.";
  mkSkillDef "terraform.remote-state-backends" "Terraform Remote State Backends" "iac"
    "Remote state storage strategies: Terraform Cloud, S3, Azure Blob."].
Definition OBSERVABILITY : list SkillDef := [
  mkSkillDef "observability.prometheus-basics" "Prometheus & Grafana Basics" "observability"
    "Metrics collection, querying, dashboarding fundamentals.";
  mkSkillDef "observability.elk-basics" "ELK Stack Basics" "observability"
    "Elasticsearch indexing, Logstash pipelines, Kibana visualization.";
  mkSkillDef "observability.prometheus-advanced" "Advanced Prometheus & Grafana" "observability"
    "Service discovery, recording rules/alerts, dashboard templating.";
  mkSkillDef "observability.tracing" "Distributed Tracing with Jaeger" "observability"
    "Request tracing across microservices for latency/failure diagnosis.";
  mkSkillDef "observability.alerting" "Alerting & Dashboard Design" "observability"
    "Prometheus Alertmanager and Grafana alerting/dashboard practices.";
  mkSkillDef "observability.scaling-infra" "Scaling Monitoring Infrastructure" "observability"
    "Strategies for scaling Prometheus/Grafana under growing load.";
  mkSkillDef "observability.nagios-alerting" "Nagios XI Infrastructure Alerting" "observability"
    "Infrastructure health checks and alerting with Nagios XI."].
Definition AI_OPS : list SkillDef := [
  mkSkillDef "aiops.fundamentals" "AI in DevOps Fundamentals" "aiops"
    "AI/ML relevance to DevOps: automation, predictive analytics, decisioning.";
  mkSkillDef "aiops.cicd-automation" "AI-Driven CI/CD Automation" "aiops"
    "AI-assisted testing, deployment automation, code quality analysis.";
  mkSkillDef "aiops.predictive-analytics" "Predictive Analytics for DevOps" "aiops"
    "Performance forecasting, capacity planning, anomaly detection.";
  mkSkillDef "aiops.incident-management" "AI-Driven Incident Management" "aiops"
    "Automated root-cause analysis and MTTR reduction.";
  mkSkillDef "aiops.security" "AIOps Security" "aiops"
    "AI-driven threat detection, vulnerability management, compliance.";
  mkSkillDef "aiops.monitoring" "AI-Enhanced Monitoring" "aiops"
    "Anomaly detection and predictive alerts layered on existing monitoring.";
  mkSkillDef "aiops.self-healing" "AI-Driven Self-Healing Systems" "aiops"
    "Automated remediation, dynamic scaling, fault tolerance via AI."].
Definition SKILLS : list SkillDef := CORE ++ CICD ++ CONTAINERS ++ CLOUD ++ IAC ++ OBSERVABILITY ++ AI_OPS.
Definition EDGES : list EdgeDef := [
  "devops.fundamentals" ~> "linux.cli";
  "linux.cli" ~> "devops.gitops-evolution";
  "devops.gitops-evolution" ~> "iac.fundamentals";
  "iac.fundamentals" ~> "microservices.fundamentals";
  "microservices.fundamentals" ~> "microservices.devops-impact";
  "microservices.devops-impact" ~> "devsecops.fundamentals";
  "devsecops.fundamentals" ~> "devsecops.container-security-tools";
  "iac.fundamentals" ~> "iac.terraform-vs-cloudformation";
  "devsecops.container-security-tools" ~> "git.basics";
  "git.basics" ~> "git.branching-strategies";
  "git.branching-strategies" ~> "git.internals";
  "git.internals" ~> "git.workflow-patterns";
  "git.workflow-patterns" ~> "git.release-management";
  "git.release-management" ~> "jenkins.basics";
  "jenkins.basics" ~> "jenkins.pipeline-as-code";
  "jenkins.pipeline-as-code" ~> "jenkins.security-integration";
  "jenkins.security-integration" ~> "jenkins.distributed-builds";
  "jenkins.distributed-builds" ~> "jenkins.advanced-pipelines";
  "jenkins.pipeline-as-code" ~> "gitlab.cicd-pipelines";
  "gitlab.cicd-pipelines" ~> "github.actions-workflows";
  "github.actions-workflows" ~> "cicd.troubleshooting";
  "cicd.troubleshooting" ~> "docker.basics";
  "docker.basics" ~> "docker.networking";
  "docker.networking" ~> "docker.swarm";
  "docker.swarm" ~> "k8s.architecture";
  "k8s.architecture" ~> "k8s.pods";
  "k8s.pods" ~> "k8s.deployments";
  "k8s.deployments" ~> "k8s.services";
  "k8s.services" ~> "k8s.config-secrets";
  "k8s.config-secrets" ~> "k8s.helm";
  "k8s.helm" ~> "k8s.statefulsets";
  "k8s.statefulsets" ~> "k8s.storage";
  "k8s.storage" ~> "k8s.scheduling";
  "k8s.scheduling" ~> "k8s.resource-management";
  "k8s.resource-management" ~> "k8s.production-deployments";
  "k8s.production-deployments" ~> "k8s.autoscaling";
  "k8s.autoscaling" ~> "k8s.troubleshooting";
  "k8s.deployments" ~> "istio.traffic-management";
  "istio.traffic-management" ~> "istio.mtls-security";
  "k8s.deployments" ~> "tekton.pipelines";
  "tekton.pipelines" ~> "gitops.fluxcd-argocd";
  "k8s.troubleshooting" ~> "cloud.twelve-factor";
  "cloud.twelve-factor" ~> "cloud.k8s-serverless";
  "cloud.k8s-serverless" ~> "cloud.progressive-delivery";
  "cloud.progressive-delivery" ~> "cloud.zero-trust-security";
  "cloud.zero-trust-security" ~> "cloud.mtls-spiffe";
  "cloud.mtls-spiffe" ~> "cloud.api-container-security";
  "cloud.api-container-security" ~> "cloud.aws-core-services";
  "cloud.aws-core-services" ~> "cloud.aws-lambda-serverless";
  "cloud.aws-lambda-serverless" ~> "cloud.azure-core-services";
  "cloud.azure-core-services" ~> "cloud.aws-vs-azure";
  "iac.fundamentals" ~> "ansible.basics";
  "ansible.basics" ~> "terraform.basics";
  "cloud.aws-vs-azure" ~> "terraform.basics";
  "terraform.basics" ~> "terraform.state-management";
  "terraform.state-management" ~> "terraform.modules-workspaces";
  "terraform.modules-workspaces" ~> "terraform.cloud-enterprise";
  "terraform.cloud-enterprise" ~> "terraform.remote-state-backends";
  "k8s.deployments" ~> "observability.prometheus-basics";
  "observability.prometheus-basics" ~> "observability.nagios-alerting";
  "observability.nagios-alerting" ~> "observability.elk-basics";
  "observability.elk-basics" ~> "observability.prometheus-advanced";
  "observability.prometheus-advanced" ~> "observability.tracing";
  "observability.tracing" ~> "observability.alerting";
  "observability.alerting" ~> "observability.scaling-infra";
  "jenkins.pipeline-as-code" ~> "aiops.fundamentals";
  "aiops.fundamentals" ~> "aiops.cicd-automation";
  "observability.prometheus-advanced" ~> "aiops.predictive-analytics";
  "aiops.predictive-analytics" ~> "aiops.incident-management";
  "aiops.incident-management" ~> "aiops.security";
  "observability.tracing" ~> "aiops.monitoring";
  "aiops.monitoring" ~> "aiops.self-healing"].
Definition DOMAIN_ORDER : list (string * Z) := [
  ("core", 1); ("cicd", 2); ("containers", 3); ("cloud", 4); ("iac", 5); ("observability", 6); ("aiops", 7)].
End Devops.

Module Genai.
Definition PYTHON_STATS : list SkillDef := [
  mkSkillDef "python.fundamentals" "Python Programming Fundamentals" "python-stats"
    "Syntax, data types, operators, and interactive coding basics.";
  mkSkillDef "python.data-structures-control-flow" "Data Structures, Control Flow & File Operations" "python-stats"
    "Lists, tuples, sets, dicts, conditionals, loops, and file I/O.";
  mkSkillDef "python.functions-oop-exceptions" "Functions, OOP & Exception Handling" "python-stats"
    "Reusable functions, classes/objects, inheritance, and error handling.";
  mkSkillDef "python.data-analysis-visualization" "Data Analysis & Visualization" "python-stats"
    "Pandas, NumPy, Matplotlib/Seaborn for EDA and plotting."].
Definition APPLIED_ML : list SkillDef := [
  mkSkillDef "ml.data-preprocessing-feature-engineering" "Data Pre-processing & Feature Engineering" "applied-ml"
    "Missing data, outliers, scaling, encoding, and feature creation/selection.";
  mkSkillDef "ml.supervised-regression" "Supervised Learning — Regression" "applied-ml"
    "Linear/regularized regression, polynomial terms, and tree-based regressors.";
  mkSkillDef "ml.supervised-classification" "Supervised Learning — Classification" "applied-ml"
    "Logistic regression, KNN, decision trees, random forests, boosting, evaluation metrics.";
  mkSkillDef "ml.unsupervised-learning" "Unsupervised Learning" "applied-ml"
    "K-Means, hierarchical and density-based clustering, dimensionality reduction intro.";
  mkSkillDef "ml.clustering-dimensionality-reduction" "Clustering Algorithms & Dimensionality Reduction" "applied-ml"
    "PCA, t-SNE, UMAP, Gaussian Mixture Models for high-dimensional data.";
  mkSkillDef "ml.ensemble-learning" "Ensemble Learning" "applied-ml"
    "Bagging, boosting, stacking; Random Forest, XGBoost, LightGBM, CatBoost."].
Definition DEEP_LEARNING : list SkillDef := [
  mkSkillDef "dl.neural-network-foundations" "Neural Networks & Deep Learning Foundations" "deep-learning"
    "Perceptrons, forward propagation, activations, loss functions, backprop, optimizers.";
  mkSkillDef "dl.tuning-optimizing-networks" "Tuning & Optimizing Deep Neural Networks" "deep-learning"
    "Hyperparameter tuning, weight init, regularization, batch norm, LR schedules.";
  mkSkillDef "dl.cnn-fundamentals" "Convolutional Neural Networks — I" "deep-learning"
    "Convolution, pooling, CNN architecture, receptive fields, LeNet/AlexNet.";
  mkSkillDef "dl.cnn-advanced" "Convolutional Neural Networks — II" "deep-learning"
    "VGG, ResNet, DenseNet, transfer learning, object detection intro.";
  mkSkillDef "dl.recurrent-networks" "Recurrent Neural Networks" "deep-learning"
    "Sequence modeling fundamentals and RNN architecture.";
  mkSkillDef "dl.lstm-networks" "Long Short-Term Memory (LSTM) Networks" "deep-learning"
    "LSTM gates, cell state, GRU trade-offs, seq2seq, attention introduction."].
Definition NLP : list SkillDef := [
  mkSkillDef "nlp.introduction" "Introduction to NLP" "nlp"
    "NLP evolution, applications, Bag-of-Words/TF-IDF, evaluation metrics.";
  mkSkillDef "nlp.text-processing-feature-engineering" "Text Processing & Feature Engineering" "nlp"
    "Cleaning, stemming/lemmatization, n-grams, term weighting, OOV handling.";
  mkSkillDef "nlp.ner-parsing" "Named Entity Recognition (NER) & Parsing" "nlp"
    "Entity extraction, POS tagging, dependency/constituency parsing.";
  mkSkillDef "nlp.tokenization-encoding" "Tokenization & Text Encoding" "nlp"
    "Word/subword/character tokenization, Word2Vec/GloVe, contextual embeddings.";
  mkSkillDef "nlp.sentiment-analysis-essentials" "Sentiment Analysis Essentials" "nlp"
    "Lexicon-based and traditional ML sentiment classifiers.";
  mkSkillDef "nlp.sentiment-analysis-advanced" "Advanced Sentiment Analysis" "nlp"
    "RNN/transformer-based sentiment, fine-tuning BERT, aspect-based analysis.";
  mkSkillDef "nlp.neural-language-models" "Neural Language Models" "nlp"
    "Statistical vs neural LMs, seq2seq, attention/Transformer, scaling laws.";
  mkSkillDef "nlp.machine-translation" "Machine Translation" "nlp"
    "Encoder-decoder MT, attention, BLEU evaluation, Transformer-based MT.";
  mkSkillDef "nlp.speech-multimodal" "Speech & Multimodal NLP" "nlp"
    "ASR pipelines, audio features, multimodal embeddings, vision+language tasks."].
Definition GENAI_ESSENTIALS : list SkillDef := [
  mkSkillDef "genai.introduction" "Introduction to Generative AI" "genai-essentials"
    "Generative vs discriminative models, history (RBM->VAE->GAN->Transformer), evaluation metrics.";
  mkSkillDef "genai.autoencoders-gans" "Autoencoders & GANs" "genai-essentials"
    "Autoencoder/VAE architecture, GAN generator-discriminator, DCGAN/CycleGAN/StyleGAN.";
  mkSkillDef "genai.transformers-attention" "Transformers & Attention Mechanism" "genai-essentials"
    "Self-attention, scaled dot-product attention, multi-head attention, encoder/decoder.";
  mkSkillDef "genai.small-language-models" "Small Language Models" "genai-essentials"
    "Distillation, quantization/pruning, SLM vs LLM trade-offs.";
  mkSkillDef "genai.prompt-engineering-essentials" "Prompt Engineering Essentials" "genai-essentials"
    "Zero-shot, few-shot, chain-of-thought, instruction/role prompting.";
  mkSkillDef "genai.advanced-prompting" "Advanced Prompting Strategies" "genai-essentials"
    "Self-consistency, prompt chaining, retrieval-augmented prompting, guardrails."].
Definition LLM_APPS : list SkillDef := [
  mkSkillDef "llm.introduction" "Introduction to Large Language Models" "llm-apps"
    "LLM evolution, transformer deep dive, scaling laws, pretraining objectives.";
  mkSkillDef "llm.open-source-model-variants" "Open Source LLMs & Model Variants" "llm-apps"
    "LLaMA 2, Falcon, Mistral, BLOOM; quantization/pruning for inference.";
  mkSkillDef "llm.vector-databases" "Vector Databases" "llm-apps"
    "Text embeddings, similarity search, FAISS/Pinecone/Weaviate/Chroma, indexing strategies.";
  mkSkillDef "llm.rag-techniques" "Retrieval-Augmented Generation (RAG) Techniques" "llm-apps"
    "Retriever+reader architecture, chunking, query rewriting/reranking, hybrid retrieval.";
  mkSkillDef "llm.frameworks-development" "LLM Frameworks & Development" "llm-apps"
    "LangChain, LlamaIndex, Hugging Face + PEFT, agent architectures (ReAct).";
  mkSkillDef "llm.application-development" "LLM Application Development" "llm-apps"
    "Prompt patterns, tool usage, conversation memory, context window optimization.";
  mkSkillDef "llm.fine-tuning-adaptation" "Fine-tuning & Model Adaptation" "llm-apps"
    "Full fine-tuning vs LoRA/QLoRA/adapters, RLHF alignment, dataset curation.";
  mkSkillDef "llm.application-deployment" "Generative AI Application Deployment" "llm-apps"
    "REST/gRPC/serverless deployment, GPU scheduling, inference load balancing, LLMOps.";
  mkSkillDef "llm.caching-routing" "LLM Caching & Routing Techniques" "llm-apps"
    "Prompt/semantic caching, KV cache reuse, multi-LLM routing, Mixture-of-Experts.";
  mkSkillDef "llm.evaluation-responsible-ai" "Evaluation, Metrics & Responsible AI for LLMs" "llm-apps"
    "BLEU/ROUGE/BERTScore, human eval, bias/toxicity mitigation, governance/compliance."].
Definition AGENTIC_AI : list SkillDef := [
  mkSkillDef "agentic.essentials" "Agentic AI Essentials" "agentic-ai"
    "Agent loop (perceive-plan-act-reflect), autonomy, memory, enterprise applications.";
  mkSkillDef "agentic.architectures-design-patterns" "Architectures & Design Patterns" "agentic-ai"
    "ReAct, Plan-and-Execute, Reflexion; error handling, human-in-the-loop.";
  mkSkillDef "agentic.langchain-lcel" "Working with LangChain & LCEL" "agentic-ai"
    "LCEL declarative pipelines, tool integration, persistent memory, async execution.";
  mkSkillDef "agentic.langgraph-agents" "Building AI Agents with LangGraph" "agentic-ai"
    "Graph-based orchestration: nodes, edges, cycles, branching, fault tolerance.";
  mkSkillDef "agentic.agentic-rag" "Implementing Agentic RAG" "agentic-ai"
    "Multi-step adaptive retrieval, hybrid retrieval, memory-augmented RAG.";
  mkSkillDef "agentic.phidata-agents" "Developing AI Agents with Phidata" "agentic-ai"
    "Python-first agent framework: memory persistence, API/DB integration.";
  mkSkillDef "agentic.multi-agent-systems" "Multi-Agent Systems with LangGraph & CrewAI" "agentic-ai"
    "Leader-worker vs peer-to-peer orchestration, role specialization, coordination.";
  mkSkillDef "agentic.autogen-development" "Advanced Agent Development with Autogen" "agentic-ai"
    "Microsoft Autogen: modular agent roles, communication rules, multi-agent conversations.";
  mkSkillDef "agentic.observability-agentops" "AI Agent Observability & AgentOps" "agentic-ai"
    "Tracing, LangSmith integration, lifecycle governance, runaway-agent prevention.";
  mkSkillDef "agentic.rag-architecture-vector-dbs" "RAG Architecture with Vector DBs" "agentic-ai"
    "Vector DB fundamentals at scale, indexing algorithms, hybrid search schema design.";
  mkSkillDef "agentic.advanced-rag-evaluation" "Advanced RAG Patterns & Evaluation" "agentic-ai"
    "Hierarchical RAG, context compression, automated benchmarks (RAGAS/HELM/GAIA).";
  mkSkillDef "agentic.ci-cd-scaling" "Continuous Integration, Deployment & Scaling for LLMs" "agentic-ai"
    "CI/CD for agents, canary deployments, versioning, drift detection, secure pipelines."].
Definition SKILLS : list SkillDef := PYTHON_STATS ++ APPLIED_ML ++ DEEP_LEARNING ++ NLP ++ GENAI_ESSENTIALS ++ LLM_APPS ++ AGENTIC_AI.
Definition EDGES : list EdgeDef := [
  "python.fundamentals" ~> "python.data-structures-control-flow";
  "python.data-structures-control-flow" ~> "python.functions-oop-exceptions";
  "python.functions-oop-exceptions" ~> "python.data-analysis-visualization";
  "python.data-analysis-visualization" ~> "ml.data-preprocessing-feature-engineering";
  "ml.data-preprocessing-feature-engineering" ~> "ml.supervised-regression";
  "ml.supervised-regression" ~> "ml.supervised-classification";
  "ml.supervised-classification" ~> "ml.unsupervised-learning";
  "ml.unsupervised-learning" ~> "ml.clustering-dimensionality-reduction";
  "ml.clustering-dimensionality-reduction" ~> "ml.ensemble-learning";
  "ml.ensemble-learning" ~> "dl.neural-network-foundations";
  "dl.neural-network-foundations" ~> "dl.tuning-optimizing-networks";
  "dl.tuning-optimizing-networks" ~> "dl.cnn-fundamentals";
  "dl.cnn-fundamentals" ~> "dl.cnn-advanced";
  "dl.cnn-advanced" ~> "dl.recurrent-networks";
  "dl.recurrent-networks" ~> "dl.lstm-networks";
  "dl.lstm-networks" ~> "nlp.introduction";
  "nlp.introduction" ~> "nlp.text-processing-feature-engineering";
  "nlp.text-processing-feature-engineering" ~> "nlp.ner-parsing";
  "nlp.ner-parsing" ~> "nlp.tokenization-encoding";
  "nlp.tokenization-encoding" ~> "nlp.sentiment-analysis-essentials";
  "nlp.sentiment-analysis-essentials" ~> "nlp.sentiment-analysis-advanced";
  "nlp.sentiment-analysis-advanced" ~> "nlp.neural-language-models";
  "nlp.neural-language-models" ~> "nlp.machine-translation";
  "nlp.machine-translation" ~> "nlp.speech-multimodal";
  "nlp.speech-multimodal" ~> "genai.introduction";
  "genai.introduction" ~> "genai.autoencoders-gans";
  "genai.autoencoders-gans" ~> "genai.transformers-attention";
  "genai.transformers-attention" ~> "genai.small-language-models";
  "genai.small-language-models" ~> "genai.prompt-engineering-essentials";
  "genai.prompt-engineering-essentials" ~> "genai.advanced-prompting";
  "genai.advanced-prompting" ~> "llm.introduction";
  "llm.introduction" ~> "llm.open-source-model-variants";
  "llm.open-source-model-variants" ~> "llm.vector-databases";
  "llm.vector-databases" ~> "llm.rag-techniques";
  "llm.rag-techniques" ~> "llm.frameworks-development";
  "llm.frameworks-development" ~> "llm.application-development";
  "llm.application-development" ~> "llm.fine-tuning-adaptation";
  "llm.fine-tuning-adaptation" ~> "llm.application-deployment";
  "llm.application-deployment" ~> "llm.caching-routing";
  "llm.caching-routing" ~> "llm.evaluation-responsible-ai";
  "llm.evaluation-responsible-ai" ~> "agentic.essentials";
  "agentic.essentials" ~> "agentic.architectures-design-patterns";
  "agentic.architectures-design-patterns" ~> "agentic.langchain-lcel";
  "agentic.langchain-lcel" ~> "agentic.langgraph-agents";
  "agentic.langgraph-agents" ~> "agentic.agentic-rag";
  "agentic.agentic-rag" ~> "agentic.phidata-agents";
  "agentic.phidata-agents" ~> "agentic.multi-agent-systems";
  "agentic.multi-agent-systems" ~> "agentic.autogen-development";
  "agentic.autogen-development" ~> "agentic.observability-agentops";
  "agentic.observability-agentops" ~> "agentic.rag-architecture-vector-dbs";
  "agentic.rag-architecture-vector-dbs" ~> "agentic.advanced-rag-evaluation";
  "agentic.advanced-rag-evaluation" ~> "agentic.ci-cd-scaling"].
Definition DOMAIN_ORDER : list (string * Z) := [
  ("python-stats", 1); ("applied-ml", 2); ("deep-learning", 3); ("nlp", 4); ("genai-essentials", 5); ("llm-apps", 6); ("agentic-ai", 7)].
End Genai.

Module Sre.
Definition SRE_SKILLS : list SkillDef := [
  mkSkillDef "sre.slo-error-budgets" "SLOs and Error Budgets" "sre"
    ("Defining SLIs/SLOs, computing error budgets, and using budget burn rate to gate risk (deploy freezes, prioritisation) -- the quantitative half of doc §1.3.2's " ++ dquoted "business impact" ++ " ticket framing.");
  mkSkillDef "sre.incident-response-process" "Incident Response Process" "sre"
    "Severity classification, escalation, and structured on-call response during a live incident -- the process discipline around the diagnostic skills k8s.troubleshooting/observability.* already cover, not a replacement for them.";
  mkSkillDef "sre.postmortem-authorship" "Blameless Postmortem Authorship" "sre"
    "Writing a root-cause/remediation/prevention incident note per a fixed rubric -- doc §6.5's rub.incident-note.v2, first AI-graded artifact type, is the assessment mechanism for this exact skill.";
  mkSkillDef "sre.capacity-and-load" "Capacity Planning Under Load" "sre"
    ("Reading load/latency signals to size replica counts and autoscaling policy correctly -- pairs with the existing k8s.autoscaling skill but focused on the SRE lens (SLO-driven capacity, not just " ++ dquoted "how HPA works" ++ ").")].
Definition EDGES : list EdgeDef := [
  "k8s.troubleshooting" ~> "sre.incident-response-process";
  "observability.alerting" ~> "sre.slo-error-budgets";
  "k8s.autoscaling" ~> "sre.capacity-and-load";
  "sre.incident-response-process" ~> "sre.postmortem-authorship";
  "sre.slo-error-budgets" ~> "sre.postmortem-authorship"].
End Sre.

Module Backfill.
Definition DOMAIN_ORDER : list (string * Z) := [
  ("core", 1); ("cicd", 2); ("containers", 3); ("cloud", 4); ("iac", 5); ("observability", 6); ("aiops", 7)].
Definition SLUG_ORDER : list string := [
  "devops.fundamentals"; "linux.cli"; "devops.gitops-evolution"; "iac.fundamentals";
  "microservices.fundamentals"; "microservices.devops-impact"; "devsecops.fundamentals";
  "devsecops.container-security-tools"; "iac.terraform-vs-cloudformation"; "git.basics";
  "git.branching-strategies"; "git.internals"; "git.workflow-patterns"; "git.release-management";
  "jenkins.basics"; "jenkins.pipeline-as-code"; "jenkins.security-integration"; "jenkins.distributed-builds";
  "jenkins.advanced-pipelines"; "gitlab.cicd-pipelines"; "github.actions-workflows"; "cicd.troubleshooting";
  "docker.basics"; "docker.networking"; "docker.swarm"; "k8s.architecture"; "k8s.pods"; "k8s.deployments";
  "k8s.services"; "k8s.config-secrets"; "k8s.helm"; "k8s.statefulsets"; "k8s.storage"; "k8s.scheduling";
  "k8s.resource-management"; "k8s.production-deployments"; "k8s.autoscaling"; "k8s.troubleshooting";
  "istio.traffic-management"; "istio.mtls-security"; "tekton.pipelines"; "gitops.fluxcd-argocd";
  "cloud.twelve-factor"; "cloud.k8s-serverless"; "cloud.progressive-delivery"; "cloud.zero-trust-security";
  "cloud.mtls-spiffe"; "cloud.api-container-security"; "cloud.aws-core-services";
  "cloud.aws-lambda-serverless"; "cloud.azure-core-services"; "cloud.aws-vs-azure"; "ansible.basics";
  "terraform.basics"; "terraform.state-management"; "terraform.modules-workspaces";
  "terraform.cloud-enterprise"; "terraform.remote-state-backends"; "observability.prometheus-basics";
  "observability.nagios-alerting"; "observability.elk-basics"; "observability.prometheus-advanced";
  "observability.tracing"; "observability.alerting"; "observability.scaling-infra"; "aiops.fundamentals";
  "aiops.cicd-automation"; "aiops.predictive-analytics"; "aiops.incident-management"; "aiops.security";
  "aiops.monitoring"; "aiops.self-healing"].
End Backfill.
