(* ===== verification/SkillSeeds.v ===== *)
(** * Seeding the skill graph

    The scripts practice-core/scripts/seed-skills.ts, seed-skills-genai.ts,
    seed-skills-sre.ts and backfill-skill-order.ts over the tables of
    SkillData.v: what a run leaves in skill.skill, skill.skill_edge and the
    closure, and what a failed run leaves. *)
From S2P Require Import Prelude JsNum JsText Effects Schema AttemptStatus SkillGraph SkillData.

(** ** The scripts *)

(** [DOMAIN_ORDER[domain] ?? 999]. *)
Definition domain_order (table : list (string * Z)) (domain : string) : Z :=
  default 999%Z (snd <$> List.find (fun kv => String.eqb kv.1 domain) table).
(** [(domainSeq.get(domain) ?? 0) + 1]. *)
Definition next_sequence (domainSeq : gmap string Z) (domain : string) : Z :=
  (default 0 (domainSeq !! domain) + 1)%Z.

Definition skill_input (order : string -> Z) (courseSlug : option string) (d : SkillDef) (sequence : Z) : SkillInput :=
  mkSkillInput (sd_slug d) (sd_name d) (sd_domain d) (Some (sd_description d)) None
    (Some (order (sd_domain d))) (Some sequence) courseSlug.

(** The first loop of [main]: [idBySlug] of the inserted rows. *)
Fixpoint insert_skills (order : string -> Z) (courseSlug : option string) (l : list SkillDef)
    (idBySlug : gmap string Id) (domainSeq : gmap string Z) : prog Store (gmap string Id) :=
  match l with
  | [] => Ret idBySlug
  | d :: l =>
      let sequence := next_sequence domainSeq (sd_domain d) in
      let* row := createSkill (skill_input order courseSlug d sequence) in
      insert_skills order courseSlug l (<[sd_slug d := row.1]> idBySlug) (<[sd_domain d := sequence]> domainSeq)
  end.
(** The second loop; an edge of an unknown slug is skipped. *)
Definition insert_edge (idBySlug : gmap string Id) (e : EdgeDef) : prog Store unit :=
  match idBySlug !! ed_from e, idBySlug !! ed_to e with
  | Some fromId, Some toId => addEdge fromId toId REQUIRES
  | _, _ => Ret tt
  end.

Definition seed (order : string -> Z) (courseSlug : option string) (skills : list SkillDef) (edges : list EdgeDef)
    : prog Store unit :=
  let* idBySlug := insert_skills order courseSlug skills ∅ ∅ in
  for_each edges (insert_edge idBySlug) ;;
  rebuildClosure.
Definition seed_skills : prog Store unit :=
  seed (domain_order Devops.DOMAIN_ORDER) None Devops.SKILLS Devops.EDGES.
Definition seed_skills_genai : prog Store unit :=
  seed (domain_order Genai.DOMAIN_ORDER) (Some "genai-with-ml"%string) Genai.SKILLS Genai.EDGES.

(** seed-skills-sre.ts has one counter, and reads all slugs again for its edges. *)
Fixpoint insert_sre_skills (l : list SkillDef) (sequence : Z) : prog Store unit :=
  match l with
  | [] => Ret tt
  | d :: l =>
      createSkill (skill_input (fun _ => 8%Z) (Some "sre"%string) d (sequence + 1)) ;;
      insert_sre_skills l (sequence + 1)
  end.
Definition slug_map (s : Store) : gmap string Id :=
  list_to_map ((fun kv : Id * Skill => (sk_slug kv.2, kv.1)) <$> reverse (map_to_list (skills s))).
Definition seed_skills_sre : prog Store unit :=
  insert_sre_skills Sre.SRE_SKILLS 0 ;;
  let* allIdBySlug := select slug_map in
  for_each Sre.EDGES (insert_edge allIdBySlug) ;;
  rebuildClosure.

(** backfill-skill-order.ts: the slugs updated and those not found. *)
Fixpoint backfill_loop (slugs : list string) (domainSeq : gmap string Z) (updated missing : nat) : prog Store (nat * nat) :=
  match slugs with
  | [] => Ret (updated, missing)
  | slug :: slugs =>
      let* row := findBySlug slug in
      match row with
      | None => backfill_loop slugs domainSeq updated (S missing)
      | Some row =>
          let domain := sk_domain row.2 in
          let sequence := next_sequence domainSeq domain in
          execute (fun s => s <| skills ::= fmap (fun k =>
            if String.eqb (sk_slug k) slug
            then k <| sk_domain_order := domain_order Backfill.DOMAIN_ORDER domain |> <| sk_sequence := sequence |>
            else k) |>) ;;
          backfill_loop slugs (<[domain := sequence]> domainSeq) (S updated) missing
      end
  end.
Definition backfill : prog Store (nat * nat) := backfill_loop Backfill.SLUG_ORDER ∅ 0 0.

(** ** Skills by slug *)
Lemma has_slug_spec slug kv : has_slug slug kv = true <-> sk_slug kv.2 = slug.
Proof. unfold has_slug. apply bool_decide_eq_true. Qed.
Lemma find_skill_some slug s id k : find_skill slug s = Some (id, k) -> skills s !! id = Some k /\ sk_slug k = slug.
Proof.
  unfold find_skill. intros E%head_Some_elem_of%elem_filter. rewrite elem_of_map_to_list, has_slug_spec in E. exact E.
Qed.
Lemma find_skill_none slug s : find_skill slug s = None <-> forall id k, skills s !! id = Some k -> sk_slug k <> slug.
Proof.
  unfold find_skill. split.
  - intros E id k L S. apply head_None in E.
    assert ((id, k) ∈ List.filter (has_slug slug) (map_to_list (skills s))) as X by
      (apply elem_filter; rewrite elem_of_map_to_list, has_slug_spec; auto).
    rewrite E in X. now apply elem_of_nil in X.
  - intros N. destruct (List.filter _ _) as [| [id k] l] eqn:E; [reflexivity|].
    assert ((id, k) ∈ (id, k) :: l) as X by left. rewrite <- E in X. apply elem_filter in X as [X S].
    apply elem_of_map_to_list in X. apply has_slug_spec in S. now apply (N id k) in X.
Qed.
Lemma fresh_skill_none s : skills s !! fresh_skill s = None.
Proof. apply not_elem_of_dom. unfold fresh_skill. apply is_fresh. Qed.
Lemma run_createSkill i s : find_skill (si_slug i) s = None ->
  run (createSkill i) s = (inr (fresh_skill s, new_skill i), s <| skills ::= <[fresh_skill s := new_skill i]> |>).
Proof. intros N. unfold createSkill. now rewrite run_act, N. Qed.
Lemma run_createSkill_taken i s : find_skill (si_slug i) s <> None -> run (createSkill i) s = (inl (DbError "skill_slug_key"), s).
Proof. intros N. unfold createSkill. rewrite run_act. now destruct (find_skill (si_slug i) s). Qed.

(** A row is found again after rows of other slugs come in. *)
Lemma find_skill_insert slug s i : sk_slug i <> slug ->
  find_skill slug (s <| skills ::= <[fresh_skill s := i]> |>) = None <-> find_skill slug s = None.
Proof.
  intros N. rewrite !find_skill_none. cbn. pose proof (fresh_skill_none s) as F. split; intros A id k.
  - intros L. apply (A id k). rewrite lookup_insert_ne; congruence.
  - intros [ [_ <-]|[_ L] ]%lookup_insert_Some; [exact N | eauto].
Qed.

Section Course.
Variables (order : string -> Z) (courseSlug : option string).
Abbreviation inserting := (insert_skills order courseSlug).
Abbreviation row d n := (new_skill (skill_input order courseSlug d n)).

(** The rows of a table of skills, in its order. *)
Fixpoint seeded_rows (l : list SkillDef) (domainSeq : gmap string Z) : list Skill :=
  match l with
  | [] => []
  | d :: l =>
      let sequence := next_sequence domainSeq (sd_domain d) in
      row d sequence :: seeded_rows l (<[sd_domain d := sequence]> domainSeq)
  end.
Definition same_domain (d d' : SkillDef) : bool := String.eqb (sd_domain d') (sd_domain d).
Lemma seeded_rows_lookup l : forall seqs i d, l !! i = Some d ->
  seeded_rows l seqs !! i =
  Some (row d (next_sequence seqs (sd_domain d) + Z.of_nat (length (List.filter (same_domain d) (take i l))))%Z).
Proof.
  induction l as [|d' l IH]; intros seqs [|i] d; cbn -[next_sequence]; try easy.
  - intros [= ->]. now rewrite Z.add_0_r.
  - intros L. rewrite (IH _ i d L). do 2 f_equal. unfold same_domain at 2. unfold next_sequence.
    destruct (String.eqb_spec (sd_domain d') (sd_domain d)) as [E|E].
    + rewrite E, lookup_insert_eq. cbn [length]. f_equal. cbn [default from_option id]. lia.
    + now rewrite lookup_insert_ne by congruence.
Qed.
Lemma seeded_rows_length l seqs : length (seeded_rows l seqs) = length l.
Proof. revert seqs. induction l; intros; cbn; auto. Qed.

Lemma run_insert_skills l : forall ids seqs s, NoDup (sd_slug <$> l) -> (forall d, d ∈ l -> find_skill (sd_slug d) s = None) ->
  exists js, length js = length l /\ NoDup js /\ (forall j, j ∈ js -> skills s !! j = None) /\
    run (inserting l ids seqs) s =
      (inr (list_to_map (zip (sd_slug <$> l) js) ∪ ids), s <| skills := list_to_map (zip js (seeded_rows l seqs)) ∪ skills s |>).
Proof.
  induction l as [|d l IH]; intros ids seqs s N F.
  - exists []. split_and!; [easy | constructor | now intros j []%elem_of_nil |]. cbn. rewrite !map_empty_union. now destruct s.
  - apply NoDup_cons in N as [Nd N]. cbn [insert_skills]. rewrite run_bind.
    pose proof (F d ltac:(left)) as Fd. rewrite run_createSkill by exact Fd. cbn [si_slug skill_input].
    set (n := next_sequence seqs (sd_domain d)). set (s1 := s <| skills ::= _ |>).
    edestruct (IH (<[sd_slug d := fresh_skill s]> ids) (<[sd_domain d := n]> seqs) s1 N) as (js & L & Nj & Fj & R).
    { intros d' I. apply find_skill_insert; [|apply F; now right]. cbn. intros E. apply Nd. rewrite E. now apply list_elem_of_fmap_2. }
    assert (forall j, j ∈ js -> skills s !! j = None /\ j <> fresh_skill s) as Fj'.
    { intros j I. specialize (Fj j I). cbn in Fj. apply lookup_insert_None in Fj as [A B]. auto. }
    exists (fresh_skill s :: js). cbn [fst]. rewrite R. split_and!.
    + cbn. lia.
    + constructor; [|exact Nj]. intros I. now apply Fj' in I.
    + intros j [->|I]%elem_of_cons; [apply fresh_skill_none | now apply Fj'].
    + cbn [zip zip_with fmap list_fmap list_to_map]. f_equal.
      * f_equal. cbn. rewrite <- insert_union_l. symmetry. rewrite insert_union_r; [reflexivity|].
        apply not_elem_of_list_to_map. rewrite fst_zip by (rewrite length_fmap; lia). exact Nd.
      * unfold s1. cbn. rewrite <- insert_union_l, insert_union_r; [reflexivity|].
        apply not_elem_of_list_to_map. rewrite fst_zip by (rewrite seeded_rows_length; lia). intros I. now apply Fj' in I.
Qed.

(** A run of the first loop that fails leaves the first row of the table. *)
Lemma insert_skills_failed l : forall ids seqs s e s', run (inserting l ids seqs) s = (inl e, s') ->
  e = DbError "skill_slug_key" /\ (exists m, s' = s <| skills := m |>) /\ skills s ⊆ skills s' /\
  (forall d, head l = Some d -> find_skill (sd_slug d) s' <> None).
Proof.
  induction l as [|d l IH]; intros ids seqs s e s'; cbn [insert_skills]; [easy|]. rewrite run_bind.
  destruct (find_skill (sd_slug d) s) as [kv|] eqn:F.
  - rewrite run_createSkill_taken by (cbn; congruence). intros [= <- <-]. split_and!; [easy | exists (skills s); now destruct s | easy |].
    intros d' [= <-]. congruence.
  - rewrite run_createSkill by exact F. intros R. apply IH in R as (-> & (m & ->) & I & _). cbn in I |- *.
    split_and!; [easy | now exists m | | ].
    + etransitivity; [apply insert_subseteq, fresh_skill_none | exact I].
    + intros d' [= <-]. rewrite find_skill_none. cbn. intros A.
      refine (A (fresh_skill s) _ (lookup_weaken _ _ _ _ (lookup_insert_eq _ _ _) I) eq_refl).
Qed.
End Course.

(** ** The graph of slugs a store holds *)
Definition slug_is (s : Store) (slug : string) (id : Id) : Prop := exists k, skills s !! id = Some k /\ sk_slug k = slug.
Definition authored (T : list EdgeDef) (s : Store) (e : SkillEdge) : Prop :=
  exists ed, ed ∈ T /\ slug_is s (ed_from ed) (se_from e) /\ slug_is s (ed_to ed) (se_to e) /\ se_type e = REQUIRES.
Definition ends_in (slugs : list string) (ed : EdgeDef) : bool :=
  bool_decide (ed_from ed ∈ slugs) && bool_decide (ed_to ed ∈ slugs).

(** One row for each slug of [slugs], and an edge for each of [T]. *)
Record holds (slugs : list string) (T : list EdgeDef) (s : Store) : Prop := mkHolds {
  ho_slugs : forall slug, slug ∈ slugs <-> exists id, slug_is s slug id;
  ho_unique : forall slug id id', slug_is s slug id -> slug_is s slug id' -> id = id';
  ho_edges : forall e, e ∈ skill_edges s <-> authored T s e;
  ho_closed : forallb (ends_in slugs) T = true }.

Lemma holds_empty s : skills s = ∅ -> skill_edges s = [] -> holds [] [] s.
Proof.
  intros K E. split.
  - intros slug. split; [now intros []%elem_of_nil | intros (id & k & L & _); now rewrite K in L].
  - intros slug id id' (k & L & _). now rewrite K in L.
  - intros e. rewrite E. split; [now intros []%elem_of_nil | now intros (ed & []%elem_of_nil & _)].
  - reflexivity.
Qed.

(** Rows of new slugs come in. *)
Lemma zip_lookup {A} (js : list Id) (rows : list A) j k : NoDup js -> length js = length rows ->
  (list_to_map (zip js rows) : gmap Id A) !! j = Some k <-> exists i, js !! i = Some j /\ rows !! i = Some k.
Proof.
  intros N L. rewrite <- elem_of_list_to_map by (rewrite fst_zip; [exact N | lia]).
  rewrite list_elem_of_lookup. split.
  - intros (i & E). apply lookup_zip_with_Some in E as (x & y & [= -> ->] & X & Y). eauto.
  - intros (i & X & Y). exists i. apply lookup_zip_with_Some. eauto.
Qed.

Lemma holds_grow slugs T s js rows : holds slugs T s ->
  NoDup js -> length js = length rows -> (forall j, j ∈ js -> skills s !! j = None) ->
  NoDup (sk_slug <$> rows) -> (forall slug, slug ∈ sk_slug <$> rows -> slug ∉ slugs) ->
  let s1 := s <| skills := list_to_map (zip js rows) ∪ skills s |> in
  holds (slugs ++ (sk_slug <$> rows)) T s1 /\
  (forall i j k, js !! i = Some j -> rows !! i = Some k -> slug_is s1 (sk_slug k) j).
Proof.
  intros H Nj L Fj Nr D s1.
  assert (forall slug id, slug_is s1 slug id <-> slug_is s slug id \/
    exists i k, js !! i = Some id /\ rows !! i = Some k /\ sk_slug k = slug) as Slug.
  { intros slug id. unfold slug_is, s1. cbn. setoid_rewrite lookup_union_Some; [|apply map_disjoint_spec;
      intros j r r' (i & J & _)%zip_lookup L'; [|easy..]; apply list_elem_of_lookup_2, Fj in J; congruence].
    setoid_rewrite zip_lookup; [|easy..]. firstorder eauto. }
  assert (forall slug id, slug ∈ slugs -> slug_is s1 slug id <-> slug_is s slug id) as Old.
  { intros slug id I. rewrite Slug. split; [|tauto]. intros [X|(i & k & _ & R & <-)]; [exact X|].
    apply list_elem_of_lookup_2 in R. apply (list_elem_of_fmap_2 sk_slug) in R. now apply D in R. }
  split; [split|].
  - intros slug. rewrite elem_of_app, (ho_slugs _ _ _ H), list_elem_of_fmap. setoid_rewrite Slug. split.
    + intros [ [id X] |(k & -> & (i & R)%list_elem_of_lookup)]; [eauto|].
      destruct (lookup_lt_is_Some_2 js i) as [j J]; [apply lookup_lt_Some in R; lia|]. exists j. right. eauto.
    + intros (id & [X|(i & k & J & R & <-)]); [eauto|]. right. exists k. split; [easy | now apply list_elem_of_lookup_2 in R].
  - intros slug id id'. rewrite !Slug. intros [X|(i & k & J & R & E)] [X'|(i' & k' & J' & R' & E')].
    + eapply ho_unique; eauto.
    + exfalso. apply (D slug); [apply list_elem_of_fmap; exists k'; split; [easy | now apply list_elem_of_lookup_2 in R'] | eapply ho_slugs; eauto].
    + exfalso. apply (D slug); [apply list_elem_of_fmap; exists k; split; [easy | now apply list_elem_of_lookup_2 in R] | eapply ho_slugs; eauto].
    + assert (i = i') as <-; [|congruence]. apply (NoDup_lookup (sk_slug <$> rows) i i' slug Nr);
        rewrite list_lookup_fmap, ?R, ?R'; cbn; congruence.
  - intros e. cbn. rewrite (ho_edges _ _ _ H). unfold authored. pose proof (ho_closed _ _ _ H) as C. rewrite forallb_forall in C.
    split; intros (ed & I & F & G & Y); exists ed; specialize (C ed (proj1 (list_elem_of_In _ _) I));
      unfold ends_in in C; apply andb_true_iff in C as [C1%bool_decide_eq_true C2%bool_decide_eq_true]; split_and!; try easy;
      (apply Old; easy) || (apply (Old _ _ C1); easy) || (apply (Old _ _ C2); easy).
  - pose proof (ho_closed _ _ _ H) as C. rewrite forallb_forall in C |- *. intros ed I. specialize (C ed I).
    unfold ends_in in *. apply andb_true_iff in C as [C1%bool_decide_eq_true C2%bool_decide_eq_true].
    rewrite andb_true_iff, !bool_decide_eq_true, !elem_of_app. auto.
  - intros i j k J R. apply Slug. right. eauto.
Qed.

(** The second loop: every edge whose two slugs have a row. *)
Lemma run_addEdge f t ty s : exists E, run (addEdge f t ty) s = (inr tt, s <| skill_edges := E |>) /\
  forall e, e ∈ E <-> e ∈ skill_edges s \/ e = mkSkillEdge f t ty.
Proof.
  unfold addEdge. autorewrite with run. destruct (existsb _ _) eqn:X.
  - exists (skill_edges s). split; [now destruct s|]. intros e. split; [auto|]. intros [I| ->]; [easy|].
    apply existsb_exists in X as ([a b c] & I & Y). rewrite !andb_true_iff, !Nat.eqb_eq, bool_decide_eq_true in Y.
    cbn in Y. destruct Y as [ [-> ->] ->]. now apply list_elem_of_In.
  - eexists. split; [reflexivity|]. intros e. now rewrite elem_of_app, list_elem_of_singleton.
Qed.
Lemma run_insert_edges (ids : gmap string Id) edges : forall s, exists E,
  run (for_each edges (insert_edge ids)) s = (inr tt, s <| skill_edges := E |>) /\
  forall e, e ∈ E <-> e ∈ skill_edges s \/ exists ed f t, ed ∈ edges /\ ids !! ed_from ed = Some f /\ ids !! ed_to ed = Some t /\
                                           e = mkSkillEdge f t REQUIRES.
Proof.
  induction edges as [|ed edges IH]; intros s; cbn [for_each].
  - exists (skill_edges s). split; [now destruct s|]. intros e. split; [auto|]. now intros [I|(ed & f & t & []%elem_of_nil & _)].
  - rewrite run_bind. unfold insert_edge at 1. destruct (ids !! ed_from ed) as [f|] eqn:F; [destruct (ids !! ed_to ed) as [t|] eqn:T|].
    1: { destruct (run_addEdge f t REQUIRES s) as (E1 & -> & S1). destruct (IH (s <| skill_edges := E1 |>)) as (E & -> & SE).
         exists E. split; [reflexivity|]. intros e. rewrite SE. cbn. rewrite S1. setoid_rewrite elem_of_cons. split.
         - intros [ [I| ->]|(ed' & f' & t' & I & X)]; [auto | right; exists ed, f, t; auto | right; exists ed', f', t'; tauto].
         - intros [I|(ed' & f' & t' & [->|I] & F' & T' & ->)]; [auto | left; right; congruence | right; exists ed', f', t'; auto]. }
    all: cbn [run]; destruct (IH s) as (E & -> & SE); exists E; split; [reflexivity|]; intros e; rewrite SE; setoid_rewrite elem_of_cons.
    all: split; [intros [I|(ed' & f' & t' & I & X)]; [auto | right; exists ed', f', t'; tauto]
               | intros [I|(ed' & f' & t' & [->|I] & F' & T' & ->)]; [auto | congruence | right; exists ed', f', t'; auto] ].
Qed.
Lemma holds_edges slugs T edges s (ids : gmap string Id) E : holds slugs T s -> forallb (ends_in slugs) edges = true ->
  (forall ed, ed ∈ edges -> forall slug, slug = ed_from ed \/ slug = ed_to ed -> forall id, ids !! slug = Some id <-> slug_is s slug id) ->
  (forall e, e ∈ E <-> e ∈ skill_edges s \/ exists ed f t, ed ∈ edges /\ ids !! ed_from ed = Some f /\ ids !! ed_to ed = Some t /\
                                           e = mkSkillEdge f t REQUIRES) ->
  holds slugs (T ++ edges) (s <| skill_edges := E |>).
Proof.
  intros H C I SE. split; cbn; [apply H | apply H | | rewrite forallb_app, C; now rewrite (ho_closed _ _ _ H)].
  intros e. rewrite SE, (ho_edges _ _ _ H). unfold authored. setoid_rewrite elem_of_app. split.
  - intros [(ed & X & Y)|(ed & f & t & X & F & G & ->)]; [exists ed; tauto|]. exists ed. cbn. split_and!; [tauto | | | easy];
      eapply I; eauto.
  - intros (ed & [X|X] & F & G & Y); [left; exists ed; auto | right; exists ed, (se_from e), (se_to e)].
    split_and!; [easy | eapply I; eauto | eapply I; eauto | destruct e; cbn in *; congruence].
Qed.

Definition ends_of (edges : list EdgeDef) : list string := (ed_from <$> edges) ++ (ed_to <$> edges).

Lemma seeded_slugs order courseSlug l : forall seqs, sk_slug <$> seeded_rows order courseSlug l seqs = sd_slug <$> l.
Proof. induction l as [|d l IH]; intros seqs; cbn -[next_sequence]; [easy|]. now rewrite IH. Qed.

Lemma absent_slugs slugs T s slug : holds slugs T s -> slug ∉ slugs <-> find_skill slug s = None.
Proof.
  intros H. rewrite (ho_slugs _ _ _ H), find_skill_none. split.
  - intros N id k L E. apply N. exists id, k. auto.
  - intros N (id & k & L & E). now apply (N id k).
Qed.

(** What a script of one course leaves. *)
Lemma run_seed order courseSlug l edges slugs T s : holds slugs T s ->
  NoDup (sd_slug <$> l) -> (forall slug, slug ∈ sd_slug <$> l -> slug ∉ slugs) ->
  forallb (ends_in (sd_slug <$> l)) edges = true ->
  exists js E ws, NoDup js /\ length js = length l /\ (forall j, j ∈ js -> skills s !! j = None) /\
    let s' := s <| skills := list_to_map (zip js (seeded_rows order courseSlug l ∅)) ∪ skills s |> <| skill_edges := E |> in
    run (seed order courseSlug l edges) s = (inr tt, s' <| skill_closure := closure_of ws |>) /\
    holds (slugs ++ (sd_slug <$> l)) (T ++ edges) s' /\ walk E = Some ws.
Proof.
  intros H N D C. destruct (run_insert_skills order courseSlug l ∅ ∅ s N) as (js & L & Nj & Fj & R).
  { intros d I. eapply absent_slugs; [exact H|]. now apply D, list_elem_of_fmap_2. }
  rewrite map_union_empty in R. set (rows := seeded_rows order courseSlug l ∅) in *. set (s1 := s <| skills := _ |>) in R.
  pose proof (seeded_slugs order courseSlug l ∅) as SL. fold rows in SL.
  assert (length js = length rows) as L' by (unfold rows; now rewrite seeded_rows_length).
  destruct (holds_grow slugs T s js rows H Nj L' Fj) as [H1 S1]; [rewrite SL; exact N | rewrite SL; exact D |]. fold s1 in H1, S1.
  rewrite SL in H1. destruct (run_insert_edges (list_to_map (zip (sd_slug <$> l) js)) edges s1) as (E & RE & SE).
  destruct (run_rebuildClosure (s1 <| skill_edges := E |>)) as (ws & W & RC).
  exists js, E, ws. split_and!; [easy.. |]. intros s'. split_and!; [| | exact W].
  { unfold seed. now rewrite !run_bind, R, run_bind, RE, RC. }
  apply (holds_edges _ _ _ s1 (list_to_map (zip (sd_slug <$> l) js))); [exact H1 | | | exact SE].
  - rewrite forallb_forall in C |- *. intros ed I. specialize (C ed I). unfold ends_in in *.
    apply andb_true_iff in C as [C1%bool_decide_eq_true C2%bool_decide_eq_true].
    rewrite andb_true_iff, !bool_decide_eq_true, !elem_of_app. auto.
  - intros ed I slug X. assert (slug ∈ sd_slug <$> l) as M.
    { rewrite forallb_forall in C. specialize (C ed (proj1 (list_elem_of_In _ _) I)). unfold ends_in in C.
      apply andb_true_iff in C as [C1%bool_decide_eq_true C2%bool_decide_eq_true]. destruct X as [->| ->]; easy. }
    assert (exists j, (list_to_map (zip (sd_slug <$> l) js) : gmap string Id) !! slug = Some j /\ slug_is s1 slug j) as (j & J & Y).
    { rewrite <- SL in M. apply list_elem_of_fmap in M as (k & -> & (i & K)%list_elem_of_lookup).
      destruct (lookup_lt_is_Some_2 js i) as [j J]; [apply lookup_lt_Some in K; lia|]. exists j. split; [|now apply (S1 i)].
      apply elem_of_list_to_map; [rewrite fst_zip; [exact N | rewrite length_fmap; lia]|].
      apply list_elem_of_lookup. exists i. apply lookup_zip_with_Some. exists (sk_slug k), j.
      split_and!; [easy | | easy]. now rewrite <- SL, list_lookup_fmap, K. }
    intros id. split; [intros Z; congruence|]. intros Z. rewrite J. f_equal. eapply ho_unique; eauto.
Qed.

(** A script of one course, on tables that hold none of its slugs, inserts
    one row for each skill of its table, numbered within its domain in the
    order of the table and filed under the domain's rank, keeps every other
    row, and adds exactly the edges of its table.  The closure is rebuilt from
    all edges. *)
Theorem seed_spec order courseSlug l edges slugs T s :
  holds slugs T s -> NoDup (sd_slug <$> l) -> (forall slug, slug ∈ sd_slug <$> l -> slug ∉ slugs) ->
  forallb (ends_in (sd_slug <$> l)) edges = true ->
  exists s' ws, run (seed order courseSlug l edges) s = (inr tt, s') /\
    holds (slugs ++ (sd_slug <$> l)) (T ++ edges) s' /\ skills s ⊆ skills s' /\
    (forall i d, l !! i = Some d -> exists id, skills s !! id = None /\
       skills s' !! id = Some (new_skill (skill_input order courseSlug d
         (1 + Z.of_nat (length (List.filter (same_domain d) (take i l))))%Z))) /\
    walk (skill_edges s') = Some ws /\ skill_closure s' = closure_of ws.
Proof.
  intros H N D C. destruct (run_seed order courseSlug l edges slugs T s H N D C) as (js & E & ws & Nj & L & Fj & R & H' & W).
  eexists _, ws. split; [exact R|]. split_and!; [destruct H'; split; assumption | | | exact W | reflexivity]; cbn.
  - apply map_union_subseteq_r, map_disjoint_spec. intros j r r' (i & J & _)%zip_lookup L'; [|easy | now rewrite seeded_rows_length].
    apply list_elem_of_lookup_2, Fj in J. congruence.
  - intros i d I. destruct (lookup_lt_is_Some_2 js i) as [j J]; [apply lookup_lt_Some in I; lia|].
    exists j. split; [now apply Fj, list_elem_of_lookup_2 with i|]. apply lookup_union_Some_l, zip_lookup; [easy | now rewrite seeded_rows_length|].
    exists i. split; [exact J|]. rewrite (seeded_rows_lookup order courseSlug l ∅ i d I). unfold next_sequence. now rewrite lookup_empty.
Qed.

(** A script that fails, because a slug of its table has a row, has written
    no edge and no closure; and from then on every run of it fails on its first
    skill and writes nothing, so a seed that stopped half-way is never
    completed by running it again. *)
Theorem failed_seed_stuck order courseSlug l edges s e s' :
  run (seed order courseSlug l edges) s = (inl e, s') ->
  e = DbError "skill_slug_key" /\ skill_edges s' = skill_edges s /\ skill_closure s' = skill_closure s /\
  skills s ⊆ skills s' /\ run (seed order courseSlug l edges) s' = (inl (DbError "skill_slug_key"), s').
Proof.
  unfold seed. rewrite run_bind. destruct (run (insert_skills order courseSlug l ∅ ∅) s) as [ [e1|ids] s1] eqn:R.
  2: { destruct (run_insert_edges ids edges s1) as (E & RE & _). rewrite run_bind, RE.
       destruct (run_rebuildClosure (s1 <| skill_edges := E |>)) as (ws & _ & RC). rewrite RC. discriminate. }
  pose proof R as R0. apply insert_skills_failed in R as (-> & (m & ->) & I & F). intros [= <- <-]. split_and!; try easy.
  destruct l as [|d l]; [discriminate|]. specialize (F d eq_refl). rewrite run_bind. cbn [insert_skills].
  rewrite run_bind, run_createSkill_taken by exact F. reflexivity.
Qed.

(** ** The three courses *)
Lemma sre_as_course l : forall n ids seqs s dom, (forall d, d ∈ l -> sd_domain d = dom) -> default 0%Z (seqs !! dom) = n ->
  run (insert_sre_skills l n) s =
  match run (insert_skills (fun _ => 8%Z) (Some "sre"%string) l ids seqs) s with
  | (inl e, s') => (inl e, s')
  | (inr _, s') => (inr tt, s')
  end.
Proof.
  induction l as [|d l IH]; intros n ids seqs s dom D E; [reflexivity|]. cbn [insert_sre_skills insert_skills]. rewrite !run_bind.
  unfold next_sequence. rewrite (D d ltac:(left)), E. destruct (run (createSkill _) s) as [ [e|row] s1]; [reflexivity|].
  apply (IH _ _ _ _ dom); [intros d' I; apply D; now right | now rewrite lookup_insert_eq].
Qed.

Lemma slug_map_spec slugs T s slug id : holds slugs T s -> slug_map s !! slug = Some id <-> slug_is s slug id.
Proof.
  intros H. unfold slug_map. rewrite <- elem_of_list_to_map.
  - rewrite list_elem_of_fmap. unfold slug_is. setoid_rewrite elem_of_reverse. split.
    + intros ([id' k] & [= -> ->] & I%elem_of_map_to_list). eauto.
    + intros (k & L & <-). exists (id, k). split; [reflexivity | now apply elem_of_map_to_list].
  - rewrite <- list_fmap_compose. apply NoDup_fmap_2_strong; [|rewrite reverse_Permutation; apply NoDup_map_to_list].
    intros [i k] [i' k']. rewrite !elem_of_reverse, !elem_of_map_to_list. cbn. intros L L' E.
    assert (i = i') as <-; [|congruence]. eapply (ho_unique _ _ _ H); [exists k | exists k']; eauto.
Qed.

Lemma run_seed_sre slugs T s : holds slugs T s -> (forall slug, slug ∈ sd_slug <$> Sre.SRE_SKILLS -> slug ∉ slugs) ->
  forallb (ends_in (slugs ++ (sd_slug <$> Sre.SRE_SKILLS))) Sre.EDGES = true ->
  exists s' ws, run seed_skills_sre s = (inr tt, s') /\
    holds (slugs ++ (sd_slug <$> Sre.SRE_SKILLS)) (T ++ Sre.EDGES) s' /\
    walk (skill_edges s') = Some ws /\ skill_closure s' = closure_of ws.
Proof.
  intros H D C. pose (l := Sre.SRE_SKILLS). assert (NoDup (sd_slug <$> l)) as N by (apply (bool_decide_unpack _); vm_compute; exact I).
  destruct (run_insert_skills (fun _ => 8%Z) (Some "sre"%string) l ∅ ∅ s N) as (js & L & Nj & Fj & R).
  { intros d I. eapply absent_slugs; [exact H|]. now apply D, list_elem_of_fmap_2. }
  set (rows := seeded_rows _ _ l ∅) in R. set (s1 := s <| skills := _ |>) in R.
  pose proof (seeded_slugs (fun _ => 8%Z) (Some "sre"%string) l ∅) as SL. fold rows in SL.
  destruct (holds_grow slugs T s js rows H Nj) as [H1 _]; [unfold rows; now rewrite seeded_rows_length | easy | rewrite SL; exact N | rewrite SL; exact D |].
  fold s1 in H1. rewrite SL in H1. destruct (run_insert_edges (slug_map s1) Sre.EDGES s1) as (E & RE & SE).
  destruct (run_rebuildClosure (s1 <| skill_edges := E |>)) as (ws & W & RC). exists (s1 <| skill_edges := E |> <| skill_closure := closure_of ws |>), ws. split; [|split; [|split; [exact W|reflexivity] ] ].
  - unfold seed_skills_sre. rewrite run_bind, (sre_as_course Sre.SRE_SKILLS 0 ∅ ∅ s "sre"); [| |reflexivity].
    + fold l. rewrite R. autorewrite with run. rewrite RE, RC. reflexivity.
    + intros d I. repeat (apply elem_of_cons in I as [->|I]; [reflexivity|]). now apply elem_of_nil in I.
  - assert (holds (slugs ++ (sd_slug <$> l)) (T ++ Sre.EDGES) (s1 <| skill_edges := E |>)) as [];
      [|split; assumption]. apply (holds_edges _ _ _ s1 (slug_map s1)); [exact H1 | exact C | | exact SE].
    intros ed _ slug _ id. eapply slug_map_spec, H1.
Qed.

(** A graph whose edges go forward in a list of slugs is acyclic. *)
Fixpoint index_of (slug : string) (l : list string) : nat :=
  match l with [] => 0%nat | x :: l => if String.eqb x slug then 0%nat else S (index_of slug l) end.
Definition forward (order : list string) (ed : EdgeDef) : bool :=
  (index_of (ed_from ed) order <? index_of (ed_to ed) order)%nat.
Lemma forward_acyclic order slugs T s : holds slugs T s -> forallb (forward order) T = true -> acyclic (skill_edges s).
Proof.
  intros H F. apply (ranked_acyclic (fun id => match skills s !! id with Some k => index_of (sk_slug k) order | None => 0%nat end)).
  intros e (ed & I & (k & -> & K) & (k' & -> & K') & _)%(ho_edges _ _ _ H). rewrite K, K'.
  rewrite forallb_forall in F. specialize (F ed (proj1 (list_elem_of_In _ _) I)). now apply Nat.ltb_lt in F.
Qed.

Definition all_slugs : list string := (sd_slug <$> Devops.SKILLS) ++ (sd_slug <$> Genai.SKILLS) ++ (sd_slug <$> Sre.SRE_SKILLS).
Definition all_edges : list EdgeDef := Devops.EDGES ++ Genai.EDGES ++ Sre.EDGES.
(** An order in which all skills can be learned. *)
Definition learning_order : list string := Backfill.SLUG_ORDER ++ (sd_slug <$> Genai.SKILLS) ++ (sd_slug <$> Sre.SRE_SKILLS).

Ltac decide_on := apply (bool_decide_unpack _); vm_compute; exact I.

(** C28: On empty tables the three scripts, run in the order their comments ask
    for, all succeed: afterwards the skills are the 129 of the tables, one row
    for each slug, the edges are exactly the authored ones, across courses too
    (no edge is skipped), the graph is acyclic, and the closure holds exactly
    the pairs joined by a chain of prerequisites. *)
Theorem courses_seeded s : skills s = ∅ -> skill_edges s = [] ->
  exists s', run (seed_skills ;; seed_skills_genai ;; seed_skills_sre) s = (inr tt, s') /\
    holds all_slugs all_edges s' /\ NoDup all_slugs /\ length all_slugs = 129%nat /\
    acyclic (skill_edges s') /\
    (forall a d, (exists r, r ∈ skill_closure s' /\ sc_ancestor r = a /\ sc_descendant r = d) <->
                 (exists ts p, chain (skill_edges s') a d ts p)).
Proof.
  intros K E. pose proof (holds_empty s K E) as H0.
  destruct (run_seed (domain_order Devops.DOMAIN_ORDER) None Devops.SKILLS Devops.EDGES [] [] s H0)
    as (js1 & E1 & ws1 & _ & _ & _ & R1 & H1 & _); [decide_on | now intros slug _ []%elem_of_nil | now vm_compute |].
  cbn zeta in R1, H1. set (s1 := s <| skills := _ |> <| skill_edges := _ |>) in R1, H1.
  assert (holds ([] ++ (sd_slug <$> Devops.SKILLS)) ([] ++ Devops.EDGES) (s1 <| skill_closure := closure_of ws1 |>)) as H1'
    by (destruct H1; split; assumption).
  destruct (run_seed (domain_order Genai.DOMAIN_ORDER) (Some "genai-with-ml"%string) Genai.SKILLS Genai.EDGES _ _ _ H1')
    as (js2 & E2 & ws2 & _ & _ & _ & R2 & H2 & _); [decide_on | | now vm_compute |].
  { apply Forall_forall. decide_on. }
  cbn zeta in R2, H2. set (s2 := _ <| skill_edges := E2 |>) in R2, H2.
  assert (holds (([] ++ (sd_slug <$> Devops.SKILLS)) ++ (sd_slug <$> Genai.SKILLS)) (([] ++ Devops.EDGES) ++ Genai.EDGES)
    (s2 <| skill_closure := closure_of ws2 |>)) as H2' by (destruct H2; split; assumption).
  destruct (run_seed_sre _ _ _ H2') as (s3 & ws3 & R3 & H3 & W & C); [apply Forall_forall; decide_on | now vm_compute |].
  assert (acyclic (skill_edges s3)) as A by (eapply (forward_acyclic learning_order); [exact H3 | now vm_compute]).
  exists s3. split_and!; [ | | decide_on | reflexivity | exact A |].
  - unfold seed_skills, seed_skills_genai. now rewrite run_bind, R1, run_bind, R2.
  - unfold all_slugs, all_edges. rewrite <- !app_assoc in H3. exact H3.
  - intros a d. rewrite C. now apply closure_pairs.
Qed.

(** ** The order of teaching *)
Definition find_row (rows : list Skill) (slug : string) : option Skill := List.find (fun k => String.eqb (sk_slug k) slug) rows.
(** ORDER BY domain_order, sequence: the order of the catalog. *)
Definition taught_before (a b : Skill) : bool :=
  (sk_domain_order a <? sk_domain_order b)%Z ||
  (sk_domain_order a =? sk_domain_order b)%Z && (sk_sequence a <? sk_sequence b)%Z.
(** The edges whose prerequisite is listed after the skill that needs it. *)
Definition misplaced (rows : list Skill) (edges : list EdgeDef) : list EdgeDef :=
  List.filter (fun e => match find_row rows (ed_from e), find_row rows (ed_to e) with
                        | Some a, Some b => negb (taught_before a b)
                        | _, _ => true
                        end) edges.
Definition rows_of (s : Store) : list Skill := snd <$> map_to_list (skills s).
Definition devops_rows : list Skill := seeded_rows (domain_order Devops.DOMAIN_ORDER) None Devops.SKILLS ∅.
Definition genai_rows : list Skill :=
  seeded_rows (domain_order Genai.DOMAIN_ORDER) (Some "genai-with-ml"%string) Genai.SKILLS ∅.

Definition after_seed : Store :=
  snd (run (insert_skills (domain_order Devops.DOMAIN_ORDER) None Devops.SKILLS ∅ ∅) empty_store).
Definition after_backfill : Store := snd (run backfill after_seed).

(** Rows the backfill has given another place. *)
Definition resequenced (before after : list Skill) : list string :=
  omap (fun k => match find_row after (sk_slug k) with
                 | Some k' => if (sk_sequence k =? sk_sequence k')%Z then None else Some (sk_slug k)
                 | None => None
                 end) before.

(** The order seed-skills.ts writes lists three skills before a
    prerequisite of theirs within the same domain; seed-skills-genai.ts none.
    backfill-skill-order.ts finds all its slugs on a fresh seed, renumbers ten of
    them, and leaves no prerequisite out of place: its list is not the order of
    the seed. *)
Theorem seeded_order_gaps :
  misplaced devops_rows Devops.EDGES =
    [mkEdgeDef "cloud.api-container-security" "cloud.aws-core-services";
     mkEdgeDef "cloud.aws-lambda-serverless" "cloud.azure-core-services";
     mkEdgeDef "observability.nagios-alerting" "observability.elk-basics"] /\
  misplaced genai_rows Genai.EDGES = [] /\
  fst (run backfill after_seed) = inr (72, 0)%nat /\
  misplaced (rows_of after_backfill) Devops.EDGES = [] /\
  resequenced devops_rows (rows_of after_backfill) =
    ["cloud.aws-core-services"; "cloud.azure-core-services"; "cloud.aws-vs-azure"; "cloud.api-container-security";
     "observability.elk-basics"; "observability.prometheus-advanced"; "observability.tracing"; "observability.alerting";
     "observability.scaling-infra"; "observability.nagios-alerting"]%string.
Proof. vm_compute. auto 10. Qed.

(** ** The backfill *)
(** A row with its two places rewritten, if at all. *)
Definition replaced (slugs : list string) (k k' : Skill) : Prop :=
  k' = k <| sk_domain_order := sk_domain_order k' |> <| sk_sequence := sk_sequence k' |> /\ (sk_slug k ∉ slugs -> k' = k).

Definition known (s : Store) (slug : string) : bool := bool_decide (find_skill slug s <> None).

(** UPDATE ... WHERE slug = ... keeps every slug. *)
Lemma find_skill_update (g : Skill -> Skill) s slug : (forall k, sk_slug (g k) = sk_slug k) ->
  known (s <| skills ::= fmap g |>) slug = known s slug.
Proof.
  intros G. unfold known. apply bool_decide_ext. rewrite !find_skill_none. cbn. setoid_rewrite lookup_fmap_Some. split; intros N A; apply N.
  - intros id k (k0 & <- & L). rewrite G. eauto.
  - intros id k L E. apply (A id (g k)); [eauto | now rewrite G].
Qed.

Lemma backfill_loop_spec slugs : forall seqs u m s, exists K,
  run (backfill_loop slugs seqs u m) s =
    (inr (u + length (List.filter (known s) slugs), m + length (List.filter (fun slug => negb (known s slug)) slugs))%nat,
     s <| skills := K |>) /\
  forall id, option_Forall2 (replaced slugs) (skills s !! id) (K !! id).
Proof.
  induction slugs as [|slug slugs IH]; intros seqs u m s; cbn [backfill_loop].
  - exists (skills s). split; [cbn; rewrite !Nat.add_0_r; now destruct s |].
    intros id. destruct (skills s !! id) as [k|]; constructor. split; [now destruct k | easy].
  - unfold findBySlug. autorewrite with run. cbn [List.filter].
    destruct (find_skill slug s) as [ [id0 k0]|] eqn:F.
    + assert (known s slug = true) as -> by (unfold known; rewrite F; now apply bool_decide_eq_true_2). cbn [negb length]. rewrite <- plus_n_Sm, <- plus_Sn_m. autorewrite with run.
      set (g := fun k : Skill => _). cbn [fst snd]. set (seqs1 := <[_ := _]> seqs).
      destruct (IH seqs1 (S u) m (s <| skills ::= fmap g |>)) as (K & R & B).
      assert (forall k, sk_slug (g k) = sk_slug k) as G by (intros k; unfold g; now destruct (String.eqb _ _)).
      rewrite (List.filter_ext _ _ (fun x => find_skill_update g s x G)) in R.
      rewrite (List.filter_ext _ _ (fun x => f_equal negb (find_skill_update g s x G))) in R.
      exists K. split; [exact R|]. intros id. specialize (B id). cbn in B. rewrite lookup_fmap in B.
      destruct (skills s !! id) as [k|]; cbn in B; inversion B as [? k' [P Q]|]; subst; constructor. split.
      * rewrite P. unfold g. now destruct (String.eqb _ _).
      * intros N. apply not_elem_of_cons in N as [N1 N2]. rewrite Q by now rewrite G. unfold g.
        destruct (String.eqb_spec (sk_slug k) slug); [easy | reflexivity].
    + assert (known s slug = false) as -> by (unfold known; rewrite F; now apply bool_decide_eq_false_2).
      cbn [negb length]. rewrite <- plus_n_Sm, <- plus_Sn_m.
      destruct (IH seqs u (S m) s) as (K & R & B). exists K. split; [exact R|].
      intros id. specialize (B id). inversion B as [k k' [P Q]|]; constructor. split; [exact P|].
      intros N. apply Q. intros X. apply N. now right.
Qed.

Lemma backfill_counts slugs s : exists K,
  run (backfill_loop slugs ∅ 0 0) s =
    (inr (length (List.filter (known s) slugs), length (List.filter (fun slug => negb (known s slug)) slugs)), s <| skills := K |>) /\
  forall id, option_Forall2 (replaced slugs) (skills s !! id) (K !! id).
Proof. exact (backfill_loop_spec slugs ∅ 0 0 s). Qed.

(** Backfill-skill-order.ts counts each slug of its list once, as updated
    when the table has it and as missing otherwise, and changes nothing but the
    two places of the rows of its list. *)
Theorem backfill_spec s : exists K,
  run backfill s =
    (inr (length (List.filter (known s) Backfill.SLUG_ORDER), length (List.filter (fun slug => negb (known s slug)) Backfill.SLUG_ORDER)),
     s <| skills := K |>) /\
  forall id, option_Forall2 (replaced Backfill.SLUG_ORDER) (skills s !! id) (K !! id).
Proof. exact (backfill_counts Backfill.SLUG_ORDER s). Qed.

(** ** Witnesses *)
Lemma seed_spec_witness : exists s', run seed_skills_genai empty_store = (inr tt, s') /\
  exists id, skills s' !! id = Some (new_skill (skill_input (domain_order Genai.DOMAIN_ORDER) (Some "genai-with-ml"%string)
    (mkSkillDef "ml.supervised-regression" "Supervised Learning — Regression" "applied-ml"
       "Linear/regularized regression, polynomial terms, and tree-based regressors.") 2)).
Proof.
  destruct (seed_spec (domain_order Genai.DOMAIN_ORDER) (Some "genai-with-ml"%string) Genai.SKILLS Genai.EDGES [] [] empty_store)
    as (s' & ws & R & _ & _ & S & _); [now apply holds_empty | decide_on | now intros slug _ []%elem_of_nil | now vm_compute |].
  exists s'. split; [exact R|]. destruct (S 5%nat _ eq_refl) as (id & _ & L). exists id. exact L.
Defined.

Lemma failed_seed_stuck_witness :
  run seed_skills after_seed = (inl (DbError "skill_slug_key"), after_seed) /\ size (skills after_seed) = 72%nat.
Proof.
  split; [|now vm_compute].
  apply (failed_seed_stuck (domain_order Devops.DOMAIN_ORDER) None Devops.SKILLS Devops.EDGES after_seed (DbError "skill_slug_key") after_seed).
  vm_compute. reflexivity.
Defined.

Lemma courses_seeded_witness : exists s', run (seed_skills ;; seed_skills_genai ;; seed_skills_sre) empty_store = (inr tt, s') /\
  exists e, e ∈ skill_edges s' /\ slug_is s' "k8s.autoscaling" (se_from e) /\ slug_is s' "sre.capacity-and-load" (se_to e).
Proof.
  destruct (courses_seeded empty_store eq_refl eq_refl) as (s' & R & H & _). exists s'. split; [exact R|].
  assert (forall slug, slug ∈ all_slugs -> exists id, slug_is s' slug id) as X by (intros slug; apply H).
  destruct (X "k8s.autoscaling"%string) as [a A]; [decide_on|]. destruct (X "sre.capacity-and-load"%string) as [b B]; [decide_on|].
  exists (mkSkillEdge a b REQUIRES). split; [|auto]. apply H. exists (mkEdgeDef "k8s.autoscaling" "sre.capacity-and-load").
  split_and!; [|exact A|exact B|reflexivity]. unfold all_edges. rewrite !elem_of_app. right. right. exact (list_elem_of_lookup_2 Sre.EDGES 2 _ eq_refl).
Defined.
