(* ===== verification/Mastery.v ===== *)
(** * The mastery service

    skill/mastery.service.ts: Elo matches and BKT evidence persisted per
    (user, skill), and the prerequisite gate.  Each statement of a transaction
    is an action of its own, and its writes are one action, the commit: READ
    COMMITTED lets other transactions commit between two reads.  The row locks
    of recordEloMatch ([FOR UPDATE]) only remove interleavings. *)
From S2P Require Import Prelude JsNum Binary64 Effects Schema AttemptStatus Bkt Elo.

Module MasteryConstants.
Definition REQUIRES_GATE_THRESHOLD `{Rounding} : Q := lit (55 # 100).
End MasteryConstants.

(** A value stored in a numeric column; a value out of range is an error. *)
Definition to_numeric (p s : nat) (q : Q) : exn + Q :=
  match numeric p s q with Some v => inr v | None => inl (DbError "numeric field overflow") end.

(** Sequencing of conversions. *)
Notation "'let?' x := m 'in' k" := (match m with inl e => inl e | inr x => k end)
  (at level 10, x name, k at level 200) : prog_scope.

Record RecordEvidenceInput := mkRecordEvidenceInput {
  re_userId : Id; re_skillId : Id; re_attemptId : Id; re_score : Q; re_weight : Q;
  re_passThreshold : Q; re_difficultyAdjust : Q; re_wasGenuineAttempt : bool }.

Section MasteryService.
Context `{Rounding} `{MathPow}.

(** *** recordEloMatch *)
Definition rating_or_default (elo : option Q) : Q :=
  match elo with Some e => lit e | None => EloService.defaultRating end.

Definition evidence_of (userId skillId : Id) (s : Store) : list MasteryEvidence :=
  List.filter (fun e => Nat.eqb (me_user_id e) userId && Nat.eqb (me_skill_id e) skillId) (evidence s).
Definition attempts_on (activityVersionId : Id) (s : Store) : list (Id * Attempt) :=
  List.filter (fun kv => Nat.eqb (activity_version_id kv.2) activityVersionId) (map_to_list (attempts s)).

(** The fresh row: p_mastery from bkt_p_init, every other column its default. *)
Definition seeded (p_init elo : Q) : SkillMastery := mkSkillMastery p_init None 0 (Some elo) None None.

(** [p_init] is the default read for a missing row, [None] when there is one. *)
Definition commit_match (userId skillId activityVersionId : Id) (p_init : option Q)
    (learnerElo activityElo : Q) (s : Store) : exn + (unit * Store) :=
  let? elo := to_numeric 7 2 learnerElo in
  let? delo := to_numeric 7 2 activityElo in
  let? p := match p_init with Some q => sum_map id Some (to_numeric 6 5 q) | None => inr None end in
  let upsert := match p, mastery s !! (userId, skillId) with
    | Some p, None => <[(userId, skillId) := seeded p elo]>
    | _, _ => alter (fun m => m <| sm_elo_rating := Some elo |>) (userId, skillId)
    end in
  inr (tt, s <| mastery ::= upsert |>
             <| versions ::= alter (fun v => v <| av_difficulty_elo := Some delo |>) activityVersionId |>).

Definition recordEloMatch (userId skillId activityVersionId : Id) (outcome : EloService.EloOutcome)
    : prog Store Q :=
  let* learnerRow := select (fun s => mastery s !! (userId, skillId)) in
  let learnerElo := rating_or_default (learnerRow ≫= sm_elo_rating) in
  let* activityRow := select_or_throw (fun s => versions s !! activityVersionId) in
  let activityElo := rating_or_default (av_difficulty_elo activityRow) in
  let* learnerMatchCount := select (fun s => length (evidence_of userId skillId s)) in
  let* activityAttemptCount := select (fun s => length (attempts_on activityVersionId s)) in
  let result := EloService.update
    (EloService.mkEloUpdateInput learnerElo activityElo learnerMatchCount activityAttemptCount outcome) in
  let* p_init :=
    match learnerRow with
    | Some _ => Ret None
    | None => let* sk := select_or_throw (fun s => skills s !! skillId) in Ret (Some (sk_bkt_p_init sk))
    end in
  act (commit_match userId skillId activityVersionId p_init
         (EloService.r_learnerElo result) (EloService.r_activityElo result)) ;;
  Ret (EloService.r_difficultyAdjust result).

(** *** recordEvidence *)
Definition bkt_params (sk : Skill) : BktParams :=
  mkBktParams (lit (sk_bkt_p_init sk)) (lit (sk_bkt_p_transit sk)) (lit (sk_bkt_p_slip sk)) (lit (sk_bkt_p_guess sk)).

Definition prior_of (sk : Skill) (existing : option SkillMastery) (now : Z) : Q :=
  match existing with
  | Some m => decayedMastery (lit (sm_p_mastery m)) (pInit (bkt_params sk))
                (default now (sm_last_evidence_at m)) (sk_decay_half_life_days sk) now
  | None => pInit (bkt_params sk)
  end.

Definition evidence_update (input : RecordEvidenceInput) (sk : Skill) (existing : option SkillMastery)
    (now : Z) : option BktUpdateResult :=
  update (mkBktUpdateInput (prior_of sk existing now) (bkt_params sk) (re_score input) (re_weight input)
    (re_passThreshold input) (re_difficultyAdjust input) (re_wasGenuineAttempt input)).

(** INSERT ... ON CONFLICT (user_id, skill_id) DO UPDATE. *)
Definition upsert_mastery (p : Q) (now : Z) (band : MasteryBand) (reviewDueAt : option Z)
    (row : option SkillMastery) : SkillMastery :=
  match row with
  | None => mkSkillMastery p (Some now) 1 None reviewDueAt (Some band)
  | Some m => m <| sm_p_mastery := p |> <| sm_last_evidence_at := Some now |>
                <| sm_evidence_count ::= Z.succ |> <| sm_band := Some band |>
                <| sm_review_due_at := reviewDueAt |>
  end.

Definition commit_evidence (input : RecordEvidenceInput) (result : BktUpdateResult) (now : Z)
    (band : MasteryBand) (reviewDueAt : option Z) (s : Store) : exn + (unit * Store) :=
  let key := (re_userId input, re_skillId input) in
  let? p := to_numeric 6 5 (pAfter result) in
  let? d := to_numeric 6 5 (delta result) in
  let? b := to_numeric 6 5 (pBefore result) in
  let? w := to_numeric 4 3 (re_weight input) in
  let row := mkMasteryEvidence (re_userId input) (re_skillId input) (re_attemptId input) d b p w in
  inr (tt, s <| mastery := <[key := upsert_mastery p now band reviewDueAt (mastery s !! key)]> (mastery s) |>
             <| evidence ::= fun l => l ++ [row] |>).

(** [update] returns [None] where a NaN would reach the database, which sane
    parameters exclude (bkt_update_bounds). *)
Definition recordEvidence (input : RecordEvidenceInput) : prog Store (Q * Q) :=
  let* sk := select_or_throw (fun s => skills s !! re_skillId input) in
  let* ' (existing, clock) := select (fun s => (mastery s !! (re_userId input, re_skillId input), now s)) in
  match evidence_update input sk existing clock with
  | None => Throw (JsError "NaN")
  | Some result =>
      let band := bandFor (pAfter result) in
      let reviewDueAt := SpacedRepetition.computeReviewDueAt band clock (existing ≫= sm_review_due_at) in
      act (commit_evidence input result clock band reviewDueAt) ;;
      Ret (pBefore result, pAfter result)
  end.

(** *** The prerequisite gate *)
Definition getMastery (userId skillId : Id) : prog Store (option SkillMastery) :=
  select (fun s => mastery s !! (userId, skillId)).

Definition gate_met (userId : Id) (ids : list Id) (s : Store) : bool :=
  forallb (fun id => MasteryConstants.REQUIRES_GATE_THRESHOLD <=?
    match mastery s !! (userId, id) with Some m => lit (sm_p_mastery m) | None => 0 end) ids.

Definition meetsRequiresGate (userId : Id) (requiresAncestorSkillIds : list Id) : prog Store bool :=
  match requiresAncestorSkillIds with
  | [] => Ret true
  | ids => select (gate_met userId ids)
  end.
End MasteryService.

(** ** Evidence *)
Section EvidenceLaws.
Context `{Rounding} `{MathPow}.

Lemma to_numeric_unit p s q : (s < p)%nat -> 0 <= q <= 1 ->
  exists v, to_numeric p s q = inr v /\ 0 <= v <= 1.
Proof.
  intros L B. destruct (numeric_signed p s q L) as (v & E & V & V0); [lra |].
  exists v. unfold to_numeric. rewrite E. split; [easy |]. split; [apply V0|]; lra.
Qed.
Lemma to_numeric_signed p s q : (s < p)%nat -> -(1) <= q <= 1 -> exists v, to_numeric p s q = inr v.
Proof. intros L B. destruct (numeric_signed p s q L B) as (v & E & _). exists v. unfold to_numeric. now rewrite E. Qed.

Lemma P_unit x : P_MIN <= x <= P_MAX -> 0 <= x <= 1.
Proof. pose proof P_MIN_lb. pose proof P_MAX_ub. lra. Qed.

Definition evidence_band (r : BktUpdateResult) : MasteryBand := bandFor (pAfter r).
Definition evidence_due (r : BktUpdateResult) (s : Store) (key : Id * Id) : option Z :=
  SpacedRepetition.computeReviewDueAt (evidence_band r) (now s) ((mastery s !! key) ≫= sm_review_due_at).

Lemma run_recordEvidence input s sk :
  let key := (re_userId input, re_skillId input) in
  skills s !! re_skillId input = Some sk -> sane (bkt_params sk) -> 0 <= re_weight input <= 1 ->
  exists r p d b w, evidence_update input sk (mastery s !! key) (now s) = Some r /\
    to_numeric 6 5 (pAfter r) = inr p /\ 0 <= p <= 1 /\
    run (recordEvidence input) s =
    (inr (pBefore r, pAfter r),
     s <| mastery := <[key := upsert_mastery p (now s) (evidence_band r) (evidence_due r s key) (mastery s !! key)]> (mastery s) |>
       <| evidence ::= fun l => l ++ [mkMasteryEvidence (re_userId input) (re_skillId input) (re_attemptId input) d b p w] |>).
Proof.
  intros key Hsk S W. unfold recordEvidence, evidence_update.
  set (i := mkBktUpdateInput (prior_of sk (mastery s !! key) (now s)) (bkt_params sk) (re_score input)
    (re_weight input) (re_passThreshold input) (re_difficultyAdjust input) (re_wasGenuineAttempt input)).
  destruct (update_defined i S) as [r E]. destruct (update_range i r E) as (PB & PA & _).
  destruct (to_numeric_unit 6 5 (pAfter r)) as (p & Ep & Bp); [lia | now apply P_unit |].
  destruct (to_numeric_signed 6 5 (delta r)) as (d & Ed); [lia | now apply (delta_range i) |].
  destruct (to_numeric_unit 6 5 (pBefore r)) as (b & Eb & _); [lia | now apply P_unit |].
  destruct (to_numeric_unit 4 3 (re_weight input)) as (w & Ew & _); [lia | easy |].
  exists r, p, d, b, w. split_and!; try easy.
  run_simpl. rewrite Hsk. run_simpl. fold key. fold i. rewrite E. run_simpl.
  unfold commit_evidence. rewrite Ep, Ed, Eb, Ew. reflexivity.
Qed.
End EvidenceLaws.

(** The columns recordEvidence leaves alone, and the one it counts. *)
Definition elo_of (row : option SkillMastery) : option Q := row ≫= sm_elo_rating.
Definition count_of (row : option SkillMastery) : Z := from_option sm_evidence_count 0%Z row.

(** On a skill with sane BKT parameters and a weight in [0, 1], recording
    evidence succeeds: it appends one mastery_evidence row for the attempt, whose
    p_after is exactly the p_mastery it stores; that value is the BKT result at
    column precision and lies in [0, 1]; the band and the review date are those
    of the result, the evidence count grows by one, the Elo rating and every
    other learner's and skill's mastery are untouched. *)
Theorem evidence_recorded `{Rounding} `{MathPow} input s sk :
  let key := (re_userId input, re_skillId input) in
  skills s !! re_skillId input = Some sk -> sane (bkt_params sk) -> 0 <= re_weight input <= 1 ->
  exists r s' m row,
    evidence_update input sk (mastery s !! key) (now s) = Some r /\
    run (recordEvidence input) s = (inr (pBefore r, pAfter r), s') /\
    mastery s' !! key = Some m /\ evidence s' = evidence s ++ [row] /\
    me_attempt_id row = re_attemptId input /\ me_user_id row = re_userId input /\
    me_skill_id row = re_skillId input /\
    me_p_after row = sm_p_mastery m /\ numeric 6 5 (pAfter r) = Some (sm_p_mastery m) /\
    0 <= sm_p_mastery m <= 1 /\ sm_band m = Some (bandFor (pAfter r)) /\
    sm_review_due_at m = SpacedRepetition.computeReviewDueAt (bandFor (pAfter r)) (now s)
                           ((mastery s !! key) ≫= sm_review_due_at) /\
    sm_evidence_count m = (count_of (mastery s !! key) + 1)%Z /\
    sm_elo_rating m = elo_of (mastery s !! key) /\
    (forall k, k <> key -> mastery s' !! k = mastery s !! k) /\ attempts s' = attempts s.
Proof.
  intros key Hsk S W. destruct (run_recordEvidence input s sk Hsk S W) as (r & p & d & b & w & E & Ep & Bp & R).
  fold key in E, R. eexists r, _, _, _. split; [exact E |]. split; [exact R |].
  cbn [mastery evidence attempts set_field]. rewrite lookup_insert_eq. split; [reflexivity |].
  split; [reflexivity |]. unfold upsert_mastery, count_of, elo_of, evidence_due, evidence_band.
  unfold to_numeric in Ep. destruct (numeric 6 5 (pAfter r)); [|easy]. injection Ep as ->.
  assert (O : forall k, k <> key -> forall x, <[key := x]> (mastery s) !! k = mastery s !! k)
    by (intros k K x; now apply lookup_insert_ne).
  destruct (mastery s !! key) as [m|]; cbn; split_and!; try easy; intros k K; now apply O.
Qed.

(** The prerequisite gate is met exactly when every required ancestor has a
    mastery row in band Competent or better (at least 0.55). *)
Theorem gate_requires_competent `{Rounding} userId ids s :
  run (meetsRequiresGate userId ids) s = (inr true, s) <->
  (forall id, id ∈ ids -> exists m, mastery s !! (userId, id) = Some m /\
     (band_rank Competent <= band_rank (bandFor (lit (sm_p_mastery m))))%nat).
Proof.
  assert (T : 0 < MasteryConstants.REQUIRES_GATE_THRESHOLD).
  { apply Qlt_le_trans with (1 # 2); [easy |]. apply rnd_half_lb. easy. }
  assert (G : gate_met userId ids s = true <-> (forall id, id ∈ ids -> exists m, mastery s !! (userId, id) = Some m /\
     (band_rank Competent <= band_rank (bandFor (lit (sm_p_mastery m))))%nat)).
  { unfold gate_met. rewrite forallb_forall. setoid_rewrite <- list_elem_of_In.
    split; intros A id I; specialize (A id I); cbn beta in *.
    - destruct (mastery s !! (userId, id)) as [m|].
      + exists m. split; [easy |]. now apply bandFor_competent.
      + qprop. lra.
    - destruct A as (m & -> & B). now apply bandFor_competent. }
  rewrite <- G. unfold meetsRequiresGate. destruct ids as [|x ids]; [easy |].
  run_simpl. destruct (gate_met userId (x :: ids) s); split; easy.
Qed.

(** An Elo match persists both sides: the learner's row (seeded from the
    skill's prior when there is none, p_mastery otherwise untouched) and the
    activity's difficulty, each the rating update at column precision; the
    returned difficulty adjustment is computed from the ratings before the
    match. *)
Theorem elo_match_recorded `{Rounding} `{MathPow} u k v o s sk av elo delo p0 :
  skills s !! k = Some sk -> versions s !! v = Some av -> numeric 6 5 (sk_bkt_p_init sk) = Some p0 ->
  let le := rating_or_default (elo_of (mastery s !! (u, k))) in
  let ae := rating_or_default (av_difficulty_elo av) in
  let r := EloService.update (EloService.mkEloUpdateInput le ae
             (length (evidence_of u k s)) (length (attempts_on v s)) o) in
  numeric 7 2 (EloService.r_learnerElo r) = Some elo -> numeric 7 2 (EloService.r_activityElo r) = Some delo ->
  exists s' m, run (recordEloMatch u k v o) s = (inr ((ae -! le) /! 400), s') /\
    mastery s' !! (u, k) = Some m /\ sm_elo_rating m = Some elo /\
    sm_p_mastery m = from_option sm_p_mastery p0 (mastery s !! (u, k)) /\
    versions s' !! v = Some (av <| av_difficulty_elo := Some delo |>) /\
    (forall j, j <> (u, k) -> mastery s' !! j = mastery s !! j) /\
    (forall j, j <> v -> versions s' !! j = versions s !! j).
Proof.
  intros Hsk Hv Hp le ae r He Hd. unfold recordEloMatch. run_simpl. rewrite Hv. run_simpl.
  fold (elo_of (mastery s !! (u, k))). fold le ae r.
  destruct (mastery s !! (u, k)) as [m|] eqn:M; run_simpl; rewrite ?Hsk; run_simpl; fold r;
    unfold commit_match, to_numeric; rewrite He, Hd, ?Hp; cbn [sum_map]; rewrite ?M.
  - eexists _, _. split; [reflexivity |]. cbn [mastery versions set_field].
    rewrite lookup_alter_eq, M. split; [reflexivity |]. rewrite lookup_alter_eq, Hv.
    split_and!; try easy; intros j J; now rewrite lookup_alter_ne.
  - eexists _, _. split; [reflexivity |]. cbn [mastery versions set_field].
    rewrite lookup_insert_eq. split; [reflexivity |]. rewrite lookup_alter_eq, Hv.
    split_and!; try easy; intros j J; [now rewrite lookup_insert_ne | now rewrite lookup_alter_ne].
Qed.

(** ** Concurrent evidence

    One learner, one skill without mastery; a failed attempt (1) and a clean
    pass (2) finish together. *)
Definition one_skill : Store :=
  empty_store <| skills := {[ 1%nat := mkSkill "pods" "Pods" "core" None "active" 1 1 "devops-with-ai" (15 # 100) (25 # 100) (1 # 10) (8 # 100) 180 ]} |>
              <| versions := {[ 4%nat := mkActivityVersion 3 1 V_PUBLISHED
                    (mkActivitySpec None None None None None None None None None None) None None None (Some 1300) None None None None ]} |>.
Definition weak_evidence : RecordEvidenceInput := mkRecordEvidenceInput 7 1 1 (1 # 10) 1 (7 # 10) 0 true.
Definition strong_evidence : RecordEvidenceInput := mkRecordEvidenceInput 7 1 2 1 1 (7 # 10) 0 true.
Definition stored_mastery (s : Store) : option Q := sm_p_mastery <$> mastery s !! (7, 1)%nat.

Definition racing : list (prog Store (Q * Q)) :=
  [@recordEvidence binary64 step_pow weak_evidence; @recordEvidence binary64 step_pow strong_evidence].

(** RecordEvidence reads the mastery row without a lock: two evidences that
    read before either commits both append their row, but the stored mastery is
    that of the later commit alone, as if the earlier evidence had never been
    recorded, and differs from what either sequential order stores. *)
Theorem evidence_lost_update :
  exists ps s', rtc (pstep (fun _ => False)) (racing, one_skill) (ps, s') /\
    forallb finished ps = true /\ length (evidence s') = 2%nat /\
    stored_mastery s' = stored_mastery (snd (run (@recordEvidence binary64 step_pow strong_evidence) one_skill)) /\
    let seq := snd (run (@recordEvidence binary64 step_pow strong_evidence)
                 (snd (run (@recordEvidence binary64 step_pow weak_evidence) one_skill))) in
    stored_mastery s' <> stored_mastery seq /\
    count_of (mastery s' !! (7, 1)%nat) = count_of (mastery seq !! (7, 1)%nat).
Proof.
  exists (fst (schedule [0; 1; 0; 1; 0; 1]%nat racing one_skill)), (snd (schedule [0; 1; 0; 1; 0; 1]%nat racing one_skill)).
  split; [rewrite <- surjective_pairing; apply schedule_rtc |].
  cbv zeta. split_and!; vm_compute; first [reflexivity | discriminate].
Qed.

Lemma one_skill_sane : sane (@bkt_params binary64 (mkSkill "pods" "Pods" "core" None "active" 1 1 "devops-with-ai" (15 # 100) (25 # 100) (1 # 10) (8 # 100) 180)).
Proof. unfold sane. vm_compute. repeat split; discriminate. Qed.

Lemma evidence_recorded_witness :
  exists s', snd (run (@recordEvidence binary64 step_pow strong_evidence) one_skill) = s' /\
    exists m, mastery s' !! (7, 1)%nat = Some m /\ 0 <= sm_p_mastery m <= 1.
Proof.
  destruct (@evidence_recorded binary64 step_pow strong_evidence one_skill _ eq_refl one_skill_sane ltac:(easy))
    as (r & s' & m & row & _ & R & M & _ & _ & _ & _ & _ & _ & B & _).
  exists s'. split; [now rewrite R |]. exists m. split; [exact M | exact B].
Defined.

Lemma elo_match_recorded_witness :
  exists s' m, run (@recordEloMatch binary64 step_pow 7 1 4 EloService.WIN) one_skill = (inr (1 # 4), s') /\
    mastery s' !! (7, 1)%nat = Some m /\ sm_elo_rating m = Some 1216.
Proof.
  destruct (@elo_match_recorded binary64 step_pow 7 1 4 EloService.WIN one_skill _ _ 1216 1298 (3 # 20)
    eq_refl eq_refl eq_refl ltac:(vm_compute; reflexivity) ltac:(vm_compute; reflexivity))
    as (s' & m & R & M & E & _).
  exists s', m. split; [|split; [exact M | exact E]]. rewrite R. reflexivity.
Defined.

Lemma gate_requires_competent_witness :
  run (@meetsRequiresGate binary64 7 [1%nat]) one_skill <> (inr true, one_skill).
Proof.
  intros G. apply (@gate_requires_competent binary64 7 [1%nat] one_skill) with (id := 1%nat) in G; [|now left].
  destruct G as (m & M & _). vm_compute in M. discriminate.
Defined.
