(* ===== verification/Curriculum.v ===== *)
(** * The curriculum

    curriculum/curriculum.repository.ts and curriculum.controller.ts: courses,
    modules, topics and subtopics, the skills a topic covers, the tree of a
    course; and the scripts practice-core/scripts/seed-curriculum.ts,
    seed-curriculum-genai.ts and seed-curriculum-sre.ts that fill them.  The
    tables' foreign keys and unique indexes are those of db/migrations/0001;
    the tenants' table is not modelled. *)
From stdpp Require Import sorting.
From S2P Require Import Prelude JsNum Effects Schema AttemptStatus Mastery SkillGraph SkillData SkillSeeds.

(** ** CurriculumRepository *)
Definition fresh_key {A} (table : gmap Id A) : Id := fresh (dom table : gset Id).

Definition is_course (tenantId : Id) (slug : string) (kv : Id * Course) : bool :=
  Nat.eqb (co_tenant_id kv.2) tenantId && String.eqb (co_slug kv.2) slug.
Definition find_course (tenantId : Id) (slug : string) (s : Store) : option (Id * Course) :=
  head (List.filter (is_course tenantId slug) (map_to_list (courses s))).

(** ON CONFLICT (tenant_id, slug) DO UPDATE SET title. *)
Definition createCourse (tenantId : Id) (slug title : string) : prog Store (Id * Course) :=
  act (fun s =>
    match find_course tenantId slug s with
    | Some (id, c) => inr ((id, c <| co_title := title |>), s <| courses ::= <[id := c <| co_title := title |>]> |>)
    | None =>
        let c := mkCourse tenantId slug title "active" in
        inr ((fresh_key (courses s), c), s <| courses ::= <[fresh_key (courses s) := c]> |>)
    end).

Definition createModule (courseId : Id) (title : string) (position : Z) (slug : option string) : prog Store (Id * Module_) :=
  act (fun s =>
    match courses s !! courseId with
    | None => inl (DbError "module_course_id_fkey")
    | Some _ =>
        let row := mkModule courseId title position slug in
        inr ((fresh_key (modules s), row), s <| modules ::= <[fresh_key (modules s) := row]> |>)
    end).

Definition createTopic (moduleId : Id) (title : string) (position : Z) (slug : option string) : prog Store (Id * Topic) :=
  act (fun s =>
    match modules s !! moduleId with
    | None => inl (DbError "topic_module_id_fkey")
    | Some _ =>
        let row := mkTopic (Some moduleId) title position slug in
        inr ((fresh_key (topics s), row), s <| topics ::= <[fresh_key (topics s) := row]> |>)
    end).

Definition createSubtopic (topicId : Id) (title : string) (position : Z) : prog Store (Id * Subtopic) :=
  act (fun s =>
    match topics s !! topicId with
    | None => inl (DbError "subtopic_topic_id_fkey")
    | Some _ =>
        let row := mkSubtopic topicId title position in
        inr ((fresh_key (subtopics s), row), s <| subtopics ::= <[fresh_key (subtopics s) := row]> |>)
    end).

(** ON CONFLICT (topic_id, skill_id) DO UPDATE SET coverage_weight, bloom_level. *)
Definition same_mapping (r r' : TopicSkill) : bool :=
  Nat.eqb (ts_topic_id r') (ts_topic_id r) && Nat.eqb (ts_skill_id r') (ts_skill_id r).
Definition upsert (r : TopicSkill) (l : list TopicSkill) : list TopicSkill :=
  if existsb (same_mapping r) l then map (fun r' => if same_mapping r r' then r else r') l else l ++ [r].
Definition mapTopicToSkill (topicId skillId : Id) (coverageWeight : Q) (bloomLevel : string) : prog Store unit :=
  act (fun s =>
    let? weight := to_numeric 4 3 coverageWeight in
    match topics s !! topicId, skills s !! skillId with
    | None, _ => inl (DbError "topic_skill_topic_id_fkey")
    | _, None => inl (DbError "topic_skill_skill_id_fkey")
    | Some _, Some _ => inr (tt, s <| topic_skills ::= upsert (mkTopicSkill topicId skillId weight bloomLevel) |>)
    end).

(** ORDER BY position. *)
Definition by_position {A} (position : A -> Z) : relation (Id * A) := fun a b => (position a.2 <= position b.2)%Z.
#[export] Instance by_position_dec {A} (position : A -> Z) : RelDecision (by_position position).
Proof. intros a b. apply Z.le_dec. Defined.

Record TopicSkillRow := mkTopicSkillRow {
  tr_topic_id : Id; tr_skill_slug : string; tr_skill_name : string; tr_coverage_weight : Q; tr_bloom_level : string }.
Record TopicTree := mkTopicTree {
  tt_topic : Id * Topic; tt_subtopics : list (Id * Subtopic); tt_skills : list TopicSkillRow }.
Record ModuleTree := mkModuleTree { mt_module : Id * Module_; mt_topics : list TopicTree }.
Record CourseTree := mkCourseTree { ct_course : Id * Course; ct_modules : list ModuleTree }.

Section Repository.
Context `{RowOrder}.

Definition findTopicBySlug (slug : string) : prog Store (option (Id * Topic)) :=
  select (fun s => head (in_order (List.filter (fun kv => bool_decide (tp_slug kv.2 = Some slug)) (map_to_list (topics s))))).

Definition module_of (courseId : Id) (kv : Id * Module_) : bool := Nat.eqb (md_course_id kv.2) courseId.
Definition topic_of (moduleId : Id) (kv : Id * Topic) : bool := bool_decide (tp_module_id kv.2 = Some moduleId).
Definition subtopic_of (topicId : Id) (kv : Id * Subtopic) : bool := Nat.eqb (sb_topic_id kv.2) topicId.
Definition skill_of (topicId : Id) (r : TopicSkillRow) : bool := Nat.eqb (tr_topic_id r) topicId.
(** [innerJoin('skill.skill as s', 's.id', 'ts.skill_id')]. *)
Definition join_skill (s : Store) (r : TopicSkill) : option TopicSkillRow :=
  k ← skills s !! ts_skill_id r;
  Some (mkTopicSkillRow (ts_topic_id r) (sk_slug k) (sk_name k) (ts_coverage_weight r) (ts_bloom_level r)).

Definition rows_in {A} (position : A -> Z) (mine : Id -> Id * A -> bool) (parents : list Id) (table : gmap Id A) : list (Id * A) :=
  merge_sort (by_position position) (in_order (List.filter (fun kv => existsb (fun p => mine p kv) parents) (map_to_list table))).
(** [ids.length ? await ... : []]. *)
Definition unless_none {A} (ids : list Id) (p : prog Store (list A)) : prog Store (list A) :=
  match ids with [] => Ret [] | _ => p end.

Definition topic_tree (subtopics : list (Id * Subtopic)) (topicSkills : list TopicSkillRow) (t : Id * Topic) : TopicTree :=
  mkTopicTree t (List.filter (subtopic_of t.1) subtopics) (List.filter (skill_of t.1) topicSkills).
Definition module_tree (topics : list (Id * Topic)) (subtopics : list (Id * Subtopic)) (topicSkills : list TopicSkillRow)
    (m : Id * Module_) : ModuleTree :=
  mkModuleTree m (topic_tree subtopics topicSkills <$> List.filter (topic_of m.1) topics).

Definition getCourseTree (tenantId : Id) (courseSlug : string) : prog Store (option CourseTree) :=
  let* course := select (find_course tenantId courseSlug) in
  match course with
  | None => Ret None
  | Some course =>
      let* mods := select (fun s => rows_in md_position module_of [course.1] (modules s)) in
      let moduleIds := fst <$> mods in
      let* tops := unless_none moduleIds (select (fun s => rows_in tp_position topic_of moduleIds (topics s))) in
      let topicIds := fst <$> tops in
      let* subs := unless_none topicIds (select (fun s => rows_in sb_position subtopic_of topicIds (subtopics s))) in
      let* topicSkills := unless_none topicIds (select (fun s => in_order (omap (join_skill s)
        (List.filter (fun r => includes topicIds (ts_topic_id r)) (topic_skills s))))) in
      Ret (Some (mkCourseTree course (module_tree tops subs topicSkills <$> mods)))
  end.

Definition listCourses (tenantId : Id) : prog Store (list (Id * Course)) :=
  select (fun s => in_order (List.filter (fun kv => Nat.eqb (co_tenant_id kv.2) tenantId) (map_to_list (courses s)))).

(** SELECT DISTINCT over the joins of activity_topic, topic, module and course. *)
Definition course_of_link (s : Store) (r : ActivityTopic) : option (Id * string * string) :=
  t ← topics s !! at_topic_id r;
  m ← tp_module_id t;
  md ← modules s !! m;
  c ← courses s !! md_course_id md;
  Some (md_course_id md, co_slug c, co_title c).
Definition listCoursesForActivityVersion (activityVersionId : Id) : prog Store (list (Id * string * string)) :=
  select (fun s => in_order (uniq (omap (course_of_link s)
    (List.filter (fun r => Nat.eqb (at_version_id r) activityVersionId) (activity_topics s))))).

(** ** CurriculumController *)
Definition list_courses (tenantId : Id) : prog Store (list (Id * Course)) := listCourses tenantId.
Definition getTree (tenantId : Id) (slug : string) : prog Store CourseTree :=
  let* tree := getCourseTree tenantId slug in findOrThrow tree.
End Repository.

(** ** The scripts *)
Definition DEMO_TENANT_ID : Id := 1%nat.
Local Open Scope string_scope.

(** [skillIdBySlug.get(slug)]; an unknown slug is skipped with a warning. *)
Definition mapSkill (skillIdBySlug : gmap string Id) (topicId : Id) (slug : string) (weight : Q) (bloom : string) : prog Store unit :=
  match skillIdBySlug !! slug with
  | None => Ret tt
  | Some skillId => mapTopicToSkill topicId skillId weight bloom
  end.
Definition map_skills (skillIdBySlug : gmap string Id) (topicId : Id) (mappings : list (string * Q * string)) : prog Store unit :=
  for_each mappings (fun m => mapSkill skillIdBySlug topicId m.1.1 m.1.2 m.2).
Definition course_slug_map (course : string) (s : Store) : gmap string Id :=
  list_to_map ((fun kv : Id * Skill => (sk_slug kv.2, kv.1)) <$>
    List.filter (fun kv => String.eqb (sk_course_slug kv.2) course) (reverse (map_to_list (skills s)))).

Definition devops_mappings : list (string * Q * string) :=
  [("k8s.deployments", 45 # 100, "apply"); ("k8s.architecture", 2 # 10, "apply");
   ("k8s.pods", 2 # 10, "apply"); ("k8s.services", 15 # 100, "understand")].
Definition seed_curriculum : prog Store unit :=
  let* course := createCourse DEMO_TENANT_ID "course.devops-with-ai" "DevOps With AI" in
  let* k8sModule := createModule course.1 "Kubernetes" 1 (Some "module.devops.kubernetes") in
  let* deploymentsTopic := createTopic k8sModule.1 "Deployments" 1 (Some "topic.devops.k8s.deployments") in
  createSubtopic deploymentsTopic.1 "Rolling updates & rollbacks" 1 ;;
  createTopic k8sModule.1 "Container Orchestration" 2 (Some "topic.cloud.container-orchestration") ;;
  let* skillIdBySlug := select slug_map in
  map_skills skillIdBySlug deploymentsTopic.1 devops_mappings.

Definition genai_mappings : list (string * Q * string) :=
  [("python.fundamentals", 4 # 10, "apply"); ("python.data-structures-control-flow", 3 # 10, "apply");
   ("python.functions-oop-exceptions", 3 # 10, "apply")].
Definition seed_curriculum_genai : prog Store unit :=
  let* course := createCourse DEMO_TENANT_ID "course.genai-with-ml" "Generative AI With ML" in
  let* pythonModule := createModule course.1 "Python & Statistics Essentials" 1 (Some "module.genai.python-stats") in
  let* fundamentalsTopic :=
    createTopic pythonModule.1 "Python Programming Fundamentals" 1 (Some "topic.genai.python-fundamentals") in
  createSubtopic fundamentalsTopic.1 "Syntax, data types & interactive coding" 1 ;;
  createTopic pythonModule.1 "Data Analysis & Visualization" 2 (Some "topic.genai.data-analysis-visualization") ;;
  let* skillIdBySlug := select (course_slug_map "genai-with-ml") in
  map_skills skillIdBySlug fundamentalsTopic.1 genai_mappings.

Definition seed_curriculum_sre : prog Store unit :=
  let* course := createCourse DEMO_TENANT_ID "course.sre" "Site Reliability Engineering" in
  let* incidentModule := createModule course.1 "Incident Response" 1 (Some "module.sre.incident-response") in
  let* diagnosisTopic :=
    createTopic incidentModule.1 "Diagnosing Production Incidents" 1 (Some "topic.sre.incident-diagnosis") in
  createSubtopic diagnosisTopic.1 "Reading symptoms before acting" 1 ;;
  let* postmortemTopic := createTopic incidentModule.1 "Postmortems and Prevention" 2 (Some "topic.sre.postmortems") in
  createSubtopic postmortemTopic.1 "Root cause, remediation, prevention" 1 ;;
  let* reliabilityModule := createModule course.1 "Reliability Engineering" 2 (Some "module.sre.reliability") in
  let* sloTopic := createTopic reliabilityModule.1 "SLOs and Error Budgets" 1 (Some "topic.sre.slo-error-budgets") in
  createSubtopic sloTopic.1 "Burn rate and budget-gated risk" 1 ;;
  let* capacityTopic := createTopic reliabilityModule.1 "Capacity and Load" 2 (Some "topic.sre.capacity-and-load") in
  createSubtopic capacityTopic.1 "Sizing under sustained load" 1 ;;
  let* skillIdBySlug := select slug_map in
  mapSkill skillIdBySlug diagnosisTopic.1 "sre.incident-response-process" (6 # 10) "apply" ;;
  mapSkill skillIdBySlug diagnosisTopic.1 "k8s.troubleshooting" (4 # 10) "analyze" ;;
  mapSkill skillIdBySlug postmortemTopic.1 "sre.postmortem-authorship" 1 "create" ;;
  mapSkill skillIdBySlug sloTopic.1 "sre.slo-error-budgets" (7 # 10) "apply" ;;
  mapSkill skillIdBySlug sloTopic.1 "observability.alerting" (3 # 10) "apply" ;;
  mapSkill skillIdBySlug capacityTopic.1 "sre.capacity-and-load" (6 # 10) "apply" ;;
  mapSkill skillIdBySlug capacityTopic.1 "k8s.autoscaling" (4 # 10) "apply".

(** ** What a tree holds *)
Definition children {A} (position : A -> Z) (mine : Id * A -> bool) (table : gmap Id A) (l : list (Id * A)) : Prop :=
  l ≡ₚ List.filter mine (map_to_list table) /\ StronglySorted (by_position position) l.

Section Tree.
Context `{RowOrder}.

Lemma rows_in_children {A} (position : A -> Z) mine parents table p : p ∈ parents ->
  children position (mine p) table (List.filter (mine p) (rows_in position mine parents table)).
Proof.
  intros I. split.
  - unfold rows_in. rewrite (filter_Permutation (mine p) _ _ (merge_sort_Permutation _ _)), (filter_Permutation (mine p) _ _ (in_order_perm _)).
    rewrite filter_filter; [easy|]. intros x M. apply existsb_exists. exists p. split; [now apply list_elem_of_In | exact M].
  - apply StronglySorted_list_filter, Sorted_StronglySorted; [intros a b c; unfold by_position; lia|].
    apply Sorted_merge_sort. intros a b. unfold by_position. lia.
Qed.
Lemma rows_in_one {A} (position : A -> Z) mine table p : children position (mine p) table (rows_in position mine [p] table).
Proof.
  pose proof (rows_in_children position mine [p] table p ltac:(now left)) as C. rewrite filter_all in C; [exact C|].
  intros x. unfold rows_in. rewrite merge_sort_Permutation, in_order_perm, elem_filter. cbn. rewrite orb_false_r. tauto.
Qed.
Lemma run_unless_none {A} ids (f : Store -> list A) s : exists l, run (unless_none ids (select f)) s = (inr l, s) /\
  (forall id, id ∈ ids -> l = f s).
Proof.
  destruct ids as [|id ids]; cbn; [exists [] | exists (f s)]; split; [easy | | easy | easy]. now intros id []%elem_of_nil.
Qed.

(** C34: The tree of a course is null exactly when the tenant has no course of
    that slug.  Otherwise it has each module of the course once, in each module
    each of its topics once, in each topic each of its subtopics and skills
    once, and nothing else; modules, topics and subtopics come in the order of
    their positions.  Nothing is written. *)
Theorem course_tree tenantId slug s : exists r, run (getCourseTree tenantId slug) s = (inr r, s) /\
  match find_course tenantId slug s with
  | None => r = None
  | Some course => exists tree, r = Some tree /\ ct_course tree = course /\
      children md_position (module_of course.1) (modules s) (mt_module <$> ct_modules tree) /\
      Forall (fun m =>
        children tp_position (topic_of (mt_module m).1) (topics s) (tt_topic <$> mt_topics m) /\
        Forall (fun t =>
          children sb_position (subtopic_of (tt_topic t).1) (subtopics s) (tt_subtopics t) /\
          tt_skills t ≡ₚ omap (join_skill s)
            (List.filter (fun r => Nat.eqb (ts_topic_id r) (tt_topic t).1) (topic_skills s))) (mt_topics m)) (ct_modules tree)
  end.
Proof.
  unfold getCourseTree. rewrite run_bind, run_select. destruct (find_course tenantId slug s) as [course|]; [|exists None; easy].
  rewrite run_bind, run_select. set (mods := rows_in md_position _ _ _). rewrite run_bind.
  destruct (run_unless_none (fst <$> mods) (fun s => rows_in tp_position topic_of (fst <$> mods) (topics s)) s) as (tops & -> & T).
  rewrite run_bind.
  destruct (run_unless_none (fst <$> tops) (fun s => rows_in sb_position subtopic_of (fst <$> tops) (subtopics s)) s) as (subs & -> & U).
  rewrite run_bind.
  destruct (run_unless_none (fst <$> tops) (fun s => in_order (omap (join_skill s)
    (List.filter (fun r => includes (fst <$> tops) (ts_topic_id r)) (topic_skills s)))) s) as (ks & -> & K).
  eexists. split; [reflexivity|]. eexists. split; [reflexivity|]. cbn [ct_course ct_modules]. split; [easy|]. split.
  { rewrite <- list_fmap_compose. cbn. rewrite (list_fmap_ext _ id) by easy. rewrite list_fmap_id. apply rows_in_one. }
  apply Forall_fmap, Forall_forall. intros m M. cbn. specialize (T m.1 ltac:(now apply list_elem_of_fmap_2)). split.
  { rewrite <- list_fmap_compose. cbn. rewrite (list_fmap_ext _ id) by easy. rewrite list_fmap_id, T.
    apply rows_in_children. now apply list_elem_of_fmap_2. }
  apply Forall_fmap, Forall_forall. intros t I. apply elem_filter in I as [I _]. cbn.
  assert (t.1 ∈ fst <$> tops) as I1 by now apply list_elem_of_fmap_2. specialize (U t.1 I1). specialize (K t.1 I1). split.
  - rewrite U. now apply rows_in_children.
  - rewrite K, (filter_Permutation (skill_of t.1) _ _ (in_order_perm _)).
    rewrite (filter_omap _ _ (fun r => Nat.eqb (ts_topic_id r) t.1)).
    + rewrite filter_filter; [easy|]. intros r ->%Nat.eqb_eq. now apply includes_spec.
    + intros r row. unfold join_skill. destruct (skills s !! ts_skill_id r); [|discriminate]. now intros [= <-].
Qed.
End Tree.

(** ** The references of the tables *)
Definition is_row {A} (table : gmap Id A) (id : Id) : Prop := exists x, table !! id = Some x.

Record linked (s : Store) : Prop := mkLinked {
  ln_courses : forall id id' c c', courses s !! id = Some c -> courses s !! id' = Some c' ->
    co_tenant_id c = co_tenant_id c' -> co_slug c = co_slug c' -> id = id';
  ln_modules : forall id m, modules s !! id = Some m -> is_row (courses s) (md_course_id m);
  ln_topics : forall id t, topics s !! id = Some t -> exists m, tp_module_id t = Some m /\ is_row (modules s) m;
  ln_subtopics : forall id b, subtopics s !! id = Some b -> is_row (topics s) (sb_topic_id b);
  ln_mapped : forall r, r ∈ topic_skills s -> is_row (topics s) (ts_topic_id r) /\ is_row (skills s) (ts_skill_id r);
  ln_keys : NoDup ((fun r => (ts_topic_id r, ts_skill_id r)) <$> topic_skills s) }.

(** [p] keeps [I], whether it returns or throws. *)
Definition keeps {A} (I : Store -> Prop) (p : prog Store A) : Prop := forall s, I s -> I (snd (run p s)).
Lemma keeps_bind I {A B} (p : prog Store A) (f : A -> prog Store B) : keeps I p -> (forall a, keeps I (f a)) -> keeps I (bind p f).
Proof.
  intros P F s H. rewrite run_bind. specialize (P s H). destruct (run p s) as [ [e|a] s1]; [exact P|]. now apply F.
Qed.
Lemma keeps_ret I {A} (a : A) : keeps I (Ret a).
Proof. now intros s H. Qed.
Lemma keeps_select I {A} (f : Store -> A) : keeps I (select f).
Proof. now intros s H. Qed.
Lemma keeps_for_each I {A} (l : list A) (f : A -> prog Store unit) : (forall a, keeps I (f a)) -> keeps I (for_each l f).
Proof. intros F. induction l; [apply keeps_ret|]. cbn. now apply keeps_bind. Qed.
Create HintDb keeps.
#[local] Hint Resolve keeps_bind keeps_ret keeps_select keeps_for_each : keeps.

Lemma fresh_key_none {A} (m : gmap Id A) : m !! fresh_key m = None.
Proof. apply not_elem_of_dom. unfold fresh_key. apply is_fresh. Qed.
Lemma is_row_insert {A} (m : gmap Id A) id i x : is_row m id -> is_row (<[i := x]> m) id.
Proof. intros [y L]. destruct (decide (i = id)) as [<-|N]; [exists x; apply lookup_insert_eq | exists y; now rewrite lookup_insert_ne]. Qed.
#[local] Hint Resolve is_row_insert : keeps.

Lemma find_course_some t slug s id c : find_course t slug s = Some (id, c) ->
  courses s !! id = Some c /\ co_tenant_id c = t /\ co_slug c = slug.
Proof.
  unfold find_course. intros E%head_Some_elem_of%elem_filter. rewrite elem_of_map_to_list in E. destruct E as [L P].
  unfold is_course in P. apply andb_true_iff in P as [T%Nat.eqb_eq S%String.eqb_eq]. auto.
Qed.
Lemma find_course_none t slug s id c : find_course t slug s = None -> courses s !! id = Some c ->
  co_tenant_id c = t -> co_slug c = slug -> False.
Proof.
  unfold find_course. intros E%head_None L T S. assert ((id, c) ∈ List.filter (is_course t slug) (map_to_list (courses s))) as X.
  { apply elem_filter. rewrite elem_of_map_to_list. split; [exact L|]. unfold is_course. cbn. now rewrite T, S, Nat.eqb_refl, String.eqb_refl. }
  rewrite E in X. now apply elem_of_nil in X.
Qed.

(** Courses are found by tenant and slug after a title changes. *)
Lemma linked_courses s id c : linked s ->
  (forall id' c', courses s !! id' = Some c' -> co_tenant_id c = co_tenant_id c' -> co_slug c = co_slug c' -> id' = id) ->
  linked (s <| courses ::= <[id := c]> |>).
Proof.
  intros [] U. split; cbn; eauto with keeps.
  intros i i' x x' [ [<- <-]|[N L] ]%lookup_insert_Some [ [<- <-]|[N' L'] ]%lookup_insert_Some T S; eauto.
  symmetry. eauto.
Qed.
Lemma linked_createCourse t slug title : keeps linked (createCourse t slug title).
Proof.
  intros s H. unfold createCourse. rewrite run_act. destruct (find_course t slug s) as [ [id c]|] eqn:F; cbn [snd]; apply linked_courses; try exact H.
  - cbn. apply find_course_some in F as (L & _ & _). intros id' c' L' T S. exact (ln_courses _ H _ _ _ _ L' L (eq_sym T) (eq_sym S)).
  - cbn. intros id' c' L T S. exfalso. eapply find_course_none; eauto.
Qed.
Lemma linked_createModule courseId title position slug : keeps linked (createModule courseId title position slug).
Proof.
  intros s H. unfold createModule. rewrite run_act. destruct (courses s !! courseId) as [c|] eqn:C; [|exact H].
  destruct H. split; cbn; eauto with keeps.
  - intros id m [ [<- <-]|[N L] ]%lookup_insert_Some; [now exists c | eauto].
  - intros id t L. destruct (ln_topics0 _ _ L) as (m & M & R). eauto with keeps.
Qed.
Lemma linked_createTopic moduleId title position slug : keeps linked (createTopic moduleId title position slug).
Proof.
  intros s H. unfold createTopic. rewrite run_act. destruct (modules s !! moduleId) as [m|] eqn:M; [|exact H].
  destruct H. split; cbn; eauto with keeps.
  - intros id t [ [<- <-]|[N L] ]%lookup_insert_Some; [|eauto]. exists moduleId. split; [easy | now exists m].
  - intros r I. destruct (ln_mapped0 r I). auto with keeps.
Qed.
Lemma linked_createSubtopic topicId title position : keeps linked (createSubtopic topicId title position).
Proof.
  intros s H. unfold createSubtopic. rewrite run_act. destruct (topics s !! topicId) as [t|] eqn:T; [|exact H].
  destruct H. split; cbn; eauto with keeps. intros id b [ [<- <-]|[N L] ]%lookup_insert_Some; [now exists t | eauto].
Qed.

Lemma elem_of_upsert r l x : x ∈ upsert r l -> x = r \/ x ∈ l.
Proof.
  unfold upsert. destruct (existsb _ l).
  - intros (y & -> & I)%list_elem_of_fmap. destruct (same_mapping r y); auto.
  - rewrite elem_of_app, list_elem_of_singleton. tauto.
Qed.
Lemma upsert_keys r l : let key := fun r => (ts_topic_id r, ts_skill_id r) in
  NoDup (key <$> l) -> NoDup (key <$> upsert r l).
Proof.
  intros key N. unfold upsert. assert (forall y, same_mapping r y = true <-> key y = key r) as K.
  { intros y. unfold same_mapping, key. rewrite andb_true_iff, !Nat.eqb_eq. split; [intros [E1 E2]; now rewrite E1, E2 | intros E; injection E; auto]. }
  destruct (existsb _ l) eqn:E.
  - replace (key <$> map _ l) with (key <$> l); [exact N|]. clear N E. induction l as [|y l IH]; [reflexivity|]. cbn. f_equal; [|exact IH].
    destruct (same_mapping r y) eqn:S; [now apply K | reflexivity].
  - rewrite fmap_app. apply NoDup_app. split_and!; [exact N | | apply NoDup_singleton].
    intros k (y & -> & I)%list_elem_of_fmap X%list_elem_of_singleton. apply K in X.
    assert (existsb (same_mapping r) l = true) as Y by (apply existsb_exists; exists y; split; [now apply list_elem_of_In | exact X]). congruence.
Qed.
Lemma linked_mapTopicToSkill topicId skillId w b : keeps linked (mapTopicToSkill topicId skillId w b).
Proof.
  intros s H. unfold mapTopicToSkill. rewrite run_act. destruct (to_numeric 4 3 w) as [e|q]; [exact H|].
  destruct (topics s !! topicId) as [t|] eqn:T; [|exact H]. destruct (skills s !! skillId) as [k|] eqn:K; [|exact H].
  destruct H. split; cbn; eauto with keeps.
  - intros r [->|I]%elem_of_upsert; [|eauto]. split; [now exists t | now exists k].
  - now apply upsert_keys.
Qed.
#[local] Hint Resolve linked_createCourse linked_createModule linked_createTopic linked_createSubtopic linked_mapTopicToSkill : keeps.
Lemma linked_mapSkill ids t slug w b : keeps linked (mapSkill ids t slug w b).
Proof. unfold mapSkill. destruct (ids !! slug); auto with keeps. Qed.
Lemma linked_map_skills ids t l : keeps linked (map_skills ids t l).
Proof. unfold map_skills. auto using linked_mapSkill with keeps. Qed.
#[local] Hint Resolve linked_mapSkill linked_map_skills : keeps.

(** Every operation of the repository, and every script, keeps the tables
    consistent, also when it fails half-way: each module is in a course that
    exists, each topic in a module, each subtopic in a topic, each mapping
    joins a topic and a skill at most once, and a tenant has one course of a
    slug. *)
Theorem curriculum_linked :
  (forall t slug title, keeps linked (createCourse t slug title)) /\
  (forall c title position slug, keeps linked (createModule c title position slug)) /\
  (forall m title position slug, keeps linked (createTopic m title position slug)) /\
  (forall t title position, keeps linked (createSubtopic t title position)) /\
  (forall t k weight bloom, keeps linked (mapTopicToSkill t k weight bloom)) /\
  keeps linked seed_curriculum /\ keeps linked seed_curriculum_genai /\ keeps linked seed_curriculum_sre.
Proof.
  split_and!; auto with keeps; unfold seed_curriculum, seed_curriculum_genai, seed_curriculum_sre;
    repeat (apply keeps_bind; [auto with keeps | intros]); auto with keeps.
Qed.

(** ** Running the scripts *)
(** Nothing checks a slug: a module takes two topics of the same slug. *)
Lemma slugs_not_enforced s m moduleId title title' position slug : modules s !! moduleId = Some m ->
  exists id id' row row' s', run (let* t := createTopic moduleId title position slug in
                                   let* t' := createTopic moduleId title' position slug in Ret (t, t')) s =
    (inr ((id, row), (id', row')), s') /\ id <> id' /\ topics s' !! id = Some row /\ topics s' !! id' = Some row' /\
    tp_slug row = tp_slug row' /\ tp_module_id row = tp_module_id row'.
Proof.
  intros M. unfold createTopic. rewrite run_bind, run_act, M. cbn [fst snd]. rewrite run_bind, run_act. cbn. rewrite M.
  set (id := fresh_key (topics s)). set (row := mkTopic _ title _ _). set (id' := fresh_key _).
  assert (id <> id') as N. { intros E. pose proof (fresh_key_none (<[id := row]> (topics s))) as X. fold id' in X. rewrite <- E, lookup_insert_eq in X. easy. }
  eexists id, id', row, _, _. split; [reflexivity|]. split_and!; [exact N | | cbn; apply lookup_insert_eq | easy | easy].
  cbn. rewrite lookup_insert_ne by congruence. apply lookup_insert_eq.
Qed.

(** The skills of the three courses, without their edges. *)
Definition all_skills : Store := snd (run (
  insert_skills (domain_order Devops.DOMAIN_ORDER) None Devops.SKILLS ∅ ∅ ;;
  insert_skills (domain_order Genai.DOMAIN_ORDER) (Some "genai-with-ml") Genai.SKILLS ∅ ∅ ;;
  insert_sre_skills Sre.SRE_SKILLS 0) empty_store).
Definition curricula : prog Store unit := seed_curriculum ;; seed_curriculum_genai ;; seed_curriculum_sre.
Definition covered (s : Store) : list (option string * Q) :=
  (fun kv : Id * Topic => (tp_slug kv.2,
     Qred (fold_right Qplus 0 (ts_coverage_weight <$> List.filter (fun r => Nat.eqb (ts_topic_id r) kv.1) (topic_skills s)))))
  <$> map_to_list (topics s).
Definition topic_slugs (s : Store) : list (option string) := (fun kv : Id * Topic => tp_slug kv.2) <$> map_to_list (topics s).

(** After the skills of the three courses, the three curricula are seeded
    without an error, and the weights of the skills a topic covers add up to
    exactly 1, or the topic covers none.  On a database without skills the
    scripts succeed all the same and no topic covers anything.  Running
    seed-curriculum.ts twice leaves one course and two topics of each slug. *)
Theorem curricula_seeded :
  fst (run curricula all_skills) = inr tt /\
  forallb (fun c => Qeq_bool c.2 1 || Qeq_bool c.2 0) (covered (snd (run curricula all_skills))) = true /\
  fst <$> List.filter (fun c => Qeq_bool c.2 0) (covered (snd (run curricula all_skills))) =
    [Some "topic.genai.data-analysis-visualization"; Some "topic.cloud.container-orchestration"] /\
  fst (run curricula empty_store) = inr tt /\ topic_skills (snd (run curricula empty_store)) = [] /\
  size (courses (snd (run (seed_curriculum ;; seed_curriculum) all_skills))) = 1%nat /\
  topic_slugs (snd (run (seed_curriculum ;; seed_curriculum) all_skills)) =
    [Some "topic.devops.k8s.deployments"; Some "topic.cloud.container-orchestration";
     Some "topic.cloud.container-orchestration"; Some "topic.devops.k8s.deployments"].
Proof. vm_compute. auto 10. Qed.
