(* ===== verification/Catalog.v ===== *)
(** * The catalog

    catalog/catalog.repository.ts, catalog.controller.ts and
    common/published-activity-versions-query.ts: authoring a version
    (published at once, or as a draft that goes through review), the status
    transitions, and the listings a learner sees.

    A transaction of the repository reads several tables and then writes: each
    read is an action, the writes are one action, the commit, where the unique
    indexes and the trigger of db/migrations/0007 are checked. *)
From stdpp Require Import infinite sorting.
From S2P Require Import Prelude JsNum Effects Schema AttemptStatus Elo Mastery.

(** ** Input *)
Record ActivitySpecSkill := mkActivitySpecSkill {
  ss_skill : string; ss_weight : Q; ss_primary : bool; ss_bloom : option string }.
Record ActivitySpecCurriculum := mkActivitySpecCurriculum {
  cu_primary_topic : string; cu_also_relevant : option (list string) }.

(** The spec, its authoring half apart from the half the services read back. *)
Record PublishActivityVersionInput := mkPublishActivityVersionInput {
  pi_tenantId : Id; pi_activitySlug : string; pi_mode : ActivityMode;
  pi_version : Z; pi_skills : list ActivitySpecSkill; pi_curriculum : option ActivitySpecCurriculum;
  pi_difficulty_level : DifficultyLevel; pi_estimated_minutes : Z;
  pi_blueprint : string; pi_cost_budget_usd : Q;
  pi_spec : ActivitySpec; pi_publishedBy : option Id }.

(** ** insertVersion: the reads *)
Definition find_activity (tenantId : Id) (slug : string) (s : Store) : option (Id * Activity) :=
  head (List.filter (fun kv => Nat.eqb (a_tenant_id kv.2) tenantId && String.eqb (a_slug kv.2) slug)
          (map_to_list (activities s))).

(** SELECT version ... ORDER BY version DESC, or 0. *)
Definition versions_of (activityId : Id) (s : Store) : list (Id * ActivityVersion) :=
  List.filter (fun kv => Nat.eqb (av_activity_id kv.2) activityId) (map_to_list (versions s)).
Definition latest_version (activityId : Id) (s : Store) : nat :=
  fold_right Nat.max 0%nat (av_version ∘ snd <$> versions_of activityId s).

Definition skill_rows (slugs : list string) (s : Store) : list (string * Id) :=
  (fun kv => (sk_slug kv.2, kv.1)) <$>
    List.filter (fun kv => existsb (String.eqb (sk_slug kv.2)) slugs) (map_to_list (skills s)).

(** [new Map(rows).get(slug)]: a later row wins. *)
Definition skill_id (rows : list (string * Id)) (slug : string) : option Id :=
  snd <$> List.find (fun r => String.eqb r.1 slug) (rev rows).

(** The skills with their ids, or [None] when one is unknown. *)
Definition resolve_skills (rows : list (string * Id)) (l : list ActivitySpecSkill) : option (list (Id * ActivitySpecSkill)) :=
  mapM (fun k => id ← skill_id rows (ss_skill k); Some (id, k)) l.

(** [input.spec.curriculum?.primary_topic ? ... : []]: the empty string is falsy. *)
Definition primary_topic (c : option ActivitySpecCurriculum) : list string :=
  match cu_primary_topic <$> c with Some EmptyString | None => [] | Some t => [t] end.
Definition topicSlugs (c : option ActivitySpecCurriculum) : list (string * Q) :=
  ((fun slug => (slug, 1)) <$> primary_topic c) ++
  ((fun slug => (slug, 1 # 2)) <$> default [] (c ≫= cu_also_relevant)).

(** ** insertVersion: the writes *)
Definition fresh_activity (s : Store) : Id := fresh (dom (activities s) : gset Id).
Definition fresh_version (s : Store) : Id := fresh (dom (versions s) : gset Id).

(** UNIQUE (tenant_id, slug). *)
Definition insert_activity (input : PublishActivityVersionInput) : prog Store Id :=
  act (fun s =>
    match find_activity (pi_tenantId input) (pi_activitySlug input) s with
    | Some _ => inl (DbError "activity_tenant_id_slug_key")
    | None => inr (fresh_activity s, s <| activities ::=
        <[fresh_activity s := mkActivity (pi_tenantId input) (pi_activitySlug input) (pi_mode input)]> |>)
    end).

Definition new_version (input : PublishActivityVersionInput) (activityId : Id) (nextVersion : nat)
    (status : ActivityVersionStatus) (cost : Q) (clock : Z) : ActivityVersion :=
  let published := bool_decide (status = V_PUBLISHED) in
  mkActivityVersion activityId nextVersion status (pi_spec input) (Some (pi_blueprint input)) None
    (Some (pi_difficulty_level input)) None (Some (pi_estimated_minutes input)) (Some cost)
    (if published then Some clock else None) (if published then pi_publishedBy input else None).

(** UNIQUE (activity_id, version). *)
Definition insert_version_row (input : PublishActivityVersionInput) (activityId : Id) (nextVersion : nat)
    (status : ActivityVersionStatus) : prog Store (Id * ActivityVersion) :=
  act (fun s =>
    let? cost := to_numeric 8 4 (pi_cost_budget_usd input) in
    if existsb (fun kv => Nat.eqb (av_version kv.2) nextVersion) (versions_of activityId s)
    then inl (DbError "activity_version_activity_id_version_key")
    else
      let row := new_version input activityId nextVersion status cost (now s) in
      inr ((fresh_version s, row), s <| versions ::= <[fresh_version s := row]> |>)).

(** INSERT into a table whose key is unique. *)
Definition insert_keyed {R K} `{EqDecision K} (rows : Store -> list R) (append : list R -> Store -> Store)
    (key : R -> K) (constraint : string) (row : exn + R) : prog Store unit :=
  act (fun s =>
    let? r := row in
    if existsb (fun r' => bool_decide (key r' = key r)) (rows s) then inl (DbError constraint)
    else inr (tt, append [r] s)).

(** PRIMARY KEY (activity_version_id, skill_id). *)
Definition skill_link (versionId : Id) (k : Id * ActivitySpecSkill) : exn + ActivitySkill :=
  let? weight := to_numeric 4 3 (ss_weight k.2) in
  inr (mkActivitySkill versionId k.1 weight (ss_primary k.2) (ss_bloom k.2)).
Definition link_key (r : ActivitySkill) : Id * Id := (as_version_id r, as_skill_id r).
Definition insert_activity_skill (versionId : Id) (k : Id * ActivitySpecSkill) : prog Store unit :=
  insert_keyed activity_skills (fun l s => s <| activity_skills ::= fun l0 => l0 ++ l |>) link_key
    "activity_skill_pkey" (skill_link versionId k).

(** PRIMARY KEY (activity_version_id, topic_id). *)
Definition topic_key (r : ActivityTopic) : Id * Id := (at_version_id r, at_topic_id r).
Definition insert_activity_topic (versionId : Id) (t : Id * Q) : prog Store unit :=
  insert_keyed activity_topics (fun l s => s <| activity_topics ::= fun l0 => l0 ++ l |>) topic_key
    "activity_topic_pkey" (inr (mkActivityTopic versionId t.1 t.2)).

Definition commit_version (input : PublishActivityVersionInput) (activity : option (Id * Activity)) (nextVersion : nat)
    (status : ActivityVersionStatus) (skills : list (Id * ActivitySpecSkill)) (topics : list (Id * Q))
    : prog Store (Id * ActivityVersion) :=
  let* activityId := match activity with Some a => Ret a.1 | None => insert_activity input end in
  let* version := insert_version_row input activityId nextVersion status in
  for_each skills (insert_activity_skill version.1) ;;
  for_each topics (insert_activity_topic version.1) ;;
  Ret version.

Section CatalogRepository.
Context `{RowOrder}.

(** Slugs of topics need not be unique; a slug without a topic is skipped. *)
Definition topic_by_slug (slug : string) (s : Store) : option Id :=
  fst <$> head (in_order (List.filter (fun kv => bool_decide (tp_slug kv.2 = Some slug)) (map_to_list (topics s)))).
Definition find_topics (l : list (string * Q)) : prog Store (list (Id * Q)) :=
  let* found := for_map l (fun t =>
    let* topic := select (topic_by_slug t.1) in
    Ret (match topic with Some id => [(id, t.2)] | None => [] end)) in
  Ret (concat found).

(** [in ()], which an empty list becomes, is a syntax error. *)
Definition insertVersion (input : PublishActivityVersionInput) (status : ActivityVersionStatus)
    : prog Store (Id * ActivityVersion) :=
  let* activity := select (find_activity (pi_tenantId input) (pi_activitySlug input)) in
  let* latest := match activity with Some a => select (latest_version a.1) | None => Ret 0%nat end in
  let nextVersion := (latest + 1)%nat in
  if negb (Z.eqb (pi_version input) (Z.of_nat nextVersion)) then Throw ConflictException
  else match pi_skills input with
  | [] => Throw (DbError "syntax error")
  | specSkills =>
      let* rows := select (fun s => in_order (skill_rows (ss_skill <$> specSkills) s)) in
      match resolve_skills rows specSkills with
      | None => Throw ConflictException
      | Some skills =>
          let* topics := find_topics (topicSlugs (pi_curriculum input)) in
          transaction (commit_version input activity nextVersion status skills topics)
      end
  end.

Definition publishNewVersion (input : PublishActivityVersionInput) : prog Store (Id * ActivityVersion) :=
  insertVersion input V_PUBLISHED.
Definition createDraft (input : PublishActivityVersionInput) : prog Store (Id * ActivityVersion) :=
  insertVersion input V_DRAFT.

(** ** transitionVersionStatus *)
Definition ALLOWED_TRANSITIONS (from : ActivityVersionStatus) : list ActivityVersionStatus :=
  match from with
  | V_DRAFT => [V_IN_REVIEW]
  | V_IN_REVIEW => [V_APPROVED; V_DRAFT]
  | V_APPROVED => [V_PUBLISHED; V_DRAFT]
  | V_PUBLISHED | V_CANARY | V_DEPRECATED | V_RETIRED | V_ROLLED_BACK => []
  end.

(** The trigger reject_published_edit, for the columns the UPDATE sets. *)
Definition reject_published_edit (old new : ActivityVersion) : bool :=
  bool_decide (av_status old = V_PUBLISHED) &&
  negb (bool_decide (av_status new = av_status old) && bool_decide (av_published_at new = av_published_at old)
        && bool_decide (av_published_by new = av_published_by old)).

Definition moved_to (to : ActivityVersionStatus) (actor : option Id) (clock : Z) (v : ActivityVersion) : ActivityVersion :=
  let v := v <| av_status := to |> in
  if bool_decide (to = V_PUBLISHED)
  then let v := v <| av_published_at := Some clock |> in
       match actor with Some a => v <| av_published_by := Some a |> | None => v end
  else v.

Definition update_status (id : Id) (to : ActivityVersionStatus) (actor : option Id) : prog Store ActivityVersion :=
  act (fun s =>
    match versions s !! id with
    | None => inl NoResultError
    | Some v =>
        let v' := moved_to to actor (now s) v in
        if reject_published_edit v v' then inl (DbError "PUBLISHED and immutable")
        else inr (v', s <| versions ::= <[id := v']> |>)
    end).

Definition transitionVersionStatus (activityVersionId : Id) (from to : ActivityVersionStatus) (actor : option Id)
    : prog Store ActivityVersion :=
  if negb (bool_decide (to ∈ ALLOWED_TRANSITIONS from)) then Throw ConflictException
  else
    let* current := select (fun s => versions s !! activityVersionId) in
    match current with
    | None => Throw ConflictException
    | Some current =>
        if negb (bool_decide (av_status current = from)) then Throw ConflictException
        else update_status activityVersionId to actor
    end.

(** ** Queries *)

(** A version joined to its activity. *)
Record VersionRow := mkVersionRow { vw_id : Id; vw_version : ActivityVersion; vw_activity : Activity }.
Definition join_activity (s : Store) (id : Id) : option VersionRow :=
  version ← versions s !! id;
  activity ← activities s !! av_activity_id version;
  Some (mkVersionRow id version activity).

(** common/published-activity-versions-query.ts. *)
Definition publishedActivityVersionsQuery (tenantId : Id) (r : VersionRow) : bool :=
  Nat.eqb (a_tenant_id (vw_activity r)) tenantId && bool_decide (av_status (vw_version r) = V_PUBLISHED).

Definition getVersionById (id : Id) : prog Store (option VersionRow) := select (fun s => join_activity s id).

Definition newest_first (a b : Id * ActivityVersion) : Prop := (av_version b.2 <= av_version a.2)%nat.
#[export] Instance newest_first_dec : RelDecision newest_first.
Proof. unfold newest_first. intros a b. apply _. Defined.
Definition published_of (activityId : Id) (s : Store) : list (Id * ActivityVersion) :=
  merge_sort newest_first
    (List.filter (fun kv => bool_decide (av_status kv.2 = V_PUBLISHED)) (versions_of activityId s)).
Definition getPublishedVersion (activityId : Id) : prog Store (option (Id * ActivityVersion)) :=
  select (fun s => head (published_of activityId s)).

Definition published_rows (tenantId : Id) (s : Store) : list VersionRow :=
  in_order (List.filter (publishedActivityVersionsQuery tenantId)
    (omap (join_activity s ∘ fst) (map_to_list (versions s)))).
Definition listPublishedCatalog (tenantId : Id) : prog Store (list VersionRow) := select (published_rows tenantId).

(** A LEFT JOIN keeps a row without a match, with nulls. *)
Definition left_join {A B} (f : A -> list B) (l : list A) : list (A * option B) :=
  l ≫= fun a => match f a with [] => [(a, None)] | bs => (fun b => (a, Some b)) <$> bs end.

Record SkillCatalogRow := mkSkillCatalogRow {
  sr_skill_id : Id; sr_skill : Skill;
  sr_activity : option (Id * Activity);
  sr_version : option (Id * ActivityVersion) }.

(** The three joins of the FROM clause for one skill. *)
Definition primary_links (s : Store) (k : Id * Skill) : list ActivitySkill :=
  List.filter (fun r => Nat.eqb (as_skill_id r) k.1 && as_is_primary r) (activity_skills s).
Definition published_version (s : Store) (asx : option ActivitySkill) : option (Id * ActivityVersion) :=
  r ← asx; v ← versions s !! as_version_id r;
  if bool_decide (av_status v = V_PUBLISHED) then Some (as_version_id r, v) else None.
Definition tenant_activity (tenantId : Id) (s : Store) (av : option (Id * ActivityVersion)) : option (Id * Activity) :=
  v ← av; a ← activities s !! av_activity_id v.2;
  if Nat.eqb (a_tenant_id a) tenantId then Some (av_activity_id v.2, a) else None.

Definition skill_catalog_row (tenantId : Id) (s : Store) (r : (Id * Skill) * option ActivitySkill) : SkillCatalogRow :=
  let av := published_version s r.2 in
  mkSkillCatalogRow r.1.1 r.1.2 (tenant_activity tenantId s av) av.

(** WHERE (a.id is null or a.tenant_id = tenant). *)
Definition resolved_for (tenantId : Id) (r : SkillCatalogRow) : bool :=
  match sr_activity r with None => true | Some a => Nat.eqb (a_tenant_id a.2) tenantId end.

Definition course_skills (courseSlug : string) (s : Store) : list (Id * Skill) :=
  List.filter (fun k => String.eqb (sk_status k.2) "active" && String.eqb (sk_course_slug k.2) courseSlug)
    (map_to_list (skills s)).

Definition teaching_order (a b : SkillCatalogRow) : Prop :=
  (sk_domain_order (sr_skill a) < sk_domain_order (sr_skill b))%Z \/
  (sk_domain_order (sr_skill a) = sk_domain_order (sr_skill b) /\
   (sk_sequence (sr_skill a) <= sk_sequence (sr_skill b))%Z).
#[export] Instance teaching_order_dec : RelDecision teaching_order.
Proof. unfold teaching_order. intros a b. apply _. Defined.

Definition skill_catalog (tenantId : Id) (courseSlug : string) (s : Store) : list SkillCatalogRow :=
  merge_sort teaching_order (in_order (List.filter (resolved_for tenantId)
    (skill_catalog_row tenantId s <$> left_join (primary_links s) (course_skills courseSlug s)))).
Definition listSkillDrivenCatalog (tenantId : Id) (courseSlug : string) : prog Store (list SkillCatalogRow) :=
  select (skill_catalog tenantId courseSlug).

(** ** CatalogController *)
Definition list_published (tenantId : Id) : prog Store (list VersionRow) := listPublishedCatalog tenantId.
Definition listBySkill (tenantId : Id) (course : option string) : prog Store (list SkillCatalogRow) :=
  listSkillDrivenCatalog tenantId (default "devops-with-ai"%string course).
Definition getOne (activityVersionId : Id) : prog Store VersionRow :=
  let* row := getVersionById activityVersionId in findOrThrow row.
End CatalogRepository.
