(* ===== verification/CatalogLaws.v ===== *)
(** * What the catalog keeps

    Authoring a version on every branch, the numbering of versions and the
    immutability of published ones under any interleaving, the status
    transitions and the race between two of them, and the listing by skill. *)
From stdpp Require Import infinite sorting.
From S2P Require Import Prelude JsNum Binary64 Effects Schema AttemptStatus Bkt Elo SkillGraph Mastery Catalog.

(** ** The catalog tables *)
Definition has_version (s : Store) (activityId : Id) (k : nat) : Prop :=
  exists id v, versions s !! id = Some v /\ av_activity_id v = activityId /\ av_version v = k.

(** Versions of an activity are numbered 1, 2, ... without gaps or repeats,
    slugs are unique in a tenant, and references lead to rows. *)
Record catalog_wf (s : Store) : Prop := mkCatalogWf {
  cw_numbered : forall a, exists n, forall k, has_version s a k <-> (1 <= k <= n)%nat;
  cw_unique : forall id v id' v', versions s !! id = Some v -> versions s !! id' = Some v' ->
    av_activity_id v = av_activity_id v' -> av_version v = av_version v' -> id = id';
  cw_activity : forall id v, versions s !! id = Some v -> is_Some (activities s !! av_activity_id v);
  cw_slug : forall i a i' a', activities s !! i = Some a -> activities s !! i' = Some a' ->
    a_tenant_id a = a_tenant_id a' -> a_slug a = a_slug a' -> i = i';
  cw_skills : forall r, r ∈ activity_skills s -> is_Some (versions s !! as_version_id r);
  cw_topics : forall r, r ∈ activity_topics s -> is_Some (versions s !! at_version_id r)
}.

Lemma elem_versions_of a s kv : kv ∈ versions_of a s <-> versions s !! kv.1 = Some kv.2 /\ av_activity_id kv.2 = a.
Proof.
  unfold versions_of. rewrite elem_filter. destruct kv as [id v]. rewrite elem_of_map_to_list. cbn.
  now rewrite Nat.eqb_eq.
Qed.

Lemma fold_max_le l x : x ∈ l -> (x <= fold_right Nat.max 0 l)%nat.
Proof. induction l as [|y l IH]; [intros X; now apply elem_of_nil in X |]. intros [->|X]%elem_of_cons; cbn; [lia |]. apply IH in X. lia. Qed.
Lemma fold_max_in l : fold_right Nat.max 0%nat l = 0%nat \/ fold_right Nat.max 0%nat l ∈ l.
Proof.
  induction l as [|y l [E|I]]; cbn; [now left | |].
  - rewrite E. right. rewrite Nat.max_0_r. now left.
  - right. destruct (Nat.max_spec y (fold_right Nat.max 0%nat l)) as [[_ ->]|[_ ->]]; [now right | now left].
Qed.

Lemma latest_version_spec a s :
  (forall k, has_version s a k -> (k <= latest_version a s)%nat) /\
  (latest_version a s = 0%nat \/ has_version s a (latest_version a s)).
Proof.
  unfold latest_version. split.
  - intros k (id & v & L & A & K). apply fold_max_le. apply list_elem_of_fmap. exists (id, v).
    split; [easy |]. now apply elem_versions_of.
  - destruct (fold_max_in (av_version ∘ snd <$> versions_of a s)) as [E|I]; [now left | right].
    apply list_elem_of_fmap in I as ([id v] & E & [L A]%elem_versions_of). cbn in *.
    exists id, v. now rewrite E.
Qed.

(** The latest version is the number of versions. *)
Lemma latest_numbered a s n : (forall k, has_version s a k <-> (1 <= k <= n)%nat) -> latest_version a s = n.
Proof.
  intros N. destruct (latest_version_spec a s) as [U M].
  destruct (decide (n = 0%nat)) as [->|NZ].
  - destruct M as [M|M]; [easy |]. apply N in M. lia.
  - assert (has_version s a n) as H by (apply N; lia). apply U in H. destruct M as [M|M]; [lia |]. apply N in M. lia.
Qed.

Lemma find_activity_some t slug s i a : find_activity t slug s = Some (i, a) ->
  activities s !! i = Some a /\ a_tenant_id a = t /\ a_slug a = slug.
Proof.
  unfold find_activity. intros H. apply head_Some_elem_of, elem_filter in H as [I P].
  apply elem_of_map_to_list in I. apply andb_prop in P as [T S]. cbn in T, S.
  apply Nat.eqb_eq in T. apply String.eqb_eq in S. easy.
Qed.
Lemma find_activity_none t slug s : find_activity t slug s = None ->
  forall i a, activities s !! i = Some a -> a_tenant_id a = t -> a_slug a <> slug.
Proof.
  unfold find_activity. intros H i a L T S. apply head_None in H.
  assert (X : (i, a) ∈ List.filter (fun kv => Nat.eqb (a_tenant_id kv.2) t && String.eqb (a_slug kv.2) slug) (map_to_list (activities s))).
  { apply elem_filter. rewrite elem_of_map_to_list. cbn. now rewrite T, S, Nat.eqb_refl, String.eqb_refl. }
  rewrite H in X. now apply elem_of_nil in X.
Qed.

Lemma fresh_activity_new s : activities s !! fresh_activity s = None.
Proof. apply not_elem_of_dom. unfold fresh_activity. apply is_fresh. Qed.
Lemma fresh_version_new s : versions s !! fresh_version s = None.
Proof. apply not_elem_of_dom. unfold fresh_version. apply is_fresh. Qed.

(** ** Inserting under a unique key *)
Section InsertKeyed.
Context {A R K : Type} `{EqDecision K} (rows : Store -> list R) (append : list R -> Store -> Store)
  (key : R -> K) (constraint : string) (row : A -> exn + R).
Hypothesis rows_append : forall l s, rows (append l s) = rows s ++ l.
Hypothesis append_append : forall l l' s, append l' (append l s) = append (l ++ l') s.
Hypothesis append_nil : forall s, append [] s = s.
Hypothesis row_error : forall x e, row x = inl e -> exists c, e = DbError c.

(** The rows a list of inserts adds, when every key is new. *)
Definition insertable (l : list A) (s : Store) (new : list R) : Prop :=
  Forall2 (fun x r => row x = inr r) l new /\ NoDup (key <$> new) /\
  forall r, r ∈ new -> key r ∉ (key <$> rows s).

Lemma clash_spec r s : existsb (fun r' => bool_decide (key r' = key r)) (rows s) = true <-> key r ∈ (key <$> rows s).
Proof.
  rewrite existsb_exists, list_elem_of_fmap. split.
  - intros (r' & I & E). apply bool_decide_eq_true in E. exists r'. now rewrite list_elem_of_In.
  - intros (r' & E & I). exists r'. rewrite <- list_elem_of_In, bool_decide_eq_true. easy.
Qed.

Lemma insertable_cons x l s new : insertable (x :: l) s new <->
  exists r new', new = r :: new' /\ row x = inr r /\ key r ∉ (key <$> rows s) /\
    insertable l (append [r] s) new'.
Proof.
  unfold insertable. setoid_rewrite rows_append. setoid_rewrite fmap_app. setoid_rewrite elem_of_app. split.
  - intros (F & N & D). inversion F as [|? r ? new' E F']; subst. cbn in N. apply NoDup_cons in N as [N1 N2].
    exists r, new'. split_and!; try easy; [apply D; now left |].
    intros r' I [X|X%list_elem_of_singleton]; [revert X; apply D; now right |].
    apply N1. rewrite <- X. now apply list_elem_of_fmap_2.
  - intros (r & new' & -> & E & F & F2 & N & D). split_and!; [now constructor | cbn; apply NoDup_cons; split; [|easy] |].
    + intros (r' & E' & I)%list_elem_of_fmap. apply (D r' I). right. rewrite <- E'. now left.
    + intros r' [->|I]%elem_of_cons; [easy |]. intros X. apply (D r' I). now left.
Qed.

Lemma run_insert_keyed l s :
  match run (for_each l (fun x => insert_keyed rows append key constraint (row x))) s with
  | (inr _, s') => exists new, insertable l s new /\ s' = append new s
  | (inl e, _) => (exists c, e = DbError c) /\ forall new, ~ insertable l s new
  end.
Proof.
  revert s. induction l as [|x l IH]; intros s; cbn [for_each].
  - exists []. split; [split_and!; [constructor | constructor |] |]; [intros r I; now apply elem_of_nil in I | now rewrite append_nil].
  - rewrite run_bind. unfold insert_keyed at 1. rewrite run_act.
    destruct (row x) as [e|r] eqn:E.
    { split; [now apply (row_error x) |]. intros new I. apply insertable_cons in I as (? & ? & _ & E' & _). congruence. }
    destruct (existsb _ _) eqn:C.
    { apply clash_spec in C. split; [now eexists |]. intros new I. apply insertable_cons in I as (? & ? & _ & E' & N & _). congruence. }
    assert (N : key r ∉ (key <$> rows s)) by (rewrite <- clash_spec, C; easy).
    specialize (IH (append [r] s)).
    destruct (run _ _) as [[e|[]] s'].
    + destruct IH as [IE IH]. split; [easy |]. intros new I. apply insertable_cons in I as (r' & new' & _ & E' & _ & I). replace r' with r in I by congruence. now apply (IH new').
    + destruct IH as (new & I & ->). exists (r :: new). split; [apply insertable_cons; now exists r, new |].
      now rewrite append_append.
Qed.
End InsertKeyed.

(** ** Authoring a version alone *)
Section Authoring.
Context `{RowOrder}.

Definition next_version (input : PublishActivityVersionInput) (s : Store) : nat :=
  S (match find_activity (pi_tenantId input) (pi_activitySlug input) s with Some a => latest_version a.1 s | None => 0%nat end).

Definition known_skill (s : Store) (slug : string) : Prop :=
  exists id k, skills s !! id = Some k /\ sk_slug k = slug.
Definition bound_topics (input : PublishActivityVersionInput) (s : Store) : list Id :=
  omap (fun t => topic_by_slug t.1 s) (topicSlugs (pi_curriculum input)).

(** Everything that makes the repository refuse a version. *)
Definition refused (input : PublishActivityVersionInput) (s : Store) : Prop :=
  pi_version input <> Z.of_nat (next_version input s) \/
  pi_skills input = [] \/
  (exists k, k ∈ pi_skills input /\ ~ known_skill s (ss_skill k)) \/
  numeric 8 4 (pi_cost_budget_usd input) = None \/
  (exists k, k ∈ pi_skills input /\ numeric 4 3 (ss_weight k) = None) \/
  ~ NoDup (ss_skill <$> pi_skills input) \/
  ~ NoDup (bound_topics input s).

Lemma elem_skill_rows slugs s slug id : (slug, id) ∈ skill_rows slugs s <->
  slug ∈ slugs /\ exists k, skills s !! id = Some k /\ sk_slug k = slug.
Proof.
  unfold skill_rows. rewrite list_elem_of_fmap. split.
  - intros ([i k] & [= -> ->] & [I E]%elem_filter). apply existsb_exists in E as (x & X & E).
    apply String.eqb_eq in E. cbn in *. subst x. apply elem_of_map_to_list in I.
    split; [now apply list_elem_of_In | eauto].
  - intros (I & k & L & <-). exists (id, k). split; [easy |]. apply elem_filter. split; [now apply elem_of_map_to_list |].
    apply existsb_exists. exists (sk_slug k). split; [now apply list_elem_of_In | apply String.eqb_refl].
Qed.

Lemma skill_id_spec slugs s slug :
  let rows := in_order (skill_rows slugs s) in
  slug ∈ slugs ->
  match skill_id rows slug with
  | Some id => exists k, skills s !! id = Some k /\ sk_slug k = slug
  | None => ~ known_skill s slug
  end.
Proof.
  intros rows I. unfold skill_id. destruct (List.find _ _) as [[sl id]|] eqn:F; cbn.
  - apply find_some in F as [R E]. apply String.eqb_eq in E. cbn in E. subst sl.
    rewrite <- in_rev, <- list_elem_of_In in R. unfold rows in R. apply elem_of_in_order, elem_skill_rows in R. apply R.
  - intros (id & k & L & E). assert (X : (slug, id) ∈ rev rows); [|apply list_elem_of_In, (find_none _ _ F) in X; cbn in X; now rewrite String.eqb_refl in X].
    apply list_elem_of_In. rewrite <- in_rev, <- list_elem_of_In. apply elem_of_in_order, elem_skill_rows. eauto.
Qed.

(** A skill with the id its slug resolves to. *)
Definition resolved (s : Store) (rows : list (string * Id)) (k : Id * ActivitySpecSkill) : Prop :=
  skill_id rows (ss_skill k.2) = Some k.1 /\ exists r, skills s !! k.1 = Some r /\ sk_slug r = ss_skill k.2.

Lemma resolve_spec s l : forall l0, l0 ⊆ l ->
  let rows := in_order (skill_rows (ss_skill <$> l) s) in
  match resolve_skills rows l0 with
  | Some ks => ks.*2 = l0 /\ Forall (resolved s rows) ks
  | None => exists k, k ∈ l0 /\ ~ known_skill s (ss_skill k)
  end.
Proof.
  intros l0 Sub rows. induction l0 as [|k l0 IH]; [now split; [|constructor] |].
  assert (M : ss_skill k ∈ ss_skill <$> l) by (apply list_elem_of_fmap_2, Sub; now left).
  pose proof (skill_id_spec (ss_skill <$> l) s (ss_skill k) M) as K. fold rows in K.
  unfold resolve_skills. cbn. destruct (skill_id rows (ss_skill k)) as [id|] eqn:E; cbn in *; [|exists k; split; [now left | easy]].
  assert (I : l0 ⊆ l) by (intros x X; apply Sub; now right). specialize (IH I). unfold resolve_skills in IH.
  destruct (mapM _ l0) as [ks|]; cbn.
  - destruct IH as [<- F]. split; [easy |]. now constructor.
  - destruct IH as (k' & I' & N). exists k'. split; [now right | easy].
Qed.

(** Ids resolve to one slug each, so repeated ids come from repeated slugs. *)
Lemma resolved_nodup s rows ks : Forall (resolved s rows) ks -> NoDup ks.*1 <-> NoDup (ss_skill <$> ks.*2).
Proof.
  induction 1 as [|k ks (D & r & L & E) F IH]; [cbn; split; constructor |].
  cbn. rewrite !NoDup_cons, IH. apply and_iff_compat_r. rewrite Forall_forall in F.
  rewrite !list_elem_of_fmap. split; intros N (x & X & I).
  - apply list_elem_of_fmap in I as (k' & -> & I). apply N. exists k'. split; [|easy].
    apply F in I as [D' _]. congruence.
  - apply N. exists x.2. split; [|now apply list_elem_of_fmap_2].
    apply F in I as (_ & r' & L' & E'). rewrite <- X in L'. congruence.
Qed.
End Authoring.

Section Commit.
Context `{RowOrder}.

Definition bound_topic (s : Store) (t : string * Q) : option (Id * Q) :=
  match topic_by_slug t.1 s with Some id => Some (id, t.2) | None => None end.
Definition found_topics (input : PublishActivityVersionInput) (s : Store) : list (Id * Q) :=
  omap (bound_topic s) (topicSlugs (pi_curriculum input)).

Lemma run_find_topics l s :
  run (find_topics l) s = (inr (omap (bound_topic s) l), s).
Proof.
  unfold find_topics. rewrite run_bind.
  assert (E : forall l, run (for_map l (fun t => let* topic := select (topic_by_slug t.1) in
      Ret (match topic with Some id => [(id, snd t)] | None => [] end))) s =
    (inr ((fun t : string * Q => match topic_by_slug t.1 s with Some id => [(id, t.2)] | None => [] end) <$> l), s)).
  { clear l. induction l as [|t l IH]; [easy |]. cbn [for_map]. run_simpl. rewrite IH. reflexivity. }
  rewrite E. run_simpl. do 2 f_equal. induction l as [|t l IH]; [easy |]. cbn.
  unfold bound_topic at 1. destruct (topic_by_slug t.1 s); cbn; now rewrite <- IH.
Qed.

Lemma found_topics_ids input s : (found_topics input s).*1 = bound_topics input s.
Proof.
  unfold found_topics, bound_topics. induction (topicSlugs _) as [|t l IH]; [easy |]. cbn.
  unfold bound_topic at 1. destruct (topic_by_slug t.1 s); cbn; now rewrite IH.
Qed.

(** A stored activity_skill row for a skill of the spec. *)
Definition links (s : Store) (versionId : Id) (k : ActivitySpecSkill) (r : ActivitySkill) : Prop :=
  as_version_id r = versionId /\ (exists sk, skills s !! as_skill_id r = Some sk /\ sk_slug sk = ss_skill k) /\
  numeric 4 3 (ss_weight k) = Some (as_weight r) /\ as_is_primary r = ss_primary k /\ as_bloom_level r = ss_bloom k.

Definition topic_rows (versionId : Id) (ts : list (Id * Q)) : list ActivityTopic :=
  (fun t => mkActivityTopic versionId t.1 t.2) <$> ts.

(** What a successful authoring writes, and nothing else. *)
Definition authored (input : PublishActivityVersionInput) (status : ActivityVersionStatus) (s : Store)
    (v : Id * ActivityVersion) (s' : Store) : Prop :=
  exists activityId cost skillRows,
    (if find_activity (pi_tenantId input) (pi_activitySlug input) s is Some a
     then a.1 = activityId else activities s !! activityId = None) /\
    numeric 8 4 (pi_cost_budget_usd input) = Some cost /\
    v.2 = new_version input activityId (next_version input s) status cost (now s) /\
    versions s !! v.1 = None /\ Forall2 (links s v.1) (pi_skills input) skillRows /\
    s' = s <| activities := match find_activity (pi_tenantId input) (pi_activitySlug input) s with
              | Some _ => activities s
              | None => <[activityId := mkActivity (pi_tenantId input) (pi_activitySlug input) (pi_mode input)]> (activities s)
              end |>
           <| versions := <[v.1 := v.2]> (versions s) |>
           <| activity_skills := activity_skills s ++ skillRows |>
           <| activity_topics := activity_topics s ++ topic_rows v.1 (found_topics input s) |>.

Lemma insertable_links s (ks : list (Id * ActivitySpecSkill)) versionId rows st : catalog_wf s -> versions s !! versionId = None ->
  activity_skills st = activity_skills s -> Forall (resolved s rows) ks ->
  forall new, insertable activity_skills link_key (skill_link versionId) ks st new <->
    Forall2 (links s versionId) ks.*2 new /\ as_skill_id <$> new = ks.*1 /\ NoDup ks.*1.
Proof.
  intros W V E F new. unfold insertable. rewrite E.
  assert (K : Forall2 (fun x r => skill_link versionId x = inr r) ks new <->
    Forall2 (links s versionId) ks.*2 new /\ as_skill_id <$> new = ks.*1).
  { revert new. induction F as [|k ks (D & r0 & L & E0) F IH]; intros new.
    - cbn. split; [intros X; inversion X; subst; now split; [constructor|] | intros [X _]; inversion X; constructor].
    - cbn. split.
      + intros X. inversion X as [|? r ? new' K X']; subst. apply IH in X' as [A B].
        unfold skill_link in K. unfold to_numeric in K. destruct (numeric 4 3 _) as [w|] eqn:N; [|easy]. injection K as <-.
        split; [|cbn; now rewrite B]. constructor; [|easy]. split_and!; cbn; eauto.
      + intros [X Y]. inversion X as [|? r ? new' K X']; subst. injection Y as Y1 Y2.
        constructor; [|apply IH; easy]. destruct K as (K1 & _ & K3 & K4 & K5).
        unfold skill_link, to_numeric. rewrite K3. destruct r; cbn in *. now subst. }
  assert (KY : forall new, Forall2 (links s versionId) ks.*2 new -> link_key <$> new = (fun i => (versionId, i)) <$> (as_skill_id <$> new)).
  { intros n X. remember ks.*2 as l. clear - X. induction X as [|k r l n (K & _) X IH]; [easy |]. cbn. rewrite IH. unfold link_key. now rewrite K. }
  rewrite K. split.
  - intros ((A & B) & N & _). split_and!; try easy. rewrite KY, B in N by easy. now apply NoDup_fmap_1 in N.
  - intros (A & B & N). split_and!; try easy.
    + rewrite KY, B by easy. apply (NoDup_fmap_2 _). easy.
    + intros r I (r' & X & I')%list_elem_of_fmap. pose proof (cw_skills s W r' I') as [v G].
      apply (list_elem_of_fmap_2 link_key) in I. rewrite KY in I by easy. apply list_elem_of_fmap in I as (i & I & _).
      rewrite X in I. unfold link_key in I. injection I as I _. congruence.
Qed.

Lemma insertable_topics s ts versionId st : catalog_wf s -> versions s !! versionId = None ->
  activity_topics st = activity_topics s ->
  forall new, insertable activity_topics topic_key (fun t => inr (mkActivityTopic versionId t.1 t.2)) ts st new <->
    new = topic_rows versionId ts /\ NoDup ts.*1.
Proof.
  intros W V E new. unfold insertable. rewrite E.
  assert (K : Forall2 (fun t r => @inr exn _ (mkActivityTopic versionId t.1 t.2) = inr r) ts new <-> new = topic_rows versionId ts).
  { revert new. induction ts as [|t ts IH]; intros new; split.
    - intros X. now inversion X.
    - intros ->. constructor.
    - intros X. inversion X as [|? r ? new' K X']; subst. injection K as <-. cbn. f_equal. now apply IH.
    - intros ->. constructor; [easy |]. now apply IH. }
  assert (KY : topic_key <$> topic_rows versionId ts = (fun i => (versionId, i)) <$> ts.*1).
  { unfold topic_rows. rewrite <- !list_fmap_compose. reflexivity. }
  rewrite K. split.
  - intros (-> & N & _). split; [easy |]. rewrite KY in N. now apply NoDup_fmap_1 in N.
  - intros (-> & N). split_and!; [easy | rewrite KY; now apply (NoDup_fmap_2 _) |].
    intros r I (r' & X & I')%list_elem_of_fmap. pose proof (cw_topics s W r' I') as [v G].
    apply (list_elem_of_fmap_2 topic_key) in I. rewrite KY in I. apply list_elem_of_fmap in I as (i & I & _).
    rewrite X in I. unfold topic_key in I. injection I as I _. congruence.
Qed.
End Commit.

Section Authored.
Context `{RowOrder}.

Lemma links_exist s versionId rows ks : Forall (resolved s rows) ks ->
  (forall k, k ∈ ks.*2 -> numeric 4 3 (ss_weight k) <> None) ->
  exists new, Forall2 (links s versionId) ks.*2 new /\ as_skill_id <$> new = ks.*1.
Proof.
  induction 1 as [|k ks (D & R) F IH]; intros N; [exists []; now split; [constructor|] |].
  destruct IH as (new & A & B); [intros k' I; apply N; now right |].
  destruct (numeric 4 3 (ss_weight k.2)) as [w|] eqn:E; [|now destruct (N k.2); [left|]].
  exists (mkActivitySkill versionId k.1 w (ss_primary k.2) (ss_bloom k.2) :: new).
  split; [constructor; [now repeat split | easy] | cbn; now rewrite B].
Qed.

(** The reasons a commit is rolled back for. *)
Definition rejected (input : PublishActivityVersionInput) (s : Store) : Prop :=
  numeric 8 4 (pi_cost_budget_usd input) = None \/
  (exists k, k ∈ pi_skills input /\ numeric 4 3 (ss_weight k) = None) \/
  ~ NoDup (ss_skill <$> pi_skills input) \/ ~ NoDup (bound_topics input s).

Lemma run_commit input status s rows ks : catalog_wf s -> ks.*2 = pi_skills input -> Forall (resolved s rows) ks ->
  match run (commit_version input (find_activity (pi_tenantId input) (pi_activitySlug input) s)
               (next_version input s) status ks (found_topics input s)) s with
  | (inr v, s') => ~ rejected input s /\ authored input status s v s'
  | (inl e, _) => (exists c, e = DbError c) /\ rejected input s
  end.
Proof.
  intros W KS F. unfold commit_version. rewrite run_bind.
  set (found := find_activity _ _ s).
  assert (A : exists aid acts, run (match found with Some a => Ret a.1 | None => insert_activity input end) s = (inr aid, s <| activities := acts |>) /\
     (if found is Some a then a.1 = aid else activities s !! aid = None) /\
     acts = match found with Some _ => activities s
       | None => <[aid := mkActivity (pi_tenantId input) (pi_activitySlug input) (pi_mode input)]> (activities s) end /\
     forall k, has_version s aid k -> (k < next_version input s)%nat).
  { unfold next_version. fold found. destruct found as [[aid a]|] eqn:E; unfold found in E.
    - exists aid, (activities s). split_and!; [now destruct s | easy | easy |].
      intros k V. cbn. apply latest_version_spec in V. lia.
    - exists (fresh_activity s), (<[fresh_activity s := mkActivity (pi_tenantId input) (pi_activitySlug input) (pi_mode input)]> (activities s)).
      split_and!; [|apply fresh_activity_new | easy |].
      + unfold insert_activity. rewrite run_act, E. reflexivity.
      + intros k (id & v & L & X & _). apply (cw_activity s W) in L. rewrite X, fresh_activity_new in L. now destruct L. }
  destruct A as (aid & acts & -> & HA & EA & Old). rewrite run_bind. unfold insert_version_row at 1. rewrite run_act.
  unfold to_numeric at 1. destruct (numeric 8 4 _) as [cost|] eqn:C; [|split; [now eexists | now left]].
  set (s1 := s <| activities := acts |>).
  destruct (existsb _ _) eqn:X.
  { apply existsb_exists in X as (kv & I & X). apply Nat.eqb_eq in X. apply list_elem_of_In, elem_versions_of in I as [I1 I2].
    assert (V : has_version s aid (next_version input s)) by (exists kv.1, kv.2; now split_and!). apply Old in V. lia. }
  change (now s1) with (now s). change (fresh_version s1) with (fresh_version s).
  set (vid := fresh_version s). set (row := new_version input aid _ status cost (now s)).
  set (s2 := s1 <| versions ::= <[vid := row]> |>). cbn [fst snd]. rewrite run_bind.
  pose proof (run_insert_keyed activity_skills (fun l s => s <| activity_skills ::= fun l0 => l0 ++ l |>) link_key
    "activity_skill_pkey" (skill_link vid)) as RS. specialize (RS ltac:(reflexivity)).
  specialize (RS ltac:(intros; cbn; now rewrite <- app_assoc)).
  specialize (RS ltac:(intros []; cbn; now rewrite app_nil_r)).
  specialize (RS ltac:(intros x e; unfold skill_link, to_numeric; destruct (numeric 4 3 _); [easy |]; intros [= <-]; now eexists)).
  specialize (RS ks s2). unfold insert_activity_skill at 1.
  assert (Fresh : versions s !! vid = None) by apply fresh_version_new.
  destruct (run (for_each ks _) s2) as [[e|u] s3].
  - destruct RS as [DE RS]. split; [exact DE |]. unfold rejected. right.
    destruct (decide (Exists (fun k => numeric 4 3 (ss_weight k) = None) (pi_skills input))) as [E|E]; [left; now apply Exists_exists in E |].
    right. left. rewrite <- KS, <- (resolved_nodup s rows ks F). intros N.
    destruct (links_exist s vid rows ks F) as (new & N1 & N2).
    { intros k I Z. apply E, Exists_exists. rewrite <- KS. eauto. }
    apply (RS new). now apply (insertable_links s ks vid rows s2 W Fresh eq_refl F).
  - destruct RS as (new & I & ->). apply (insertable_links s ks vid rows s2 W Fresh eq_refl F) in I as (I1 & I2 & I3).
    set (s3 := s2 <| activity_skills ::= _ |>). rewrite run_bind.
    pose proof (run_insert_keyed activity_topics (fun l s => s <| activity_topics ::= fun l0 => l0 ++ l |>) topic_key
      "activity_topic_pkey" (fun t : Id * Q => inr (mkActivityTopic vid t.1 t.2))) as RT. specialize (RT ltac:(reflexivity)).
    specialize (RT ltac:(intros; cbn; now rewrite <- app_assoc)).
    specialize (RT ltac:(intros []; cbn; now rewrite app_nil_r)).
    specialize (RT ltac:(easy)). specialize (RT (found_topics input s) s3). unfold insert_activity_topic at 1.
    destruct (run (for_each (found_topics input s) _) s3) as [[e|u'] s4].
    + destruct RT as [DE RT]. split; [exact DE |]. unfold rejected. do 3 right. rewrite <- found_topics_ids. intros N.
      apply (RT (topic_rows vid (found_topics input s))). now apply (insertable_topics s _ vid s3 W Fresh eq_refl).
    + destruct RT as (ts & T & ->). apply (insertable_topics s _ vid s3 W Fresh eq_refl) in T as [-> T].
      rewrite run_ret. split.
      * unfold rejected. rewrite <- KS, <- (resolved_nodup s rows ks F), <- found_topics_ids.
        intros [Z|[(k & K & Z)|[Z|Z]]]; [congruence | | easy | easy].
        apply list_elem_of_lookup in K as (i & K).
        destruct (Forall2_lookup_l _ _ _ _ _ I1 K) as (r & _ & L). destruct L as (_ & _ & L & _). congruence.
      * exists aid, cost, new. rewrite <- KS. split_and!; try easy.
        fold found. unfold s3, s2, s1. now rewrite <- EA.
Qed.
End Authored.

Lemma version_cases `{RowOrder} input status s : catalog_wf s ->
  match run (insertVersion input status) s with
  | (inr v, s') => ~ refused input s /\ authored input status s v s'
  | (inl e, s') => refused input s /\ s' = s /\
      (e = ConflictException <->
       pi_version input <> Z.of_nat (next_version input s) \/
       exists k, k ∈ pi_skills input /\ ~ known_skill s (ss_skill k))
  end.
Proof.
  intros W. unfold insertVersion. rewrite run_bind, run_select, run_bind. unfold refused.
  assert (L : run (match find_activity (pi_tenantId input) (pi_activitySlug input) s with
     Some a => select (latest_version a.1) | None => Ret 0%nat end) s =
     (inr (pred (next_version input s)), s)) by (unfold next_version; now destruct (find_activity _ _ s)).
  rewrite L. replace (pred (next_version input s) + 1)%nat with (next_version input s) by (unfold next_version; lia).
  destruct (Z.eqb_spec (pi_version input) (Z.of_nat (next_version input s))) as [V|V]; cbn [negb]; [|rewrite run_throw; tauto].
  destruct (pi_skills input) as [|k0 ks0] eqn:KS.
  { rewrite run_throw. split_and!; [tauto | easy |]. split; [easy |]. intros [?|(k & K & _)]; [easy |]. now apply elem_of_nil in K. }
  rewrite <- KS. rewrite run_bind, run_select. cbv beta iota zeta.
  pose proof (resolve_spec s (pi_skills input) (pi_skills input) ltac:(easy)) as R. cbv zeta in R.
  destruct (resolve_skills _ _) as [ks|]; [|rewrite run_throw; tauto].
  destruct R as [K2 F]. rewrite run_bind, run_find_topics, run_transaction. fold (found_topics input s).
  pose proof (run_commit input status s _ ks W K2 F) as C.
  assert (KN : forall k, k ∈ pi_skills input -> known_skill s (ss_skill k)).
  { intros k I. rewrite <- K2 in I. apply list_elem_of_fmap in I as (x & -> & I).
    rewrite Forall_forall in F. destruct (F x I) as (_ & r & ? & ?). now exists x.1, r. }
  destruct (run (commit_version _ _ _ _ _ _) s) as [[e|v] s']; cbn beta iota zeta in C |- *; destruct C as [C1 C2].
  - unfold rejected in C2. destruct C1 as [c ->]. split_and!; [tauto | easy |].
    split; [easy |]. intros [?|(k & I & N)]; [easy |]. now destruct (N (KN k I)).
  - split; [|exact C2]. intros [?|[?|[(k & I & N)|?]]]; [easy | congruence | now destruct (N (KN k I)) | easy].
Qed.

(** Authoring a version (published at once or as a draft) succeeds exactly
    when the spec declares the next version number of its activity, names at
    least one skill, only known ones and none twice, binds no topic twice and
    its weights and budget fit their columns.  It then writes one version row
    under a fresh id, one skill row per skill with the id of that slug, one
    topic row per known topic and, for a new slug, the activity; otherwise it
    writes nothing, and answers a conflict exactly when the version number is
    wrong or a skill unknown. *)
Theorem version_authored `{RowOrder} input status s : catalog_wf s ->
  match run (insertVersion input status) s with
  | (inr v, s') => ~ refused input s /\ authored input status s v s'
  | (inl e, s') => refused input s /\ s' = s /\
      (e = ConflictException <->
       pi_version input <> Z.of_nat (next_version input s) \/
       exists k, k ∈ pi_skills input /\ ~ known_skill s (ss_skill k))
  end.
Proof. intros W. exact (version_cases input status s W). Qed.

(** ** The catalog under interleaving

    [catalog_order] is what every catalog handler does to the tables: no row is
    deleted or renumbered, authored content never changes, a published version
    stays as it was apart from its measured difficulty, and the tables stay
    well-formed. *)
Definition content (v : ActivityVersion) : ActivityVersion :=
  v <| av_status := V_DRAFT |> <| av_published_at := None |> <| av_published_by := None |> <| av_difficulty_elo := None |>.
Definition frozen (v : ActivityVersion) : ActivityVersion := v <| av_difficulty_elo := None |>.
Definition vkeeps (v v' : ActivityVersion) : Prop :=
  content v' = content v /\ (av_status v = V_PUBLISHED -> frozen v' = frozen v).

#[export] Instance vkeeps_preorder : PreOrder vkeeps.
Proof.
  split; [easy |]. intros x y z [A1 A2] [B1 B2]. split; [congruence |].
  intros P. specialize (A2 P). rewrite B2; [easy |]. apply (f_equal av_status) in A2. cbn in A2. congruence.
Qed.
Lemma vkeeps_ids v v' : vkeeps v v' -> av_activity_id v' = av_activity_id v /\ av_version v' = av_version v.
Proof. intros [E _]. split; [apply (f_equal av_activity_id) in E | apply (f_equal av_version) in E]; exact E. Qed.

Record catalog_order (s s' : Store) : Prop := mkCatalogOrder {
  co_versions : forall id v, versions s !! id = Some v -> exists v', versions s' !! id = Some v' /\ vkeeps v v';
  co_activities : forall id a, activities s !! id = Some a -> activities s' !! id = Some a;
  co_wf : catalog_wf s -> catalog_wf s'
}.
#[export] Instance catalog_order_preorder : PreOrder catalog_order.
Proof.
  split; [intros s; split; [intros id v L; exists v; split; [exact L | reflexivity] | tauto | tauto] |].
  intros x y z [A1 A2 A3] [B1 B2 B3]. split; [|eauto | eauto].
  intros id v L. apply A1 in L as (v1 & L & K). apply B1 in L as (v2 & L & K2). exists v2. split; [easy | exact (transitivity K K2)].
Qed.

Lemma order_has_version s s' a k : catalog_order s s' -> has_version s a k -> has_version s' a k.
Proof.
  intros O (id & v & L & A & K). apply (co_versions _ _ O) in L as (v' & L & Kp). apply vkeeps_ids in Kp as [E1 E2].
  exists id, v'. now rewrite E1, E2.
Qed.

(** Tables that do not change. *)
Lemma order_same s s' : versions s' = versions s -> activities s' = activities s ->
  activity_skills s' = activity_skills s -> activity_topics s' = activity_topics s -> catalog_order s s'.
Proof.
  intros V A K T. split; [intros id v L; exists v; split; [now rewrite V | reflexivity] | now rewrite A |].
  intros [W1 W2 W3 W4 W5 W6]. split; unfold has_version; rewrite ?V, ?A, ?K, ?T; auto.
Qed.

(** One version row rewritten. *)
Lemma order_alter s id v v' : versions s !! id = Some v -> vkeeps v v' ->
  catalog_order s (s <| versions := <[id := v']> (versions s) |>).
Proof.
  intros L Kp. pose proof (vkeeps_ids _ _ Kp) as [E1 E2].
  assert (B : forall i w', <[id := v']> (versions s) !! i = Some w' ->
    exists w, versions s !! i = Some w /\ av_activity_id w' = av_activity_id w /\ av_version w' = av_version w).
  { intros i w' H. destruct (decide (i = id)) as [->|N].
    - rewrite lookup_insert_eq in H. injection H as <-. now exists v.
    - rewrite lookup_insert_ne in H by easy. now exists w'. }
  assert (O1 : forall i w, versions s !! i = Some w -> exists w', <[id := v']> (versions s) !! i = Some w' /\ vkeeps w w').
  { intros i w H. destruct (decide (i = id)) as [->|N].
    - rewrite lookup_insert_eq. exists v'. split; [easy |]. now replace w with v by congruence.
    - rewrite lookup_insert_ne by easy. exists w. split; [easy | reflexivity]. }
  split; [exact O1 | easy |].
  intros [W1 W2 W3 W4 W5 W6]. split; cbn; try easy.
  - intros a. destruct (W1 a) as [n N]. exists n. intros k. rewrite <- N. split.
    + intros (i & w' & H & A & K). destruct (B i w' H) as (w & H2 & A2 & K2). exists i, w. cbn in *. split_and!; congruence.
    + intros (i & w & H & A & K). destruct (O1 i w H) as (w' & H2 & K2). apply vkeeps_ids in K2 as [A2 K2].
      exists i, w'. cbn. split_and!; congruence.
  - intros i w i' w' H H' A K. destruct (B i w H) as (u & U1 & U2 & U3). destruct (B i' w' H') as (u' & U1' & U2' & U3').
    eapply W2; [exact U1 | exact U1' | congruence | congruence].
  - intros i w H. destruct (B i w H) as (u & U1 & -> & _). now apply (W3 i).
  - intros r I. destruct (W5 r I) as [w G]. destruct (O1 _ _ G) as (w' & -> & _). now eexists.
  - intros r I. destruct (W6 r I) as [w G]. destruct (O1 _ _ G) as (w' & -> & _). now eexists.
Qed.

Lemma update_status_order id to actor : preserves catalog_order (update_status id to actor).
Proof.
  apply preserves_act. intros s a s'. destruct (versions s !! id) as [v|] eqn:L; [|easy]. cbv zeta.
  destruct (reject_published_edit v (moved_to to actor (now s) v)) eqn:R; [easy |]. intros [= <- <-]. apply (order_alter s id v); [easy |].
  split; [unfold moved_to; destruct (bool_decide _); [destruct actor|]; reflexivity |].
  intros P. unfold reject_published_edit in R. rewrite bool_decide_true in R by easy. cbn [andb] in R.
  apply negb_false_iff in R. apply andb_prop in R as [[R1 R2]%andb_prop R3].
  apply bool_decide_eq_true in R1, R2, R3. revert R1 R2 R3. unfold moved_to. destruct v.
  destruct (bool_decide (to = V_PUBLISHED)); [destruct actor|]; cbn; intros; congruence.
Qed.

(** The writes of a commit, one by one. *)
Lemma order_activity input s i s' : run (insert_activity input) s = (inr i, s') ->
  catalog_order s s' /\ is_Some (activities s' !! i) /\ activities s !! i = None /\ versions s' = versions s.
Proof.
  unfold insert_activity. rewrite run_act. destruct (find_activity _ _ s) eqn:F; [easy |]. intros [= <- <-].
  pose proof (fresh_activity_new s) as N. set (new := fresh_activity s) in *. split_and!; [|cbn; rewrite lookup_insert_eq; now eexists | easy | easy].
  split; cbn; [intros id v L; exists v; split; [easy | reflexivity] | intros id a L |].
  - rewrite lookup_insert_ne; [easy | congruence].
  - intros [W1 W2 W3 W4 W5 W6]. split; cbn; try easy.
    + intros id v L. destruct (decide (av_activity_id v = new)) as [->|D]; [rewrite lookup_insert_eq; now eexists |].
      rewrite lookup_insert_ne by easy. now apply (W3 id).
    + pose proof (find_activity_none _ _ _ F) as U.
      assert (X : forall i' a', activities s !! i' = Some a' -> a_tenant_id a' = pi_tenantId input -> a_slug a' <> pi_activitySlug input) by exact U.
      intros i a i' a' L L' T S. destruct (decide (i = new)) as [->|D], (decide (i' = new)) as [->|D'];
        rewrite ?lookup_insert_eq in *; rewrite ?lookup_insert_ne in * by easy; try easy.
      * injection L as <-. cbn in *. now destruct (X i' a').
      * injection L' as <-. cbn in *. now destruct (X i a).
      * now apply (W4 i a i' a').
Qed.

Lemma order_version input aid next status s v s' : is_Some (activities s !! aid) ->
  (next = 1%nat \/ exists n, next = S n /\ has_version s aid n) ->
  run (insert_version_row input aid next status) s = (inr v, s') ->
  catalog_order s s' /\ is_Some (versions s' !! v.1).
Proof.
  intros A P. unfold insert_version_row. rewrite run_act. unfold to_numeric. destruct (numeric 8 4 _) as [cost|]; [|easy].
  destruct (existsb _ _) eqn:X; [easy |]. intros [= <- <-]. cbn [fst snd].
  pose proof (fresh_version_new s) as N. set (new := fresh_version s) in *.
  set (row := new_version input aid next status cost (now s)).
  assert (Free : ~ has_version s aid next).
  { intros (i & w & L & E & K). apply not_true_iff_false in X. apply X, existsb_exists. exists (i, w).
    split; [now apply list_elem_of_In, elem_versions_of | now apply Nat.eqb_eq]. }
  split; [|cbn; rewrite lookup_insert_eq; now eexists]. split; cbn; [intros id w L; exists w; split; [|reflexivity] | easy |].
  { rewrite lookup_insert_ne; [easy | congruence]. }
  intros [W1 W2 W3 W4 W5 W6].
  assert (HV : forall a k, has_version (s <| versions ::= <[new := row]> |>) a k <-> (a = aid /\ k = next) \/ has_version s a k).
  { intros a k. split.
    - intros (i & w & L & E & K). cbn in L. destruct (decide (i = new)) as [->|D].
      + rewrite lookup_insert_eq in L. injection L as <-. now left.
      + rewrite lookup_insert_ne in L by easy. right. now exists i, w.
    - intros [[-> ->]|(i & w & L & E & K)].
      + exists new, row. cbn. now rewrite lookup_insert_eq.
      + exists i, w. cbn. rewrite lookup_insert_ne; [easy | congruence]. }
  split; try easy.
  - intros a. destruct (W1 a) as [n Nn]. destruct (decide (a = aid)) as [->|D].
    + assert (next = S n) as ->.
      { destruct P as [->|(m & -> & M)]; [|apply Nn in M].
        - rewrite Nn in Free. lia.
        - rewrite Nn in Free. lia. }
      exists (S n). intros k. rewrite HV, Nn. lia.
    + exists n. intros k. rewrite HV, <- Nn. tauto.
  - intros i w i' w' L L' E K. cbn in L, L'.
    destruct (decide (i = new)) as [->|D], (decide (i' = new)) as [->|D'];
      rewrite ?lookup_insert_eq in *; rewrite ?lookup_insert_ne in * by easy; try easy.
    + injection L as <-. destruct Free. exists i', w'. now rewrite <- E, <- K.
    + injection L' as <-. destruct Free. exists i, w. now rewrite E, K.
    + now apply (W2 i w i' w').
  - intros i w L. cbn in L. destruct (decide (i = new)) as [->|D].
    + rewrite lookup_insert_eq in L. now injection L as <-.
    + rewrite lookup_insert_ne in L by easy. now apply (W3 i).
  - intros r I. cbn. destruct (decide (as_version_id r = new)) as [->|D]; [rewrite lookup_insert_eq; now eexists |].
    rewrite lookup_insert_ne by easy. now apply W5.
  - intros r I. cbn. destruct (decide (at_version_id r = new)) as [->|D]; [rewrite lookup_insert_eq; now eexists |].
    rewrite lookup_insert_ne by easy. now apply W6.
Qed.

(** Binding an existing version. *)
Definition order_at (vid : Id) (s s' : Store) : Prop := is_Some (versions s !! vid) -> catalog_order s s'.
#[export] Instance order_at_preorder vid : PreOrder (order_at vid).
Proof.
  split; [easy |]. intros x y z A B I. pose proof (A I) as O. etrans; [exact O |]. apply B.
  destruct I as [v L]. apply (co_versions _ _ O) in L as (v' & L' & _). now exists v'.
Qed.

Lemma bind_skill_order vid k : preserves (order_at vid) (insert_activity_skill vid k).
Proof.
  apply preserves_act. intros s a s' E I. unfold skill_link in E. destruct (to_numeric 4 3 _); [easy |].
  destruct (existsb _ _); [easy |]. injection E as <- <-. split; cbn; [intros id v L; exists v; split; [easy | reflexivity] | easy |].
  intros [W1 W2 W3 W4 W5 W6]. split; cbn; try easy.
  intros r J. apply elem_of_app in J as [J|J]; [now apply W5 | apply list_elem_of_singleton in J as ->; exact I].
Qed.
Lemma bind_topic_order vid t : preserves (order_at vid) (insert_activity_topic vid t).
Proof.
  apply preserves_act. intros s a s' E I. destruct (existsb _ _); [easy |]. injection E as <- <-.
  split; cbn; [intros id v L; exists v; split; [easy | reflexivity] | easy |].
  intros [W1 W2 W3 W4 W5 W6]. split; cbn; try easy.
  intros r J. apply elem_of_app in J as [J|J]; [now apply W6 | apply list_elem_of_singleton in J as ->; exact I].
Qed.

(** A commit that has read the latest version at some earlier time. *)
Lemma commit_order input activity next status ks ts s v s' :
  match activity with
  | Some a => is_Some (activities s !! a.1) /\ (next = 1%nat \/ exists n, next = S n /\ has_version s a.1 n)
  | None => next = 1%nat
  end ->
  run (commit_version input activity next status ks ts) s = (inr v, s') -> catalog_order s s'.
Proof.
  intros P. unfold commit_version. rewrite run_bind. destruct (run _ s) as [[e|aid] s1] eqn:E1; [easy |].
  assert (O1 : catalog_order s s1 /\ is_Some (activities s1 !! aid) /\ (next = 1%nat \/ exists n, next = S n /\ has_version s1 aid n)).
  { destruct activity as [a|]; [injection E1 as <- <-; easy |].
    apply order_activity in E1 as (O & I & _). now split_and!; [| |left]. }
  destruct O1 as (O1 & A & Nx). rewrite run_bind. destruct (run _ s1) as [[e|w] s2] eqn:E2; [easy |].
  apply order_version in E2 as [O2 I]; [|easy | easy]. rewrite run_bind.
  assert (O3 : forall s3, order_at w.1 s2 s3 -> catalog_order s s3) by (intros s3 O3; etrans; [exact O1 | etrans; [exact O2 | now apply O3]]).
  assert (Pr : preserves (order_at w.1) (for_each ks (insert_activity_skill w.1) ;; for_each ts (insert_activity_topic w.1)))
    by (apply preserves_bind; [apply preserves_for_each, bind_skill_order | intros; apply preserves_for_each, bind_topic_order]).
  apply (preserves_run (order_at w.1) _ s2) in Pr. apply O3 in Pr. rewrite run_bind in Pr.
  destruct (run (for_each ks _) s2) as [[e|u] s3]; [easy |]. rewrite run_bind.
  destruct (run (for_each ts _) s3) as [[e|u'] s4]; [easy |]. rewrite run_ret. now intros [= <- <-].
Qed.

Section CatalogPool.
Context `{RowOrder} `{Rounding} `{MathPow}.

Lemma find_topics_quiet l : preserves catalog_order (find_topics l).
Proof. unfold find_topics. preserves. Qed.

Lemma insertVersion_guaranteed input status s : guaranteed catalog_order (insertVersion input status) (fun _ _ => True) s.
Proof.
  unfold insertVersion. apply guaranteed_reads; [apply _ |]. intros s1 O1.
  set (activity := find_activity (pi_tenantId input) (pi_activitySlug input) s1).
  assert (A : match activity with Some a => is_Some (activities s1 !! a.1) | None => True end).
  { unfold activity. destruct (find_activity _ _ s1) as [[i a]|] eqn:F; [|easy].
    exists a. now apply find_activity_some in F. }
  assert (G : forall n s2, catalog_order s1 s2 -> match activity with Some a => n = 0%nat \/ has_version s2 a.1 n | None => n = 0%nat end ->
    guaranteed catalog_order (let nextVersion := (n + 1)%nat in
      if negb (Z.eqb (pi_version input) (Z.of_nat nextVersion)) then Throw ConflictException
      else match pi_skills input with
      | [] => Throw (DbError "syntax error")
      | specSkills =>
          let* rows := select (fun s => in_order (skill_rows (ss_skill <$> specSkills) s)) in
          match resolve_skills rows specSkills with
          | None => Throw ConflictException
          | Some skills =>
              let* topics := find_topics (topicSlugs (pi_curriculum input)) in
              transaction (commit_version input activity nextVersion status skills topics)
          end
      end) (fun _ _ => True) s2).
  { intros n s2 O2 N. cbv zeta. destruct (negb _); [exact I |]. destruct (pi_skills input) as [|k0 ks0]; [exact I |].
    apply guaranteed_reads; [apply _ |]. intros s3 O3. destruct (resolve_skills _ _) as [ks|]; [|exact I].
    apply guaranteed_seq; [apply _ | apply find_topics_quiet |]. intros ts s4 O4 s5 O5.
    destruct (run _ s5) as [[e|v] s6] eqn:E; [exact I |]. split; [|easy].
    revert E. apply commit_order. pose proof (transitivity O3 (transitivity O4 O5)) as O.
    destruct activity as [a|]; [|subst n; reflexivity]. split.
    - destruct A as [x A]. apply (co_activities _ _ (transitivity O2 O)) in A. now exists x.
    - rewrite Nat.add_1_r. destruct N as [->|N]; [now left | right]. exists n. split; [easy |]. now apply (order_has_version s2). }
  destruct activity as [a|].
  - apply guaranteed_reads; [apply _ |]. intros s2 O2. apply G; [exact O2 |]. apply latest_version_spec.
  - now apply G.
Qed.

Lemma transition_order id from to actor : preserves catalog_order (transitionVersionStatus id from to actor).
Proof. unfold transitionVersionStatus. preserves. apply update_status_order. Qed.

Lemma order_elo s s' id elo :
  versions s' = alter (fun v => v <| av_difficulty_elo := elo |>) id (versions s) ->
  activities s' = activities s -> activity_skills s' = activity_skills s -> activity_topics s' = activity_topics s ->
  catalog_order s s'.
Proof.
  intros V A K T. destruct (versions s !! id) as [v|] eqn:L.
  - etrans; [apply (order_alter s id v (v <| av_difficulty_elo := elo |>)); [exact L | now split] |].
    apply order_same; try easy. cbn. rewrite V. exact (alter_alt_Some (fun v => v <| av_difficulty_elo := elo |>) _ _ _ L).
  - apply order_same; try easy. rewrite V. now apply alter_id'.
Qed.

Lemma elo_order userId skillId versionId outcome : preserves catalog_order (recordEloMatch userId skillId versionId outcome).
Proof.
  unfold recordEloMatch. preserves. apply preserves_act. intros s u s'. unfold commit_match.
  destruct (to_numeric 7 2 _) as [|elo]; [easy |]. destruct (to_numeric 7 2 _) as [|delo]; [easy |].
  match goal with |- (match ?p with _ => _ end = _) -> _ => destruct p as [|p0] end; [easy |]. intros [= <- <-].
  now apply (order_elo s _ versionId (Some delo)).
Qed.

(** The requests that write the catalog: authoring, review and calibration. *)
Inductive catalog_request : prog Store unit -> Prop :=
  | req_publish input : catalog_request (publishNewVersion input ;; Ret tt)
  | req_draft input : catalog_request (createDraft input ;; Ret tt)
  | req_transition id from to actor : catalog_request (transitionVersionStatus id from to actor ;; Ret tt)
  | req_match u k v o : catalog_request (recordEloMatch u k v o ;; Ret tt).
End CatalogPool.

(** C8: However authors, reviewers and the Elo calibration interleave, the
    versions of an activity stay numbered 1, 2, 3, ... without gaps or repeats,
    an activity's slug stays unique in its tenant and no reference dangles; no
    version is ever deleted or renumbered and none changes its content; and a
    published version stays published and unchanged but for its measured
    difficulty. *)
Theorem catalog_pool `{RowOrder} `{Rounding} `{MathPow} ps s ps' s' : catalog_wf s ->
  (forall p, p ∈ ps -> catalog_request p) -> rtc (pstep catalog_request) (ps, s) (ps', s') ->
  catalog_wf s' /\
  (forall id v, versions s !! id = Some v -> exists v', versions s' !! id = Some v' /\
     content v' = content v /\ (av_status v = V_PUBLISHED -> frozen v' = frozen v)).
Proof.
  intros W P T. assert (G : forall p, catalog_request p -> forall s, guaranteed catalog_order p (fun _ _ => True) s).
  { intros p R t. destruct R; (apply guaranteed_bind; [apply _ |]).
    1, 2: eapply (guaranteed_mono catalog_order); [apply insertVersion_guaranteed | easy].
    1: eapply (guaranteed_mono catalog_order); [eapply guaranteed_preserves; [apply _ | apply transition_order] | easy].
    eapply (guaranteed_mono catalog_order); [eapply guaranteed_preserves; [apply _ | apply elo_order] | easy]. }
  destruct (pool_guarantee catalog_order catalog_request (fun _ _ => True) ps s ps' s' G) as [O _]; [auto | exact T |].
  split; [now apply O | apply O].
Qed.

(** ** Status transitions *)

(** A transition alone takes exactly one allowed step from the status the
    caller named; anything else is a conflict and writes nothing.  The trigger
    never fires: no transition leaves PUBLISHED. *)
Lemma run_transition_version id from to actor s :
  run (transitionVersionStatus id from to actor) s =
  match versions s !! id with
  | Some v =>
      if bool_decide (to ∈ ALLOWED_TRANSITIONS from) && bool_decide (av_status v = from)
      then (inr (moved_to to actor (now s) v), s <| versions ::= <[id := moved_to to actor (now s) v]> |>)
      else (inl ConflictException, s)
  | None => (inl ConflictException, s)
  end.
Proof.
  unfold transitionVersionStatus. destruct (bool_decide (to ∈ _)) eqn:A; cbn [negb andb]; [|now destruct (versions s !! id)].
  rewrite run_bind, run_select. destruct (versions s !! id) as [v|] eqn:L; [|easy].
  destruct (bool_decide (av_status v = from)) eqn:E; cbn [negb]; [|easy].
  unfold update_status. rewrite run_act, L. cbv zeta. apply bool_decide_eq_true in A, E.
  assert (R : reject_published_edit v (moved_to to actor (now s) v) = false); [|now rewrite R].
  unfold reject_published_edit. rewrite bool_decide_false; [easy |]. rewrite E. intros ->. now apply elem_of_nil in A.
Qed.

(** ** The catalog by skill *)
Section SkillCatalog.
Context `{RowOrder}.

#[export] Instance teaching_order_total : Total teaching_order.
Proof. intros a b. unfold teaching_order. lia. Qed.
#[export] Instance teaching_order_trans : Transitive teaching_order.
Proof. intros a b c. unfold teaching_order. lia. Qed.

Lemma elem_left_join {A B} (f : A -> list B) l x o : (x, o) ∈ left_join f l <->
  x ∈ l /\ match o with Some y => y ∈ f x | None => f x = [] end.
Proof.
  unfold left_join. rewrite list_elem_of_bind. split.
  - intros (y & I & Y). destruct (f y) as [|b bs] eqn:F.
    + apply list_elem_of_singleton in I as [= -> ->]. easy.
    + apply list_elem_of_fmap in I as (z & [= -> ->] & I). now rewrite F.
  - intros [I O]. exists x. split; [|exact I]. destruct o as [y|].
    + destruct (f x) as [|b bs]; [now apply elem_of_nil in O |]. now apply list_elem_of_fmap_2 with (f := fun b => (x, Some b)).
    + rewrite O. now apply list_elem_of_singleton.
Qed.

Lemma elem_skill_catalog t course s r : r ∈ skill_catalog t course s <->
  exists k asx, r = skill_catalog_row t s (k, asx) /\ resolved_for t r = true /\
    (skills s !! k.1 = Some k.2 /\ sk_status k.2 = "active"%string /\ sk_course_slug k.2 = course) /\
    match asx with Some x => x ∈ primary_links s k | None => primary_links s k = [] end.
Proof.
  unfold skill_catalog. rewrite merge_sort_Permutation, elem_of_in_order, elem_filter, list_elem_of_fmap.
  assert (C : forall k, k ∈ course_skills course s <->
    skills s !! k.1 = Some k.2 /\ sk_status k.2 = "active"%string /\ sk_course_slug k.2 = course).
  { intros [i k]. unfold course_skills. rewrite elem_filter, elem_of_map_to_list. cbn.
    rewrite andb_true_iff, !String.eqb_eq. easy. }
  split.
  - intros (([k asx] & -> & I) & R). apply elem_left_join in I as [I P]. apply C in I. eauto 10.
  - intros (k & asx & -> & R & K & P). split; [|exact R]. exists (k, asx). split; [easy |].
    apply elem_left_join. split; [now apply C | exact P].
Qed.

Lemma published_version_spec s asx i v : published_version s asx = Some (i, v) <->
  exists r, asx = Some r /\ as_version_id r = i /\ versions s !! i = Some v /\ av_status v = V_PUBLISHED.
Proof.
  unfold published_version. split.
  - destruct asx as [r|]; [|easy]. cbn. destruct (versions s !! as_version_id r) as [w|] eqn:L; cbn; [|easy].
    destruct (bool_decide _) eqn:B; [|easy]. intros [= <- <-]. apply bool_decide_eq_true in B. eauto.
  - intros (r & -> & <- & L & P). cbn. rewrite L. cbn. now rewrite bool_decide_true.
Qed.
Lemma tenant_activity_spec t s av i a : tenant_activity t s av = Some (i, a) <->
  exists v, av = Some v /\ av_activity_id v.2 = i /\ activities s !! i = Some a /\ a_tenant_id a = t.
Proof.
  unfold tenant_activity. split.
  - destruct av as [v|]; [|easy]. cbn. destruct (activities s !! av_activity_id v.2) as [b|] eqn:L; cbn; [|easy].
    destruct (Nat.eqb_spec (a_tenant_id b) t) as [E|]; [|easy]. intros [= <- <-]. eauto.
  - intros (v & -> & <- & L & T). cbn. rewrite L. cbn. now rewrite T, Nat.eqb_refl.
Qed.
End SkillCatalog.
#[local] Arguments published_version : simpl never.
#[local] Arguments tenant_activity : simpl never.

(** The catalog by skill shows every active skill of the course, whether
    or not it has a lab, and no other, in teaching order; a row names an
    activity exactly when a published version of that activity, in the caller's
    tenant, lists the skill as primary, and every such version has its row. *)
Theorem skill_catalog_spec `{RowOrder} t course s :
  let rows := skill_catalog t course s in
  StronglySorted teaching_order rows /\
  (forall i k, skills s !! i = Some k -> sk_status k = "active"%string -> sk_course_slug k = course ->
     exists r, r ∈ rows /\ sr_skill_id r = i /\ sr_skill r = k) /\
  (forall r, r ∈ rows -> skills s !! sr_skill_id r = Some (sr_skill r) /\
     sk_status (sr_skill r) = "active"%string /\ sk_course_slug (sr_skill r) = course) /\
  (forall i k v a,
     (exists r, r ∈ rows /\ sr_skill_id r = i /\ sr_skill r = k /\ sr_version r = Some v /\ sr_activity r = Some a) <->
     (skills s !! i = Some k /\ sk_status k = "active"%string /\ sk_course_slug k = course) /\
     (exists x, x ∈ activity_skills s /\ as_skill_id x = i /\ as_is_primary x = true /\ as_version_id x = v.1) /\
     versions s !! v.1 = Some v.2 /\ av_status v.2 = V_PUBLISHED /\
     av_activity_id v.2 = a.1 /\ activities s !! a.1 = Some a.2 /\ a_tenant_id a.2 = t).
Proof.
  intros rows. assert (R : forall k asx, resolved_for t (skill_catalog_row t s (k, asx)) = true).
  { intros k asx. change (match tenant_activity t s (published_version s asx) with None => true | Some a => Nat.eqb (a_tenant_id a.2) t end = true).
    destruct (tenant_activity t s (published_version s asx)) as [[i a]|] eqn:E; [|easy].
    apply tenant_activity_spec in E as (v & _ & _ & _ & E). now apply Nat.eqb_eq. }
  assert (P : forall k x, x ∈ primary_links s k <-> x ∈ activity_skills s /\ as_skill_id x = k.1 /\ as_is_primary x = true).
  { intros k x. unfold primary_links. rewrite elem_filter, andb_true_iff, Nat.eqb_eq. tauto. }
  split_and!.
  - unfold rows, skill_catalog. apply Sorted_StronglySorted; [apply _ | apply Sorted_merge_sort, _].
  - intros i k L A C. destruct (primary_links s (i, k)) as [|x xs] eqn:E.
    + exists (skill_catalog_row t s ((i, k), None)). split; [|easy]. apply elem_skill_catalog. exists (i, k), None. now rewrite E.
    + exists (skill_catalog_row t s ((i, k), Some x)). split; [|easy]. apply elem_skill_catalog. exists (i, k), (Some x).
      rewrite E. split_and!; try easy. now left.
  - intros r I. apply elem_skill_catalog in I as (k & asx & -> & _ & K & _). exact K.
  - intros i k v a. split.
    + intros (r & I & <- & <- & V & A). apply elem_skill_catalog in I as (k & asx & -> & _ & K & J). cbn in *.
      destruct v as [vi v], a as [ai a]. rewrite V in A. apply tenant_activity_spec in A as (w & [= <-] & A1 & A2 & A3).
      apply published_version_spec in V as (x & -> & V1 & V2 & V3). apply P in J. cbn. split_and!; try easy. exists x. now rewrite V1.
    + intros (K & (x & X1 & X2 & X3 & X4) & V1 & V2 & A1 & A2 & A3). destruct v as [vi v], a as [ai a]. cbn in *.
      exists (skill_catalog_row t s ((i, k), Some x)).
      assert (E : published_version s (Some x) = Some (vi, v)) by (apply published_version_spec; exists x; now rewrite X4).
      assert (E2 : tenant_activity t s (Some (vi, v)) = Some (ai, a)) by (apply tenant_activity_spec; now exists (vi, v)).
      split; [|unfold skill_catalog_row; cbn; rewrite E; cbn; now rewrite E2].
      apply elem_skill_catalog. exists (i, k), (Some x). split_and!; try easy. now apply P.
Qed.

(** ** A small catalog: two skills, two tenants *)
Module CatalogSample.
Definition skill (slug : string) (sequence : Z) : Skill :=
  mkSkill slug slug "core" None "active" 1 sequence "devops-with-ai" (15 # 100) (25 # 100) (1 # 10) (8 # 100) 180.
Definition store : Store :=
  empty_store <| skills := {[ 1%nat := skill "pods" 2; 2%nat := skill "images" 1 ]} |>
    <| topics := {[ 5%nat := mkTopic (Some 9%nat) "Pods" 1 (Some "pods-basics"%string) ]} |>.
Definition no_spec : ActivitySpec := mkActivitySpec None None None None None None None None None None.
(** Version [n] of the lab [crash-loop] of a tenant, on skill "pods". *)
Definition lab (tenant : Id) (n : Z) (also : list string) : PublishActivityVersionInput :=
  mkPublishActivityVersionInput tenant "crash-loop" GUIDED_LAB n [mkActivitySpecSkill "pods" 1 true None]
    (Some (mkActivitySpecCurriculum "pods-basics" (Some also))) L1 30 "bp" (1 # 10) no_spec (Some 3%nat).

Definition author (input : PublishActivityVersionInput) (status : ActivityVersionStatus) (s : Store) : Store :=
  snd (run (@insertVersion insertion_order input status) s).
(** The lab published by tenant 2, and an approved draft of tenant 1. *)
Definition foreign : Store := author (lab 2 1 []) V_PUBLISHED store.
Definition approved : Store := author (lab 1 1 []) V_APPROVED store.
Definition review_race : list (prog Store ActivityVersion) :=
  [transitionVersionStatus 0 V_APPROVED V_PUBLISHED (Some 3%nat); transitionVersionStatus 0 V_APPROVED V_DRAFT None].
Definition two_authors : list (prog Store unit) :=
  [(@publishNewVersion insertion_order (lab 1 1 []) ;; Ret tt); (@publishNewVersion insertion_order (lab 1 1 []) ;; Ret tt)].
Definition turns : list nat := [0; 1; 0; 1; 0; 1; 0; 1; 0; 1; 0; 1]%nat.
End CatalogSample.
Import CatalogSample.

(** A catalog without activities is well-formed. *)
Lemma no_activities_wf s : versions s = ∅ -> activities s = ∅ -> activity_skills s = [] -> activity_topics s = [] -> catalog_wf s.
Proof.
  intros V A K T. split; rewrite ?V, ?A, ?K, ?T.
  - intros a. exists 0%nat. intros k. split; [|lia]. intros (i & v & L & _). now rewrite V, lookup_empty in L.
  - intros i v i' v' L. now rewrite lookup_empty in L.
  - intros i v L. now rewrite lookup_empty in L.
  - intros i a i' a' L. now rewrite lookup_empty in L.
  - intros r I. now apply elem_of_nil in I.
  - intros r I. now apply elem_of_nil in I.
Qed.

Lemma version_authored_witness :
  (exists v s', run (@insertVersion insertion_order (lab 1 1 []) V_DRAFT) store = (inr v, s') /\
     authored (H := insertion_order) (lab 1 1 []) V_DRAFT store v s') /\
  refused (H := insertion_order) (lab 1 2 []) store /\
  refused (H := insertion_order) (lab 1 1 ["pods-basics"%string]) store.
Proof.
  assert (W : catalog_wf store) by now apply no_activities_wf. split_and!.
  - pose proof (@version_authored insertion_order (lab 1 1 []) V_DRAFT store W) as A. revert A.
    destruct (run _ store) as [[e|v] s'] eqn:E; [vm_compute in E; discriminate | intros [_ A]; exists v, s'; now split].
  - pose proof (@version_authored insertion_order (lab 1 2 []) V_DRAFT store W) as A. revert A.
    destruct (run _ store) as [[e|v] s'] eqn:E; [intros [A _]; exact A | vm_compute in E; discriminate].
  - pose proof (@version_authored insertion_order (lab 1 1 ["pods-basics"%string]) V_DRAFT store W) as A. revert A.
    destruct (run _ store) as [[e|v] s'] eqn:E; [intros [A _]; exact A | vm_compute in E; discriminate].
Defined.

(** Two authors of version 1: one commits, the other runs into the unique index. *)
Lemma catalog_pool_witness :
  let c := schedule turns two_authors store in
  (forallb finished c.1 = true /\ size (versions c.2) = 1%nat) /\ catalog_wf c.2.
Proof.
  split; [vm_compute; now split |].
  apply (@catalog_pool insertion_order binary64 step_pow two_authors store (schedule turns two_authors store).1 (schedule turns two_authors store).2).
  - now apply no_activities_wf.
  - intros p [->|[->|X]%elem_of_cons]%elem_of_cons; [constructor | constructor | now apply elem_of_nil in X].
  - rewrite <- surjective_pairing. apply schedule_rtc.
Defined.

(** The status is read and written in two statements without a lock, so of
    two racing decisions on an approved version both succeed: a reviewer sends
    it back to DRAFT, and the publish request that read APPROVED before then
    publishes it from DRAFT, a step no request may take. *)
Theorem transition_race :
  exists mid ps s', rtc (pstep (fun _ => False)) (review_race, approved) (ps, s') /\
    av_status <$> versions approved !! 0%nat = Some V_APPROVED /\
    rtc (pstep (fun _ => False)) (review_race, approved) mid /\
    pstep (fun _ => False) mid (ps, s') /\
    av_status <$> versions mid.2 !! 0%nat = Some V_DRAFT /\
    av_status <$> versions s' !! 0%nat = Some V_PUBLISHED /\ V_PUBLISHED ∉ ALLOWED_TRANSITIONS V_DRAFT /\
    Forall (fun p => exists v, p = Ret v) ps.
Proof.
  assert (S : forall turns, rtc (pstep (fun _ => False)) (review_race, approved)
    (fst (schedule turns review_race approved), snd (schedule turns review_race approved)))
    by (intros; rewrite <- surjective_pairing; apply schedule_rtc).
  exists (schedule [0; 1; 1]%nat review_race approved).
  exists (fst (schedule [0; 1; 1; 0]%nat review_race approved)), (snd (schedule [0; 1; 1; 0]%nat review_race approved)).
  split_and!; [apply S | reflexivity | rewrite (surjective_pairing (schedule [0; 1; 1]%nat _ _)); apply S | | reflexivity | reflexivity | |].
  - rewrite (surjective_pairing (schedule [0; 1; 1]%nat _ _)). eapply (pstep_run _ _ _ 0); [reflexivity | reflexivity].
  - intros X. apply list_elem_of_singleton in X. discriminate.
  - repeat constructor; eexists; reflexivity.
Qed.

(** The version's columns are not guarded by the tenant, only the
    activity's: where another tenant has published a lab for a skill, the
    caller sees the skill without an activity but with the id, difficulty and
    budget of the other tenant's version. *)
Theorem foreign_version_shown :
  exists r v, r ∈ @skill_catalog insertion_order 1 "devops-with-ai" foreign /\
    sr_activity r = None /\ sr_version r = Some v /\
    a_tenant_id <$> activities foreign !! av_activity_id v.2 = Some 2%nat.
Proof.
  destruct (@skill_catalog insertion_order 1 "devops-with-ai" foreign) as [|r0 [|r l]] eqn:E; [vm_compute in E; discriminate .. |].
  destruct (sr_version r) as [v|] eqn:V; [|exfalso; vm_compute in E; injection E as _ <- _; discriminate].
  exists r, v. rewrite V. split_and!; [right; left | | easy |]; vm_compute in E; injection E as _ <- _; cbn in V.
  - reflexivity.
  - injection V as <-. reflexivity.
Qed.

(** A topic named twice in the curriculum block is bound twice, and the primary
    key refuses the whole version, although an unknown topic is only skipped. *)
Theorem repeated_topic_refused :
  run (@publishNewVersion insertion_order (lab 1 1 ["pods-basics"%string])) store = (inl (DbError "activity_topic_pkey"), store).
Proof. reflexivity. Qed.
