(* ===== verification/Authoring.v ===== *)
(** * Authoring routes

    auth/ (the global token guard and the role guard), content-ci/
    spec-lint.service.ts and the authoring routes of admin/admin.controller.ts:
    who may lint, draft, review and publish, and what each route does to the
    catalog.  Token verification, YAML and the JSON Schema validator are other
    programs, parameters of the model. *)
From stdpp Require Import sorting.
From S2P Require Import Prelude JsNum Binary64 Effects Schema AttemptStatus Bkt Elo SkillGraph Mastery Catalog CatalogLaws.

(** ** Roles and guards *)
Inductive Role := R_LEARNER | R_AUTHOR | R_ADMIN.
#[export] Instance role_eq_dec : EqDecision Role.
Proof. solve_decision. Defined.

Definition isRole (value : string) : option Role :=
  if String.eqb value "learner" then Some R_LEARNER
  else if String.eqb value "author" then Some R_AUTHOR
  else if String.eqb value "admin" then Some R_ADMIN
  else None.

Record AuthClaims := mkAuthClaims { ac_userId : Id; ac_tenantId : Id; ac_role : Role }.

(** The payload of a token, as decoded: any claim may be missing. *)
Record RawClaims := mkRawClaims { raw_userId : option Id; raw_tenantId : option Id; raw_role : option string }.

(** [jwt.verify]: throws on a bad signature or an expired token. *)
Class JwtService := { jwt_verify : string -> option RawClaims }.

Definition BEARER : string := "Bearer ".

(** AuthGuard.canActivate on a route that is not @Public: the claims it puts on
    the request.  Every failure is an UnauthorizedException. *)
Definition authenticate `{JwtService} (header : option string) : exn + AuthClaims :=
  match header with
  | None => inl UnauthorizedException
  | Some h =>
      if negb (String.prefix BEARER h) then inl UnauthorizedException
      else match jwt_verify (String.substring (String.length BEARER) (String.length h - String.length BEARER) h) with
      | None => inl UnauthorizedException
      | Some claims =>
          match raw_userId claims, raw_tenantId claims, raw_role claims with
          | Some userId, Some tenantId, Some role =>
              match isRole role with
              | Some role => inr (mkAuthClaims userId tenantId role)
              | None => inl UnauthorizedException
              end
          | _, _, _ => inl UnauthorizedException
          end
      end
  end.

(** RolesGuard.canActivate: the handler's @Roles replaces the class's. *)
Definition requiredRoles (handler class : option (list Role)) : option (list Role) :=
  match handler with Some l => Some l | None => class end.
Definition roles_allow (handler class : option (list Role)) (auth : AuthClaims) : bool :=
  match requiredRoles handler class with
  | None | Some [] => true
  | Some l => bool_decide (ac_role auth ∈ l)
  end.

(** The guards in front of a handler. *)
Definition guarded_route `{JwtService} {A} (handler class : option (list Role)) (header : option string)
    (body : AuthClaims -> prog Store A) : prog Store A :=
  match authenticate header with
  | inl e => Throw e
  | inr auth => if roles_allow handler class auth then body auth else Throw ForbiddenException
  end.

(** ** AuthController *)
Definition DEMO_TENANT_ID : Id := 11111111.
Definition DEMO_USER_ID : Id := 55555555.
Definition devLogin (role : option string) : exn + AuthClaims :=
  match isRole (default "learner"%string role) with
  | Some role => inr (mkAuthClaims DEMO_USER_ID DEMO_TENANT_ID role)
  | None => inl (BadRequestException "unrecognized role")
  end.

(** ** SpecLintService *)
Record LintIssue := mkLintIssue { li_path : string; li_message : string }.
Record LintResult := mkLintResult { lr_valid : bool; lr_issues : list LintIssue }.

(** The members of a spec the lint and the authoring routes read. *)
Record AuthoredSpec := mkAuthoredSpec {
  au_id : string; au_mode : ActivityMode; au_version : Z; au_skills : list ActivitySpecSkill;
  au_hard : option (list string); au_soft : option (list string);
  au_curriculum : option ActivitySpecCurriculum; au_difficulty_level : DifficultyLevel;
  au_estimated_minutes : Z; au_blueprint : string; au_cost_budget_usd : Q; au_runtime : ActivitySpec }.

(** js-yaml, and Ajv on contracts/activity_spec.schema.json: the issues of a
    document that is no spec, or the spec it is. *)
Class SpecFormat := {
  Document : Type;
  parseYaml : string -> option Document;
  validateSchema : Document -> list LintIssue + AuthoredSpec
}.

Definition unknown (path prefix : string) (known : list string) (slugs : list string) : list LintIssue :=
  slugs ≫= fun slug => if bool_decide (slug ∈ known) then [] else [mkLintIssue path (prefix ++ slug)].

Definition relational_issues (spec : AuthoredSpec) (knownSkillSlugs : list string) : list LintIssue :=
  unknown "/skills" "unknown skill slug: " knownSkillSlugs (ss_skill <$> au_skills spec) ++
  unknown "/prerequisites" "unknown prerequisite skill slug: " knownSkillSlugs
    (default [] (au_hard spec) ++ default [] (au_soft spec)).

Definition lint `{SpecFormat} (doc : Document) (knownSkillSlugs : list string) : LintResult :=
  match validateSchema doc with
  | inl issues => mkLintResult false issues
  | inr spec =>
      let issues := relational_issues spec knownSkillSlugs in
      mkLintResult (Nat.eqb (List.length issues) 0) issues
  end.

(** ** AdminController *)
Section AdminController.
Context `{RowOrder} `{JwtService} `{SpecFormat}.

Definition CLASS_ROLES : option (list Role) := Some [R_ADMIN; R_AUTHOR].
Definition ADMIN_ONLY : option (list Role) := Some [R_ADMIN].

Definition skill_slugs (s : Store) : list string := in_order (sk_slug ∘ snd <$> map_to_list (skills s)).

Definition parse (yaml : string) : prog Store Document :=
  match parseYaml yaml with Some doc => Ret doc | None => Throw (JsError "YAMLException") end.

Definition lintSpec (yaml : string) : prog Store LintResult :=
  let* doc := parse yaml in
  let* known := select skill_slugs in
  Ret (lint doc known).

Definition lintAndParse (yaml : string) : prog Store AuthoredSpec :=
  let* doc := parse yaml in
  let* known := select skill_slugs in
  match validateSchema doc with
  | inr spec => if lr_valid (lint doc known) then Ret spec else Throw (BadRequestException "lint failed")
  | inl _ => Throw (BadRequestException "lint failed")
  end.

Definition publish_input (tenantId : Id) (publishedBy : option Id) (spec : AuthoredSpec) : PublishActivityVersionInput :=
  mkPublishActivityVersionInput tenantId (au_id spec) (au_mode spec) (au_version spec) (au_skills spec)
    (au_curriculum spec) (au_difficulty_level spec) (au_estimated_minutes spec) (au_blueprint spec)
    (au_cost_budget_usd spec) (au_runtime spec) publishedBy.

Definition publishSpec (auth : AuthClaims) (yaml : string) : prog Store (Id * ActivityVersion) :=
  let* spec := lintAndParse yaml in
  publishNewVersion (publish_input (ac_tenantId auth) (Some (ac_userId auth)) spec).
Definition draftSpec (auth : AuthClaims) (yaml : string) : prog Store (Id * ActivityVersion) :=
  let* spec := lintAndParse yaml in
  createDraft (publish_input (ac_tenantId auth) None spec).

Definition submitForReview (id : Id) : prog Store ActivityVersion :=
  transitionVersionStatus id V_DRAFT V_IN_REVIEW None.
Definition reviewDecision (auth : AuthClaims) (id : Id) (decision : string) : prog Store ActivityVersion :=
  transitionVersionStatus id V_IN_REVIEW (if String.eqb decision "approve" then V_APPROVED else V_DRAFT) (Some (ac_userId auth)).
Definition publishApprovedVersion (auth : AuthClaims) (id : Id) : prog Store ActivityVersion :=
  transitionVersionStatus id V_APPROVED V_PUBLISHED (Some (ac_userId auth)).

Definition assertActivityInCallerTenant (auth : AuthClaims) (activityId : Id) : prog Store unit :=
  let* activity := select (fun s => activities s !! activityId) in
  match activity with
  | Some a => if Nat.eqb (a_tenant_id a) (ac_tenantId auth) then Ret tt else Throw (BadRequestException "activity not found")
  | None => Throw (BadRequestException "activity not found")
  end.

(** The routes, behind their guards. *)
Definition lint_route (header : option string) (yaml : string) : prog Store LintResult :=
  guarded_route None CLASS_ROLES header (fun _ => lintSpec yaml).
Definition publish_route (header : option string) (yaml : string) : prog Store (Id * ActivityVersion) :=
  guarded_route None CLASS_ROLES header (fun auth => publishSpec auth yaml).
Definition draft_route (header : option string) (yaml : string) : prog Store (Id * ActivityVersion) :=
  guarded_route None CLASS_ROLES header (fun auth => draftSpec auth yaml).
Definition submit_review_route (header : option string) (id : Id) : prog Store ActivityVersion :=
  guarded_route None CLASS_ROLES header (fun _ => submitForReview id).
Definition review_decision_route (header : option string) (id : Id) (decision : string) : prog Store ActivityVersion :=
  guarded_route ADMIN_ONLY CLASS_ROLES header (fun auth => reviewDecision auth id decision).
Definition publish_approved_route (header : option string) (id : Id) : prog Store ActivityVersion :=
  guarded_route ADMIN_ONLY CLASS_ROLES header (fun auth => publishApprovedVersion auth id).
End AdminController.

(** ** Lint before publish *)
Section LintLaws.
Context `{RowOrder} `{JwtService} `{SpecFormat}.

Lemma elem_skill_slugs s slug : slug ∈ skill_slugs s <-> known_skill s slug.
Proof.
  unfold skill_slugs, known_skill. rewrite elem_of_in_order, list_elem_of_fmap. split.
  - intros ([i k] & -> & I). apply elem_of_map_to_list in I. now exists i, k.
  - intros (i & k & L & <-). exists (i, k). split; [easy | now apply elem_of_map_to_list].
Qed.

Lemma unknown_nil path prefix known slugs : unknown path prefix known slugs = [] <-> forall slug, slug ∈ slugs -> slug ∈ known.
Proof.
  unfold unknown. induction slugs as [|x l IH]; cbn; [split; [intros _ y Y; now apply elem_of_nil in Y | easy] |].
  destruct (bool_decide (x ∈ known)) eqn:B; cbn.
  - apply bool_decide_eq_true in B. change (unknown path prefix known l = [] <-> forall slug, slug ∈ x :: l -> slug ∈ known).
    unfold unknown. rewrite IH. setoid_rewrite elem_of_cons. split; [intros G y [->|Y]; auto | auto].
  - apply bool_decide_eq_false in B. split; [easy |]. intros G. destruct B. apply G. now left.
Qed.

Definition referenced (spec : AuthoredSpec) : list string :=
  (ss_skill <$> au_skills spec) ++ default [] (au_hard spec) ++ default [] (au_soft spec).

Lemma lint_valid doc spec s : validateSchema doc = inr spec ->
  lr_valid (lint doc (skill_slugs s)) = true <-> forall slug, slug ∈ referenced spec -> known_skill s slug.
Proof.
  intros V. unfold lint. rewrite V. cbn. rewrite Nat.eqb_eq, length_zero_iff_nil. unfold relational_issues.
  rewrite app_nil, !unknown_nil. setoid_rewrite elem_skill_slugs. unfold referenced. split.
  - intros [A B] x [X|X]%elem_of_app; [now apply A | now apply B].
  - intros G. split; intros x X; apply G, elem_of_app; [now left | now right].
Qed.

Lemma run_lintAndParse yaml s :
  run (lintAndParse yaml) s =
  match parseYaml yaml with
  | None => (inl (JsError "YAMLException"), s)
  | Some doc =>
      match validateSchema doc with
      | inr spec => if lr_valid (lint doc (skill_slugs s)) then (inr spec, s) else (inl (BadRequestException "lint failed"), s)
      | inl _ => (inl (BadRequestException "lint failed"), s)
      end
  end.
Proof.
  unfold lintAndParse, parse. rewrite run_bind. destruct (parseYaml yaml) as [doc|]; [|easy].
  rewrite run_ret, run_bind, run_select. destruct (validateSchema doc); [easy |]. now destruct (lr_valid _).
Qed.
End LintLaws.

(** Publishing a document through the CMS: one that fails the schema, or
    that names an unknown skill or prerequisite, is refused and nothing is
    written; a clean one becomes the next published version of the caller's
    tenant, and is answered with a conflict exactly when its version number is
    not the next one. *)
Theorem publish_route_spec `{RowOrder} `{SpecFormat} auth yaml doc s :
  catalog_wf s -> parseYaml yaml = Some doc ->
  match validateSchema doc with
  | inl _ => run (publishSpec auth yaml) s = (inl (BadRequestException "lint failed"), s)
  | inr spec =>
      let input := publish_input (ac_tenantId auth) (Some (ac_userId auth)) spec in
      (exists slug, slug ∈ referenced spec /\ ~ known_skill s slug) /\
        run (publishSpec auth yaml) s = (inl (BadRequestException "lint failed"), s) \/
      (forall slug, slug ∈ referenced spec -> known_skill s slug) /\
        match run (publishSpec auth yaml) s with
        | (inr v, s') => authored input V_PUBLISHED s v s' /\ av_status v.2 = V_PUBLISHED
        | (inl e, s') => s' = s /\ (e = ConflictException <-> au_version spec <> Z.of_nat (next_version input s))
        end
  end.
Proof.
  intros W P. unfold publishSpec. rewrite run_bind, run_lintAndParse, P.
  destruct (validateSchema doc) as [|spec] eqn:V; [easy |]. cbv zeta.
  pose proof (lint_valid doc spec s V) as L. destruct (lr_valid _).
  - right. assert (K : forall slug, slug ∈ referenced spec -> known_skill s slug) by now apply L. split; [exact K |].
    set (input := publish_input _ _ spec). pose proof (version_cases input V_PUBLISHED s W) as A. unfold publishNewVersion.
    destruct (run (insertVersion input V_PUBLISHED) s) as [[e|v] s'].
    + destruct A as (_ & -> & A). split; [easy |]. rewrite A. split; [|now left]. intros [?|(k & I & N)]; [easy |].
      destruct N. apply K. unfold referenced. apply elem_of_app. left. now apply list_elem_of_fmap_2.
    + destruct A as [_ A]. split; [exact A |]. destruct A as (aid & cost & rows & _ & _ & -> & _). reflexivity.
  - left. split; [|easy]. destruct (decide (Forall (fun slug => slug ∈ skill_slugs s) (referenced spec))) as [F|F].
    + assert (false = true); [|easy]. apply L. intros slug I. apply (elem_skill_slugs s). rewrite Forall_forall in F. now apply F.
    + apply not_Forall_Exists in F; [|apply _]. apply Exists_exists in F as (x & I & N). exists x. split; [easy |].
      intros Kn. apply N, elem_skill_slugs, Kn.
Qed.

(** ** What learners see of a version *)
Section Visibility.
Context `{RowOrder}.

Lemma elem_published_rows t s r : r ∈ published_rows t s <->
  versions s !! vw_id r = Some (vw_version r) /\ av_status (vw_version r) = V_PUBLISHED /\
  activities s !! av_activity_id (vw_version r) = Some (vw_activity r) /\ a_tenant_id (vw_activity r) = t.
Proof.
  unfold published_rows, publishedActivityVersionsQuery. rewrite elem_of_in_order, elem_filter, list_elem_of_omap, andb_true_iff, Nat.eqb_eq, bool_decide_eq_true.
  unfold join_activity. split.
  - intros (([i v] & I & E) & T & P). apply elem_of_map_to_list in I. cbn in E. rewrite I in E. cbn in E.
    destruct (activities s !! av_activity_id v) as [a|] eqn:A; [|easy]. injection E as <-. easy.
  - intros (L & P & A & T). split; [|easy]. exists (vw_id r, vw_version r). split; [now apply elem_of_map_to_list |].
    cbn. rewrite L. cbn. rewrite A. now destruct r.
Qed.

(** None of the listing queries returns the version: the published catalog, the catalog
    by skill, and the published version of an activity. *)
Definition hidden (id : Id) (s : Store) : Prop :=
  (forall t r, r ∈ published_rows t s -> vw_id r <> id) /\
  (forall t course r v, r ∈ skill_catalog t course s -> sr_version r = Some v -> v.1 <> id) /\
  (forall activityId v, head (published_of activityId s) = Some v -> v.1 <> id).

Lemma unpublished_hidden id v s : versions s !! id = Some v -> av_status v <> V_PUBLISHED -> hidden id s.
Proof.
  intros L N. split_and!.
  - intros t r I <-. apply elem_published_rows in I as (L' & P & _). congruence.
  - intros t course r [i w] I V <-. apply elem_skill_catalog in I as (k & asx & -> & _). cbn in V.
    apply published_version_spec in V as (x & _ & _ & L' & P). cbn in *. congruence.
  - intros a [i w] I <-. apply head_Some_elem_of in I. unfold published_of in I.
    rewrite merge_sort_Permutation in I. apply elem_filter in I as [I P]. apply bool_decide_eq_true in P.
    apply elem_versions_of in I as [L' _]. cbn in *. congruence.
Qed.

Lemma transition_moves id from to actor s v : versions s !! id = Some v -> av_status v = from -> to ∈ ALLOWED_TRANSITIONS from ->
  exists s', run (transitionVersionStatus id from to actor) s = (inr (moved_to to actor (now s) v), s') /\
    versions s' !! id = Some (moved_to to actor (now s) v) /\ activities s' = activities s.
Proof.
  intros L E A. rewrite run_transition_version, L, bool_decide_true, bool_decide_true by easy. eexists. split; [reflexivity |].
  cbn. now rewrite lookup_insert_eq.
Qed.
Lemma moved_status to actor clock v : av_status (moved_to to actor clock v) = to /\
  av_activity_id (moved_to to actor clock v) = av_activity_id v.
Proof. unfold moved_to. destruct (bool_decide (to = V_PUBLISHED)); [destruct actor|]; easy. Qed.
End Visibility.

(** The route of one version looks at no status. *)
Lemma run_getOne id s v a : versions s !! id = Some v -> activities s !! av_activity_id v = Some a ->
  run (getOne id) s = (inr (mkVersionRow id v a), s).
Proof.
  intros V A. unfold getOne, getVersionById. rewrite run_bind, run_select. unfold join_activity. rewrite V. cbn. now rewrite A.
Qed.

(** C10: From a draft to the catalog: the draft an author writes can be sent to
    review, approved and published, each step by the route for it; before the last
    step none of the three listing queries (the published catalog, the catalog by
    skill, the published version of an activity) returns it, and after it the tenant's
    catalog lists it.  The route of a single version does return it, already as a
    draft, to whoever knows its id, although the comment on the draft route says that
    no learner-facing query does. *)
Theorem review_flow `{RowOrder} `{SpecFormat} author admin yaml s v s1 :
  catalog_wf s -> run (draftSpec author yaml) s = (inr v, s1) ->
  exists v2 s2 v3 s3 v4 s4,
    run (submitForReview v.1) s1 = (inr v2, s2) /\
    run (reviewDecision admin v.1 "approve") s2 = (inr v3, s3) /\
    run (publishApprovedVersion admin v.1) s3 = (inr v4, s4) /\
    hidden v.1 s1 /\ hidden v.1 s2 /\ hidden v.1 s3 /\
    (exists a, run (getOne v.1) s1 = (inr (mkVersionRow v.1 v.2 a), s1) /\ av_status v.2 = V_DRAFT) /\
    exists r, r ∈ published_rows (ac_tenantId author) s4 /\ vw_id r = v.1 /\ vw_version r = v4 /\
      av_published_by v4 = Some (ac_userId admin).
Proof.
  intros W R. unfold draftSpec in R. rewrite run_bind, run_lintAndParse in R.
  destruct (parseYaml yaml) as [doc|]; [|easy]. destruct (validateSchema doc) as [|spec]; [easy |].
  destruct (lr_valid _); [|easy]. unfold createDraft in R.
  set (input := publish_input (ac_tenantId author) None spec) in R.
  pose proof (version_cases input V_DRAFT s W) as A. rewrite R in A. destruct A as [_ A].
  destruct A as (aid & cost & rows & Act & _ & Ev & _ & _ & ->).
  set (s1 := set_field activity_topics _ _).
  assert (L1 : versions s1 !! v.1 = Some v.2) by (cbn; now rewrite lookup_insert_eq).
  assert (A1 : exists a, activities s1 !! aid = Some a /\ a_tenant_id a = ac_tenantId author).
  { cbn. destruct (find_activity _ _ s) as [[i a]|] eqn:F; cbn in Act.
    - subst i. apply find_activity_some in F as (? & ? & _). now exists a.
    - rewrite lookup_insert_eq. now eexists. }
  assert (E1 : av_status v.2 = V_DRAFT /\ av_activity_id v.2 = aid) by (rewrite Ev; easy). destruct E1 as [S1 I1].
  destruct (transition_moves v.1 V_DRAFT V_IN_REVIEW None s1 v.2 L1 S1 ltac:(set_solver)) as (s2 & R2 & L2 & A2).
  destruct (transition_moves v.1 V_IN_REVIEW V_APPROVED (Some (ac_userId admin)) s2 _ L2 eq_refl ltac:(set_solver)) as (s3 & R3 & L3 & A3).
  destruct (transition_moves v.1 V_APPROVED V_PUBLISHED (Some (ac_userId admin)) s3 _ L3 eq_refl ltac:(set_solver)) as (s4 & R4 & L4 & A4).
  do 6 eexists. split; [exact R2 |]. split; [exact R3 |]. split; [exact R4 |].
  destruct A1 as (a & La & Ta).
  split; [eapply unpublished_hidden; [eassumption | now rewrite S1] |].
  do 2 (split; [eapply unpublished_hidden; [eassumption | easy] |]).
  split; [exists a; split; [apply run_getOne; [exact L1 | now rewrite I1] | exact S1] |]. eexists (mkVersionRow v.1 _ a). split; [|now repeat split].
  apply elem_published_rows. cbn [vw_id vw_version vw_activity]. split; [exact L4 |]. split; [reflexivity |].
  rewrite A4, A3, A2. split; [|exact Ta].
  change (activities s1 !! av_activity_id v.2 = Some a). now rewrite I1.
Qed.

(** ** Guards *)

(** Without a valid token no route runs; with one, a learner reaches none, and
    an author reaches linting, drafting, publishing and submitting for review
    but neither the review decision nor the publication of an approved version. *)
Lemma run_guarded_route `{JwtService} {A} handler class header (body : AuthClaims -> prog Store A) s :
  run (guarded_route handler class header body) s =
  match authenticate header with
  | inl e => (inl e, s)
  | inr auth => if roles_allow handler class auth then run (body auth) s else (inl ForbiddenException, s)
  end.
Proof. unfold guarded_route. destruct (authenticate header) as [|auth]; [easy |]. now destruct (roles_allow _ _ _). Qed.

Lemma authenticate_fails `{JwtService} header e : authenticate header = inl e -> e = UnauthorizedException.
Proof.
  unfold authenticate. destruct header as [h|]; [|congruence]. destruct (negb _); [congruence |].
  destruct (jwt_verify _) as [[u t [r|]]|]; cbn; try congruence.
  - destruct u, t; try congruence. destruct (isRole r); congruence.
  - destruct u, t; congruence.
Qed.

(** C16: Whoever calls: without a valid token every authoring route answers
    Unauthorized, a learner is Forbidden on all of them and an author on the
    review decision and the publication of an approved version, and the store
    is untouched; an admin passes every guard, an author the four others. *)
Theorem authoring_guarded `{RowOrder} `{JwtService} `{SpecFormat} header yaml id decision s :
  match authenticate header with
  | inl e => e = UnauthorizedException /\
      run (lint_route header yaml) s = (inl e, s) /\ run (publish_route header yaml) s = (inl e, s) /\
      run (draft_route header yaml) s = (inl e, s) /\ run (submit_review_route header id) s = (inl e, s) /\
      run (review_decision_route header id decision) s = (inl e, s) /\
      run (publish_approved_route header id) s = (inl e, s)
  | inr auth =>
      (if bool_decide (ac_role auth = R_LEARNER)
       then run (lint_route header yaml) s = (inl ForbiddenException, s) /\
            run (publish_route header yaml) s = (inl ForbiddenException, s) /\
            run (draft_route header yaml) s = (inl ForbiddenException, s) /\
            run (submit_review_route header id) s = (inl ForbiddenException, s)
       else run (lint_route header yaml) s = run (lintSpec yaml) s /\
            run (publish_route header yaml) s = run (publishSpec auth yaml) s /\
            run (draft_route header yaml) s = run (draftSpec auth yaml) s /\
            run (submit_review_route header id) s = run (submitForReview id) s) /\
      (if bool_decide (ac_role auth = R_ADMIN)
       then run (review_decision_route header id decision) s = run (reviewDecision auth id decision) s /\
            run (publish_approved_route header id) s = run (publishApprovedVersion auth id) s
       else run (review_decision_route header id decision) s = (inl ForbiddenException, s) /\
            run (publish_approved_route header id) s = (inl ForbiddenException, s))
  end.
Proof.
  unfold lint_route, publish_route, draft_route, submit_review_route, review_decision_route, publish_approved_route.
  rewrite !run_guarded_route. destruct (authenticate header) as [e|[u t r]] eqn:E.
  - apply authenticate_fails in E. now split_and!.
  - destruct r; cbn; now split_and!.
Qed.

(** ** A concrete token service and format *)
Module AuthoringSample.
Import CatalogSample.
(** The token is the name of a role; the document is its own YAML. *)
Definition tokens : JwtService := {| jwt_verify t := Some (mkRawClaims (Some 3%nat) (Some 1%nat) (Some t)) |}.
Definition spec : AuthoredSpec :=
  mkAuthoredSpec "crash-loop" GUIDED_LAB 1 [mkActivitySpecSkill "pods" 1 true None] None None None L1 30 "bp" (1 # 10) no_spec.
Definition format : SpecFormat := {| Document := unit; parseYaml _ := Some tt; validateSchema _ := inr spec |}.
Definition author : AuthClaims := mkAuthClaims 3 1 R_AUTHOR.
Definition admin : AuthClaims := mkAuthClaims 8 1 R_ADMIN.
End AuthoringSample.
Import AuthoringSample.

(** The review exists so that the author of a version is not the one who
    publishes it, but the direct publication route has no role of its own: an
    author's token, refused by the publication of approved versions, publishes
    a new version to learners there without any review. *)
Theorem author_publishes :
  authenticate (H := tokens) (Some "Bearer author"%string) = inr author /\
  (exists v s', run (@publish_route insertion_order tokens format (Some "Bearer author"%string) "yaml") CatalogSample.store = (inr v, s') /\
     av_status v.2 = V_PUBLISHED /\ av_published_by v.2 = Some (ac_userId author) /\
     exists r, r ∈ @published_rows insertion_order (ac_tenantId author) s' /\ vw_id r = v.1) /\
  forall id, run (@publish_approved_route tokens (Some "Bearer author"%string) id) CatalogSample.store =
    (inl ForbiddenException, CatalogSample.store).
Proof.
  split; [reflexivity |]. split; [|reflexivity].
  do 2 eexists. split; [vm_compute; reflexivity |]. split; [reflexivity |]. split; [reflexivity |].
  eexists. split; [vm_compute; left | reflexivity].
Qed.

Lemma publish_route_spec_witness :
  exists v s', run (@publishSpec insertion_order format author "yaml") CatalogSample.store = (inr v, s') /\ av_status v.2 = V_PUBLISHED.
Proof.
  assert (W : catalog_wf CatalogSample.store) by now apply no_activities_wf.
  pose proof (@publish_route_spec insertion_order format author "yaml" tt CatalogSample.store W eq_refl) as P.
  cbv beta iota zeta delta [validateSchema format] in P. destruct P as [[_ P]|[_ P]].
  - vm_compute in P. discriminate.
  - revert P. destruct (run _ _) as [[e|v] s'] eqn:E; [vm_compute in E; discriminate |]. intros [_ P]. now exists v, s'.
Defined.

Lemma review_flow_witness :
  exists v s1 s4 r, run (@draftSpec insertion_order format author "yaml") CatalogSample.store = (inr v, s1) /\
    hidden (H := insertion_order) v.1 s1 /\ r ∈ @published_rows insertion_order 1 s4 /\ vw_id r = v.1.
Proof.
  destruct (run (@draftSpec insertion_order format author "yaml") CatalogSample.store) as [[e|v] s1] eqn:E;
    [vm_compute in E; discriminate |].
  destruct (@review_flow insertion_order format author admin "yaml" CatalogSample.store v s1) as
    (v2 & s2 & v3 & s3 & v4 & s4 & _ & _ & _ & H & _ & _ & _ & r & I & V & _).
  - now apply no_activities_wf.
  - exact E.
  - now exists v, s1, s4, r.
Defined.
