(* ===== verification/AuthoringAssistant.v ===== *)
(** * The authoring assistant

    authoring/authoring-assistant.service.ts: a first draft of an activity from
    the gateway, linted against the skills of the database, for a human to
    review.  It composes the gateway (LlmGateway.v) with the lint that guards
    publication (Authoring.v). *)
From Stdlib Require Import Ascii.
From S2P Require Import Prelude RegExp JsNum Binary64 Effects Budget PromptCache LlmGateway Schema JsText EventStore Mentor MentorLaws Catalog Authoring.
Open Scope Z_scope.

Record DraftInput := mkDraftInput {
  di_topic : string; di_draft_mode : ActivityMode; di_skillSlugs : option (list string); di_solutionRepoNotes : option string }.
Record DraftResult `{SpecFormat} := mkDraftResult {
  dr_draftYaml : string; dr_parsed : option Document; dr_valid : bool; dr_lintErrors : list string; dr_costUsd : Q }.
Arguments mkDraftResult {_}.

(** [/```(?:yaml|yml)?\s*\n([\s\S]*?)```/]; the blanks that may go to either side
    of the group are trimmed from it. *)
Definition YAML_BLOCK : regexp := rx "```(?:yaml|yml)?\s*\n([\s\S]*?)```".
Definition inner (fenced : chars) : chars := take (List.length fenced - 6) (drop 3 fenced).
Definition without_language (body : chars) : chars :=
  default (default body (strip (explode "yml") body)) (strip (explode "yaml") body).
Definition extractYaml (text : string) : option string :=
  '(_, fenced, _) ← find_match YAML_BLOCK None (explode text);
  Some (trim (implode (without_language (inner fenced)))).

Definition draft_mode_text (m : ActivityMode) : string :=
  match m with GUIDED_LAB => "GUIDED_LAB" | PRODUCTION_SIM => "PRODUCTION_SIM" | PROJECT => "PROJECT" end.
Definition requested (input : DraftInput) : list string := default [] (di_skillSlugs input).
Definition draft_system (skills : list string) : string := join_lines
  ["You are an internal content-authoring assistant for a hands-on";
   "practice platform. Produce a FIRST DRAFT of an activity spec in";
   "YAML that conforms to contracts/activity_spec.schema.json. A human";
   "editor will review, fix, and publish it -- your job is to save";
   "them the blank-page cost, not to be final.";
   "";
   "Rules:";
   "- Output ONE fenced ```yaml block and nothing else.";
   "- Include: id, version:1, mode, status: DRAFT, meta";
   "  (difficulty_level, estimated_minutes), curriculum, skills";
   "  (with one primary), environment (blueprint, cost_budget_usd),";
   "  tasks (each with key, title, instructions_md, validators, hints),";
   "  completion, scoring.";
   "- Validators: use the typed catalogue (SHELL_ASSERT, SHELL_JSON,";
   "  FILE_EXISTS, FILE_CONTENT, FILE_PARSE, K8S_ASSERT). Every";
   "  validator needs an authored on_fail message.";
   "- Hints: a 3-level ladder, increasing directness, with penalties.";
   ("- Do NOT invent skill slugs -- use only: " ++ String.concat ", " skills)%string]%string.
Definition notes_block (notes : option string) : string :=
  match truthy notes with
  | Some notes => ("Solution-repo notes (what a correct solution does):" ++ newline ++
                   "<untrusted-learner-content>" ++ notes ++ "</untrusted-learner-content>")%string
  | None => EmptyString
  end.
Definition draft_user (input : DraftInput) : string :=
  String.concat (newline ++ newline)
    (List.filter (fun s => negb (String.eqb s EmptyString))
      ["Topic: " ++ di_topic input; "Mode: " ++ draft_mode_text (di_draft_mode input);
       notes_block (di_solutionRepoNotes input); "Draft the activity spec now."]%string).
(** No attempt, user or tenant: only the global budget is charged. *)
Definition draft_request (input : DraftInput) : LlmRequest :=
  mkLlmRequest authoring "authoring.system.v1" (draft_system (requested input)) (draft_user input)
    (mkScope None None None) (Some 2048) false.

(** The slugs of all skills, or of those that were asked for. *)
Definition known_skills (slugs : list string) (s : Store) : list string :=
  let all := sk_slug ∘ snd <$> map_to_list (skills s) in
  match slugs with [] => all | _ => List.filter (fun slug => bool_decide (slug ∈ slugs)) all end.
Definition resolveSkills (slugs : list string) : prog Store (list string) := select (known_skills slugs).

Section Assistant.
Context `{Rounding} `{Sha256} `{SpecFormat} (providers : list LlmProvider).

Definition degraded_text (d : Degraded) : string :=
  match d with budget_exhausted => "budget_exhausted" | all_providers_down => "all_providers_down" end.
Definition issue_text (i : LintIssue) : string := (li_path i ++ ": " ++ li_message i)%string.
(** What is made of the answer; the text of a YAML error is the parser's. *)
Definition judge_draft (known : list string) (res : LlmResponse) : DraftResult :=
  match rs_degraded res with
  | Some d => mkDraftResult EmptyString None false [("llm gateway degraded: " ++ degraded_text d)%string] (rs_costUsd res)
  | None =>
      match truthy (extractYaml (rs_text res)) with
      | None => mkDraftResult (rs_text res) None false ["model did not return a ```yaml block"%string] (rs_costUsd res)
      | Some yamlBlock =>
          match parseYaml yamlBlock with
          | None => mkDraftResult yamlBlock None false ["YAML parse error"%string] (rs_costUsd res)
          | Some parsed =>
              let lintResult := lint parsed known in
              mkDraftResult yamlBlock (Some parsed) (Authoring.lr_valid lintResult) (issue_text <$> Authoring.lr_issues lintResult) (rs_costUsd res)
          end
      end
  end.
Definition draft (input : DraftInput) : prog World DraftResult :=
  let* known := on_store (resolveSkills (requested input)) in
  let* res := on_gateway (call providers (draft_request input)) in
  Ret (judge_draft known res).

Lemma known_in slugs s slug : slug ∈ known_skills slugs s ->
  (exists id sk, skills s !! id = Some sk /\ sk_slug sk = slug) /\ (slugs <> [] -> slug ∈ slugs).
Proof.
  unfold known_skills. intros I.
  assert (J : slug ∈ (sk_slug ∘ snd <$> map_to_list (skills s)) /\ (slugs <> [] -> slug ∈ slugs)).
  { destruct slugs as [|s0 l]; [easy|]. apply list_elem_of_In, filter_In in I as [I B]. split; [now apply list_elem_of_In|].
    intros _. now apply bool_decide_eq_true in B. }
  destruct J as [J Sub]. split; [|exact Sub]. apply list_elem_of_fmap in J as ([id sk] & -> & M). apply elem_of_map_to_list in M. eauto.
Qed.

Lemma relational_none spec known : relational_issues spec known = [] -> forall slug,
  (slug ∈ ss_skill <$> au_skills spec \/ slug ∈ default [] (au_hard spec) \/ slug ∈ default [] (au_soft spec)) -> slug ∈ known.
Proof.
  unfold relational_issues. intros [A B]%app_eq_nil slug.
  assert (U : forall path prefix slugs, unknown path prefix known slugs = [] -> forall slug, slug ∈ slugs -> slug ∈ known).
  { intros path prefix slugs. unfold unknown. induction slugs as [|x slugs IH]; [now intros _ ? ?%elem_of_nil|].
    cbn. intros [E1 E2]%app_eq_nil y [->|I]%elem_of_cons; [|now apply IH]. destruct (bool_decide (x ∈ known)) eqn:D; [|discriminate].
    now apply bool_decide_eq_true in D. }
  intros [I|[I|I]]; [eapply U, I; exact A | eapply U; [exact B|]; apply elem_of_app; auto..].
Qed.

(** Drafting always answers and never publishes: the database is not touched
    and only the gateway is called, once.  A draft is called valid only when it is
    the YAML of the answer, passes the lint of publication, and names no skill, as
    its own or as a prerequisite, that the database lacks or the author did not
    ask for; what it cost is what the gateway charged. *)
Theorem draft_spec input w : exists r w' res,
  run (draft input) w = (inr r, w') /\ w_store w' = w_store w /\
  run (call providers (draft_request input)) (w_gateway w) = (inr res, w_gateway w') /\
  dr_costUsd r = rs_costUsd res /\
  (dr_valid r = true -> exists doc spec,
     extractYaml (rs_text res) = Some (dr_draftYaml r) /\ parseYaml (dr_draftYaml r) = Some doc /\ dr_parsed r = Some doc /\
     validateSchema doc = inr spec /\ dr_lintErrors r = [] /\
     forall slug, (slug ∈ ss_skill <$> au_skills spec \/ slug ∈ default [] (au_hard spec) \/ slug ∈ default [] (au_soft spec)) ->
       (exists id sk, skills (w_store w) !! id = Some sk /\ sk_slug sk = slug) /\ (requested input <> [] -> slug ∈ requested input)).
Proof.
  destruct (run_call providers (draft_request input) (w_gateway w)) as (res & g' & rec & R & _).
  set (known := known_skills (requested input) (w_store w)).
  exists (judge_draft known res), (w <| w_gateway := g' |>), res. split.
  - unfold draft, resolveSkills. rewrite run_bind, run_on_store, run_select. cbn [fst snd]. rewrite same_store.
    now rewrite run_bind, run_on_gateway, R.
  - split; [reflexivity|]. split; [exact R|]. unfold judge_draft. destruct (rs_degraded res) as [d|]; [now split|].
    destruct (extractYaml (rs_text res)) as [[|c y]|] eqn:Y; cbn [truthy]; [now split| |now split].
    destruct (parseYaml _) as [doc|] eqn:P; [|now split]. split; [reflexivity|]. cbn. intros V.
    unfold lint in *. destruct (validateSchema doc) as [issues|spec] eqn:S; [discriminate|]. cbn in *.
    apply Nat.eqb_eq, List.length_zero_iff_nil in V. exists doc, spec. rewrite V. split_and!; auto.
    intros slug I. apply known_in. fold known. eapply relational_none; eauto.
Qed.
End Assistant.

(** What is taken for the draft: the first fenced block, of either language tag or
    none; without a line break after the tag there is none. *)
Lemma extract_examples :
  extractYaml ("Here: ```yaml" ++ newline ++ "id: lab.x" ++ newline ++ "```" ++ newline ++ "```" ++ newline ++ "no" ++ newline ++ "```") = Some "id: lab.x"%string /\
  extractYaml ("```yml  " ++ newline ++ newline ++ " id: a ```") = Some "id: a"%string /\
  extractYaml ("```" ++ newline ++ "yaml: 1```") = Some "yaml: 1"%string /\
  extractYaml "```yaml id: x```" = None /\ extractYaml ("id: x" ++ newline) = None.
Proof. split_and!; vm_compute; reflexivity. Qed.

(** Without requested slugs the prompt allows no skill at all, while the lint
    accepts every skill of the database. *)
Lemma no_slugs_allowed s : known_skills [] s = (sk_slug ∘ snd <$> map_to_list (skills s)) /\
  exists rules, draft_system [] = (rules ++ newline ++ "- Do NOT invent skill slugs -- use only: ")%string.
Proof.
  split; [reflexivity|]. eexists (String.substring 0 (String.length (draft_system []) - 42) (draft_system [])). vm_compute. reflexivity.
Qed.
