(* ===== verification/Eligibility.v ===== *)
(** * Eligibility

    attempt/eligibility.service.ts: whether a learner may start an attempt on
    an activity version, with the reason codes of every failed check.  The
    messages and contexts of the reasons are not modelled. *)
From S2P Require Import Prelude JsNum Binary64 Effects Schema AttemptStatus Bkt SkillGraph Mastery.

Module EligibilityConstants.
Definition MAX_CONCURRENT_ENVIRONMENTS_PER_LEARNER : nat := 1.
End EligibilityConstants.

Record EligibilityResult := mkEligibilityResult { eligible : bool; reasons : list string }.

Section EligibilityService.
Context `{Rounding}.
(** DISABLE_LAB_QUOTA = "true". *)
Variable quotaDisabled : bool.

Definition primary_skills (activityVersionId : Id) (s : Store) : list Id :=
  as_skill_id <$> List.filter (fun r => Nat.eqb (as_version_id r) activityVersionId && as_is_primary r)
                    (activity_skills s).

Definition active_attempts (userId : Id) (s : Store) : list (Id * Attempt) :=
  List.filter (fun kv => Nat.eqb (user_id kv.2) userId && includes QUOTA_STATUSES (status kv.2))
    (map_to_list (attempts s)).

Definition startable (st : ActivityVersionStatus) : bool := includes [V_PUBLISHED; V_CANARY] st.

Definition cooling_down (state : option LearnerActivityState) (clock : Z) : bool :=
  match state ≫= la_cooldown_until with Some until => Z.ltb clock until | None => false end.

(** The loop over the primary skills. *)
Definition check_prerequisites (userId : Id) (skillIds : list Id) : prog Store (list string) :=
  let* failed := for_map skillIds (fun skill_id =>
    let* ancestors := getRequiresAncestors skill_id in
    let* gateMet := meetsRequiresGate userId ancestors in
    Ret (if gateMet then [] else ["PREREQUISITE_NOT_MET"%string])) in
  Ret (concat failed).

Definition check (userId activityVersionId : Id) : prog Store EligibilityResult :=
  let* version := select (fun s => versions s !! activityVersionId) in
  match version with
  | None => Ret (mkEligibilityResult false ["ACTIVITY_NOT_PUBLISHED"%string])
  | Some version =>
      let r1 := if startable (av_status version) then [] else ["ACTIVITY_NOT_PUBLISHED"%string] in
      let* primarySkills := select (primary_skills activityVersionId) in
      let* r2 := check_prerequisites userId primarySkills in
      let* ' (learnerState, clock) :=
        select (fun s => (activity_states s !! (userId, av_activity_id version), now s)) in
      let r3 := if cooling_down learnerState clock then ["COOLDOWN_ACTIVE"%string] else [] in
      let* r4 :=
        (if quotaDisabled then Ret []
         else let* activeCount := select (fun s => length (active_attempts userId s)) in
              Ret (if Nat.leb EligibilityConstants.MAX_CONCURRENT_ENVIRONMENTS_PER_LEARNER activeCount
                   then ["CONCURRENT_QUOTA_EXCEEDED"%string] else [])) in
      let reasons := r1 ++ r2 ++ r3 ++ r4 in
      Ret (mkEligibilityResult (Nat.eqb (length reasons) 0) reasons)
  end.
End EligibilityService.

(** ** What the check decides *)
Section EligibilityLaws.
Context `{Rounding}.

Lemma run_meetsRequiresGate u ids s : run (meetsRequiresGate u ids) s = (inr (gate_met u ids s), s).
Proof. now destruct ids. Qed.

Definition prerequisite_met (u : Id) (s : Store) (skill : Id) : bool :=
  gate_met u (requires_ancestors (skill_closure s) skill) s.

Lemma run_check_prerequisites u l s :
  run (check_prerequisites u l) s =
  (inr (concat ((fun k => if prerequisite_met u s k then [] else ["PREREQUISITE_NOT_MET"%string]) <$> l)), s).
Proof.
  unfold check_prerequisites. rewrite run_bind.
  assert (E : forall l, run (for_map l (fun k => let* a := getRequiresAncestors k in let* g := meetsRequiresGate u a in
      Ret (if g then [] else ["PREREQUISITE_NOT_MET"%string]))) s =
    (inr ((fun k => if prerequisite_met u s k then [] else ["PREREQUISITE_NOT_MET"%string]) <$> l), s)).
  { clear l. induction l as [|k l IH]; [easy |]. cbn [for_map]. unfold getRequiresAncestors at 1.
    run_simpl. rewrite run_meetsRequiresGate. run_simpl. rewrite IH. reflexivity. }
  now rewrite E.
Qed.

Definition reasons_of (q : bool) (u v : Id) (version : ActivityVersion) (s : Store) : list string :=
  (if startable (av_status version) then [] else ["ACTIVITY_NOT_PUBLISHED"%string]) ++
  concat ((fun k => if prerequisite_met u s k then [] else ["PREREQUISITE_NOT_MET"%string]) <$> primary_skills v s) ++
  (if cooling_down (activity_states s !! (u, av_activity_id version)) (now s) then ["COOLDOWN_ACTIVE"%string] else []) ++
  (if q then [] else if Nat.leb 1 (length (active_attempts u s)) then ["CONCURRENT_QUOTA_EXCEEDED"%string] else []).

Lemma run_check q u v s :
  run (check q u v) s =
  match versions s !! v with
  | None => (inr (mkEligibilityResult false ["ACTIVITY_NOT_PUBLISHED"%string]), s)
  | Some version =>
      let rs := reasons_of q u v version s in (inr (mkEligibilityResult (Nat.eqb (length rs) 0) rs), s)
  end.
Proof.
  unfold check. run_simpl. destruct (versions s !! v) as [version|]; [|easy].
  run_simpl. rewrite run_check_prerequisites. run_simpl. unfold reasons_of. destruct q; run_simpl; reflexivity.
Qed.

(** No attempt of the learner holds an environment. *)
Definition quota_free (u : Id) (s : Store) : Prop :=
  forall id r, attempts s !! id = Some r -> user_id r = u -> status r ∉ QUOTA_STATUSES.

Lemma active_attempts_nil u s : active_attempts u s = [] <-> quota_free u s.
Proof.
  unfold active_attempts, quota_free. split.
  - intros E id r L U I.
    assert (X : (id, r) ∈ active_attempts u s).
    { unfold active_attempts. apply list_elem_of_In, List.filter_In. split.
      - apply list_elem_of_In. now apply elem_of_map_to_list.
      - cbn. rewrite U, Nat.eqb_refl. now apply includes_spec. }
    unfold active_attempts in X. rewrite E in X. now apply elem_of_nil in X.
  - intros F. destruct (List.filter _ _) as [|[id r] l] eqn:E; [easy |].
    assert (X : In (id, r) ((id, r) :: l)) by now left. rewrite <- E in X. apply List.filter_In in X as [X P].
    apply list_elem_of_In, elem_of_map_to_list in X. cbn in P. apply andb_prop in P as [U I].
    apply Nat.eqb_eq in U. apply includes_spec in I. now apply (F id r) in I.
Qed.

Lemma concat_nil {A} (f : A -> bool) (c : string) l :
  concat ((fun k => if f k then [] else [c]) <$> l) = [] <-> forall k, k ∈ l -> f k = true.
Proof.
  induction l as [|k l IH]; cbn; [split; [intros _ k K; now apply elem_of_nil in K | easy] |].
  destruct (f k) eqn:F; cbn.
  - change (concat ((fun k => if f k then [] else [c]) <$> l) = [] <-> forall k0, k0 ∈ k :: l -> f k0 = true).
    rewrite IH. split; [intros G x [->|X]%elem_of_cons; auto | intros G x X; apply G; now right].
  - split; [easy |]. intros G. now rewrite (G k) in F by now left.
Qed.
End EligibilityLaws.

(** What makes a learner eligible for a version. *)
Definition eligible_now `{Rounding} (quotaDisabled : bool) (u v : Id) (s : Store) : Prop :=
  exists version, versions s !! v = Some version /\
    (av_status version = V_PUBLISHED \/ av_status version = V_CANARY) /\
    (forall skill a, skill ∈ primary_skills v s -> a ∈ requires_ancestors (skill_closure s) skill ->
       exists m, mastery s !! (u, a) = Some m /\ MasteryConstants.REQUIRES_GATE_THRESHOLD <= lit (sm_p_mastery m)) /\
    cooling_down (activity_states s !! (u, av_activity_id version)) (now s) = false /\
    (quotaDisabled = true \/ quota_free u s).

Lemma gate_met_spec `{Rounding} u ids s : gate_met u ids s = true <->
  forall a, a ∈ ids -> exists m, mastery s !! (u, a) = Some m /\ MasteryConstants.REQUIRES_GATE_THRESHOLD <= lit (sm_p_mastery m).
Proof.
  assert (T : 0 < MasteryConstants.REQUIRES_GATE_THRESHOLD).
  { apply Qlt_le_trans with (1 # 2); [easy |]. apply rnd_half_lb. easy. }
  unfold gate_met. rewrite forallb_forall. setoid_rewrite <- list_elem_of_In.
  split; intros G a I; specialize (G a I); cbn beta in *.
  - destruct (mastery s !! (u, a)) as [m|]; qprop; [eauto | lra].
  - destruct G as (m & -> & B). now apply Qleb_le.
Qed.

Lemma reasons_nil `{Rounding} q u v version s : versions s !! v = Some version ->
  (reasons_of q u v version s = [] <-> eligible_now q u v s).
Proof.
  intros V. unfold reasons_of. rewrite !app_nil, concat_nil. unfold prerequisite_met.
  setoid_rewrite gate_met_spec. unfold eligible_now. split.
  - intros (A & B & C & D). exists version. split_and!; [easy | | intros k a K; now apply B | | ].
    + destruct (av_status version); cbn in A; try easy; auto.
    + now destruct (cooling_down _ _).
    + destruct q; [now left | right]. apply active_attempts_nil. now destruct (active_attempts u s).
  - intros (version' & V' & A & B & C & D). rewrite V in V'. injection V' as <-. split_and!.
    + now destruct A as [-> | ->].
    + intros k K a. now apply B.
    + now rewrite C.
    + destruct D as [-> |D]; [easy |]. apply active_attempts_nil in D. rewrite D. now destruct q.
Qed.

(** C25: The eligibility check reads only; it answers eligible exactly when the
    version is published (or canary), every skill that a primary skill requires
    is mastered to at least 0.55, no cooldown is running on the activity and,
    unless the quota is disabled, the learner has no attempt from PROVISIONING
    to EVALUATING; and it is eligible exactly when it gives no reason. *)
Theorem eligibility_correct `{Rounding} q u v s :
  exists r, run (check q u v) s = (inr r, s) /\
    (eligible r = true <-> eligible_now q u v s) /\ (eligible r = true <-> reasons r = []).
Proof.
  rewrite run_check. destruct (versions s !! v) as [version|] eqn:V.
  - eexists. split; [reflexivity |]. cbn [eligible reasons].
    assert (E : Nat.eqb (length (reasons_of q u v version s)) 0 = true <-> reasons_of q u v version s = [])
      by (rewrite Nat.eqb_eq; now destruct (reasons_of q u v version s)).
    rewrite <- (reasons_nil q u v version s V). now rewrite E.
  - eexists. split; [reflexivity |]. cbn. split; split; try easy. intros (version & V' & _). congruence.
Qed.
