(* ===== verification/Recommendation.v ===== *)
(** * Recommendations

    recommendation/recommendation.service.ts and recommendation.controller.ts:
    candidates from five sources, the eligibility filter, the weighting and the
    ranking.  Queries run one after the other on a shared store; rows come back
    in an order of the server's choosing ([RowOrder]). *)
From stdpp Require Import sorting.
From S2P Require Import Prelude JsNum Binary64 Effects Schema JsText AttemptStatus Bkt SkillGraph Mastery Eligibility Catalog.
Open Scope Q_scope.
Open Scope js_scope.

Inductive RecommendationReasonCode := CURRICULUM_ADJACENT | REMEDIATION | SPACED_REPETITION | PROGRESSION | UNBLOCKING.
#[export] Instance reason_eq_dec : EqDecision RecommendationReasonCode.
Proof. solve_decision. Defined.

Definition reason_text (c : RecommendationReasonCode) : string :=
  match c with
  | CURRICULUM_ADJACENT => "CURRICULUM_ADJACENT" | REMEDIATION => "REMEDIATION"
  | SPACED_REPETITION => "SPACED_REPETITION" | PROGRESSION => "PROGRESSION" | UNBLOCKING => "UNBLOCKING"
  end.

Record Recommendation := mkRecommendation {
  rc_activityId : Id; rc_activityVersionId : Id; rc_slug : string; rc_score : Q;
  rc_reasonCode : RecommendationReasonCode; rc_reasonParams : Json }.
#[export] Instance eta_Recommendation : Eta Recommendation := fun r =>
  mkRecommendation (rc_activityId r) (rc_activityVersionId r) (rc_slug r) (rc_score r)
    (rc_reasonCode r) (rc_reasonParams r).

(** A Map from version ids to candidates, in insertion order. *)
Definition Candidates := list Recommendation.
Definition for_version (id : Id) (c : Recommendation) : bool := Nat.eqb (rc_activityVersionId c) id.

(** [if (!existing || existing.score < score) candidates.set(...)]: a new key
    goes last, an old one keeps its place. *)
Definition offer (cs : Candidates) (c : Recommendation) : Candidates :=
  match List.find (for_version (rc_activityVersionId c)) cs with
  | None => cs ++ [c]
  | Some existing =>
      if rc_score existing <? rc_score c
      then (fun x => if for_version (rc_activityVersionId c) x then c else x) <$> cs
      else cs
  end.

Section RecommendationService.
Context `{Rounding} `{RowOrder}.
Variable quotaDisabled : bool.

Definition SOURCE_WEIGHT (c : RecommendationReasonCode) : Q :=
  match c with
  | REMEDIATION => 1 | UNBLOCKING => lit (95 # 100) | CURRICULUM_ADJACENT => lit (8 # 10)
  | PROGRESSION => lit (7 # 10) | SPACED_REPETITION => lit (6 # 10)
  end.

(** REQUIRES_GATE_THRESHOLD as a query parameter: the driver sends its decimal text. *)
Definition GATE : Q := 55 # 100.

Definition offer_all (cs : Candidates) (l : list Recommendation) : Candidates := fold_left offer l cs.
Definition candidate (r : VersionRow) (score : Q) (code : RecommendationReasonCode) (params : list (string * Json)) : Recommendation :=
  mkRecommendation (av_activity_id (vw_version r)) (vw_id r) (a_slug (vw_activity r)) score code (JObj params).

(** SELECT DISTINCT activity_id FROM attempt WHERE user_id = ... *)
Definition attempted_activities (userId : Id) (s : Store) : list Id :=
  uniq (activity_id ∘ snd <$> List.filter (fun kv => Nat.eqb (user_id kv.2) userId) (map_to_list (attempts s))).

(** ** (a) Curriculum-adjacent *)
Definition topics_of_activities (activityIds : list Id) (s : Store) : list Id :=
  uniq (at_topic_id <$> List.filter (fun r =>
    match versions s !! at_version_id r with
    | Some v => bool_decide (av_activity_id v ∈ activityIds)
    | None => false
    end) (activity_topics s)).
Definition any_topics (s : Store) : list Id :=
  take 5%nat (in_order (fst <$> List.filter (fun kv => match tp_module_id kv.2 with Some _ => true | None => false end)
    (map_to_list (topics s)))).

(** activity_topic joined to version, activity and topic. *)
Definition topic_rows_of (tenantId : Id) (topicIds attemptedIds : list Id) (s : Store) : list (VersionRow * string * Q) :=
  in_order (omap (fun r =>
    row ← join_activity s (at_version_id r);
    topic ← topics s !! at_topic_id r;
    if publishedActivityVersionsQuery tenantId row && bool_decide (at_topic_id r ∈ topicIds)
       && negb (bool_decide (av_activity_id (vw_version row) ∈ attemptedIds))
    then Some (row, tp_title topic, at_relevance r) else None) (activity_topics s)).

Definition adjacent_score (relevance : Q) : Q := lit (1 # 2) +! lit relevance *! lit (3 # 10).
Definition adjacent_candidate (r : VersionRow * string * Q) : Recommendation :=
  candidate r.1.1 (adjacent_score r.2) CURRICULUM_ADJACENT [("topic"%string, JStr r.1.2)].

(** The uuid of zeros, an id no activity has, stands for an empty list. *)
Definition exclusion (attemptedIds : list Id) : list Id := match attemptedIds with [] => [0%nat] | l => l end.

Definition addCurriculumAdjacentCandidates (userId tenantId : Id) (candidates : Candidates) : prog Store Candidates :=
  let* attemptedIds := select (attempted_activities userId) in
  let* topicIds := match attemptedIds with [] => Ret [] | _ => select (topics_of_activities attemptedIds) end in
  let* relevantTopicIds := match topicIds with [] => select any_topics | _ => Ret topicIds end in
  match relevantTopicIds with
  | [] => Ret candidates
  | _ =>
      let* rows := select (topic_rows_of tenantId relevantTopicIds (exclusion attemptedIds)) in
      Ret (offer_all candidates (adjacent_candidate <$> rows))
  end.

(** activity_skill joined to version and activity, for one skill. *)
Definition skill_versions (tenantId skillId : Id) (keep : ActivitySkill -> ActivityVersion -> bool) (s : Store) : list VersionRow :=
  in_order (omap (fun r =>
    row ← join_activity s (as_version_id r);
    if Nat.eqb (as_skill_id r) skillId && publishedActivityVersionsQuery tenantId row && keep r (vw_version row)
    then Some row else None) (activity_skills s)).
Definition at_levels (levels : list DifficultyLevel) (_ : ActivitySkill) (v : ActivityVersion) : bool :=
  match av_difficulty_level v with Some l => bool_decide (l ∈ levels) | None => false end.
Definition primary_only (r : ActivitySkill) (_ : ActivityVersion) : bool := as_is_primary r.

(** ** (b) Remediation *)
Definition THIRTY_DAYS : Z := 30 * 24 * 60 * 60 * 1000.
Definition struggling_skills (userId : Id) (since : Z) (s : Store) : list (Id * Q) :=
  in_order (uniq (
    List.filter (fun kv => Nat.eqb (user_id kv.2) userId && bool_decide (status kv.2 = FAILED) && (since <=? created_at kv.2)%Z)
      (map_to_list (attempts s)) ≫= fun kv =>
    List.filter (fun r => Nat.eqb (as_version_id r) (activity_version_id kv.2) && as_is_primary r) (activity_skills s) ≫= fun r =>
    match mastery s !! (userId, as_skill_id r) with
    | Some m => if sm_p_mastery m <? GATE then [(as_skill_id r, sm_p_mastery m)] else []
    | None => []
    end)).

Definition own_score (p : Q) : Q := lit (7 # 10) +! (MasteryConstants.REQUIRES_GATE_THRESHOLD -! lit p).
Definition own_candidate (k : Id * Q) (r : VersionRow) : Recommendation :=
  candidate r (own_score k.2) REMEDIATION [("mastery"%string, JNum (lit k.2)); ("skill_id"%string, jnat k.1)].

(** The closure rows of all edge types, with the learner's mastery if any. *)
Definition unmastered_ancestors (userId skillId : Id) (s : Store) : list (Id * option Q) :=
  in_order (omap (fun r =>
    if Nat.eqb (sc_descendant r) skillId && negb (Nat.eqb (sc_ancestor r) skillId) then
      match mastery s !! (userId, sc_ancestor r) with
      | None => Some (sc_ancestor r, None)
      | Some m => if sm_p_mastery m <? GATE then Some (sc_ancestor r, Some (sm_p_mastery m)) else None
      end
    else None) (skill_closure s)).

(** ORDER BY difficulty_level LIMIT 1, where only L1 and L2 are left. *)
Definition easier (a b : VersionRow) : Prop :=
  av_difficulty_level (vw_version a) = Some L1 \/ av_difficulty_level (vw_version b) <> Some L1.
#[export] Instance easier_dec : RelDecision easier.
Proof. unfold easier. intros a b. apply _. Defined.
Definition easiest (tenantId skillId : Id) (s : Store) : option VersionRow :=
  head (merge_sort easier (skill_versions tenantId skillId (at_levels [L1; L2]) s)).
Definition ancestor_candidate (skillId : Id) (anc : Id * option Q) (r : VersionRow) : Recommendation :=
  candidate r (lit (65 # 100)) REMEDIATION
    [("blocked_skill_id"%string, jnat skillId); ("prerequisite_skill_id"%string, jnat anc.1);
     ("prerequisite_mastery"%string, jopt (fun p => JNum (lit p)) anc.2)].

(** [for (const x of l) { ... }] over the candidates. *)
Fixpoint for_candidates {A} (l : list A) (f : A -> Candidates -> prog Store Candidates) (cs : Candidates) : prog Store Candidates :=
  match l with
  | [] => Ret cs
  | x :: l => let* cs := f x cs in for_candidates l f cs
  end.

Definition remediate (userId tenantId : Id) (k : Id * Q) (candidates : Candidates) : prog Store Candidates :=
  let* rows := select (skill_versions tenantId k.1 (at_levels [L1; L2])) in
  let candidates := offer_all candidates (own_candidate k <$> rows) in
  let* ancestors := select (unmastered_ancestors userId k.1) in
  for_candidates ancestors (fun anc candidates =>
    let* row := select (easiest tenantId anc.1) in
    Ret (offer_all candidates (match row with Some r => [ancestor_candidate k.1 anc r] | None => [] end))) candidates.

Definition addRemediationCandidates (userId tenantId : Id) (candidates : Candidates) : prog Store Candidates :=
  let* clock := select now in
  let* strugglingSkills := select (struggling_skills userId (clock - THIRTY_DAYS)) in
  for_candidates strugglingSkills (remediate userId tenantId) candidates.

(** ** (c) Spaced repetition *)
Definition mastery_of (userId : Id) (s : Store) : list (Id * SkillMastery) :=
  omap (fun kv => if Nat.eqb kv.1.1 userId then Some (kv.1.2, kv.2) else None) (map_to_list (mastery s)).
Definition due_skills (userId : Id) (s : Store) : list (Id * SkillMastery) :=
  in_order (List.filter (fun k => match sm_review_due_at k.2 with Some d => (d <=? now s)%Z | None => false end) (mastery_of userId s)).

Definition band_text (b : MasteryBand) : string :=
  match b with
  | Novice => "Novice" | Developing => "Developing" | Competent => "Competent"
  | Proficient => "Proficient" | Mastered => "Mastered"
  end.
Definition level_text (l : DifficultyLevel) : string :=
  match l with L1 => "L1" | L2 => "L2" | L3 => "L3" | L4 => "L4" | L5 => "L5" end.
Definition jband (m : SkillMastery) : Json := jopt (fun b => JStr (band_text b)) (sm_band m).

Definition review_candidate (k : Id * SkillMastery) (r : VersionRow) : Recommendation :=
  candidate r (lit (55 # 100)) SPACED_REPETITION
    [("skill_id"%string, jnat k.1); ("band"%string, jband k.2);
     ("review_due_at"%string, jopt (fun d => JStr (toISOString d)) (sm_review_due_at k.2))].

Definition addSpacedRepetitionCandidates (userId tenantId : Id) (candidates : Candidates) : prog Store Candidates :=
  let* dueSkills := select (due_skills userId) in
  for_candidates dueSkills (fun k candidates =>
    let* rows := select (skill_versions tenantId k.1 primary_only) in
    Ret (offer_all candidates (review_candidate k <$> rows))) candidates.

(** ** (d) Progression *)
Definition strong_skills (userId : Id) (s : Store) : list (Id * SkillMastery) :=
  in_order (List.filter (fun k => match sm_band k.2 with Some Proficient | Some Mastered => true | _ => false end) (mastery_of userId s)).
Definition targetLevels (m : SkillMastery) : list DifficultyLevel :=
  if bool_decide (sm_band m = Some Mastered) then [L4; L5] else [L3; L4].
Definition next_candidate (k : Id * SkillMastery) (r : VersionRow) : Recommendation :=
  candidate r (lit (6 # 10)) PROGRESSION
    [("skill_id"%string, jnat k.1); ("band"%string, jband k.2);
     ("next_level"%string, jopt (fun l => JStr (level_text l)) (av_difficulty_level (vw_version r)))].

Definition addProgressionCandidates (userId tenantId : Id) (candidates : Candidates) : prog Store Candidates :=
  let* strongSkills := select (strong_skills userId) in
  match strongSkills with
  | [] => Ret candidates
  | _ =>
      let* attempted := select (attempted_activities userId) in
      for_candidates strongSkills (fun k candidates =>
        let* rows := select (skill_versions tenantId k.1 (at_levels (targetLevels k.2))) in
        let fresh := List.filter (fun r => negb (bool_decide (av_activity_id (vw_version r) ∈ attempted))) rows in
        Ret (offer_all candidates (next_candidate k <$> fresh))) candidates
  end.

(** ** (e) Unblocking *)
Definition weak_skills (userId : Id) (s : Store) : list Id :=
  in_order (fst <$> List.filter (fun k => sm_p_mastery k.2 <? GATE) (mastery_of userId s)).
Definition descendants (skillId : Id) (s : Store) : nat :=
  List.length (List.filter (fun r => Nat.eqb (sc_ancestor r) skillId) (skill_closure s)).
Definition unblocking_score (unblocks : nat) : Q :=
  jmin (lit (6 # 10) +! inject_Z (Z.of_nat unblocks) *! lit (5 # 100)) (lit (95 # 100)).
Definition unblocking_candidate (skillId : Id) (unblocks : nat) (r : VersionRow) : Recommendation :=
  candidate r (unblocking_score unblocks) UNBLOCKING
    [("prerequisite_skill_id"%string, jnat skillId); ("unblocks"%string, jnat unblocks)].

Definition addUnblockingCandidates (userId tenantId : Id) (candidates : Candidates) : prog Store Candidates :=
  let* weak := select (weak_skills userId) in
  for_candidates (uniq weak) (fun skillId candidates =>
    let* rows := select (skill_versions tenantId skillId primary_only) in
    let* unblocks := select (descendants skillId) in
    Ret (if Nat.eqb unblocks 0 then candidates
         else offer_all candidates (unblocking_candidate skillId unblocks <$> rows))) candidates.

(** ** recommend *)
Definition weigh (c : Recommendation) : Recommendation := c <| rc_score := rc_score c *! SOURCE_WEIGHT (rc_reasonCode c) |>.

(** [sort((a, b) => b.score - a.score)], stable. *)
Fixpoint rank_in (c : Recommendation) (l : list Recommendation) : list Recommendation :=
  match l with
  | [] => [c]
  | x :: l => if rc_score x <=? rc_score c then c :: x :: l else x :: rank_in c l
  end.
Definition rank (l : list Recommendation) : list Recommendation := fold_right rank_in [] l.

(** [slice(0, limit)]: a negative limit counts from the end. *)
Definition slice_to {A} (limit : Z) (l : list A) : list A :=
  if (0 <=? limit)%Z then take (Z.to_nat limit) l else take (List.length l - Z.to_nat (- limit)) l.

Definition keep_eligible (userId : Id) (candidates : Candidates) : prog Store Candidates :=
  let* kept := for_map candidates (fun c =>
    let* result := check quotaDisabled userId (rc_activityVersionId c) in
    Ret (if eligible result then [c] else [])) in
  Ret (concat kept).

Definition recommendation_row (userId : Id) (clock : Z) (r : Recommendation) : exn + RecommendationRow :=
  let? score := to_numeric 6 4 (rc_score r) in
  inr (mkRecommendationRow userId (rc_activityId r) score (rc_reasonParams r) (reason_text (rc_reasonCode r))
    (rc_reasonParams r) "rules-v2" clock).

Definition recommend (userId tenantId : Id) (limit : Z) : prog Store (list Recommendation) :=
  let* candidates := addCurriculumAdjacentCandidates userId tenantId [] in
  let* candidates := addRemediationCandidates userId tenantId candidates in
  let* candidates := addSpacedRepetitionCandidates userId tenantId candidates in
  let* candidates := addProgressionCandidates userId tenantId candidates in
  let* candidates := addUnblockingCandidates userId tenantId candidates in
  let* filtered := keep_eligible userId candidates in
  let top := slice_to limit (rank (weigh <$> filtered)) in
  match top with
  | [] => Ret []
  | _ =>
      act (fun s =>
        let? rows := map_or_throw (recommendation_row userId (now s)) top in
        inr (tt, s <| recommendations ::= fun l => l ++ rows |>)) ;;
      Ret top
  end.

(** GET recommendations; an absent or empty limit is the default. *)
Definition list_route (userId tenantId : Id) (limit : option Z) : prog Store (list Recommendation) :=
  recommend userId tenantId (default 8%Z limit).
End RecommendationService.
