(* ===== verification/RecommendationLaws.v ===== *)
(** * What is recommended

    The five sources as facts about the store ([justified]), the candidate map
    as the best offer per version, and the specification of [recommend]: the
    best eligible candidates, ranked, each with a reason that holds. *)
From stdpp Require Import sorting.
From S2P Require Import Prelude JsNum Binary64 Effects Schema JsText AttemptStatus Bkt Elo SkillGraph Mastery Catalog CatalogLaws Eligibility Recommendation.
Open Scope Q_scope.
Open Scope js_scope.

(** ** The candidate map keeps the best offer per version *)
Section Offers.

Definition keys (cs : Candidates) : list Id := rc_activityVersionId <$> cs.

Lemma find_key id cs : match List.find (for_version id) cs with
  | Some c => c ∈ cs /\ rc_activityVersionId c = id
  | None => id ∉ keys cs
  end.
Proof.
  destruct (List.find _ cs) as [c|] eqn:F.
  - apply find_some in F as [I E]. apply Nat.eqb_eq in E. now rewrite list_elem_of_In.
  - intros (c & -> & I)%list_elem_of_fmap. apply list_elem_of_In in I. apply (find_none _ _ F) in I.
    unfold for_version in I. now rewrite Nat.eqb_refl in I.
Qed.

Lemma keys_replace c cs : keys ((fun x => if for_version (rc_activityVersionId c) x then c else x) <$> cs) = keys cs.
Proof.
  unfold keys. rewrite <- list_fmap_compose. apply list_fmap_ext. intros i x _. cbn. unfold for_version.
  destruct (Nat.eqb_spec (rc_activityVersionId x) (rc_activityVersionId c)); congruence.
Qed.

(** What holds of the map after the offers [done]. *)
Record best_of (done : list Recommendation) (cs : Candidates) : Prop := mkBestOf {
  bo_keys : NoDup (keys cs);
  bo_offered : forall c, c ∈ cs -> c ∈ done;
  bo_best : forall o, o ∈ done -> exists c, c ∈ cs /\ rc_activityVersionId c = rc_activityVersionId o /\ rc_score o <= rc_score c
}.

Lemma key_unique cs c c' : NoDup (keys cs) -> c ∈ cs -> c' ∈ cs -> rc_activityVersionId c = rc_activityVersionId c' -> c = c'.
Proof.
  intros N I I' E. apply list_elem_of_lookup in I as [i I]. apply list_elem_of_lookup in I' as [j J].
  assert (i = j); [|congruence]. eapply (NoDup_lookup (keys cs)); [exact N | |]; unfold keys; rewrite list_lookup_fmap.
  - now rewrite I. 
  - rewrite J. cbn. now rewrite E.
Qed.

Lemma best_offer done cs c : best_of done cs -> best_of (done ++ [c]) (offer cs c).
Proof.
  intros [N O B]. unfold offer. pose proof (find_key (rc_activityVersionId c) cs) as F.
  destruct (List.find _ cs) as [old|].
  - destruct F as [I E]. destruct (rc_score old <? rc_score c) eqn:L; qprop.
    + set (f := fun x => if for_version (rc_activityVersionId c) x then c else x).
      assert (C : forall x, x ∈ f <$> cs <-> (x = c \/ (x ∈ cs /\ rc_activityVersionId x <> rc_activityVersionId c))).
      { intros x. rewrite list_elem_of_fmap. unfold f, for_version. split.
        - intros (y & -> & Y). destruct (Nat.eqb_spec (rc_activityVersionId y) (rc_activityVersionId c)); auto.
        - intros [->|[X D]]; [exists old; now rewrite E, Nat.eqb_refl |]. exists x. split; [|easy].
          destruct (Nat.eqb_spec (rc_activityVersionId x) (rc_activityVersionId c)); easy. }
      split; [unfold f; now rewrite keys_replace | |].
      * intros x X. apply C in X. rewrite elem_of_app, list_elem_of_singleton. destruct X as [->|[X _]]; auto.
      * intros o [X|X]%elem_of_app.
        -- destruct (B o X) as (b & Ib & Eb & Lb). destruct (decide (rc_activityVersionId b = rc_activityVersionId c)) as [Q|Q].
           ++ exists c. split; [apply C; now left |]. split; [congruence |].
              rewrite (key_unique cs b old N Ib I) in Lb by congruence. lra.
           ++ exists b. split; [apply C; now right | easy].
        -- apply list_elem_of_singleton in X as ->. exists c. split; [apply C; now left | split; [easy | lra]].
    + split; [easy | intros x X; apply elem_of_app; left; now apply O |].
      intros o [X|X]%elem_of_app; [now apply B |]. apply list_elem_of_singleton in X as ->. now exists old.
  - split.
    + unfold keys in *. rewrite fmap_app. apply NoDup_app. split_and!; [easy | | apply NoDup_singleton].
      intros x X. cbn. rewrite list_elem_of_singleton. congruence.
    + intros x. rewrite !elem_of_app. intros [X|X]; [left; now apply O | now right].
    + intros o [X|X]%elem_of_app.
      * destruct (B o X) as (b & Ib & R). exists b. split; [apply elem_of_app; now left | easy].
      * apply list_elem_of_singleton in X as ->. exists c. split; [apply elem_of_app; right; now left | split; [easy | lra]].
Qed.

Lemma best_offer_all l : forall done cs, best_of done cs -> best_of (done ++ l) (offer_all cs l).
Proof.
  induction l as [|c l IH]; intros done cs B; cbn; [now rewrite app_nil_r |].
  rewrite cons_middle, app_assoc. apply IH. now apply best_offer.
Qed.
Lemma offer_all_best l : best_of l (offer_all [] l).
Proof. apply (best_offer_all l [] []). split; [constructor | intros c I; now apply elem_of_nil in I | intros o I; now apply elem_of_nil in I]. Qed.

Lemma offer_all_app cs l l' : offer_all cs (l ++ l') = offer_all (offer_all cs l) l'.
Proof. apply fold_left_app. Qed.
End Offers.

(** ** Ranking *)
Section Ranking.
Definition better (a b : Recommendation) : Prop := rc_score b <= rc_score a.

Lemma rank_in_perm c l : rank_in c l ≡ₚ c :: l.
Proof. induction l as [|x l IH]; cbn; [easy |]. destruct (_ <=? _); [easy |]. rewrite IH. apply Permutation_swap. Qed.
Lemma rank_perm l : rank l ≡ₚ l.
Proof. induction l as [|c l IH]; cbn; [easy |]. now rewrite rank_in_perm, IH. Qed.
Lemma rank_in_sorted c l : StronglySorted better l -> StronglySorted better (rank_in c l).
Proof.
  induction 1 as [|x l S IH F]; cbn; [repeat constructor |]. destruct (rc_score x <=? rc_score c) eqn:L; qprop.
  - constructor; [now constructor |]. constructor; [exact L |]. eapply Forall_impl; [exact F |]. unfold better. intros; cbn in *; lra.
  - constructor; [exact IH |]. rewrite rank_in_perm. constructor; [unfold better; lra | exact F].
Qed.
Lemma rank_sorted l : StronglySorted better (rank l).
Proof. induction l as [|c l IH]; cbn; [constructor | now apply rank_in_sorted]. Qed.

(** The first part of a ranked list is its best. *)
Lemma ranked_split a b : StronglySorted better (a ++ b) ->
  StronglySorted better a /\ (forall x y, x ∈ a -> y ∈ b -> better x y).
Proof.
  induction a as [|x a IH]; cbn; intros S.
  - split; [constructor | intros u v U; now apply elem_of_nil in U].
  - inversion S as [|? ? S' F]; subst. apply IH in S' as [S1 B]. rewrite Forall_app, !Forall_forall in F. destruct F as [F1 F2].
    split; [constructor; [easy | now apply Forall_forall] |].
    intros u v [->|U]%elem_of_cons V; [now apply F2 | now apply B].
Qed.
End Ranking.

(** ** The offers of the five sources, as lists *)
Section Sources.
Context `{Rounding} `{RowOrder}.
Variables (u t : Id).

Definition relevant_topics (s : Store) : list Id :=
  match (match attempted_activities u s with [] => [] | l => topics_of_activities l s end) with
  | [] => any_topics s
  | l => l
  end.
Definition adjacent_offers (s : Store) : list Recommendation :=
  match relevant_topics s with
  | [] => []
  | l => adjacent_candidate <$> topic_rows_of t l (exclusion (attempted_activities u s)) s
  end.
Definition ancestor_offers (skillId : Id) (anc : Id * option Q) (s : Store) : list Recommendation :=
  match easiest t anc.1 s with Some r => [ancestor_candidate skillId anc r] | None => [] end.
Definition remedies (s : Store) (k : Id * Q) : list Recommendation :=
  (own_candidate k <$> skill_versions t k.1 (at_levels [L1; L2]) s) ++
  (unmastered_ancestors u k.1 s ≫= fun anc => ancestor_offers k.1 anc s).
Definition remediation_offers (s : Store) : list Recommendation :=
  struggling_skills u (now s - THIRTY_DAYS) s ≫= remedies s.
Definition review_offers (s : Store) : list Recommendation :=
  due_skills u s ≫= fun k => review_candidate k <$> skill_versions t k.1 primary_only s.
Definition untried (s : Store) (r : VersionRow) : bool :=
  negb (bool_decide (av_activity_id (vw_version r) ∈ attempted_activities u s)).
Definition next_offers (s : Store) : list Recommendation :=
  strong_skills u s ≫= fun k =>
    next_candidate k <$> List.filter (untried s) (skill_versions t k.1 (at_levels (targetLevels k.2)) s).
Definition unblocking_offers (s : Store) : list Recommendation :=
  uniq (weak_skills u s) ≫= fun k =>
    if Nat.eqb (descendants k s) 0 then []
    else unblocking_candidate k (descendants k s) <$> skill_versions t k primary_only s.
Definition offers (s : Store) : list Recommendation :=
  adjacent_offers s ++ remediation_offers s ++ review_offers s ++ next_offers s ++ unblocking_offers s.

Lemma run_for_candidates {A} (l : list A) (f : A -> Candidates -> prog Store Candidates) (g : A -> list Recommendation) s :
  (forall x cs, run (f x cs) s = (inr (offer_all cs (g x)), s)) ->
  forall cs, run (for_candidates l f cs) s = (inr (offer_all cs (l ≫= g)), s).
Proof.
  intros E. induction l as [|x l IH]; intros cs; cbn [for_candidates]; [easy |].
  rewrite run_bind, E, IH. change ((x :: l) ≫= g) with (g x ++ (l ≫= g)). now rewrite offer_all_app.
Qed.

Lemma run_adjacent cs s : run (addCurriculumAdjacentCandidates u t cs) s = (inr (offer_all cs (adjacent_offers s)), s).
Proof.
  unfold addCurriculumAdjacentCandidates, adjacent_offers. rewrite run_bind, run_select, run_bind.
  set (a := attempted_activities u s).
  assert (E : run (match a with [] => Ret [] | _ => select (topics_of_activities a) end) s =
    (inr (match a with [] => [] | _ => topics_of_activities a s end), s)) by now destruct a.
  rewrite E. set (ts := match a with [] => [] | _ => topics_of_activities a s end). rewrite run_bind.
  assert (E2 : run (match ts with [] => select any_topics | _ => Ret ts end) s =
    (inr (match ts with [] => any_topics s | _ => ts end), s)) by now destruct ts.
  assert (E3 : relevant_topics s = match ts with [] => any_topics s | _ => ts end).
  { unfold relevant_topics. fold a. unfold ts. destruct a as [|i l]; [easy |]. now destruct (topics_of_activities (i :: l) s). }
  rewrite E2, E3. destruct (match ts with [] => any_topics s | _ => ts end); [easy |]. now rewrite run_bind, run_select.
Qed.

Lemma run_remediation cs s : run (addRemediationCandidates u t cs) s = (inr (offer_all cs (remediation_offers s)), s).
Proof.
  unfold addRemediationCandidates, remediation_offers. rewrite run_bind, run_select, run_bind, run_select.
  apply (run_for_candidates _ _ (remedies s)). intros k cs0. unfold remediate, remedies. rewrite run_bind, run_select, run_bind, run_select.
  rewrite offer_all_app. apply (run_for_candidates _ _ (fun anc => ancestor_offers k.1 anc s)). intros anc cs1.
  now rewrite run_bind, run_select.
Qed.
Lemma run_review cs s : run (addSpacedRepetitionCandidates u t cs) s = (inr (offer_all cs (review_offers s)), s).
Proof.
  unfold addSpacedRepetitionCandidates, review_offers. rewrite run_bind, run_select.
  apply run_for_candidates. intros k cs0. now rewrite run_bind, run_select.
Qed.
Lemma run_next cs s : run (addProgressionCandidates u t cs) s = (inr (offer_all cs (next_offers s)), s).
Proof.
  unfold addProgressionCandidates, next_offers. rewrite run_bind, run_select. destruct (strong_skills u s) as [|k l]; [easy |].
  rewrite run_bind, run_select. apply (run_for_candidates (k :: l) _ (fun k => next_candidate k <$> List.filter (untried s) _)).
  intros k0 cs0. now rewrite run_bind, run_select.
Qed.
Lemma run_unblocking cs s : run (addUnblockingCandidates u t cs) s = (inr (offer_all cs (unblocking_offers s)), s).
Proof.
  unfold addUnblockingCandidates, unblocking_offers. rewrite run_bind, run_select.
  apply run_for_candidates. intros k cs0. rewrite run_bind, run_select, run_bind, run_select. now destruct (Nat.eqb _ 0).
Qed.

(** ** Why an activity is recommended *)
Definition published_in (s : Store) (row : VersionRow) : Prop :=
  join_activity s (vw_id row) = Some row /\ a_tenant_id (vw_activity row) = t /\ av_status (vw_version row) = V_PUBLISHED.
(** The version is bound to the skill by the given row. *)
Definition targets (s : Store) (r : ActivitySkill) (skillId : Id) (row : VersionRow) : Prop :=
  r ∈ activity_skills s /\ as_skill_id r = skillId /\ as_version_id r = vw_id row /\ published_in s row.
Definition level_in (row : VersionRow) (l : list DifficultyLevel) : Prop :=
  exists d, av_difficulty_level (vw_version row) = Some d /\ d ∈ l.
Definition tried (s : Store) (activityId : Id) : Prop :=
  exists id a, attempts s !! id = Some a /\ user_id a = u /\ activity_id a = activityId.
(** Failed within thirty days on an activity whose primary skill this is, and weak at it. *)
Definition struggles (s : Store) (skillId : Id) (p : Q) : Prop :=
  exists id a r m, attempts s !! id = Some a /\ user_id a = u /\ status a = FAILED /\ (now s - THIRTY_DAYS <= created_at a)%Z /\
    r ∈ activity_skills s /\ as_version_id r = activity_version_id a /\ as_is_primary r = true /\ as_skill_id r = skillId /\
    mastery s !! (u, skillId) = Some m /\ sm_p_mastery m = p /\ p < GATE.

Inductive justified (s : Store) : Recommendation -> Prop :=
  | j_adjacent r row topic :
      r ∈ activity_topics s -> at_version_id r = vw_id row -> published_in s row ->
      topics s !! at_topic_id r = Some topic -> at_topic_id r ∈ relevant_topics s ->
      ~ tried s (av_activity_id (vw_version row)) -> av_activity_id (vw_version row) <> 0%nat ->
      justified s (adjacent_candidate (row, tp_title topic, at_relevance r))
  | j_own skillId p r row :
      struggles s skillId p -> targets s r skillId row -> level_in row [L1; L2] ->
      justified s (own_candidate (skillId, p) row)
  | j_ancestor skillId p anc c row :
      struggles s skillId p -> c ∈ skill_closure s -> sc_descendant c = skillId -> sc_ancestor c = anc.1 -> anc.1 <> skillId ->
      anc.2 = sm_p_mastery <$> mastery s !! (u, anc.1) -> (forall q, anc.2 = Some q -> q < GATE) ->
      easiest t anc.1 s = Some row ->
      justified s (ancestor_candidate skillId anc row)
  | j_review skillId m d r row :
      mastery s !! (u, skillId) = Some m -> sm_review_due_at m = Some d -> (d <= now s)%Z ->
      targets s r skillId row -> as_is_primary r = true ->
      justified s (review_candidate (skillId, m) row)
  | j_next skillId m r row :
      mastery s !! (u, skillId) = Some m -> sm_band m = Some Proficient \/ sm_band m = Some Mastered ->
      targets s r skillId row -> level_in row (targetLevels m) -> ~ tried s (av_activity_id (vw_version row)) ->
      justified s (next_candidate (skillId, m) row)
  | j_unblocking skillId m r row :
      mastery s !! (u, skillId) = Some m -> sm_p_mastery m < GATE -> descendants skillId s <> 0%nat ->
      targets s r skillId row -> as_is_primary r = true ->
      justified s (unblocking_candidate skillId (descendants skillId s) row).
End Sources.

Section Justified.
Context `{Rounding} `{RowOrder}.
Variables (u t : Id).

Lemma join_id s id row : join_activity s id = Some row -> vw_id row = id /\ versions s !! id = Some (vw_version row).
Proof.
  unfold join_activity. destruct (versions s !! id) as [v|]; cbn; [|easy].
  destruct (activities s !! _); cbn; [|easy]. now intros [= <-].
Qed.
Lemma published_query row : publishedActivityVersionsQuery t row = true <->
  a_tenant_id (vw_activity row) = t /\ av_status (vw_version row) = V_PUBLISHED.
Proof. unfold publishedActivityVersionsQuery. now rewrite andb_true_iff, Nat.eqb_eq, bool_decide_eq_true. Qed.

Lemma elem_skill_versions k keep s row : row ∈ skill_versions t k keep s <->
  exists r, targets t s r k row /\ keep r (vw_version row) = true.
Proof.
  unfold skill_versions, targets, published_in. rewrite elem_of_in_order, list_elem_of_omap. split.
  - intros (r & I & E). destruct (join_activity s (as_version_id r)) as [row'|] eqn:J; cbn in E; [|easy].
    destruct (_ && _ && _) eqn:B; [|easy]. injection E as ->. apply andb_prop in B as [[B1 B2]%andb_prop B3].
    apply Nat.eqb_eq in B1. apply published_query in B2. pose proof (join_id _ _ _ J) as [E _]. exists r. now rewrite E.
  - intros (r & (I & K & V & J & P) & B). exists r. split; [easy |]. rewrite V, J. cbn.
    apply published_query in P. now rewrite K, Nat.eqb_refl, P, B.
Qed.

Lemma elem_attempted s id : id ∈ attempted_activities u s <-> tried u s id.
Proof.
  unfold attempted_activities, tried. rewrite elem_of_uniq, list_elem_of_fmap. split.
  - intros ([i a] & -> & [I E]%elem_filter). apply elem_of_map_to_list in I. apply Nat.eqb_eq in E. now exists i, a.
  - intros (i & a & L & U & <-). exists (i, a). split; [easy |]. apply elem_filter. rewrite elem_of_map_to_list. split; [easy | now apply Nat.eqb_eq].
Qed.
Lemma untried_spec s row : untried u s row = true <-> ~ tried u s (av_activity_id (vw_version row)).
Proof. unfold untried. now rewrite negb_true_iff, bool_decide_eq_false, elem_attempted. Qed.

Lemma at_levels_spec l r row : at_levels l r (vw_version row) = true <-> level_in row l.
Proof.
  unfold at_levels, level_in. destruct (av_difficulty_level _) as [d|]; [|split; [easy | now intros (? & ? & _)]].
  rewrite bool_decide_eq_true. split; [eauto | intros (? & [= <-] & ?); easy].
Qed.

Lemma elem_struggling s k p : (k, p) ∈ struggling_skills u (now s - THIRTY_DAYS) s <-> struggles u s k p.
Proof.
  unfold struggling_skills, struggles. rewrite elem_of_in_order, elem_of_uniq, list_elem_of_bind. split.
  - intros ([i a] & I & J). apply elem_filter in J as [J B]. apply elem_of_map_to_list in J.
    apply andb_prop in B as [[B1 B2]%andb_prop B3]. apply Nat.eqb_eq in B1. apply bool_decide_eq_true in B2. apply Z.leb_le in B3.
    apply list_elem_of_bind in I as (r & I & [K B]%elem_filter). apply andb_prop in B as [B4 B5]. apply Nat.eqb_eq in B4.
    destruct (mastery s !! (u, as_skill_id r)) as [m|] eqn:M; [|now apply elem_of_nil in I].
    destruct (sm_p_mastery m <? GATE) eqn:G; [|now apply elem_of_nil in I]. apply list_elem_of_singleton in I as [= -> ->]. qprop.
    exists i, a, r, m. now split_and!.
  - intros (i & a & r & m & L & U & F & C & I & V & P & <- & M & <- & G). exists (i, a). split.
    + apply list_elem_of_bind. exists r. split.
      * rewrite M. apply Qltb_lt in G. rewrite G. now left.
      * apply elem_filter. split; [easy |]. cbn. now rewrite V, P, Nat.eqb_refl.
    + apply elem_filter. split; [now apply elem_of_map_to_list |]. cbn. rewrite U, Nat.eqb_refl, bool_decide_true by easy. now apply Z.leb_le.
Qed.

Lemma elem_unmastered s k anc : anc ∈ unmastered_ancestors u k s <->
  anc.1 <> k /\ (exists c, c ∈ skill_closure s /\ sc_descendant c = k /\ sc_ancestor c = anc.1) /\
  anc.2 = sm_p_mastery <$> mastery s !! (u, anc.1) /\ (forall q, anc.2 = Some q -> q < GATE).
Proof.
  unfold unmastered_ancestors. rewrite elem_of_in_order, list_elem_of_omap. split.
  - intros (c & I & E). destruct (Nat.eqb_spec (sc_descendant c) k) as [D|D]; cbn in E; [|easy].
    destruct (Nat.eqb_spec (sc_ancestor c) k) as [A|A]; cbn in E; [easy |].
    destruct (mastery s !! _) as [m|] eqn:M.
    + destruct (sm_p_mastery m <? GATE) eqn:G; [|easy]. injection E as <-. cbn. rewrite M. qprop.
      split_and!; [easy | now exists c | easy | now intros q [= <-]].
    + injection E as <-. cbn. rewrite M. split_and!; [easy | now exists c | easy | easy].
  - intros (N & (c & I & D & A) & E & G). exists c. split; [easy |]. rewrite D, A, Nat.eqb_refl. cbn.
    destruct (Nat.eqb_spec anc.1 k); [easy |]. cbn. destruct anc as [a p]. cbn in *. subst p.
    destruct (mastery s !! (u, a)) as [m|]; [|easy]. cbn in *. specialize (G _ eq_refl). apply Qltb_lt in G. now rewrite G.
Qed.

Lemma elem_mastery_of s k m : (k, m) ∈ mastery_of u s <-> mastery s !! (u, k) = Some m.
Proof.
  unfold mastery_of. rewrite list_elem_of_omap. split.
  - intros ([[i j] m'] & I & E). cbn in E. destruct (Nat.eqb_spec i u) as [->|]; [|easy]. injection E as -> ->. now apply elem_of_map_to_list.
  - intros L. exists ((u, k), m). split; [now apply elem_of_map_to_list |]. cbn. now rewrite Nat.eqb_refl.
Qed.

Lemma elem_topic_rows s topicIds tried0 row title q :
  (row, title, q) ∈ topic_rows_of t topicIds tried0 s <->
  exists r topic, r ∈ activity_topics s /\ at_version_id r = vw_id row /\ published_in t s row /\
    topics s !! at_topic_id r = Some topic /\ at_topic_id r ∈ topicIds /\ av_activity_id (vw_version row) ∉ tried0 /\
    title = tp_title topic /\ q = at_relevance r.
Proof.
  unfold topic_rows_of, published_in. rewrite elem_of_in_order, list_elem_of_omap. split.
  - intros (r & I & E). destruct (join_activity s (at_version_id r)) as [row'|] eqn:J; cbn in E; [|easy].
    destruct (topics s !! at_topic_id r) as [topic|] eqn:T; cbn in E; [|easy].
    destruct (_ && _ && _) eqn:B; [|easy]. injection E as <- <- <-. apply andb_prop in B as [[B1 B2]%andb_prop B3].
    apply published_query in B1. apply bool_decide_eq_true in B2. apply negb_true_iff, bool_decide_eq_false in B3.
    pose proof (join_id _ _ _ J) as [E _]. exists r, topic. rewrite E. now split_and!.
  - intros (r & topic & I & V & (J & P) & T & K & N & -> & ->). exists r. split; [easy |]. rewrite V, J. cbn. rewrite T. cbn.
    apply published_query in P. now rewrite P, bool_decide_true, bool_decide_false.
Qed.

Lemma exclusion_spec s id : id ∉ exclusion (attempted_activities u s) <->
  ~ tried u s id /\ (attempted_activities u s = [] -> id <> 0%nat).
Proof.
  rewrite <- elem_attempted. unfold exclusion. destruct (attempted_activities u s) as [|i l].
  - rewrite list_elem_of_singleton, elem_of_nil. tauto.
  - split; [intros N; now split | tauto].
Qed.
End Justified.

(** Every offer has its reason, when no activity has the id of zeros. *)
Lemma offers_sound `{Rounding} `{RowOrder} u t s c : activities s !! 0%nat = None -> c ∈ offers u t s -> justified u t s c.
Proof.
  intros Z. unfold offers. rewrite !elem_of_app.
  assert (Act : forall row, published_in t s row -> av_activity_id (vw_version row) <> 0%nat).
  { intros row (J & _) E. unfold join_activity in J. destruct (versions s !! _) as [v|]; cbn in J; [|easy].
    destruct (activities s !! av_activity_id v) as [a|] eqn:A; cbn in J; [|easy]. injection J as J. rewrite <- J in E. cbn in E. congruence. }
  intros [I|[I|[I|[I|I]]]].
  - unfold adjacent_offers in I. destruct (relevant_topics u s) as [|i l] eqn:R; [now apply elem_of_nil in I |]. rewrite <- R in I.
    apply list_elem_of_fmap in I as ([[row title] q] & -> & I). apply elem_topic_rows in I as (r & topic & I1 & I2 & I3 & I4 & I5 & I6 & -> & ->).
    apply exclusion_spec in I6 as [I6 _]. apply (j_adjacent u t s r row topic); try easy. now apply Act.
  - unfold remediation_offers in I. apply list_elem_of_bind in I as ([k p] & I & S). apply elem_struggling in S.
    unfold remedies in I. apply elem_of_app in I as [I|I].
    + apply list_elem_of_fmap in I as (row & -> & I). apply elem_skill_versions in I as (r & I & L). apply at_levels_spec in L.
      now apply (j_own u t s k p r row).
    + apply list_elem_of_bind in I as (anc & I & A). apply elem_unmastered in A as (A1 & (c0 & A2 & A3 & A4) & A5 & A6).
      unfold ancestor_offers in I. destruct (easiest t anc.1 s) as [row|] eqn:E; [|now apply elem_of_nil in I].
      apply list_elem_of_singleton in I as ->. now apply (j_ancestor u t s k p anc c0 row).
  - unfold review_offers in I. apply list_elem_of_bind in I as ([k m] & I & S). unfold due_skills in S.
    apply elem_of_in_order, elem_filter in S as [S D]. apply elem_mastery_of in S. cbn in D.
    destruct (sm_review_due_at m) as [d|] eqn:E; [|easy]. apply Z.leb_le in D.
    apply list_elem_of_fmap in I as (row & -> & I). apply elem_skill_versions in I as (r & I & P).
    now apply (j_review u t s k m d r row).
  - unfold next_offers in I. apply list_elem_of_bind in I as ([k m] & I & S). unfold strong_skills in S.
    apply elem_of_in_order, elem_filter in S as [S B]. apply elem_mastery_of in S. cbn in B.
    apply list_elem_of_fmap in I as (row & -> & [I T]%elem_filter). apply untried_spec in T.
    apply elem_skill_versions in I as (r & I & L). apply at_levels_spec in L.
    apply (j_next u t s k m r row); try easy. destruct (sm_band m) as [[]|]; auto; easy.
  - unfold unblocking_offers in I. apply list_elem_of_bind in I as (k & I & S). rewrite elem_of_uniq in S. unfold weak_skills in S. rewrite elem_of_in_order in S.
    apply list_elem_of_fmap in S as ([k' m] & -> & [S G]%elem_filter). apply elem_mastery_of in S. cbn in *. qprop.
    destruct (Nat.eqb_spec (descendants k' s) 0) as [|D]; [now apply elem_of_nil in I |].
    apply list_elem_of_fmap in I as (row & -> & I). apply elem_skill_versions in I as (r & I & P).
    now apply (j_unblocking u t s k' m r row).
Qed.

(** Every reason is offered. *)
Lemma offers_complete `{Rounding} `{RowOrder} u t s c : justified u t s c -> c ∈ offers u t s.
Proof.
  intros J. unfold offers. rewrite !elem_of_app. destruct J as [r row topic I1 I2 I3 I4 I5 I6 I7|k p r row S I L|k p anc c row S I1 I2 I3 I4 I5 I6 E|k m d r row M E D I P|k m r row M B I L T|k m r row M G D I P].
  - left. unfold adjacent_offers. destruct (relevant_topics u s) as [|i l] eqn:R; [now apply elem_of_nil in I5 |]. rewrite <- R in *.
    apply list_elem_of_fmap_2, elem_topic_rows. exists r, topic. split_and!; try easy. now apply exclusion_spec.
  - right. left. unfold remediation_offers. apply list_elem_of_bind. exists (k, p). split; [|now apply elem_struggling].
    unfold remedies. apply elem_of_app. left. apply list_elem_of_fmap_2, elem_skill_versions. exists r. split; [easy | now apply at_levels_spec].
  - right. left. unfold remediation_offers. apply list_elem_of_bind. exists (k, p). split; [|now apply elem_struggling].
    unfold remedies. apply elem_of_app. right. apply list_elem_of_bind. exists anc. split; [|apply elem_unmastered; split_and!; [easy | now exists c | easy | easy]].
    unfold ancestor_offers. rewrite E. now left.
  - right. right. left. unfold review_offers. apply list_elem_of_bind. exists (k, m). split.
    + apply list_elem_of_fmap_2, elem_skill_versions. now exists r.
    + unfold due_skills. apply elem_of_in_order, elem_filter. split; [now apply elem_mastery_of |]. cbn. rewrite E. now apply Z.leb_le.
  - do 3 right. left. unfold next_offers. apply list_elem_of_bind. exists (k, m). split.
    + apply list_elem_of_fmap_2, elem_filter. split; [|now apply untried_spec]. apply elem_skill_versions. exists r. split; [easy | now apply at_levels_spec].
    + unfold strong_skills. apply elem_of_in_order, elem_filter. split; [now apply elem_mastery_of |]. cbn. now destruct B as [-> | ->].
  - do 4 right. unfold unblocking_offers. apply list_elem_of_bind. exists k. split.
    + destruct (Nat.eqb_spec (descendants k s) 0); [easy |]. apply list_elem_of_fmap_2, elem_skill_versions. now exists r.
    + apply elem_of_uniq. unfold weak_skills. apply elem_of_in_order. apply list_elem_of_fmap. exists (k, m). split; [easy |].
      apply elem_filter. split; [now apply elem_mastery_of |]. now apply Qltb_lt.
Qed.

(** ** Scores fit their column *)
Section Scores.
Context `{Rounding}.

Lemma numeric_range p s n q : (n * pow10 s < pow10 p)%Z -> - inject_Z n <= q <= inject_Z n -> numeric p s q <> None.
Proof.
  intros L B. unfold numeric. pose proof (pow10_pos s) as P.
  assert (S : - inject_Z (n * pow10 s) <= q * inject_Z (pow10 s) <= inject_Z (n * pow10 s)) by (rewrite inject_Z_mult; nra).
  set (r := if 0 <=? q * inject_Z (pow10 s) then _ else _).
  assert (R : (- (n * pow10 s) <= r <= n * pow10 s)%Z).
  { subst r. destruct (0 <=? q * inject_Z (pow10 s)) eqn:E; qprop.
    - pose proof (Qfloor_half_nonneg _ E). pose proof (Qfloor_half_le (q * inject_Z (pow10 s)) (n * pow10 s) ltac:(lra)). lia.
    - pose proof (Qfloor_half_nonneg (- (q * inject_Z (pow10 s))) ltac:(lra)).
      pose proof (Qfloor_half_le (- (q * inject_Z (pow10 s))) (n * pow10 s) ltac:(lra)). lia. }
  rewrite (proj2 (Z.ltb_lt _ _)) by lia. easy.
Qed.

Definition within (z : Z) (x : Q) : Prop := inject_Z (- z) <= x <= inject_Z z.
Lemma rnd_within z x : (0 <= z <= 2 ^ 53)%Z -> within z x -> within z (rnd x).
Proof. intros Z [A B]. split; [apply rnd_lb | apply rnd_ub]; (lia || easy). Qed.
Lemma unit_within x : 0 <= x <= 1 -> within 1 x.
Proof. intros [A B]. unfold within. change (inject_Z (- (1))) with (- (1)). change (inject_Z 1) with 1. lra. Qed.
Lemma lit_within x : 0 <= x <= 1 -> within 1 (lit x).
Proof. intros U. now apply unit_within, lit_unit. Qed.
Lemma add_within z z' x y : (0 <= z)%Z -> (0 <= z')%Z -> (z + z' <= 2 ^ 53)%Z -> within z x -> within z' y -> within (z + z') (x +! y).
Proof.
  intros Z0 Z1 Z2 A B. apply rnd_within; [lia |]. unfold within in *. rewrite !inject_Z_opp, !inject_Z_plus in *. lra.
Qed.
Lemma sub_within z z' x y : (0 <= z)%Z -> (0 <= z')%Z -> (z + z' <= 2 ^ 53)%Z -> within z x -> within z' y -> within (z + z') (x -! y).
Proof.
  intros Z0 Z1 Z2 A B. apply rnd_within; [lia |]. unfold within in *. rewrite !inject_Z_opp, !inject_Z_plus in *. lra.
Qed.
Lemma scale_within z x y : (0 <= z <= 2 ^ 53)%Z -> within z x -> 0 <= y <= 1 -> within z (x *! y).
Proof.
  intros Z0 A B. apply rnd_within; [lia |]. unfold within in *. rewrite inject_Z_opp in *. split; nra.
Qed.
Lemma within_mono z z' x : (z <= z')%Z -> within z x -> within z' x.
Proof. intros L [A B]. unfold within in *. rewrite Zle_Qle in L. rewrite inject_Z_opp in *. lra. Qed.

(** Relevances and masteries are in range of their columns. *)
Definition columns_ok (s : Store) : Prop :=
  (forall r, r ∈ activity_topics s -> within 10 (at_relevance r)) /\
  (forall k m, mastery s !! k = Some m -> within 10 (sm_p_mastery m)).

Lemma adjacent_within q : within 10 q -> within 11 (adjacent_score q).
Proof.
  intros W. unfold adjacent_score. apply (add_within 1 10); try lia; [apply lit_within; lra |].
  apply scale_within; [lia | apply rnd_within; [lia | easy] | apply lit_unit; lra].
Qed.
Lemma own_within p : within 10 p -> within 12 (own_score p).
Proof.
  intros W. unfold own_score. apply (add_within 1 11); try lia; [apply lit_within; lra |].
  apply (sub_within 1 10); try lia; [apply lit_within; lra |]. apply rnd_within; [lia | easy].
Qed.
Lemma unblocking_within n : within 1 (unblocking_score n).
Proof.
  unfold unblocking_score.
  assert (L : 0 <= lit (95 # 100) <= 1) by (apply lit_unit; lra). apply unit_within. split; [|apply Qle_trans with (lit (95 # 100)); [apply jmin_le_r | apply L]].
  apply jmin_glb; [|apply L]. apply rnd_nonneg. assert (0 <= lit (6 # 10)) by (apply lit_unit; lra).
  assert (0 <= inject_Z (Z.of_nat n) *! lit (5 # 100)); [|lra]. apply rnd_nonneg. apply Qmult_le_0_compat.
  - change 0 with (inject_Z 0). rewrite <- Zle_Qle. lia.
  - apply lit_unit. lra.
Qed.

Lemma justified_within `{RowOrder} u t s j : columns_ok s -> justified u t s j -> within 12 (rc_score j).
Proof.
  intros [Cr Cm] J. destruct J as [| k p r row S | | | | ]; cbn [rc_score adjacent_candidate own_candidate ancestor_candidate review_candidate next_candidate unblocking_candidate candidate].
  - apply (within_mono 11); [lia |]. apply adjacent_within. now apply Cr.
  - apply own_within. destruct S as (i & a & x & m & S). destruct S as (_ & _ & _ & _ & _ & _ & _ & _ & M & <- & _). exact (Cm _ _ M).
  - apply (within_mono 1); [lia | apply lit_within; lra].
  - apply (within_mono 1); [lia | apply lit_within; lra].
  - apply (within_mono 1); [lia | apply lit_within; lra].
  - apply (within_mono 1); [lia | apply unblocking_within].
Qed.

Lemma weight_unit c : 0 <= SOURCE_WEIGHT c <= 1.
Proof. destruct c; cbn; try (apply lit_unit; lra). lra. Qed.

(** The rows of weighted recommendations can always be stored. *)
Definition stored (u : Id) (clock : Z) (r : Recommendation) (row : RecommendationRow) : Prop :=
  rec_user_id row = u /\ rec_activity_id row = rc_activityId r /\ numeric 6 4 (rc_score r) = Some (rec_score row) /\
  rec_reason_code row = reason_text (rc_reasonCode r) /\ rec_reason_params row = rc_reasonParams r /\ rec_generated_at row = clock.
Lemma rows_fit u clock l : (forall r, r ∈ l -> within 12 (rc_score r)) ->
  exists rows, map_or_throw (recommendation_row u clock) l = inr rows /\ Forall2 (stored u clock) l rows.
Proof.
  induction l as [|r l IH]; intros W; [exists []; now split; [|constructor] |].
  destruct IH as (rows & E & F); [intros x X; apply W; now right |].
  assert (N : numeric 6 4 (rc_score r) <> None).
  { apply (numeric_range 6 4 12); [easy |]. specialize (W r ltac:(now left)). unfold within in W. now rewrite inject_Z_opp in W. }
  destruct (numeric 6 4 (rc_score r)) as [v|] eqn:E1; [|easy].
  exists (mkRecommendationRow u (rc_activityId r) v (rc_reasonParams r) (reason_text (rc_reasonCode r)) (rc_reasonParams r) "rules-v2" clock :: rows).
  cbn. unfold recommendation_row at 1, to_numeric at 1. rewrite E1, E. split; [easy |]. now constructor.
Qed.
End Scores.

(** ** The filter *)
Section Filter.
Context `{Rounding} `{RowOrder}.

Definition eligible_b (q : bool) (u v : Id) (s : Store) : bool :=
  match versions s !! v with
  | None => false
  | Some version => Nat.eqb (List.length (reasons_of q u v version s)) 0
  end.
Lemma eligible_b_spec q u v s : eligible_b q u v s = true <-> eligible_now q u v s.
Proof.
  unfold eligible_b. destruct (versions s !! v) as [version|] eqn:V.
  - rewrite Nat.eqb_eq, length_zero_iff_nil. now apply reasons_nil.
  - split; [easy |]. intros (version & V' & _). congruence.
Qed.

Lemma run_check_eligible q u v s : exists r, run (check q u v) s = (inr r, s) /\ eligible r = eligible_b q u v s.
Proof. rewrite run_check. unfold eligible_b. destruct (versions s !! v); eexists; split; reflexivity. Qed.

Lemma run_keep_eligible q u cs s : run (keep_eligible q u cs) s = (inr (List.filter (fun c => eligible_b q u (rc_activityVersionId c) s) cs), s).
Proof.
  unfold keep_eligible. rewrite run_bind.
  assert (E : run (for_map cs (fun c => let* result := check q u (rc_activityVersionId c) in Ret (if eligible result then [c] else []))) s =
    (inr ((fun c => if eligible_b q u (rc_activityVersionId c) s then [c] else []) <$> cs), s)).
  { induction cs as [|c cs IH]; [easy |]. cbn [for_map].
    destruct (run_check_eligible q u (rc_activityVersionId c) s) as (r & R & El).
    rewrite run_bind, run_bind, R, run_ret, El, run_bind, IH. reflexivity. }
  rewrite E, run_ret. do 2 f_equal. clear E. induction cs as [|c cs IH]; [easy |]. cbn.
  destruct (eligible_b q u (rc_activityVersionId c) s); cbn; now rewrite <- IH.
Qed.
End Filter.

(** ** The recommendations *)
Section Recommend.
Context `{Rounding} `{RowOrder}.
Variables (q : bool) (u t : Id).

(** The best offer of every eligible version, weighted and ranked. *)
Definition ranked (s : Store) : list Recommendation :=
  rank (weigh <$> List.filter (fun c => eligible_b q u (rc_activityVersionId c) s) (offer_all [] (offers u t s))).

Lemma run_recommend limit s :
  run (recommend q u t limit) s =
  match slice_to limit (ranked s) with
  | [] => (inr [], s)
  | top =>
      match map_or_throw (recommendation_row u (now s)) top with
      | inl e => (inl e, s)
      | inr rows => (inr top, s <| recommendations ::= fun l => l ++ rows |>)
      end
  end.
Proof.
  unfold recommend. rewrite run_bind, run_adjacent, run_bind, run_remediation, run_bind, run_review, run_bind, run_next,
    run_bind, run_unblocking, run_bind, run_keep_eligible.
  rewrite <- !offer_all_app. fold (offers u t s). fold (ranked s).
  destruct (slice_to limit (ranked s)) as [|r l]; [easy |]. rewrite run_bind, run_act. now destruct (map_or_throw _ _).
Qed.

Lemma elem_ranked s r : r ∈ ranked s <->
  exists c, r = weigh c /\ c ∈ offer_all [] (offers u t s) /\ eligible_now q u (rc_activityVersionId c) s.
Proof.
  unfold ranked. rewrite rank_perm, list_elem_of_fmap. setoid_rewrite elem_filter. setoid_rewrite eligible_b_spec. split.
  - intros (c & -> & I & E). now exists c.
  - intros (c & -> & I & E). now exists c.
Qed.

Lemma keys_weigh l : keys (weigh <$> l) = keys l.
Proof. unfold keys. now rewrite <- list_fmap_compose. Qed.
Lemma keys_filter (f : Recommendation -> bool) l : NoDup (keys l) -> NoDup (keys (List.filter f l)).
Proof.
  unfold keys. induction l as [|c l IH]; cbn; [easy |]. rewrite NoDup_cons. intros [N D].
  destruct (f c); cbn; [|auto]. apply NoDup_cons. split; [|auto].
  intros (x & E & [I _]%elem_filter)%list_elem_of_fmap. apply N. rewrite E. now apply list_elem_of_fmap_2.
Qed.
Lemma ranked_keys s : NoDup (keys (ranked s)).
Proof.
  unfold ranked, keys at 1. rewrite rank_perm. fold (keys (weigh <$> List.filter (fun c => eligible_b q u (rc_activityVersionId c) s) (offer_all [] (offers u t s)))).
  rewrite keys_weigh. apply keys_filter, offer_all_best.
Qed.

(** The candidate kept for a version is the offer with the highest raw score. *)
Definition kept (s : Store) (j : Recommendation) : Prop :=
  justified u t s j /\
  forall j', justified u t s j' -> rc_activityVersionId j' = rc_activityVersionId j -> rc_score j' <= rc_score j.

Lemma kept_spec s c : activities s !! 0%nat = None -> c ∈ offer_all [] (offers u t s) -> kept s c.
Proof.
  intros Z I. pose proof (offer_all_best (offers u t s)) as [N O B]. split; [now apply offers_sound, O |].
  intros j' J E. apply offers_complete in J. destruct (B j' J) as (c' & I' & E' & L).
  rewrite (key_unique _ c c' N I I') by congruence. exact L.
Qed.
Lemma kept_exists s j : activities s !! 0%nat = None -> justified u t s j ->
  exists c, c ∈ offer_all [] (offers u t s) /\ rc_activityVersionId c = rc_activityVersionId j.
Proof.
  intros Z J. pose proof (offer_all_best (offers u t s)) as [N O B]. apply offers_complete in J.
  destruct (B j J) as (c & I & E & _). now exists c.
Qed.

Lemma weigh_within c : within 12 (rc_score c) -> within 12 (rc_score (weigh c)).
Proof. intros W. cbn. apply scale_within; [lia | exact W | apply weight_unit]. Qed.
End Recommend.

(** C9: A recommendation request answers, writes one row per recommendation and
    nothing else.  The answer holds at most [limit] versions, each once, in
    descending order of weighted score; each is eligible for the learner and
    carries a reason that holds in the database, the one with the highest
    urgency among the reasons for that version; and no eligible version with a
    reason is left out unless the answer is full of better ones. *)
Theorem recommend_spec `{Rounding} `{RowOrder} q u t limit s :
  columns_ok s -> activities s !! 0%nat = None -> (0 <= limit)%Z ->
  exists top rows,
    run (recommend q u t limit) s = (inr top, s <| recommendations ::= fun l => l ++ rows |>) /\
    Forall2 (stored u (now s)) top rows /\
    (Z.of_nat (List.length top) <= limit)%Z /\ StronglySorted better top /\ NoDup (keys top) /\
    (forall r, r ∈ top -> eligible_now q u (rc_activityVersionId r) s /\ exists j, r = weigh j /\ kept u t s j) /\
    (forall j, justified u t s j -> eligible_now q u (rc_activityVersionId j) s ->
       rc_activityVersionId j ∈ keys top \/
       (Z.of_nat (List.length top) = limit /\
        exists k, kept u t s k /\ rc_activityVersionId k = rc_activityVersionId j /\ forall r, r ∈ top -> better r (weigh k))).
Proof.
  intros C Z L. set (rk := ranked q u t s). set (top := slice_to limit rk).
  assert (Tk : top = take (Z.to_nat limit) rk) by (unfold top, slice_to; destruct (Z.leb_spec 0 limit); [easy | lia]).
  pose proof (take_drop (Z.to_nat limit) rk) as Sp. rewrite <- Tk in Sp. set (rest := drop (Z.to_nat limit) rk) in *.
  assert (Srt : StronglySorted better (top ++ rest)) by (rewrite Sp; apply rank_sorted).
  apply ranked_split in Srt as [S1 S2].
  assert (In : forall r, r ∈ top -> r ∈ rk) by (intros r I; rewrite <- Sp; apply elem_of_app; now left).
  assert (W : forall r, r ∈ top -> within 12 (rc_score r)).
  { intros r I. apply In, elem_ranked in I as (c & -> & I & _). apply weigh_within.
    apply (justified_within u t s c C). now apply (kept_spec u t s c Z). }
  destruct (rows_fit u (now s) top W) as (rows & R & F2). exists top, rows. split_and!.
  - rewrite run_recommend. fold rk. fold top. clearbody top. destruct top as [|r l]; [|cbv zeta; now rewrite R].
    inversion F2; subst. do 2 f_equal. destruct s; cbn. now rewrite app_nil_r.
  - exact F2.
  - rewrite Tk, length_take. lia.
  - exact S1.
  - pose proof (ranked_keys q u t s) as N. fold rk in N. rewrite <- Sp in N. unfold keys in *. rewrite fmap_app in N.
    now apply NoDup_app in N as (N & _).
  - intros r I. apply In, elem_ranked in I as (c & -> & I & E). split; [exact E |]. exists c. split; [easy | now apply kept_spec].
  - intros j J E. destruct (kept_exists u t s j Z J) as (c & I & Ec).
    assert (Rk : weigh c ∈ top ++ rest) by (rewrite Sp; apply elem_ranked; exists c; now rewrite Ec).
    apply elem_of_app in Rk as [T|T].
    + left. rewrite <- Ec. change (rc_activityVersionId c) with (rc_activityVersionId (weigh c)). now apply list_elem_of_fmap_2.
    + right. split.
      * rewrite Tk, length_take. assert (rest <> []) by (intros X; rewrite X in T; now apply elem_of_nil in T).
        unfold rest in *. destruct (le_lt_dec (List.length rk) (Z.to_nat limit)) as [G|G]; [now rewrite drop_ge in H1 | lia].
      * exists c. split_and!; [now apply kept_spec | exact Ec |]. intros r Ir. now apply S2.
Qed.

(** While a learner holds an environment, every version is ineligible for
    them, so no activity at all is recommended and nothing is recorded. *)
Theorem active_lab_hides_all `{Rounding} `{RowOrder} u t limit s id a :
  attempts s !! id = Some a -> user_id a = u -> status a ∈ QUOTA_STATUSES ->
  run (recommend false u t limit) s = (inr [], s).
Proof.
  intros L U Q. rewrite run_recommend. assert (E : ranked false u t s = []); [|rewrite E; unfold slice_to; destruct (0 <=? limit)%Z; now rewrite take_nil].
  destruct (ranked false u t s) as [|r l] eqn:R; [easy |]. exfalso.
  assert (I : r ∈ ranked false u t s) by (rewrite R; now left).
  apply elem_ranked in I as (c & _ & _ & _ & _ & _ & _ & _ & [?|F]); [easy |]. now apply (F id a).
Qed.

(** ** A small tenant *)
Module RecommendationSample.
Definition no_spec : ActivitySpec := mkActivitySpec None None None None None None None None None None.
Definition version_of (activity : Id) (level : DifficultyLevel) : ActivityVersion :=
  mkActivityVersion activity 1 V_PUBLISHED no_spec None None (Some level) None None None None None.
Definition learner : Id := 7.
(** One lab (version 4 of activity 3, skill 1) under topic 5. *)
Definition one_lab : Store :=
  empty_store <| now := 1000000%Z |>
    <| activities := {[ 3%nat := mkActivity 1 "crash-loop" GUIDED_LAB ]} |>
    <| versions := {[ 4%nat := version_of 3 L1 ]} |>
    <| activity_skills := [mkActivitySkill 4 1 1 true None] |>
    <| topics := {[ 5%nat := mkTopic (Some 1%nat) "Pods" 1 None ]} |>
    <| activity_topics := [mkActivityTopic 4 5 1] |>.
(** The learner failed another lab of the topic, whose skill 2 requires skill 1. *)
Definition failed : Attempt :=
  mkAttempt 1 7 8 9 GUIDED_LAB FAILED None 0 [] None None 900000 None None None None 900000 0 0 1 None None.
Definition stuck : Store :=
  one_lab <| activities ::= <[8%nat := mkActivity 1 "rollout" GUIDED_LAB]> |>
    <| versions ::= <[9%nat := version_of 8 L3]> |>
    <| activity_skills ::= fun l => l ++ [mkActivitySkill 9 2 1 true None] |>
    <| activity_topics ::= fun l => l ++ [mkActivityTopic 9 5 1] |>
    <| attempts := {[ 1%nat := failed ]} |>
    <| mastery := {[ (7, 2)%nat := mkSkillMastery (2 # 10) None 1 None None (Some Novice) ]} |>
    <| skill_closure := [mkSkillClosureRow 1 2 1 [REQUIRES]] |>.
(** Five more topics, of another tenant's courses. *)
Definition crowded : Store :=
  one_lab <| topics := list_to_map ((fun i => (i, mkTopic (Some 1%nat) "Other" 1 None)) <$> [2; 4; 6; 8; 10]%nat) ∪ topics one_lab |>.
#[export] Existing Instance binary64.
#[export] Instance order : RowOrder := insertion_order.
End RecommendationSample.
Import RecommendationSample.

Lemma recommend_spec_witness :
  exists top rows, run (recommend false learner 1 8) one_lab = (inr top, one_lab <| recommendations ::= fun l => l ++ rows |>) /\
    keys top = [4%nat] /\ List.length rows = 1%nat.
Proof.
  destruct (recommend_spec false learner 1 8 one_lab) as (top & rows & R & F & _).
  - split; [intros r I; apply list_elem_of_singleton in I as ->; split; now vm_compute |].
    intros k m M. unfold one_lab in M. cbn in M. now rewrite lookup_empty in M.
  - reflexivity.
  - lia.
  - exists top, rows. split; [exact R |]. apply Forall2_length in F.
    assert (E : inr (keys top) = sum_map id keys (fst (run (recommend false learner 1 8) one_lab))) by now rewrite R.
    vm_compute in E. injection E as E. split; [exact E |]. rewrite <- F. apply (f_equal List.length) in E. unfold keys in E.
    change (Datatypes.length (rc_activityVersionId <$> top) = 1%nat) in E. now rewrite length_fmap in E.
Defined.

Lemma active_lab_hides_all_witness :
  let busy := one_lab <| attempts := {[ 1%nat := failed <| status := IN_PROGRESS |> ]} |> in
  run (recommend false learner 1 8) one_lab <> (inr [], one_lab) /\ run (recommend false learner 1 8) busy = (inr [], busy).
Proof.
  split; [vm_compute; discriminate |].
  apply (active_lab_hides_all learner 1 8 _ 1%nat (failed <| status := IN_PROGRESS |>)); [reflexivity | reflexivity |].
  apply includes_spec. reflexivity.
Defined.

(** The reason kept for a version is the one with the highest score before
    the sources are weighted, not the strongest after: a learner stuck on a
    skill is told that its prerequisite's lab is on the same topic (0.8, weighs
    0.64), although that it repairs the prerequisite (0.65) weighs more. *)
Theorem weaker_reason_kept :
  exists r j, fst (run (recommend false learner 1 8) stuck) = inr [r] /\ rc_reasonCode r = CURRICULUM_ADJACENT /\
    justified learner 1 stuck j /\ rc_reasonCode j = REMEDIATION /\
    rc_activityVersionId j = rc_activityVersionId r /\ rc_score r < rc_score (weigh j).
Proof.
  destruct (easiest 1 1 stuck) as [row|] eqn:E; [|vm_compute in E; discriminate].
  eexists _, (ancestor_candidate 2 (1%nat, None) row). split; [vm_compute; reflexivity |]. split; [reflexivity |].
  split; [apply offers_sound; [reflexivity |] |].
  - vm_compute in E. injection E as <-. vm_compute. right. left.
  - vm_compute in E. injection E as <-. now vm_compute.
Qed.

(** A learner without attempts is shown activities of five topics picked from
    all courses: when those are another tenant's, nothing is recommended although
    a lab they may start is published. *)
Theorem cold_start_starved :
  fst (run (recommend false learner 1 8) crowded) = inr [] /\
  exists r, r ∈ published_rows 1 crowded /\ eligible_now false learner (vw_id r) crowded.
Proof.
  split; [vm_compute; reflexivity |].
  eexists (mkVersionRow 4 (version_of 3 L1) (mkActivity 1 "crash-loop" GUIDED_LAB)). split; [vm_compute; left |].
  apply eligible_b_spec. reflexivity.
Qed.
