(* ===== verification/Experiment.v ===== *)
(** * Experiments

    experiment/experiment.service.ts over the tables admin.experiment and
    admin.experiment_assignment: sticky assignment of learners to variants.
    The first four bytes of the digest are a parameter ([Hash] gives them); the
    metrics of the variants (north-star.service.ts) are in Reporting.v. *)
From S2P Require Import Prelude RegExp JsNum Binary64 Effects Schema Hash.
Open Scope Q_scope.
Open Scope js_scope.

Inductive ExperimentStatus := X_DRAFT | RUNNING | CONCLUDED.
#[export] Instance experiment_status_eq_dec : EqDecision ExperimentStatus.
Proof. solve_decision. Defined.

Record Variant := mkVariant { va_name : string; va_weight : Q }.
Record ExperimentRow := mkExperimentRow { ex_variants : list Variant; ex_status : ExperimentStatus }.

(** The two tables; an assignment is keyed by (experiment_key, user_id). *)
Record Experiments := mkExperiments {
  experiments : gmap string ExperimentRow; assignments : gmap (string * Id) string }.
#[export] Instance eta_Experiments : Eta Experiments := fun r => mkExperiments (experiments r) (assignments r).

(** [createHash('sha256').update(key|userId).digest().readUInt32BE(0)]. *)
Class Digest := {
  digest_u32 : string -> Id -> Z;
  digest_range : forall key userId, (0 <= digest_u32 key userId < 2 ^ 32)%Z
}.

(** Node's hash, given the text of a uuid. *)
Definition node_digest (uuid_text : Id -> string) : Digest := {|
  digest_u32 := fun key userId => sha256_u32 (key ++ "|" ++ uuid_text userId)%string;
  digest_range := fun key userId => sha256_u32_range _ |}.

Section ExperimentService.
Context `{Rounding} `{Digest}.

Definition total_weight (variants : list Variant) : Q := sum_by (fun v => jmax 0 (va_weight v)) variants.

(** The loop: the first variant whose cumulative share exceeds [n]. *)
Fixpoint pick (n total cursor : Q) (variants : list Variant) : option string :=
  match variants with
  | [] => None
  | v :: rest =>
      let cursor := cursor +! jmax 0 (va_weight v) /! total in
      if n <? cursor then Some (va_name v) else pick n total cursor rest
  end.

Definition hash_unit (key : string) (userId : Id) : Q :=
  inject_Z (digest_u32 key userId) /! inject_Z (2 ^ 32).

Definition bucket (key : string) (userId : Id) (variants : list Variant) : string :=
  match variants with
  | [] => "control"%string
  | first :: _ =>
      let total := total_weight variants in
      if total <=? 0 then va_name first
      else default (va_name (List.last variants first)) (pick (hash_unit key userId) total 0 variants)
  end.

Definition assign (experimentKey : string) (userId : Id) : prog Experiments string :=
  let* existing := select (fun s => assignments s !! (experimentKey, userId)) in
  match existing with
  | Some variant => Ret variant
  | None =>
      let* exp := select (fun s => experiments s !! experimentKey) in
      match exp with
      | None => Ret "control"%string
      | Some exp =>
          if negb (bool_decide (ex_status exp = RUNNING)) then Ret "control"%string
          else
            let variant := bucket experimentKey userId (ex_variants exp) in
            execute (fun s => s <| assignments ::= fun m =>
              match m !! (experimentKey, userId) with Some _ => m | None => <[(experimentKey, userId) := variant]> m end |>) ;;
            let* row := select (fun s => assignments s !! (experimentKey, userId)) in
            Ret (default variant row)
      end
  end.

(** How many learners of an experiment have a variant. *)
Definition enrolment (experimentKey : string) (variant : string) (s : Experiments) : nat :=
  List.length (List.filter (fun kv => String.eqb kv.1.1 experimentKey && String.eqb kv.2 variant) (map_to_list (assignments s))).
End ExperimentService.

(** ** Sticky assignment *)

(** Any change of the tables that deletes no assignment: requests of other
    learners, a new split, the end of the experiment. *)
Definition sticky (s s' : Experiments) : Prop := assignments s ⊆ assignments s'.
#[export] Instance sticky_preorder : PreOrder sticky.
Proof. unfold sticky. split; [now intros s | intros x y z A B; exact (transitivity A B)]. Qed.

Section AssignLaws.
Context `{Rounding} `{Digest}.

Definition insert_once (k : string * Id) (variant : string) (m : gmap (string * Id) string) : gmap (string * Id) string :=
  match m !! k with Some _ => m | None => <[k := variant]> m end.
Lemma insert_once_grows k v m : m ⊆ insert_once k v m.
Proof. unfold insert_once. destruct (m !! k) eqn:L; [easy |]. now apply insert_subseteq. Qed.
Lemma insert_once_has k v m : exists w, insert_once k v m !! k = Some w.
Proof. unfold insert_once. destruct (m !! k) as [w|] eqn:L; [now exists w |]. exists v. apply lookup_insert_eq. Qed.

(** What an answer says about the table it leaves: the row that is there. *)
Definition answered (key : string) (u : Id) (v : string) (s : Experiments) : Prop :=
  assignments s !! (key, u) = Some v \/ v = "control"%string.

Lemma assign_guaranteed key u s :
  guaranteed sticky (assign key u) (fun v s' => answered key u v s') s.
Proof.
  unfold assign. apply guaranteed_reads; [apply _ |]. intros s1 _.
  destruct (assignments s1 !! (key, u)) as [v|] eqn:L.
  { intros s2 O. left. exact (lookup_weaken _ _ _ _ L O). }
  apply guaranteed_reads; [apply _ |]. intros s2 _. destruct (experiments s2 !! key) as [e|]; [|now intros s3 _; right].
  destruct (negb _); [now intros s3 _; right |]. intros s3 O3. cbn. split; [apply insert_once_grows |].
  set (m3 := insert_once (key, u) (bucket key u (ex_variants e)) (assignments s3)).
  destruct (insert_once_has (key, u) (bucket key u (ex_variants e)) (assignments s3)) as [w W]. fold m3 in W.
  intros s4 O4. split; [reflexivity |]. intros s5 O5.
  assert (W4 : assignments s4 !! (key, u) = Some w) by exact (lookup_weaken _ _ _ _ W O4).
  rewrite W4. left. exact (lookup_weaken _ _ _ _ W4 O5).
Qed.
End AssignLaws.

(** The requests that touch the tables: assignments, and an administrator's
    rewriting of an experiment (its split, its status). *)
Inductive experiment_request `{Rounding} `{Digest} : prog Experiments string -> Prop :=
  | req_assign key u : experiment_request (assign key u)
  | req_configure key row : experiment_request (execute (fun s => s <| experiments ::= <[key := row]> |>) ;; Ret EmptyString).

(** However assignments and reconfigurations interleave, an assignment
    once stored never changes: a learner who has a variant is answered that
    variant for ever, through every change of the split and after the end of
    the experiment. *)
Theorem assignment_sticky `{Rounding} `{Digest} ps s ps' s' key u v :
  (forall p, p ∈ ps -> experiment_request p) -> rtc (pstep experiment_request) (ps, s) (ps', s') ->
  assignments s !! (key, u) = Some v ->
  assignments s' !! (key, u) = Some v /\ run (assign key u) s' = (inr v, s').
Proof.
  intros P T L. assert (G : forall p, experiment_request p -> forall s, guaranteed sticky p (fun _ _ => True) s).
  { intros p R t. destruct R as [k w|k row].
    - eapply (guaranteed_mono sticky); [apply assign_guaranteed | easy].
    - intros t1 _. cbn. split; [unfold sticky; reflexivity | easy]. }
  destruct (pool_guarantee sticky experiment_request (fun _ _ => True) ps s ps' s' G) as [O _]; [auto | exact T |].
  assert (L' : assignments s' !! (key, u) = Some v) by exact (lookup_weaken _ _ _ _ L O).
  split; [exact L' |]. unfold assign. now rewrite run_bind, run_select, L'.
Qed.

(** The same without reconfigurations. *)
Definition steady (s s' : Experiments) : Prop := sticky s s' /\ experiments s' = experiments s.
#[export] Instance steady_preorder : PreOrder steady.
Proof.
  split; [intros s; now split |]. intros x y z [A1 A2] [B1 B2]. split; [exact (transitivity A1 B1) | congruence].
Qed.

Lemma assign_steady `{Rounding} `{Digest} key u e s : experiments s !! key = Some e -> ex_status e = RUNNING ->
  guaranteed steady (assign key u) (fun v s' => assignments s' !! (key, u) = Some v) s.
Proof.
  intros E R. unfold assign. apply guaranteed_reads; [apply _ |]. intros s1 O1.
  destruct (assignments s1 !! (key, u)) as [v|] eqn:L.
  { intros s2 [O _]. exact (lookup_weaken _ _ _ _ L O). }
  apply guaranteed_reads; [apply _ |]. intros s2 O2. pose proof (transitivity O1 O2) as [_ X]. rewrite X, E, bool_decide_true by easy.
  intros s3 O3. cbn. split; [split; [apply insert_once_grows | easy] |].
  destruct (insert_once_has (key, u) (bucket key u (ex_variants e)) (assignments s3)) as [w W].
  intros s4 [O4 _]. split; [reflexivity |]. intros s5 [O5 _].
  assert (W4 : assignments s4 !! (key, u) = Some w) by exact (lookup_weaken _ _ _ _ W O4).
  rewrite W4. exact (lookup_weaken _ _ _ _ W4 O5).
Qed.

(** However many requests of learners of a running experiment interleave,
    all answers to one learner agree, and name the variant that is stored:
    of two requests that arrive together the loser of the insert reads the
    winner's row back. *)
Theorem concurrent_assign_agrees `{Rounding} `{Digest} key e us s ps' s' i j u v w :
  experiments s !! key = Some e -> ex_status e = RUNNING ->
  rtc (pstep (fun _ => False)) (assign key <$> us, s) (ps', s') ->
  us !! i = Some u -> us !! j = Some u -> ps' !! i = Some (Ret v) -> ps' !! j = Some (Ret w) ->
  v = w /\ assignments s' !! (key, u) = Some v.
Proof.
  intros E R T Ui Uj Vi Wj.
  pose (inv := fun (c : list (prog Experiments string) * Experiments) =>
    steady s c.2 /\ Forall2 (fun p u => guaranteed steady p (fun v s' => assignments s' !! (key, u) = Some v) c.2) c.1 us).
  assert (I0 : inv (assign key <$> us, s)).
  { split; [reflexivity |]. cbn. clear -E R. induction us as [|u us IH]; constructor; [now apply (assign_steady key u e) | exact IH]. }
  assert (I1 : inv (ps', s')).
  { revert I0. generalize (assign key <$> us, s), (ps', s'), T. clear -E. intros c c' T. induction T as [|c c2 c3 St _ IH]; [easy |].
    intros I. apply IH. destruct St as [ps t k p p' t' Hk Ht|]; [|easy]. destruct I as [O F]. cbn in *.
    destruct (Forall2_lookup_l _ _ _ _ _ F Hk) as (x & Hx & G). pose proof (guaranteed_step _ _ _ _ _ _ G Ht) as [S G'].
    split; [exact (transitivity O S) |]. cbn. rewrite <- (list_insert_id us k x Hx). apply Forall2_insert; [|exact G'].
    eapply Forall2_impl; [exact F |]. intros p0 u0 G0. now apply (guaranteed_env _ _ _ t). }
  destruct I1 as [_ F]. cbn in F.
  assert (A : forall n x, ps' !! n = Some (Ret x) -> us !! n = Some u -> assignments s' !! (key, u) = Some x).
  { intros n x Hp Hu. exact (Forall2_lookup_lr _ _ _ _ _ _ F Hp Hu s' ltac:(reflexivity)). }
  pose proof (A i v Vi Ui) as A1. pose proof (A j w Wj Uj) as A2. split; [congruence | exact A1].
Qed.

(** The comment promises "control" for a concluded experiment; a learner who
    was assigned before keeps the variant. *)
Theorem concluded_keeps_variant `{Rounding} `{Digest} key u v variants s :
  assignments s !! (key, u) = Some v -> experiments s !! key = Some (mkExperimentRow variants CONCLUDED) ->
  run (assign key u) s = (inr v, s).
Proof. intros L _. unfold assign. now rewrite run_bind, run_select, L. Qed.

(** ** The split, in exact arithmetic *)
Section Split.
Context `{Digest}.
#[local] Existing Instance JsNum.exact.

Fixpoint weight_sum (l : list Variant) : Q :=
  match l with [] => 0 | v :: l => jmax 0 (va_weight v) + weight_sum l end.

Lemma weight_sum_app l l' : weight_sum (l ++ l') == weight_sum l + weight_sum l'.
Proof. induction l as [|v l IH]; cbn; [ring |]. rewrite IH. ring. Qed.

Lemma sum_by_exact l acc : fold_left (fun acc v => acc +! jmax 0 (va_weight v)) l acc == acc + weight_sum l.
Proof.
  revert acc. induction l as [|v l IH]; intros acc; cbn [fold_left weight_sum]; [ring |].
  rewrite IH. change (acc +! jmax 0 (va_weight v)) with (acc + jmax 0 (va_weight v)). ring.
Qed.

Lemma pick_spec n total l : 0 < total -> forall c done, c == weight_sum done / total -> c <= n ->
  n < weight_sum (done ++ l) / total ->
  exists before v after, l = before ++ v :: after /\ pick n total c l = Some (va_name v) /\
    weight_sum (done ++ before) / total <= n < weight_sum (done ++ before ++ [v]) / total.
Proof.
  intros T. induction l as [|v l IH]; intros c done E C U.
  - rewrite app_nil_r in U. rewrite E in C. lra.
  - cbn [pick]. set (c' := c +! jmax 0 (va_weight v) /! total).
    assert (E' : c' == weight_sum (done ++ [v]) / total).
    { unfold c'. change (c +! jmax 0 (va_weight v) /! total) with (c + jmax 0 (va_weight v) / total).
      rewrite E, weight_sum_app. cbn. field. lra. }
    destruct (n <? c') eqn:L; qprop.
    + exists [], v, l. split_and!; [easy | easy | rewrite app_nil_r; now rewrite <- E | cbn; now rewrite <- E'].
    + destruct (IH c' (done ++ [v]) E' L) as (before & w & after & -> & P & B); [now rewrite <- app_assoc |].
      exists (v :: before), w, after. split_and!; [easy | exact P | |]; rewrite <- ?app_assoc in B; cbn in B |- *; apply B.
Qed.
End Split.

(** In exact arithmetic the split is honoured: a learner whose hash lies at
    fraction [n] of the range gets the variant whose stretch of the cumulative
    weights contains [n], so every variant gets its share of the hash values
    and one of weight zero gets none. *)
Theorem bucket_split `{Digest} key u variants : 0 < weight_sum variants ->
  let n := inject_Z (digest_u32 key u) / inject_Z (2 ^ 32) in
  exists before v after, variants = before ++ v :: after /\
    @bucket JsNum.exact _ key u variants = va_name v /\ 0 < va_weight v /\
    weight_sum before / weight_sum variants <= n < weight_sum (before ++ [v]) / weight_sum variants.
Proof.
  intros T n. pose proof (digest_range key u) as [D0 D1].
  assert (P32 : 0 < inject_Z (2 ^ 32)) by easy.
  assert (N : 0 <= n < 1).
  { unfold n. split; [apply Qle_shift_div_l; [easy |]; rewrite Qmult_0_l; change 0 with (inject_Z 0); now rewrite <- Zle_Qle |].
    apply Qlt_shift_div_r; [easy |]. rewrite Qmult_1_l. now rewrite <- Zlt_Qlt. }
  set (total := @total_weight JsNum.exact variants).
  assert (Et : total == weight_sum variants) by (unfold total, total_weight, sum_by; rewrite sum_by_exact; ring).
  destruct (pick_spec n total variants ltac:(lra) 0 []) as (before & v & after & E & Pk & B).
  - cbn. field. lra.
  - apply N.
  - cbn. assert (X : weight_sum variants / total == 1) by (rewrite Et; field; lra). rewrite X. apply N.
  - exists before, v, after. cbn in B. split; [exact E |]. split; [|split].
    + assert (Eb : @bucket JsNum.exact _ key u variants = if total <=? 0 then va_name (hd (mkVariant "" 0) variants) else
        default (va_name (List.last variants (hd (mkVariant "" 0) variants))) (@pick JsNum.exact n total 0 variants)).
      { unfold total. clear -T. destruct variants as [|first rest]; [cbn in T; lra | reflexivity]. }
      rewrite Eb, Pk. destruct (total <=? 0) eqn:L; qprop; [lra | easy].
    + destruct B as [B1 B2]. destruct (Qlt_le_dec 0 (va_weight v)) as [Pos|Neg]; [exact Pos |]. exfalso.
      assert (X : weight_sum (before ++ [v]) == weight_sum before).
      { rewrite weight_sum_app. cbn. assert (jmax 0 (va_weight v) == 0) by (apply Qle_antisym; qminmax; lra). lra. }
      rewrite X in B2. lra.
    + rewrite <- Et. exact B.
Qed.

(** ** A running experiment *)
Module ExperimentSample.
Definition digest : Digest.
Proof. refine {| digest_u32 _ u := ((Z.of_nat u * 1000003) mod 2 ^ 32)%Z |}. intros. apply Z.mod_pos_bound. lia. Defined.
Definition halves : list Variant := [mkVariant "control" 50; mkVariant "v2" 50].
Definition start : Experiments := mkExperiments {[ "ranker"%string := mkExperimentRow halves RUNNING ]} ∅.
Definition twice : list (prog Experiments string) := @assign binary64 digest "ranker" <$> [4000; 4000]%nat.
Definition turns : list nat := [0; 1; 0; 1; 0; 1; 1; 0]%nat.
End ExperimentSample.
Import ExperimentSample.

Lemma bucket_split_witness :
  exists v, @bucket JsNum.exact digest "ranker" 4000 halves = va_name v /\ 0 < va_weight v /\ v ∈ halves.
Proof.
  destruct (@bucket_split digest "ranker" 4000 halves ltac:(now vm_compute)) as (before & v & after & E & B & W & _).
  exists v. split_and!; [exact B | exact W | rewrite E; apply elem_of_app; right; left].
Defined.

Lemma concurrent_assign_agrees_witness :
  let c := schedule turns twice start in
  exists v, c.1 = [Ret v; Ret v] /\ assignments c.2 !! ("ranker"%string, 4000%nat) = Some v.
Proof.
  cbv zeta. destruct (schedule turns twice start) as [ps s'] eqn:E.
  assert (exists v, ps = [Ret v; Ret v]) as [v ->].
  { vm_compute in E. injection E as <- _. eexists. reflexivity. }
  exists v. split; [reflexivity |].
  refine (proj2 (@concurrent_assign_agrees binary64 digest "ranker" (mkExperimentRow halves RUNNING) [4000; 4000]%nat start
    [Ret v; Ret v] s' 0 1 4000%nat v v eq_refl eq_refl _ eq_refl eq_refl eq_refl eq_refl)).
  fold twice. rewrite <- E. apply schedule_rtc.
Defined.

Lemma assignment_sticky_witness :
  let s := start <| assignments := {[ ("ranker"%string, 4000%nat) := "v2"%string ]} |> in
  let ps := [execute (fun s => s <| experiments ::= <["ranker"%string := mkExperimentRow [mkVariant "v3" 1] CONCLUDED]> |>) ;; Ret EmptyString] in
  let c := schedule [0%nat] ps s in
  (ex_status <$> experiments c.2 !! "ranker"%string = Some CONCLUDED) /\
  run (@assign binary64 digest "ranker" 4000) c.2 = (inr "v2"%string, c.2).
Proof.
  intros s ps c. split; [reflexivity |].
  refine (proj2 (@assignment_sticky binary64 digest ps s c.1 c.2 "ranker" 4000 "v2" _ _ eq_refl)).
  - intros p ->%list_elem_of_singleton. constructor.
  - unfold c. rewrite <- surjective_pairing. apply schedule_rtc.
Defined.
