(* ===== verification/Criteria.v ===== *)
(** * Scoring criteria

    evaluation/criteria.ts: each criterion reads the collected signals and
    returns a value in [0, 1].  The explanation objects are not modelled. *)
From stdpp Require Import sorting.
From S2P Require Import Prelude JsNum Binary64 Effects Schema AttemptStatus.

Record ValidatorOutcome := mkValidatorOutcome {
  vo_validatorId : string; vo_status : ValidatorResultStatus; vo_weight : Q; vo_severity : Severity }.
Record TaskResult := mkTaskResult {
  tr_taskKey : string; tr_required : bool; tr_passed : bool; tr_validatorResults : list ValidatorOutcome }.

Record CriterionInput := mkCriterionInput {
  taskResults : list TaskResult; hintPenaltyTotal : Q; resetCount : Z; retryIndex : Z;
  activeMinutes : Q; estimatedMinutes : Q; preSubmitValidationRunCount : nat;
  blastRadiusViolations : Q; diagnosticEfficiencyGoodCount : Q; diagnosticEfficiencyBadCount : Q;
  commandSequence : list string; canonicalDiagnosticPaths : list (list string) }.
#[export] Instance eta_CriterionInput : Eta CriterionInput := fun i =>
  mkCriterionInput (taskResults i) (hintPenaltyTotal i) (resetCount i) (retryIndex i)
    (activeMinutes i) (estimatedMinutes i) (preSubmitValidationRunCount i)
    (blastRadiusViolations i) (diagnosticEfficiencyGoodCount i) (diagnosticEfficiencyBadCount i)
    (commandSequence i) (canonicalDiagnosticPaths i).

Definition count {A} (l : list A) : Q := inject_Z (Z.of_nat (length l)).
Definition is_pass (v : ValidatorOutcome) : bool := bool_decide (vo_status v = PASS).
Definition is_error (v : ValidatorOutcome) : bool := bool_decide (vo_status v = ERROR).

Section Criteria.
Context `{Rounding}.

Definition scorable (input : CriterionInput) : list ValidatorOutcome :=
  List.filter (fun v => negb (is_error v)) (taskResults input ≫= tr_validatorResults).

Definition technicalCorrectnessV1 (input : CriterionInput) : Q :=
  match scorable input with
  | [] => 0
  | scorable =>
      let totalWeight := sum_by vo_weight scorable in
      let passedWeight := sum_by vo_weight (List.filter is_pass scorable) in
      let value := if 0 <? totalWeight then passedWeight /! totalWeight else 0 in
      clamp01 value
  end.

Definition required_tasks (input : CriterionInput) : list TaskResult :=
  List.filter tr_required (taskResults input).

Definition taskCompletionV1 (input : CriterionInput) : Q :=
  match required_tasks input with
  | [] => 1
  | required => clamp01 (count (List.filter tr_passed required) /! count required)
  end.

Definition MIN_ENGAGED_MINUTES_WITHOUT_OTHER_EVIDENCE : Q := lit (17 # 100).

Definition has_evidence (input : CriterionInput) : bool :=
  existsb tr_passed (taskResults input)
  || Nat.ltb 0 (preSubmitValidationRunCount input)
  || (MIN_ENGAGED_MINUTES_WITHOUT_OTHER_EVIDENCE <=? activeMinutes input).

Definition efficiencyV1 (input : CriterionInput) : Q :=
  if negb (has_evidence input) then 0
  else if estimatedMinutes input <=? 0 then 1
  else
    let ratio := activeMinutes input /! estimatedMinutes input in
    if ratio <=? 1 then 1 else clamp01 (1 -! (ratio -! 1) /! 2).

Definition diagnosticEfficiencyV1 (input : CriterionInput) : Q :=
  let good := diagnosticEfficiencyGoodCount input in
  let bad := diagnosticEfficiencyBadCount input in
  let total := good +! bad in
  if Qeq_bool total 0 then 1 else clamp01 (good /! total).

(** [findIndex]: the position of the first command with the prefix. *)
Fixpoint findIndex {A} (p : A -> bool) (l : list A) : option nat :=
  match l with
  | [] => None
  | x :: l => if p x then Some 0%nat else S <$> findIndex p l
  end.

(** All pairs (i, j) of positions with i < j. *)
Fixpoint pairs {A} (l : list A) : list (A * A) :=
  match l with [] => [] | x :: l => ((fun y => (x, y)) <$> l) ++ pairs l end.

Definition comparable (p : option nat * option nat) : bool :=
  match p with (Some _, Some _) => true | _ => false end.
Definition in_order (p : option nat * option nat) : bool :=
  match p with (Some i, Some j) => Nat.ltb i j | _ => false end.

Definition orderingScoreForPath (canonicalPath commandSequence : list string) : Q * nat :=
  let firstSeenIndex := (fun step => findIndex (String.prefix step) commandSequence) <$> canonicalPath in
  let comparablePairs := List.filter comparable (pairs firstSeenIndex) in
  let correctlyOrderedPairs := List.filter in_order (pairs firstSeenIndex) in
  (if Nat.ltb 0 (length comparablePairs) then count correctlyOrderedPairs /! count comparablePairs else 0,
   length comparablePairs).

Definition hypothesisOrderingV1 (input : CriterionInput) : Q :=
  match canonicalDiagnosticPaths input with
  | [] => 1
  | paths =>
      let results := (fun path => orderingScoreForPath path (commandSequence input)) <$> paths in
      match List.filter (fun r => Nat.ltb 0 r.2) results with
      | [] => 1
      | scored => clamp01 (sum_by fst scored /! count scored)
      end
  end.

Definition troubleshootingV1 (input : CriterionInput) : Q :=
  clamp01 ((diagnosticEfficiencyV1 input +! hypothesisOrderingV1 input) /! 2).

Definition CRITERION_REGISTRY (key : string) : option (string * (CriterionInput -> Q)) :=
  if String.eqb key "technical_correctness" then Some ("fn.technical_correctness.v1"%string, technicalCorrectnessV1)
  else if String.eqb key "task_completion" then Some ("fn.task_completion.v1"%string, taskCompletionV1)
  else if String.eqb key "efficiency" then Some ("fn.efficiency.v2"%string, efficiencyV1)
  else if String.eqb key "diagnostic_efficiency" then Some ("fn.diagnostic_efficiency.v1"%string, diagnosticEfficiencyV1)
  else if String.eqb key "hypothesis_ordering" then Some ("fn.hypothesis_ordering.v1"%string, hypothesisOrderingV1)
  else if String.eqb key "troubleshooting" then Some ("fn.troubleshooting.v1"%string, troubleshootingV1)
  else if String.eqb key "technical_implementation" then Some ("fn.technical_correctness.v1"%string, technicalCorrectnessV1)
  else if String.eqb key "reliability" then Some ("fn.technical_correctness.v1"%string, technicalCorrectnessV1)
  else None.
End Criteria.

(** ** Bounds and monotonicity *)
Section CriteriaLaws.
Context `{Rounding}.

Lemma unit_0 : 0 <= 0 <= 1. Proof. lra. Qed.
Lemma unit_1 : 0 <= 1 <= 1. Proof. lra. Qed.
Hint Resolve unit_0 unit_1 clamp01_bounds : core.

Lemma technical_unit i : 0 <= technicalCorrectnessV1 i <= 1.
Proof. unfold technicalCorrectnessV1. destruct (scorable i); auto. Qed.
Lemma completion_unit i : 0 <= taskCompletionV1 i <= 1.
Proof. unfold taskCompletionV1. destruct (required_tasks i); auto. Qed.
Lemma efficiency_unit i : 0 <= efficiencyV1 i <= 1.
Proof. unfold efficiencyV1. cbv zeta.
  destruct (negb _); auto. destruct (estimatedMinutes i <=? 0); auto. destruct (_ <=? 1); auto. Qed.
Lemma diagnostic_unit i : 0 <= diagnosticEfficiencyV1 i <= 1.
Proof. unfold diagnosticEfficiencyV1. destruct (Qeq_bool _ 0); auto. Qed.
Lemma ordering_unit i : 0 <= hypothesisOrderingV1 i <= 1.
Proof.
  unfold hypothesisOrderingV1. destruct (canonicalDiagnosticPaths i); auto.
  destruct (List.filter _ _); auto.
Qed.
Lemma troubleshooting_unit i : 0 <= troubleshootingV1 i <= 1.
Proof. apply clamp01_bounds. Qed.

Lemma registry_unit key v f i : CRITERION_REGISTRY key = Some (v, f) -> 0 <= f i <= 1.
Proof.
  unfold CRITERION_REGISTRY. repeat destruct (String.eqb key _); intros [= <- <-];
    auto using technical_unit, completion_unit, efficiency_unit, diagnostic_unit, ordering_unit, troubleshooting_unit.
Qed.

(** A filtered rounded sum is the sum with zeros. *)
Lemma fold_filter {A} (f : A -> Q) (p : A -> bool) l acc acc' : rnd acc' == acc' -> acc == acc' ->
  fold_left (fun a x => a +! f x) (List.filter p l) acc ==
  fold_left (fun a x => a +! (if p x then f x else 0)) l acc'.
Proof.
  revert acc acc'. induction l as [|x l IH]; intros acc acc' R E; cbn; [easy |].
  destruct (p x); cbn.
  - apply IH; [apply rnd_idem | now rewrite E].
  - apply IH; [apply rnd_idem |]. rewrite E. unfold add. rewrite Qplus_0_r. now rewrite R.
Qed.
Lemma sum_by_filter {A} (f : A -> Q) (p : A -> bool) l :
  sum_by f (List.filter p l) == sum_by (fun x => if p x then f x else 0) l.
Proof. apply fold_filter; [apply rnd_0 | easy]. Qed.
End CriteriaLaws.

(** ** Technical correctness *)

(** A validator result that got no worse: same weight, still an ERROR exactly
    when it was one, still a PASS when it was one. *)
Definition improves (v v' : ValidatorOutcome) : Prop :=
  vo_weight v' = vo_weight v /\ is_error v' = is_error v /\ (is_pass v = true -> is_pass v' = true).

Definition outcomes (i : CriterionInput) : list ValidatorOutcome := taskResults i ≫= tr_validatorResults.
Definition nonneg_weights (i : CriterionInput) : Prop := forall v, v ∈ outcomes i -> 0 <= vo_weight v.

Section Technical.
Context `{Rounding}.

Lemma scorable_improves i i' : Forall2 improves (outcomes i) (outcomes i') ->
  Forall2 improves (scorable i) (scorable i').
Proof.
  unfold scorable. fold (outcomes i) (outcomes i'). induction 1 as [|v v' l l' V F IH]; cbn; [constructor |].
  pose proof V as (_ & E & _). rewrite E. destruct (is_error v); cbn; [easy |]. now constructor.
Qed.

Lemma fold_forall2 {A} (R : A -> A -> Prop) (f g : A -> Q) l l' acc acc' :
  Forall2 R l l' -> (forall x y, x ∈ l -> R x y -> f x <= g y) -> acc <= acc' ->
  fold_left (fun a x => a +! f x) l acc <= fold_left (fun a x => a +! g x) l' acc'.
Proof.
  intros F. revert acc acc'. induction F as [|x y l l' V F IH]; intros acc acc' L La; cbn; [easy |].
  apply IH; [intros u v U; apply L; now right |]. apply add_mono; [easy |]. apply L; [now left | easy].
Qed.

Lemma total_improves i i' : Forall2 improves (outcomes i) (outcomes i') ->
  sum_by vo_weight (scorable i') == sum_by vo_weight (scorable i).
Proof.
  intros F. apply scorable_improves in F. apply Qle_antisym; unfold sum_by.
  - apply Forall2_flip in F. eapply fold_forall2; [exact F | | apply Qle_refl].
    intros x y _ (W & _). rewrite W. apply Qle_refl.
  - eapply fold_forall2; [exact F | | apply Qle_refl]. intros x y _ (W & _). rewrite W. apply Qle_refl.
Qed.

Lemma passed_improves i i' : nonneg_weights i -> Forall2 improves (outcomes i) (outcomes i') ->
  sum_by vo_weight (List.filter is_pass (scorable i)) <= sum_by vo_weight (List.filter is_pass (scorable i')).
Proof.
  intros N F. apply scorable_improves in F. rewrite !sum_by_filter. unfold sum_by.
  eapply fold_forall2; [exact F | | apply Qle_refl].
  intros x y X (W & _ & P). cbn beta. rewrite W.
  assert (0 <= vo_weight x).
  { apply N. unfold scorable in X. apply list_elem_of_In, List.filter_In in X as [X _]. apply list_elem_of_In. exact X. }
  destruct (is_pass x); [rewrite P by easy; apply Qle_refl |]. destruct (is_pass y); lra.
Qed.

End Technical.

(** Technical_correctness lies in [0, 1], is monotone (turning failures into
    passes never lowers it), is unchanged by removing ERROR results (a platform
    error is never scored), and is 1 when every scorable validator passes and
    one has positive weight.  Any rounding; weights nonnegative. *)
Theorem technical_correctness_spec `{Rounding} i :
  nonneg_weights i ->
  0 <= technicalCorrectnessV1 i <= 1 /\
  (forall i', Forall2 improves (outcomes i) (outcomes i') -> technicalCorrectnessV1 i <= technicalCorrectnessV1 i') /\
  (forall i', outcomes i' = List.filter (fun v => negb (is_error v)) (outcomes i) ->
     technicalCorrectnessV1 i' = technicalCorrectnessV1 i) /\
  ((forall v, v ∈ scorable i -> is_pass v = true) -> 0 < sum_by vo_weight (scorable i) ->
     technicalCorrectnessV1 i == 1).
Proof.
  intros N. split_and!.
  - apply technical_unit.
  - apply technical_unit.
  - intros i' F. pose proof (total_improves i i' F) as T. pose proof (passed_improves i i' N F) as P.
    pose proof (scorable_improves i i' F) as S. unfold technicalCorrectnessV1.
    destruct S as [|v v' l l' V S]; [apply Qle_refl |]. cbv zeta. apply clamp01_mono.
    assert (B' : (0 <? sum_by vo_weight (v' :: l')) = (0 <? sum_by vo_weight (v :: l))) by (now rewrite T).
    rewrite B'. destruct (0 <? sum_by vo_weight (v :: l)) eqn:B; [|apply Qle_refl]. qprop. rewrite T.
    unfold div. apply rnd_mono. unfold Qdiv. apply Qmult_le_compat_r; [easy |]. apply Qlt_le_weak, Qinv_lt_0_compat, B.
  - intros i' E. unfold technicalCorrectnessV1. replace (scorable i') with (scorable i); [easy |].
    unfold scorable. fold (outcomes i) (outcomes i'). rewrite E. symmetry. apply filter_all.
    intros v V. now apply list_elem_of_In, List.filter_In in V as [_ V].
  - intros P T. unfold technicalCorrectnessV1.
    destruct (scorable i) as [|v l]; [exfalso; cbn in T; now apply Qlt_irrefl in T |].
    rewrite (filter_all is_pass) by easy. apply Qltb_lt in T. rewrite T. apply Qltb_lt in T. rewrite (div_self _ T). apply clamp01_id. lra.
Qed.

(** Efficiency is 0 without evidence of work; with evidence it is 1 up to the
    estimate, 0 from three times the estimate on, and never increases with the
    time spent.  Any rounding. *)
Theorem efficiency_spec `{Rounding} i :
  0 <= efficiencyV1 i <= 1 /\
  (has_evidence i = false -> efficiencyV1 i == 0) /\
  (has_evidence i = true -> activeMinutes i <= estimatedMinutes i -> efficiencyV1 i == 1) /\
  (0 < estimatedMinutes i -> 3 * estimatedMinutes i <= activeMinutes i -> efficiencyV1 i == 0) /\
  (forall a, has_evidence i = true -> activeMinutes i <= a ->
     efficiencyV1 (i <| activeMinutes := a |>) <= efficiencyV1 i).
Proof.
  assert (M : forall a a' e, 0 < e -> a <= a' -> a /! e <= a' /! e).
  { intros a a' e E L. unfold div. apply rnd_mono. unfold Qdiv. apply Qmult_le_compat_r; [easy |]. now apply Qlt_le_weak, Qinv_lt_0_compat. }
  split_and!; try apply efficiency_unit.
  - intros E. unfold efficiencyV1. now rewrite E.
  - intros E L. unfold efficiencyV1. rewrite E. cbn [negb]. destruct (estimatedMinutes i <=? 0) eqn:Z; [easy |]. qprop.
    cbv zeta. rewrite (proj2 (Qleb_le _ 1)); [easy |]. now apply div_le_1.
  - intros E L. unfold efficiencyV1. destruct (negb _); [easy |].
    destruct (estimatedMinutes i <=? 0) eqn:Z; qprop; [lra |]. cbv zeta.
    assert (R : 3 <= activeMinutes i /! estimatedMinutes i).
    { apply (rnd_lb _ 3); [easy |]. apply Qle_shift_div_l; [easy |]. easy. }
    destruct (_ <=? 1) eqn:Z1; qprop; [lra |].
    assert (2 <= (activeMinutes i /! estimatedMinutes i) -! 1) by (apply (rnd_lb _ 2); [easy | change (inject_Z 2) with 2; lra]).
    assert (1 <= ((activeMinutes i /! estimatedMinutes i) -! 1) /! 2).
    { apply (rnd_lb _ 1); [easy |]. apply Qle_shift_div_l; [easy |]. change (inject_Z 1) with 1. lra. }
    assert (1 -! ((activeMinutes i /! estimatedMinutes i) -! 1) /! 2 <= 0) by (apply rnd_nonpos; lra).
    qlra.
  - intros a E L. assert (E' : has_evidence (i <| activeMinutes := a |>) = true).
    { unfold has_evidence in *. apply orb_true_iff in E as [E|E]; apply orb_true_iff; [left; exact E | right].
      qprop. apply Qleb_le. cbn [activeMinutes set_field]. lra. }
    unfold efficiencyV1. rewrite E, E'. cbn [negb estimatedMinutes activeMinutes set_field].
    destruct (estimatedMinutes i <=? 0) eqn:Z; [apply Qle_refl |]. qprop. cbv zeta.
    pose proof (M _ _ _ Z L) as R. set (r := activeMinutes i /! _) in *. set (r' := a /! _) in *.
    destruct (r <=? 1) eqn:B, (r' <=? 1) eqn:B'; qprop; try apply Qle_refl; try apply clamp01_bounds; [lra |].
    apply clamp01_mono, sub_mono; [apply Qle_refl |]. apply M; [easy |]. apply sub_mono; lra.
Qed.

(** ** Hypothesis ordering *)

(** Where each canonical step was first investigated; [investigated] drops the
    steps the learner never ran. *)
Definition first_seen (path cmds : list string) : list (option nat) :=
  (fun step => findIndex (String.prefix step) cmds) <$> path.
Definition investigated (path cmds : list string) : list nat := omap id (first_seen path cmds).

Lemma pairs_related (R : nat -> nat -> Prop) (l : list (option nat)) : StronglySorted R (omap id l) ->
  forall i j, (Some i, Some j) ∈ pairs l -> R i j.
Proof.
  induction l as [|o l IH]; cbn; intros S i j P; [now apply elem_of_nil in P |].
  apply elem_of_app in P as [P|P].
  - apply list_elem_of_fmap in P as (y & [= <- <-] & Y). cbn in S. inversion S as [|? ? _ F]; subst.
    rewrite Forall_forall in F. apply F. apply list_elem_of_omap. now exists (Some j).
  - destruct o as [x|]; cbn in S; [inversion S; subst|]; eauto.
Qed.

Lemma filter_length_le {A} (p q : A -> bool) l : (forall x, p x = true -> q x = true) ->
  (length (List.filter p l) <= length (List.filter q l))%nat.
Proof.
  intros I. induction l as [|x l IH]; cbn; [easy |]. specialize (I x).
  destruct (p x), (q x); cbn; lia.
Qed.

Lemma in_order_comparable p : in_order p = true -> comparable p = true.
Proof. now destruct p as [ [] [] ]. Qed.

Lemma filter_ext_in_pairs (f g : option nat * option nat -> bool) l :
  (forall p, p ∈ l -> f p = g p) -> List.filter f l = List.filter g l.
Proof.
  induction l as [|x l IH]; intros E; cbn; [easy |].
  rewrite (E x) by now left. rewrite IH; [easy |]. intros p P. apply E. now right.
Qed.

(** The ordering score of a diagnostic path lies in [0, 1]; when at least two
    of its steps were investigated it is 1 if they were investigated in the
    canonical order and 0 if in the reverse order; steps never investigated do
    not count.  Any rounding. *)
Theorem ordering_spec `{Rounding} path cmds :
  let r := orderingScoreForPath path cmds in
  0 <= fst r <= 1 /\
  ((0 < snd r)%nat -> StronglySorted lt (investigated path cmds) -> fst r == 1) /\
  (StronglySorted gt (investigated path cmds) -> fst r == 0) /\
  (snd r = length (pairs (investigated path cmds))).
Proof.
  unfold orderingScoreForPath. cbv zeta. fold (first_seen path cmds). cbn [fst snd].
  unfold investigated. set (l := first_seen path cmds). clearbody l.
  pose proof (filter_length_le in_order comparable (pairs l) in_order_comparable) as L.
  assert (P : (0 < length (List.filter comparable (pairs l)))%nat -> 0 < count (List.filter comparable (pairs l))).
  { intros C. unfold count. change 0 with (inject_Z 0). rewrite <- Zlt_Qlt. lia. }
  split_and!.
  - destruct (Nat.ltb_spec 0 (length (List.filter comparable (pairs l)))); [|lra].
    apply div_nonneg; [|now apply Qlt_le_weak, P]. unfold count. change 0 with (inject_Z 0). rewrite <- Zle_Qle. lia.
  - destruct (Nat.ltb_spec 0 (length (List.filter comparable (pairs l)))) as [C|]; [|lra].
    apply div_le_1; [now apply P |]. unfold count. rewrite <- Zle_Qle. lia.
  - intros C S. apply Nat.ltb_lt in C. rewrite C. apply Nat.ltb_lt, P in C.
    rewrite (filter_ext_in_pairs in_order comparable); [now apply div_self |].
    intros [ [i|] [j|] ] Q; try easy. cbn. apply Nat.ltb_lt. now apply (pairs_related lt l S).
  - intros S. destruct (Nat.ltb 0 _); [|easy].
    rewrite (filter_ext_in_pairs in_order (fun _ => false)).
    + assert (E : forall k : list (option nat * option nat), List.filter (fun _ => false) k = []) by (induction k; auto).
      rewrite E. unfold count, div, Qdiv. cbn [length Z.of_nat]. rewrite Qmult_0_l. apply rnd_0.
    + intros [ [i|] [j|] ] Q; try easy. cbn. apply Nat.ltb_ge. pose proof (pairs_related gt l S i j Q). lia.
  - clear. induction l as [|o l IH]; cbn; [easy |]. rewrite List.filter_app, length_app, IH.
    destruct o as [x|]; cbn.
    + rewrite length_app, length_fmap. f_equal. clear. induction l as [|[y|] l IH]; cbn; auto.
    + assert (E : List.filter comparable ((fun y => (None, y)) <$> l) = []) by (clear; induction l; auto).
      now rewrite E.
Qed.

Definition perfect_input : CriterionInput :=
  mkCriterionInput [mkTaskResult "t1" true true [mkValidatorOutcome "v1" PASS 1 BLOCKING; mkValidatorOutcome "v2" ERROR 2 WARN]]
    0 0 0 12 30 1 0 0 0 [] [].

Lemma technical_correctness_spec_witness :
  @technicalCorrectnessV1 binary64 perfect_input == 1.
Proof.
  apply (@technical_correctness_spec binary64 perfect_input).
  - intros v V. cbn in V. repeat (apply elem_of_cons in V as [->|V]; [cbn; easy |]). now apply elem_of_nil in V.
  - intros v V. cbn in V. repeat (apply elem_of_cons in V as [->|V]; [easy |]). now apply elem_of_nil in V.
  - vm_compute. reflexivity.
Defined.
