(* ===== verification/Scoring.v ===== *)
(** * Scoring

    evaluation/scoring-profile.ts, scoring-engine.service.ts and cooldown.ts: a
    weighted sum of the criteria, less capped penalties, plus bonuses, with a
    floor for working solutions; and the retry cooldown after a failure. *)
From S2P Require Import Prelude JsNum Binary64 Effects Schema AttemptStatus Criteria.

(** ** Profiles *)
Record CappedRate := mkCappedRate { rate : Q; cap : Q }.
Record Penalties := mkPenalties {
  hints_cap : option Q; resets : option CappedRate; retries : option CappedRate;
  blastRadius : option CappedRate; overtime : option CappedRate }.
Record ScoringProfile := mkScoringProfile {
  profile_id : string; profile_version : nat; profile_passThreshold : Q; weights : list (string * Q);
  penalties_of : option Penalties; firstTryPass : option Q; minAfterPenalties : option Q }.

Record ScoreBreakdown := mkScoreBreakdown {
  finalScore : Q; passed : bool; criteria : list (string * (Q * Q));
  penalties : list (string * Q); bonuses : list (string * Q);
  criterionFnVersions : list (string * string) }.

Section ScoringEngine.
Context `{Rounding}.

Definition GUIDED_LAB_DEFAULT_PROFILE : ScoringProfile :=
  mkScoringProfile "sp.guided-lab.default" 1 (lit (7 # 10))
    [("technical_correctness"%string, lit (7 # 10)); ("task_completion"%string, lit (2 # 10)); ("efficiency"%string, lit (1 # 10))]
    (Some (mkPenalties (Some (lit (2 # 10)))
      (Some (mkCappedRate (lit (2 # 100)) (lit (6 # 100)))) (Some (mkCappedRate (lit (5 # 100)) (lit (15 # 100))))
      None None))
    (Some (lit (2 # 100))) (Some (lit (3 # 10))).

Definition PRODUCTION_SIM_DEFAULT_PROFILE : ScoringProfile :=
  mkScoringProfile "sp.production-sim.default" 1 (lit (7 # 10))
    [("troubleshooting"%string, lit (55 # 100)); ("technical_implementation"%string, lit (3 # 10)); ("reliability"%string, lit (15 # 100))]
    (Some (mkPenalties None
      (Some (mkCappedRate (lit (2 # 100)) (lit (6 # 100)))) (Some (mkCappedRate (lit (5 # 100)) (lit (15 # 100))))
      (Some (mkCappedRate (lit (15 # 100)) (lit (3 # 10)))) (Some (mkCappedRate (lit (2 # 100)) (lit (1 # 10))))))
    (Some (lit (2 # 100))) (Some (lit (3 # 10))).

(** The loop over [profile.weights]; an unregistered criterion throws. *)
Fixpoint compute_criteria (input : CriterionInput) (ws : list (string * Q))
    : exn + list (string * string * (Q * Q)) :=
  match ws with
  | [] => inr []
  | (criterionKey, weight) :: ws =>
      match CRITERION_REGISTRY criterionKey with
      | None => inl (JsError "unknown criterion")
      | Some (version, fn) =>
          match compute_criteria input ws with
          | inl e => inl e
          | inr rest => inr ((criterionKey, version, (fn input, weight)) :: rest)
          end
      end
  end.

Definition named (name : string) (o : option Q) : list (string * Q) :=
  match o with Some q => [(name, q)] | None => [] end.

Definition overMinutes (input : CriterionInput) : Q := jmax 0 (activeMinutes input -! estimatedMinutes input).

Definition compute_penalties (input : CriterionInput) (profile : ScoringProfile) : list (string * Q) :=
  match penalties_of profile with
  | None => []
  | Some p =>
      named "hints" ((fun cap => jmin (hintPenaltyTotal input) cap) <$> hints_cap p) ++
      named "resets" ((fun r => jmin (inject_Z (resetCount input) *! rate r) (cap r)) <$> resets p) ++
      named "retries" ((fun r => jmin (inject_Z (retryIndex input) *! rate r) (cap r)) <$> retries p) ++
      named "blast_radius" ((fun r => jmin (blastRadiusViolations input *! rate r) (cap r)) <$> blastRadius p) ++
      named "overtime" ((fun r => jmin (inject_Z (jfloor (overMinutes input /! 10)) *! rate r) (cap r)) <$> overtime p)
  end.

Definition compute_bonuses (profile : ScoringProfile) (wasFirstTryPass : bool) : list (string * Q) :=
  match firstTryPass profile with
  | Some b => if negb (Qeq_bool b 0) && wasFirstTryPass then [("first_try_pass"%string, b)] else []
  | None => []
  end.

(** [finalScore], from the weighted sum, the total penalty and the total bonus. *)
Definition final_score (profile : ScoringProfile) (weightedSum totalPenalty totalBonus : Q) : Q :=
  let finalScore := weightedSum -! totalPenalty +! totalBonus in
  let finalScore :=
    match minAfterPenalties profile with
    | Some guard =>
        if (profile_passThreshold profile <=? weightedSum) && (finalScore <? guard) then guard else finalScore
    | None => finalScore
    end in
  jmin 1 (jmax 0 finalScore).

Definition score (input : CriterionInput) (profile : ScoringProfile) (wasFirstTryPass : bool) : exn + ScoreBreakdown :=
  match compute_criteria input (weights profile) with
  | inl e => inl e
  | inr cs =>
      let weightedSum := sum_by (fun c => c.2.1 *! c.2.2) cs in
      let penalties := compute_penalties input profile in
      let bonuses := compute_bonuses profile wasFirstTryPass in
      let finalScore := final_score profile weightedSum (sum_by snd penalties) (sum_by snd bonuses) in
      inr (mkScoreBreakdown finalScore (profile_passThreshold profile <=? finalScore)
             ((fun c => (c.1.1, c.2)) <$> cs) penalties bonuses ((fun c => c.1) <$> cs))
  end.
End ScoringEngine.

(** ** Cooldown *)
Definition BASE_COOLDOWN_MS : Z := 24 * 60 * 60 * 1000.
Definition MAX_COOLDOWN_MS : Z := 7 * 24 * 60 * 60 * 1000.
Definition computeCooldownUntil (failedAttemptRetryIndex now : Z) : Z :=
  let retryCount := (failedAttemptRetryIndex + 1)%Z in
  let ms := Z.min (BASE_COOLDOWN_MS * 2 ^ (retryCount - 1)) MAX_COOLDOWN_MS in
  (now + ms)%Z.

(** ** The engine *)

(** A profile the engine can run: known criteria, nonnegative numbers. *)
Definition known_criteria (p : ScoringProfile) : Prop :=
  forall k w, (k, w) ∈ weights p -> k ∈ ["technical_correctness"; "task_completion"; "efficiency";
    "diagnostic_efficiency"; "hypothesis_ordering"; "troubleshooting"; "technical_implementation"; "reliability"]%string.
Definition nonneg_rate (r : option CappedRate) : Prop :=
  match r with Some r => 0 <= rate r /\ 0 <= cap r | None => True end.
Definition nonneg_penalties (p : ScoringProfile) : Prop :=
  match penalties_of p with
  | Some q => nonneg_rate (resets q) /\ nonneg_rate (retries q) /\ nonneg_rate (blastRadius q) /\ nonneg_rate (overtime q)
  | None => True
  end.

(** [i'] shows no better criterion value and no smaller penalty signal. *)
Record worse `{Rounding} (p : ScoringProfile) (i i' : CriterionInput) : Prop := mkWorse {
  worse_criteria : forall k w v f, (k, w) ∈ weights p -> CRITERION_REGISTRY k = Some (v, f) -> f i' <= f i;
  worse_hints : hintPenaltyTotal i <= hintPenaltyTotal i';
  worse_resets : (resetCount i <= resetCount i')%Z;
  worse_retries : (retryIndex i <= retryIndex i')%Z;
  worse_blast : blastRadiusViolations i <= blastRadiusViolations i';
  worse_minutes : activeMinutes i <= activeMinutes i';
  worse_estimate : estimatedMinutes i' == estimatedMinutes i }.

Section ScoringLaws.
Context `{Rounding}.

Lemma registry_known k : k ∈ ["technical_correctness"; "task_completion"; "efficiency";
  "diagnostic_efficiency"; "hypothesis_ordering"; "troubleshooting"; "technical_implementation"; "reliability"]%string ->
  is_Some (CRITERION_REGISTRY k).
Proof.
  intros K. repeat (apply elem_of_cons in K as [->|K]; [eexists; reflexivity |]). now apply elem_of_nil in K.
Qed.

Lemma compute_criteria_ok i ws :
  (forall k w, (k, w) ∈ ws -> is_Some (CRITERION_REGISTRY k)) ->
  exists cs, compute_criteria i ws = inr cs /\
    Forall2 (fun c kw => c.1.1 = kw.1 /\ c.2.2 = kw.2 /\
               exists f, CRITERION_REGISTRY kw.1 = Some (c.1.2, f) /\ c.2.1 = f i) cs ws.
Proof.
  induction ws as [|[k w] ws IH]; intros K; cbn [compute_criteria]; [exists []; split; [easy | constructor] |].
  destruct (K k w) as [[v f] E]; [now left |]. rewrite E.
  destruct IH as (cs & -> & F); [intros k' w' I; apply (K k' w'); now right |].
  eexists. split; [reflexivity |]. constructor; [|exact F]. cbn. eauto.
Qed.

Lemma final_score_unit p w t b : 0 <= final_score p w t b <= 1.
Proof. apply (clamp01_bounds _). Qed.

Lemma final_score_guard p w t b g : minAfterPenalties p = Some g -> g <= 1 ->
  profile_passThreshold p <= w -> g <= final_score p w t b.
Proof.
  intros E G L. unfold final_score. rewrite E. apply Qleb_le in L. rewrite L. cbn [andb].
  destruct (_ <? g) eqn:B; qlra.
Qed.

Lemma final_score_mono p w w' t t' b b' : w' <= w -> t <= t' -> b' <= b ->
  final_score p w' t' b' <= final_score p w t b.
Proof.
  intros W T B. unfold final_score.
  assert (L : w' -! t' +! b' <= w -! t +! b) by (apply add_mono; [apply sub_mono|]; easy).
  set (x := w -! t +! b) in *. set (x' := w' -! t' +! b') in *.
  apply jmin_mono, jmax_mono; try apply Qle_refl.
  destruct (minAfterPenalties p) as [g|]; [|exact L].
  destruct (profile_passThreshold p <=? w) eqn:E, (profile_passThreshold p <=? w') eqn:E'; qprop; cbn [andb];
    try lra; [destruct (x <? g) eqn:G, (x' <? g) eqn:G'; qprop; lra | destruct (x <? g) eqn:G; qprop; lra].
Qed.

Lemma score_ok i p first : known_criteria p -> exists cs,
  compute_criteria i (weights p) = inr cs /\
  score i p first = inr (mkScoreBreakdown
    (final_score p (sum_by (fun c => c.2.1 *! c.2.2) cs) (sum_by snd (compute_penalties i p)) (sum_by snd (compute_bonuses p first)))
    (profile_passThreshold p <=? final_score p (sum_by (fun c => c.2.1 *! c.2.2) cs) (sum_by snd (compute_penalties i p)) (sum_by snd (compute_bonuses p first)))
    ((fun c => (c.1.1, c.2)) <$> cs) (compute_penalties i p) (compute_bonuses p first) ((fun c => c.1) <$> cs)).
Proof.
  intros K. destruct (compute_criteria_ok i (weights p)) as (cs & E & _).
  - intros k w I. eapply registry_known, K, I.
  - exists cs. split; [easy |]. unfold score. now rewrite E.
Qed.

(** Penalties only grow with the signals. *)
Definition pen_le (a b : list (string * Q)) : Prop := Forall2 (fun x y => x.1 = y.1 /\ x.2 <= y.2) a b.
Lemma pen_le_named n (o o' : option Q) :
  match o, o' with Some x, Some y => x <= y | None, None => True | _, _ => False end ->
  pen_le (named n o) (named n o').
Proof. destruct o, o'; cbn; try easy; intros; repeat constructor; easy. Qed.

Lemma capped_mono (r : option CappedRate) (x x' : Q) : nonneg_rate r -> x <= x' ->
  match (fun r => jmin (x *! rate r) (cap r)) <$> r, (fun r => jmin (x' *! rate r) (cap r)) <$> r with
  | Some a, Some b => a <= b | None, None => True | _, _ => False end.
Proof.
  destruct r as [r|]; cbn; [|easy]. intros [R _] L. apply jmin_mono; [|apply Qle_refl]. now apply mul_mono_r.
Qed.

Lemma penalties_mono i i' p : nonneg_penalties p -> worse p i i' ->
  pen_le (compute_penalties i p) (compute_penalties i' p).
Proof.
  intros N [_ Wh Wr Wt Wb Wm We]. unfold compute_penalties. unfold nonneg_penalties in N.
  destruct (penalties_of p) as [q|]; [|constructor]. destruct N as (N1 & N2 & N3 & N4).
  repeat apply Forall2_app; apply pen_le_named.
  - destruct (hints_cap q); cbn; [|easy]. apply jmin_mono; [easy | apply Qle_refl].
  - apply capped_mono; [easy |]. now rewrite <- Zle_Qle.
  - apply capped_mono; [easy |]. now rewrite <- Zle_Qle.
  - now apply capped_mono.
  - apply capped_mono; [easy |]. rewrite <- Zle_Qle. apply Qfloor_resp_le. unfold div.
    apply rnd_mono. unfold Qdiv. apply Qmult_le_compat_r; [|easy]. unfold overMinutes.
    apply jmax_mono; [apply Qle_refl |]. unfold sub. apply rnd_mono. lra.
Qed.

Lemma pen_le_sum a b : pen_le a b -> sum_by snd a <= sum_by snd b.
Proof.
  intros F. unfold sum_by. eapply fold_forall2; [exact F | | apply Qle_refl]. now intros x y _ [_ L].
Qed.

Lemma bonus_mono p : (forall b, firstTryPass p = Some b -> 0 <= b) ->
  sum_by snd (compute_bonuses p false) <= sum_by snd (compute_bonuses p true).
Proof.
  intros B. unfold compute_bonuses. destruct (firstTryPass p) as [b|]; [|apply Qle_refl].
  specialize (B b eq_refl). destruct (Qeq_bool b 0); cbn; [apply Qle_refl |]. apply add_nonneg; [apply Qle_refl | easy].
Qed.

Lemma criteria_mono i i' p cs cs' : worse p i i' -> (forall k w, (k, w) ∈ weights p -> 0 <= w) ->
  known_criteria p -> compute_criteria i (weights p) = inr cs -> compute_criteria i' (weights p) = inr cs' ->
  sum_by (fun c => c.2.1 *! c.2.2) cs' <= sum_by (fun c => c.2.1 *! c.2.2) cs.
Proof.
  intros [W _ _ _ _ _ _] N K. unfold known_criteria in K. revert cs cs'.
  assert (G : forall ws, (forall k w, (k, w) ∈ ws -> (k, w) ∈ weights p) -> forall cs cs' acc acc',
    compute_criteria i ws = inr cs -> compute_criteria i' ws = inr cs' -> acc' <= acc ->
    fold_left (fun a c => a +! c.2.1 *! c.2.2) cs' acc' <= fold_left (fun a c => a +! c.2.1 *! c.2.2) cs acc).
  { induction ws as [|[k w] ws IH]; intros I cs cs' acc acc' E E' L; cbn [compute_criteria] in E, E'.
    - injection E as <-. injection E' as <-. exact L.
    - destruct (CRITERION_REGISTRY k) as [[v f]|] eqn:R; [|easy].
      destruct (compute_criteria i ws) as [|r] eqn:C; [easy |]. destruct (compute_criteria i' ws) as [|r'] eqn:C'; [easy |].
      injection E as <-. injection E' as <-. cbn [fold_left fst snd].
      apply (IH ltac:(intros k' w' J; apply I; now right) r r' _ _ eq_refl eq_refl).
      apply add_mono; [exact L |]. apply mul_mono_r; [apply (N k w), I; now left |].
      apply (W k w v f); [apply I; now left | exact R]. }
  intros cs cs' E E'. apply (G (weights p) ltac:(auto) cs cs' 0 0 E E'), Qle_refl.
Qed.
End ScoringLaws.

(** On a profile with known criteria the engine always returns a score: it
    lies in [0, 1], is passing exactly when it reaches the profile's threshold,
    and penalties never take a solution whose weighted sum passes below the
    profile's floor.  Any rounding, any signals. *)
Theorem score_bounded `{Rounding} i p first :
  known_criteria p ->
  exists r cs, score i p first = inr r /\ compute_criteria i (weights p) = inr cs /\
    0 <= finalScore r <= 1 /\
    (passed r = true <-> profile_passThreshold p <= finalScore r) /\
    (forall g, minAfterPenalties p = Some g -> g <= 1 ->
       profile_passThreshold p <= sum_by (fun c => c.2.1 *! c.2.2) cs -> g <= finalScore r) /\
    (forall k v w, (k, (v, w)) ∈ criteria r -> 0 <= v <= 1).
Proof.
  intros K. destruct (score_ok i p first K) as (cs & E & ->).
  eexists _, cs. split; [reflexivity |]. cbn [finalScore passed criteria].
  split; [exact E |]. split; [apply final_score_unit |]. split; [apply Qleb_le |]. split.
  - intros g. apply final_score_guard.
  - intros k v w I. destruct (compute_criteria_ok i (weights p)) as (cs' & E' & F).
    { intros k' w' I'. eapply registry_known, K, I'. }
    rewrite E in E'. injection E' as <-. apply list_elem_of_fmap in I as (c & [= _ Ev] & I).
    replace v with c.2.1 by (now rewrite <- Ev). clear E Ev. induction F as [|c' kw cs ws (_ & _ & f & R & V) F IH]; [now apply elem_of_nil in I |].
    apply elem_of_cons in I as [->|I]; [|now apply IH]. rewrite V. now apply (registry_unit _ _ f i R).
Qed.

(** The score is monotone: with no better criterion value, no smaller hint,
    reset, retry, blast-radius or overtime signal, and no first-try bonus that
    the better attempt lacks, the final score is not higher, floor and cap
    included.  Any rounding; weights, rates and caps nonnegative. *)
Theorem score_monotone `{Rounding} i i' p first r r' :
  known_criteria p -> (forall k w, (k, w) ∈ weights p -> 0 <= w) -> nonneg_penalties p ->
  (forall b, firstTryPass p = Some b -> 0 <= b) -> worse p i i' ->
  score i p first = inr r -> score i' p false = inr r' -> finalScore r' <= finalScore r.
Proof.
  intros K W N B L E E'. destruct (score_ok i p first K) as (cs & C & S), (score_ok i' p false K) as (cs' & C' & S').
  rewrite S in E. rewrite S' in E'. injection E as <-. injection E' as <-. cbn [finalScore].
  apply final_score_mono.
  - now apply (criteria_mono i i' p cs cs').
  - apply pen_le_sum. now apply penalties_mono.
  - destruct first; [now apply bonus_mono | apply Qle_refl].
Qed.

(** The cooldown after a failure lasts between 24 hours and 7 days, exactly 24
    hours after a first failure, doubles with each retry until it reaches 7 days
    (from the fourth attempt on), and never shortens. *)
Theorem cooldown_spec retry now :
  (0 <= retry)%Z ->
  let d r := (computeCooldownUntil r now - now)%Z in
  (BASE_COOLDOWN_MS <= d retry <= MAX_COOLDOWN_MS)%Z /\
  d 0%Z = BASE_COOLDOWN_MS /\
  d (retry + 1)%Z = Z.min (2 * d retry) MAX_COOLDOWN_MS /\
  ((3 <= retry)%Z -> d retry = MAX_COOLDOWN_MS) /\
  (forall retry', (retry <= retry')%Z -> (d retry <= d retry')%Z).
Proof.
  intros R. unfold computeCooldownUntil, BASE_COOLDOWN_MS, MAX_COOLDOWN_MS. cbv zeta.
  assert (P : forall r, (0 <= r)%Z -> (1 <= 2 ^ (r + 1 - 1))%Z).
  { intros r Hr. replace (r + 1 - 1)%Z with r by lia. pose proof (Z.pow_le_mono_r 2 0 r). lia. }
  split_and!.
  - specialize (P retry R). lia.
  - specialize (P retry R). lia.
  - change (2 ^ (0 + 1 - 1))%Z with 1%Z. lia.
  - replace (retry + 1 + 1 - 1)%Z with (Z.succ retry) by lia. rewrite Z.pow_succ_r by easy.
    replace (retry + 1 - 1)%Z with retry by lia. specialize (P retry R).
    replace (retry + 1 - 1)%Z with retry in P by lia. lia.
  - intros L. replace (retry + 1 - 1)%Z with retry by lia. pose proof (Z.pow_le_mono_r 2 3 retry). lia.
  - intros r L. pose proof (Z.pow_le_mono_r 2 (retry + 1 - 1) (r + 1 - 1)). lia.
Qed.

Lemma cooldown_spec_witness : (computeCooldownUntil 2 0 = 4 * BASE_COOLDOWN_MS)%Z.
Proof.
  destruct (cooldown_spec 1 0) as (_ & _ & S & _); [lia |]. cbv zeta in S.
  rewrite !Z.sub_0_r in S. etransitivity; [exact S | reflexivity].
Defined.

Section GuidedLab.
Context `{Rounding}.

Lemma guided_known : known_criteria GUIDED_LAB_DEFAULT_PROFILE.
Proof.
  intros k w I. cbn in I. repeat (apply elem_of_cons in I as [[= -> _]|I]; [set_solver |]). now apply elem_of_nil in I.
Qed.
Lemma guided_weights_nonneg k w : (k, w) ∈ weights GUIDED_LAB_DEFAULT_PROFILE -> 0 <= w.
Proof.
  intros I. cbn in I. repeat (apply elem_of_cons in I as [[= _ ->]|I]; [now apply rnd_nonneg |]). now apply elem_of_nil in I.
Qed.
Lemma guided_bonus b : firstTryPass GUIDED_LAB_DEFAULT_PROFILE = Some b -> 0 <= b.
Proof. intros [= <-]. now apply rnd_nonneg. Qed.
Lemma guided_penalties : nonneg_penalties GUIDED_LAB_DEFAULT_PROFILE.
Proof. cbn. repeat split; now apply rnd_nonneg. Qed.

(** On the guided-lab profile only three criteria matter. *)
Lemma guided_criteria i i' :
  technicalCorrectnessV1 i' <= technicalCorrectnessV1 i -> taskCompletionV1 i' <= taskCompletionV1 i ->
  efficiencyV1 i' <= efficiencyV1 i ->
  forall k w v f, (k, w) ∈ weights GUIDED_LAB_DEFAULT_PROFILE -> CRITERION_REGISTRY k = Some (v, f) -> f i' <= f i.
Proof.
  intros T C E k w v f I. cbn [weights GUIDED_LAB_DEFAULT_PROFILE] in I.
  repeat (apply elem_of_cons in I as [[= -> _]|I]; [unfold CRITERION_REGISTRY; cbn; now intros [= _ <-] |]).
  now apply elem_of_nil in I.
Qed.
End GuidedLab.

Lemma score_bounded_witness :
  exists r, @score binary64 perfect_input (@GUIDED_LAB_DEFAULT_PROFILE binary64) true = inr r /\ 0 <= finalScore r <= 1.
Proof.
  destruct (@score_bounded binary64 perfect_input (@GUIDED_LAB_DEFAULT_PROFILE binary64) true (@guided_known binary64))
    as (r & cs & E & _ & B & _).
  exists r. split; [exact E | exact B].
Defined.

Definition hinted_input : CriterionInput := perfect_input <| hintPenaltyTotal := 8 # 100 |> <| resetCount := 5%Z |>.

Lemma score_monotone_witness :
  exists r r', @score binary64 perfect_input (@GUIDED_LAB_DEFAULT_PROFILE binary64) true = inr r /\
    @score binary64 hinted_input (@GUIDED_LAB_DEFAULT_PROFILE binary64) false = inr r' /\ finalScore r' <= finalScore r.
Proof.
  destruct (@score binary64 perfect_input (@GUIDED_LAB_DEFAULT_PROFILE binary64) true) as [|r] eqn:E;
    [exfalso; revert E; vm_compute; discriminate |].
  destruct (@score binary64 hinted_input (@GUIDED_LAB_DEFAULT_PROFILE binary64) false) as [|r'] eqn:E';
    [exfalso; revert E'; vm_compute; discriminate |].
  exists r, r'. split; [reflexivity | split; [reflexivity |]].
  apply (@score_monotone binary64 perfect_input hinted_input (@GUIDED_LAB_DEFAULT_PROFILE binary64) true r r');
    [exact (@guided_known binary64) | exact (@guided_weights_nonneg binary64) | exact (@guided_penalties binary64)
    | exact (@guided_bonus binary64) | | exact E | exact E'].
  refine (mkWorse _ _ _ _ _ _ _ _ _ _ _); try (cbn; lia); try (cbn; lra).
  apply (@guided_criteria binary64); vm_compute; discriminate.
Defined.
