(* ===== verification/AttemptRepository.v ===== *)
(** * The attempt table

    attempt/attempt.repository.ts and attempt/attempt-error.ts.  [transition] is
    the optimistic lock every status change goes through. *)
From stdpp Require Import infinite.
From S2P Require Import Prelude JsNum Binary64 Effects Schema AttemptStatus EventStore.

(** ** attempt-error.ts *)
Definition attemptError {A} (reasons : list string) : prog Store A :=
  match reasons with
  | [] => Throw (JsError "attemptError() requires at least one reason")
  | _ => Throw (AttemptErrors reasons)
  end.
Definition singleAttemptError {A} (code : string) : prog Store A := attemptError [code].

(** ** Queries *)
Definition findById (id : Id) : prog Store (option Attempt) := select (fun s => attempts s !! id).

(** The rows [WHERE p], and the first of them [ORDER BY f DESC]. *)
Definition where_attempts (p : Attempt -> bool) (s : Store) : list (Id * Attempt) :=
  List.filter (fun kv => p kv.2) (map_to_list (attempts s)).
Fixpoint first_desc {A} (f : A -> Z) (l : list A) : option A :=
  match l with
  | [] => None
  | x :: l => match first_desc f l with
              | Some y => if Z.ltb (f x) (f y) then Some y else Some x
              | None => Some x
              end
  end.

Definition findMostRecentCompletedAttempt (userId activityId : Id) : prog Store (option (Id * Attempt)) :=
  select (fun s => first_desc (fun kv => created_at kv.2)
    (where_attempts (fun r => Nat.eqb (user_id r) userId && Nat.eqb (activity_id r) activityId
                              && includes AttemptStatusGroups.RETRYABLE_FROM (status r)) s)).

Definition findStaleSuspendedAttempts (olderThan : Z) : prog Store (list (Id * Attempt)) :=
  select (where_attempts (fun r => bool_decide (status r = SUSPENDED) && Z.ltb (last_activity_at r) olderThan)).

Definition getLatestScore (attemptId : Id) : prog Store (option AttemptScore) :=
  select (fun s => first_desc score_computed_at
    (List.filter (fun r => Nat.eqb (score_attempt_id r) attemptId) (scores s))).

Definition getTaskStates (attemptId : Id) : prog Store (list ((Id * string) * TaskState)) :=
  select (fun s => List.filter (fun kv => Nat.eqb kv.1.1 attemptId) (map_to_list (task_states s))).

(** ** create *)
Record CreateRow := mkCreateRow {
  cr_tenantId : Id; cr_userId : Id; cr_activityId : Id; cr_activityVersionId : Id; cr_mode : ActivityMode;
  cr_idempotencyKey : option string; cr_retryOfAttemptId : option Id; cr_retryIndex : option Z }.

(** [input.idempotencyKey ? ...]: the empty string is falsy. *)
Definition truthy_key (k : option string) : option string :=
  match k with Some EmptyString | None => None | Some k => Some k end.

Definition has_key (userId versionId : Id) (key : string) (r : Attempt) : bool :=
  Nat.eqb (user_id r) userId && Nat.eqb (activity_version_id r) versionId
  && bool_decide (idempotency_key r = Some key).

(** INSERT ... RETURNING, under the unique index uq_attempt_idempotency. *)
Definition new_attempt (input : CreateRow) (clock : Z) : Attempt :=
  mkAttempt (cr_tenantId input) (cr_userId input) (cr_activityId input) (cr_activityVersionId input)
    (cr_mode input) CREATED (cr_retryOfAttemptId input) (default 0%Z (cr_retryIndex input)) [] None
    (truthy_key (cr_idempotencyKey input)) clock None None None None clock 0 0 1 None None.

Definition fresh_uuid (s : Store) : Id := fresh (dom (attempts s) : gset Id).

Definition insert_attempt (input : CreateRow) : prog Store (Id * Attempt) :=
  act (fun s =>
    let row := new_attempt input (now s) in
    let duplicate := match truthy_key (cr_idempotencyKey input) with
      | Some key => where_attempts (has_key (cr_userId input) (cr_activityVersionId input) key) s
      | None => []
      end in
    match duplicate with
    | _ :: _ => inl (DbError "uq_attempt_idempotency")
    | [] => inr ((fresh_uuid s, row), s <| attempts ::= <[fresh_uuid s := row]> |>)
    end).

Definition create (input : CreateRow) : prog Store (Id * Attempt) :=
  let* existing :=
    match truthy_key (cr_idempotencyKey input) with
    | Some key => select (fun s => head (where_attempts (has_key (cr_userId input) (cr_activityVersionId input) key) s))
    | None => Ret None
    end in
  match existing with
  | Some row => Ret row
  | None => insert_attempt input
  end.

(** ** transition *)
Record Updates := mkUpdates {
  u_status : option AttemptStatus; u_environmentId : option (option string);
  u_startedAt : option Z; u_submittedAt : option Z; u_completedAt : option Z;
  u_expiresAt : option (option Z); u_snapshotId : option (option string);
  u_snapshotTakenAt : option (option Z) }.
#[export] Instance eta_Updates : Eta Updates := fun u =>
  mkUpdates (u_status u) (u_environmentId u) (u_startedAt u) (u_submittedAt u) (u_completedAt u)
    (u_expiresAt u) (u_snapshotId u) (u_snapshotTakenAt u).

Definition no_updates : Updates := mkUpdates None None None None None None None None.
Definition to (st : AttemptStatus) : Updates := no_updates <| u_status := Some st |>.

Definition or_else {A} (new : option A) (old : A) : A := default old new.
Definition or_else_some {A} (new : option A) (old : option A) : option A :=
  match new with Some _ => new | None => old end.

(** The SET clause. *)
Definition updated (u : Updates) (expectedVersion : nat) (clock : Z) (r : Attempt) : Attempt :=
  r <| status := or_else (u_status u) (status r) |>
    <| environment_id := or_else (u_environmentId u) (environment_id r) |>
    <| started_at := or_else_some (u_startedAt u) (started_at r) |>
    <| submitted_at := or_else_some (u_submittedAt u) (submitted_at r) |>
    <| completed_at := or_else_some (u_completedAt u) (completed_at r) |>
    <| expires_at := or_else (u_expiresAt u) (expires_at r) |>
    <| snapshot_id := or_else (u_snapshotId u) (snapshot_id r) |>
    <| snapshot_taken_at := or_else (u_snapshotTakenAt u) (snapshot_taken_at r) |>
    <| last_activity_at := clock |>
    <| version := S expectedVersion |>.

(** UPDATE ... WHERE id AND version RETURNING; no row is a conflict.  [updates]
    may use the clock of the call ([new Date()]). *)
Definition transition (attemptId : Id) (expectedVersion : nat) (updates : Z -> Updates) : prog Store Attempt :=
  act (fun s =>
    match attempts s !! attemptId with
    | Some r =>
        if Nat.eqb (version r) expectedVersion then
          let r' := updated (updates (now s)) expectedVersion (now s) r in
          inr (r', s <| attempts := <[attemptId := r']> (attempts s) |>)
        else inl ConflictException
    | None => inl ConflictException
    end).

(** UPDATE last_activity_at, no version check. *)
Definition touch (attemptId : Id) : prog Store unit :=
  execute (fun s => s <| attempts ::= alter (fun r => r <| last_activity_at := now s |>) attemptId |>).

(** ** Laws *)
Lemma first_desc_spec {A} (f : A -> Z) l :
  match first_desc f l with
  | Some x => x ∈ l /\ forall y, y ∈ l -> (f y <= f x)%Z
  | None => l = []
  end.
Proof.
  induction l as [|x l IH]; [easy |]. cbn. destruct (first_desc f l) as [y|].
  - destruct IH as [I M]. destruct (Z.ltb_spec (f x) (f y)).
    + split; [now right |]. intros z [->|Z]%elem_of_cons; [lia | now apply M].
    + split; [now left |]. intros z [->|Z]%elem_of_cons; [lia |]. specialize (M z Z). lia.
  - subst l. split; [now left |]. intros z [->|[]%elem_of_nil]%elem_of_cons. lia.
Qed.

Lemma where_attempts_spec p s id r :
  (id, r) ∈ where_attempts p s <-> attempts s !! id = Some r /\ p r = true.
Proof.
  unfold where_attempts. rewrite list_elem_of_In, List.filter_In, <- list_elem_of_In, elem_of_map_to_list. easy.
Qed.

(** A transition moves its row one version on, along an edge of the status graph
    when the caller's guard says so, and leaves every other row alone. *)
Lemma run_transition id v u s :
  run (transition id v u) s =
  match attempts s !! id with
  | Some r => if Nat.eqb (version r) v
              then (inr (updated (u (now s)) v (now s) r),
                    s <| attempts := <[id := updated (u (now s)) v (now s) r]> (attempts s) |>)
              else (inl ConflictException, s)
  | None => (inl ConflictException, s)
  end.
Proof. unfold transition. run_simpl. destruct (attempts s !! id) as [r|]; [|easy]. now destruct (Nat.eqb _ v). Qed.

Lemma updated_status u v c r st : u_status u = Some st -> status (updated u v c r) = st.
Proof. intros E. cbn. now rewrite E. Qed.

(** ** Moves along a graph of statuses *)
Section Evolution.
Context {G : Graph}.

Lemma touch_evolves id : preserves evolves (touch id).
Proof.
  apply preserves_execute. intros s j. change (attempts (s <| attempts ::= alter (fun r => r <| last_activity_at := now s |>) id |>))
    with (alter (fun r => r <| last_activity_at := now s |>) id (attempts s)).
  destruct (decide (id = j)) as [<-|N].
  - rewrite lookup_alter_eq. destruct (attempts s !! id); cbn; [|exact I].
    now apply row_evolves_same_row.
  - rewrite lookup_alter_ne by easy. destruct (attempts s !! j); cbn; [reflexivity | exact I].
Qed.

Hint Resolve touch_evolves : preserves.

Lemma fresh_uuid_new s : attempts s !! fresh_uuid s = None.
Proof. apply not_elem_of_dom. unfold fresh_uuid. apply is_fresh. Qed.

Lemma insert_evolves input : preserves evolves (insert_attempt input).
Proof.
  apply preserves_act. intros s a s' E. cbv zeta in E.
  destruct (match truthy_key _ with Some _ => _ | None => _ end) as [|x l]; [|easy]. injection E as <- <-.
  eapply evolves_create; [reflexivity | apply fresh_uuid_new | reflexivity | reflexivity].
Qed.
Lemma create_evolves input : preserves evolves (create input).
Proof.
  unfold create. apply preserves_bind; [destruct (truthy_key _); auto with preserves typeclass_instances |].
  intros [row|]; [exact I | apply insert_evolves].
Qed.

(** The row a handler read, somewhere in its past. *)
Definition known_row (id : Id) (r : Attempt) (s : Store) : Prop :=
  exists r', attempts s !! id = Some r' /\ row_evolves id r r'.

Lemma known_row_read id r s : attempts s !! id = Some r -> known_row id r s.
Proof. exists r. split; [easy | reflexivity]. Qed.
Lemma known_row_evolves id r s s' : known_row id r s -> evolves s s' -> known_row id r s'.
Proof.
  intros (r1 & L & V) E. destruct (evolves_lookup s s' id r1 E L) as (r2 & L2 & V2).
  exists r2. split; [easy | etrans; eauto].
Qed.

(** The optimistic lock at work: a transition guarded by the version of a row
    read earlier only ever makes the move the guard allowed from that row. *)
Lemma transition_evolves id r0 u st' s : known_row id r0 s ->
  (forall c, u_status (u c) = Some st') -> move id (status r0) st' = true ->
  guaranteed evolves (transition id (version r0) u) (fun r s' => known_row id r s') s.
Proof.
  intros K U E s' V. destruct (known_row_evolves id r0 s s' K V) as (r1 & L1 & V1). cbv beta. rewrite L1.
  destruct (Nat.eqb_spec (version r1) (version r0)) as [EV|]; [|easy]. split.
  - apply (evolves_insert s' _ id r1 (updated (u (now s')) (version r0) (now s') r1)); [reflexivity | easy |].
    apply row_evolves_move.
    + rewrite (updated_status _ _ _ _ st') by apply U. rewrite (row_evolves_same id r0 r1) by easy. exact E.
    + cbn. now rewrite EV.
  - intros s2 V2. refine (known_row_evolves _ _ _ _ (known_row_read _ _ _ _) V2). apply lookup_insert_eq.
Qed.
End Evolution.
#[export] Hint Resolve touch_evolves : preserves.
