(* ===== verification/ValidatorRunner.v ===== *)
(** * The validator runner

    evaluation/validator-runner.service.ts: runs a task's validators through
    the executor with a timeout and three tries, records the results and emits
    TASK_PASSED or TASK_FAILED.  The executor is another service: [Executor].
    Validators of one task run in parallel in the source; they only call the
    executor, and are listed here in author order. *)
From S2P Require Import Prelude JsNum Binary64 Effects Schema AttemptStatus EventStore Criteria.

Record ValidatorResult := mkValidatorResult {
  er_validatorId : string; er_status : ValidatorResultStatus;
  er_observed : option Json; er_expected : option Json }.

(** VALIDATOR_EXECUTOR.execute, seeing the calls made so far; [None] when it
    rejects or exceeds the timeout. *)
Class Executor := {
  executor_execute : list RemoteCall -> string -> Id -> ValidatorSpec -> option ValidatorResult
}.

Inductive Scope := ScopeAll | ScopeTask (taskKey : string).
Record RunValidationInput := mkRunValidationInput {
  rv_attemptId : Id; rv_environmentId : string; rv_scope : Scope; rv_trigger : string; rv_tasks : list TaskSpec }.

(** TaskValidationSummary has the fields of the [TaskResult] scoring reads. *)
Abbreviation TaskValidationSummary := TaskResult (only parsing).

Definition maxAttempts : nat := 3.

Section ValidatorRunner.
Context `{Executor}.

Definition call_executor (environmentId : string) (attemptId : Id) (spec : ValidatorSpec)
    : prog Store (option ValidatorResult) :=
  act (fun s => inr (executor_execute (calls s) environmentId attemptId spec,
                     s <| calls ::= fun l => l ++ [CallValidator environmentId attemptId (vs_id spec)] |>)).

(** The loop, with the tries left after this one. *)
Fixpoint try_execute (triesLeft : nat) (environmentId : string) (attemptId : Id) (spec : ValidatorSpec)
    : prog Store ValidatorResult :=
  let* result := call_executor environmentId attemptId spec in
  match result, triesLeft with
  | Some result, 0%nat => Ret result
  | Some result, S n =>
      if bool_decide (er_status result = ERROR) then try_execute n environmentId attemptId spec else Ret result
  | None, 0%nat => Ret (mkValidatorResult (vs_id spec) ERROR None None)
  | None, S n => try_execute n environmentId attemptId spec
  end.
Definition executeWithTimeoutAndRetry := try_execute (maxAttempts - 1).

(** [validatorMeta]: a Map keyed by id, so the last declaration counts. *)
Definition meta_of (task : TaskSpec) (validatorId : string) : option ValidatorSpec :=
  List.find (fun v => String.eqb (vs_id v) validatorId) (rev (t_validators task)).
Definition severity_of (task : TaskSpec) (validatorId : string) : Severity :=
  default BLOCKING (meta_of task validatorId ≫= vs_severity).
Definition weight_of (task : TaskSpec) (validatorId : string) : Q :=
  from_option vs_weight 1 (meta_of task validatorId).

Definition status_json (st : ValidatorResultStatus) : Json :=
  JStr (match st with PASS => "PASS" | FAIL => "FAIL" | ERROR => "ERROR" | SKIP => "SKIP" end).

Definition record_result (runId attemptId : Id) (result : ValidatorResult) : prog Store unit :=
  execute (fun s => s <| validator_results ::=
    fun l => l ++ [mkValidatorResultRow runId (er_validatorId result) (er_status result)
                       (er_observed result) (er_expected result)] |>) ;;
  appendTypedEvent attemptId VALIDATOR VALIDATOR_RESULT
    (JObj ([("validator_id"%string, JStr (er_validatorId result)); ("status"%string, status_json (er_status result))]
           ++ from_option (fun j => [("observed"%string, j)]) [] (er_observed result)
           ++ from_option (fun j => [("expected"%string, j)]) [] (er_expected result))).

Definition taskPassed (task : TaskSpec) (results : list ValidatorResult) : bool :=
  let scorable := List.filter (fun r => negb (bool_decide (er_status r = ERROR))) results in
  let blockingResults := List.filter (fun r => bool_decide (severity_of task (er_validatorId r) = BLOCKING)) scorable in
  Nat.ltb 0 (length blockingResults) && forallb (fun r => bool_decide (er_status r = PASS)) blockingResults.

Definition summary_of (task : TaskSpec) (results : list ValidatorResult) : TaskValidationSummary :=
  mkTaskResult (t_key task) (t_required task) (taskPassed task results)
    ((fun r => mkValidatorOutcome (er_validatorId r) (er_status r)
                 (weight_of task (er_validatorId r)) (severity_of task (er_validatorId r))) <$> results).

Definition task_payload (key : string) : Json := JObj [("task"%string, JStr key)].

Definition validate_task (runId : Id) (input : RunValidationInput) (task : TaskSpec)
    : prog Store TaskValidationSummary :=
  let* results := for_map (t_validators task)
    (fun v => executeWithTimeoutAndRetry (rv_environmentId input) (rv_attemptId input) v) in
  for_each results (record_result runId (rv_attemptId input)) ;;
  let passed := taskPassed task results in
  appendTypedEvent (rv_attemptId input) SYSTEM (if passed then TASK_PASSED else TASK_FAILED) (task_payload (t_key task)) ;;
  Ret (summary_of task results).

Definition scope_text (scope : Scope) : string :=
  match scope with ScopeAll => "all" | ScopeTask key => "task:" +:+ key end.
Definition tasks_in_scope (input : RunValidationInput) : list TaskSpec :=
  match rv_scope input with
  | ScopeAll => rv_tasks input
  | ScopeTask key => List.filter (fun t => String.eqb (t_key t) key) (rv_tasks input)
  end.

Definition fresh_run (s : Store) : Id := S (fold_right Nat.max 0%nat (vr_id <$> validation_runs s)).
Definition insert_run (input : RunValidationInput) : prog Store Id :=
  act (fun s => inr (fresh_run s,
    s <| validation_runs ::= fun l => l ++ [mkValidationRun (fresh_run s) (rv_attemptId input)
           (scope_text (rv_scope input)) (rv_trigger input) false (now s)] |>)).
Definition complete_run (runId : Id) : prog Store unit :=
  execute (fun s => s <| validation_runs ::= fmap (fun r =>
    if Nat.eqb (vr_id r) runId then r <| vr_completed := true |> else r) |>).

Definition run_validators (input : RunValidationInput) : prog Store (list TaskValidationSummary) :=
  let* runId := insert_run input in
  appendTypedEvent (rv_attemptId input) SYSTEM VALIDATION_REQUESTED
    (JObj [("scope"%string, JStr (scope_text (rv_scope input))); ("trigger"%string, JStr (rv_trigger input))]) ;;
  let* summaries := for_map (tasks_in_scope input) (validate_task runId input) in
  complete_run runId ;;
  Ret summaries.
End ValidatorRunner.

(** ** The verdicts in the log *)
Definition verdicts (id : Id) (s : Store) : list (AttemptEventType * option string) :=
  (fun e => (ev_type e, jstring "task" (ev_payload e)))
  <$> List.filter is_task_event (of_attempt id (events s)).
Definition verdict (m : TaskValidationSummary) : AttemptEventType * option string :=
  (if tr_passed m then TASK_PASSED else TASK_FAILED, Some (tr_taskKey m)).

(** Tables the runner never writes. *)
Record runner_frame (s s' : Store) : Prop := mkRunnerFrame {
  rf_attempts : attempts s' = attempts s; rf_task_states : task_states s' = task_states s;
  rf_mastery : mastery s' = mastery s; rf_scores : scores s' = scores s;
  rf_activity_states : activity_states s' = activity_states s; rf_versions : versions s' = versions s;
  rf_skills : skills s' = skills s; rf_evidence : evidence s' = evidence s; rf_now : now s' = now s;
  rf_milestones : milestones s' = milestones s; rf_submissions : submissions s' = submissions s;
  rf_log : log_ok s -> log_ok s' }.

#[export] Instance runner_frame_preorder : PreOrder runner_frame.
Proof. split; [now constructor | intros s1 s2 s3 [] []; constructor; try congruence; auto]. Qed.

Lemma append_preserves (R : Store -> Store -> Prop) id actor ty payload :
  (forall s, R s (s <| events ::= fun l => l ++ [appended id actor ty payload s] |>)) ->
  preserves R (appendTypedEvent id actor ty payload).
Proof.
  intros F. split; [|intros; exact I]. intros s b s' [= <- <-].
  specialize (F s). unfold appended in F. now rewrite Nat.add_1_r.
Qed.

Lemma append_frame id actor ty payload : preserves runner_frame (appendTypedEvent id actor ty payload).
Proof.
  apply append_preserves. intros s. constructor; try reflexivity. intros L.
  pose proof (append_log_ok id actor ty payload s L) as G. now rewrite run_appendTypedEvent in G.
Qed.
Lemma append_evolves {G : Graph} id actor ty payload : preserves evolves (appendTypedEvent id actor ty payload).
Proof. apply append_preserves. intros s. now apply evolves_frame. Qed.
#[export] Hint Resolve append_frame append_evolves : preserves.

Lemma frame_of (f : Store -> Store) :
  (forall s, attempts (f s) = attempts s /\ task_states (f s) = task_states s /\ mastery (f s) = mastery s /\
     scores (f s) = scores s /\ activity_states (f s) = activity_states s /\ versions (f s) = versions s /\
     skills (f s) = skills s /\ evidence (f s) = evidence s /\ now (f s) = now s /\ milestones (f s) = milestones s /\
     submissions (f s) = submissions s /\ events (f s) = events s) ->
  forall s, runner_frame s (f s).
Proof.
  intros F s. destruct (F s) as (? & ? & ? & ? & ? & ? & ? & ? & ? & ? & ? & E). constructor; try easy.
  intros L id. now rewrite E.
Qed.

Section RunnerLaws.
Context `{Executor}.

Lemma call_frame env id spec : preserves runner_frame (call_executor env id spec).
Proof. apply preserves_act. intros s a s' [= <- <-]. now constructor. Qed.
Lemma try_frame n env id spec : preserves runner_frame (try_execute n env id spec).
Proof.
  induction n as [|n IH]; cbn [try_execute];
    (apply preserves_bind; [apply call_frame |]; intros [r|]; try exact I; auto).
  destruct (bool_decide _); [exact IH | exact I].
Qed.
Lemma record_frame runId id r : preserves runner_frame (record_result runId id r).
Proof.
  unfold record_result. preserves_step; [|auto with preserves].
  apply preserves_execute. now apply frame_of.
Qed.
Lemma validate_task_frame runId input t : preserves runner_frame (validate_task runId input t).
Proof.
  unfold validate_task. preserves.
  - apply try_frame.
  - apply record_frame.
Qed.
Lemma run_validators_frame input : preserves runner_frame (run_validators input).
Proof.
  unfold run_validators. preserves.
  - apply preserves_act. intros s a s' [= <- <-]. now constructor.
  - apply validate_task_frame.
  - apply preserves_execute. now apply frame_of.
Qed.

Lemma frame_evolves {G : Graph} s s' : runner_frame s s' -> evolves s s'.
Proof. intros F. apply evolves_frame, F. Qed.
Lemma preserves_weaken {A} (R R' : Store -> Store -> Prop) (p : prog Store A) :
  (forall s s', R s s' -> R' s s') -> preserves R p -> preserves R' p.
Proof. intros W. induction p as [| |B f k IH]; cbn; auto. intros [H1 H2]. split; eauto. Qed.
Lemma run_validators_evolves {G : Graph} input : preserves evolves (run_validators input).
Proof. eapply preserves_weaken; [exact frame_evolves | apply run_validators_frame]. Qed.
End RunnerLaws.

(** ** What a run decides *)
Lemma verdicts_append id actor ty payload id' s :
  verdicts id' (snd (run (appendTypedEvent id actor ty payload) s)) =
  verdicts id' s ++ (if Nat.eqb id id' && is_task_event (appended id actor ty payload s)
                     then [(ty, jstring "task" payload)] else []).
Proof.
  rewrite run_appendTypedEvent. unfold verdicts. change (events (snd _)) with (events s ++ [appended id actor ty payload s]).
  rewrite appended_of_attempt. destruct (Nat.eqb id id'); cbn [andb]; [|now rewrite app_nil_r].
  rewrite List.filter_app, fmap_app. f_equal. cbn. now destruct (is_task_event _).
Qed.

(** The rule of the doc: some blocking validator was scorable, and none of them
    was other than PASS. *)
Definition passes (outcomes : list ValidatorOutcome) : Prop :=
  (exists v, v ∈ outcomes /\ vo_severity v = BLOCKING /\ vo_status v <> ERROR) /\
  (forall v, v ∈ outcomes -> vo_severity v = BLOCKING -> vo_status v <> ERROR -> vo_status v = PASS).

Lemma taskPassed_spec t rs : taskPassed t rs = true <-> passes (tr_validatorResults (summary_of t rs)).
Proof.
  unfold taskPassed, passes. cbn [tr_validatorResults summary_of].
  set (bl := List.filter _ (List.filter _ rs)).
  assert (B : forall r, r ∈ bl <-> r ∈ rs /\ severity_of t (er_validatorId r) = BLOCKING /\ er_status r <> ERROR).
  { intros r. subst bl. rewrite list_elem_of_In, !List.filter_In, <- list_elem_of_In, bool_decide_eq_true, negb_true_iff, bool_decide_eq_false. tauto. }
  rewrite andb_true_iff, Nat.ltb_lt, forallb_forall. setoid_rewrite <- list_elem_of_In. setoid_rewrite bool_decide_eq_true.
  setoid_rewrite list_elem_of_fmap. split.
  - intros [L A]. split.
    + destruct bl as [|r bl]; [cbn in L; lia |]. destruct (proj1 (B r)) as (I & S & E); [now left |].
      eexists. split; [exists r; eauto | easy].
    + intros v (r & -> & I) S E. apply A, B. auto.
  - intros [(v & (r & -> & I) & S & E) A]. split.
    + assert (X : r ∈ bl) by now apply B. destruct bl; [now apply elem_of_nil in X | cbn; lia].
    + intros r' X. apply B in X as (I' & S' & E'). apply (A (mkValidatorOutcome (er_validatorId r') (er_status r') (weight_of t (er_validatorId r')) (severity_of t (er_validatorId r')))); cbn; eauto.
Qed.

Section RunnerRuns.
Context `{Executor}.

(** A helper that changes no event of kind task. *)
Definition quiet (s s' : Store) : Prop := forall id, verdicts id s' = verdicts id s.
#[export] Instance quiet_preorder : PreOrder quiet.
Proof. split; [now intros s id | intros a b c H1 H2 id; now rewrite H2]. Qed.
Lemma quiet_events s s' : events s' = events s -> quiet s s'.
Proof. intros E id. unfold verdicts. now rewrite E. Qed.
Lemma append_quiet id actor ty payload : includes [TASK_PASSED; TASK_FAILED; TASK_SKIPPED; HINT_REQUESTED] ty = false ->
  preserves quiet (appendTypedEvent id actor ty payload).
Proof.
  intros N. apply append_preserves. intros s id'. pose proof (verdicts_append id actor ty payload id' s) as V.
  rewrite run_appendTypedEvent in V. cbn [snd] in V. rewrite V.
  unfold is_task_event. cbn [ev_type appended]. rewrite N, andb_false_r. apply app_nil_r.
Qed.

Lemma try_runs n env id spec s :
  runs (try_execute n env id spec) s (fun r s' => runner_frame s s' /\ quiet s s').
Proof.
  revert s. assert (C : forall s, runs (call_executor env id spec) s (fun _ s' => runner_frame s s' /\ quiet s s')).
  { intros s. eexists _, _. split; [reflexivity |]. split; [now constructor | now apply quiet_events]. }
  induction n as [|n IH]; intros s; cbn [try_execute]; apply runs_bind;
    (eapply runs_mono; [apply C |]); cbn beta; intros [r|] s1 [F1 Q1]; try (apply runs_ret; easy).
  - destruct (bool_decide _); [|now apply runs_ret].
    eapply runs_mono; [apply IH |]. intros r' s2 [F2 Q2]. split; etrans; eassumption.
  - eapply runs_mono; [apply IH |]. intros r' s2 [F2 Q2]. split; etrans; eassumption.
Qed.

Lemma record_runs runId id r s :
  runs (record_result runId id r) s (fun _ s' => runner_frame s s' /\ quiet s s').
Proof.
  pose proof (preserves_run runner_frame (record_result runId id r) s (record_frame runId id r)) as F.
  assert (Q : preserves quiet (record_result runId id r)).
  { unfold record_result. apply preserves_bind; [now apply preserves_execute |]. intros _. now apply append_quiet. }
  apply (preserves_run quiet _ s) in Q. eexists _, _. split; [reflexivity | split; [exact F | exact Q]].
Qed.

Lemma validate_task_runs runId input t s :
  runs (validate_task runId input t) s (fun m s' =>
    runner_frame s s' /\ (tr_taskKey m = t_key t /\ tr_required m = t_required t /\
      (tr_passed m = true <-> passes (tr_validatorResults m))) /\
    verdicts (rv_attemptId input) s' = verdicts (rv_attemptId input) s ++ [verdict m]).
Proof.
  unfold validate_task. apply runs_bind.
  eapply runs_mono; [apply (runs_for_map (fun _ _ s' => runner_frame s s' /\ quiet s s'))|].
  - intros _ _ x s1 [F Q]. eapply runs_mono; [apply try_runs |]. intros r s2 [F2 Q2]. split; etrans; eassumption.
  - split; reflexivity.
  - cbn beta. intros results s1 [F1 Q1]. apply runs_bind.
    eapply runs_mono; [apply (runs_for_each (fun _ s' => runner_frame s s' /\ quiet s s'))|].
    + intros _ x s2 [F Q]. eapply runs_mono; [apply record_runs |]. intros _ s3 [F2 Q2]. split; etrans; eassumption.
    + easy.
    + cbn beta. intros _ s2 [F2 Q2]. apply runs_bind. eexists _, _. split; [apply run_appendTypedEvent |].
      apply runs_ret. set (ty := if taskPassed t results then TASK_PASSED else TASK_FAILED).
      pose proof (verdicts_append (rv_attemptId input) SYSTEM ty (task_payload (t_key t)) (rv_attemptId input) s2) as V.
      pose proof (preserves_run runner_frame _ s2 (append_frame (rv_attemptId input) SYSTEM ty (task_payload (t_key t)))) as F3.
      rewrite run_appendTypedEvent in V, F3. cbn [snd] in V, F3. split_and!.
      * etrans; eassumption.
      * easy.
      * easy.
      * apply taskPassed_spec.
      * rewrite V, (Q2 _), Nat.eqb_refl. f_equal. unfold verdict. cbn [tr_passed summary_of tr_taskKey]. subst ty.
        now destruct (taskPassed t results).
Qed.
End RunnerRuns.

Lemma run_validators_runs `{Executor} input s :
  runs (run_validators input) s (fun ms s' => runner_frame s s' /\
    Forall2 (fun t m => tr_taskKey m = t_key t /\ tr_required m = t_required t /\
      (tr_passed m = true <-> passes (tr_validatorResults m))) (tasks_in_scope input) ms /\
    verdicts (rv_attemptId input) s' = verdicts (rv_attemptId input) s ++ (verdict <$> ms)).
Proof.
  unfold run_validators. apply runs_bind. eexists _, _. split; [reflexivity |]. cbn [fst snd].
  set (s1 := s <| validation_runs ::= _ |>). set (runId := fresh_run s). set (id := rv_attemptId input).
  assert (F1 : runner_frame s s1) by now constructor. assert (Q1 : quiet s s1) by now apply quiet_events.
  clearbody s1 runId. apply runs_bind.
  set (payload := JObj _). pose proof (preserves_run runner_frame _ s1 (append_frame id SYSTEM VALIDATION_REQUESTED payload)) as F2.
  pose proof (preserves_run quiet _ s1 (append_quiet id SYSTEM VALIDATION_REQUESTED payload eq_refl)) as Q2.
  rewrite run_appendTypedEvent in F2, Q2. eexists _, _. split; [apply run_appendTypedEvent |].
  cbn [snd] in F2, Q2. set (s2 := s1 <| events ::= _ |>) in *. clearbody s2. apply runs_bind.
  eapply runs_mono; [apply (runs_for_map (fun ts ms s' => runner_frame s s' /\
    Forall2 (fun t m => tr_taskKey m = t_key t /\ tr_required m = t_required t /\
      (tr_passed m = true <-> passes (tr_validatorResults m))) ts ms /\
    verdicts id s' = verdicts id s ++ (verdict <$> ms)))|].
  - intros ts ms t s3 (F & M & V). eapply runs_mono; [apply validate_task_runs |].
    intros m s4 (F' & M' & V'). split_and!; [etrans; eassumption | now apply Forall2_app; [|constructor] |].
    fold id in V'. now rewrite V', V, fmap_app, <- app_assoc.
  - split_and!; [etrans; eassumption | constructor |]. rewrite app_nil_r. rewrite (Q2 id). apply Q1.
  - cbn beta. intros ms s3 (F & M & V). apply runs_bind. eexists _, _. split; [reflexivity |]. apply runs_ret.
    split_and!; [|exact M | exact V]. etrans; [exact F|]. now constructor.
Qed.

(** ** The properties *)

(** The executor's answer at the n-th further try. *)
Definition calls_after (env : string) (id : Id) (spec : ValidatorSpec) (n : nat) (s : Store) : list RemoteCall :=
  calls s ++ replicate n (CallValidator env id (vs_id spec)).
Definition answer `{Executor} env id spec n s : option ValidatorResult :=
  executor_execute (calls_after env id spec n s) env id spec.
Definition conclusive (o : option ValidatorResult) : bool :=
  match o with Some r => negb (bool_decide (er_status r = ERROR)) | None => false end.

(** A validator is tried at most three times; the first conclusive (not ERROR,
    not timed out) answer is the result and ends the tries; without one the
    result is ERROR, never a failure of the learner. *)
Theorem retry_policy `{Executor} env id spec s :
  exists n r s', (1 <= n <= 3)%nat /\
    run (executeWithTimeoutAndRetry env id spec) s = (inr r, s') /\
    calls s' = calls_after env id spec n s /\
    (forall k, (k < n - 1)%nat -> conclusive (answer env id spec k s) = false) /\
    (if conclusive (answer env id spec (n - 1) s) then answer env id spec (n - 1) s = Some r
     else n = 3%nat /\ er_status r = ERROR).
Proof.
  assert (G : forall t s, exists n r s', (1 <= n <= S t)%nat /\
    run (try_execute t env id spec) s = (inr r, s') /\ calls s' = calls_after env id spec n s /\
    (forall k, (k < n - 1)%nat -> conclusive (answer env id spec k s) = false) /\
    (if conclusive (answer env id spec (n - 1) s) then answer env id spec (n - 1) s = Some r
     else n = S t /\ er_status r = ERROR)); [|exact (G 2%nat s)].
  clear s. intros t. induction t as [|t IH]; intros s; cbn [try_execute]; rewrite run_bind;
    unfold call_executor; rewrite run_act; set (s1 := s <| calls ::= _ |>);
    assert (A0 : answer env id spec 0 s = executor_execute (calls s) env id spec)
      by (unfold answer, calls_after; cbn; now rewrite app_nil_r); rewrite <- A0.
  - exists 1%nat. destruct (answer env id spec 0 s) as [r|] eqn:E; eexists _, _; (split; [lia |]); (split; [reflexivity |]);
      (split; [reflexivity |]); (split; [lia |]); cbn [Nat.sub]; rewrite E; cbn; [|easy].
    destruct (bool_decide_reflect (er_status r = ERROR)); easy.
  - assert (A1 : forall k, answer env id spec k s1 = answer env id spec (S k) s).
    { intros k. unfold answer, calls_after. f_equal. cbn. now rewrite <- app_assoc. }
    assert (R : conclusive (answer env id spec 0 s) = false -> exists n r s', (1 <= n <= S (S t))%nat /\
      run (try_execute t env id spec) s1 = (inr r, s') /\ calls s' = calls_after env id spec n s /\
      (forall k, (k < n - 1)%nat -> conclusive (answer env id spec k s) = false) /\
      (if conclusive (answer env id spec (n - 1) s) then answer env id spec (n - 1) s = Some r
       else n = S (S t) /\ er_status r = ERROR)).
    { intros C. destruct (IH s1) as (n & r & s' & L & E & K & F & V). exists (S n), r, s'.
      split_and!; [lia | lia | exact E | rewrite K; unfold calls_after; cbn; now rewrite <- app_assoc | |].
      - intros [|k] Hk; [exact C |]. rewrite <- A1. apply F. lia.
      - replace (S n - 1)%nat with (S (n - 1)) by lia. rewrite <- A1. clear C. revert V.
        destruct (conclusive _); [easy |]. intros [-> V]. easy. }
    destruct (answer env id spec 0 s) as [r|] eqn:E; [|exact (R eq_refl)]. cbn in R.
    destruct (bool_decide (er_status r = ERROR)) eqn:D; [exact (R eq_refl) |].
    exists 1%nat. eexists _, _. split; [lia |]. split; [reflexivity |]. split; [reflexivity |]. split; [lia |].
    cbn [Nat.sub]. rewrite E. cbn. now rewrite D.
Qed.

(** C19: A validation run never fails and gives one verdict per task in scope, in
    order: a task passes exactly when at least one BLOCKING validator gave a
    scorable result and every such result is PASS (WARN and ERROR results do not
    count); the log gains exactly one TASK_PASSED or TASK_FAILED per task, as the
    verdict says; attempts, task states, mastery and scores are untouched. *)
Theorem runner_verdicts `{Executor} input s :
  exists ms s', run (run_validators input) s = (inr ms, s') /\ runner_frame s s' /\
    Forall2 (fun t m => tr_taskKey m = t_key t /\ tr_required m = t_required t /\
      (tr_passed m = true <-> passes (tr_validatorResults m))) (tasks_in_scope input) ms /\
    verdicts (rv_attemptId input) s' = verdicts (rv_attemptId input) s ++ (verdict <$> ms).
Proof. exact (run_validators_runs input s). Qed.
