(* ===== verification/ShellValidators.v ===== *)
(** * Validators that run commands in the workspace

    evaluation/t3/: the shell they run on (shell-runner.ts) and the handlers
    IAC_STATE, STATIC_ANALYSIS, PERF_BENCH and CHAOS_PROBE.  The shell is
    another program: it may reject, fail to run a command ([infraError]), answer
    anything and take any time.  A result keeps the status, the observed and
    the expected value; the evidence text and the duration are left out. *)
From Stdlib Require Import Ascii.
From stdpp Require Import pretty.
From S2P Require Import Prelude RegExp JsNum Binary64 Effects Schema JsText JsonParse Criteria ValidatorRunner.
Open Scope Z_scope.

(** ** The shell *)
Record ShellCommand := mkShellCommand {
  sh_argv : list string; sh_cwd : option string; sh_env : list (string * string); sh_timeoutMs : Z }.
Record ShellResult := mkShellResult {
  exitCode : Z; stdout : string; stderr : string; infraError : option string }.

(** The commands run so far and the clock: what the shell answers and how long
    it takes may depend on both. *)
Record Workspace := mkWorkspace { ws_commands : list ShellCommand; ws_clock : Z }.
Class ShellRunner := {
  backend : string;
  shell_run : Workspace -> ShellCommand -> exn + ShellResult;
  shell_time : Workspace -> ShellCommand -> Z;
  shell_time_nonneg : forall w c, 0 <= shell_time w c
}.

(** [x.toFixed(d)]: half away from zero, on the exact value; from 1e21 on it is
    [String(x)].  And [Number(x.toFixed(d))]. *)
Definition fixed_digits (d : nat) (x : Q) : Z := Qfloor (Qabs x * inject_Z (pow10 d) + (1 # 2)).
Definition too_large (x : Q) : bool := (inject_Z (10 ^ 21) <=? Qabs x)%Q.
Definition sign_of (x : Q) : Q := if (x <? 0)%Q then -(1) else 1%Q.
Definition fixed_number `{Rounding} (d : nat) (x : Q) : Q :=
  if too_large x then x
  else Qred (sign_of x * lit (inject_Z (fixed_digits d x) / inject_Z (pow10 d))).
Definition fixed_text `{Rounding} (d : nat) (x : Q) : string :=
  let n := fixed_digits d x in
  if too_large x then number_text x
  else ((if (x <? 0)%Q then "-" else "") ++ pretty (n / pow10 d) ++
        match d with O => EmptyString | _ => "." ++ padded (Z.of_nat d) (n mod pow10 d) end)%string.

(** One named check of a validator. *)
Record CheckOutcome := mkCheckOutcome { ck_name : string; ck_pass : bool; ck_detail : string }.
Definition check_json (c : CheckOutcome) : Json :=
  JObj [("name"%string, JStr (ck_name c)); ("pass"%string, JBool (ck_pass c)); ("detail"%string, JStr (ck_detail c))].

Definition verdict_of (passed : bool) : ValidatorResultStatus := if passed then PASS else FAIL.

Section Handlers.
Context `{Rounding} `{ShellRunner}.

Definition runner_run (c : ShellCommand) : prog Workspace ShellResult :=
  act (fun w => match shell_run w c with
                | inl e => inl e
                | inr r => inr (r, mkWorkspace (ws_commands w ++ [c]) (ws_clock w + shell_time w c))
                end).
(** The command's result, unless it could not be run. *)
Definition run_command (c : ShellCommand) : prog Workspace (option ShellResult) :=
  let* r := runner_run c in
  Ret (match truthy (infraError r) with Some _ => None | None => Some r end).
Definition simple (argv : list string) (timeoutMs : Z) : ShellCommand := mkShellCommand argv None [] timeoutMs.

(** [err(detail)]. *)
Definition err (validatorId : string) : prog Workspace ValidatorResult :=
  Ret (mkValidatorResult validatorId ERROR None None).
(** [if (...) return err(...)]. *)
Definition or_err {A} (validatorId : string) (m : prog Workspace (option A)) (k : A -> prog Workspace ValidatorResult)
    : prog Workspace ValidatorResult :=
  let* r := m in match r with Some a => k a | None => err validatorId end.

(** ** IAC_STATE *)
Definition SECRET_PATTERNS : list (string * regexp) := [
  ("aws_access_key_id"%string, rx "AKIA[0-9A-Z]{16}");
  ("private_key_block"%string, rx "-----BEGIN (?:RSA |EC |OPENSSH )?PRIVATE KEY-----");
  ("secret_valued_field"%string, rx_i "\x22[a-z0-9_]*(?:password|secret|token)\x22\s*:\s*\x22[^\x22]{6,}\x22")].

Definition in_dir (cwd : string) (argv : list string) (timeoutMs : Z) : ShellCommand :=
  mkShellCommand argv (Some cwd) [] timeoutMs.

Definition no_drift_check (cwd : string) : prog Workspace (option CheckOutcome) :=
  let* plan := run_command (in_dir cwd ["terraform"; "plan"; "-detailed-exitcode"; "-lock=false"; "-input=false"; "-no-color"]%string 180000) in
  Ret (plan ← plan;
       if exitCode plan =? 1 then None
       else let noDrift := exitCode plan =? 0 in
            Some (mkCheckOutcome "no_drift" noDrift
              (if noDrift then "terraform plan reports no changes"
               else "terraform plan reports pending changes (exit " ++ pretty (exitCode plan) ++ ")")%string)).
Definition pull_state (cwd : string) : prog Workspace (option string) :=
  let* pull := run_command (in_dir cwd ["terraform"; "state"; "pull"]%string 60000) in
  Ret (pull ← pull; if exitCode pull =? 0 then Some (stdout pull) else None).
Definition remote_backend_check (cwd : string) : prog Workspace (option CheckOutcome) :=
  let* ls := run_command (in_dir cwd ["sh"; "-c"; "test -f terraform.tfstate && echo LOCAL || echo REMOTE"]%string 15000) in
  Ret (ls ← ls;
       let isRemote := String.eqb (trim (stdout ls)) "REMOTE" in
       Some (mkCheckOutcome "require_remote_backend" isRemote
         (if isRemote then "no local terraform.tfstate present — state is in a remote backend"
          else "a local terraform.tfstate file is present — state is NOT in a remote backend")%string)).
Definition secrets_check (stateJson : string) : CheckOutcome :=
  let hits := fst <$> List.filter (fun p => test p.2 stateJson) SECRET_PATTERNS in
  mkCheckOutcome "forbid_secrets_in_state" (Nat.eqb (List.length hits) 0)
    (if Nat.eqb (List.length hits) 0 then "no secret-shaped values found in the pulled state"
     else "possible secrets in state: " ++ String.concat ", " hits)%string.

(** [if (flag) { ...; checks.push(...) }]. *)
Definition guarded_check (flag : bool) (m : prog Workspace (option CheckOutcome)) : prog Workspace (option (list CheckOutcome)) :=
  if flag then (let* c := m in Ret ((fun c => [c]) <$> c)) else Ret (Some []).

Definition checks_verdict (validatorId : string) (checks : list CheckOutcome) (expected : Json) : ValidatorResult :=
  mkValidatorResult validatorId (verdict_of (forallb ck_pass checks))
    (Some (JObj [("backend"%string, JStr backend); ("checks"%string, JArr (check_json <$> checks))])) (Some expected).

Definition flag (o : option bool) : bool := default false o.
Definition runIacState (validatorId : string) (rawConfig : option IacStateConfig) : prog Workspace ValidatorResult :=
  let cfg := default (mkIacStateConfig None None None None) rawConfig in
  let cwd := default "."%string (truthy (is_working_dir cfg)) in
  let no_drift := flag (is_no_drift cfg) in
  let remote := flag (is_require_remote_backend cfg) in
  let secrets := flag (is_forbid_secrets_in_state cfg) in
  or_err validatorId (guarded_check no_drift (no_drift_check cwd)) (fun drift =>
  or_err validatorId (if remote || secrets then pull_state cwd else Ret (Some EmptyString)) (fun stateJson =>
  or_err validatorId (guarded_check remote (remote_backend_check cwd)) (fun backend_checks =>
  let checks := drift ++ backend_checks ++ (if secrets then [secrets_check stateJson] else []) in
  match checks with
  | [] => err validatorId
  | _ => Ret (checks_verdict validatorId checks
           (JObj [("no_drift"%string, JBool no_drift); ("require_remote_backend"%string, JBool remote);
                  ("forbid_secrets_in_state"%string, JBool secrets)]))
  end))).

(** ** STATIC_ANALYSIS *)
Definition to_upper (s : string) : string := implode (upper <$> explode s).
Definition SEVERITY_ORDER : list string := ["NONE"; "LOW"; "MEDIUM"; "HIGH"; "CRITICAL"]%string.
Fixpoint index_of (x : string) (l : list string) : option nat :=
  match l with [] => None | y :: l => if String.eqb y x then Some 0%nat else S <$> index_of x l end.
(** [i < 0 ? 0 : i]. *)
Definition sevRank (s : string) : nat := default 0%nat (index_of (to_upper s) SEVERITY_ORDER).

Record Finding := mkFinding { fi_ruleId : string; fi_severity : string; fi_location : string; fi_description : string }.
Definition finding_json (f : Finding) : Json :=
  JObj [("ruleId"%string, JStr (fi_ruleId f)); ("severity"%string, JStr (fi_severity f));
        ("location"%string, JStr (fi_location f)); ("description"%string, JStr (fi_description f))].

Definition line_text (j : option Json) : string := match j with Some (JNum q) => number_text q | _ => EmptyString end.
Definition locFrom (loc : option Json) : string :=
  let l := asRecord loc in
  (asString (get l "filename") "" ++ ":" ++ line_text (get l "start_line"))%string.

Definition tfsec_finding (raw : Json) : Finding :=
  let x := asRecord (Some raw) in
  mkFinding (pickString x ["rule_id"; "long_id"]%string "unknown") (asString (get x "severity") "UNKNOWN")
    (locFrom (get x "location")) (asString (get x "description") "").
Definition checkov_finding (raw : Json) : Finding :=
  let c := asRecord (Some raw) in
  mkFinding (asString (get c "check_id") "unknown") (asString (get c "severity") "MEDIUM")
    (asString (get c "file_path") "" ++ ":" ++ line_text (head (asArray (get c "file_line_range"))))%string
    (asString (get c "check_name") "").
Definition trivy_finding (res : list (string * Json)) (raw : Json) : Finding :=
  let m := asRecord (Some raw) in
  mkFinding (asString (get m "ID") "unknown") (asString (get m "Severity") "UNKNOWN")
    (asString (get res "Target") "") (asString (get m "Title") "").

Definition tfsec_findings (out : string) : list Finding :=
  tfsec_finding <$> asArray (get (asRecord (parseLooseJson out)) "results").
(** [Array.isArray(parsed) ? parsed : parsed ? [parsed] : []]; the text of a
    report starts with a bracket, so a parsed value is no falsy one. *)
Definition checkov_findings (out : string) : list Finding :=
  let blocks := match parseLooseJson out with Some (JArr l) => l | Some v => [v] | None => [] end in
  blocks ≫= fun b => checkov_finding <$> asArray (get (asRecord (get (asRecord (Some b)) "results")) "failed_checks").
Definition trivy_findings (out : string) : list Finding :=
  asArray (get (asRecord (parseLooseJson out)) "Results") ≫= fun rawRes =>
    let res := asRecord (Some rawRes) in trivy_finding res <$> asArray (get res "Misconfigurations").

Definition tool_command (tool target : string) : ShellCommand :=
  if String.eqb tool "tfsec" then simple ["tfsec"; target; "--format"; "json"; "--soft-fail"; "--no-color"]%string 180000
  else if String.eqb tool "checkov" then simple ["checkov"; "-d"; target; "-o"; "json"; "--compact"; "--quiet"]%string 240000
  else simple ["trivy"; "config"; "--format"; "json"; "--quiet"; target]%string 240000.
Definition tool_findings (tool out : string) : list Finding :=
  if String.eqb tool "tfsec" then tfsec_findings out
  else if String.eqb tool "checkov" then checkov_findings out else trivy_findings out.
Definition runTool (tool target : string) : prog Workspace (list Finding) :=
  let* r := run_command (tool_command tool target) in
  match r with Some r => Ret (tool_findings tool (stdout r)) | None => Throw (JsError "could not run") end.

(** [bySeverity[key] = (bySeverity[key] ?? 0) + 1]. *)
Definition count_severity (counts : list (string * Json)) (f : Finding) : list (string * Json) :=
  let key := to_upper (fi_severity f) in
  put_field key (JNum (asNumber (get counts key) 0 + 1)) counts.

Definition overThreshold (maxSev : string) (findings : list Finding) : list Finding :=
  List.filter (fun f => Nat.ltb (sevRank maxSev) (sevRank (fi_severity f))) findings.
Definition analysis_failed (max_findings : option Z) (over : nat) : bool :=
  match max_findings with
  | Some m => (m <? Z.of_nat over)
  | None => Nat.ltb 0 over
  end.

Definition runStaticAnalysis (validatorId : string) (rawConfig : option StaticAnalysisConfig) : prog Workspace ValidatorResult :=
  let cfg := default (mkStaticAnalysisConfig None None None None) rawConfig in
  let target := default "."%string (truthy (sac_target cfg)) in
  let maxSev := to_upper (default "NONE"%string (truthy (sac_max_severity_allowed cfg))) in
  match truthy (sac_tool cfg) with
  | None => err validatorId
  | Some tool =>
      let* findings := try_catch (let* f := runTool tool target in Ret (Some f)) (fun _ => Ret None) in
      match findings with
      | None => err validatorId
      | Some findings =>
          let over := overThreshold maxSev findings in
          Ret (mkValidatorResult validatorId (verdict_of (negb (analysis_failed (sac_max_findings cfg) (List.length over))))
            (Some (JObj [("tool"%string, JStr tool); ("backend"%string, JStr backend);
                         ("total_findings"%string, jnat (List.length findings));
                         ("by_severity"%string, JObj (fold_left count_severity findings []));
                         ("over_threshold"%string, jnat (List.length over));
                         ("sample"%string, JArr (finding_json <$> take 10%nat over))]))
            (Some (JObj (("max_severity_allowed"%string, JStr maxSev) ::
                     from_option (fun m => [("max_findings"%string, JNum (inject_Z m))]) [] (sac_max_findings cfg)))))
      end
  end.

(** ** PERF_BENCH *)
Definition SUMMARY_PATH : string := "/tmp/k6-summary.json".
Definition k6_run (script : string) : list string :=
  ["k6"; "run"; "--quiet"; "--summary-export"; SUMMARY_PATH; script]%string.
Definition generated_script (url : string) (rps durationS : Z) : string :=
  (String.concat newline [
    "import http from 'k6/http';";
    "export const options = {";
    "  scenarios: { load: { executor: 'constant-arrival-rate', rate: " ++ pretty rps ++ ", timeUnit: '1s',";
    "    duration: '" ++ pretty durationS ++ "s', preAllocatedVUs: " ++ pretty (Z.max rps 10) ++ ", maxVUs: " ++ pretty (rps * 4) ++ " } },";
    "};";
    "export default function () { http.get(" ++ json_quote url ++ "); }"])%string.
Definition write_script (url : string) (rps durationS : Z) : ShellCommand :=
  simple ["sh"%string; "-c"%string;
    ("cat > /tmp/perf-bench.js <<'EOF'" ++ newline ++ generated_script url rps durationS ++ newline ++ "EOF")%string] 15000.

(** [asNumber(v, NaN)]: [None] is NaN. *)
Definition finite (v : option Json) : option Q := match v with Some (JNum q) => Some q | _ => None end.
Definition metric (summary : list (string * Json)) (name key : string) : option Q :=
  finite (get (asRecord (get (asRecord (get (asRecord (get summary "metrics")) name)) "values")) key).

Definition latency_check (p95 : option Q) (p95_ms_max : Z) : CheckOutcome :=
  mkCheckOutcome "p95_latency" (match p95 with Some p => p <=? inject_Z p95_ms_max | None => false end)%Q
    ("p95 " ++ from_option (fun p => fixed_text 1 p ++ "ms") "n/a" p95 ++ " vs max " ++ pretty p95_ms_max ++ "ms")%string.
Definition error_rate_check (errorRate : option Q) (errorRateMax : Q) : CheckOutcome :=
  mkCheckOutcome "error_rate" (match errorRate with Some r => r <=? errorRateMax | None => true end)%Q
    ("error rate " ++ from_option (fun r => fixed_text 2 (r *! 100) ++ "%") "n/a" errorRate ++
     " vs max " ++ fixed_text 2 (errorRateMax *! 100) ++ "%")%string.

(** The script to run: the author's, or one written for the URL. *)
Definition bench_script (cfg : PerfBenchConfig) (rps durationS : Z) : prog Workspace (option string) :=
  match truthy (pb_script cfg) with
  | Some script => Ret (Some script)
  | None =>
      let* write := run_command (write_script (default EmptyString (pb_target_url cfg)) rps durationS) in
      Ret (write ← write; if exitCode write =? 0 then Some "/tmp/perf-bench.js"%string else None)
  end.
Definition read_summary : prog Workspace (option (list (string * Json))) :=
  let* cat := run_command (simple ["cat"%string; SUMMARY_PATH] 15000) in
  Ret (cat ← cat; if exitCode cat =? 0 then Some (asRecord (parseLooseJson (stdout cat))) else None).

Definition bench_checks (cfg : PerfBenchConfig) (summary : list (string * Json)) : list CheckOutcome :=
  from_option (fun m => [latency_check (metric summary "http_req_duration" "p(95)") m]) [] (pb_p95_ms_max cfg) ++
  [error_rate_check (metric summary "http_req_failed" "rate") (default (lit (1 # 100)) (pb_error_rate_max cfg))].

Definition runPerfBench (validatorId : string) (rawConfig : option PerfBenchConfig) : prog Workspace ValidatorResult :=
  let cfg := default (mkPerfBenchConfig None None None None None None) rawConfig in
  match truthy (pb_script cfg), truthy (pb_target_url cfg) with
  | None, None => err validatorId
  | _, _ =>
      let rps := default 20 (pb_rps cfg) in
      let durationS := default 30 (pb_duration_s cfg) in
      or_err validatorId (bench_script cfg rps durationS) (fun script =>
      or_err validatorId (run_command (simple (k6_run script) ((durationS + 60) * 1000))) (fun _ =>
      or_err validatorId read_summary (fun summary =>
      let checks := bench_checks cfg summary in
      match checks with
      | [] => err validatorId
      | _ =>
          Ret (mkValidatorResult validatorId (verdict_of (forallb ck_pass checks))
            (Some (JObj [("backend"%string, JStr backend);
               ("p95_ms"%string, jopt (fun p => JNum (fixed_number 1 p)) (metric summary "http_req_duration" "p(95)"));
               ("error_rate"%string, jopt (fun r => JNum (fixed_number 4 r)) (metric summary "http_req_failed" "rate"));
               ("rps"%string, JNum (inject_Z rps)); ("duration_s"%string, JNum (inject_Z durationS));
               ("checks"%string, JArr (check_json <$> checks))]))
            (Some (JObj (from_option (fun m => [("p95_ms_max"%string, JNum (inject_Z m))]) [] (pb_p95_ms_max cfg) ++
               [("error_rate_max"%string, JNum (default (lit (1 # 100)) (pb_error_rate_max cfg)))]))))
      end)))
  end.

(** ** CHAOS_PROBE *)
Inductive Probe := ProbeOk | ProbeBad | ProbeInfra.
#[export] Instance probe_eq_dec : EqDecision Probe.
Proof. solve_decision. Defined.

Definition probe_command (url : string) : ShellCommand :=
  simple ["curl"; "-s"; "-o"; "/dev/null"; "-w"; "%{http_code}"; "--max-time"; "5"; url]%string 10000.
Definition probeOnce (url : string) (expectStatus : Z) : prog Workspace Probe :=
  let* r := run_command (probe_command url) in
  Ret (match r with
       | None => ProbeInfra
       | Some r => if String.eqb (trim (stdout r)) (pretty expectStatus) then ProbeOk else ProbeBad
       end).

(** A single-quoted shell word. *)
Fixpoint quote_chars (l : chars) : chars :=
  match l with
  | [] => []
  | c :: l => (if (c =? "'")%char then ["'"; "\"; "'"; "'"]%char else [c]) ++ quote_chars l
  end.
Definition shq (s : string) : string := implode ("'"%char :: quote_chars (explode s) ++ ["'"%char]).

(** [selector ? '-l ' + shq(selector) : none]. *)
Definition label_option (selector none : string) : string :=
  match selector with EmptyString => none | _ => ("-l " ++ shq selector)%string end.
Definition some_node (selector : string) : string :=
  match selector with EmptyString => "$(kubectl get nodes -o name | head -1)"%string | _ => selector end.
Definition network_policy (selector : string) : string :=
  String.concat newline [
    "apiVersion: networking.k8s.io/v1"; "kind: NetworkPolicy"; "metadata:"; "  name: chaos-sever-dependency"; "spec:";
    "  podSelector: " ++ match selector with
                         | EmptyString => "{}"
                         | _ => "{ matchLabels: { " ++ replace_text "=" ": " selector ++ " } }"
                         end;
    "  policyTypes: [Egress]"; "  egress: []"]%string.

Definition chaos_script (action selector : string) : option string :=
  (if String.eqb action "kill_pod" then
     Some ("kubectl delete pod " ++ label_option selector "--all" ++ " --grace-period=0 --force")
   else if String.eqb action "delete_deployment_replica" then
     Some ("kubectl get deploy " ++ label_option selector "" ++
       " -o name | head -1 | xargs -I{} sh -c 'kubectl scale {} --replicas=$(( $(kubectl get {} -o jsonpath=" ++
       dquoted "{.spec.replicas}" ++ ") - 1 )); sleep 5; kubectl rollout restart {}'")
   else if String.eqb action "drain_node" then
     Some ("kubectl drain " ++ some_node selector ++ " --ignore-daemonsets --delete-emptydir-data --force --timeout=60s")
   else if String.eqb action "cordon_node" then Some ("kubectl cordon " ++ some_node selector)
   else if String.eqb action "sever_dependency" then
     Some ("cat <<'EOF' | kubectl apply -f -" ++ newline ++ network_policy selector ++ newline ++ "EOF")
   else None)%string.

Record ChaosOutcome := mkChaosOutcome { co_applied : bool; co_infra : bool; co_detail : string }.
Definition applyChaos (action selector : string) : prog Workspace ChaosOutcome :=
  match chaos_script action selector with
  | None => Ret (mkChaosOutcome false false ("unknown action " ++ action))
  | Some script =>
      let* r := runner_run (simple ["sh"%string; "-c"%string; script] 120000) in
      Ret (mkChaosOutcome (exitCode r =? 0) (bool_decide (is_Some (truthy (infraError r))))
             (slice_to 400 (stdout r ++ stderr r)))
  end.

(** A timer fires after at least a millisecond. *)
Definition sleep (ms : Z) : prog Workspace unit :=
  execute (fun w => mkWorkspace (ws_commands w) (ws_clock w + Z.max 1 ms)).

(** [while (Date.now() < deadline)]: each round sleeps, so the milliseconds left
    bound the rounds. *)
Fixpoint probe_loop (fuel : nat) (url : string) (expectStatus intervalMs deadline : Z) : prog Workspace (list bool) :=
  let* clock := select ws_clock in
  if deadline <=? clock then Ret []
  else match fuel with
  | 0%nat => Ret []
  | S fuel =>
      let* r := probeOnce url expectStatus in
      match r with
      | ProbeInfra => Ret []
      | _ =>
          sleep intervalMs ;;
          let* rest := probe_loop fuel url expectStatus intervalMs deadline in
          Ret (bool_decide (r = ProbeOk) :: rest)
      end
  end.

Definition failures (results : list bool) : nat := List.length (List.filter negb results).
Definition endGreen (results : list bool) : bool := List.last results false.
Definition chaos_passed (results : list bool) : bool := Nat.leb (failures results) 1 && endGreen results.
Definition availability (results : list bool) : Q :=
  let total := Nat.max 1 (List.length results) in
  inject_Z (Z.of_nat (total - failures results)) /! inject_Z (Z.of_nat total).

Definition chaos_result (validatorId action detail : string) (recoveryMs : Z) (results : list bool) : ValidatorResult :=
  mkValidatorResult validatorId (verdict_of (chaos_passed results))
    (Some (JObj [("backend"%string, JStr backend); ("action"%string, JStr action);
       ("probes"%string, jnat (List.length results)); ("failed_probes"%string, jnat (failures results));
       ("availability_during_chaos"%string, JNum (fixed_number 4 (availability results)));
       ("recovered"%string, JBool (endGreen results)); ("chaos_detail"%string, JStr detail)]))
    (Some (JObj [("max_failed_probes"%string, JNum 1); ("end_state"%string, JStr "healthy");
       ("recovery_timeout_ms"%string, JNum (inject_Z recoveryMs))])).

Definition runChaosProbe (validatorId : string) (rawConfig : option ChaosProbeConfig) : prog Workspace ValidatorResult :=
  let cfg := default (mkChaosProbeConfig None None None None) rawConfig in
  match truthy (cp_action cfg), truthy (cp_health_check cfg ≫= hc_url) with
  | Some action, Some url =>
      let expectStatus := default 200 (cp_health_check cfg ≫= hc_expect_status) in
      let intervalMs := default 2000 (cp_health_check cfg ≫= hc_interval_ms) in
      let recoveryMs := default 60000 (cp_recovery_timeout_ms cfg) in
      let sel := default EmptyString (cp_target_selector cfg) in
      let* pre := probeOnce url expectStatus in
      if negb (bool_decide (pre = ProbeOk)) then err validatorId
      else
        let* chaos := applyChaos action sel in
        if co_infra chaos || negb (co_applied chaos) then err validatorId
        else
          let* clock := select ws_clock in
          let* results := probe_loop (Z.to_nat recoveryMs) url expectStatus intervalMs (clock + recoveryMs) in
          Ret (chaos_result validatorId action (co_detail chaos) recoveryMs results)
  | _, _ => err validatorId
  end.
End Handlers.
