(* ===== verification/TestReport.v ===== *)
(** * Test reports

    evaluation/t3/test-suite.executor.ts: the repository's own tests are run in
    the workspace and their report, in one of four formats, is counted. *)
From Stdlib Require Import Ascii.
From stdpp Require Import pretty.
From S2P Require Import Prelude RegExp JsNum Binary64 Effects Schema JsText JsonParse Criteria ValidatorRunner ShellValidators.
Open Scope Z_scope.
Open Scope js_scope.

Record Counts := mkCounts { cn_total : Q; cn_passed : Q; cn_failed : Q; cn_skipped : Q }.

Inductive ReportFormat := Junit | Tap | JestJson | GoJson.
#[export] Instance format_eq_dec : EqDecision ReportFormat.
Proof. solve_decision. Defined.

(** The authored name; another one is parsed by nothing. *)
Definition format_of (name : string) : option ReportFormat :=
  if String.eqb name "junit" then Some Junit else if String.eqb name "tap" then Some Tap
  else if String.eqb name "jest-json" then Some JestJson else if String.eqb name "go-json" then Some GoJson else None.
Definition format_text (f : ReportFormat) : string :=
  match f with Junit => "junit" | Tap => "tap" | JestJson => "jest-json" | GoJson => "go-json" end.

(** ** Lines *)
Definition lines (text : string) : list string := split (rx "\n") text.
(** A pattern that starts with ^ under the m flag: it matches at the start of a
    line or nowhere, and does not cross one. *)
Definition test_lines (x : regexp) (text : string) : bool := existsb (test x) (split (rx "[\n\x0d]") text).

Definition ends_with (suffix text : string) : bool :=
  bool_decide (is_Some (strip (rev (explode suffix)) (rev (explode text)))).
Definition inferFormat (text path : string) : ReportFormat :=
  if ends_with ".xml" path || test (rx_i "<testsuite") text then Junit
  else if test_lines (rx "^\s*TAP version \d+") text || test_lines (rx "^ok \d+") text then Tap
  else if test (rx "\x22numPassedTests\x22") text then JestJson
  else if test (rx "\x22Action\x22:\x22(pass|fail|run)\x22") text then GoJson
  else Junit.

Section Reports.
Context `{Rounding}.

(** *** JUnit: the attributes of every testsuite element *)

(** The number captured by [name="(\d+)"], or 0. *)
Definition attr (tag name : string) : Q :=
  match find_match (mkRegExp false (default nothing (parse (name ++ "=\x22(\d+)\x22")))) None (explode tag) with
  | Some (_, m, _) =>
      let digits := (digits_span (drop (String.length name + 2) m)).1 in
      Qred (lit (inject_Z (digits_value digits)))
  | None => 0
  end.
Definition junit_suites (xml : string) : list string := match_all (rx_i "<testsuite\b[^>]*>") xml.
Definition add_suite (acc : Q * Q * Q) (s : string) : Q * Q * Q :=
  let '(total, failed, skipped) := acc in
  (total +! attr s "tests", failed +! (attr s "failures" +! attr s "errors"), skipped +! attr s "skipped").
Definition parseJUnit (xml : string) : option Counts :=
  match junit_suites xml with
  | [] => None
  | suites =>
      let '(total, failed, skipped) := fold_left add_suite suites (0, 0, 0)%Q in
      Some (mkCounts total (total -! failed -! skipped) failed skipped)
  end.

(** *** TAP and go test: one outcome per line *)
Inductive Outcome := OPassed | OFailed | OSkipped.
#[export] Instance outcome_eq_dec : EqDecision Outcome.
Proof. solve_decision. Defined.
Definition tally (o : Outcome) (l : list Outcome) : Q :=
  inject_Z (Z.of_nat (List.length (List.filter (fun x => bool_decide (x = o)) l))).
Definition counts_of (l : list Outcome) : option Counts :=
  match l with
  | [] => None
  | _ => Some (mkCounts (inject_Z (Z.of_nat (List.length l))) (tally OPassed l) (tally OFailed l) (tally OSkipped l))
  end.

Definition tap_line (line : string) : option Outcome :=
  let t := trim line in
  if test (rx "^(ok|not ok)\s+\d+") t then
    if test (rx_i "# SKIP") line then Some OSkipped
    else Some (if String.prefix "ok" t then OPassed else OFailed)
  else None.
Definition parseTAP (text : string) : option Counts := counts_of (omap tap_line (lines text)).

Definition go_line (line : string) : option Outcome :=
  let t := trim line in
  if String.prefix "{" t then
    let o := asRecord (parseLooseJson t) in
    match asString (get o "Test") "" with
    | EmptyString => None
    | _ =>
        let action := asString (get o "Action") "" in
        if String.eqb action "pass" then Some OPassed
        else if String.eqb action "fail" then Some OFailed
        else if String.eqb action "skip" then Some OSkipped else None
    end
  else None.
Definition parseGoJSON (text : string) : option Counts := counts_of (omap go_line (lines text)).

(** *** jest *)
Definition parseJestJSON (text : string) : option Counts :=
  let j := asRecord (parseLooseJson text) in
  match get j "numTotalTests" with
  | None => None
  | Some _ =>
      Some (mkCounts (asNumber (get j "numTotalTests") 0) (asNumber (get j "numPassedTests") 0)
        (asNumber (get j "numFailedTests") 0)
        (asNumber (get j "numPendingTests") 0 +! asNumber (get j "numTodoTests") 0))
  end.

Definition parseReport (format : option ReportFormat) (text : string) : option Counts :=
  match format with
  | Some Junit => parseJUnit text
  | Some Tap => parseTAP text
  | Some JestJson => parseJestJSON text
  | Some GoJson => parseGoJSON text
  | None => None
  end.

(** [passed / (total - skipped || 1)]. *)
Definition pass_rate (c : Counts) : Q :=
  let run := cn_total c -! cn_skipped c in
  cn_passed c /! (if Qeq_bool run 0 then 1 else run).

Context `{ShellRunner}.

Definition unparsed_result (validatorId : string) (exit : Z) (minPassRate : Q) : ValidatorResult :=
  mkValidatorResult validatorId (verdict_of (exit =? 0))
    (Some (JObj [("backend"%string, JStr backend); ("parsed"%string, JBool false); ("exit_code"%string, JNum (inject_Z exit));
                 ("note"%string, JStr "no parseable test report — used the command exit code")]))
    (Some (JObj [("min_pass_rate"%string, JNum minPassRate)])).
Definition parsed_result (validatorId format : string) (c : Counts) (minPassRate : Q) : ValidatorResult :=
  mkValidatorResult validatorId (verdict_of (minPassRate <=? pass_rate c)%Q)
    (Some (JObj [("backend"%string, JStr backend); ("format"%string, JStr format);
                 ("total"%string, JNum (cn_total c)); ("passed"%string, JNum (cn_passed c));
                 ("failed"%string, JNum (cn_failed c)); ("skipped"%string, JNum (cn_skipped c));
                 ("pass_rate"%string, JNum (fixed_number 4 (pass_rate c)))]))
    (Some (JObj [("min_pass_rate"%string, JNum minPassRate)])).

(** The report: a file, or what the command printed. *)
Definition report_text (report_path : option string) (out : string) : prog Workspace (option string) :=
  match truthy report_path with
  | None => Ret (Some out)
  | Some path =>
      let* cat := run_command (simple ["cat"%string; path] 30000) in
      Ret (cat ← cat; if exitCode cat =? 0 then Some (stdout cat) else None)
  end.

Definition suite_result (validatorId : string) (cfg : TestSuiteConfig) (exit : Z) (text : string) : ValidatorResult :=
  let minPassRate := default 1%Q (tsu_min_pass_rate cfg) in
  let name := default (format_text (inferFormat text (default EmptyString (tsu_report_path cfg)))) (tsu_report_format cfg) in
  match parseReport (format_of name) text with
  | Some counts =>
      if Qeq_bool (cn_total counts) 0 then unparsed_result validatorId exit minPassRate
      else parsed_result validatorId name counts minPassRate
  | None => unparsed_result validatorId exit minPassRate
  end.

Definition runTestSuite (validatorId : string) (rawConfig : option TestSuiteConfig) : prog Workspace ValidatorResult :=
  let cfg := default (mkTestSuiteConfig None None None None) rawConfig in
  match truthy (tsu_command cfg) with
  | None => err validatorId
  | Some command =>
      or_err validatorId (run_command (simple ["sh"%string; "-c"%string; command] 600000)) (fun r =>
      or_err validatorId (report_text (tsu_report_path cfg) (stdout r)) (fun text =>
      Ret (suite_result validatorId cfg (exitCode r) text)))
  end.
End Reports.

Section Samples.
#[local] Existing Instance binary64.
Definition q : string := String quote EmptyString.
Definition junit_text : string :=
  ("<testsuites><testsuite name=" ++ q ++ "a" ++ q ++ " tests=" ++ q ++ "5" ++ q ++ " failures=" ++ q ++ "1" ++ q ++
   " skipped=" ++ q ++ "1" ++ q ++ "></testsuite></testsuites>")%string.
Example junit_sample : parseJUnit junit_text = Some (mkCounts 5 3 1 1).
Proof. vm_compute. reflexivity. Qed.
Definition tap_text : string :=
  String.concat newline ["TAP version 13"; "1..3"; "ok 1 - a"; "not ok 2 - b"; "  ok 3 # skip c"]%string.
Example tap_sample : inferFormat tap_text "" = Tap /\ parseTAP tap_text = Some (mkCounts 3 1 1 1).
Proof. vm_compute. now split. Qed.
End Samples.
