(* ===== verification/CloudAssert.v ===== *)
(** * Assertions about the learner's cloud account

    evaluation/t3/cloud-assert.executor.ts: read-only aws calls and a predicate
    on what they answer.  The aws command line is behind the shell. *)
From Stdlib Require Import Ascii.
From stdpp Require Import pretty.
From S2P Require Import Prelude RegExp JsNum Binary64 Effects Schema JsText JsonParse Criteria ValidatorRunner ShellValidators.
Open Scope Z_scope.

Section CloudAssert.
Context `{Rounding} `{ShellRunner}.

(** The region of the params. *)
Variable region : option string.

Definition aws_command (argv : list string) : ShellCommand :=
  mkShellCommand ("aws"%string :: argv ++ ["--output"; "json"]%string) None
    (match region with Some r => [("AWS_REGION"%string, r); ("AWS_DEFAULT_REGION"%string, r)] | None => [] end) 60000.

(** Throws when the call cannot be made, fails or does not answer JSON. *)
Definition aws_answer (r : option ShellResult) : option Json :=
  r ← r;
  if exitCode r =? 0 then parseLooseJson (match stdout r with EmptyString => "{}" | out => out end)%string else None.
Definition awsJson (argv : list string) : prog Workspace Json :=
  let* r := run_command (aws_command argv) in
  match aws_answer r with Some j => Ret j | None => Throw (JsError "aws") end.
(** [awsJson(...).catch(() => fallback)]. *)
Definition awsJson_or (argv : list string) (fallback : Json) : prog Workspace Json :=
  try_catch (awsJson argv) (fun _ => Ret fallback).

Definition outcome (check : string) (offenders : list string) (good bad : string) : CheckOutcome :=
  mkCheckOutcome check (Nat.eqb (List.length offenders) 0)
    (match offenders with [] => good | _ => bad ++ String.concat ", " offenders end)%string.
Definition count_text {A} (l : list A) : string := pretty (List.length l).
Definition nonempty (s : string) : bool := match s with EmptyString => false | _ => true end.

(** ** no_public_s3 *)
Definition bucket_names (res : Json) : list string :=
  List.filter nonempty ((fun b => asString (get (asRecord (Some b)) "Name") "") <$> asArray (get (asRecord (Some res)) "Buckets")).
Definition blocked (pab : Json) : bool :=
  let c := asRecord (get (asRecord (Some pab)) "PublicAccessBlockConfiguration") in
  forallb (fun k => asBool (get c k) false)
    ["BlockPublicAcls"; "IgnorePublicAcls"; "BlockPublicPolicy"; "RestrictPublicBuckets"]%string.
Definition no_public_s3 : prog Workspace CheckOutcome :=
  let* res := awsJson ["s3api"; "list-buckets"]%string in
  let buckets := bucket_names res in
  let* offenders := for_map buckets (fun name =>
    let* pab := awsJson_or ["s3api"; "get-public-access-block"; "--bucket"; name]%string JNull in
    Ret (if blocked pab then [] else [name])) in
  Ret (outcome "no_public_s3" (concat offenders)
         (count_text buckets ++ " bucket(s), all with full public-access-block")
         "bucket(s) without full public-access-block: ").

(** ** rds_encrypted_at_rest *)
Definition records (l : list Json) : list (list (string * Json)) := (fun v => asRecord (Some v)) <$> l.
Definition unencrypted (res : Json) : list string :=
  (fun i => asString (get i "DBInstanceIdentifier") "") <$>
    List.filter (fun i => negb (asBool (get i "StorageEncrypted") false)) (records (asArray (get (asRecord (Some res)) "DBInstances"))).
Definition rds_encrypted_at_rest : prog Workspace CheckOutcome :=
  let* res := awsJson ["rds"; "describe-db-instances"]%string in
  Ret (outcome "rds_encrypted_at_rest" (unencrypted res)
         (count_text (asArray (get (asRecord (Some res)) "DBInstances")) ++ " RDS instance(s), all encrypted at rest")
         "unencrypted RDS instance(s): ").

(** ** no_world_open_admin_ports *)
Definition sensitive : list Z := [22; 3306; 5432; 6379; 27017].
Definition world_open (perm : list (string * Json)) : bool :=
  existsb (fun r => String.eqb (asString (get (asRecord (Some r)) "CidrIp") "") "0.0.0.0/0") (asArray (get perm "IpRanges")).
Definition open_ports (perm : list (string * Json)) : list Z :=
  let from := asNumber (get perm "FromPort") 0 in
  let to := asNumber (get perm "ToPort") (inject_Z 65535) in
  if world_open perm then List.filter (fun p => (from <=? inject_Z p)%Q && (inject_Z p <=? to)%Q) sensitive else [].
Definition group_offenders (sg : list (string * Json)) : list string :=
  records (asArray (get sg "IpPermissions")) ≫= fun perm =>
    (fun p => asString (get sg "GroupId") "" ++ ":" ++ pretty p)%string <$> open_ports perm.
Definition no_world_open_admin_ports : prog Workspace CheckOutcome :=
  let* res := awsJson ["ec2"; "describe-security-groups"]%string in
  Ret (outcome "no_world_open_admin_ports"
         (records (asArray (get (asRecord (Some res)) "SecurityGroups")) ≫= group_offenders)
         "no security group exposes an admin port to 0.0.0.0/0" "world-open admin port(s): ").

(** ** non_default_vpc_present *)
Definition custom_vpcs (res : Json) : list string :=
  (fun v => asString (get v "VpcId") "") <$>
    List.filter (fun v => negb (asBool (get v "IsDefault") false)) (records (asArray (get (asRecord (Some res)) "Vpcs"))).
Definition non_default_vpc_present : prog Workspace CheckOutcome :=
  let* res := awsJson ["ec2"; "describe-vpcs"]%string in
  let custom := custom_vpcs res in
  Ret (mkCheckOutcome "non_default_vpc_present" (Nat.ltb 0 (List.length custom))
         (match custom with
          | [] => "only the default VPC is present — no learner-built VPC"
          | _ => "custom VPC(s): " ++ String.concat ", " custom
          end)%string).

(** ** no_wildcard_admin_policy *)
Definition normStatements (s : option Json) : list (list (string * Json)) :=
  match s with
  | Some (JArr l) => records l
  | Some (JObj fs) => [fs]
  | _ => []
  end.
Definition is_star (j : Json) : bool := match j with JStr s => String.eqb s "*" | _ => false end.
Definition hasWildcard (v : option Json) : bool :=
  match v with
  | Some (JArr l) => existsb is_star l
  | Some j => is_star j
  | None => false
  end.
Definition grants_all (st : list (string * Json)) : bool :=
  String.eqb (asString (get st "Effect") "") "Allow" && hasWildcard (get st "Action") && hasWildcard (get st "Resource").

Definition policy_offenders (roleName : string) (p : list (string * Json)) : prog Workspace (list string) :=
  let policyArn := asString (get p "PolicyArn") "" in
  let* pv := awsJson_or ["iam"; "get-policy"; "--policy-arn"; policyArn]%string JNull in
  let versionId := asString (get (asRecord (get (asRecord (Some pv)) "Policy")) "DefaultVersionId") "" in
  if negb (nonempty versionId) then Ret []
  else
    let* doc := awsJson_or ["iam"; "get-policy-version"; "--policy-arn"; policyArn; "--version-id"; versionId]%string JNull in
    let statements := normStatements (get (asRecord (get (asRecord (get (asRecord (Some doc)) "PolicyVersion")) "Document")) "Statement") in
    Ret ((fun _ => (roleName ++ ":" ++ asString (get p "PolicyName") "")%string) <$> List.filter grants_all statements).
Definition role_offenders (role : list (string * Json)) : prog Workspace (list string) :=
  let roleName := asString (get role "RoleName") "" in
  if String.prefix "/aws-service-role/" (asString (get role "Path") "") then Ret []
  else
    let* attached := awsJson_or ["iam"; "list-attached-role-policies"; "--role-name"; roleName]%string
                       (JObj [("AttachedPolicies"%string, JArr [])]) in
    let* offenders := for_map (records (asArray (get (asRecord (Some attached)) "AttachedPolicies"))) (policy_offenders roleName) in
    Ret (concat offenders).
Definition no_wildcard_admin_policy : prog Workspace CheckOutcome :=
  let* roles := awsJson ["iam"; "list-roles"]%string in
  let* offenders := for_map (records (asArray (get (asRecord (Some roles)) "Roles"))) role_offenders in
  Ret (outcome "no_wildcard_admin_policy" (concat offenders)
         "no attached customer-managed policy grants *:*" "role/policy granting *:* — ").

(** The table of checks. *)
Definition CHECKS (id : string) : option (prog Workspace CheckOutcome) :=
  if String.eqb id "no_public_s3" then Some no_public_s3
  else if String.eqb id "rds_encrypted_at_rest" then Some rds_encrypted_at_rest
  else if String.eqb id "no_world_open_admin_ports" then Some no_world_open_admin_ports
  else if String.eqb id "non_default_vpc_present" then Some non_default_vpc_present
  else if String.eqb id "no_wildcard_admin_policy" then Some no_wildcard_admin_policy
  else None.
End CloudAssert.

Section RunCloudAssert.
Context `{Rounding} `{ShellRunner}.

Definition run_checks (checks : list (prog Workspace CheckOutcome)) : prog Workspace (option (list CheckOutcome)) :=
  try_catch (let* outcomes := for_map checks (fun c => c) in Ret (Some outcomes)) (fun _ => Ret None).
Definition outcome_json (c : CheckOutcome) : Json :=
  JObj [("check"%string, JStr (ck_name c)); ("pass"%string, JBool (ck_pass c)); ("detail"%string, JStr (ck_detail c))].

Definition runCloudAssert (validatorId : string) (rawConfig : option CloudAssertConfig) : prog Workspace ValidatorResult :=
  let cfg := default (mkCloudAssertConfig [] None) rawConfig in
  match ca_checks cfg with
  | [] => err validatorId
  | ids =>
      match mapM (CHECKS (ca_region cfg)) ids with
      | None => err validatorId
      | Some checks =>
          or_err validatorId (run_checks checks) (fun outcomes =>
          Ret (mkValidatorResult validatorId (verdict_of (forallb ck_pass outcomes))
            (Some (JObj [("backend"%string, JStr backend); ("checks"%string, JArr (outcome_json <$> outcomes))]))
            (Some (JObj [("checks"%string, JArr (JStr <$> ids))]))))
      end
  end.
End RunCloudAssert.
