(* ===== verification/T3Executor.v ===== *)
(** * The validator executor

    evaluation/t3/t3-validator.executor.ts, which dispatches the six workspace
    validators, and evaluation/grpc-validator-executor.ts, to which every other
    type goes.  Together with the runner's timeout they are an instance of the
    interface [Executor] that the runner is proved against.  The orchestrator's
    calls are another service: [ValidatorRpc]. *)
From Stdlib Require Import Ascii.
From S2P Require Import Prelude RegExp JsNum Binary64 Effects Schema AttemptStatus EventStore JsText JsonParse Criteria ValidatorRunner ShellValidators TestReport CloudAssert.
Open Scope Z_scope.

(** ** grpc-validator-executor.ts *)
Record ExecValidatorRequest := mkExecValidatorRequest {
  xq_environmentId : string; xq_validatorId : string; xq_validatorType : string; xq_run : string;
  xq_expectJson : string; xq_timeoutMs : Z; xq_attemptId : Id }.
Record ExecValidatorResponse := mkExecValidatorResponse {
  xr_status : option ValidatorResultStatus; xr_observedJson : option string }.
Record RegressionResponse := mkRegressionResponse { rr_regressionFound : bool; rr_regressedResources : option Json }.

(** The calls of the orchestrator; a status outside the protocol's enumeration
    is not considered. *)
Class ValidatorRpc := {
  rpc_ExecValidator : list RemoteCall -> ExecValidatorRequest -> exn + ExecValidatorResponse;
  rpc_CheckRegression : list RemoteCall -> string -> string -> exn + RegressionResponse;
  rpc_time : list RemoteCall -> ValidatorSpec -> Z
}.

Section GrpcExecutor.
Context `{Rounding} `{ValidatorRpc}.

Definition exec_request (environmentId : string) (attemptId : Id) (spec : ValidatorSpec) : ExecValidatorRequest :=
  mkExecValidatorRequest environmentId (vs_id spec) (vs_type spec) (default EmptyString (vs_run spec))
    (stringify (vs_expect spec)) (default 0 (vs_timeoutMs spec)) attemptId.
(** A text that is no JSON is kept as it is. *)
Definition read_observed (observedJson : option string) : option Json :=
  t ← truthy observedJson; Some (default (JStr t) (json_parse t)).

Definition grpc_error (spec : ValidatorSpec) : ValidatorResult :=
  mkValidatorResult (vs_id spec) ERROR None (Some (vs_expect spec)).
Definition executeNoRegression (calls : list RemoteCall) (environmentId : string) (spec : ValidatorSpec) : ValidatorResult :=
  match truthy (vs_run spec) with
  | None => grpc_error spec
  | Some snapshotKey =>
      match rpc_CheckRegression calls environmentId snapshotKey with
      | inl _ => grpc_error spec
      | inr response =>
          mkValidatorResult (vs_id spec) (if rr_regressionFound response then FAIL else PASS)
            (Some (JObj [("regressed_resources"%string, default (JArr []) (rr_regressedResources response))]))
            (Some (vs_expect spec))
      end
  end.
Definition grpc_execute (calls : list RemoteCall) (environmentId : string) (attemptId : Id) (spec : ValidatorSpec) : ValidatorResult :=
  if String.eqb (vs_type spec) "NO_REGRESSION" then executeNoRegression calls environmentId spec
  else match rpc_ExecValidator calls (exec_request environmentId attemptId spec) with
  | inl _ => grpc_error spec
  | inr response =>
      mkValidatorResult (vs_id spec) (default ERROR (xr_status response))
        (read_observed (xr_observedJson response)) (Some (vs_expect spec))
  end.
End GrpcExecutor.

(** ** t3-validator.executor.ts *)
Definition T3_VALIDATOR_TYPES : list string :=
  ["IAC_STATE"; "CLOUD_ASSERT"; "STATIC_ANALYSIS"; "TEST_SUITE"; "PERF_BENCH"; "CHAOS_PROBE"]%string.

(** The state the shell finds an environment in. *)
Class Workspaces := { workspace_at : list RemoteCall -> string -> Id -> Workspace }.

(** The runner's default timeout: [spec.timeoutMs ?? 5000]. *)
Definition DEFAULT_TIMEOUT_MS : Z := 5000.
Definition timeout_of (spec : ValidatorSpec) : Z := default DEFAULT_TIMEOUT_MS (vs_timeoutMs spec).
(** [withTimeout]. *)
Definition within_timeout {A} (spec : ValidatorSpec) (elapsed : Z) (result : A) : option A :=
  if elapsed <=? timeout_of spec then Some result else None.

Section T3ValidatorExecutor.
Context `{Rounding} `{ShellRunner}.

(** The switch; each handler gets its own part of the configuration. *)
Definition t3_handler (spec : ValidatorSpec) : prog Workspace ValidatorResult :=
  let id := vs_id spec in
  let cfg {A} (part : ValidatorConfig -> option A) : option A := vs_config spec ≫= part in
  if String.eqb (vs_type spec) "IAC_STATE" then runIacState id (cfg vc_iac_state)
  else if String.eqb (vs_type spec) "CLOUD_ASSERT" then runCloudAssert id (cfg vc_cloud_assert)
  else if String.eqb (vs_type spec) "STATIC_ANALYSIS" then runStaticAnalysis id (cfg vc_static_analysis)
  else if String.eqb (vs_type spec) "TEST_SUITE" then runTestSuite id (cfg vc_test_suite)
  else if String.eqb (vs_type spec) "PERF_BENCH" then runPerfBench id (cfg vc_perf_bench)
  else runChaosProbe id (cfg vc_chaos_probe).

(** Whether a shell is configured. *)
Variable configured : bool.

(** Any throw of a handler is ERROR. *)
Definition t3_execute (spec : ValidatorSpec) : prog Workspace ValidatorResult :=
  if configured then try_catch (t3_handler spec) (fun _ => err (vs_id spec)) else err (vs_id spec).

Context `{ValidatorRpc} `{Workspaces}.

Definition execute_with_timeout (calls : list RemoteCall) (environmentId : string) (attemptId : Id) (spec : ValidatorSpec)
    : option ValidatorResult :=
  if bool_decide (vs_type spec ∈ T3_VALIDATOR_TYPES) then
    let w := workspace_at calls environmentId attemptId in
    match run (t3_execute spec) w with
    | (inr result, w') => within_timeout spec (ws_clock w' - ws_clock w) result
    | (inl _, _) => None
    end
  else within_timeout spec (rpc_time calls spec) (grpc_execute calls environmentId attemptId spec).

Definition t3_executor : Executor := {| executor_execute := execute_with_timeout |}.
End T3ValidatorExecutor.
