(* ===== verification/T3Laws.v ===== *)
(** * What the validator executor guarantees

    Whatever the shell does the executor answers; when a verdict is PASS; that
    the probe loop ends at its deadline; and what the runner's timeout and
    unreadable reports make of it. *)
From Stdlib Require Import Ascii.
From stdpp Require Import pretty.
From S2P Require Import Prelude RegExp JsNum Binary64 Effects Schema AttemptStatus EventStore JsText JsonParse Criteria ValidatorRunner ShellValidators TestReport CloudAssert T3Executor.
Open Scope Z_scope.

(** ** Whatever the actions answer, a program that returns returns a [Q] *)
Fixpoint yields {S A} (Q : A -> Prop) (p : prog S A) : Prop :=
  match p with Ret a => Q a | Throw _ => True | Act f k => forall b, yields Q (k b) end.

Section Yields.
Context {S : Type}.
Lemma yields_run {A} Q (p : prog S A) s a s' : yields Q p -> run p s = (inr a, s') -> Q a.
Proof.
  revert s. induction p as [x|e|B f k IH]; cbn; intros s Y E; [now injection E as <- _ | easy |].
  destruct (f s) as [|[b s2]]; [easy |]. exact (IH b s2 (Y b) E).
Qed.
Lemma yields_bind {A B} Q (p : prog S A) (f : A -> prog S B) : (forall a, yields Q (f a)) -> yields Q (bind p f).
Proof. intros Y. induction p as [x|e|C g k IH]; cbn; auto. Qed.
Lemma yields_try {A} Q (p : prog S A) h : yields Q p -> (forall e, yields Q (h e)) -> yields Q (try_catch p h).
Proof. intros Yp Yh. induction p as [x|e|C g k IH]; cbn in *; auto. intros [e|b]; auto. Qed.
End Yields.

(** The order of the workspaces a validator goes through. *)
Definition later (w w' : Workspace) : Prop :=
  (exists extra, ws_commands w' = ws_commands w ++ extra) /\ ws_clock w <= ws_clock w'.
#[export] Instance later_preorder : PreOrder later.
Proof.
  split; [intros w; split; [exists []; now rewrite app_nil_r | lia] |].
  intros x y z [[a A] ?] [[b B] ?]. split; [exists (a ++ b); now rewrite B, A, app_assoc | lia].
Qed.

(** A result of validator [id]: ERROR without an observation, or a verdict with one. *)
Definition settled (id : string) (r : ValidatorResult) : Prop :=
  er_validatorId r = id /\
  (er_status r = ERROR /\ er_observed r = None \/ (er_status r = PASS \/ er_status r = FAIL) /\ is_Some (er_observed r)).

Section AnyShell.
Context `{Rounding} `{ShellRunner}.

Lemma settled_err id : yields (settled id) (err id).
Proof. cbn. split; [easy | now left]. Qed.
Lemma settled_verdict id b o e : settled id (mkValidatorResult id (verdict_of b) (Some o) e).
Proof. split; [easy |]. right. destruct b; cbn; eauto. Qed.
Lemma settled_or_err {A} id (m : prog Workspace (option A)) k : (forall a, yields (settled id) (k a)) -> yields (settled id) (or_err id m k).
Proof. intros Y. apply yields_bind. intros [a|]; [apply Y | apply settled_err]. Qed.

Lemma settled_ret id r : settled id r -> yields (settled id) (Ret (S := Workspace) r).
Proof. easy. Qed.
Lemma suite_result_settled id cfg x t : settled id (suite_result id cfg x t).
Proof. unfold suite_result. destruct (parseReport _ _) as [c|]; [destruct (Qeq_bool _ _)|]; apply settled_verdict. Qed.

Create HintDb settled.
Hint Resolve settled_err settled_verdict settled_ret suite_result_settled : settled.
Ltac settle :=
  repeat (intros; cbv zeta;
    match goal with
    | |- yields _ (or_err _ _ _) => apply settled_or_err
    | |- yields _ (bind _ _) => apply yields_bind
    | |- yields _ (match ?x with _ => _ end) => destruct x
    | |- yields _ _ => solve [auto with settled | apply settled_verdict]
    end).

Lemma iac_settled id cfg : yields (settled id) (runIacState id cfg).
Proof. unfold runIacState, checks_verdict. settle. Qed.
Lemma cloud_settled id cfg : yields (settled id) (runCloudAssert id cfg).
Proof. unfold runCloudAssert. settle. Qed.
Lemma analysis_settled id cfg : yields (settled id) (runStaticAnalysis id cfg).
Proof. unfold runStaticAnalysis. settle. Qed.
Lemma suite_settled id cfg : yields (settled id) (runTestSuite id cfg).
Proof. unfold runTestSuite. settle. Qed.
Lemma bench_settled id cfg : yields (settled id) (runPerfBench id cfg).
Proof. unfold runPerfBench. settle. Qed.
Lemma chaos_settled id cfg : yields (settled id) (runChaosProbe id cfg).
Proof. unfold runChaosProbe, chaos_result. settle. Qed.

Lemma handler_settled spec : yields (settled (vs_id spec)) (t3_handler spec).
Proof.
  unfold t3_handler. repeat (destruct (String.eqb _ _); [auto using iac_settled, cloud_settled, analysis_settled, suite_settled, bench_settled |]).
  apply chaos_settled.
Qed.
Lemma t3_settled configured spec : yields (settled (vs_id spec)) (t3_execute configured spec).
Proof.
  unfold t3_execute. destruct configured; [|apply settled_err].
  apply yields_try; [apply handler_settled | intros; apply settled_err].
Qed.

(** Commands are only added, and the clock does not run back. *)
Lemma runner_later c : preserves later (runner_run c).
Proof.
  apply preserves_act. intros w r w'. destruct (shell_run w c); [easy |]. intros [= <- <-].
  split; cbn; [now exists [c] | pose proof (shell_time_nonneg w c); lia].
Qed.
Lemma sleep_later ms : preserves later (sleep ms).
Proof. apply preserves_execute. intros w. split; cbn; [exists []; now rewrite app_nil_r | lia]. Qed.
Hint Resolve runner_later sleep_later : preserves.
Lemma or_err_later {A} id (m : prog Workspace (option A)) k :
  preserves later m -> (forall a, preserves later (k a)) -> preserves later (or_err id m k).
Proof. intros M K. apply preserves_bind; [easy |]. intros [a|]; [apply K | exact I]. Qed.
Lemma run_command_later c : preserves later (run_command c).
Proof. unfold run_command. preserves. Qed.
Hint Resolve run_command_later : preserves.
Lemma aws_later region argv : preserves later (awsJson region argv).
Proof. unfold awsJson. preserves. Qed.
Lemma aws_or_later region argv fb : preserves later (awsJson_or region argv fb).
Proof. apply preserves_try; [apply _ | apply aws_later | intros; exact I]. Qed.
Hint Resolve aws_later aws_or_later : preserves.
Lemma probe_later url st : preserves later (probeOnce url st).
Proof. unfold probeOnce. preserves. Qed.
Hint Resolve probe_later : preserves.
Lemma loop_later fuel url st iv dl : preserves later (probe_loop fuel url st iv dl).
Proof. induction fuel as [|fuel IH]; cbn [probe_loop]; preserves. Qed.
Hint Resolve loop_later : preserves.


Lemma check_later region name c : CHECKS region name = Some c -> preserves later c.
Proof.
  unfold CHECKS. repeat (destruct (String.eqb _ _); [intros [= <-]|]); [..|easy];
    [unfold no_public_s3 | unfold rds_encrypted_at_rest | unfold no_world_open_admin_ports | unfold non_default_vpc_present
     | unfold no_wildcard_admin_policy, role_offenders, policy_offenders]; preserves.
Qed.
Lemma each_later {A} (l : list (prog Workspace A)) : Forall (preserves later) l -> preserves later (for_map l (fun c => c)).
Proof. induction 1 as [|c l C _ IH]; cbn [for_map]; [exact I |]. repeat (apply preserves_bind; [assumption | intros]). exact I. Qed.
Lemma checks_later region ids checks : mapM (CHECKS region) ids = Some checks -> preserves later (run_checks checks).
Proof.
  intros M. apply preserves_try; [apply _ | | intros; exact I]. apply preserves_bind; [|intros; exact I].
  apply each_later, Forall_forall. intros c C. apply mapM_Some in M.
  destruct (proj1 (list_elem_of_lookup _ _) C) as [i Hi]. destruct (Forall2_lookup_r _ _ _ _ _ M Hi) as (n & _ & E). exact (check_later _ _ _ E).
Qed.

Lemma guarded_later b m : preserves later m -> preserves later (guarded_check b m).
Proof. intros M. unfold guarded_check. destruct b; preserves. Qed.
Ltac later_steps :=
  repeat (intros; cbv zeta;
    match goal with
    | |- preserves _ (or_err _ _ _) => apply or_err_later
    | |- preserves _ (guarded_check _ _) => apply guarded_later
    | |- preserves _ (run_checks _) => eapply checks_later; eassumption
    | |- preserves _ (if _ then _ else _) => case_match
    | |- preserves _ (match ?x with _ => _ end) => let E := fresh in destruct x eqn:E
    | |- preserves _ (Ret _) => exact I
    | |- preserves _ (err _) => exact I
    | |- _ => preserves_step
    end).
Lemma handler_later spec : preserves later (t3_handler spec).
Proof.
  unfold t3_handler, runIacState, runCloudAssert, runStaticAnalysis, runTestSuite, runPerfBench, runChaosProbe,
    no_drift_check, pull_state, remote_backend_check, runTool, report_text, bench_script, read_summary, applyChaos.
  later_steps.
Qed.
Lemma t3_later configured spec : preserves later (t3_execute configured spec).
Proof.
  unfold t3_execute. destruct configured; [|exact I].
  apply preserves_try; [apply _ | apply handler_later | intros; exact I].
Qed.
Lemma t3_runs configured spec w : exists r w', run (t3_execute configured spec) w = (inr r, w').
Proof.
  unfold t3_execute. destruct configured; [|eauto]. rewrite run_try. destruct (run _ w) as [[e|r] w']; eauto.
Qed.

(** ** The chaos probe *)
Section Watch.
(** The shell answers every command, if only with an infrastructure error. *)
Definition never_rejects : Prop := forall w c, exists r, shell_run w c = inr r.
Definition after_command (w : Workspace) (c : ShellCommand) : Workspace :=
  mkWorkspace (ws_commands w ++ [c]) (ws_clock w + shell_time w c).
Definition after_sleep (w : Workspace) (ms : Z) : Workspace := mkWorkspace (ws_commands w) (ws_clock w + Z.max 1 ms).

Variables (url : string) (st : Z).
(** What a probe finds. *)
Definition found (r : ShellResult) : Probe :=
  match truthy (infraError r) with
  | Some _ => ProbeInfra
  | None => if String.eqb (trim (stdout r)) (pretty st) then ProbeOk else ProbeBad
  end.
Lemma run_probe w : never_rejects -> exists r, shell_run w (probe_command url) = inr r /\
  run (probeOnce url st) w = (inr (found r), after_command w (probe_command url)).
Proof.
  intros N. destruct (N w (probe_command url)) as [r E]. exists r. split; [exact E |].
  unfold probeOnce, run_command, runner_run. run_simpl. rewrite E. cbn. unfold found. now destruct (truthy _).
Qed.

Variables (iv dl : Z).
(** The watch: rounds of a probe and a pause until the deadline, cut short by a
    probe that could not run. *)
Inductive watched : Workspace -> list bool -> Workspace -> Prop :=
  | watch_over w : dl <= ws_clock w -> watched w [] w
  | watch_cut w r : ws_clock w < dl -> shell_run w (probe_command url) = inr r -> found r = ProbeInfra ->
      watched w [] (after_command w (probe_command url))
  | watch_round w r rs w' : ws_clock w < dl -> shell_run w (probe_command url) = inr r -> found r <> ProbeInfra ->
      watched (after_sleep (after_command w (probe_command url)) iv) rs w' ->
      watched w (bool_decide (found r = ProbeOk) :: rs) w'.

Lemma watched_total fuel w : never_rejects -> dl - ws_clock w <= Z.of_nat fuel ->
  exists rs w', run (probe_loop fuel url st iv dl) w = (inr rs, w') /\ watched w rs w'.
Proof.
  intros N. revert w. induction fuel as [|fuel IH]; intros w L; cbn [probe_loop]; rewrite run_bind, run_select;
    destruct (Z.leb_spec dl (ws_clock w)) as [D|D]; try (exists [], w; split; [reflexivity | now constructor]); [lia |].
  rewrite run_bind. destruct (run_probe w N) as (r & E & ->). set (w1 := after_command w (probe_command url)).
  destruct (decide (found r = ProbeInfra)) as [F|F]; [exists [], w1; rewrite F; split; [reflexivity | now apply watch_cut with r] |].
  destruct (IH (after_sleep w1 iv)) as (rs & w' & R & W);
    [pose proof (shell_time_nonneg w (probe_command url)); cbn; lia |].
  exists (bool_decide (found r = ProbeOk) :: rs), w'. split; [|now apply watch_round].
  destruct (found r); [| |easy]; rewrite run_bind; unfold sleep; rewrite run_execute;
    fold (after_sleep w1 iv); rewrite run_bind, R; reflexivity.
Qed.
Lemma watched_bounds w rs w' : watched w rs w' ->
  ws_commands w' = ws_commands w ++ replicate (List.length rs) (probe_command url) \/
  ws_commands w' = ws_commands w ++ replicate (S (List.length rs)) (probe_command url).
Proof.
  induction 1 as [w L|w r L E F|w r rs w' L E F W IH]; [left; cbn; now rewrite app_nil_r | now right |].
  cbn in IH. rewrite <- !app_assoc in IH. exact IH.
Qed.
Lemma watched_length w rs w' : watched w rs w' ->
  Z.of_nat (List.length rs) * Z.max 1 iv < Z.max 0 (dl - ws_clock w) + Z.max 1 iv.
Proof.
  induction 1 as [w L|w r L E F|w r rs w' L E F W IH]; cbn [List.length]; [lia..|].
  pose proof (shell_time_nonneg w (probe_command url)). cbn in IH.
  rewrite Nat2Z.inj_succ, Z.mul_succ_l. set (M := Z.max 1 iv) in *. assert (1 <= M) by (unfold M; lia). clearbody M.
  destruct (Z.le_gt_cases 0 (dl - (ws_clock w + shell_time w (probe_command url) + M))) as [D|D]; [lia |].
  assert (List.length rs = 0%nat) as -> by nia. lia.
Qed.
Lemma watched_ends w rs w' : (forall w r, shell_run w (probe_command url) = inr r -> found r <> ProbeInfra) ->
  watched w rs w' -> dl <= ws_clock w'.
Proof. intros G. induction 1; [easy | naive_solver | easy]. Qed.
End Watch.

(** ** CHAOS_PROBE, whole *)
Definition applied (r : ShellResult) : bool := (exitCode r =? 0) && negb (bool_decide (is_Some (truthy (infraError r)))).
Definition fault (script : string) : ShellCommand := simple ["sh"%string; "-c"%string; script] 120000.

Inductive chaos_outcome (url : string) (st iv rec : Z) (script : option string) (w : Workspace) : ValidatorResultStatus -> Workspace -> Prop :=
  | chaos_unhealthy r : shell_run w (probe_command url) = inr r -> found st r <> ProbeOk ->
      chaos_outcome url st iv rec script w ERROR (after_command w (probe_command url))
  | chaos_unknown r : shell_run w (probe_command url) = inr r -> found st r = ProbeOk -> script = None ->
      chaos_outcome url st iv rec script w ERROR (after_command w (probe_command url))
  | chaos_refused r r2 s (w1 := after_command w (probe_command url)) : shell_run w (probe_command url) = inr r -> found st r = ProbeOk ->
      script = Some s -> shell_run w1 (fault s) = inr r2 -> applied r2 = false ->
      chaos_outcome url st iv rec script w ERROR (after_command w1 (fault s))
  | chaos_watched r r2 s rs w' (w1 := after_command w (probe_command url)) (w2 := after_command w1 (fault s)) :
      shell_run w (probe_command url) = inr r -> found st r = ProbeOk ->
      script = Some s -> shell_run w1 (fault s) = inr r2 -> applied r2 = true ->
      watched url st iv (ws_clock w2 + rec) w2 rs w' ->
      chaos_outcome url st iv rec script w (if Nat.leb (failures rs) 1 && endGreen rs then PASS else FAIL) w'.

Lemma chaos_runs id cfg action url w : never_rejects ->
  truthy (cp_action cfg) = Some action -> truthy (cp_health_check cfg ≫= hc_url) = Some url ->
  exists r w', run (runChaosProbe id (Some cfg)) w = (inr r, w') /\ er_validatorId r = id /\
    chaos_outcome url (default 200 (cp_health_check cfg ≫= hc_expect_status)) (default 2000 (cp_health_check cfg ≫= hc_interval_ms))
      (default 60000 (cp_recovery_timeout_ms cfg)) (chaos_script action (default EmptyString (cp_target_selector cfg))) w (er_status r) w'.
Proof.
  intros N A U. unfold runChaosProbe. set (c := default _ (Some cfg)). change c with cfg. clear c. cbv zeta. rewrite A, U.
  set (st := default 200 _). set (iv := default 2000 _). set (rec := default 60000 _). set (sel := default EmptyString _).
  rewrite run_bind. destruct (run_probe url st w N) as (r & E & ->). set (w1 := after_command w (probe_command url)).
  destruct (bool_decide_reflect (found st r = ProbeOk)) as [F|F]; cbn [negb];
    [|eexists _, _; split; [reflexivity |]; split; [easy |]; now apply chaos_unhealthy with r].
  rewrite run_bind. unfold applyChaos. destruct (chaos_script action sel) as [s|] eqn:C;
    [|eexists _, _; split; [reflexivity |]; split; [easy |]; now apply chaos_unknown with r].
  rewrite run_bind. unfold runner_run at 1. rewrite run_act. destruct (N w1 (fault s)) as [r2 E2].
  unfold fault in E2. rewrite E2. fold (fault s). fold (after_command w1 (fault s)). cbn [run co_infra co_applied].
  destruct (applied r2) eqn:P; unfold applied in P; destruct (exitCode r2 =? 0) eqn:X, (bool_decide _) eqn:Y; try discriminate P; cbn [orb negb];
    try (eexists _, _; split; [reflexivity |]; split; [easy |]; apply chaos_refused with r r2; auto; unfold applied; now rewrite X, Y).
  rewrite run_bind, run_select. set (w2 := after_command w1 (fault s)).
  destruct (watched_total url st iv (ws_clock w2 + rec) (Z.to_nat rec) w2 N) as (rs & w' & R & W); [lia |].
  rewrite run_bind, R. eexists _, _. split; [reflexivity |]. split; [easy |].
  apply chaos_watched with (r := r) (r2 := r2) (s := s); auto. unfold applied. now rewrite X, Y.
Qed.
Lemma outcome_commands url st iv rec script w status w' : chaos_outcome url st iv rec script w status w' ->
  exists extra, ws_commands w' = ws_commands w ++ extra /\
    (Z.of_nat (List.length extra) - 3) * Z.max 1 iv < Z.max 0 rec + Z.max 1 iv.
Proof.
  assert (M : 1 <= Z.max 1 iv) by lia.
  intros [| |r r2 s w1|r r2 s rs w2' w1 w2 _ _ _ _ _ W];
    [exists [probe_command url]; split; [easy | cbn; nia].. | exists [probe_command url; fault s]; split; [cbn; now rewrite <- app_assoc | cbn; nia] |].
  pose proof (watched_length _ _ _ _ _ _ _ W) as L.
  destruct (watched_bounds _ _ _ _ _ _ _ W) as [B|B]; cbn [w1 w2 ws_commands after_command] in B; rewrite <- !app_assoc in B;
    (eexists; split; [exact B |]); rewrite !length_app, length_replicate; cbn [List.length]; nia.
Qed.
End AnyShell.

(** ** A shell without infrastructure errors, under the runner's timeout *)
Section Reliable.
Context `{Rounding} `{ShellRunner}.
Definition reliable : Prop := forall w c, exists r, shell_run w c = inr r /\ truthy (infraError r) = None.
Lemma reliable_answers : reliable -> never_rejects.
Proof. intros R w c. destruct (R w c) as (r & E & _). eauto. Qed.
Lemma outcome_slow url st iv rec script w status w' : reliable -> chaos_outcome url st iv rec script w status w' ->
  status = ERROR \/ rec <= ws_clock w' - ws_clock w.
Proof.
  intros R [| | |r r2 s rs w2' w1 w2 _ _ _ _ _ W]; [now left.. | right].
  assert (G : forall w r, shell_run w (probe_command url) = inr r -> found st r <> ProbeInfra).
  { intros w0 r0 E. destruct (R w0 (probe_command url)) as (r1 & E1 & I). rewrite E1 in E. injection E as <-.
    unfold found. rewrite I. now destruct (String.eqb _ _). }
  pose proof (watched_ends _ _ _ _ _ _ _ G W) as L. cbn [w1 w2 ws_clock after_command] in L.
  pose proof (shell_time_nonneg w (probe_command url)). pose proof (shell_time_nonneg w1 (fault s)). subst w1. lia.
Qed.
Lemma chaos_slow id cfg w : reliable -> exists r w', run (runChaosProbe id (Some cfg)) w = (inr r, w') /\
  (er_status r = ERROR \/ default 60000 (cp_recovery_timeout_ms cfg) <= ws_clock w' - ws_clock w).
Proof.
  intros R. destruct (truthy (cp_action cfg)) as [action|] eqn:A; [destruct (truthy (cp_health_check cfg ≫= hc_url)) as [url|] eqn:U|].
  - destruct (chaos_runs id cfg action url w (reliable_answers R) A U) as (r & w' & E & _ & O).
    exists r, w'. split; [exact E |]. exact (outcome_slow _ _ _ _ _ _ _ _ R O).
  - eexists _, w. split; [unfold runChaosProbe; set (c := default _ (Some cfg)); change c with cfg; clear c; cbv zeta; rewrite A, U; reflexivity | now left].
  - eexists _, w. split; [unfold runChaosProbe; set (c := default _ (Some cfg)); change c with cfg; clear c; cbv zeta; rewrite A; reflexivity | now left].
Qed.
End Reliable.
Lemma tries_fail `{Executor} t env id spec s : (forall cs, conclusive (executor_execute cs env id spec) = false) ->
  exists r s', run (try_execute t env id spec) s = (inr r, s') /\ er_status r = ERROR.
Proof.
  intros F. revert s. induction t as [|t IH]; intros s; cbn [try_execute]; rewrite run_bind; unfold call_executor; rewrite run_act;
    specialize (F (calls s)); destruct (executor_execute _ _ _ _) as [r|]; cbn in F;
    try (apply negb_false_iff, bool_decide_eq_true in F); try (eexists _, _; split; [reflexivity | easy]); [|apply IH].
  rewrite bool_decide_true by easy. apply IH.
Qed.

(** ** Test reports with one outcome per line *)
Section Gate.
Context `{Rounding}.

Definition num (l : list Outcome) (o : Outcome) : Z := Z.of_nat (List.length (List.filter (fun x => bool_decide (x = o)) l)).
Lemma num_split l : Z.of_nat (List.length l) = num l OPassed + num l OFailed + num l OSkipped.
Proof. unfold num. induction l as [|[] l IH]; cbn [List.filter]; repeat (case_bool_decide; [| try easy]); try easy; cbn [List.length]; lia. Qed.
Lemma num_pos l o : 0 < num l o <-> o ∈ l.
Proof.
  unfold num. induction l as [|x l IH]; cbn [List.filter List.length]; [split; [cbn; lia | now intros ?%not_elem_of_nil] |].
  rewrite elem_of_cons. destruct (bool_decide_reflect (x = o)) as [->|N]; cbn [List.length]; [split; [auto | lia] |].
  rewrite IH. naive_solver.
Qed.
Lemma num_nonneg l o : 0 <= num l o.
Proof. unfold num. lia. Qed.

(** Under 2^53 outcomes the rounded rate is 1 only when nothing failed. *)
Lemma rate_one p f : 0 <= p -> 0 <= f -> p + f <= 2 ^ 53 -> 0 < p + f ->
  (1 <= inject_Z p /! inject_Z (p + f))%Q <-> f = 0.
Proof.
  intros P F B N. split.
  - intros G. destruct (decide (f = 0)) as [|Z0]; [easy | exfalso]. assert (1 <= f) by lia.
    assert (U : (inject_Z p /! inject_Z (p + f) <= inject_Z (2 ^ 53 - 1) / inject_Z (2 ^ 53))%Q).
    { apply rnd_frac_ub; [lia.. |]. apply Qle_shift_div_l; [easy |].
      setoid_replace (inject_Z p / inject_Z (p + f) * inject_Z (2 ^ 53))%Q with (inject_Z (p * 2 ^ 53) / inject_Z (p + f))%Q using relation Qeq
        by (rewrite inject_Z_mult; field; intros E; revert E; unfold Qeq; cbn; lia).
      apply Qle_shift_div_r; [unfold Qlt; cbn; lia |]. rewrite <- inject_Z_mult. unfold Qle. cbn. nia. }
    revert U G. generalize (inject_Z p /! inject_Z (p + f))%Q. intros q U G. revert U.
    change (inject_Z (2 ^ 53 - 1) / inject_Z (2 ^ 53))%Q with (9007199254740991 # 9007199254740992)%Q. intros U. lra.
  - intros ->. rewrite Z.add_0_r. rewrite div_self; [lra | unfold Qlt; cbn; lia].
Qed.

Lemma counts_gate l : l <> [] -> Z.of_nat (List.length l) <= 2 ^ 53 ->
  exists c, counts_of l = Some c /\ Qeq_bool (cn_total c) 0 = false /\
    ((1 <= pass_rate c)%Q <-> OPassed ∈ l /\ OFailed ∉ l).
Proof.
  intros N B. pose proof (num_split l) as S. pose proof (num_nonneg l) as P.
  pose proof (P OPassed). pose proof (P OFailed). pose proof (P OSkipped).
  assert (0 < List.length l)%nat by (destruct l; [easy | cbn; lia]).
  eexists. split; [destruct l; [easy | reflexivity] |]. split.
  { apply not_true_iff_false. intros E%Qeq_bool_eq. revert E. unfold Qeq. cbn. lia. }
  unfold pass_rate. cbn [cn_passed cn_total cn_skipped]. unfold tally. fold (num l OPassed) (num l OSkipped).
  rewrite <- (num_pos l OPassed), <- (num_pos l OFailed). set (p := num l OPassed) in *. set (f := num l OFailed) in *.
  set (k := num l OSkipped) in *.
  assert (R : (inject_Z (Z.of_nat (List.length l)) -! inject_Z k == inject_Z (p + f))%Q).
  { unfold sub. rewrite <- (rnd_int (p + f)) by lia. apply rnd_proper. rewrite S. unfold Qeq. cbn. lia. }
  destruct (Qeq_bool _ 0) eqn:E.
  - apply Qeq_bool_eq in E. rewrite R in E. revert E. unfold Qeq. cbn. intros E.
    assert (Zero : (inject_Z p /! 1 == 0)%Q) by (unfold div; rewrite <- rnd_0; apply rnd_proper; replace p with 0 by lia; reflexivity).
    rewrite Zero. split; [intros G; exfalso; revert G; unfold Qle; cbn; lia | lia].
  - assert (NZ : p + f <> 0) by (intros Z0; rewrite Z0 in R; rewrite (proj2 (Qeq_bool_iff _ 0) R) in E; discriminate E).
    assert (D : (inject_Z p /! (inject_Z (Z.of_nat (List.length l)) -! inject_Z k) == inject_Z p /! inject_Z (p + f))%Q)
      by (unfold div; apply rnd_proper; now rewrite R).
    rewrite D, rate_one by lia. lia.
Qed.
End Gate.

(** ** The properties *)

(** C20: Whatever the shell does (rejects, fails to run a command, prints
    anything), the executor answers with a result of the validator it was asked
    for: a PASS or FAIL with an observed value, or an ERROR without one; it only
    adds to the commands run, and the clock does not go back. *)
Theorem t3_answers `{Rounding} `{ShellRunner} configured spec w :
  exists r w', run (t3_execute configured spec) w = (inr r, w') /\ er_validatorId r = vs_id spec /\
    (er_status r = ERROR <-> er_observed r = None) /\ (er_status r = ERROR \/ er_status r = PASS \/ er_status r = FAIL) /\
    later w w' /\ (configured = false -> er_status r = ERROR /\ w' = w).
Proof.
  destruct (t3_runs configured spec w) as (r & w' & E). exists r, w'. split; [exact E |].
  destruct (yields_run _ _ _ _ _ (t3_settled configured spec) E) as [I V]. split; [exact I |].
  pose proof (preserves_run later _ w (t3_later configured spec)) as L. rewrite E in L.
  split_and!; [| | exact L | intros ->; injection E as <- <-; easy].
  - destruct V as [[-> ->]|[[->| ->] [o ->]]]; easy.
  - destruct V as [[-> _]|[[->| ->] _]]; auto.
Qed.

(** C21: A chaos probe ends, on any shell that answers. The fault is injected
    only when the service answers as expected beforehand; an unhealthy service,
    an unknown action and a fault that did not apply are ERROR, with no further
    command. After the fault the service is probed until the deadline (or a
    probe that cannot run), in a bounded number of rounds, and the verdict is
    PASS exactly when at most one probe failed and the last one did not. *)
Theorem chaos_probe_ends `{Rounding} `{ShellRunner} id cfg action url w : never_rejects ->
  truthy (cp_action cfg) = Some action -> truthy (cp_health_check cfg ≫= hc_url) = Some url ->
  let rec := default 60000 (cp_recovery_timeout_ms cfg) in
  let iv := default 2000 (cp_health_check cfg ≫= hc_interval_ms) in
  exists r w', run (runChaosProbe id (Some cfg)) w = (inr r, w') /\
    chaos_outcome url (default 200 (cp_health_check cfg ≫= hc_expect_status)) iv rec
      (chaos_script action (default EmptyString (cp_target_selector cfg))) w (er_status r) w' /\
    (exists extra, ws_commands w' = ws_commands w ++ extra /\
       (Z.of_nat (List.length extra) - 3) * Z.max 1 iv < Z.max 0 rec + Z.max 1 iv).
Proof.
  intros N A U. cbv zeta. destruct (chaos_runs id cfg action url w N A U) as (r & w' & E & _ & O).
  exists r, w'. split; [exact E |]. split; [exact O |]. exact (outcome_commands _ _ _ _ _ _ _ _ O).
Qed.

(** With the default pass rate a TAP or go test report passes exactly when
    some test passed and none failed, whatever the command's exit code; skipped
    tests do not count, so a run in which every test was skipped fails. *)
Theorem suite_gate `{Rounding} `{ShellRunner} id cfg exit text f l :
  tsu_min_pass_rate cfg = None -> default (format_text (inferFormat text (default EmptyString (tsu_report_path cfg)))) (tsu_report_format cfg) = format_text f ->
  (f = Tap /\ l = omap tap_line (lines text) \/ f = GoJson /\ l = omap go_line (lines text)) ->
  l <> [] -> Z.of_nat (List.length l) <= 2 ^ 53 ->
  er_status (suite_result id cfg exit text) = if bool_decide (OPassed ∈ l /\ OFailed ∉ l) then PASS else FAIL.
Proof.
  intros M F O N B. destruct (counts_gate l N B) as (c & C & T & G). unfold suite_result. rewrite M, F.
  assert (format_of (format_text f) = Some f) as -> by (destruct O as [[-> _]|[-> _]]; reflexivity).
  assert (parseReport (Some f) text = Some c) as -> by (destruct O as [[-> ->]|[-> ->]]; exact C).
  rewrite T. cbn [default er_status parsed_result]. unfold verdict_of. apply (f_equal (fun b : bool => if b then PASS else FAIL)).
  apply eq_bool_prop_intro. rewrite !Is_true_true, Qleb_le, bool_decide_eq_true. exact G.
Qed.

(** An authored chaos probe cannot be judged: the runner waits five seconds
    when the validator has no [timeoutMs] (the authored field is [timeout_ms],
    which nothing maps to it), the probe's recovery window is longer than that
    (a minute by default), and so, on a shell without infrastructure errors,
    every try times out or errs and the result is ERROR. *)
Theorem chaos_never_judged `{Rounding} `{ShellRunner} `{ValidatorRpc} `{Workspaces} configured spec cfg env id s :
  reliable -> vs_type spec = "CHAOS_PROBE"%string -> vs_timeoutMs spec = None -> vs_config spec ≫= vc_chaos_probe = Some cfg ->
  DEFAULT_TIMEOUT_MS < default 60000 (cp_recovery_timeout_ms cfg) ->
  exists r s', run (@executeWithTimeoutAndRetry (t3_executor configured) env id spec) s = (inr r, s') /\ er_status r = ERROR.
Proof.
  intros R T M C L. apply tries_fail. intros cs. cbn [executor_execute t3_executor]. unfold execute_with_timeout.
  rewrite T, bool_decide_true by (unfold T3_VALIDATOR_TYPES; set_solver).
  set (w := workspace_at cs env id). unfold t3_execute. destruct configured.
  - rewrite run_try. unfold t3_handler. rewrite T. cbn [String.eqb Ascii.eqb Bool.eqb]. rewrite C.
    destruct (chaos_slow (vs_id spec) cfg w R) as (r & w' & -> & [E|E]); cbn [conclusive]; unfold within_timeout, timeout_of; rewrite M; cbn [default];
      destruct (Z.leb_spec (ws_clock w' - ws_clock w) DEFAULT_TIMEOUT_MS); cbn; [now rewrite E | easy | lia | easy].
  - cbn [run err]. unfold within_timeout. destruct (_ <=? _); reflexivity.
Qed.

(** A scanner report that is no JSON is read as no findings: whatever the
    scanner printed and whatever its exit code, the static analysis passes (the
    cap on the number of findings is not negative). *)
Theorem unreadable_report_passes `{Rounding} `{ShellRunner} id cfg tool w r :
  truthy (sac_tool cfg) = Some tool -> from_option (Z.le 0) True (sac_max_findings cfg) ->
  shell_run w (tool_command tool (default "."%string (truthy (sac_target cfg)))) = inr r -> truthy (infraError r) = None ->
  parseLooseJson (stdout r) = None ->
  exists v w', run (runStaticAnalysis id (Some cfg)) w = (inr v, w') /\ er_status v = PASS.
Proof.
  intros T M E I U. unfold runStaticAnalysis. set (c := default _ (Some cfg)). change c with cfg. clear c. cbv zeta. rewrite T.
  rewrite run_bind, run_try, run_bind. unfold runTool, run_command, runner_run. run_simpl. rewrite E. cbn [run]. rewrite I. cbn [run].
  assert (F : tool_findings tool (stdout r) = []).
  { unfold tool_findings, tfsec_findings, checkov_findings, trivy_findings. rewrite U. now repeat destruct (String.eqb _ _). }
  rewrite F. eexists _, _. split; [reflexivity |]. cbn [er_status List.length overThreshold List.filter]. unfold verdict_of, analysis_failed.
  destruct (sac_max_findings cfg) as [m|]; [|reflexivity]. cbn in M. rewrite (proj2 (Z.ltb_ge m (Z.of_nat _))) by (cbn; lia). reflexivity.
Qed.

(** ** The properties at work *)
Section Witnesses.
#[local] Existing Instance binary64.
(** A shell in which every command prints 200 and exits with 0. *)
#[local] Instance fine_shell : ShellRunner := {|
  backend := "fake"; shell_run := fun _ _ => inr (mkShellResult 0 "200" "" None); shell_time := fun _ _ => 0;
  shell_time_nonneg := fun _ _ => Z.le_refl 0 |}.
#[local] Instance fine_workspaces : Workspaces := {| workspace_at := fun _ _ _ => mkWorkspace [] 0 |}.
#[local] Instance no_rpc : ValidatorRpc := {|
  rpc_ExecValidator := fun _ _ => inl RemoteError; rpc_CheckRegression := fun _ _ _ => inl RemoteError; rpc_time := fun _ _ => 0 |}.
Definition probe_config : ChaosProbeConfig :=
  mkChaosProbeConfig (Some "kill_pod"%string) None (Some (mkHealthCheck (Some "http://x"%string) None None)) (Some 8000).
Definition probe_spec : ValidatorSpec :=
  mkValidatorSpec "v" "CHAOS_PROBE" 1 None None None JNull (Some (mkValidatorConfig None None None None (Some probe_config) None)).

Lemma fine_reliable : reliable.
Proof. intros w c. eexists. split; reflexivity. Defined.

Lemma t3_answers_witness : exists r w', run (t3_execute false probe_spec) (mkWorkspace [] 0) = (inr r, w') /\ er_status r = ERROR.
Proof.
  destruct (t3_answers false probe_spec (mkWorkspace [] 0)) as (r & w' & E & _ & _ & _ & _ & C).
  exists r, w'. split; [exact E |]. now apply C.
Defined.
Lemma chaos_probe_ends_witness : exists r w', run (runChaosProbe "v" (Some probe_config)) (mkWorkspace [] 0) = (inr r, w') /\
  chaos_outcome "http://x" 200 2000 8000 (chaos_script "kill_pod" "") (mkWorkspace [] 0) (er_status r) w'.
Proof.
  destruct (chaos_probe_ends "v" probe_config "kill_pod" "http://x" (mkWorkspace [] 0)
    (reliable_answers fine_reliable) eq_refl eq_refl) as (r & w' & E & O & _).
  exists r, w'. now split.
Defined.
Lemma suite_gate_witness : er_status (suite_result "v" (mkTestSuiteConfig None None None None) 0 tap_text) = FAIL.
Proof.
  rewrite (suite_gate "v" (mkTestSuiteConfig None None None None) 0 tap_text Tap [OPassed; OFailed; OSkipped]);
    [vm_compute; reflexivity | reflexivity | vm_compute; reflexivity | left; split; vm_compute; reflexivity | easy | vm_compute; easy].
Defined.
Lemma chaos_never_judged_witness : exists r s',
  run (@executeWithTimeoutAndRetry (t3_executor true) "env" 1%nat probe_spec) empty_store = (inr r, s') /\ er_status r = ERROR.
Proof. apply (chaos_never_judged true probe_spec probe_config); [exact fine_reliable | reflexivity.. |]. vm_compute. reflexivity. Defined.
Lemma unreadable_report_passes_witness : exists v w',
  run (runStaticAnalysis "v" (Some (mkStaticAnalysisConfig (Some "tfsec"%string) None None None))) (mkWorkspace [] 0) = (inr v, w') /\ er_status v = PASS.
Proof.
  apply (unreadable_report_passes "v" (mkStaticAnalysisConfig (Some "tfsec"%string) None None None) "tfsec" (mkWorkspace [] 0) (mkShellResult 0 "200" "" None));
    [reflexivity | exact I | reflexivity | reflexivity | vm_compute; reflexivity].
Defined.
End Witnesses.
