(* ===== verification/ExecutorBackends.v ===== *)
(** * Where a validator's commands run

    evaluation/t3/orchestrator-shell-runner.ts, which turns a command into one
    line for the bash of the learner's workspace, and local-shell-runner.ts,
    which runs it below a fixture directory: two instances of the interface
    [ShellRunner].  The orchestrator, the file system and child processes are
    outside. *)
From Stdlib Require Import Ascii.
From stdpp Require Import pretty.
From S2P Require Import Prelude RegExp JsNum Binary64 Effects Schema JsText JsonParse JsonLaws Criteria ValidatorRunner ShellValidators.
Open Scope Z_scope.

(** Nothing ran: the command's [infraError]. *)
Definition infra_result (detail : string) : ShellResult := mkShellResult (-1) "" "" (Some detail).

(** ** orchestrator-shell-runner.ts *)
Record ExecShellRequest := mkExecShellRequest {
  es_environmentId : string; es_command : string; es_timeoutMs : Z; es_attemptId : Id }.
Record ExecShellResponse := mkExecShellResponse {
  ex_exitCode : option Z; ex_stdout : option string; ex_stderr : option string; ex_errorMessage : option string }.
(** The orchestrator's ExecShell, [inl] a failed call with its message. *)
Class ExecShellRpc := {
  exec_shell : Workspace -> ExecShellRequest -> string + ExecShellResponse;
  exec_shell_time : Workspace -> ExecShellRequest -> Z;
  exec_shell_time_nonneg : forall w r, 0 <= exec_shell_time w r
}.

Definition shQuote : string -> string := shq.
Definition env_prefix (env : list (string * string)) : string :=
  String.concat " " ((fun kv => kv.1 ++ "=" ++ shQuote kv.2)%string <$> env).
Definition argv_text (argv : list string) : string := String.concat " " (shQuote <$> argv).
Definition bash_command (cmd : ShellCommand) : string :=
  ((match truthy (sh_cwd cmd) with Some cwd => "cd " ++ shQuote cwd ++ " && " | None => "" end) ++
   (match env_prefix (sh_env cmd) with EmptyString => "" | env => env ++ " " end) ++ argv_text (sh_argv cmd))%string.

Section Orchestrator.
Context `{ExecShellRpc}.
Variables (environmentId : string) (attemptId : Id).
Definition exec_shell_request (cmd : ShellCommand) : ExecShellRequest :=
  mkExecShellRequest environmentId (bash_command cmd) (sh_timeoutMs cmd) attemptId.
Definition runBound (w : Workspace) (cmd : ShellCommand) : ShellResult :=
  match exec_shell w (exec_shell_request cmd) with
  | inl message => infra_result message
  | inr r => mkShellResult (default (-1) (ex_exitCode r)) (default EmptyString (ex_stdout r)) (default EmptyString (ex_stderr r))
               (truthy (ex_errorMessage r))
  end.
Definition forAttempt : ShellRunner := {|
  backend := "orchestrator-exec-shell";
  shell_run := fun w cmd => inr (runBound w cmd);
  shell_time := fun w cmd => exec_shell_time w (exec_shell_request cmd);
  shell_time_nonneg := fun w cmd => exec_shell_time_nonneg w (exec_shell_request cmd) |}.
End Orchestrator.
(** Unbound, it only says so. *)
Definition run_unbound : ShellResult := infra_result "OrchestratorShellRunner.run() called without forAttempt".

(** ** local-shell-runner.ts *)

(** Absolute paths as their segments; [path.resolve] drops empty ones and dots. *)
Definition slash : ascii := "/".
Definition segments (path : string) : list string := split (rx "/") path.
Definition step_segment (done : list string) (s : string) : list string :=
  if String.eqb s "" || String.eqb s "." then done else if String.eqb s ".." then removelast done else done ++ [s].
Definition normalise (l : list string) : list string := fold_left step_segment l [].
Definition is_absolute (path : string) : bool := String.prefix "/" path.
Definition resolve (root path : string) : list string :=
  if is_absolute path then normalise (segments path) else normalise (segments root ++ segments path).
(** [path.relative] of two resolved paths. *)
Fixpoint relative (from to : list string) : list string :=
  match from, to with
  | f :: from', t :: to' => if String.eqb f t then relative from' to' else replicate (List.length from) ".."%string ++ to
  | _, _ => replicate (List.length from) ".."%string ++ to
  end.
Definition resolveCwd (rootDir : string) (cwd : option string) : option (list string) :=
  let resolved := resolve rootDir (default "."%string cwd) in
  let rel := String.concat "/" (relative (normalise (segments rootDir)) resolved) in
  if String.prefix ".." rel || is_absolute rel then None else Some resolved.

(** A child process: its exit code (or none, when a signal ended it) and output,
    a failure to start, or what was printed before the timeout killed it. *)
Inductive ChildProcess :=
  | Closed (code : option Z) (out errors : string)
  | NotStarted (message out errors : string)
  | TimedOut (out errors : string).
Class LocalHost := {
  existsSync : Workspace -> list string -> bool;
  spawn : Workspace -> list string -> ShellCommand -> ChildProcess;
  spawn_time : Workspace -> ShellCommand -> Z;
  spawn_time_nonneg : forall w c, 0 <= spawn_time w c
}.
Section Local.
Context `{LocalHost}.
Variable rootDir : string.
Definition local_run (w : Workspace) (cmd : ShellCommand) : ShellResult :=
  match resolveCwd rootDir (sh_cwd cmd) with
  | None => infra_result "cwd escapes the fixture root"
  | Some cwd =>
      if negb (existsSync w cwd) then infra_result "working directory does not exist"
      else match sh_argv cmd with
      | [] | EmptyString :: _ => infra_result "empty argv"
      | bin :: _ =>
          match spawn w cwd cmd with
          | Closed code out errors => mkShellResult (default (-1) code) out errors None
          | NotStarted message out errors =>
              mkShellResult (-1) out errors (Some ("failed to start " ++ dquoted bin ++ ": " ++ message)%string)
          | TimedOut out errors =>
              mkShellResult (-1) out errors
                (Some ("command timed out after " ++ pretty (sh_timeoutMs cmd) ++ "ms: " ++ String.concat " " (sh_argv cmd))%string)
          end
      end
  end.
(** The constructor refuses a relative root. *)
Definition local_runner : option ShellRunner :=
  if is_absolute rootDir then Some {|
    backend := "local-fixture"; shell_run := fun w cmd => inr (local_run w cmd);
    shell_time := spawn_time; shell_time_nonneg := spawn_time_nonneg |}
  else None.
End Local.

(** ** fake-validator-executor.ts *)
Section FakeExecutor.
(** The overrides, by environment and validator. *)
Variable overrides : gmap string ValidatorResultStatus.
Definition override_key (environmentId validatorId : string) : string := (environmentId ++ ":" ++ validatorId)%string.
Definition setOverride (environmentId validatorId : string) (status : ValidatorResultStatus) : gmap string ValidatorResultStatus :=
  <[override_key environmentId validatorId := status]> overrides.
Definition clearOverrides (environmentId : string) : gmap string ValidatorResultStatus :=
  filter (fun kv => String.prefix (environmentId ++ ":") kv.1 = false) overrides.
Definition fake_execute (environmentId : string) (spec : ValidatorSpec) : ValidatorResult :=
  match default PASS (overrides !! override_key environmentId (vs_id spec)) with
  | ERROR => mkValidatorResult (vs_id spec) ERROR None None
  | PASS => mkValidatorResult (vs_id spec) PASS (Some (vs_expect spec)) (Some (vs_expect spec))
  | status => mkValidatorResult (vs_id spec) status
                (Some (JObj [("note"%string, JStr "fake executor: simulated failure")])) (Some (vs_expect spec))
  end.
End FakeExecutor.

(** ** Quoting

    How a POSIX shell splits a line into words: blanks separate them, everything
    between single quotes is literal, a backslash outside quotes makes the next
    character literal.  A line with another special character outside quotes is
    not a list of words ([None]). *)
Definition special (c : ascii) : bool :=
  existsb (Ascii.eqb c) (explode "|&;<>()$`*?[#~{}!"%string ++ ["034"; "009"; "010"; "013"]%char).
Definition flush (word : option chars) : list string := match word with Some w => [implode w] | None => [] end.
Definition grow (word : option chars) (c : ascii) : option chars := Some (default [] word ++ [c]).
Fixpoint words (quoted : bool) (word : option chars) (s : chars) : option (list string) :=
  match s with
  | [] => if quoted then None else Some (flush word)
  | c :: s =>
      if quoted then
        if (c =? "'")%char then words false word s else words true (grow word c) s
      else if (c =? " ")%char then (fun l => flush word ++ l) <$> words false None s
      else if (c =? "'")%char then words true (Some (default [] word)) s
      else if (c =? "\")%char then match s with d :: s => words false (grow word d) s | [] => None end
      else if special c then None else words false (grow word c) s
  end.
Definition posix_words (line : string) : option (list string) := words false None (explode line).

Lemma quoted_words l w s : words true (Some w) (quote_chars l ++ "'"%char :: s) = words false (Some (w ++ l)) s.
Proof.
  revert w. induction l as [|c l IH]; intros w; cbn [quote_chars app]; [cbn; now rewrite app_nil_r |].
  destruct (c =? "'")%char eqn:E.
  - apply Ascii.eqb_eq in E as ->. cbn. etransitivity; [apply IH |]. now rewrite <- app_assoc.
  - cbn [app words]. rewrite E. cbn [grow default from_option id]. etransitivity; [apply IH |]. now rewrite <- app_assoc.
Qed.

(** A text that is read as one word. *)
Definition reads_as (t v : string) : Prop :=
  forall w s, words false w (explode t ++ s) = words false (Some (default [] w ++ explode v)) s.
Lemma reads_quote v : reads_as (shQuote v) v.
Proof.
  intros w s. unfold shQuote, shq. rewrite explode_implode, <- app_comm_cons, <- app_assoc. cbn [app words].
  change (("'" =? " ")%char) with false. change (("'" =? "'")%char) with true. cbn iota. apply quoted_words.
Qed.
Definition plain (c : ascii) : bool := negb ((c =? " ")%char || (c =? "'")%char || (c =? "\")%char || special c).
Lemma reads_plain k t v : k <> EmptyString -> forallb plain (explode k) = true -> reads_as t v -> reads_as (k ++ t)%string (k ++ v)%string.
Proof.
  intros N P R w s. rewrite !explode_app, <- app_assoc.
  assert (G : forall l w, forallb plain l = true -> words false (Some w) (l ++ explode t ++ s) = words false (Some (w ++ l ++ explode v)) s).
  { clear w N P. induction l as [|c l IH]; intros w P; [apply (R (Some w)) |]. cbn in P. apply andb_true_iff in P as [Pc P].
    unfold plain in Pc. rewrite negb_true_iff, !orb_false_iff in Pc. destruct Pc as [[[E1 E2] E3] E4].
    cbn [app words]. rewrite E1, E2, E3, E4. cbn [grow default from_option id]. etransitivity; [apply (IH _ P) |]. now rewrite <- app_assoc. }
  destruct k as [|c k]; [easy |]. cbn [explode] in *. cbn in P. apply andb_true_iff in P as [Pc P].
  unfold plain in Pc. rewrite negb_true_iff, !orb_false_iff in Pc. destruct Pc as [[[E1 E2] E3] E4].
  cbn [app words]. rewrite E1, E2, E3, E4. unfold grow. etransitivity; [apply (G _ _ P) |]. now rewrite <- app_assoc.
Qed.
Lemma concat_text_cons sep x l : l <> [] -> String.concat sep (x :: l) = (x ++ sep ++ String.concat sep l)%string.
Proof. now destruct l. Qed.
Lemma words_line ts vs : Forall2 reads_as ts vs -> posix_words (String.concat " " ts) = Some vs.
Proof.
  unfold posix_words. induction 1 as [|t v ts vs R F IH]; [reflexivity |]. destruct ts as [|t' ts].
  - inversion F. cbn [String.concat]. rewrite <- (app_nil_r (explode t)), R. cbn. now rewrite implode_explode.
  - rewrite concat_text_cons by easy. rewrite !explode_app, R. cbn [explode app words].
    change ((" " =? " ")%char) with true. cbn iota. rewrite IH. cbn. now rewrite implode_explode.
Qed.
Lemma text_assoc (a b c : string) : ((a ++ b) ++ c = a ++ b ++ c)%string.
Proof. induction a as [|x a IH]; [reflexivity | exact (f_equal (String x) IH)]. Qed.
Lemma concat_app sep l l' : l <> [] -> l' <> [] -> String.concat sep (l ++ l') = (String.concat sep l ++ sep ++ String.concat sep l')%string.
Proof.
  intros N N'. induction l as [|x l IH]; [easy |]. cbn [app]. rewrite concat_text_cons by (now destruct l).
  destruct l as [|y l]; [reflexivity |]. rewrite IH by easy. rewrite (concat_text_cons sep x (y :: l)) by easy. now rewrite !text_assoc.
Qed.
Lemma env_reads env : Forall (fun kv => kv.1 <> EmptyString /\ forallb plain (explode kv.1) = true) env ->
  Forall2 reads_as ((fun kv => kv.1 ++ "=" ++ shQuote kv.2)%string <$> env) ((fun kv => kv.1 ++ "=" ++ kv.2)%string <$> env).
Proof.
  induction 1 as [|kv env [N P] F IH]; [constructor |]. rewrite !fmap_cons. constructor; [|exact IH].
  apply reads_plain; [easy.. |]. apply reads_plain; [easy | reflexivity | apply reads_quote].
Qed.
Lemma argv_reads argv : Forall2 reads_as (shQuote <$> argv) argv.
Proof. induction argv; [constructor |]. rewrite fmap_cons. constructor; [apply reads_quote | easy]. Qed.

(** ** Confinement *)
Lemma relative_below from to rel : relative from to = rel -> (exists x, rel = ".."%string :: x) \/ to = from ++ rel.
Proof.
  revert to. induction from as [|f from IH]; intros to; cbn.
  - intros <-. now right; destruct to.
  - destruct to as [|t to]; [intros <-; left; eauto |]. destruct (String.eqb_spec f t) as [->|].
    + intros E. destruct (IH to E) as [L| ->]; [now left | now right].
    + intros <-. left. eauto.
Qed.
Lemma relative_under from rest : relative from (from ++ rest) = rest.
Proof. induction from as [|f from IH]; cbn; [now destruct rest | now rewrite String.eqb_refl]. Qed.
Lemma dotdot_prefix x : String.prefix ".." (String.concat "/" (".."%string :: x)) = true.
Proof. destruct x; reflexivity. Qed.
Definition within (root p : list string) : Prop := exists rest, p = root ++ rest.
Lemma resolveCwd_within root cwd p : resolveCwd root cwd = Some p -> within (normalise (segments root)) p /\ p = resolve root (default "."%string cwd).
Proof.
  unfold resolveCwd. destruct (_ || _) eqn:B; [easy |]. intros [= <-]. split; [|reflexivity]. apply orb_false_iff in B as [B _].
  destruct (relative_below (normalise (segments root)) (resolve root (default "."%string cwd)) _ eq_refl) as [[x E]|E]; [|eexists; exact E].
  rewrite E, dotdot_prefix in B. discriminate.
Qed.

Lemma prefix_cons a s b t : String.prefix (String a s) (String b t) = if ascii_dec a b then String.prefix s t else false.
Proof. reflexivity. Qed.
Lemma prefix_nil t : String.prefix EmptyString t = true.
Proof. now destruct t. Qed.
Lemma append_cons a s t : (String a s ++ t = String a (s ++ t))%string.
Proof. reflexivity. Qed.
Lemma prefix_first x l : x <> EmptyString -> x <> "."%string -> String.prefix ".." x = false -> String.prefix ".." (String.concat "/" (x :: l)) = false.
Proof.
  intros N D P. destruct l as [|y l]; [exact P |]. rewrite concat_text_cons by easy.
  destruct x as [|a [|b x]]; [easy | |]; rewrite !append_cons, !prefix_cons in *; (destruct (ascii_dec _ a) as [<-|]; [|reflexivity]).
  - easy.
  - destruct (ascii_dec _ b); [|reflexivity]. now rewrite prefix_nil in P.
Qed.
Lemma slash_first x l : x <> EmptyString -> is_absolute x = false -> is_absolute (String.concat "/" (x :: l)) = false.
Proof.
  intros N A. destruct l as [|y l]; [exact A |]. rewrite concat_text_cons by easy. destruct x as [|a x]; [easy |].
  unfold is_absolute in *. rewrite !append_cons, !prefix_cons in *. destruct (ascii_dec _ a); [|reflexivity]. now rewrite prefix_nil in A.
Qed.

(** ** The properties *)

(** The line sent to the workspace's bash is the command and nothing else:
    split into words by the shell's quoting rules it is the assignments of the
    environment followed by exactly the arguments, whatever characters they
    contain (spaces, quotes, semicolons, dollars), below a cd to the quoted
    directory; no argument can start another command. *)
Theorem command_line_quoted `{ExecShellRpc} environmentId attemptId cmd :
  Forall (fun kv => kv.1 <> EmptyString /\ forallb plain (explode kv.1) = true) (sh_env cmd) -> sh_argv cmd <> [] ->
  exists cd line, es_command (exec_shell_request environmentId attemptId cmd) = (cd ++ line)%string /\
    posix_words line = Some (((fun kv => kv.1 ++ "=" ++ kv.2)%string <$> sh_env cmd) ++ sh_argv cmd) /\
    match truthy (sh_cwd cmd) with
    | None => cd = EmptyString
    | Some dir => exists q, cd = ("cd " ++ q ++ " && ")%string /\ posix_words q = Some [dir]
    end.
Proof.
  intros E N. cbn [es_command exec_shell_request]. unfold bash_command.
  exists (match truthy (sh_cwd cmd) with Some cwd => "cd " ++ shQuote cwd ++ " && " | None => "" end)%string.
  exists (String.concat " " (((fun kv => kv.1 ++ "=" ++ shQuote kv.2)%string <$> sh_env cmd) ++ (shQuote <$> sh_argv cmd))). split; [|split].
  - f_equal. unfold env_prefix, argv_text. destruct (sh_env cmd) as [|kv env]; [reflexivity |].
    rewrite concat_app by (now destruct (sh_argv cmd)). rewrite fmap_cons. apply Forall_cons in E as [[K _] _]. destruct kv as [[|a k] v]; [easy |].
    set (l := (fun kv => kv.1 ++ "=" ++ shQuote kv.2)%string <$> env). cbn [fst snd]. rewrite append_cons.
    assert (X : String.concat " " (String a (k ++ "=" ++ shQuote v) :: l)%string <> EmptyString)
      by (destruct l; [easy | rewrite concat_text_cons, append_cons; easy]).
    destruct (String.concat " " (String a (k ++ "=" ++ shQuote v) :: l)%string); [easy | now rewrite text_assoc].
  - apply words_line, Forall2_app; [now apply env_reads | apply argv_reads].
  - destruct (truthy (sh_cwd cmd)) as [dir|]; [|reflexivity]. exists (shQuote dir). split; [reflexivity |].
    apply (words_line [shQuote dir] [dir]). constructor; [apply reads_quote | constructor].
Qed.

(** A command of the local runner runs below the fixture root or not at all:
    the directory it runs in is the resolved one and lies under the root, a
    directory outside gives an infrastructure error without a process; and a
    directory under the root whose first segment does not start with two dots
    is accepted. *)
Theorem local_confined `{LocalHost} root cmd w :
  (match resolveCwd root (sh_cwd cmd) with
   | Some p => within (normalise (segments root)) p /\ p = resolve root (default "."%string (sh_cwd cmd))
   | None => exists detail, local_run root w cmd = infra_result detail
   end) /\
  (forall x rest, resolve root (default "."%string (sh_cwd cmd)) = normalise (segments root) ++ x :: rest ->
     x <> EmptyString -> x <> "."%string -> is_absolute x = false -> String.prefix ".." x = false ->
     is_Some (resolveCwd root (sh_cwd cmd))).
Proof.
  split.
  - destruct (resolveCwd root (sh_cwd cmd)) as [p|] eqn:E; [now apply resolveCwd_within |]. unfold local_run. rewrite E. eauto.
  - intros x rest E N D A P. unfold resolveCwd. rewrite E, relative_under, prefix_first, slash_first by easy. eauto.
Qed.

(** A fixture directory whose name starts with two dots is refused although
    it lies under the root: the check compares texts, not segments. *)
Theorem dotted_directory_refused : resolveCwd "/fixtures" (Some "..data"%string) = None /\
  resolve "/fixtures" "..data" = normalise (segments "/fixtures") ++ ["..data"%string].
Proof. now vm_compute. Qed.

Section Witnesses.
#[local] Instance silent_rpc : ExecShellRpc := {|
  exec_shell _ _ := inl "unreachable"%string; exec_shell_time _ _ := 0; exec_shell_time_nonneg _ _ := Z.le_refl 0 |}.
Definition hostile : ShellCommand :=
  mkShellCommand ["echo"; "'; rm -rf / #"; "$(id)"]%string (Some "a b"%string) [("AWS_REGION"%string, "eu west"%string)] 1000.
Lemma command_line_quoted_witness : exists cd line, es_command (exec_shell_request "env" 1%nat hostile) = (cd ++ line)%string /\
  posix_words line = Some ["AWS_REGION=eu west"; "echo"; "'; rm -rf / #"; "$(id)"]%string.
Proof.
  destruct (command_line_quoted "env" 1%nat hostile) as (cd & line & E & W & _); [repeat constructor; discriminate | discriminate |].
  exists cd, line. split; [exact E | exact W].
Defined.
End Witnesses.
