(* ===== verification/Artifact.v ===== *)
(** * Artifacts and their AI grading

    evaluation/artifact.service.ts and common/activity-spec-reader.ts.  The
    rubric files and the grader are outside: [AiGrading].  [ArtifactGrading] is
    what the evaluation service relies on; the service defined here has it. *)
From S2P Require Import Prelude JsNum Binary64 Effects Schema AttemptStatus EventStore AttemptRepository Criteria ValidatorRunner Hash.

(** common/activity-spec-reader.ts. *)
Definition spec_of_attempt (attemptId : Id) (s : Store) : option ActivitySpec :=
  a ← attempts s !! attemptId; v ← versions s !! activity_version_id a; Some (av_spec v).
Definition getActivitySpec (attemptId : Id) : prog Store (option ActivitySpec) :=
  select (spec_of_attempt attemptId).

(** ** What evaluation relies on: grading is a side channel *)
Class ArtifactGrading := {
  gradeArtifact : Id -> string -> prog Store unit;
  grade_frame : forall id key, preserves runner_frame (gradeArtifact id key);
  grade_quiet : forall id key, preserves quiet (gradeArtifact id key)
}.

(** ** The grader and the rubric files *)
Record GradingFacts := mkGradingFacts {
  gf_artifactText : string; gf_appliedFaultIds : list string;
  gf_resolutionValidatorResults : list (string * ValidatorResultStatus); gf_commandSequence : list string }.
Record CriterionGrade := mkCriterionGrade {
  cg_criterion : string; cg_level : Z; cg_confidence : Q; cg_evidenceQuotes : list string;
  cg_justification : string; cg_flags : list string }.
Record GradingResult := mkGradingResult {
  gr_rubricId : string; gr_criterionGrades : list CriterionGrade; gr_provisional : bool;
  gr_provisionalReason : option string }.

(** The levels of the rubrics are integers. *)
Record RubricLevel := mkRubricLevel { rl_level : Z; rl_descriptor : string }.
Record RubricExemplar := mkRubricExemplar { rx_level : Z; rx_text : string }.
Record RubricCriterion := mkRubricCriterion {
  rc_key : string; rc_title : string; rc_description : string; rc_levels : list RubricLevel;
  rc_exemplars : option (list RubricExemplar) }.
Record Rubric := mkRubric {
  rb_id : string; rb_version : nat; rb_artifactType : string; rb_requiredSections : list string;
  rb_criteria : list RubricCriterion; rb_humanReviewPolicy : string }.

Class AiGrading := {
  getRubric : string -> option Rubric;               (* content/rubrics/<id>.yaml *)
  grader_grade : Rubric -> GradingFacts -> exn + GradingResult
}.

Definition grade_json (g : CriterionGrade) : Json :=
  JObj [("criterion"%string, JStr (cg_criterion g)); ("level"%string, JNum (inject_Z (cg_level g)));
        ("confidence"%string, JNum (cg_confidence g));
        ("evidenceQuotes"%string, JArr (JStr <$> cg_evidenceQuotes g));
        ("justification"%string, JStr (cg_justification g)); ("flags"%string, JArr (JStr <$> cg_flags g))].

(** The [cmd] of every COMMAND_EXECUTED event, in order. *)
Definition command_sequence (evs : list AttemptEventRow) : list string :=
  omap (fun e => match jstring "cmd" (ev_payload e) with Some EmptyString | None => None | c => c end)
    (List.filter (fun e => bool_decide (ev_type e = COMMAND_EXECUTED)) evs).

Section ArtifactService.
Context `{AiGrading}.

Definition required_artifact (spec : ActivitySpec) (key : string) : option ArtifactRequired :=
  List.find (fun a => String.eqb (aq_key a) key) (default [] (s_artifacts_required spec)).

Definition submit_artifact (attemptId : Id) (key content : string) : prog Store unit :=
  let* row := getActivitySpec attemptId in
  let* spec := findOrThrow row in
  match required_artifact spec key with
  | None => Throw (BadRequestException "activity does not require an artifact with key")
  | Some _ =>
      let checksum := sha256_hex content in
      execute (fun s => s <| artifacts ::= fun l =>
        l ++ [mkArtifact attemptId key "local://inline" (Some checksum) (Some content) (now s)] |>) ;;
      appendTypedEvent attemptId LEARNER EDITOR_SAVE
        (JObj [("artifact_key"%string, JStr key); ("bytes"%string, jnat (String.length content));
               ("checksum"%string, JStr checksum)])
  end.

Definition results_of (attemptId : Id) (s : Store) : list (string * ValidatorResultStatus) :=
  (fun r => (vres_validator_id r, vres_status r)) <$>
    List.filter (fun r => existsb (fun run => Nat.eqb (vr_id run) (vres_run_id r) && Nat.eqb (vr_attempt_id run) attemptId)
                            (validation_runs s)) (validator_results s).

Definition grade (attemptId : Id) (key : string) : prog Store unit :=
  let* artifact := select (fun s => first_desc ar_created_at
    (List.filter (fun a => Nat.eqb (ar_attempt_id a) attemptId && String.eqb (ar_kind a) key) (artifacts s))) in
  match artifact ≫= ar_content with
  | None => Ret tt
  | Some content =>
      let* row := getActivitySpec attemptId in
      let* spec := findOrThrow row in
      match required_artifact spec key ≫= aq_rubric with
      | None => Ret tt
      | Some rubric =>
          match getRubric rubric with
          | None => Ret tt
          | Some rubric =>
            let* evs := replay attemptId in
            let* results := select (results_of attemptId) in
            let facts := mkGradingFacts content (f_id <$> default [] (s_faults spec)) results (command_sequence evs) in
            match grader_grade rubric facts with
            | inl e => Throw e
            | inr result =>
                appendTypedEvent attemptId AI AI_MESSAGE
                  (JObj [("rubric_id"%string, JStr (rb_id rubric)); ("provisional"%string, JBool (gr_provisional result));
                         ("grades"%string, JArr (grade_json <$> gr_criterionGrades result))])
            end
          end
      end
  end.

Lemma grade_preserves (R : Store -> Store -> Prop) `{!PreOrder R} id key :
  (forall p, preserves R (appendTypedEvent id AI AI_MESSAGE p)) -> preserves R (grade id key).
Proof.
  intros A. unfold grade, getActivitySpec, replay. preserves; auto.
Qed.

#[export] Instance artifact_service : ArtifactGrading := {
  gradeArtifact := grade;
  grade_frame := fun id key => grade_preserves runner_frame id key (fun p => append_frame id AI AI_MESSAGE p);
  grade_quiet := fun id key => grade_preserves quiet id key (fun p => append_quiet id AI AI_MESSAGE p eq_refl)
}.
End ArtifactService.
