(* ===== verification/LlmToolCall.v ===== *)
(** * Forcing a tool call

    evaluation/llm-tool-call.port.ts: one interface over two vendors, and the
    choice of the vendor from the configuration.  The vendors' packages are
    outside: [ProviderSdk]; they see the requests sent before. *)
From Stdlib Require Import Ascii.
From S2P Require Import Prelude RegExp JsNum Binary64 Effects Schema JsText JsonParse.
Open Scope Z_scope.

Record LlmToolSchema := mkLlmToolSchema { ts_name : string; ts_description : string; ts_inputSchema : Json }.
Record LlmToolCallRequest := mkLlmToolCallRequest {
  tc_system : string; tc_user : string; tc_tool : LlmToolSchema; tc_maxTokens : Z; tc_cacheable : bool }.

(** What the graders are written against: a call may depend on the calls before. *)
Class LlmToolCaller := { callTool : list LlmToolCallRequest -> LlmToolCallRequest -> exn + Json }.

(** client.messages.create answers content blocks, chat.completions.create a
    completion; both get a key and the body. *)
Class ProviderSdk := {
  messages_create : string -> list LlmToolCallRequest -> Json -> exn + list Json;
  completions_create : string -> list LlmToolCallRequest -> Json -> exn + Json
}.

(** ** The vendors *)
Section Vendors.
Context `{Rounding} `{ProviderSdk}.

Definition ephemeral : list (string * Json) := [("cache_control"%string, JObj [("type"%string, JStr "ephemeral")])].
Definition anthropic_body (model : string) (req : LlmToolCallRequest) : Json :=
  JObj [("model"%string, JStr model); ("max_tokens"%string, JNum (inject_Z (tc_maxTokens req)));
    ("system"%string, if tc_cacheable req
       then JArr [JObj ([("type"%string, JStr "text"); ("text"%string, JStr (tc_system req))] ++ ephemeral)]
       else JStr (tc_system req));
    ("messages"%string, JArr [JObj [("role"%string, JStr "user"); ("content"%string, JStr (tc_user req))]]);
    ("tools"%string, JArr [JObj ([("name"%string, JStr (ts_name (tc_tool req)));
        ("description"%string, JStr (ts_description (tc_tool req)));
        ("input_schema"%string, ts_inputSchema (tc_tool req))] ++ (if tc_cacheable req then ephemeral else []))]);
    ("tool_choice"%string, JObj [("type"%string, JStr "tool"); ("name"%string, JStr (ts_name (tc_tool req)))])].
Definition is_tool_use (block : Json) : bool :=
  match jfield "type" block with Some (JStr t) => String.eqb t "tool_use" | _ => false end.
(** The input goes through JSON text. *)
Definition anthropic_callTool (key model : string) (sent : list LlmToolCallRequest) (req : LlmToolCallRequest) : exn + Json :=
  match messages_create key sent (anthropic_body model req) with
  | inl e => inl e
  | inr content =>
      match block ← List.find is_tool_use content; input ← jfield "input" block; json_parse (stringify input) with
      | Some input => inr input
      | None => inl (JsError "expected a tool_use block")
      end
  end.

Definition groq_body (model : string) (req : LlmToolCallRequest) : Json :=
  let message (role content : string) := JObj [("role"%string, JStr role); ("content"%string, JStr content)] in
  JObj [("model"%string, JStr model); ("max_tokens"%string, JNum (inject_Z (tc_maxTokens req)));
    ("messages"%string, JArr [message "system" (tc_system req); message "user" (tc_user req)]);
    ("tools"%string, JArr [JObj [("type"%string, JStr "function");
        ("function"%string, JObj [("name"%string, JStr (ts_name (tc_tool req)));
          ("description"%string, JStr (ts_description (tc_tool req))); ("parameters"%string, ts_inputSchema (tc_tool req))])]]);
    ("tool_choice"%string, JObj [("type"%string, JStr "function");
        ("function"%string, JObj [("name"%string, JStr (ts_name (tc_tool req)))])])].
Definition first_of (j : Json) : option Json := match j with JArr (x :: _) => Some x | _ => None end.
(** [completion.choices[0]?.message?.tool_calls?.[0]], and its function. *)
Definition called_function (completion : Json) : option Json :=
  choices ← jfield "choices" completion; choice ← first_of choices; message ← jfield "message" choice;
  calls ← jfield "tool_calls" message; call ← first_of calls; jfield "function" call.
Definition has_name (name : string) (f : Json) : bool :=
  match jfield "name" f with Some (JStr n) => String.eqb n name | _ => false end.
Definition groq_callTool (key model : string) (sent : list LlmToolCallRequest) (req : LlmToolCallRequest) : exn + Json :=
  match completions_create key sent (groq_body model req) with
  | inl e => inl e
  | inr completion =>
      match called_function completion with
      | Some f =>
          if has_name (ts_name (tc_tool req)) f then
            match jfield "arguments" f with
            | Some (JStr text) => match json_parse text with Some input => inr input | None => inl (JsError "arguments were not valid JSON") end
            | _ => inl (JsError "arguments were not valid JSON")
            end
          else inl (JsError "expected a tool call")
      | None => inl (JsError "expected a tool call")
      end
  end.
End Vendors.

(** ** The choice of the vendor *)
Record LlmConfig := mkLlmConfig {
  LLM_PROVIDER : option string; GROQ_API_KEY : option string; ANTHROPIC_API_KEY : option string;
  GROQ_MODEL : option string; ANTHROPIC_GRADER_MODEL : option string; ANTHROPIC_VIVA_MODEL : option string }.

Inductive ToolCaller := GroqToolCaller (apiKey model : string) | AnthropicToolCaller (apiKey model : string).

Definition is_set (key : option string) : bool := bool_decide (is_Some (truthy key)).
Definition wantGroq (c : LlmConfig) (provider : string) : bool :=
  String.eqb provider "groq" || (String.eqb provider "" && negb (is_set (ANTHROPIC_API_KEY c)) && is_set (GROQ_API_KEY c)).
Definition wantAnthropic (c : LlmConfig) (provider : string) : bool :=
  String.eqb provider "anthropic" || (String.eqb provider "" && is_set (ANTHROPIC_API_KEY c)).
(** The two selections differ in the name of the model. *)
Definition select_caller (c : LlmConfig) (anthropic_model : option string) : option ToolCaller :=
  let provider := to_lower (default EmptyString (LLM_PROVIDER c)) in
  if wantGroq c provider then
    key ← truthy (GROQ_API_KEY c); Some (GroqToolCaller key (default "llama-3.3-70b-versatile"%string (GROQ_MODEL c)))
  else if wantAnthropic c provider then
    key ← truthy (ANTHROPIC_API_KEY c); Some (AnthropicToolCaller key (default "claude-sonnet-4-5"%string anthropic_model))
  else None.
Definition createLlmToolCaller (c : LlmConfig) : option ToolCaller := select_caller c (ANTHROPIC_GRADER_MODEL c).
Definition createVivaLlmToolCaller (c : LlmConfig) : option ToolCaller := select_caller c (ANTHROPIC_VIVA_MODEL c).

(** The factories of evaluation.module.ts and project.module.ts: the real model
    rather than the stub. *)
Definition hasProvider (c : LlmConfig) : bool := is_set (ANTHROPIC_API_KEY c) || is_set (GROQ_API_KEY c).

Definition caller_of `{Rounding} `{ProviderSdk} (t : ToolCaller) : LlmToolCaller :=
  {| callTool := match t with
                 | GroqToolCaller key model => groq_callTool key model
                 | AnthropicToolCaller key model => anthropic_callTool key model
                 end |}.
