(* ===== verification/LlmProviders.v ===== *)
(** * The providers of the gateway

    llm-gateway/providers.ts and fake-provider.ts: the adapters of the two
    vendors and the offline stand-in, as providers in the sense of
    LlmGateway.v, and the list the gateway is built with
    (llm-gateway.module.ts).  The vendors' packages are outside:
    [CompletionSdk] may answer anything or reject. *)
From Stdlib Require Import Ascii.
From S2P Require Import Prelude RegExp Redactor JsNum Binary64 Effects Budget PromptCache LlmGateway Schema JsText LlmToolCall.
Open Scope Z_scope.

Record GatewayConfig := mkGatewayConfig {
  gc_llm : LlmConfig; NODE_ENV : option string;
  ANTHROPIC_FAST_MODEL : option string; ANTHROPIC_MID_MODEL : option string; ANTHROPIC_STRONG_MODEL : option string;
  GROQ_FAST_MODEL : option string }.

Definition anthropicModelForTier (c : GatewayConfig) (tier : ModelTier) : string :=
  match tier with
  | fast => default "claude-haiku-4-5-20251001"%string (ANTHROPIC_FAST_MODEL c)
  | mid => default "claude-sonnet-4-5"%string (ANTHROPIC_MID_MODEL c)
  | strong => default "claude-sonnet-4-5"%string (ANTHROPIC_STRONG_MODEL c)
  end.
Definition groqModelForTier (c : GatewayConfig) (tier : ModelTier) : string :=
  let fast_model := default "openai/gpt-oss-20b"%string (GROQ_FAST_MODEL c) in
  let strong_model := default "openai/gpt-oss-120b"%string (GROQ_MODEL (gc_llm c)) in
  match tier with fast => fast_model | _ => strong_model end.

(** client.messages.create and client.chat.completions.create, given the key, all
    that was sent before and the body; none is a rejection. *)
Class CompletionSdk := {
  sdk_messages : string -> list Egress -> Json -> option Json;
  sdk_completions : string -> list Egress -> Json -> option Json;
  sdk_time : list Egress -> CompleteInput -> nat
}.
(** [usage?.field ?? 0], a count of tokens. *)
Definition tokens (field : string) (response : Json) : Z :=
  Qfloor (default 0%Q (usage ← jfield "usage" response; jnumber field usage)).
Definition single (c : ascii) : string := String c EmptyString.
Definition chat_message (role content : string) : Json := JObj [("role"%string, JStr role); ("content"%string, JStr content)].

Section Adapters.
Context `{CompletionSdk}.

Definition completion_body (model : string) (i : CompleteInput) : Json :=
  JObj [("model"%string, JStr model); ("max_tokens"%string, JNum (inject_Z (ci_maxOutputTokens i)));
    ("system"%string, JStr (ci_system i)); ("messages"%string, JArr [chat_message "user" (ci_user i)])].
Definition is_text_block (block : Json) : bool :=
  match jstring "type" block with Some t => String.eqb t "text" | None => false end.
Definition anthropic_complete (key : string) (modelForTier : ModelTier -> string) (sent : list Egress) (i : CompleteInput) : option CachedValue :=
  let model := modelForTier (ci_tier i) in
  msg ← sdk_messages key sent (completion_body model i);
  match jfield "content" msg with
  | Some (JArr content) =>
      let text := String.concat EmptyString (default EmptyString ∘ jstring "text" <$> List.filter is_text_block content) in
      Some (mkCachedValue text model (tokens "input_tokens" msg) (tokens "output_tokens" msg))
  | _ => None
  end.
Definition chat_body (model : string) (i : CompleteInput) : Json :=
  JObj [("model"%string, JStr model); ("max_tokens"%string, JNum (inject_Z (ci_maxOutputTokens i)));
    ("messages"%string, JArr [chat_message "system" (ci_system i); chat_message "user" (ci_user i)])].
Definition groq_complete (key : string) (modelForTier : ModelTier -> string) (sent : list Egress) (i : CompleteInput) : option CachedValue :=
  let model := modelForTier (ci_tier i) in
  completion ← sdk_completions key sent (chat_body model i);
  choices ← jfield "choices" completion;
  let text := default EmptyString (choice ← first_of choices; message ← jfield "message" choice; jstring "content" message) in
  Some (mkCachedValue text model (tokens "prompt_tokens" completion) (tokens "completion_tokens" completion)).
(** A client with a key is assumed live. *)
Definition AnthropicProvider (key : string) (modelForTier : ModelTier -> string) : LlmProvider :=
  mkLlmProvider "anthropic" (fun _ => Some true) (anthropic_complete key modelForTier) sdk_time.
Definition GroqProvider (key : string) (modelForTier : ModelTier -> string) : LlmProvider :=
  mkLlmProvider "groq" (fun _ => Some true) (groq_complete key modelForTier) sdk_time.

(** ** FakeLlmProvider *)
Definition tier_text (t : ModelTier) : string := match t with fast => "fast" | mid => "mid" | strong => "strong" end.
(** The characters of the answer; the dash is one of them. *)
Definition fake_answer (i : CompleteInput) : list string :=
  (single <$> explode ("[" ++ tier_text (ci_tier i) ++ "] Considering your question: " ++ dquoted (slice_to 80 (ci_user i)) ++ " ")) ++
  ["—"%string] ++ (single <$> explode " here is a concept-level explanation (no commands, no solution).").
Definition quarter (n : nat) : Z := jceil (inject_Z (Z.of_nat n) / 4).
Definition fake_complete (up : bool) (i : CompleteInput) : option CachedValue :=
  if up then
    let text := fake_answer i in
    Some (mkCachedValue (String.concat EmptyString (take (Z.to_nat (ci_maxOutputTokens i * 4)) text))
            ("fake-" ++ tier_text (ci_tier i)) (quarter (String.length (ci_system i) + String.length (ci_user i))) (quarter (List.length text)))
  else None.
Definition FakeProviderNamed (name : string) (up : bool) : LlmProvider :=
  mkLlmProvider name (fun _ => Some up) (fun _ => fake_complete up) (fun _ _ => 0%nat).
Definition FakeLlmProvider : LlmProvider := FakeProviderNamed "fake" true.
Definition SecondaryFakeLlmProvider : LlmProvider := FakeProviderNamed "fake-secondary" true.

(** ** buildLlmProviders *)
Definition explicit_provider (c : GatewayConfig) : string := to_lower (trim (default EmptyString (LLM_PROVIDER (gc_llm c)))).
Definition node_env (c : GatewayConfig) : string := to_lower (default "development"%string (NODE_ENV c)).
Definition preferAnthropic (c : GatewayConfig) : bool :=
  if String.eqb (explicit_provider c) "anthropic" then true
  else if String.eqb (explicit_provider c) "groq" then false
  else String.eqb (node_env c) "production".
Definition groq_provider (c : GatewayConfig) : option LlmProvider :=
  (fun key => GroqProvider key (groqModelForTier c)) <$> truthy (GROQ_API_KEY (gc_llm c)).
Definition anthropic_provider (c : GatewayConfig) : option LlmProvider :=
  (fun key => AnthropicProvider key (anthropicModelForTier c)) <$> truthy (ANTHROPIC_API_KEY (gc_llm c)).
Definition buildLlmProviders (c : GatewayConfig) : list LlmProvider :=
  let ordered := if preferAnthropic c then option_list (anthropic_provider c) ++ option_list (groq_provider c)
                 else option_list (groq_provider c) ++ option_list (anthropic_provider c) in
  match ordered with [] => [FakeLlmProvider] | _ => ordered end.
Definition hasRealLlmProvider (c : GatewayConfig) : bool := is_set (GROQ_API_KEY (gc_llm c)) || is_set (ANTHROPIC_API_KEY (gc_llm c)).

(** The gateway always has a provider; there is one for each configured key and
    for no other, the stand-in serves exactly when there is no key, and with both
    keys LLM_PROVIDER decides which comes first, then the environment: Anthropic in
    production and Groq elsewhere. *)
Theorem provider_list c :
  let names := lp_name <$> buildLlmProviders c in
  NoDup names /\
  ("groq"%string ∈ names <-> is_set (GROQ_API_KEY (gc_llm c)) = true) /\
  ("anthropic"%string ∈ names <-> is_set (ANTHROPIC_API_KEY (gc_llm c)) = true) /\
  ("fake"%string ∈ names <-> hasRealLlmProvider c = false) /\
  (hasRealLlmProvider c = false -> names = ["fake"%string]) /\
  (is_set (GROQ_API_KEY (gc_llm c)) = true -> is_set (ANTHROPIC_API_KEY (gc_llm c)) = true ->
   names = if preferAnthropic c then ["anthropic"; "groq"]%string else ["groq"; "anthropic"]%string).
Proof.
  cbv zeta. unfold buildLlmProviders, hasRealLlmProvider, groq_provider, anthropic_provider, is_set.
  destruct (truthy (GROQ_API_KEY (gc_llm c))) as [g|], (truthy (ANTHROPIC_API_KEY (gc_llm c))) as [a|], (preferAnthropic c);
    cbn; rewrite ?bool_decide_true, ?bool_decide_false by (eauto || (intros [? ?]; discriminate)); cbn;
    (split_and!; [repeat constructor; set_solver | set_solver..]).
Qed.

(** ** The gateway over these providers *)
Lemma first_answer_in i ps : forall sent p out sent', first_answer i ps sent = (Some (p, out), sent') -> p ∈ ps.
Proof.
  induction ps as [|q ps IH]; intros sent p out sent'; cbn; [discriminate|]. destruct (lp_complete q sent i) as [o|].
  - intros [= <- _ _]. now left.
  - intros E. right. eapply IH, E.
Qed.
Lemma provider_names c p : p ∈ buildLlmProviders c ->
  if hasRealLlmProvider c then lp_name p = "groq"%string \/ lp_name p = "anthropic"%string else p = FakeLlmProvider.
Proof.
  unfold buildLlmProviders, hasRealLlmProvider, groq_provider, anthropic_provider, is_set.
  destruct (truthy (GROQ_API_KEY (gc_llm c))) as [g|], (truthy (ANTHROPIC_API_KEY (gc_llm c))) as [a|], (preferAnthropic c);
    cbn; rewrite ?bool_decide_true, ?bool_decide_false by (eauto || (intros [? ?]; discriminate)); cbn;
    rewrite ?elem_of_cons, ?elem_of_nil; naive_solver.
Qed.

Lemma offline_order c g : hasRealLlmProvider c = false -> ordered_by_health (buildLlmProviders c) g = [FakeLlmProvider].
Proof.
  unfold buildLlmProviders, hasRealLlmProvider, groq_provider, anthropic_provider, is_set.
  destruct (truthy (GROQ_API_KEY (gc_llm c))) as [k|]; [discriminate|]. destruct (truthy (ANTHROPIC_API_KEY (gc_llm c))) as [a|]; [discriminate|].
  now destruct (preferAnthropic c).
Qed.

(** With a key configured no answer of the gateway comes from the stand-in;
    without one, a call that is neither cached nor out of budget is answered by
    the stand-in, within four characters for each token it was allowed. *)
Theorem stand_in_only_offline `{Rounding} `{Sha256} c req g : exists res g',
  run (call (buildLlmProviders c) req) g = (inr res, g') /\
  if hasRealLlmProvider c then rs_provider res <> "fake"%string
  else fst (lookup req g) = None -> checkOrThrow (gw_now g) (gw_budget g) (estimate req) (rq_scope req) = None ->
    rs_provider res = "fake"%string /\ rs_degraded res = None /\
    fake_complete true (outgoing req) = Some (mkCachedValue (rs_text res) (rs_model res) (rs_inputTokens res) (rs_outputTokens res)).
Proof.
  destruct (run_call (buildLlmProviders c) req g) as (res & g' & rec & R & _ & _ & S). exists res, g'. split; [exact R|].
  destruct (fst (lookup req g)) as [hit|].
  { destruct S as [-> _]. destruct (hasRealLlmProvider c); discriminate. }
  destruct (checkOrThrow _ _ _ _) as [sc|].
  { destruct S as [-> _]. destruct (hasRealLlmProvider c); discriminate. }
  unfold tried in S. destruct (first_answer _ _ _) as [[[p out]|] sent] eqn:F.
  - destruct S as (_ & _ & _ & n & b & _ & _ & -> & _). cbn.
    assert (I : p ∈ buildLlmProviders c) by (rewrite <- (ordered_permutation (buildLlmProviders c) g); eapply first_answer_in, F).
    apply provider_names in I. destruct (hasRealLlmProvider c) eqn:K; [destruct I as [->| ->]; discriminate|]. subst p. intros _ _.
    split_and!; [reflexivity..|].
    rewrite (offline_order c g K) in F. cbn in F. injection F as F _. rewrite <- F. reflexivity.
  - destruct S as (_ & _ & _ & n & b & _ & N & _ & -> & _). destruct (hasRealLlmProvider c) eqn:K; [discriminate|]. exfalso.
    rewrite (offline_order c g K) in F. cbn in F. discriminate.
Qed.

(** One configuration, two readings: the gateway trims LLM_PROVIDER and the tool
    callers do not, so a blank disables grading; without LLM_PROVIDER and outside
    production the gateway prefers Groq and the tool callers Anthropic. *)
Definition both_keys (provider : option string) : GatewayConfig :=
  mkGatewayConfig (mkLlmConfig provider (Some "g"%string) (Some "a"%string) None None None) None None None None None.
Lemma vendors_disagree :
  head (lp_name <$> buildLlmProviders (both_keys (Some "groq "%string))) = Some "groq"%string /\
  createLlmToolCaller (gc_llm (both_keys (Some "groq "%string))) = None /\
  head (lp_name <$> buildLlmProviders (both_keys None)) = Some "groq"%string /\
  createLlmToolCaller (gc_llm (both_keys None)) = Some (AnthropicToolCaller "a" "claude-sonnet-4-5").
Proof. split_and!; reflexivity. Qed.
End Adapters.
