(* ===== verification/GraderLaws.v ===== *)
(** * What the AI grader guarantees

    Every grade it reports is one the rubric allows, for every criterion of the
    rubric; samples that disagree are flagged; every result is provisional; and
    when the two vendors answer the same. *)
From Stdlib Require Import Ascii.
From stdpp Require Import pretty.
From S2P Require Import Prelude RegExp JsNum Binary64 Effects Schema JsText JsonParse JsonLaws Criteria ValidatorRunner Artifact LlmToolCall Grader.
Open Scope Z_scope.

Lemma map_or_throw_inr {A B} (f : A -> exn + B) l ys : map_or_throw f l = inr ys -> Forall2 (fun x y => f x = inr y) l ys.
Proof.
  revert ys. induction l as [|x l IH]; cbn; intros ys; [intros [= <-]; constructor |].
  destruct (f x) as [|y] eqn:E; [easy |]. destruct (map_or_throw f l) as [|ys']; [easy |]. intros [= <-]. constructor; auto.
Qed.

Lemma Forall2_in_l {A B} (P : A -> B -> Prop) l k x : Forall2 P l k -> x ∈ l -> exists y, y ∈ k /\ P x y.
Proof.
  intros F (i & L)%list_elem_of_lookup. destruct (Forall2_lookup_l _ _ _ _ _ F L) as (y & K & Y).
  exists y. split; [now apply list_elem_of_lookup_2 with i | exact Y].
Qed.
Lemma Forall2_in_r {A B} (P : A -> B -> Prop) l k y : Forall2 P l k -> y ∈ k -> exists x, x ∈ l /\ P x y.
Proof.
  intros F (i & L)%list_elem_of_lookup. destruct (Forall2_lookup_r _ _ _ _ _ F L) as (x & K & Y).
  exists x. split; [now apply list_elem_of_lookup_2 with i | exact Y].
Qed.

(** ** One answer *)
Section Grader.
Context `{Rounding}.

(** A grade the rubric allows. *)
Definition allowed (rubric : Rubric) (g : CriterionGrade) : Prop :=
  exists c, c ∈ rb_criteria rubric /\ rc_key c = cg_criterion g /\ cg_level g ∈ validLevels c /\ (0 <= cg_confidence g <= 1)%Q.

Lemma find_elem {A} (f : A -> bool) l x : List.find f l = Some x -> x ∈ l /\ f x = true.
Proof. intros E%List.find_some. destruct E. split; [now apply list_elem_of_In | easy]. Qed.

Lemma validate_allowed rubric j g : validate_grade rubric j = inr g -> allowed rubric g.
Proof.
  unfold validate_grade. destruct (jfield "criterion" j) as [[| | |[|a key]| |]|]; try discriminate.
  destruct (criterion_by_key _ _) as [c|] eqn:C; [|discriminate].
  destruct (valid_level _ _) as [l|] eqn:L; [|discriminate].
  destruct (valid_confidence (jfield "confidence" j)) as [q|] eqn:Q; [|discriminate]. intros [= <-].
  apply find_elem in C as [C _]. rewrite list_elem_of_In, <- in_rev, <- list_elem_of_In in C. exists c. refine (conj C (conj eq_refl (conj _ _))); cbn.
  - unfold valid_level in L. destruct (jfield "level" j) as [[]|]; try discriminate. now apply find_elem in L.
  - unfold valid_confidence in Q. destruct (jfield "confidence" j) as [[]|]; try discriminate.
    destruct (_ || _) eqn:B; [discriminate |]. injection Q as <-. apply orb_false_iff in B as [B1 B2].
    now rewrite Qltb_ge in B1, B2.
Qed.

Lemma parse_allowed rubric j gs : parseAndValidate rubric j = inr gs ->
  Forall (allowed rubric) gs /\ forall c, c ∈ rb_criteria rubric -> is_Some (grade_of (rc_key c) gs).
Proof.
  unfold parseAndValidate. destruct (jfield "grades" j) as [[| | | |l|]|]; try discriminate.
  destruct (map_or_throw _ l) as [e|gs'] eqn:M; [discriminate |].
  destruct (missing rubric gs') as [|] eqn:N; [|discriminate]. intros [= ->]. split.
  - apply map_or_throw_inr in M. clear N. induction M; constructor; [eapply validate_allowed; eassumption | easy].
  - intros c I. unfold grade_of. destruct (List.find _ gs) as [g|] eqn:F; [eauto | exfalso].
    assert (X : c ∈ missing rubric gs); [|rewrite N in X; now apply not_elem_of_nil in X].
    apply list_elem_of_In, filter_In. split; [now apply list_elem_of_In |]. apply negb_true_iff, not_true_iff_false.
    intros (g & G & E)%existsb_exists. now rewrite (List.find_none _ _ F g G) in E.
Qed.

(** ** Agreement of the samples *)
Lemma disagreed_spec x l : disagreed (x :: l) = false <-> forall y, y ∈ l -> y = x.
Proof.
  unfold disagreed. cbn [distinct List.length]. rewrite Nat.ltb_ge. split.
  - intros L y Y. assert (Z0 : List.filter (fun y => negb (y =? x)) (distinct l) = []) by (destruct (List.filter _ _); [easy | cbn in L; lia]).
    destruct (decide (y = x)) as [|N]; [easy | exfalso].
    assert (D : forall l, y ∈ l -> y ∈ distinct l).
    { clear -Y. intros l'. induction l' as [|z l' IH]; [easy |]. cbn. rewrite !elem_of_cons. intros [->|I]; [now left |].
      destruct (decide (y = z)) as [|N]; [now left | right]. apply list_elem_of_In, filter_In. split; [now apply list_elem_of_In, IH |].
      now apply negb_true_iff, Z.eqb_neq. }
    assert (I : y ∈ List.filter (fun y => negb (y =? x)) (distinct l)).
    { apply list_elem_of_In, filter_In. split; [now apply list_elem_of_In, D |]. now apply negb_true_iff, Z.eqb_neq. }
    rewrite Z0 in I. now apply not_elem_of_nil in I.
  - intros A. assert (Z0 : List.filter (fun y => negb (y =? x)) (distinct l) = []); [|rewrite Z0; cbn; lia].
    induction l as [|z l IH]; [reflexivity |]. cbn. rewrite (A z) by now left. rewrite Z.eqb_refl. cbn.
    rewrite <- (IH (fun y Y => A y ltac:(now right))). clear. induction (distinct l) as [|a d IH]; [reflexivity |]. cbn.
    destruct (a =? x) eqn:E; cbn; rewrite ?E; cbn; [exact IH | now rewrite IH].
Qed.

(** The grades the samples give a criterion, the first one reported. *)
Definition reported (samples : list (list CriterionGrade)) (c : RubricCriterion) (g : CriterionGrade) : Prop :=
  exists first rest, mapM (grade_of (rc_key c)) samples = Some (first :: rest) /\
    ((forall g', g' ∈ rest -> cg_level g' = cg_level first) -> g = first) /\
    (~ (forall g', g' ∈ rest -> cg_level g' = cg_level first) ->
       g = add_flag (disagreement_flag (List.length samples) (distinct (cg_level <$> first :: rest))) first).
Definition agree (samples : list (list CriterionGrade)) (c : RubricCriterion) : Prop :=
  exists l, forall s, s ∈ samples -> exists g, grade_of (rc_key c) s = Some g /\ cg_level g = l.

Lemma levels_agree (f : CriterionGrade) rest : disagreed (cg_level <$> f :: rest) = false <-> forall g, g ∈ rest -> cg_level g = cg_level f.
Proof.
  rewrite fmap_cons, disagreed_spec. split.
  - intros A g G. apply A. apply list_elem_of_fmap. eauto.
  - intros A y (g & -> & G)%list_elem_of_fmap. auto.
Qed.
Lemma reconcile_reported samples c : samples <> [] -> (forall s, s ∈ samples -> is_Some (grade_of (rc_key c) s)) ->
  exists g b, reconcile_criterion samples c = Some (g, b) /\ reported samples c g /\ (b = false <-> agree samples c).
Proof.
  intros N A. unfold reconcile_criterion.
  assert (M : is_Some (mapM (grade_of (rc_key c)) samples)) by (apply mapM_is_Some_2, Forall_forall, A).
  destruct M as [gs M]. rewrite M. cbn [mbind option_bind].
  destruct gs as [|f rest]; [destruct samples; [easy |]; cbn in M; destruct (grade_of _ _); [|easy]; cbn in M; now destruct (mapM _ _) |].
  cbn [head mbind option_bind].
  assert (B : disagreed (cg_level <$> f :: rest) = false <-> agree samples c).
  { rewrite levels_agree. apply mapM_Some_1 in M. split.
    - intros E. exists (cg_level f). intros s S. destruct (Forall2_in_l _ _ _ _ M S) as (g & G & Gs).
      exists g. split; [exact Gs |]. apply elem_of_cons in G as [->|G]; auto.
    - intros (l & L). assert (X : forall g, g ∈ f :: rest -> cg_level g = l).
      { intros g G. destruct (Forall2_in_r _ _ _ _ M G) as (s & S & Gs). destruct (L s S) as (g' & E & <-). congruence. }
      intros g G. rewrite (X g) by now right. now rewrite (X f) by now left. }
  destruct (disagreed _) eqn:D; (eexists _, _; split; [reflexivity |]; split; [|exact B]);
    exists f, rest; (split; [exact M |]); rewrite <- levels_agree, D; now split.
Qed.
Lemma reconcile_spec rubric samples : samples <> [] ->
  (forall s c, s ∈ samples -> c ∈ rb_criteria rubric -> is_Some (grade_of (rc_key c) s)) ->
  exists gs failed, reconcileSamples rubric samples = Some (gs, failed) /\ Forall2 (reported samples) (rb_criteria rubric) gs /\
    (failed = false <-> forall c, c ∈ rb_criteria rubric -> agree samples c).
Proof.
  intros N A. unfold reconcileSamples.
  assert (G : exists merged, mapM (reconcile_criterion samples) (rb_criteria rubric) = Some merged /\
    Forall2 (reported samples) (rb_criteria rubric) merged.*1 /\
    (existsb snd merged = false <-> forall c, c ∈ rb_criteria rubric -> agree samples c)); [|destruct G as (m & -> & G1 & G2); cbn; eauto].
  assert (A' : forall c, c ∈ rb_criteria rubric -> forall s, s ∈ samples -> is_Some (grade_of (rc_key c) s)) by eauto.
  clear A. induction (rb_criteria rubric) as [|c l IH].
  - exists []. split; [reflexivity |]. split; [constructor |]. split; [now intros _ c ?%not_elem_of_nil | easy].
  - destruct (reconcile_reported samples c N (A' c ltac:(now left))) as (g & b & E & R & B).
    destruct IH as (m & M & F & X); [intros c' I; apply A'; now right |].
    exists ((g, b) :: m). split; [cbn; rewrite E; cbn; now rewrite M |]. split; [now constructor |]. cbn [existsb snd].
    rewrite orb_false_iff, B, X. split; [intros [Y1 Y2] c' [->|I]%elem_of_cons; auto | intros Y; split; [apply Y; now left | intros; apply Y; now right]].
Qed.

(** ** Several calls *)
Section Calls.
Context `{LlmToolCaller}.
(** What the i-th call of a grading brings. *)
Definition sample (rubric : Rubric) (facts : GradingFacts) (sent : list LlmToolCallRequest) (i : nat) : exn + list CriterionGrade :=
  match callTool (sent ++ replicate i (grading_request rubric facts)) (grading_request rubric facts) with
  | inl e => inl e
  | inr j => parseAndValidate rubric j
  end.
Lemma run_gradeOnce rubric facts sent i :
  run (gradeOnce rubric facts) (sent ++ replicate i (grading_request rubric facts)) =
  match sample rubric facts sent i with
  | inl e => (inl e, (run (gradeOnce rubric facts) (sent ++ replicate i (grading_request rubric facts))).2)
  | inr gs => (inr gs, sent ++ replicate (S i) (grading_request rubric facts))
  end.
Proof.
  unfold gradeOnce, sample. rewrite run_bind, run_act. destruct (callTool _ _) as [e|j]; [reflexivity |].
  destruct (parseAndValidate rubric j); [reflexivity |]. cbn [run]. now rewrite <- app_assoc, replicate_S_end.
Qed.
Lemma run_samples rubric facts sent n i :
  match map_or_throw (sample rubric facts sent) (List.seq i n) with
  | inl e => exists sent', run (for_map (List.seq i n) (fun _ => gradeOnce rubric facts)) (sent ++ replicate i (grading_request rubric facts)) = (inl e, sent')
  | inr l => run (for_map (List.seq i n) (fun _ => gradeOnce rubric facts)) (sent ++ replicate i (grading_request rubric facts)) =
      (inr l, sent ++ replicate (i + n) (grading_request rubric facts))
  end.
Proof.
  revert i. induction n as [|n IH]; intros i; cbn [List.seq map_or_throw for_map]; [now rewrite Nat.add_0_r |].
  pose proof (run_gradeOnce rubric facts sent i) as E. specialize (IH (S i)).
  destruct (sample rubric facts sent i) as [e|gs]; [rewrite run_bind, E; eauto |].
  destruct (map_or_throw _ _) as [e|l].
  - destruct IH as [sent' IH]. exists sent'. now rewrite run_bind, E, run_bind, IH.
  - rewrite run_bind, E, run_bind, IH. cbn [run]. f_equal. f_equal. f_equal. lia.
Qed.
Lemma samples_parse rubric facts sent n i l : map_or_throw (sample rubric facts sent) (List.seq i n) = inr l ->
  List.length l = n /\ forall s, s ∈ l -> exists j, parseAndValidate rubric j = inr s.
Proof.
  intros M%map_or_throw_inr. split; [apply Forall2_length in M; now rewrite length_seq in M |].
  intros s S. destruct (Forall2_in_r _ _ _ _ M S) as (k & _ & E). unfold sample in E. destruct (callTool _ _); [discriminate | eauto].
Qed.
End Calls.

Lemma fake_level c : rc_levels c <> [] -> midpoint (validLevels c) ∈ validLevels c.
Proof.
  intros N. unfold midpoint, validLevels. set (l := rl_level <$> rc_levels c).
  assert (0 < List.length l)%nat by (unfold l; rewrite length_fmap; destruct (rc_levels c); [easy | cbn; lia]).
  destruct (lookup_lt_is_Some_2 l ((List.length l - 1) / 2)) as [x E]; [apply Nat.Div0.div_lt_upper_bound; lia |].
  rewrite E. now apply list_elem_of_lookup_2 in E.
Qed.
End Grader.

(** ** The vendors *)
Lemma is_set_truthy k : is_set k = true <-> exists key, truthy k = Some key.
Proof. unfold is_set. now rewrite bool_decide_eq_true. Qed.
Lemma is_set_false k : is_set k = false <-> truthy k = None.
Proof. unfold is_set. rewrite bool_decide_eq_false. split; [now destruct (truthy k); [intros []; eauto |] | intros ->; now intros [? ?]]. Qed.
Lemma inferred_caller c model : to_lower (default EmptyString (LLM_PROVIDER c)) = EmptyString ->
  is_Some (select_caller c model) <-> hasProvider c = true.
Proof.
  intros E. unfold select_caller, wantGroq, wantAnthropic, hasProvider. rewrite E. cbn [String.eqb orb andb].
  destruct (is_set (ANTHROPIC_API_KEY c)) eqn:A; cbn [negb orb andb].
  - apply is_set_truthy in A as [a ->]. cbn. split; eauto.
  - destruct (is_set (GROQ_API_KEY c)) eqn:G; [apply is_set_truthy in G as [g ->]; cbn; split; eauto |]. split; [now intros [? ?] | easy].
Qed.

(** ** The properties *)

(** C23: A grading makes one call per sample, all with the same request, and fails
    with the first sample that fails: malformed output is neither retried nor
    escalated, as rule 32, quoted on CriterionGrade, asks. When it succeeds there is exactly one
    grade per criterion of the rubric, in its order: the first sample's, which
    the rubric allows; it carries a flag exactly when the samples' levels differ,
    and the reason says whether any do. The result is always provisional. *)
Theorem grade_spec `{Rounding} (caller : LlmToolCaller) n rubric facts sent : (0 < n)%nat ->
  match map_or_throw (sample rubric facts sent) (List.seq 0 n) with
  | inl e => exists sent', run (claude_grade (Some caller) n rubric facts) sent = (inl e, sent')
  | inr samples => exists gs failed,
      run (claude_grade (Some caller) n rubric facts) sent =
        (inr (mkGradingResult (rb_id rubric) gs true (Some (provisional_reason rubric n failed))),
         sent ++ replicate n (grading_request rubric facts)) /\
      Forall2 (reported samples) (rb_criteria rubric) gs /\ Forall (allowed rubric) gs /\
      (failed = false <-> forall c, c ∈ rb_criteria rubric -> agree samples c)
  end.
Proof.
  intros N. pose proof (run_samples rubric facts sent n 0) as R. pose proof (samples_parse rubric facts sent n 0) as P.
  cbn [replicate Nat.add] in R. rewrite app_nil_r in R. unfold claude_grade.
  destruct (map_or_throw _ _) as [e|samples]; [destruct R as [sent' R]; exists sent'; now rewrite run_bind, R |].
  destruct (P samples eq_refl) as [L V].
  destruct (reconcile_spec rubric samples) as (gs & failed & E & F & A).
  { intros ->. cbn in L. lia. }
  { intros s c S C. destruct (V s S) as [j J]. now apply (parse_allowed rubric j). }
  exists gs, failed. split; [now rewrite run_bind, R, E |]. split; [exact F |]. split; [|exact A].
  apply Forall_forall. intros g G. destruct (Forall2_in_r _ _ _ _ F G) as (c & _ & first & rest & M & R1 & R2).
  assert (X : allowed rubric first).
  { apply mapM_Some_1 in M. destruct (Forall2_in_r _ _ _ first M) as (s & S & E1); [now left |].
    destruct (V s S) as [j J]. apply parse_allowed in J as [J _]. rewrite Forall_forall in J. apply J.
    now apply find_elem in E1. }
  destruct (disagreed (cg_level <$> first :: rest)) eqn:D.
  - rewrite R2; [exact X |]. now rewrite <- levels_agree, D.
  - rewrite R1; [exact X |]. now apply levels_agree.
Qed.

(** Without LLM_PROVIDER the module injects the real grader exactly when
    there is a caller for it. But a key of the other vendor is enough for the
    module to choose the real grader: with LLM_PROVIDER set to groq and only the
    Anthropic key (or the other way round), the grader has no caller and every
    grading throws, where the stub was meant to stand in. *)
Theorem grader_wiring `{Rounding} `{ProviderSdk} c samples rubric facts :
  (to_lower (default EmptyString (LLM_PROVIDER c)) = EmptyString ->
     hasProvider c = true <-> is_Some (createLlmToolCaller c)) /\
  (hasProvider c = false -> injected_grade c samples rubric facts = inr (fake_grade rubric facts)) /\
  (to_lower (default EmptyString (LLM_PROVIDER c)) = "groq"%string -> is_set (GROQ_API_KEY c) = false ->
     is_set (ANTHROPIC_API_KEY c) = true -> exists e, injected_grade c samples rubric facts = inl e) /\
  (to_lower (default EmptyString (LLM_PROVIDER c)) = "anthropic"%string -> is_set (ANTHROPIC_API_KEY c) = false ->
     is_set (GROQ_API_KEY c) = true -> exists e, injected_grade c samples rubric facts = inl e).
Proof.
  split; [intros E; symmetry; now apply inferred_caller |]. unfold injected_grade, createLlmToolCaller, select_caller.
  split; [now intros -> |]. split.
  - intros E G A. unfold wantGroq, hasProvider. rewrite E, A, (proj1 (is_set_false _) G). eexists. reflexivity.
  - intros E A G. unfold wantGroq, wantAnthropic, hasProvider. rewrite E, A, G, (proj1 (is_set_false _) A). eexists. reflexivity.
Qed.

(** The two vendors are interchangeable: when the model calls the tool with
    the arguments j, Anthropic's answer (blocks of content, one of them the tool
    use with the value) and Groq's (a function call with the value as JSON text)
    both bring the grader exactly j. *)
Theorem providers_agree `{Rounding} `{ProviderSdk} key model key' model' sent req j text block completion f :
  json_ok j = true ->
  messages_create key sent (anthropic_body model req) = inr (text ++ [block]) -> List.find is_tool_use text = None ->
  is_tool_use block = true -> jfield "input" block = Some j ->
  completions_create key' sent (groq_body model' req) = inr completion -> called_function completion = Some f ->
  jfield "name" f = Some (JStr (ts_name (tc_tool req))) -> jfield "arguments" f = Some (JStr (stringify j)) ->
  anthropic_callTool key model sent req = inr j /\ groq_callTool key' model' sent req = inr j.
Proof.
  intros K M N T I C F A B. split.
  - unfold anthropic_callTool. rewrite M.
    assert (List.find is_tool_use (text ++ [block]) = Some block) as ->.
    { clear -N T. induction text as [|b t IH]; cbn in *; [now rewrite T |]. destruct (is_tool_use b); [easy | auto]. }
    cbn [mbind option_bind]. rewrite I. cbn [mbind option_bind]. now rewrite (parse_stringify j K).
  - unfold groq_callTool. rewrite C, F. unfold has_name. rewrite A, String.eqb_refl, B. now rewrite (parse_stringify j K).
Qed.

(** The stub grades every criterion of the rubric with a level of its scale,
    no confidence and a flag that no model was asked, and is provisional. *)
Theorem fake_grade_honest rubric facts : (forall c, c ∈ rb_criteria rubric -> rc_levels c <> []) ->
  gr_provisional (fake_grade rubric facts) = true /\
  Forall2 (fun c g => cg_criterion g = rc_key c /\ cg_level g ∈ validLevels c /\ cg_confidence g = 0%Q /\
    cg_flags g = ["STUB_GRADER_NO_REAL_INFERENCE"%string]) (rb_criteria rubric) (gr_criterionGrades (fake_grade rubric facts)).
Proof.
  intros N. split; [reflexivity |]. cbn [fake_grade gr_criterionGrades]. rewrite Forall2_fmap_r. apply Forall_Forall2_diag, Forall_forall.
  intros c C. cbn. split_and!; [easy | apply fake_level; auto | easy | easy].
Qed.

(** ** The properties at work *)
Section Witnesses.
#[local] Existing Instance binary64.
Definition causes : RubricCriterion :=
  mkRubricCriterion "root_cause" "Root cause" "Is it right?" [mkRubricLevel 1 "no"; mkRubricLevel 2 "partly"; mkRubricLevel 3 "yes"] None.
Definition note : Rubric := mkRubric "rub.incident-note.v2" 2 "INCIDENT_NOTE" [] [causes] "ALWAYS_PROVISIONAL_UNTIL_CALIBRATED".
Definition answer (level : Z) : Json :=
  JObj [("grades"%string, JArr [JObj [("criterion"%string, JStr "root_cause"); ("level"%string, JNum (inject_Z level));
     ("confidence"%string, JNum (1 # 2)); ("justification"%string, JStr "ok")]])].
(** The samples' levels are 1, 2, 3. *)
#[local] Instance unsure : LlmToolCaller := {| callTool sent _ := inr (answer (Z.of_nat (List.length sent) + 1)) |}.
#[local] Instance fixed_sdk : ProviderSdk := {|
  messages_create _ _ _ := inr [JObj [("type"%string, JStr "text")]; JObj [("type"%string, JStr "tool_use"); ("input"%string, answer 2)]];
  completions_create _ _ _ := inr (JObj [("choices"%string, JArr [JObj [("message"%string, JObj [("tool_calls"%string, JArr [JObj [("function"%string,
    JObj [("name"%string, JStr "submit_grades"); ("arguments"%string, JStr (stringify (answer 2)))])]])])]])]) |}.
Definition no_facts : GradingFacts := mkGradingFacts "disk full" [] [] [].

Lemma grade_spec_witness : exists gs, (run (claude_grade (Some unsure) 2 note no_facts) []).1 =
  inr (mkGradingResult "rub.incident-note.v2" gs true (Some (provisional_reason note 2 true))).
Proof.
  pose proof (grade_spec unsure 2 note no_facts [] ltac:(lia)) as G.
  destruct (map_or_throw (sample note no_facts []) (List.seq 0 2)) as [e|l] eqn:E; [vm_compute in E; discriminate |].
  destruct G as (gs & failed & R & _ & _ & A). exists gs. rewrite R. cbn.
  assert (failed = true) as ->; [|reflexivity]. destruct failed; [reflexivity | exfalso].
  destruct (proj1 A eq_refl causes ltac:(now left)) as [lv L].
  vm_compute in E. injection E as <-.
  destruct (L _ ltac:(now left)) as (g1 & G1 & L1). destruct (L _ ltac:(now right; left)) as (g2 & G2 & L2).
  vm_compute in G1, G2. injection G1 as <-. injection G2 as <-. cbn in L1, L2. congruence.
Defined.
Lemma grader_wiring_witness : exists e,
  injected_grade (mkLlmConfig (Some "Groq"%string) None (Some "sk-ant"%string) None None None) None note no_facts = inl e.
Proof.
  destruct (grader_wiring (mkLlmConfig (Some "Groq"%string) None (Some "sk-ant"%string) None None None) None note no_facts) as (_ & _ & G & _).
  apply G; vm_compute; reflexivity.
Defined.
Lemma providers_agree_witness :
  anthropic_callTool "k" "m" [] (grading_request note no_facts) = inr (answer 2) /\
  groq_callTool "k" "m" [] (grading_request note no_facts) = inr (answer 2).
Proof.
  apply (providers_agree "k" "m" "k" "m" [] (grading_request note no_facts) (answer 2) [JObj [("type"%string, JStr "text")]]
    (JObj [("type"%string, JStr "tool_use"); ("input"%string, answer 2)])
    (JObj [("choices"%string, JArr [JObj [("message"%string, JObj [("tool_calls"%string, JArr [JObj [("function"%string,
      JObj [("name"%string, JStr "submit_grades"); ("arguments"%string, JStr (stringify (answer 2)))])]])])]])])
    (JObj [("name"%string, JStr "submit_grades"); ("arguments"%string, JStr (stringify (answer 2)))]));
    [vm_compute; reflexivity | reflexivity..].
Defined.
Lemma fake_grade_honest_witness : gr_provisional (fake_grade note no_facts) = true.
Proof.
  apply (fake_grade_honest note no_facts). intros c ->%list_elem_of_singleton. discriminate.
Defined.
End Witnesses.
