(* ===== verification/WeightedKappa.v ===== *)
(** * Weighted kappa

    evaluation/calibration/weighted-kappa.ts: the agreement of a grader with the reference,
    on which the trust in a rubric rides.  The counts are integers; the
    quotients are rounded ([Rounding]).  [kappa_exact] is the same computation
    without rounding, which the bounds of the statistic are about. *)
From S2P Require Import Prelude JsNum Binary64 Effects.
Open Scope Z_scope.

Record KappaResult := mkKappaResult { kr_kappa : Q; kr_exactMatch : Q; kr_meanAbsError : Q; kr_n : nat }.

(** [new Map(levels.map((lv, i) => [lv, i]))]: the last index of a level. *)
Fixpoint level_index (levels : list Z) (lv : Z) : option nat :=
  match levels with
  | [] => None
  | l :: levels => match level_index levels lv with Some i => Some (S i) | None => if l =? lv then Some 0%nat else None end
  end.
(** The pairs as indexes. *)
Definition index_pair (levels : list Z) (p : Z * Z) : option (nat * nat) :=
  gi ← level_index levels p.1; ri ← level_index levels p.2; Some (gi, ri).

(** The matrix of observations and its marginals, as counts of indexed pairs. *)
Definition count {A} (f : A -> bool) (l : list A) : Z := Z.of_nat (List.length (List.filter f l)).
Definition observed (ps : list (nat * nat)) (i j : nat) : Z := count (fun p => Nat.eqb p.1 i && Nat.eqb p.2 j) ps.
Definition rowMarg (ps : list (nat * nat)) (i : nat) : Z := count (fun p => Nat.eqb p.1 i) ps.
Definition colMarg (ps : list (nat * nat)) (j : nat) : Z := count (fun p => Nat.eqb p.2 j) ps.

Section Kappa.
Context `{Rounding}.

Definition dist (i j : nat) : Z := Z.abs (Z.of_nat i - Z.of_nat j).
Definition weight (k i j : nat) : Q := inject_Z (dist i j) /! inject_Z (Z.of_nat k - 1).
(** The cells in the order of the nested loops. *)
Definition cells (k : nat) : list (nat * nat) := List.seq 0 k ≫= fun i => pair i <$> List.seq 0 k.
Definition obs_term (ps : list (nat * nat)) (k : nat) (c : nat * nat) : Q :=
  weight k c.1 c.2 *! (inject_Z (observed ps c.1 c.2) /! inject_Z (Z.of_nat (List.length ps))).
Definition exp_term (ps : list (nat * nat)) (k : nat) (c : nat * nat) : Q :=
  weight k c.1 c.2 *! ((inject_Z (rowMarg ps c.1) /! inject_Z (Z.of_nat (List.length ps))) *!
                       (inject_Z (colMarg ps c.2) /! inject_Z (Z.of_nat (List.length ps)))).
Definition obsDisagreement (ps : list (nat * nat)) (k : nat) : Q := sum_by (obs_term ps k) (cells k).
Definition expDisagreement (ps : list (nat * nat)) (k : nat) : Q := sum_by (exp_term ps k) (cells k).
Definition kappa_of (obs exp : Q) : Q :=
  if Qeq_bool exp 0 then (if Qeq_bool obs 0 then 1 else 0) else 1 -! obs /! exp.

(** [None]: the metrics of an empty set are NaN. *)
Definition weightedKappa (pairs : list (Z * Z)) (levels : list Z) : exn + option KappaResult :=
  match pairs with
  | [] => inr None
  | _ =>
      if Nat.ltb (List.length levels) 2 then inl (JsError "need at least 2 levels")
      else match mapM (index_pair levels) pairs with
      | None => inl (JsError "rating has a level outside")
      | Some ps =>
          let n := inject_Z (Z.of_nat (List.length pairs)) in
          let k := List.length levels in
          inr (Some (mkKappaResult (kappa_of (obsDisagreement ps k) (expDisagreement ps k))
            (inject_Z (count (fun p => p.1 =? p.2) pairs) /! n)
            (sum_by (fun p => inject_Z (Z.abs (p.1 - p.2))) pairs /! n) (List.length pairs)))
      end
  end.
End Kappa.

(** ** The statistic without rounding *)
#[local] Instance exact : Rounding := {|
  rnd := fun x => x; rnd_mono := fun _ _ L => L; rnd_dyadic := fun _ _ _ _ => Qeq_refl _; rnd_idem := fun _ => Qeq_refl _ |}.
Definition kappa_exact (pairs : list (Z * Z)) (levels : list Z) : exn + option KappaResult := weightedKappa pairs levels.

Fixpoint zsum {A} (f : A -> Z) (l : list A) : Z := match l with [] => 0 | x :: l => f x + zsum f l end.
Section ZSum.
Context {A B : Type}.
Lemma zsum_app (f : A -> Z) l l' : zsum f (l ++ l') = zsum f l + zsum f l'.
Proof. induction l; cbn; lia. Qed.
Lemma zsum_ext (f g : A -> Z) l : (forall x, x ∈ l -> f x = g x) -> zsum f l = zsum g l.
Proof.
  intros E. induction l as [|x l IH]; cbn; [reflexivity |].
  rewrite (E x), IH; [reflexivity | intros; apply E; now right | now left].
Qed.
Lemma zsum_le (f g : A -> Z) l : (forall x, x ∈ l -> f x <= g x) -> zsum f l <= zsum g l.
Proof.
  intros E. induction l as [|x l IH]; cbn; [lia |].
  pose proof (E x ltac:(now left)). assert (zsum f l <= zsum g l) by (apply IH; intros; apply E; now right). lia.
Qed.
Lemma zsum_nonneg (f : A -> Z) l : (forall x, x ∈ l -> 0 <= f x) -> 0 <= zsum f l.
Proof. intros E. transitivity (zsum (fun _ : A => 0) l); [clear; induction l; cbn; lia | now apply zsum_le]. Qed.
Lemma zsum_add (f g : A -> Z) l : zsum (fun x => f x + g x) l = zsum f l + zsum g l.
Proof. induction l; cbn; lia. Qed.
Lemma zsum_scale c (f : A -> Z) l : zsum (fun x => c * f x) l = c * zsum f l.
Proof. induction l; cbn; lia. Qed.
Lemma zsum_const c (l : list A) : zsum (fun _ => c) l = c * Z.of_nat (List.length l).
Proof. induction l; cbn [zsum List.length]; lia. Qed.
Lemma zsum_map (g : B -> A) (f : A -> Z) l : zsum f (g <$> l) = zsum (fun x => f (g x)) l.
Proof. induction l; cbn; [reflexivity | now f_equal]. Qed.
Lemma zsum_bind (g : B -> list A) (f : A -> Z) l : zsum f (l ≫= g) = zsum (fun x => zsum f (g x)) l.
Proof. induction l as [|x l IH]; cbn; [reflexivity |]. now rewrite zsum_app, IH. Qed.
Lemma count_zsum (p : A -> bool) l : count p l = zsum (fun x => Z.b2z (p x)) l.
Proof. unfold count. induction l as [|x l IH]; cbn; [reflexivity |]. destruct (p x); cbn [List.length Z.b2z]; lia. Qed.
End ZSum.
Lemma zsum_swap {A B} (f : A -> B -> Z) l l' : zsum (fun x => zsum (f x) l') l = zsum (fun y => zsum (fun x => f x y) l) l'.
Proof. induction l as [|x l IH]; cbn; [now rewrite zsum_const |]. now rewrite IH, zsum_add. Qed.

(** A sum over the indexes picks the one that is there. *)
Lemma zsum_pick (f : nat -> Z) x a k : (a <= x < a + k)%nat -> zsum (fun i => f i * Z.b2z (Nat.eqb x i)) (List.seq a k) = f x.
Proof.
  revert a. induction k as [|k IH]; intros a L; [lia |]. cbn [List.seq zsum].
  destruct (Nat.eqb_spec x a) as [->|N]; cbn [Z.b2z].
  - rewrite (zsum_ext _ (fun _ => 0)), zsum_const; [lia |]. intros i I%list_elem_of_In%in_seq.
    destruct (Nat.eqb_spec a i); cbn; lia.
  - rewrite IH by lia. lia.
Qed.
Lemma zsum_cells (f : nat * nat -> Z) k : zsum f (cells k) = zsum (fun i => zsum (fun j => f (i, j)) (List.seq 0 k)) (List.seq 0 k).
Proof. unfold cells. rewrite zsum_bind. apply zsum_ext. intros i _. now rewrite zsum_map. Qed.

Section Counting.
Variables (ps : list (nat * nat)) (k : nat).
Hypothesis in_range : forall p, p ∈ ps -> (p.1 < k)%nat /\ (p.2 < k)%nat.

(** Summed over the cells or over the observations: the same. *)
Lemma observed_sum (f : nat -> nat -> Z) : zsum (fun c => f c.1 c.2 * observed ps c.1 c.2) (cells k) = zsum (fun p => f p.1 p.2) ps.
Proof.
  rewrite zsum_cells. cbn [fst snd].
  rewrite (zsum_ext _ (fun i => zsum (fun p => f i p.2 * Z.b2z (Nat.eqb p.1 i)) ps)).
  - rewrite zsum_swap. apply zsum_ext. intros p P. apply (zsum_pick (fun i => f i p.2)). pose proof (in_range p P). lia.
  - intros i _. rewrite (zsum_ext _ (fun j => zsum (fun p => f i j * Z.b2z (Nat.eqb p.1 i && Nat.eqb p.2 j)) ps))
      by (intros j _; unfold observed; now rewrite count_zsum, zsum_scale).
    rewrite zsum_swap. apply zsum_ext. intros p P.
    rewrite (zsum_ext _ (fun j => (f i j * Z.b2z (Nat.eqb p.1 i)) * Z.b2z (Nat.eqb p.2 j))).
    + apply (zsum_pick (fun j => f i j * Z.b2z (Nat.eqb p.1 i))). pose proof (in_range p P). lia.
    + intros j _. destruct (Nat.eqb p.1 i), (Nat.eqb p.2 j); cbn; lia.
Qed.
Lemma marginal_sum (f : nat -> nat -> Z) :
  zsum (fun c => f c.1 c.2 * (rowMarg ps c.1 * colMarg ps c.2)) (cells k) = zsum (fun p => zsum (fun q => f p.1 q.2) ps) ps.
Proof.
  rewrite zsum_cells. cbn [fst snd].
  rewrite (zsum_ext _ (fun i => zsum (fun p => zsum (fun q => f i q.2) ps * Z.b2z (Nat.eqb p.1 i)) ps)).
  - rewrite zsum_swap. apply zsum_ext. intros p P. apply (zsum_pick (fun i => zsum (fun q => f i q.2) ps)). pose proof (in_range p P). lia.
  - intros i _. rewrite zsum_scale with (c := zsum _ ps). unfold rowMarg at 1. rewrite count_zsum.
    set (R := zsum (fun p => Z.b2z (Nat.eqb p.1 i)) ps).
    rewrite (zsum_ext _ (fun j => zsum (fun q => (R * f i j) * Z.b2z (Nat.eqb q.2 j)) ps)).
    + rewrite zsum_swap. rewrite (zsum_ext _ (fun q => R * f i q.2)); [rewrite zsum_scale; lia |].
      intros q Q. apply (zsum_pick (fun j => R * f i j)). pose proof (in_range q Q). lia.
    + intros j _. rewrite zsum_scale. unfold rowMarg, colMarg. rewrite !count_zsum. fold R. lia.
Qed.
End Counting.

(** ** The bound, threshold by threshold *)
Lemma above i a k : (a <= i <= a + k)%nat -> zsum (fun t => Z.b2z (Nat.leb i t)) (List.seq a k) = Z.of_nat (a + k) - Z.of_nat i.
Proof.
  revert a. induction k as [|k IH]; intros a L; cbn [List.seq zsum]; [lia |].
  destruct (Nat.leb_spec i a) as [D|D]; cbn [Z.b2z].
  - rewrite (zsum_ext _ (fun _ => 1)); [rewrite zsum_const, length_seq; lia |].
    intros t T%list_elem_of_In%in_seq. destruct (Nat.leb_spec i t); [reflexivity | lia].
  - rewrite IH by lia. lia.
Qed.
Definition apart (t i j : nat) : Z := Z.b2z (xorb (Nat.leb i t) (Nat.leb j t)).
Lemma dist_thresholds k i j : (i <= k)%nat -> (j <= k)%nat -> dist i j = zsum (fun t => apart t i j) (List.seq 0 k).
Proof.
  assert (W : forall i j, (i <= j)%nat -> (j <= k)%nat -> dist i j = zsum (fun t => apart t i j) (List.seq 0 k)).
  { intros i' j' L J. unfold dist. pose proof (above i' 0 k ltac:(lia)) as A. pose proof (above j' 0 k ltac:(lia)) as B.
    rewrite (zsum_ext _ (fun t => Z.b2z (Nat.leb i' t) + -1 * Z.b2z (Nat.leb j' t))), zsum_add, zsum_scale, A, B; [lia |].
    intros t _. unfold apart. destruct (Nat.leb_spec i' t), (Nat.leb_spec j' t); cbn; lia. }
  intros I J. destruct (Nat.le_ge_cases i j); [now apply W |].
  replace (dist i j) with (dist j i) by (unfold dist; lia). rewrite W by easy.
  apply zsum_ext. intros t _. unfold apart. now rewrite xorb_comm.
Qed.

(** Of n pairs of booleans, a with a true left part and b with a true right part. *)
Lemma apart_bound {A} (x y : A -> bool) l :
  let n := Z.of_nat (List.length l) in
  let cross := zsum (fun p => zsum (fun q => Z.b2z (xorb (x p) (y q))) l) l in
  0 <= zsum (fun p => Z.b2z (xorb (x p) (y p))) l /\
  n * zsum (fun p => Z.b2z (xorb (x p) (y p))) l <= 2 * cross.
Proof.
  cbv zeta. set (n := Z.of_nat (List.length l)). set (a := zsum (fun p => Z.b2z (x p)) l). set (b := zsum (fun p => Z.b2z (y p)) l).
  assert (C : zsum (fun p => zsum (fun q => Z.b2z (xorb (x p) (y q))) l) l = a * (n - b) + (n - a) * b).
  { rewrite (zsum_ext _ (fun p => (n - b - b) * Z.b2z (x p) + b)), zsum_add, zsum_scale, zsum_const; [fold a n; lia |].
    intros p _. destruct (x p); cbn [xorb Z.b2z].
    - rewrite (zsum_ext _ (fun q => 1 + -1 * Z.b2z (y q))), zsum_add, zsum_scale, zsum_const; [fold n b; lia |]. intros q _. destruct (y q); cbn; lia.
    - transitivity b; [apply zsum_ext; now intros q _; destruct (y q) | lia]. }
  rewrite C. clear C. set (d := zsum (fun p => Z.b2z (xorb (x p) (y p))) l).
  assert (D0 : 0 <= d) by (apply zsum_nonneg; intros p _; destruct (xorb _ _); cbn; lia).
  assert (A0 : 0 <= a) by (apply zsum_nonneg; intros p _; destruct (x p); cbn; lia).
  assert (B0 : 0 <= b) by (apply zsum_nonneg; intros p _; destruct (y p); cbn; lia).
  assert (D1 : d <= a + b) by (unfold a, b; rewrite <- zsum_add; apply zsum_le; intros p _; destruct (x p), (y p); cbn; lia).
  assert (D2 : d + a + b <= 2 * n).
  { unfold n. rewrite <- zsum_const. unfold d, a, b. rewrite <- !zsum_add. apply zsum_le. intros p _. destruct (x p), (y p); cbn; lia. }
  assert (D3 : a <= n) by (unfold n; rewrite <- (Z.mul_1_l (Z.of_nat _)), <- zsum_const; apply zsum_le; intros p _; destruct (x p); cbn; lia).
  assert (D4 : b <= n) by (unfold n; rewrite <- (Z.mul_1_l (Z.of_nat _)), <- zsum_const; apply zsum_le; intros p _; destruct (y p); cbn; lia).
  clearbody a b d n. split; [exact D0 |].
  assert (K : forall u v, 0 <= u -> 0 <= v -> u + v <= n -> d <= u + v -> n * d <= 2 * (n * (u + v) - 2 * (u * v))).
  { intros u v U V L Du. assert (n * d <= n * (u + v)) by (apply Z.mul_le_mono_nonneg_l; lia).
    assert ((u + v) * (u + v) <= n * (u + v)) by (apply Z.mul_le_mono_nonneg_r; lia).
    pose proof (Z.square_nonneg (u - v)). nia. }
  destruct (Z.le_ge_cases (a + b) n).
  - pose proof (K a b A0 B0 ltac:(lia) D1). nia.
  - pose proof (K (n - a) (n - b) ltac:(lia) ltac:(lia) ltac:(lia) ltac:(lia)). nia.
Qed.

(** The observed and the expected distances. *)
Definition total_dist (ps : list (nat * nat)) : Z := zsum (fun p => dist p.1 p.2) ps.
Definition cross_dist (ps : list (nat * nat)) : Z := zsum (fun p => zsum (fun q => dist p.1 q.2) ps) ps.
Lemma total_nonneg ps : 0 <= total_dist ps.
Proof. apply zsum_nonneg. intros p _. unfold dist. lia. Qed.
Lemma dist_bound ps k : (forall p, p ∈ ps -> (p.1 < k)%nat /\ (p.2 < k)%nat) ->
  Z.of_nat (List.length ps) * total_dist ps <= 2 * cross_dist ps.
Proof.
  intros R. unfold total_dist, cross_dist.
  rewrite (zsum_ext _ (fun p => zsum (fun t => apart t p.1 p.2) (List.seq 0 k))) by (intros p P; specialize (R p P); apply dist_thresholds; lia).
  rewrite (zsum_ext (fun p => zsum (fun q => dist p.1 q.2) ps) (fun p => zsum (fun t => zsum (fun q => apart t p.1 q.2) ps) (List.seq 0 k))).
  - rewrite (zsum_swap (fun p t => apart t p.1 p.2)), (zsum_swap (fun p t => zsum (fun q => apart t p.1 q.2) ps)), <- !zsum_scale.
    apply zsum_le. intros t _. apply (apart_bound (fun p : nat * nat => Nat.leb p.1 t) (fun p => Nat.leb p.2 t) ps).
  - intros p P. rewrite (zsum_swap (fun t q => apart t p.1 q.2)). apply zsum_ext. intros q Q. pose proof (R p P). pose proof (R q Q). apply dist_thresholds; lia.
Qed.
Lemma total_zero ps : total_dist ps = 0 <-> forall p, p ∈ ps -> p.1 = p.2.
Proof.
  unfold total_dist. induction ps as [|p ps IH]; cbn; [split; [now intros _ p ?%not_elem_of_nil | easy] |].
  pose proof (total_nonneg ps) as T. unfold total_dist in T.
  assert (D : 0 <= dist p.1 p.2 /\ (dist p.1 p.2 = 0 <-> p.1 = p.2)) by (unfold dist; lia). split.
  - intros E q [->|Q]%elem_of_cons; [apply D; lia |]. apply IH; [lia | exact Q].
  - intros A. rewrite (proj2 IH) by (intros; apply A; now right). rewrite (proj2 (proj2 D)); [easy | apply A; now left].
Qed.

(** ** Without rounding, the sums are quotients of the distances *)
Lemma exact_sum {A} (f : A -> Q) (z : A -> Z) s l : (forall x, x ∈ l -> f x == inject_Z (z x) * s)%Q ->
  (sum_by f l == inject_Z (zsum z l) * s)%Q.
Proof.
  intros E. unfold sum_by. cut (forall a, fold_left (fun acc x => acc +! f x) l a == a + inject_Z (zsum z l) * s)%Q.
  { intros C. rewrite C. ring. }
  induction l as [|x l IH]; intros a; cbn [fold_left zsum]; [change (inject_Z 0) with 0%Q; ring |].
  rewrite IH by (intros; apply E; now right). unfold add. cbn [rnd exact]. rewrite (E x) by now left. rewrite inject_Z_plus. ring.
Qed.
Section Exact.
Variables (ps : list (nat * nat)) (k : nat).
Hypothesis in_range : forall p, p ∈ ps -> (p.1 < k)%nat /\ (p.2 < k)%nat.
Hypothesis two : (2 <= k)%nat.
Hypothesis some : ps <> [].
Let n : Q := inject_Z (Z.of_nat (List.length ps)).
Let m : Q := inject_Z (Z.of_nat k - 1).
Lemma n_pos : (0 < n)%Q.
Proof. unfold n. destruct ps; [easy |]. unfold Qlt. cbn. lia. Qed.
Lemma m_pos : (0 < m)%Q.
Proof. unfold m, Qlt. cbn. lia. Qed.
Lemma obs_exact : (obsDisagreement ps k == inject_Z (total_dist ps) * (/ (m * n)))%Q.
Proof.
  pose proof n_pos. pose proof m_pos. unfold total_dist. rewrite <- (observed_sum ps k in_range dist). apply exact_sum.
  intros c _. unfold obs_term, weight, mul, div. cbn [rnd exact]. fold n m. rewrite inject_Z_mult. field. split; lra.
Qed.
Lemma exp_exact : (expDisagreement ps k == inject_Z (cross_dist ps) * (/ (m * n * n)))%Q.
Proof.
  pose proof n_pos. pose proof m_pos. unfold cross_dist. rewrite <- (marginal_sum ps k in_range dist). apply exact_sum.
  intros c _. unfold exp_term, weight, mul, div. cbn [rnd exact]. fold n m. rewrite !inject_Z_mult. field. split; lra.
Qed.
Lemma cross_zero : cross_dist ps = 0 -> total_dist ps = 0.
Proof.
  intros E. pose proof (dist_bound ps k in_range) as B. pose proof (total_nonneg ps). rewrite E in B.
  assert (0 < Z.of_nat (List.length ps)) by (destruct ps; [easy | cbn; lia]). nia.
Qed.
Lemma kappa_range : let kappa := kappa_of (obsDisagreement ps k) (expDisagreement ps k) in
  (-1 <= kappa <= 1)%Q /\ ((kappa == 1)%Q <-> total_dist ps = 0) /\
  (expDisagreement ps k == 0 -> obsDisagreement ps k == 0)%Q.
Proof.
  cbv zeta. pose proof n_pos as N. pose proof m_pos as M. pose proof (dist_bound ps k in_range) as B. pose proof (total_nonneg ps) as T.
  assert (C : 0 <= cross_dist ps) by (apply zsum_nonneg; intros p _; apply zsum_nonneg; intros q _; unfold dist; lia).
  assert (Z0 : (expDisagreement ps k == 0)%Q <-> cross_dist ps = 0).
  { rewrite exp_exact. split; [|intros ->; change (inject_Z 0) with 0%Q; ring].
    intros E%Qmult_integral. destruct E as [E|E]; [revert E; unfold Qeq; cbn; lia | exfalso].
    assert (0 < / (m * n * n))%Q by (apply Qinv_lt_0_compat; repeat apply Qmult_lt_0_compat; assumption). lra. }
  assert (O0 : (obsDisagreement ps k == 0)%Q <-> total_dist ps = 0).
  { rewrite obs_exact. split; [|intros ->; change (inject_Z 0) with 0%Q; ring].
    intros E%Qmult_integral. destruct E as [E|E]; [revert E; unfold Qeq; cbn; lia | exfalso].
    assert (0 < / (m * n))%Q by (apply Qinv_lt_0_compat; repeat apply Qmult_lt_0_compat; assumption). lra. }
  unfold kappa_of. destruct (Qeq_bool (expDisagreement ps k) 0) eqn:E.
  - apply Qeq_bool_eq in E. pose proof (cross_zero (proj1 Z0 E)) as T0. rewrite (proj2 (Qeq_bool_iff _ 0) (proj2 O0 T0)).
    split; [lra |]. split; [split; easy | intros _; now apply O0].
  - assert (X : cross_dist ps <> 0) by (intros X; rewrite (proj2 (Qeq_bool_iff _ 0) (proj2 Z0 X)) in E; discriminate).
    set (t := inject_Z (total_dist ps)). set (x := inject_Z (cross_dist ps)).
    assert (Xp : (0 < x)%Q) by (unfold x, Qlt; cbn; lia). assert (Tp : (0 <= t)%Q) by (unfold t, Qle; cbn; lia).
    assert (V : (1 -! obsDisagreement ps k /! expDisagreement ps k == 1 - n * t / x)%Q).
    { unfold sub, div. cbn [rnd exact]. rewrite obs_exact, exp_exact. fold t x. field. repeat split; lra. }
    rewrite V. assert (R : (n * t <= 2 * x)%Q) by (unfold n, t, x; rewrite <- inject_Z_mult; unfold Qle; cbn in *; lia).
    assert (R0 : (0 <= n * t / x)%Q) by (apply Qle_shift_div_l; [exact Xp |]; rewrite Qmult_0_l; apply Qmult_le_0_compat; lra).
    assert (R1 : (n * t / x <= 2)%Q) by (apply Qle_shift_div_r; [exact Xp | exact R]).
    split; [lra |]. split; [|intros E'; exfalso; now apply X, Z0].
    split; [|intros T0; unfold t; rewrite T0; change (inject_Z 0) with 0%Q; field; lra].
    intros K. assert (Z1 : (n * t / x == 0)%Q) by lra. assert (Z2 : (n * t == 0)%Q) by (rewrite <- (Qmult_div_r (n * t) x) by lra; rewrite Z1; ring).
    apply Qmult_integral in Z2 as [Z2|Z2]; [lra |]. revert Z2. unfold t, Qeq. cbn. lia.
Qed.
End Exact.

(** ** Levels and indexes *)
Lemma level_index_lookup levels lv i : level_index levels lv = Some i -> levels !! i = Some lv.
Proof.
  revert i. induction levels as [|l levels IH]; cbn; [easy |]. intros i.
  destruct (level_index levels lv) as [j|]; [intros [= <-]; now apply IH |]. destruct (Z.eqb_spec l lv) as [->|]; [now intros [= <-] | easy].
Qed.
Lemma level_index_some levels lv : is_Some (level_index levels lv) <-> lv ∈ levels.
Proof.
  induction levels as [|l levels IH]; cbn; [split; [now intros [? ?] | now intros ?%not_elem_of_nil] |].
  rewrite elem_of_cons, <- IH. destruct (level_index levels lv); [split; eauto |].
  destruct (Z.eqb_spec l lv) as [->|]; [split; eauto |]. split; [now intros [? ?] | intros [->|[? ?]]; easy].
Qed.
Lemma indexed levels pairs ps : mapM (index_pair levels) pairs = Some ps ->
  List.length ps = List.length pairs /\ (forall p, p ∈ ps -> (p.1 < List.length levels)%nat /\ (p.2 < List.length levels)%nat) /\
  ((forall p, p ∈ ps -> p.1 = p.2) <-> (forall q, q ∈ pairs -> q.1 = q.2)).
Proof.
  intros M%mapM_Some. induction M as [|[g r] [gi ri] pairs ps E M IH]; [split; [easy |]; split; [now intros p ?%not_elem_of_nil | now split; intros _ p ?%not_elem_of_nil] |].
  destruct IH as (L & R & A). unfold index_pair in E. cbn in E.
  destruct (level_index levels g) as [gi'|] eqn:G; [|easy]. destruct (level_index levels r) as [ri'|] eqn:W; [|easy]. injection E as -> ->.
  pose proof (level_index_lookup _ _ _ G) as Lg. pose proof (level_index_lookup _ _ _ W) as Lr.
  split; [cbn; now rewrite L |]. split.
  - intros p [->|P]%elem_of_cons; [cbn; split; [now apply lookup_lt_Some in Lg | now apply lookup_lt_Some in Lr] | now apply R].
  - split.
    + intros X q [->|Q]%elem_of_cons; [cbn; specialize (X (gi, ri) ltac:(now left)); cbn in X; subst; congruence |].
      apply (proj1 A); [|exact Q]. intros p P. apply X. now right.
    + intros X p [->|P]%elem_of_cons; [cbn; specialize (X (g, r) ltac:(now left)); cbn in X; subst; congruence |].
      apply (proj2 A); [|exact P]. intros q Q. apply X. now right.
Qed.

(** With any rounding. *)
Section Rounded.
Context `{Rounding}.
Lemma weight_nonneg k i j : (2 <= k)%nat -> (0 <= weight k i j)%Q.
Proof. intros K. apply div_nonneg; unfold Qle, dist; cbn; lia. Qed.
Lemma fraction_nonneg {A B} (f : A -> bool) l (l' : list B) : (0 <= inject_Z (count f l) /! inject_Z (Z.of_nat (List.length l')))%Q.
Proof. apply div_nonneg; unfold Qle, count; cbn; lia. Qed.
Lemma disagreements_nonneg ps k : (2 <= k)%nat -> (0 <= obsDisagreement ps k)%Q /\ (0 <= expDisagreement ps k)%Q.
Proof.
  intros K. split; apply sum_by_nonneg; intros c _; apply mul_nonneg; try now apply weight_nonneg.
  - apply fraction_nonneg.
  - apply mul_nonneg; apply fraction_nonneg.
Qed.
Lemma kappa_of_le_1 obs exp : (0 <= obs)%Q -> (0 <= exp)%Q -> (kappa_of obs exp <= 1)%Q.
Proof.
  intros O X. unfold kappa_of. destruct (Qeq_bool exp 0); [destruct (Qeq_bool obs 0); lra |].
  unfold sub. apply rnd_le_1. pose proof (div_nonneg _ _ O X). lra.
Qed.
Lemma kappa_of_zero obs exp : (obs == 0)%Q -> (kappa_of obs exp == 1)%Q.
Proof.
  intros O. unfold kappa_of. destruct (Qeq_bool exp 0); [now rewrite (proj2 (Qeq_bool_iff _ _) O) |].
  assert (D : (obs /! exp == 0)%Q) by (unfold div; rewrite <- rnd_0; apply rnd_proper; rewrite O; unfold Qdiv; ring).
  unfold sub. transitivity (rnd 1); [apply rnd_proper; rewrite D; ring | apply rnd_1].
Qed.
Lemma obs_agreement ps k : (forall p, p ∈ ps -> p.1 = p.2) -> (obsDisagreement ps k == 0)%Q.
Proof.
  intros A. unfold obsDisagreement, sum_by. cut (forall a, (a == 0)%Q -> (fold_left (fun acc x => acc +! obs_term ps k x) (cells k) a == 0)%Q); [intros C; now apply C |].
  induction (cells k) as [|[i j] l IH]; intros a Z0; cbn [fold_left]; [exact Z0 |]. apply IH.
  unfold add. rewrite <- rnd_0. apply rnd_proper. rewrite Z0. cut (obs_term ps k (i, j) == 0)%Q; [intros ->; ring |].
  unfold obs_term. cbn [fst snd]. unfold mul. rewrite <- rnd_0. apply rnd_proper.
  destruct (decide (i = j)) as [->|N].
  - unfold weight, dist. rewrite Z.sub_diag. assert (W : (inject_Z (Z.abs 0) /! inject_Z (Z.of_nat k - 1) == 0)%Q)
      by (unfold div; rewrite <- rnd_0; apply rnd_proper; change (inject_Z (Z.abs 0)) with 0%Q; unfold Qdiv; ring). rewrite W. ring.
  - assert (O : observed ps i j = 0).
    { unfold observed, count. assert (List.filter (fun p => Nat.eqb p.1 i && Nat.eqb p.2 j) ps = []) as ->; [|reflexivity].
      destruct (List.filter _ ps) as [|p l'] eqn:F; [easy | exfalso].
      assert (I : In p (List.filter (fun p => Nat.eqb p.1 i && Nat.eqb p.2 j) ps)) by (rewrite F; now left).
      apply filter_In in I as [I%list_elem_of_In E%andb_true_iff]. specialize (A p I). destruct E as [E1%Nat.eqb_eq E2%Nat.eqb_eq]. congruence. }
    rewrite O. assert (W : (inject_Z 0 /! inject_Z (Z.of_nat (List.length ps)) == 0)%Q)
      by (unfold div; rewrite <- rnd_0; apply rnd_proper; change (inject_Z 0) with 0%Q; unfold Qdiv; ring). rewrite W. ring.
Qed.
End Rounded.

(** ** The properties *)

(** The statistic as the documentation states it, computed without rounding:
    it lies in [-1, 1], it is 1 exactly when every pair agrees, and a zero
    expected disagreement means a zero observed one (the code's third case,
    agreement 0 without an expected disagreement, never arises). *)
Theorem kappa_bounds pairs levels r : kappa_exact pairs levels = inr (Some r) ->
  (-1 <= kr_kappa r <= 1)%Q /\ ((kr_kappa r == 1)%Q <-> forall p, p ∈ pairs -> p.1 = p.2) /\
  exists ps, mapM (index_pair levels) pairs = Some ps /\
    (expDisagreement ps (List.length levels) == 0 -> obsDisagreement ps (List.length levels) == 0)%Q.
Proof.
  unfold kappa_exact, weightedKappa. destruct pairs as [|p0 pairs0]; [easy |]. set (pairs := p0 :: pairs0).
  destruct (Nat.ltb_spec (List.length levels) 2) as [|K]; [easy |].
  destruct (mapM (index_pair levels) pairs) as [ps|] eqn:M; [|easy]. intros [= <-]. cbn [kr_kappa].
  destruct (indexed _ _ _ M) as (L & R & A).
  assert (N : ps <> []) by (intros ->; discriminate L).
  destruct (kappa_range ps (List.length levels) R K N) as (B & E & Z0).
  split; [exact B |]. split; [rewrite E, total_zero; exact A | eauto].
Qed.

(** As computed in doubles: a rating outside the scale or a scale of fewer
    than two levels throws; otherwise the statistic is a number, at most 1, and
    exactly 1 when every pair agrees. *)
Theorem kappa_computed `{Rounding} pairs levels : pairs <> [] ->
  match weightedKappa pairs levels with
  | inl _ => (List.length levels < 2)%nat \/ exists p, p ∈ pairs /\ ~ (p.1 ∈ levels /\ p.2 ∈ levels)
  | inr None => False
  | inr (Some r) => (2 <= List.length levels)%nat /\ (forall p, p ∈ pairs -> p.1 ∈ levels /\ p.2 ∈ levels) /\
      (kr_kappa r <= 1)%Q /\ ((forall p, p ∈ pairs -> p.1 = p.2) -> (kr_kappa r == 1)%Q) /\ kr_n r = List.length pairs
  end.
Proof.
  intros N. unfold weightedKappa. destruct pairs as [|p0 pairs0]; [easy |]. set (pairs := p0 :: pairs0).
  destruct (Nat.ltb_spec (List.length levels) 2) as [|K]; [now left |].
  destruct (mapM (index_pair levels) pairs) as [ps|] eqn:M; cbn [kr_kappa kr_n].
  - destruct (indexed _ _ _ M) as (L & R & A). split; [exact K |]. destruct (disagreements_nonneg ps (List.length levels) K) as [O X].
    split; [|split; [now apply kappa_of_le_1 |]; split; [|reflexivity]; intros Y; apply kappa_of_zero, obs_agreement, A, Y].
    apply mapM_Some in M. intros p P. apply list_elem_of_lookup in P as [i P]. destruct (Forall2_lookup_l _ _ _ _ _ M P) as (q & _ & E).
    unfold index_pair in E. rewrite <- !level_index_some. destruct (level_index levels p.1); [|easy]. destruct (level_index levels p.2); [|easy]. eauto.
  - right. apply mapM_None in M. apply Exists_exists in M as (p & P & E). exists p. split; [exact P |]. intros [G R].
    apply level_index_some in G as [g G], R as [r R]. unfold index_pair in E. rewrite G, R in E. discriminate.
Qed.

Definition sample_pairs : list (Z * Z) := [(1, 1); (2, 2); (2, 3); (3, 2)].
Lemma kappa_bounds_witness : exists r, kappa_exact sample_pairs [1; 2; 3] = inr (Some r) /\ (kr_kappa r == 1 # 3)%Q /\ (-1 <= kr_kappa r <= 1)%Q.
Proof.
  eexists. split; [reflexivity |]. split; [vm_compute; reflexivity |].
  apply (kappa_bounds sample_pairs [1; 2; 3]). reflexivity.
Defined.
Lemma kappa_computed_witness : exists r, @weightedKappa binary64 sample_pairs [1; 2; 3] = inr (Some r) /\ (kr_kappa r <= 1)%Q.
Proof.
  pose proof (@kappa_computed binary64 sample_pairs [1; 2; 3] ltac:(discriminate)) as K.
  destruct (@weightedKappa binary64 sample_pairs [1; 2; 3]) as [e|[r|]] eqn:E; [vm_compute in E; discriminate | exists r; split; [reflexivity | apply K] | easy].
Defined.
