(* ===== verification/Evaluation.v ===== *)
(** * The evaluation of a submitted attempt

    evaluation/evaluation.service.ts: run every validator, rebuild the task
    states, score, persist the score, update ratings and mastery, close the
    attempt, and set or clear cooldowns. *)
From S2P Require Import Prelude JsNum Binary64 Effects Schema AttemptStatus EventStore Bkt Elo Mastery Eligibility Criteria Scoring AttemptRepository ValidatorRunner Artifact.

(** FaultRepository.getCanonicalDiagnosticPath reads content/faults/<id>.yaml;
    no file or no path is []. *)
Class FaultPaths := { getCanonicalDiagnosticPath : string -> list string }.

Section EvaluationService.
Context `{Rounding} `{MathPow} `{Executor} `{ArtifactGrading} `{FaultPaths}.

Definition SCORING_PROFILE_REGISTRY (id : string) : option ScoringProfile :=
  if String.eqb id (profile_id GUIDED_LAB_DEFAULT_PROFILE) then Some GUIDED_LAB_DEFAULT_PROFILE
  else if String.eqb id (profile_id PRODUCTION_SIM_DEFAULT_PROFILE) then Some PRODUCTION_SIM_DEFAULT_PROFILE
  else None.
Definition profile_of (spec : ActivitySpec) : ScoringProfile :=
  default GUIDED_LAB_DEFAULT_PROFILE (s_scoring_profile spec ≫= SCORING_PROFILE_REGISTRY).

Definition active_minutes (attempt : Attempt) : Q :=
  match started_at attempt, submitted_at attempt with
  | Some st, Some sub => inject_Z (sub - st) /! 60000
  | _, _ => 0
  end.

Definition pre_submit_runs (attemptId : Id) (s : Store) : list ValidationRun :=
  List.filter (fun r => Nat.eqb (vr_attempt_id r) attemptId && negb (String.eqb (vr_trigger r) "submit")) (validation_runs s).
Definition signal_value (attemptId : Id) (signals : gmap (Id * string) Q) (key : string) : Q :=
  match signals !! (attemptId, key) with Some v => lit v | None => 0 end.

Definition criterion_input (attemptId : Id) (attempt : Attempt) (version : ActivityVersion)
    (taskSummaries : list TaskResult) (preSubmit : nat) (signals : gmap (Id * string) Q)
    (commands : list string) : CriterionInput :=
  mkCriterionInput taskSummaries (lit (hint_penalty_total attempt)) (reset_count attempt) (retry_index attempt)
    (active_minutes attempt) (inject_Z (default 0%Z (av_estimated_minutes version))) preSubmit
    (signal_value attemptId signals "blast_radius_violations")
    (signal_value attemptId signals "diagnostic_efficiency_good_count")
    (signal_value attemptId signals "diagnostic_efficiency_bad_count")
    commands
    (List.filter (fun path => Nat.ltb 0 (length path))
       ((fun f => getCanonicalDiagnosticPath (f_id f)) <$> default [] (s_faults (av_spec version)))).

Definition insert_score (attemptId : Id) (profile : ScoringProfile) (r : ScoreBreakdown) : prog Store unit :=
  act (fun s => let? final := to_numeric 5 4 (finalScore r) in
    inr (tt, s <| scores ::= fun l => l ++ [mkAttemptScore attemptId (profile_id profile) final (passed r)
                   ((fun c => (c.1, c.2.1)) <$> criteria r) (now s)] |>)).

(** The artifacts loop; a failure is logged and ignored. *)
Definition grade_artifacts (attemptId : Id) (required : list ArtifactRequired) : prog Store unit :=
  for_each required (fun a => try_catch (gradeArtifact attemptId (aq_key a)) (fun _ => Ret tt)).

Definition elo_outcome (passed wasFirstTryPass : bool) : EloService.EloOutcome :=
  if passed then (if wasFirstTryPass then EloService.WIN else EloService.DRAW) else EloService.LOSS.

Definition play_match (attempt : Attempt) (primarySkillId : option Id) (outcome : EloService.EloOutcome)
    : prog Store Q :=
  match primarySkillId with
  | Some skillId => recordEloMatch (user_id attempt) skillId (activity_version_id attempt) outcome
  | None => Ret 0
  end.

Definition record_skills (attemptId : Id) (attempt : Attempt) (primarySkillId : option Id)
    (adjust score : Q) (rows : list ActivitySkill) : prog Store unit :=
  for_each rows (fun row =>
    recordEvidence (mkRecordEvidenceInput (user_id attempt) (as_skill_id row) attemptId score
      (lit (as_weight row)) (profile_passThreshold GUIDED_LAB_DEFAULT_PROFILE)
      (if bool_decide (Some (as_skill_id row) = primarySkillId) then adjust else 0)
      (Nat.eqb (length (assistance_flags attempt)) 0)) ;;
    Ret tt).

(** GREATEST ignores nulls. *)
Definition greatest (old : option Q) (new : Q) : Q := match old with Some o => jmax o new | None => new end.

Definition upsert_activity_state (attempt : Attempt) (score : Q) (nextStatus : string) (cooldownUntil : option Z)
    : prog Store unit :=
  act (fun s => let? sc := to_numeric 5 4 score in
    let key := (user_id attempt, activity_id attempt) in
    let row := match activity_states s !! key with
      | None => mkLearnerActivityState (Some sc) (Some sc) nextStatus 1 (Some (now s)) cooldownUntil
      | Some l => l <| la_best_score := Some (greatest (la_best_score l) sc) |>
                    <| la_latest_score := Some sc |> <| la_status := nextStatus |>
                    <| la_attempts_count ::= Z.succ |> <| la_last_attempt_at := Some (now s) |>
                    <| la_cooldown_until := cooldownUntil |>
      end in
    inr (tt, s <| activity_states := <[key := row]> (activity_states s) |>)).

(** clearCooldownsForRemediatedSkills: two reads and one update. *)
Definition version_activity (s : Store) (versionId : Id) : option Id := av_activity_id <$> versions s !! versionId.
Definition remediated_skills (activityId : Id) (s : Store) : list Id :=
  remove_dups (as_skill_id <$> List.filter (fun r => as_is_primary r
    && bool_decide (version_activity s (as_version_id r) = Some activityId)) (activity_skills s)).
Definition sibling_activities (activityId : Id) (skillIds : list Id) (s : Store) : list Id :=
  remove_dups (List.filter (fun a => negb (Nat.eqb a activityId))
    (omap (version_activity s) (as_version_id <$> List.filter (fun r => as_is_primary r
      && includes skillIds (as_skill_id r)) (activity_skills s)))).
Definition clear_cooldowns (userId : Id) (activityIds : list Id) (s : Store) : Store :=
  s <| activity_states := map_imap (fun k l => Some (if Nat.eqb k.1 userId && includes activityIds k.2
                             then l <| la_cooldown_until := None |> else l)) (activity_states s) |>.

Definition clearCooldownsForRemediatedSkills (userId passedActivityId : Id) : prog Store unit :=
  let* skillIds := select (remediated_skills passedActivityId) in
  match skillIds with
  | [] => Ret tt
  | _ =>
      let* candidateActivityIds := select (sibling_activities passedActivityId skillIds) in
      match candidateActivityIds with
      | [] => Ret tt
      | _ => execute (clear_cooldowns userId candidateActivityIds)
      end
  end.

(** [evaluate] from the score on. *)
Definition conclude (attemptId : Id) (attempt : Attempt) (spec : ActivitySpec) (profile : ScoringProfile)
    (wasFirstTryPass : bool) (scoreResult : ScoreBreakdown) : prog Store (Q * bool) :=
  insert_score attemptId profile scoreResult ;;
  appendTypedEvent attemptId SYSTEM EVALUATED
    (JObj [("final_score"%string, JNum (finalScore scoreResult)); ("passed"%string, JBool (passed scoreResult))]) ;;
  grade_artifacts attemptId (default [] (s_artifacts_required spec)) ;;
  let* primarySkillId := select (fun s => head (primary_skills (activity_version_id attempt) s)) in
  let* adjust := play_match attempt primarySkillId (elo_outcome (passed scoreResult) wasFirstTryPass) in
  let* activitySkills := select (fun s =>
    List.filter (fun r => Nat.eqb (as_version_id r) (activity_version_id attempt)) (activity_skills s)) in
  record_skills attemptId attempt primarySkillId adjust (finalScore scoreResult) activitySkills ;;
  let nextStatus := if passed scoreResult then PASSED else FAILED in
  transition attemptId (Schema.version attempt) (fun clock => (to nextStatus) <| u_completedAt := Some clock |>) ;;
  let* cooldownUntil := select (fun s =>
    if passed scoreResult then None else Some (computeCooldownUntil (retry_index attempt) (now s))) in
  upsert_activity_state attempt (finalScore scoreResult)
    (if passed scoreResult then "passed" else "failed") cooldownUntil ;;
  when (passed scoreResult) (clearCooldownsForRemediatedSkills (user_id attempt) (activity_id attempt)) ;;
  Ret (finalScore scoreResult, passed scoreResult).

Definition evaluate (attemptId : Id) : prog Store (Q * bool) :=
  let* attempt := select_or_throw (fun s => attempts s !! attemptId) in
  if negb (includes [EVALUATING; SUBMITTED] (status attempt)) then
    Throw (JsError "expected SUBMITTED/EVALUATING")
  else
  let* version := select_or_throw (fun s => versions s !! activity_version_id attempt) in
  let spec := av_spec version in
  let profile := profile_of spec in
  let environmentId := default "unknown-environment"%string (environment_id attempt) in
  let* taskSummaries := run_validators
    (mkRunValidationInput attemptId environmentId ScopeAll "submit" (default [] (s_tasks spec))) in
  rebuildForAttempt attemptId ;;
  let wasFirstTryPass := Z.eqb (retry_index attempt) 0 in
  let* preSubmit := select (fun s => length (pre_submit_runs attemptId s)) in
  let* signalRows := select signals in
  let* evs := replay attemptId in
  let input := criterion_input attemptId attempt version taskSummaries preSubmit signalRows (command_sequence evs) in
  match score input profile wasFirstTryPass with
  | inl e => Throw e
  | inr scoreResult => conclude attemptId attempt spec profile wasFirstTryPass scoreResult
  end.
End EvaluationService.

(** ** Which tables each part writes *)
Definition same {A} (table : Store -> A) (s s' : Store) : Prop := table s' = table s.
#[export] Instance same_preorder {A} (table : Store -> A) : PreOrder (same table).
Proof. split; [now intros s | unfold same; intros a b c E1 E2; congruence]. Qed.

Lemma same_evolves {G : Graph} s s' : same attempts s s' -> evolves s s'.
Proof. apply evolves_frame. Qed.
Lemma attempts_evolves {G : Graph} {A} (p : prog Store A) : preserves (same attempts) p -> preserves evolves p.
Proof. apply preserves_weaken, same_evolves. Qed.

(** An action that writes only tables the law [T] lets pass. *)
Ltac table_kept T :=
  apply preserves_act; let s1 := fresh "s" in let b := fresh "b" in let s2 := fresh "s" in intros s1 b s2;
  cbv beta delta [commit_match commit_evidence] zeta;
  repeat match goal with
  | |- context [match ?x with inl _ => _ | inr _ => _ end] => destruct x; [easy |]
  end;
  intros [= _ <-]; apply T.

Section Writes.
Context `{Rounding} `{MathPow} `{Executor} `{ArtifactGrading} `{FaultPaths}.

Lemma recordEloMatch_keeps {A} (table : Store -> A) u k v o :
  (forall s m vs, table (s <| mastery := m |> <| versions := vs |>) = table s) ->
  preserves (same table) (recordEloMatch u k v o).
Proof.
  intros T. unfold recordEloMatch. preserves. table_kept T.
Qed.
Lemma recordEvidence_keeps {A} (table : Store -> A) input :
  (forall s m e, table (s <| mastery := m |> <| evidence := e |>) = table s) ->
  preserves (same table) (recordEvidence input).
Proof.
  intros T. unfold recordEvidence. preserves. table_kept T.
Qed.
Lemma insert_score_keeps {A} (table : Store -> A) id p r :
  (forall s f, table (s <| scores := f |>) = table s) -> preserves (same table) (insert_score id p r).
Proof.
  intros T. table_kept T.
Qed.
Lemma upsert_keeps {A} (table : Store -> A) a sc n c :
  (forall s m, table (s <| activity_states := m |>) = table s) -> preserves (same table) (upsert_activity_state a sc n c).
Proof.
  intros T. table_kept T.
Qed.
Lemma clear_keeps {A} (table : Store -> A) u a :
  (forall s f, table (s <| activity_states := f |>) = table s) ->
  preserves (same table) (clearCooldownsForRemediatedSkills u a).
Proof. intros T. unfold clearCooldownsForRemediatedSkills. preserves. apply preserves_execute. intros s. apply T. Qed.

Lemma rebuild_keeps {A} (table : Store -> A) id :
  (forall s m, table (s <| task_states := m |>) = table s) -> preserves (same table) (rebuildForAttempt id).
Proof.
  intros T. unfold rebuildForAttempt, replay. apply preserves_bind; [auto with preserves typeclass_instances|].
  intros evs. apply preserves_act. intros s1 b s2.
  destruct (insert_task_states _ _ _); [|easy]. intros [= _ <-]. apply T.
Qed.

Lemma grade_artifacts_preserves (R : Store -> Store -> Prop) `{!PreOrder R} id l :
  (forall key, preserves R (gradeArtifact id key)) -> preserves R (grade_artifacts id l).
Proof. intros G. unfold grade_artifacts. preserves; apply G. Qed.

Lemma record_skills_keeps {A} (table : Store -> A) id a p d sc rows :
  (forall s m e, table (s <| mastery := m |> <| evidence := e |>) = table s) ->
  preserves (same table) (record_skills id a p d sc rows).
Proof. intros T. unfold record_skills. preserves. now apply recordEvidence_keeps. Qed.
Lemma play_match_keeps {A} (table : Store -> A) a p o :
  (forall s m vs, table (s <| mastery := m |> <| versions := vs |>) = table s) ->
  preserves (same table) (play_match a p o).
Proof. intros T. unfold play_match. destruct p; [now apply recordEloMatch_keeps | exact I]. Qed.

Lemma frame_attempts s s' : runner_frame s s' -> same attempts s s'.
Proof. intros F. apply F. Qed.
End Writes.

(** ** Concurrency: evaluation only closes the attempt it read *)
Section EvaluateGuarantee.
Context {G : Graph} `{Rounding} `{MathPow} `{Executor} `{ArtifactGrading} `{FaultPaths}.

Lemma guaranteed_select_or_throw {A B} (f : Store -> option A) (k : A -> prog Store B) Q s :
  (forall s' a, evolves s s' -> f s' = Some a -> guaranteed evolves (k a) Q s') ->
  guaranteed evolves (bind (select_or_throw f) k) Q s.
Proof.
  intros K. cbn. intros s' E. destruct (f s') as [a|] eqn:F; [|exact I]. split; [reflexivity | now apply K].
Qed.
Lemma guaranteed_select {A B} (f : Store -> A) (k : A -> prog Store B) Q s :
  (forall s', evolves s s' -> guaranteed evolves (k (f s')) Q s') ->
  guaranteed evolves (bind (select f) k) Q s.
Proof. apply guaranteed_reads, _. Qed.

Lemma guaranteed_after {A B} (p : prog Store A) (k : A -> prog Store B) Q id r s :
  known_row id r s -> preserves evolves p ->
  (forall a s', known_row id r s' -> guaranteed evolves (k a) Q s') ->
  guaranteed evolves (bind p k) Q s.
Proof.
  intros K P C. apply guaranteed_seq; [apply _ | exact P |]. intros a s' E. apply C.
  now apply (known_row_evolves id r s).
Qed.

Lemma guaranteed_last {A} (p : prog Store A) s : preserves evolves p ->
  guaranteed evolves p (fun _ _ => True) s.
Proof. intros P. eapply guaranteed_mono; [apply _ | now apply guaranteed_preserves; [apply _|] | easy]. Qed.

Lemma evaluate_guaranteed id s : guaranteed evolves (evaluate id) (fun _ _ => True) s.
Proof.
  unfold evaluate. apply guaranteed_select_or_throw. intros s1 r _ L.
  assert (K : known_row id r s1) by now apply known_row_read. clear L.
  destruct (includes [EVALUATING; SUBMITTED] (status r)) eqn:St; cbn [negb]; [|exact I].
  apply includes_spec in St.
  apply guaranteed_select_or_throw. intros s2 version E2 _.
  apply (known_row_evolves _ _ _ _ K) in E2. clear K s1.
  apply (guaranteed_after _ _ _ id r); [easy | apply run_validators_evolves |]. intros ms s3 K3.
  apply (guaranteed_after _ _ _ id r); [easy | now apply attempts_evolves, rebuild_keeps |]. intros _ s4 K4.
  do 3 (apply (guaranteed_after _ _ _ id r); [eassumption | unfold replay; auto with preserves typeclass_instances |]; intros ? ? ?).
  destruct (score _ _ _) as [e|res]; [exact I |]. unfold conclude.
  apply (guaranteed_after _ _ _ id r); [easy | now apply attempts_evolves, insert_score_keeps |]. intros _ s8 K8.
  apply (guaranteed_after _ _ _ id r); [easy | apply append_evolves |]. intros _ s9 K9.
  apply (guaranteed_after _ _ _ id r); [easy | apply grade_artifacts_preserves; [apply _|]; intros key;
    apply attempts_evolves; eapply preserves_weaken; [exact frame_attempts | apply grade_frame] |]. intros _ s10 K10.
  apply (guaranteed_after _ _ _ id r); [easy | auto with preserves typeclass_instances |]. intros primary s11 K11.
  apply (guaranteed_after _ _ _ id r); [easy | now apply attempts_evolves, play_match_keeps |]. intros adjust s12 K12.
  apply (guaranteed_after _ _ _ id r); [easy | auto with preserves typeclass_instances |]. intros rows s13 K13.
  apply (guaranteed_after _ _ _ id r); [easy | now apply attempts_evolves, record_skills_keeps |]. intros _ s14 K14.
  apply guaranteed_bind; [apply _|].
  eapply guaranteed_mono; [apply _ | apply (transition_evolves id r _ (if passed res then PASSED else FAILED)); [easy | now destruct (passed res) |] |].
  - apply move_edge. repeat (apply elem_of_cons in St as [->|St]; [now destruct (passed res) |]). now apply elem_of_nil in St.
  - cbn beta. intros r2 s15 _ K15. apply guaranteed_last. preserves.
    + now apply attempts_evolves, upsert_keeps.
    + now apply attempts_evolves, clear_keeps.
Qed.
End EvaluateGuarantee.

(** ** What a finished evaluation leaves behind *)
Definition core (s : Store) := (attempts s, scores s, activity_states s, now s).

Lemma run_bind_inv {A B} (p : prog Store A) (f : A -> prog Store B) s b s' :
  run (bind p f) s = (inr b, s') -> exists a s1, run p s = (inr a, s1) /\ run (f a) s1 = (inr b, s').
Proof. rewrite run_bind. destruct (run p s) as [[e|a] s1]; [easy | eauto]. Qed.

Lemma keeps_run {A B} (table : Store -> B) (p : prog Store A) s r s1 :
  preserves (same table) p -> run p s = (r, s1) -> table s1 = table s.
Proof. intros P E. pose proof (preserves_run (same table) p s P) as G. now rewrite E in G. Qed.

(** The state row a verdict writes. *)
Definition activity_state_after (old : option LearnerActivityState) (sc : Q) (passed : bool) (cooldown : option Z)
    (clock : Z) (l : LearnerActivityState) : Prop :=
  la_status l = (if passed then "passed" else "failed")%string /\ la_cooldown_until l = cooldown /\
  la_attempts_count l = (from_option la_attempts_count 0 old + 1)%Z /\ la_last_attempt_at l = Some clock /\
  la_latest_score l = Some sc /\ (exists best, la_best_score l = Some best /\ sc <= best).

Section EvaluateRuns.
Context `{Rounding} `{MathPow} `{Executor} `{ArtifactGrading} `{FaultPaths}.

Lemma run_upsert a sc n c s s' : run (upsert_activity_state a sc n c) s = (inr tt, s') ->
  exists q l, numeric 5 4 sc = Some q /\
    s' = s <| activity_states := <[(user_id a, activity_id a) := l]> (activity_states s) |> /\
    la_status l = n /\ la_cooldown_until l = c /\
    la_attempts_count l = (from_option la_attempts_count 0 (activity_states s !! (user_id a, activity_id a)) + 1)%Z /\
    la_last_attempt_at l = Some (now s) /\ la_latest_score l = Some q /\
    (exists best, la_best_score l = Some best /\ q <= best).
Proof.
  unfold upsert_activity_state. run_simpl. unfold to_numeric. destruct (numeric 5 4 sc) as [q|]; [|easy].
  intros [= <-]. destruct (activity_states s !! _) as [l|]; eexists q, _; (split; [reflexivity |]);
    (split; [reflexivity |]); cbn; split_and!; try easy; eexists; (split; [reflexivity |]).
  - unfold greatest. destruct (la_best_score l); [|apply Qle_refl]. qlra.
  - apply Qle_refl.
Qed.

Lemma siblings_other a skills s x : x ∈ sibling_activities a skills s -> x <> a.
Proof.
  unfold sibling_activities. rewrite elem_of_remove_dups, list_elem_of_In, List.filter_In. intros [_ N] ->.
  now rewrite Nat.eqb_refl in N.
Qed.

Lemma clear_own u a s r s' : run (clearCooldownsForRemediatedSkills u a) s = (r, s') ->
  activity_states s' !! (u, a) = activity_states s !! (u, a).
Proof.
  unfold clearCooldownsForRemediatedSkills. run_simpl. destruct (remediated_skills a s) as [|k ks]; [intros [= _ <-]; easy |].
  run_simpl. destruct (sibling_activities a (k :: ks) s) as [|x xs] eqn:E; [intros [= _ <-]; easy |].
  run_simpl. intros [= _ <-]. unfold clear_cooldowns. cbn [activity_states set_field].
  rewrite map_lookup_imap. destruct (activity_states s !! (u, a)) as [l|]; cbn; [|easy].
  destruct (includes (x :: xs) a) eqn:I; [|now rewrite andb_false_r].
  apply includes_spec in I. rewrite <- E in I. now apply siblings_other in I.
Qed.

Lemma run_transition_inv id v u s r s' : run (transition id v u) s = (inr r, s') ->
  exists r0, attempts s !! id = Some r0 /\ version r0 = v /\ r = updated (u (now s)) v (now s) r0 /\
    s' = s <| attempts := <[id := r]> (attempts s) |>.
Proof.
  rewrite run_transition. destruct (attempts s !! id) as [r0|]; [|easy].
  destruct (Nat.eqb_spec (version r0) v); [|easy]. intros [= <- <-]. eauto.
Qed.

Lemma score_unit i p first res : score i p first = inr res -> 0 <= finalScore res <= 1.
Proof.
  unfold score. destruct (compute_criteria _ _); [easy |]. intros [= <-]. apply final_score_unit.
Qed.

Lemma score_passed_rule i p first res : score i p first = inr res ->
  passed res = (profile_passThreshold p <=? finalScore res).
Proof. unfold score. destruct (compute_criteria _ _); [easy |]. now intros [= <-]. Qed.

(** Both registered profiles pass at 0.7. *)
Lemma profile_threshold spec : profile_passThreshold (profile_of spec) = lit (7 # 10).
Proof.
  unfold profile_of, SCORING_PROFILE_REGISTRY. destruct (s_scoring_profile spec) as [id|]; cbn [mbind option_bind]; [|reflexivity].
  destruct (String.eqb id _); [reflexivity |]. destruct (String.eqb id _); reflexivity.
Qed.

(** What a returned evaluation left in the tables. *)
Definition evaluated id (r : Attempt) (sc : Q) (p : bool) (s s' : Store) : Prop :=
  (exists r', attempts s' = <[id := r']> (attempts s) /\ status r' = (if p then PASSED else FAILED) /\
     version r' = S (version r) /\ completed_at r' = Some (now s)) /\
  (exists q row, numeric 5 4 sc = Some q /\ scores s' = scores s ++ [row] /\ score_attempt_id row = id /\
     score_final row = q /\ score_passed row = p /\
     exists l, activity_states s' !! (user_id r, activity_id r) = Some l /\
       activity_state_after (activity_states s !! (user_id r, activity_id r)) q p
         (if p then None else Some (computeCooldownUntil (retry_index r) (now s))) (now s) l).

Lemma run_insert_score id p r s s' : run (insert_score id p r) s = (inr tt, s') ->
  exists q row, numeric 5 4 (finalScore r) = Some q /\ s' = s <| scores := scores s ++ [row] |> /\
    score_attempt_id row = id /\ score_final row = q /\ score_passed row = passed r.
Proof.
  unfold insert_score. run_simpl. unfold to_numeric. destruct (numeric 5 4 _) as [q|]; [|easy].
  intros [= <-]. eexists q, _. split; [reflexivity |]. split; [reflexivity | easy].
Qed.

Lemma frame_core s s' : runner_frame s s' -> same core s s'.
Proof. intros [F1 _ _ F4 F5 _ _ _ F9 _]. unfold same, core. congruence. Qed.

Lemma run_side_effects id r spec res first s u s' (k : prog Store (Q * bool)) :
  run (appendTypedEvent id SYSTEM EVALUATED u ;;
       grade_artifacts id (default [] (s_artifacts_required spec)) ;;
       let* primary := select (fun s => head (primary_skills (activity_version_id r) s)) in
       let* adjust := play_match r primary (elo_outcome (passed res) first) in
       let* rows := select (fun s =>
         List.filter (fun x => Nat.eqb (as_version_id x) (activity_version_id r)) (activity_skills s)) in
       record_skills id r primary adjust (finalScore res) rows ;; k) s = s' ->
  forall b, fst s' = inr b -> exists s1, core s1 = core s /\ run k s1 = s'.
Proof.
  intros E b Hb. destruct s' as [o s']. cbn in Hb. subst o.
  apply run_bind_inv in E as (? & s5 & E5 & E). assert (C5 : core s5 = core s)
    by (refine (keeps_run core _ _ _ _ _ E5); now apply append_preserves).
  apply run_bind_inv in E as (? & s6 & E6 & E). assert (C6 : core s6 = core s5).
  { refine (keeps_run core _ _ _ _ _ E6). apply grade_artifacts_preserves; [apply _ |]. intros key.
    eapply preserves_weaken; [exact frame_core | apply grade_frame]. }
  rewrite run_bind, run_select in E.
  apply run_bind_inv in E as (? & s7 & E7 & E). assert (C7 : core s7 = core s6)
    by (refine (keeps_run core _ _ _ _ _ E7); now apply play_match_keeps).
  rewrite run_bind, run_select in E.
  apply run_bind_inv in E as (? & s8 & E8 & E). assert (C8 : core s8 = core s7)
    by (refine (keeps_run core _ _ _ _ _ E8); now apply record_skills_keeps).
  exists s8. split; [congruence | exact E].
Qed.

Lemma run_conclude id s0 s r spec prof first res sc p s' :
  attempts s0 !! id = Some r -> core s = core s0 ->
  run (conclude id r spec prof first res) s = (inr (sc, p), s') ->
  sc = finalScore res /\ p = passed res /\ evaluated id r sc p s0 s'.
Proof.
  intros L C E. unfold conclude in E. apply run_bind_inv in E as ([] & s4 & E4 & E).
  apply run_insert_score in E4 as (q & row & Nq & -> & W1 & W2 & W3).
  destruct (run_side_effects _ _ _ _ _ _ _ _ _ E _ eq_refl) as (s8 & C8 & E'). clear E.
  unfold core in C8, C. cbn in C8. injection C as C1 C2 C3 C4. rewrite C1, C2, C3, C4 in C8.
  clear C1 C2 C3 C4. injection C8 as C1 C2 C3 C4.
  apply run_bind_inv in E' as (r' & s9 & E9 & E).
  apply run_transition_inv in E9 as (r0 & L0 & V0 & R' & ->). rewrite C1, L in L0. injection L0 as <-.
  rewrite run_bind, run_select in E. apply run_bind_inv in E as ([] & s10 & E10 & E).
  apply run_upsert in E10 as (q' & l & Nq' & -> & U1 & U2 & U3 & U4 & U5 & U6).
  rewrite Nq in Nq'. injection Nq' as <-.
  apply run_bind_inv in E as (? & s11 & E11 & E). rewrite run_ret in E. injection E as <- <- <-.
  cbn [now activity_states set_field] in U2, U3, U4. rewrite C3 in U3. rewrite C4 in U2, U4.
  assert (K : attempts s11 = <[id := r']> (attempts s0) /\ scores s11 = scores s0 ++ [row] /\
    activity_states s11 !! (user_id r, activity_id r) = Some l).
  { destruct (passed res); cbn [when] in E11; [|rewrite run_ret in E11; injection E11 as _ <-].
    - pose proof (keeps_run attempts _ _ _ _ (clear_keeps attempts _ _ ltac:(easy)) E11) as K1.
      pose proof (keeps_run scores _ _ _ _ (clear_keeps scores _ _ ltac:(easy)) E11) as K2.
      apply clear_own in E11. rewrite K1, K2, E11. cbn [attempts scores activity_states set_field].
      rewrite C1, C2, lookup_insert_eq. easy.
    - cbn [attempts scores activity_states set_field]. rewrite C1, C2, lookup_insert_eq. easy. }
  destruct K as (K1 & K2 & K3). split; [easy |]. split; [easy |]. split.
  - exists r'. split; [exact K1 |]. rewrite R'. cbn. rewrite C4. now destruct (passed res).
  - exists q, row. split_and!; try easy. exists l. split; [exact K3 |].
    unfold activity_state_after. split_and!; try easy; rewrite U2; now destruct (passed res).
Qed.

Lemma run_evaluate id s r sc p s' : attempts s !! id = Some r -> run (evaluate id) s = (inr (sc, p), s') ->
  status r ∈ [EVALUATING; SUBMITTED] /\ 0 <= sc <= 1 /\ p = (lit (7 # 10) <=? sc) /\ evaluated id r sc p s s'.
Proof.
  intros L. unfold evaluate. intros E. rewrite run_bind, run_select_or_throw, L in E.
  destruct (includes [EVALUATING; SUBMITTED] (status r)) eqn:St; cbn [negb] in E; [|easy].
  apply includes_spec in St. split; [exact St |].
  apply run_bind_inv in E as (av & s1 & E1 & E). rewrite run_select_or_throw in E1.
  destruct (versions s !! _); [|easy]. injection E1 as -> <-. cbv zeta in E.
  apply run_bind_inv in E as (ms & s2 & E2 & E). assert (C2 : core s2 = core s).
  { refine (keeps_run core _ _ _ _ _ E2). eapply preserves_weaken; [exact frame_core | apply run_validators_frame]. }
  apply run_bind_inv in E as (n & s3 & E3 & E). assert (C3 : core s3 = core s2)
    by (refine (keeps_run core _ _ _ _ _ E3); now apply rebuild_keeps).
  do 3 (rewrite run_bind in E; unfold replay in E; rewrite run_select in E).
  destruct (score _ _ _) as [e|res] eqn:Sc; [easy |].
  apply run_conclude with (s0 := s) in E as (-> & -> & E); [|exact L | congruence].
  split; [exact (score_unit _ _ _ _ Sc) |]. split; [|exact E].
  rewrite (score_passed_rule _ _ _ _ Sc). f_equal. apply profile_threshold.
Qed.
End EvaluateRuns.

(** C3: An evaluation that returns (score, passed) found the attempt SUBMITTED or
    EVALUATING; the score lies in [0, 1] and passes exactly from 0.7 on; the
    attempt, and no other, moved one version on to PASSED or FAILED accordingly;
    exactly one score row was appended, for this attempt with that verdict; and
    the learner's state on the activity has the verdict, one more attempt, a best
    score not below this one, no cooldown after a pass and the retry cooldown
    after a failure. *)
Theorem evaluation_closes `{Rounding} `{MathPow} `{Executor} `{ArtifactGrading} `{FaultPaths} id s r sc p s' :
  attempts s !! id = Some r -> run (evaluate id) s = (inr (sc, p), s') ->
  status r ∈ [EVALUATING; SUBMITTED] /\ 0 <= sc <= 1 /\ p = (lit (7 # 10) <=? sc) /\ evaluated id r sc p s s'.
Proof. apply run_evaluate. Qed.

(** Evaluating an attempt in any other status is refused before anything is
    run or written. *)
Theorem evaluation_guard `{Rounding} `{MathPow} `{Executor} `{ArtifactGrading} `{FaultPaths} id s r :
  attempts s !! id = Some r -> status r ∉ [EVALUATING; SUBMITTED] ->
  run (evaluate id) s = (inl (JsError "expected SUBMITTED/EVALUATING"), s).
Proof.
  intros L N. unfold evaluate. rewrite run_bind, run_select_or_throw, L.
  destruct (includes [EVALUATING; SUBMITTED] (status r)) eqn:E; [|reflexivity].
  now apply includes_spec in E.
Qed.

(** ** A concrete lab *)
Module Lab.
Definition environment : EnvironmentSpec := mkEnvironmentSpec (Some SHARED_CONTAINER) (Some 60%Z) None (Some ["fx.k3s-ready.v2"%string]).
Definition task : TaskSpec := mkTaskSpec "t1" None None true [mkValidatorSpec "v1" "HTTP" 1 None None None (JObj []) None]
  (Some [mkHintSpec 1 (1 # 100) "look at the logs"; mkHintSpec 2 (3 # 100) "look at the pod"]).
Definition spec : ActivitySpec := mkActivitySpec None None (Some [task]) (Some environment) None None None None None None.
Definition activity_version : ActivityVersion :=
  mkActivityVersion 3 1 V_PUBLISHED spec (Some "bp"%string) None None (Some 1200) (Some 30%Z) None None None.
Definition attempt (st : AttemptStatus) (v : nat) : Attempt :=
  mkAttempt 1 7 3 4 GUIDED_LAB st None 0 [] (Some "env-1"%string) None 0 (Some 0%Z) (Some 600000%Z) None None 0 0 0 v None None.
(** One published lab (version 4 of activity 3), one skill (1), one attempt (9)
    of learner 7. *)
Definition store (st : AttemptStatus) (v : nat) : Store :=
  empty_store <| now := 1000000%Z |> <| versions := {[ 4%nat := activity_version ]} |>
    <| skills := {[ 1%nat := mkSkill "pods" "Pods" "core" None "active" 1 1 "devops-with-ai" (15 # 100) (25 # 100) (1 # 10) (8 # 100) 180 ]} |>
    <| activity_skills := [mkActivitySkill 4 1 1 true None] |>
    <| attempts := {[ 9%nat := attempt st v ]} |>.

(** Executors and graders that always answer, and no fault files. *)
Definition passing : Executor := {| executor_execute _ _ _ v := Some (mkValidatorResult (vs_id v) PASS None None) |}.
Definition failing : Executor := {| executor_execute _ _ _ v := Some (mkValidatorResult (vs_id v) FAIL None None) |}.
Definition grader : AiGrading :=
  {| getRubric id := Some (mkRubric id 1 "INCIDENT_NOTE" [] [] "ALWAYS_PROVISIONAL_UNTIL_CALIBRATED");
     grader_grade r _ := inr (mkGradingResult (rb_id r) [] true None) |}.
Definition no_faults : FaultPaths := {| getCanonicalDiagnosticPath _ := [] |}.
Definition evaluation (e : Executor) : Id -> prog Store (Q * bool) :=
  @evaluate binary64 step_pow e (@artifact_service grader) no_faults.

Lemma only_attempt st v id r : attempts (store st v) !! id = Some r -> id = 9%nat /\ r = attempt st v.
Proof.
  change (attempts (store st v)) with ({[ 9%nat := attempt st v ]} : gmap Id Attempt).
  intros L. apply lookup_singleton_Some in L as [<- <-]. easy.
Qed.
End Lab.

Lemma evaluation_closes_witness :
  exists s' sc p, run (Lab.evaluation Lab.passing 9) (Lab.store SUBMITTED 4) = (inr (sc, p), s') /\ p = true /\
    exists r', attempts s' = <[9%nat := r']> (attempts (Lab.store SUBMITTED 4)) /\ status r' = PASSED.
Proof.
  destruct (run (Lab.evaluation Lab.passing 9) (Lab.store SUBMITTED 4)) as [[e|[sc p]] s'] eqn:E;
    [exfalso; apply (f_equal fst) in E; revert E; vm_compute; discriminate |].
  exists s', sc, p. split; [reflexivity |].
  assert (P : p = true) by (apply (f_equal fst) in E; revert E; vm_compute; now intros [= _ <-]).
  destruct (@evaluation_closes binary64 step_pow Lab.passing (@artifact_service Lab.grader) Lab.no_faults 9
    (Lab.store SUBMITTED 4) (Lab.attempt SUBMITTED 4) sc p s' eq_refl E) as (_ & _ & _ & (r' & A & S & _) & _).
  split; [exact P |]. exists r'. split; [exact A |]. now rewrite S, P.
Defined.

Lemma evaluation_guard_witness :
  run (Lab.evaluation Lab.passing 9) (Lab.store PASSED 5) =
  (inl (JsError "expected SUBMITTED/EVALUATING"), Lab.store PASSED 5).
Proof.
  apply (@evaluation_guard binary64 step_pow Lab.passing (@artifact_service Lab.grader) Lab.no_faults 9 _ (Lab.attempt PASSED 5));
    [reflexivity |]. intros I. cbn in I. repeat (apply elem_of_cons in I as [I|I]; [discriminate |]). now apply elem_of_nil in I.
Defined.
