(* ===== verification/WorkspaceFiles.v ===== *)
(** * The editor's files

    attempt/workspace-file.service.ts: listing, reading and writing files of
    the learner's workspace through shell commands.  The workspace pod is
    outside: what a command does to it and answers is a parameter. *)
From Stdlib Require Import Ascii.
From S2P Require Import Prelude RegExp JsNum Binary64 Effects Schema JsText JsonParse JsonLaws AttemptStatus EventStore AttemptRepository Criteria ValidatorRunner ShellValidators ExecutorBackends Evaluation.
Open Scope Z_scope.

(** ** base64, of bytes *)
Definition base64_alphabet : chars := explode "ABCDEFGHIJKLMNOPQRSTUVWXYZabcdefghijklmnopqrstuvwxyz0123456789+/".
Definition base64_digit (n : N) : ascii := default "="%char (base64_alphabet !! N.to_nat n).
(** The decoder also knows the digits of the URL alphabet. *)
Definition base64_value (c : ascii) : option N :=
  if between "A" "Z" c then Some (code c - 65)%N
  else if between "a" "z" c then Some (code c - 71)%N
  else if between "0" "9" c then Some (code c + 4)%N
  else if (c =? "+")%char || (c =? "-")%char then Some 62%N
  else if (c =? "/")%char || (c =? "_")%char then Some 63%N else None.

Fixpoint base64_encode (l : chars) : chars :=
  match l with
  | a :: b :: c :: l =>
      let '(a, b, c) := (code a, code b, code c) in
      base64_digit (a / 4) :: base64_digit ((a mod 4) * 16 + b / 16) ::
      base64_digit ((b mod 16) * 4 + c / 64) :: base64_digit (c mod 64) :: base64_encode l
  | [a; b] =>
      let '(a, b) := (code a, code b) in
      [base64_digit (a / 4); base64_digit ((a mod 4) * 16 + b / 16); base64_digit ((b mod 16) * 4); "="%char]
  | [a] => [base64_digit (code a / 4); base64_digit ((code a mod 4) * 16); "="; "="]%char
  | [] => []
  end%N.

(** [Buffer.from(text, 'base64')]: up to the first padding, other characters
    are skipped. *)
Fixpoint base64_digits (l : chars) : list N :=
  match l with
  | [] => []
  | c :: l => if (c =? "=")%char then [] else
      match base64_value c with Some n => n :: base64_digits l | None => base64_digits l end
  end.
Fixpoint base64_bytes (l : list N) : chars :=
  match l with
  | a :: b :: c :: d :: l =>
      ascii_of_N (a * 4 + b / 16) :: ascii_of_N ((b mod 16) * 16 + c / 4) :: ascii_of_N ((c mod 4) * 64 + d) :: base64_bytes l
  | [a; b; c] => [ascii_of_N (a * 4 + b / 16); ascii_of_N ((b mod 16) * 16 + c / 4)]
  | [a; b] => [ascii_of_N (a * 4 + b / 16)]
  | _ => []
  end%N.
Definition base64_decode (l : chars) : chars := base64_bytes (base64_digits l).

(** ** Paths *)

Definition homeDir : string := "/home/ubuntu".
Definition path_segments (relativePath : string) : list string :=
  List.filter (fun s => negb (String.eqb s "") && negb (String.eqb s ".")) (split_on "/" relativePath).
Definition resolveRelativePath (relativePath : string) : option string :=
  let segments := path_segments relativePath in
  if existsb (String.eqb "..") segments then None else Some (String.concat "/" (homeDir :: segments)).

(** ** The service *)
Inductive FileKind := DirEntry | FileEntry.
Record WorkspaceFileEntry := mkWorkspaceFileEntry { we_path : string; we_type : FileKind }.

Definition WORKSPACE_FILE_OP_MS : Z := 10000.
Definition list_command (dir : string) : string :=
  ("find " ++ dquoted dir ++ " -mindepth 1 -maxdepth 1 \( -type d -printf '%f/\n' -o -type f -printf '%f\n' \) 2>/dev/null | sort")%string.
Definition read_command (path : string) : string := ("base64 " ++ dquoted path ++ " 2>&1")%string.
Definition write_command (path encoded : string) : string :=
  ("mkdir -p " ++ dquoted ("$(dirname " ++ dquoted path ++ ")") ++ " && echo '" ++ encoded ++ "' | base64 -d > " ++ dquoted path)%string.

Definition strip_newlines (s : string) : string := implode (List.filter (fun c => negb (c =? "010")%char) (explode s)).
(** [relativeDir && relativeDir !== '.']. *)
Definition below_dir (relativeDir : string) : bool := negb (String.eqb relativeDir "") && negb (String.eqb relativeDir ".").
Definition list_entry (relativeDir line : string) : WorkspaceFileEntry :=
  let isDir := String.eqb (implode (take 1 (rev (explode line)))) "/" in
  let name := if isDir then implode (removelast (explode line)) else line in
  mkWorkspaceFileEntry
    (if below_dir relativeDir then (relativeDir ++ "/" ++ name)%string else name)
    (if isDir then DirEntry else FileEntry).

(** The answer of OrchestratorClient.execShell, and what it does to the pod. *)
Record ExecShellResult := mkExecShellResult {
  er_exitCode : Z; er_stdout : string; er_stderr : string; er_errorMessage : option string }.
Class WorkspacePod (Pod : Type) := { pod_exec : Pod -> ExecShellRequest -> exn + (ExecShellResult * Pod) }.
Record Editor (Pod : Type) := mkEditor { ed_store : Store; ed_pod : Pod }.
Arguments mkEditor {Pod} ed_store ed_pod.
Arguments ed_store {Pod} e.
Arguments ed_pod {Pod} e.

Section WorkspaceFileService.
Context {Pod : Type} `{WorkspacePod Pod}.

Definition environmentIdFor (attemptId : Id) : prog (Editor Pod) string :=
  let* row := select (fun e => attempts (ed_store e) !! attemptId) in
  let* attempt := findOrThrow row in
  match truthy (environment_id attempt) with
  | Some env => Ret env
  | None => Throw (BadRequestException "attempt has no environment")
  end.
Definition execShell (environmentId command : string) (attemptId : Id) : prog (Editor Pod) ExecShellResult :=
  act (fun e => match pod_exec (ed_pod e) (mkExecShellRequest environmentId command WORKSPACE_FILE_OP_MS attemptId) with
                | inl x => inl x
                | inr (r, pod) => inr (r, mkEditor (ed_store e) pod)
                end).
Definition resolve_or_throw (relativePath : string) : prog (Editor Pod) string :=
  match resolveRelativePath relativePath with Some path => Ret path | None => Throw (BadRequestException "invalid path") end.
(** [if (result.errorMessage) throw ...]. *)
Definition throw_error (what : string) (result : ExecShellResult) : prog (Editor Pod) unit :=
  match truthy (er_errorMessage result) with Some _ => Throw (BadRequestException what) | None => Ret tt end.

Definition list_files (attemptId : Id) (relativeDir : string) : prog (Editor Pod) (list WorkspaceFileEntry) :=
  let* env := environmentIdFor attemptId in
  let* dir := resolve_or_throw (or_text relativeDir ".") in
  let* result := execShell env (list_command dir) attemptId in
  throw_error "listing" result ;;
  Ret (if er_exitCode result =? 0
       then list_entry relativeDir <$> List.filter (fun l => negb (String.eqb l "")) (split_on "010" (er_stdout result))
       else []).
Definition read_file (attemptId : Id) (relativePath : string) : prog (Editor Pod) string :=
  let* env := environmentIdFor attemptId in
  let* path := resolve_or_throw relativePath in
  let* result := execShell env (read_command path) attemptId in
  throw_error "reading" result ;;
  if er_exitCode result =? 0 then Ret (implode (base64_decode (explode (strip_newlines (er_stdout result)))))
  else Throw (BadRequestException "not found or not readable").
Definition write_file (attemptId : Id) (relativePath content : string) : prog (Editor Pod) unit :=
  let* env := environmentIdFor attemptId in
  let* path := resolve_or_throw relativePath in
  let* result := execShell env (write_command path (implode (base64_encode (explode content)))) attemptId in
  throw_error "writing" result ;;
  if er_exitCode result =? 0 then Ret tt else Throw (BadRequestException "writing").
End WorkspaceFileService.

(** ** base64: what is encoded is decoded *)
Lemma digit_value n : (n < 64)%N -> base64_value (base64_digit n) = Some n /\ (base64_digit n =? "=")%char = false.
Proof.
  assert (T : forallb (fun k => match base64_value (base64_digit (N.of_nat k)) with
    | Some m => N.eqb m (N.of_nat k) && negb (base64_digit (N.of_nat k) =? "=")%char | None => false end) (List.seq 0 64) = true) by (vm_compute; reflexivity).
  intros L. rewrite forallb_forall in T. specialize (T (N.to_nat n)). rewrite N2Nat.id in T.
  assert (I : In (N.to_nat n) (List.seq 0 64)) by (apply in_seq; lia). specialize (T I).
  destruct (base64_value (base64_digit n)) as [m|]; [|discriminate]. apply andb_true_iff in T as [E P].
  apply N.eqb_eq in E as ->. now apply negb_true_iff in P.
Qed.
Lemma digits_cons n l : (n < 64)%N -> base64_digits (base64_digit n :: l) = n :: base64_digits l.
Proof. intros L. destruct (digit_value n L) as [V P]. cbn [base64_digits]. now rewrite P, V. Qed.
Lemma code_bound c : (code c < 256)%N.
Proof. apply N_ascii_bounded. Qed.
Lemma byte_of n c : n = code c -> ascii_of_N n = c.
Proof. intros ->. apply ascii_N_embedding. Qed.
Ltac packed := Zify.zify; Z.to_euclidean_division_equations; lia.

Lemma base64_decode_encode l : base64_decode (base64_encode l) = l.
Proof.
  unfold base64_decode. remember (List.length l) as n eqn:N. revert l N.
  induction n as [n IH] using lt_wf_ind. intros [|a [|b [|c l]]] N; cbn [base64_encode]; [reflexivity | | |].
  - pose proof (code_bound a). rewrite !digits_cons by packed. cbn. f_equal. apply byte_of. packed.
  - pose proof (code_bound a). pose proof (code_bound b). rewrite !digits_cons by packed. cbn.
    f_equal; [apply byte_of; packed |]. f_equal. apply byte_of. packed.
  - pose proof (code_bound a). pose proof (code_bound b). pose proof (code_bound c).
    rewrite !digits_cons by packed. cbn [base64_bytes]. rewrite (IH (List.length l)) by (cbn in N; lia || reflexivity).
    f_equal; [apply byte_of; packed |]. f_equal; [apply byte_of; packed |]. f_equal. apply byte_of. packed.
Qed.

(** Its text has no newline, so the lines [base64] breaks it into are joined again. *)
Lemma base64_digit_plain n : (base64_digit n =? "010")%char = false.
Proof.
  unfold base64_digit. destruct (base64_alphabet !! N.to_nat n) as [c|] eqn:E; [|reflexivity].
  assert (T : forallb (fun c => negb (c =? "010")%char) base64_alphabet = true) by reflexivity.
  rewrite forallb_forall in T. specialize (T c). rewrite negb_true_iff in T. apply T.
  apply list_elem_of_lookup_2 in E. now apply list_elem_of_In.
Qed.
Lemma base64_plain l : List.filter (fun c => negb (c =? "010")%char) (base64_encode l) = base64_encode l.
Proof.
  remember (List.length l) as n eqn:N. revert l N. induction n as [n IH] using lt_wf_ind.
  intros [|a [|b [|c l]]] N; cbn [base64_encode List.filter]; rewrite ?base64_digit_plain; try reflexivity.
  cbn [negb]. now rewrite (IH (List.length l)) by (cbn in N; lia || reflexivity).
Qed.

(** ** Paths stay below the home directory *)
Definition plain_segment (s : string) : Prop := s <> EmptyString /\ s <> "."%string /\ s <> ".."%string.
Lemma normalise_plain l : forall done, Forall plain_segment l -> fold_left step_segment l done = done ++ l.
Proof.
  induction l as [|s l IH]; intros done F; cbn; [now rewrite app_nil_r|]. inversion_clear F as [|? ? [A [B C]] Fl].
  unfold step_segment at 2. rewrite (proj2 (String.eqb_neq _ _) A), (proj2 (String.eqb_neq _ _) B), (proj2 (String.eqb_neq _ _) C).
  cbn [orb]. rewrite IH by exact Fl. now rewrite <- app_assoc.
Qed.
Lemma path_segments_spec p s : In s (path_segments p) <-> In s (split_on "/" p) /\ s <> EmptyString /\ s <> "."%string.
Proof.
  unfold path_segments. rewrite filter_In, andb_true_iff, !negb_true_iff, !String.eqb_neq. tauto.
Qed.
Lemma climbs_spec p : existsb (String.eqb "..") (path_segments p) = true <-> In ".."%string (path_segments p).
Proof.
  rewrite existsb_exists. split; [intros (s & I & E); apply String.eqb_eq in E as <-; exact I | intros I; exists ".."%string; auto].
Qed.
Lemma home_prefix l : String.concat "/" (homeDir :: l) = String.concat "/" (EmptyString :: "home"%string :: "ubuntu"%string :: l).
Proof. now destruct l. Qed.

(** ResolveRelativePath refuses a path exactly when one of its segments is
    ".."; a path it accepts (also an absolute one) names, once the dots and
    empty segments are gone, the segments of the given path below
    /home/ubuntu and nothing else, so no accepted path resolves outside the
    home directory. *)
Theorem file_path_confined p :
  match resolveRelativePath p with
  | Some q => normalise (split_on "/" q) = ["home"; "ubuntu"]%string ++ path_segments p /\
      ~ In ".."%string (path_segments p)
  | None => In ".."%string (path_segments p)
  end.
Proof.
  unfold resolveRelativePath. destruct (existsb _ _) eqn:E; [now apply climbs_spec|].
  assert (N : ~ In ".."%string (path_segments p)) by (intros I; apply climbs_spec in I; congruence).
  split; [|exact N]. pose proof (split_on_free "/" p) as F. rewrite List.Forall_forall in F.
  rewrite home_prefix, split_on_concat; [|easy|].
  - unfold normalise. change (fold_left step_segment (_ :: _ :: _ :: path_segments p) [])
      with (fold_left step_segment (path_segments p) ["home"; "ubuntu"]%string).
    apply normalise_plain, List.Forall_forall. intros s I. pose proof (proj1 (path_segments_spec p s) I) as (_ & A & B).
    repeat split; auto. now intros ->.
  - repeat constructor; try (cbn; unfold free_of; cbn; intuition discriminate).
    apply List.Forall_forall. intros s I. now apply F, (path_segments_spec p s).
Qed.

(** The path is put between double quotes as it is, where the shell still
    substitutes commands: a name of the form $(t) runs [t] in the pod. *)
Lemma path_substituted t : free_of "/" t ->
  resolveRelativePath ("$(" ++ t ++ ")") = Some ("/home/ubuntu/$(" ++ t ++ ")")%string.
Proof.
  intros F. assert (G : free_of "/" ("$(" ++ t ++ ")")).
  { unfold free_of in *. rewrite !explode_app. intros I. apply in_app_iff in I as [I|I]; [cbn in I; intuition discriminate|].
    apply in_app_iff in I as [I|I]; [now apply F|cbn in I; intuition discriminate]. }
  unfold resolveRelativePath, path_segments. now rewrite (proj2 (split_on_app "/" _ EmptyString G)).
Qed.

(** ** Writing and reading back *)
Section RoundTrip.
Context {Pod : Type} `{WorkspacePod Pod}.

Lemma run_environment id env (e : Editor Pod) a : attempts (ed_store e) !! id = Some a -> truthy (environment_id a) = Some env ->
  run (environmentIdFor (Pod := Pod) id) e = (inr env, e).
Proof. intros A E. unfold environmentIdFor. rewrite run_bind, run_select, A. cbn [findOrThrow bind]. now rewrite E. Qed.

(** A call that reaches the pod: attempt with an environment, accepted path. *)
Definition editable (id : Id) (env relativePath path : string) (e : Editor Pod) : Prop :=
  resolveRelativePath relativePath = Some path /\
  exists a, attempts (ed_store e) !! id = Some a /\ truthy (environment_id a) = Some env.

Lemma run_write id env rel path text e r pod : editable id env rel path e ->
  pod_exec (ed_pod e) (mkExecShellRequest env (write_command path (implode (base64_encode (explode text)))) WORKSPACE_FILE_OP_MS id)
    = inr (r, pod) ->
  run (write_file id rel text) e =
    (match truthy (er_errorMessage r) with
     | Some _ => inl (BadRequestException "writing")
     | None => if er_exitCode r =? 0 then inr tt else inl (BadRequestException "writing")
     end, mkEditor (ed_store e) pod).
Proof.
  intros (P & a & A & E) X. unfold write_file. rewrite run_bind, (run_environment id env e a A E), run_bind.
  unfold resolve_or_throw. rewrite P. cbn [run]. rewrite run_bind. unfold execShell, act. cbn [run]. rewrite X. cbn [run].
  rewrite run_bind. unfold throw_error. destruct (truthy (er_errorMessage r)); [reflexivity|]. cbn [run]. now destruct (_ =? _).
Qed.
Lemma run_read id env rel path e r pod : editable id env rel path e ->
  pod_exec (ed_pod e) (mkExecShellRequest env (read_command path) WORKSPACE_FILE_OP_MS id) = inr (r, pod) ->
  run (read_file id rel) e =
    (match truthy (er_errorMessage r) with
     | Some _ => inl (BadRequestException "reading")
     | None => if er_exitCode r =? 0 then inr (implode (base64_decode (explode (strip_newlines (er_stdout r)))))
               else inl (BadRequestException "not found or not readable")
     end, mkEditor (ed_store e) pod).
Proof.
  intros (P & a & A & E) X. unfold read_file. rewrite run_bind, (run_environment id env e a A E), run_bind.
  unfold resolve_or_throw. rewrite P. cbn [run]. rewrite run_bind. unfold execShell, act. cbn [run]. rewrite X. cbn [run].
  rewrite run_bind. unfold throw_error. destruct (truthy (er_errorMessage r)); [reflexivity|]. cbn [run]. now destruct (_ =? _).
Qed.

(** What the two commands do to the file at [path] of the pod, when they end
    with exit code 0: [base64 -d] leaves the decoded text, [base64] prints the
    file encoded, broken into lines. *)
Definition base64_tools (file_of : Pod -> string -> option string) (path text : string) : Prop :=
  let encoded := implode (base64_encode (explode text)) in
  (forall pod env id r pod', pod_exec pod (mkExecShellRequest env (write_command path encoded) WORKSPACE_FILE_OP_MS id) = inr (r, pod') ->
     er_exitCode r = 0 -> file_of pod' path = Some (implode (base64_decode (explode encoded)))) /\
  (forall pod env id content, file_of pod path = Some content -> exists printed,
     pod_exec pod (mkExecShellRequest env (read_command path) WORKSPACE_FILE_OP_MS id)
       = inr (mkExecShellResult 0 printed EmptyString None, pod) /\
     strip_newlines printed = implode (base64_encode (explode content))).

(** C32: a file the editor wrote reads back as written: when the write
    succeeded, reading the same path of the same attempt afterwards returns
    exactly the text, whatever characters and quotes it contains, and changes
    nothing.  Of the pod it is assumed that [base64 -d] and [base64] do to that
    path what they are documented to do. *)
Theorem write_then_read file_of id env rel path text (e e' : Editor Pod) :
  base64_tools file_of path text -> editable id env rel path e ->
  run (write_file id rel text) e = (inr tt, e') ->
  run (read_file id rel) e' = (inr text, e') /\ ed_store e' = ed_store e.
Proof.
  intros [TW TR] D W.
  destruct (pod_exec (ed_pod e) (mkExecShellRequest env (write_command path (implode (base64_encode (explode text)))) WORKSPACE_FILE_OP_MS id))
    as [x|[r pod]] eqn:X.
  { destruct D as (P & a & A & E). unfold write_file in W. rewrite run_bind, (run_environment id env e a A E), run_bind in W.
    unfold resolve_or_throw in W. rewrite P in W. cbn [run] in W. rewrite run_bind in W. unfold execShell, act in W. cbn [run] in W.
    rewrite X in W. discriminate. }
  rewrite (run_write id env rel path text e r pod D X) in W.
  destruct (truthy (er_errorMessage r)); [discriminate|]. destruct (er_exitCode r =? 0) eqn:Z0; [|discriminate].
  injection W as <-. apply Z.eqb_eq in Z0. specialize (TW _ _ _ _ _ X Z0).
  destruct (TR pod env id _ TW) as (printed & R & S).
  assert (D' : editable id env rel path (mkEditor (ed_store e) pod)) by exact D.
  rewrite (run_read id env rel path _ _ _ D' R). cbn [er_errorMessage er_exitCode er_stdout truthy].
  rewrite S, !explode_implode, !base64_decode_encode, implode_explode. now split.
Qed.
End RoundTrip.

(** A pod with one file. *)
Definition sample_path : string := "/home/ubuntu/deploy.sh".
Definition sample_text : string := ("echo 'it''s " ++ dquoted "$x" ++ "'; exit 3")%string.
#[export] Instance one_file_pod : WorkspacePod (option string) := {|
  pod_exec := fun pod rq =>
    if String.eqb (es_command rq) (write_command sample_path (implode (base64_encode (explode sample_text))))
    then inr (mkExecShellResult 0 EmptyString EmptyString None, Some sample_text)
    else if String.eqb (es_command rq) (read_command sample_path)
    then match pod with
         | Some content => inr (mkExecShellResult 0 (implode (base64_encode (explode content)) ++ String "010" EmptyString) EmptyString None, pod)
         | None => inr (mkExecShellResult 1 EmptyString EmptyString None, pod)
         end
    else inl RemoteError |}.

Definition sample_editor : Editor (option string) := mkEditor (Lab.store IN_PROGRESS 3) None.
Lemma write_then_read_witness :
  run (write_file 9 "deploy.sh" sample_text) sample_editor = (inr tt, mkEditor (Lab.store IN_PROGRESS 3) (Some sample_text)) /\
  run (read_file 9 "deploy.sh") (mkEditor (Lab.store IN_PROGRESS 3) (Some sample_text)) =
    (inr sample_text, mkEditor (Lab.store IN_PROGRESS 3) (Some sample_text)).
Proof.
  assert (W : run (write_file 9 "deploy.sh" sample_text) sample_editor = (inr tt, mkEditor (Lab.store IN_PROGRESS 3) (Some sample_text)))
    by reflexivity.
  split; [exact W|].
  refine (proj1 (write_then_read (fun pod p => if String.eqb p sample_path then pod else None) 9 "env-1" "deploy.sh" sample_path
    sample_text sample_editor _ _ _ W)).
  - split; [intros pod env id r pod' X _; injection X as <- <-; reflexivity|].
    intros pod env id content F. destruct pod as [c|]; [|discriminate F]. injection F as <-.
    eexists. split; [reflexivity|]. unfold strip_newlines.
    rewrite explode_app, List.filter_app, explode_implode, base64_plain, app_nil_r. reflexivity.
  - split; [reflexivity|]. eexists. split; reflexivity.
Defined.
