(* ===== verification/Privacy.v ===== *)
(** * A learner's data: archive and erasure

    privacy/privacy.service.ts over the tables of the store, the accounts
    (learner.user_account) and the column attempt.attempt.erased_at.  The text
    of a uuid is a parameter.  Then what an erasure guarantees: it empties what
    a learner wrote and nothing else, and the archive tells so; and three ways
    in which it falls short: the unique mail address, handlers under way and the
    replay of the event log. *)
From stdpp Require Import sorting.
From S2P Require Import Prelude RegExp JsNum Effects Schema AttemptStatus EventStore AttemptRepository JsText JsonParse JsonLaws.
Open Scope Z_scope.

Record UserAccount := mkUserAccount {
  ua_tenant_id : Id; ua_email : string; ua_role : string; ua_status : string; ua_created_at : Z; ua_erased_at : option Z }.
Record Platform := mkPlatform {
  pf_store : Store; accounts : gmap Id UserAccount; erased_attempts : gmap Id Z }.
#[export] Instance eta_UserAccount : Eta UserAccount := fun r =>
  mkUserAccount (ua_tenant_id r) (ua_email r) (ua_role r) (ua_status r) (ua_created_at r) (ua_erased_at r).
#[export] Instance eta_Platform : Eta Platform := fun r => mkPlatform (pf_store r) (accounts r) (erased_attempts r).
(** A handler of the attempt modules touches only the store. *)
Definition on_store (f : Store -> Store) (p : Platform) : Platform := p <| pf_store ::= f |>.

(** ** exportForUser *)
Record LearnerDataExport := mkLearnerDataExport {
  ex_generated_at : Z; ex_user : Id * UserAccount; ex_attempts : list (Id * Attempt * option Z);
  ex_attempt_events : list AttemptEventRow; ex_attempt_scores : list AttemptScore; ex_artifacts : list Artifact;
  ex_skill_mastery : list (Id * SkillMastery); ex_learner_activity_state : list (Id * LearnerActivityState) }.

Definition by_created : relation (Id * Attempt * option Z) := fun a b => created_at a.1.2 <= created_at b.1.2.
#[export] Instance by_created_dec : RelDecision by_created.
Proof. intros a b. apply Z.le_dec. Defined.
Definition by_attempt_seq : relation AttemptEventRow := fun a b =>
  (ev_attempt_id a < ev_attempt_id b)%nat \/ ev_attempt_id a = ev_attempt_id b /\ (ev_seq a <= ev_seq b)%nat.
#[export] Instance by_attempt_seq_dec : RelDecision by_attempt_seq.
Proof. intros a b. unfold by_attempt_seq. apply _. Defined.

Definition owned (userId : Id) : Attempt -> bool := fun r => Nat.eqb (user_id r) userId.
Definition own_ids (userId : Id) (p : Platform) : list Id := List.map fst (where_attempts (owned userId) (pf_store p)).
Definition attempt_rows (userId : Id) (p : Platform) : list (Id * Attempt * option Z) :=
  (fun kv => (kv, erased_attempts p !! kv.1)) <$> where_attempts (owned userId) (pf_store p).
Definition among (ids : list Id) (id : Id) : bool := existsb (Nat.eqb id) ids.

(** The rows [WHERE user_id = userId] of a table keyed by user and another id. *)
Definition keyed_by {A} (userId : Id) (m : gmap (Id * Id) A) : list (Id * A) :=
  (fun kv : (Id * Id) * A => (kv.1.2, kv.2)) <$> List.filter (fun kv : (Id * Id) * A => Nat.eqb kv.1.1 userId) (map_to_list m).

(** The queries of the [Promise.all], in an order of the scheduler's choice. *)
Definition exportForUser (userId : Id) : prog Platform LearnerDataExport :=
  let* row := select (fun p => accounts p !! userId) in
  let* user := findOrThrow row in
  let* rows := select (fun p => merge_sort by_created (attempt_rows userId p)) in
  let attemptIds := (fun a : Id * Attempt * option Z => a.1.1) <$> rows in
  let* evs := select (fun p =>
    merge_sort by_attempt_seq (List.filter (fun e => among attemptIds (ev_attempt_id e)) (events (pf_store p)))) in
  let* scs := select (fun p => List.filter (fun r => among attemptIds (score_attempt_id r)) (scores (pf_store p))) in
  let* arts := select (fun p => List.filter (fun r => among attemptIds (ar_attempt_id r)) (artifacts (pf_store p))) in
  let* mast := select (fun p =>
    keyed_by userId (mastery (pf_store p))) in
  let* acts := select (fun p =>
    keyed_by userId (activity_states (pf_store p))) in
  let* clock := select (fun p => now (pf_store p)) in
  Ret (mkLearnerDataExport clock (userId, user) rows evs scs arts mast acts).

(** ** eraseForUser *)
Record ErasureResult := mkErasureResult {
  alreadyErased : bool; erasedAt : Z; attemptsAnonymised : nat; eventPayloadsRedacted : nat; artifactsRedacted : nat }.

Definition redact_event (e : AttemptEventRow) : AttemptEventRow := e <| ev_payload := JObj [] |>.
Definition redact_artifact (r : Artifact) : Artifact := r <| ar_content := None |> <| ar_storage_uri := "erased://"%string |>.
(** [UPDATE ... WHERE p], with the number of rows updated. *)
Definition update_where {A} (p : A -> bool) (f : A -> A) (l : list A) : list A := (fun x => if p x then f x else x) <$> l.
Definition updated {A} (p : A -> bool) (l : list A) : nat := List.length (List.filter p l).

Section Erasure.
Variable uuid_text : Id -> string.
Definition tombstone (userId : Id) : string :=
  ("erased-" ++ implode (take 8 (explode (uuid_text userId))) ++ "@deleted.invalid")%string.
(** UNIQUE (tenant_id, email). *)
Definition email_taken (userId : Id) (email : string) (p : Platform) : bool :=
  match accounts p !! userId with
  | None => false
  | Some u => existsb (fun kv => negb (Nat.eqb kv.1 userId) && Nat.eqb (ua_tenant_id kv.2) (ua_tenant_id u) && String.eqb (ua_email kv.2) email)
                (map_to_list (accounts p))
  end.
Definition redact_events (attemptIds : list Id) : prog Platform nat :=
  act (fun p => inr (updated (among attemptIds ∘ ev_attempt_id) (events (pf_store p)),
    on_store (fun s => s <| events ::= update_where (among attemptIds ∘ ev_attempt_id) redact_event |>) p)).
Definition redact_artifacts (attemptIds : list Id) : prog Platform nat :=
  act (fun p => inr (updated (among attemptIds ∘ ar_attempt_id) (artifacts (pf_store p)),
    on_store (fun s => s <| artifacts ::= update_where (among attemptIds ∘ ar_attempt_id) redact_artifact |>) p)).
Definition stamp_attempts (attemptIds : list Id) : prog Platform unit :=
  execute (fun p => p <| erased_attempts ::= fun m => foldr (fun id => <[id := now (pf_store p)]>) m attemptIds |>).
Definition anonymise (userId : Id) : prog Platform unit :=
  act (fun p => if email_taken userId (tombstone userId) p then inl (DbError "user_account_tenant_id_email_key")
    else inr (tt, p <| accounts ::= alter (fun u =>
      u <| ua_email := tombstone userId |> <| ua_status := "erased"%string |> <| ua_erased_at := Some (now (pf_store p)) |>) userId |>)).

Definition erase_transaction (userId : Id) : prog Platform ErasureResult :=
  let* attemptIds := select (own_ids userId) in
  let* counts := (match attemptIds with
                  | [] => Ret (0%nat, 0%nat)
                  | _ => let* n := redact_events attemptIds in
                         let* m := redact_artifacts attemptIds in
                         stamp_attempts attemptIds ;; Ret (n, m)
                  end) in
  anonymise userId ;;
  let* clock := select (fun p => now (pf_store p)) in
  Ret (mkErasureResult false clock (List.length attemptIds) counts.1 counts.2).
Definition eraseForUser (userId : Id) : prog Platform ErasureResult :=
  let* row := select (fun p => accounts p !! userId) in
  let* user := findOrThrow row in
  match ua_erased_at user with
  | Some t => Ret (mkErasureResult true t 0 0 0)
  | None => transaction (erase_transaction userId)
  end.
End Erasure.

(** ** Sorting commutes with an update that keeps the order *)
Section SortFmap.
Context {A} (R : relation A) `{!RelDecision R} (f : A -> A).
Hypothesis same : forall x y, R (f x) (f y) <-> R x y.

Lemma list_merge_fmap l1 : forall l2, list_merge R (f <$> l1) (f <$> l2) = f <$> list_merge R l1 l2.
Proof.
  induction l1 as [|x l1 IH]; intros l2; [now destruct l2|].
  induction l2 as [|y l2 IH2]; [reflexivity|]. cbn.
  destruct (decide (R x y)) as [L|L].
  - rewrite decide_True by now apply same. cbn. f_equal. apply (IH (y :: l2)).
  - rewrite decide_False by (now rewrite same). cbn. f_equal. exact IH2.
Qed.
Definition fmap_level : option (list A) -> option (list A) := fmap (M := option) (fmap (M := list) f).
Lemma merge_list_to_stack_fmap st : forall l,
  merge_list_to_stack R (fmap_level <$> st) (f <$> l) = fmap_level <$> merge_list_to_stack R st l.
Proof. induction st as [|[l'|] st IH]; intros l; cbn; [easy| |easy]. rewrite list_merge_fmap. f_equal. apply IH. Qed.
Lemma merge_stack_fmap st : merge_stack R (fmap_level <$> st) = f <$> merge_stack R st.
Proof. induction st as [|[l'|] st IH]; cbn; [easy| |easy]. now rewrite IH, list_merge_fmap. Qed.
Lemma merge_sort_fmap l : merge_sort R (f <$> l) = f <$> merge_sort R l.
Proof.
  assert (G : forall st, merge_sort_aux R (fmap_level <$> st) (f <$> l) = f <$> merge_sort_aux R st l); [|exact (G [])].
  induction l as [|x l IH]; intros st; cbn; [apply merge_stack_fmap|].
  rewrite <- IH. f_equal. apply (merge_list_to_stack_fmap st [x]).
Qed.
End SortFmap.

Lemma among_spec ids id : among ids id = true <-> In id ids.
Proof. unfold among. rewrite existsb_exists. split; [intros (x & I & E); now apply Nat.eqb_eq in E as -> | intros I; exists id; now rewrite Nat.eqb_refl]. Qed.

(** [UPDATE ... WHERE] of rows told apart by the updated column's complement. *)
Section UpdateWhere.
Context {A} (p q : A -> bool) (f : A -> A).
Hypothesis keeps : forall x, q (f x) = q x.
Lemma update_where_selected l : (forall x, q x = true -> p x = true) ->
  List.filter q (update_where p f l) = f <$> List.filter q l.
Proof.
  intros S. induction l as [|x l IH]; cbn; [easy|]. destruct (q x) eqn:Q.
  - rewrite (S x Q), keeps, Q. cbn. f_equal. exact IH.
  - destruct (p x); rewrite ?keeps, Q; exact IH.
Qed.
Lemma update_where_others l : (forall x, q x = true -> p x = false) ->
  List.filter q (update_where p f l) = List.filter q l.
Proof.
  intros S. induction l as [|x l IH]; cbn; [easy|]. destruct (q x) eqn:Q.
  - rewrite (S x Q), Q. f_equal. exact IH.
  - destruct (p x); rewrite ?keeps, Q; exact IH.
Qed.
Lemma update_where_none l : (forall x, p x = false) -> update_where p f l = l.
Proof. intros N. induction l as [|x l IH]; cbn; [easy|]. rewrite N. f_equal. exact IH. Qed.
End UpdateWhere.

(** ** What the archive holds *)
Lemma archived_ids userId p id :
  In id ((fun a : Id * Attempt * option Z => a.1.1) <$> merge_sort by_created (attempt_rows userId p)) <-> In id (own_ids userId p).
Proof.
  unfold own_ids. rewrite in_map_iff, <- list_elem_of_In, list_elem_of_fmap. unfold attempt_rows. split.
  - intros (a & -> & I). rewrite merge_sort_Permutation in I. apply list_elem_of_fmap in I as (kv & -> & I).
    exists kv. split; [easy|]. now apply list_elem_of_In.
  - intros (kv & <- & I). exists (kv, erased_attempts p !! kv.1). split; [easy|]. rewrite merge_sort_Permutation.
    apply list_elem_of_fmap. exists kv. split; [easy|]. now apply list_elem_of_In.
Qed.
Lemma own_ids_spec userId p id : In id (own_ids userId p) <-> exists r, attempts (pf_store p) !! id = Some r /\ user_id r = userId.
Proof.
  unfold own_ids, where_attempts, owned. rewrite in_map_iff. setoid_rewrite filter_In. setoid_rewrite Nat.eqb_eq.
  setoid_rewrite <- list_elem_of_In. split.
  - intros ([i r] & <- & I & E). apply elem_of_map_to_list in I. eauto.
  - intros (r & L & E). exists (id, r). split; [easy|]. split; [now apply elem_of_map_to_list | exact E].
Qed.

Definition own {A} (userId : Id) (p : Platform) (key : A -> Id) : list A -> list A :=
  List.filter (fun x => among (own_ids userId p) (key x)).
Definition archive (userId : Id) (user : UserAccount) (p : Platform) : LearnerDataExport :=
  let s := pf_store p in
  mkLearnerDataExport (now s) (userId, user) (merge_sort by_created (attempt_rows userId p))
    (merge_sort by_attempt_seq (own userId p ev_attempt_id (events s))) (own userId p score_attempt_id (scores s))
    (own userId p ar_attempt_id (artifacts s)) (keyed_by userId (mastery s)) (keyed_by userId (activity_states s)).

Lemma run_export userId p : run (exportForUser userId) p =
  match accounts p !! userId with Some user => (inr (archive userId user p), p) | None => (inl NotFoundException, p) end.
Proof.
  unfold exportForUser. run_simpl. destruct (accounts p !! userId) as [user|]; [|reflexivity]. run_simpl.
  unfold archive, own. set (ids := fmap _ (merge_sort by_created _)).
  assert (M : forall id, among ids id = among (own_ids userId p) id).
  { intros id. apply eq_true_iff_eq. rewrite !among_spec. apply archived_ids. }
  now rewrite !(List.filter_ext (fun x => among ids _) (fun x => among (own_ids userId p) _)) by (intros; apply M).
Qed.

(** ** What an erasure leaves *)
Section ErasureLaws.
Variable uuid_text : Id -> string.
Section One.
Variables (u : Id) (a : UserAccount) (p : Platform).
Hypothesis (A : accounts p !! u = Some a) (E : ua_erased_at a = None) (T : email_taken u (tombstone uuid_text u) p = false).
Let ids : list Id := own_ids u p.
Let clock : Z := now (pf_store p).

Definition anonymous : UserAccount :=
  a <| ua_email := tombstone uuid_text u |> <| ua_status := "erased"%string |> <| ua_erased_at := Some clock |>.
Definition erased : Platform :=
  mkPlatform ((pf_store p) <| events ::= update_where (among ids ∘ ev_attempt_id) redact_event |>
                         <| artifacts ::= update_where (among ids ∘ ar_attempt_id) redact_artifact |>)
    (<[u := anonymous]> (accounts p)) (foldr (fun id => <[id := clock]>) (erased_attempts p) ids).
Definition erasure_result : ErasureResult :=
  mkErasureResult false clock (List.length ids) (updated (among ids ∘ ev_attempt_id) (events (pf_store p)))
    (updated (among ids ∘ ar_attempt_id) (artifacts (pf_store p))).

Lemma run_anonymise (p' : Platform) : accounts p' = accounts p -> now (pf_store p') = clock ->
  run (anonymise uuid_text u) p' = (inr tt, p' <| accounts := <[u := anonymous]> (accounts p) |>).
Proof.
  intros P N. assert (H : forall F, alter F u (accounts p) = <[u := F a]> (accounts p)).
  { intros F. apply map_eq. intros i. destruct (decide (i = u)) as [->|D].
    - now rewrite lookup_alter_eq, lookup_insert_eq, A.
    - now rewrite lookup_alter_ne, lookup_insert_ne by congruence. }
  unfold anonymise. rewrite run_act. unfold email_taken in *. rewrite P, A in *. rewrite T, N.
  destruct p' as [s' ac er]. cbn in P. subst ac. cbn. rewrite H. reflexivity.
Qed.
Lemma redact_nothing s : s <| events ::= update_where (among [] ∘ ev_attempt_id) redact_event |>
    <| artifacts ::= update_where (among [] ∘ ar_attempt_id) redact_artifact |> = s.
Proof. destruct s. cbn -[update_where]. now rewrite !update_where_none by easy. Qed.
Lemma run_erase : run (eraseForUser uuid_text u) p = (inr erasure_result, erased).
Proof.
  unfold eraseForUser. rewrite run_bind, run_select, A. cbn [findOrThrow bind]. rewrite E, run_transaction.
  unfold erase_transaction. rewrite run_bind, run_select. fold ids. destruct ids as [|i l] eqn:I.
  - rewrite run_bind, run_ret, run_bind, (run_anonymise p eq_refl eq_refl). run_simpl.
    unfold erasure_result, erased. rewrite !I. unfold updated. cbn [among existsb foldr fst snd List.length].
    assert (Z0 : forall B (f : B -> Id) (l : list B), List.filter (among [] ∘ f) l = []) by (induction l; auto).
    rewrite !Z0, redact_nothing. reflexivity.
  - unfold redact_events, redact_artifacts, stamp_attempts, on_store. run_simpl. rewrite <- I.
    rewrite run_anonymise by reflexivity. run_simpl. reflexivity.
Qed.

Lemma stamped t l m i : foldr (fun id => <[id := t]>) m l !! i = if among l i then Some t else (m : gmap Id Z) !! i.
Proof.
  induction l as [|id l IH]; [easy|]. cbn. destruct (Nat.eqb_spec i id) as [->|N]; cbn; [apply lookup_insert_eq|].
  now rewrite lookup_insert_ne by congruence.
Qed.
Lemma rows_erased v : attempt_rows v erased =
  if Nat.eqb v u then (fun r => (r.1, Some clock)) <$> attempt_rows v p else attempt_rows v p.
Proof.
  unfold attempt_rows, erased. cbn [pf_store erased_attempts].
  change (where_attempts (owned v) _) with (where_attempts (owned v) (pf_store p)) at 1.
  assert (M : forall kv, In kv (where_attempts (owned v) (pf_store p)) -> among ids kv.1 = Nat.eqb v u).
  { intros [i r] I. apply eq_true_iff_eq. rewrite among_spec, Nat.eqb_eq. unfold ids. rewrite own_ids_spec.
    unfold where_attempts, owned in I. apply filter_In in I as [I O]. apply Nat.eqb_eq in O.
    apply list_elem_of_In, elem_of_map_to_list in I. cbn [fst snd] in *. split; [intros (r' & L & U); congruence | intros V; exists r; split; congruence]. }
  destruct (Nat.eqb v u); [rewrite <- list_fmap_compose|];
    apply list_fmap_ext; intros i kv L; apply list_elem_of_lookup_2, list_elem_of_In in L;
    cbn; rewrite stamped, (M kv L); reflexivity.
Qed.
Lemma own_disjoint v id : v <> u -> among (own_ids v p) id = true -> among ids id = false.
Proof.
  intros N I. apply not_true_is_false. intros J. rewrite among_spec in I, J. unfold ids in J.
  rewrite own_ids_spec in I, J. destruct I as (r & L & <-), J as (r' & L' & E'). congruence.
Qed.

(** The archive of the erased learner, and those of the others. *)
Lemma archive_own : archive u anonymous erased = mkLearnerDataExport clock (u, anonymous)
  ((fun r => (r.1, Some clock)) <$> ex_attempts (archive u a p))
  (redact_event <$> ex_attempt_events (archive u a p)) (ex_attempt_scores (archive u a p))
  (redact_artifact <$> ex_artifacts (archive u a p))
  (ex_skill_mastery (archive u a p)) (ex_learner_activity_state (archive u a p)).
Proof.
  unfold archive. rewrite rows_erased, Nat.eqb_refl.
  cbn [ex_attempts ex_attempt_events ex_attempt_scores ex_artifacts ex_skill_mastery ex_learner_activity_state].
  f_equal.
  - now apply merge_sort_fmap.
  - rewrite <- merge_sort_fmap by reflexivity. f_equal. now apply update_where_selected.
  - now apply update_where_selected.
Qed.
Lemma archive_other v b : v <> u -> archive v b erased = archive v b p.
Proof.
  intros N. unfold archive. rewrite rows_erased, (proj2 (Nat.eqb_neq v u) N). f_equal.
  - f_equal. apply update_where_others; [reflexivity | intros x; now apply own_disjoint].
  - apply update_where_others; [reflexivity | intros x; now apply own_disjoint].
Qed.
Lemma updated_length {B} (key : B -> Id) l : updated (among ids ∘ key) l = List.length (own u p key l).
Proof. reflexivity. Qed.
End One.
End ErasureLaws.

(** ** Theorems *)

(** C29: an erasure ends with every event payload of the learner emptied, every
    artifact body gone, every attempt stamped and the account anonymised, and
    counts them; the envelopes of the events, the attempts, the scores, the
    mastery and the activity states are the archive's as before; the archive of
    every other learner is unchanged; and erasing again changes nothing and
    reports zero. *)
Theorem erasure_spec uuid_text u a p : accounts p !! u = Some a -> ua_erased_at a = None ->
  email_taken u (tombstone uuid_text u) p = false ->
  exists r p' x x', run (eraseForUser uuid_text u) p = (inr r, p') /\
    run (exportForUser u) p = (inr x, p) /\ run (exportForUser u) p' = (inr x', p') /\
    ex_attempt_events x' = redact_event <$> ex_attempt_events x /\ ex_artifacts x' = redact_artifact <$> ex_artifacts x /\
    ex_attempts x' = (fun row => (row.1, Some (now (pf_store p)))) <$> ex_attempts x /\
    ex_attempt_scores x' = ex_attempt_scores x /\ ex_skill_mastery x' = ex_skill_mastery x /\
    ex_learner_activity_state x' = ex_learner_activity_state x /\ ua_email (snd (ex_user x')) = tombstone uuid_text u /\
    attemptsAnonymised r = List.length (ex_attempts x) /\ eventPayloadsRedacted r = List.length (ex_attempt_events x) /\
    artifactsRedacted r = List.length (ex_artifacts x) /\
    (forall v, v <> u -> fst (run (exportForUser v) p') = fst (run (exportForUser v) p)) /\
    run (eraseForUser uuid_text u) p' = (inr (mkErasureResult true (now (pf_store p)) 0 0 0), p').
Proof.
  intros A E T. eexists _, _, _, _. split; [exact (run_erase uuid_text u a p A E T)|].
  rewrite !run_export, A. split; [reflexivity|].
  assert (A' : accounts (erased uuid_text u a p) !! u = Some (anonymous uuid_text u a p)) by apply lookup_insert_eq.
  rewrite A', archive_own. split; [reflexivity|]. cbn [ex_attempt_events ex_artifacts ex_attempts ex_attempt_scores
    ex_skill_mastery ex_learner_activity_state ex_user snd].
  do 7 (split; [reflexivity|]). unfold archive. cbn [ex_attempts ex_attempt_events ex_artifacts].
  rewrite !(Permutation_length (merge_sort_Permutation _ _)). unfold attempt_rows, own_ids.
  split; [cbn [attemptsAnonymised erasure_result]; unfold own_ids; now rewrite length_map, length_fmap|]. do 2 (split; [reflexivity|]). split.
  - intros v N. rewrite !run_export. cbn [accounts erased]. rewrite lookup_insert_ne by congruence.
    destruct (accounts p !! v) as [b|]; [|reflexivity]. cbn [fst]. now rewrite archive_other.
  - unfold eraseForUser. rewrite run_bind, run_select, A'. reflexivity.
Qed.

(** A learner with one attempt, an event and a note, and another account. *)
Module Learners.
Definition hex_text (id : Id) : string := if Nat.eqb id 7 then "0badcafe-0007" else "0badcafe-0008".
Definition account (email : string) : UserAccount := mkUserAccount 1 email "learner" "active" 0 None.
Definition attempt7 : Attempt := mkAttempt 1 7 3 4 GUIDED_LAB PASSED None 0 [] None None 0 None None None None 0 0 0 1 None None.
Definition typed : AttemptEventRow :=
  mkAttemptEventRow 9 1 5 LEARNER TASK_PASSED (JObj [("task"%string, JStr "t1"); ("note"%string, JStr "written by me")]).
Definition platform : Platform := mkPlatform
  (empty_store <| now := 60 |> <| attempts := {[ 9%nat := attempt7 ]} |> <| events := [typed] |>
    <| artifacts := [mkArtifact 9 "note" "local://inline" None (Some "by me"%string) 6] |>)
  {[ 7%nat := account "ada@example.org"; 8%nat := account "bob@example.org" ]} ∅.
End Learners.
Import Learners.

Lemma erasure_spec_witness : exists r p', run (eraseForUser hex_text 7) platform = (inr r, p') /\
  attemptsAnonymised r = 1%nat /\ eventPayloadsRedacted r = 1%nat /\ artifactsRedacted r = 1%nat /\
  fst (run (exportForUser 8) p') = fst (run (exportForUser 8) platform) /\
  run (eraseForUser hex_text 7) p' = (inr (mkErasureResult true 60 0 0 0), p').
Proof.
  destruct (erasure_spec hex_text 7 (account "ada@example.org") platform) as (r & p' & x & x' & R & X & _ & _ & _ & _ & _ & _ & _ & _ & N1 & N2 & N3 & O & I);
    [reflexivity.. |]. exists r, p'. assert (X' : run (exportForUser 7) platform = (inr x, platform)) by exact X.
  injection X' as <-. repeat split; [exact R | exact N1 | exact N2 | exact N3 | now apply O | exact I].
Defined.

(** A refused erasure leaves everything as it was; the mail address is part of
    a unique key and of the identifier only eight characters are kept. *)
Lemma tombstone_collision uuid_text u v a b p : u <> v -> accounts p !! u = Some a -> accounts p !! v = Some b ->
  ua_erased_at a = None -> ua_erased_at b = None -> ua_tenant_id a = ua_tenant_id b ->
  email_taken u (tombstone uuid_text u) p = false ->
  take 8 (explode (uuid_text u)) = take 8 (explode (uuid_text v)) ->
  exists r p', run (eraseForUser uuid_text u) p = (inr r, p') /\
    run (eraseForUser uuid_text v) p' = (inl (DbError "user_account_tenant_id_email_key"), p').
Proof.
  intros N A B Ea Eb Te T P. eexists _, _. split; [exact (run_erase uuid_text u a p A Ea T)|].
  set (p' := erased uuid_text u a p).
  assert (B' : accounts p' !! v = Some b) by (unfold p'; cbn; now rewrite lookup_insert_ne by congruence).
  assert (C : forall q, accounts q = accounts p' -> email_taken v (tombstone uuid_text v) q = true).
  { intros q Q. unfold email_taken. rewrite Q, B'. apply existsb_exists.
    exists (u, anonymous uuid_text u a p). split.
    - apply list_elem_of_In, elem_of_map_to_list. apply lookup_insert_eq.
    - cbn. rewrite (proj2 (Nat.eqb_neq u v) N), Te, Nat.eqb_refl. cbn. apply String.eqb_eq. unfold tombstone. now rewrite P. }
  unfold eraseForUser. rewrite run_bind, run_select, B'. cbn [findOrThrow bind]. rewrite Eb, run_transaction.
  unfold erase_transaction. rewrite run_bind, run_select.
  destruct (own_ids v p') as [|i l]; rewrite !run_bind.
  - unfold anonymise. run_simpl. now rewrite C.
  - unfold redact_events, redact_artifacts, stamp_attempts, anonymise. run_simpl. now rewrite C.
Qed.

(** What a handler under way appends after an erasure stays: the account is
    marked, so erasing again does nothing. *)
Lemma late_payload_survives uuid_text u a p id actor ty payload : accounts p !! u = Some a -> ua_erased_at a = None ->
  email_taken u (tombstone uuid_text u) p = false ->
  exists r p' row, run (eraseForUser uuid_text u) p = (inr r, p') /\ ev_attempt_id row = id /\ ev_payload row = payload /\
    let p'' := on_store (fun s => snd (run (append id actor ty payload) s)) p' in
    In row (events (pf_store p'')) /\ snd (run (eraseForUser uuid_text u) p'') = p''.
Proof.
  intros A E T. eexists _, _, _. split; [exact (run_erase uuid_text u a p A E T)|].
  cbv zeta. split; [|split; [|split; [apply in_or_app; right; now left|]]]; [reflexivity.. |].
  unfold eraseForUser. rewrite run_bind, run_select. cbn [accounts on_store erased]. unfold on_store. cbn [accounts].
  change (accounts _) with (<[u := anonymous uuid_text u a p]> (accounts p)) at 1. now rewrite lookup_insert_eq.
Qed.

(** ** Replay of an erased log *)
Lemma derive_grows state e k : is_Some (state !! k) -> is_Some (derive_step state e !! k).
Proof.
  intros S. unfold derive_step. destruct (ev_type e); try exact S; apply lookup_insert_is_Some;
    (destruct (decide (jstring "task" (ev_payload e) = k)); [now left | now right]).
Qed.
Lemma derive_marks l e : In e l -> is_task_event e = true -> is_Some (deriveTaskState l !! jstring "task" (ev_payload e)).
Proof.
  intros I K. induction l as [|x l IH] using rev_ind; [easy|]. rewrite derive_snoc. apply in_app_iff in I as [I|[->|[]]].
  - now apply derive_grows, IH.
  - unfold derive_step, is_task_event in *. destruct (ev_type e); try discriminate K; rewrite lookup_insert_eq; eauto.
Qed.
Lemma insert_unnamed id l st m : In (None, st) l -> insert_task_states id l m = None.
Proof.
  induction l as [|[k st'] l IH]; [easy|]. intros [I|I]; cbn.
  - injection I as -> _. now destruct (foldr _ _ l).
  - unfold insert_task_states in IH. now rewrite IH.
Qed.

(** Task states are derived from the payloads an erasure empties: once the
    learner is erased, rebuilding the task states of an attempt of theirs that
    has a task event is refused by the database and changes nothing, so a
    check or evaluation of that attempt that is still running fails. *)
Theorem erased_rebuild_fails uuid_text u a p e : accounts p !! u = Some a -> ua_erased_at a = None ->
  email_taken u (tombstone uuid_text u) p = false ->
  In (ev_attempt_id e) (own_ids u p) -> In e (events (pf_store p)) -> is_task_event e = true ->
  exists r p', run (eraseForUser uuid_text u) p = (inr r, p') /\
    run (rebuildForAttempt (ev_attempt_id e)) (pf_store p') = (inl (DbError "null value in column task_key"), pf_store p').
Proof.
  intros A E T O I K. eexists _, _. split; [exact (run_erase uuid_text u a p A E T)|].
  set (s := pf_store (erased uuid_text u a p)). set (id := ev_attempt_id e) in *.
  assert (M : In (redact_event e) (replay_rows id s)).
  { unfold replay_rows. apply list_elem_of_In. rewrite merge_sort_Permutation. apply list_elem_of_In.
    unfold of_attempt. apply filter_In. split; [|apply Nat.eqb_refl].
    change (events s) with (update_where (among (own_ids u p) ∘ ev_attempt_id) redact_event (events (pf_store p))).
    unfold update_where. apply list_elem_of_In, list_elem_of_fmap. exists e. split; [|now apply list_elem_of_In].
    unfold compose. fold id. now rewrite (proj2 (among_spec (own_ids u p) id) O). }
  unfold rebuildForAttempt, replay. rewrite run_bind, run_select, run_act.
  destruct (derive_marks _ _ M) as [st D]; [exact K|]. cbn in D.
  now rewrite (insert_unnamed id _ st) by (now apply list_elem_of_In, elem_of_map_to_list).
Qed.
Lemma erased_rebuild_fails_witness : exists r p', run (eraseForUser hex_text 7) platform = (inr r, p') /\
  fst (run (rebuildForAttempt 9) (pf_store p')) = inl (DbError "null value in column task_key").
Proof.
  destruct (erased_rebuild_fails hex_text 7 (account "ada@example.org") platform typed) as (r & p' & R & F);
    [reflexivity | reflexivity | reflexivity | now left | now left | reflexivity |].
  exists r, p'. split; [exact R|]. exact (f_equal fst F).
Defined.
