(* ===== verification/AnalyticsIngestion.v ===== *)
(** * The analytics stream

    analytics/analytics-ingestion.service.ts: the tail of attempt_events by its
    bigserial id behind a durable cursor, copied into ClickHouse in batches
    (analytics/clickhouse.client.ts), and the rows and columns it writes.
    Outside: what ClickHouse and a failing database answer, and the modules of
    a course. *)
From stdpp Require Import sorting.
From S2P Require Import Prelude RegExp JsNum Binary64 Effects Schema AttemptStatus EventStore JsText Evaluation.
Open Scope Z_scope.

(** A row of attempt_events with its bigserial id. *)
Record StreamRow := mkStreamRow { st_id : Z; st_event : AttemptEventRow }.
(** What [fetchBatch] selects, and a row of practice_analytics.attempt_events. *)
Record FetchedRow := mkFetchedRow {
  fr_id : Z; fr_event : AttemptEventRow; fr_tenant_id : Id; fr_activity_id : Id; fr_user_id : Id; fr_course_id : option string }.
Record AnalyticsRow := mkAnalyticsRow {
  an_attempt_id : Id; an_tenant_id : Id; an_activity_id : Id; an_course_id : string; an_user_id : Id;
  an_seq : nat; an_type : AttemptEventType; an_actor : EventActor; an_occurred_at : string; an_payload : string }.

(** The tables, the cursor (NULL or absent: [None]), the copy in ClickHouse and
    the two fields of the service. *)
Record Ingestion := mkIngestion {
  ig_store : Store; ig_stream : list StreamRow; ig_cursor : option Z; ig_clickhouse : list AnalyticsRow;
  ig_running : bool; ig_cursorTableReady : bool }.
#[export] Instance eta_Ingestion : Eta Ingestion := fun r =>
  mkIngestion (ig_store r) (ig_stream r) (ig_cursor r) (ig_clickhouse r) (ig_running r) (ig_cursorTableReady r).

(** Whether a statement of a pass fails, and how. *)
Class Outages := {
  cursor_table_fails : Ingestion -> option exn;
  fetch_fails : Ingestion -> option exn;
  insert_fails : Ingestion -> list AnalyticsRow -> option exn;
  set_cursor_fails : Ingestion -> Z -> option exn
}.
Definition failing {A} (e : option exn) (r : A * Ingestion) : exn + (A * Ingestion) :=
  match e with Some e => inl e | None => inr r end.

Definition toClickHouseDateTime (occurred_at : Z) : string :=
  replace_text "Z" EmptyString (replace_text "T" " " (toISOString occurred_at)).
Definition by_id : relation StreamRow := fun a b => st_id a <= st_id b.
#[export] Instance by_id_dec : RelDecision by_id.
Proof. intros a b. apply Z.le_dec. Defined.

Section Service.
Context `{Rounding} `{Outages}.
(** A uuid as PostgreSQL prints it, and ANALYTICS_INGESTION_BATCH. *)
Variables (uuid_text : Id -> string) (batchSize : nat).

(** [LEFT JOIN LATERAL ... LIMIT 1]. *)
Definition course_of (s : Store) (versionId : Id) : option string :=
  head (omap (fun at_ => t ← topics s !! at_topic_id at_; m ← tp_module_id t; md ← modules s !! m;
      Some (uuid_text (md_course_id md)))
    (List.filter (fun at_ => Nat.eqb (at_version_id at_) versionId) (activity_topics s))).
Definition enrich (s : Store) (r : StreamRow) : option FetchedRow :=
  a ← attempts s !! ev_attempt_id (st_event r);
  Some (mkFetchedRow (st_id r) (st_event r) (tenant_id a) (activity_id a) (user_id a) (course_of s (activity_version_id a))).
Definition past_cursor (cursor : option Z) (r : StreamRow) : bool :=
  match cursor with None => true | Some c => c <? st_id r end.
Definition batch (cursor : option Z) (i : Ingestion) : list FetchedRow :=
  take batchSize (omap (enrich (ig_store i)) (merge_sort by_id (List.filter (past_cursor cursor) (ig_stream i)))).

Definition analytics_row (r : FetchedRow) : AnalyticsRow :=
  let e := fr_event r in
  mkAnalyticsRow (ev_attempt_id e) (fr_tenant_id r) (fr_activity_id r) (default EmptyString (fr_course_id r)) (fr_user_id r)
    (ev_seq e) (ev_type e) (ev_actor e) (toClickHouseDateTime (ev_occurred_at e))
    (stringify (match ev_payload e with JNull => JObj [] | payload => payload end)).

Definition ensureCursorTable : prog Ingestion unit :=
  act (fun i => if ig_cursorTableReady i then inr (tt, i)
                else failing (cursor_table_fails i) (tt, i <| ig_cursorTableReady := true |>)).
Definition getCursor : prog Ingestion (option Z) := select ig_cursor.
Definition fetchBatch (cursor : option Z) : prog Ingestion (list FetchedRow) :=
  act (fun i => failing (fetch_fails i) (batch cursor i, i)).
Definition insert_rows (rows : list AnalyticsRow) : prog Ingestion unit :=
  act (fun i => failing (insert_fails i rows) (tt, i <| ig_clickhouse ::= fun l => l ++ rows |>)).
Definition setCursor (eventId : Z) : prog Ingestion unit :=
  act (fun i => failing (set_cursor_fails i eventId) (tt, i <| ig_cursor := Some eventId |>)).

Definition ingest_pass : prog Ingestion nat :=
  ensureCursorTable ;;
  let* cursor := getCursor in
  let* rows := fetchBatch cursor in
  match List.rev rows with
  | [] => Ret 0%nat
  | newest :: _ =>
      insert_rows (analytics_row <$> rows) ;;
      setCursor (fr_id newest) ;;
      Ret (List.length rows)
  end.
(** The test of [running] and its assignment are one turn of the event loop. *)
Definition tick : prog Ingestion nat :=
  let* busy := act (fun i => inr (ig_running i, i <| ig_running := true |>)) in
  if (busy : bool) then Ret 0%nat
  else let* n := try_catch ingest_pass (fun _ => Ret 0%nat) in
       execute (fun i => i <| ig_running := false |>) ;; Ret n.
Definition ingestedCount : prog Ingestion nat := select (fun i => List.length (ig_clickhouse i)).
End Service.

(** ** The stream in order *)
Section Laws.
Context `{Rounding}.
Variables (uuid_text : Id -> string) (batchSize : nat).
Abbreviation batch := (batch uuid_text batchSize).
Abbreviation enriched i := (omap (enrich uuid_text (ig_store i)) (merge_sort by_id (ig_stream i))).

Definition distinct_ids (i : Ingestion) : Prop := NoDup (st_id <$> ig_stream i).
Definition before_row (a b : FetchedRow) : Prop := fr_id a < fr_id b.

Definition fresh_row (c : option Z) (f : FetchedRow) : bool := match c with None => true | Some c => c <? fr_id f end.
Lemma enrich_id s r f : enrich uuid_text s r = Some f -> fr_id f = st_id r.
Proof. unfold enrich. destruct (attempts s !! _); intros [= <-]. reflexivity. Qed.
Lemma omap_filter_cursor s c l : omap (enrich uuid_text s) (List.filter (past_cursor c) l) =
  List.filter (fresh_row c) (omap (enrich uuid_text s) l).
Proof.
  induction l as [|r l IH]; [easy|]. cbn. destruct (enrich _ s r) as [f|] eqn:E.
  - cbn. unfold past_cursor at 1, fresh_row at 1. rewrite (enrich_id s r f E).
    destruct c as [c|]; [destruct (c <? st_id r)|]; cbn; rewrite ?E, IH; reflexivity.
  - destruct (past_cursor c r); cbn; rewrite ?E; exact IH.
Qed.

Lemma by_id_sorted l : StronglySorted by_id (merge_sort by_id l).
Proof.
  apply Sorted_StronglySorted; [intros a b c; unfold by_id; lia|]. apply Sorted_merge_sort. intros a b. unfold by_id. lia.
Qed.
Lemma merge_sort_filter p l : NoDup (st_id <$> l) -> merge_sort by_id (List.filter p l) = List.filter p (merge_sort by_id l).
Proof.
  intros N. apply (StronglySorted_unique_strong by_id).
  - intros a b I J L L'. rewrite merge_sort_Permutation in I. apply list_elem_of_In, filter_In in I as [I _].
    apply list_elem_of_In, filter_In in J as [J _]. apply list_elem_of_In in I, J. rewrite merge_sort_Permutation in J.
    assert (E : st_id a = st_id b) by (unfold by_id in *; lia).
    apply list_elem_of_lookup in I as [i Hi]. apply list_elem_of_lookup in J as [j Hj].
    assert (i = j) as ->; [|congruence].
    apply (NoDup_lookup _ i j (st_id a) N); rewrite list_lookup_fmap; [rewrite Hi | rewrite Hj; cbn; f_equal]; auto.
  - apply by_id_sorted.
  - apply StronglySorted_list_filter, by_id_sorted.
  - rewrite merge_sort_Permutation. assert (P : forall l l' : list StreamRow, l ≡ₚ l' -> List.filter p l ≡ₚ List.filter p l').
    { induction 1; cbn; [easy | destruct (p x); auto using perm_skip | destruct (p x), (p y); try reflexivity; apply perm_swap | etrans; eassumption]. }
    apply P. symmetry. apply merge_sort_Permutation.
Qed.
Lemma enriched_sorted i : distinct_ids i -> StronglySorted before_row (enriched i).
Proof.
  intros N. pose proof (by_id_sorted (ig_stream i)) as S.
  assert (N' : NoDup (st_id <$> merge_sort by_id (ig_stream i))) by now rewrite merge_sort_Permutation.
  induction S as [|r l _ IH F]; cbn; [constructor|]. rewrite fmap_cons in N'. apply NoDup_cons in N' as [U N'].
  specialize (IH N'). destruct (enrich _ _ r) as [f|] eqn:E; [|exact IH]. constructor; [exact IH|].
  apply Forall_forall. intros g I. apply list_elem_of_omap in I as (r' & I & E').
  unfold before_row. rewrite (enrich_id _ _ _ E), (enrich_id _ _ _ E').
  rewrite Forall_forall in F. specialize (F _ I). unfold by_id in F.
  assert (st_id r <> st_id r') by (intros Q; apply U; rewrite Q; now apply list_elem_of_fmap_2). lia.
Qed.

(** Behind a cursor at the [k]th row come the others. *)
Definition cursor_at (k : nat) (rows : list FetchedRow) : option Z := fr_id <$> last (take k rows).
Lemma fresh_after k rows : StronglySorted before_row rows -> List.filter (fresh_row (cursor_at k rows)) rows = drop k rows.
Proof.
  intros S. revert k. induction S as [|f rows S IH F]; intros k; [now destruct k|].
  assert (All : forall c, Forall (fun g => c < fr_id g) rows -> List.filter (fresh_row (Some c)) rows = rows).
  { intros c G. clear -G. induction G as [|g l L _ IH]; cbn; [easy|]. rewrite (proj2 (Z.ltb_lt _ _) L). now f_equal. }
  assert (Every : forall l : list FetchedRow, List.filter (fresh_row None) l = l) by (induction l; cbn; congruence).
  destruct k as [|k]; [apply (Every (f :: rows))|]. cbn [take drop]. rewrite <- (IH k). unfold cursor_at.
  cbn [take]. rewrite last_cons. destruct (last (take k rows)) as [g|] eqn:G; cbn.
  - assert (I : g ∈ rows) by (apply last_Some_elem_of in G; eapply elem_of_take in G as (j & L & _); now apply list_elem_of_lookup_2 in L).
    rewrite Forall_forall in F. specialize (F g I). unfold before_row in F. rewrite (proj2 (Z.ltb_ge _ _)) by lia. reflexivity.
  - rewrite Z.ltb_irrefl, Every. apply All, F.
Qed.
Lemma batch_at k i : distinct_ids i -> batch (cursor_at k (enriched i)) i = take batchSize (drop k (enriched i)).
Proof.
  intros N. unfold AnalyticsIngestion.batch. rewrite merge_sort_filter by exact N.
  rewrite omap_filter_cursor, fresh_after by now apply enriched_sorted. reflexivity.
Qed.

(** ** One pass *)
Section Pass.
Context `{Outages}.
Abbreviation tick := (tick uuid_text batchSize).

(** A pass ends in one of four ways; it never leaves [running] set. *)
Definition passed (i : Ingestion) (n : nat) (added : list FetchedRow) (cursor : option Z) (i' : Ingestion) : Prop :=
  i' = i <| ig_clickhouse ::= fun l => l ++ (analytics_row <$> added) |> <| ig_cursor := cursor |>
         <| ig_running := false |> <| ig_cursorTableReady := ig_cursorTableReady i' |> /\
  ((n = 0%nat /\ added = [] /\ cursor = ig_cursor i) \/
   (added = batch (ig_cursor i) i /\ added <> [] /\
    ((n = 0%nat /\ cursor = ig_cursor i) \/ (n = List.length added /\ cursor = fr_id <$> last added)))).

Lemma run_ensure i : exists b, (exists e, run ensureCursorTable i = (inl e, i <| ig_cursorTableReady := b |>)) \/
  run ensureCursorTable i = (inr tt, i <| ig_cursorTableReady := b |>).
Proof.
  unfold ensureCursorTable. rewrite run_act. destruct (ig_cursorTableReady i) eqn:B; unfold failing;
    [exists true; right | destruct (cursor_table_fails i); [exists false; left; eexists | exists true; right]].
  all: destruct i; cbn in *; subst; reflexivity.
Qed.
Ltac ended n added cursor :=
  exists n, added, cursor; eexists; split; [reflexivity|]; split;
  [cbn; rewrite ?app_nil_r; reflexivity | first [left; now split_and! | right; split; [reflexivity | split; [assumption |]]]].
Lemma run_tick i : ig_running i = false -> exists n added cursor i', run tick i = (inr n, i') /\ passed i n added cursor i'.
Proof.
  intros R. unfold AnalyticsIngestion.tick. rewrite run_bind, run_act, R, run_bind, run_try.
  unfold ingest_pass. rewrite run_bind. destruct (run_ensure (i <| ig_running := true |>)) as [b [[e ->]| ->]];
    [ended 0%nat (@nil FetchedRow) (ig_cursor i) |].
  rewrite run_bind. unfold getCursor. rewrite run_select. rewrite run_bind. unfold fetchBatch. rewrite run_act.
  change (AnalyticsIngestion.batch _ _ _ (i <| ig_running := true |> <| ig_cursorTableReady := b |>)) with (batch (ig_cursor i) i).
  unfold failing at 1. destruct (fetch_fails _); [ended 0%nat (@nil FetchedRow) (ig_cursor i) |].
  set (rows := batch (ig_cursor i) i). destruct (List.rev rows) as [|newest older] eqn:V; [ended 0%nat (@nil FetchedRow) (ig_cursor i) |].
  assert (L : rows = rev older ++ [newest]) by (rewrite <- (rev_involutive rows), V; reflexivity).
  assert (Ne : rows <> []) by (rewrite L; now destruct (rev older)).
  assert (Last : last rows = Some newest) by (rewrite L; apply last_snoc).
  rewrite run_bind. unfold insert_rows. rewrite run_act. unfold failing at 1.
  destruct (insert_fails _ _); [ended 0%nat (@nil FetchedRow) (ig_cursor i) |].
  rewrite run_bind. unfold setCursor. rewrite run_act. unfold failing at 1. destruct (set_cursor_fails _ _).
  - ended 0%nat rows (ig_cursor i). now left.
  - ended (List.length rows) rows (Some (fr_id newest)). right. now rewrite Last.
Qed.
End Pass.

(** A pass in which only the cursor's update may fail. *)
Lemma run_tick_inserting `{Outages} (o : option exn) i : ig_running i = false ->
  (forall i, cursor_table_fails i = None) -> (forall i, fetch_fails i = None) -> (forall i rows, insert_fails i rows = None) ->
  (forall i c, set_cursor_fails i c = o) ->
  run (tick uuid_text batchSize) i =
  (inr (match o with Some _ => 0 | None => List.length (batch (ig_cursor i) i) end)%nat,
   i <| ig_clickhouse ::= fun l => l ++ (analytics_row <$> batch (ig_cursor i) i) |>
     <| ig_cursor := match o, last (batch (ig_cursor i) i) with None, Some f => Some (fr_id f) | _, _ => ig_cursor i end |>
     <| ig_running := false |> <| ig_cursorTableReady := true |>).
Proof.
  intros R F1 F2 F3 F4. unfold tick. rewrite run_bind, run_act, R, run_bind, run_try. unfold ingest_pass. rewrite run_bind.
  assert (E : run ensureCursorTable (i <| ig_running := true |>) = (inr tt, i <| ig_running := true |> <| ig_cursorTableReady := true |>)).
  { unfold ensureCursorTable. rewrite run_act, F1. destruct i as [s st c ch r []]; reflexivity. }
  rewrite E, run_bind. unfold getCursor. rewrite run_select, run_bind. unfold fetchBatch. rewrite run_act, F2.
  change (AnalyticsIngestion.batch _ _ _ _) with (batch (ig_cursor i) i). unfold failing.
  set (rows := batch (ig_cursor i) i). destruct (List.rev rows) as [|newest older] eqn:V.
  - assert (L : rows = []) by (rewrite <- (rev_involutive rows), V; reflexivity). rewrite L. cbn. rewrite app_nil_r. now destruct o.
  - assert (L : rows = rev older ++ [newest]) by (rewrite <- (rev_involutive rows), V; reflexivity).
    assert (Last : last rows = Some newest) by (rewrite L; apply last_snoc). rewrite Last.
    unfold insert_rows, setCursor. rewrite run_bind, run_act, F3. unfold failing. rewrite run_bind, run_act, F4. now destruct o.
Qed.

(** ** Without outages: every row once, in order *)
#[export] Instance no_outages : Outages := {|
  cursor_table_fails := fun _ => None; fetch_fails := fun _ => None;
  insert_fails := fun _ _ => None; set_cursor_fails := fun _ _ => None |}.
Definition ticks (m : nat) (i : Ingestion) : Ingestion := Nat.iter m (fun i => snd (run (tick uuid_text batchSize) i)) i.

(** ClickHouse holds the first [k] rows of the stream and the cursor is there. *)
Definition synced (k : nat) (i : Ingestion) : Prop :=
  ig_running i = false /\ distinct_ids i /\ ig_cursor i = cursor_at k (enriched i) /\
  ig_clickhouse i = analytics_row <$> take k (enriched i).

Lemma tick_synced k i : (k <= List.length (enriched i))%nat -> synced k i ->
  let i' := snd (run (tick uuid_text batchSize) i) in
  enriched i' = enriched i /\ synced (Nat.min (k + batchSize) (List.length (enriched i))) i'.
Proof.
  intros K (R & N & C & H0). rewrite (run_tick_inserting None) by easy. cbn [snd]. rewrite C, batch_at by exact N. rewrite <- C.
  set (i' := i <| ig_clickhouse ::= _ |> <| ig_cursor := _ |> <| ig_running := _ |> <| ig_cursorTableReady := _ |>).
  change (enriched i') with (enriched i). split; [reflexivity|].
  unfold synced. change (enriched i') with (enriched i). split; [reflexivity|]. split; [exact N|].
  set (E := enriched i) in *. assert (T : take (Nat.min (k + batchSize) (List.length E)) E = take k E ++ take batchSize (drop k E)).
  { rewrite <- take_take, (take_ge E (List.length E)) by lia. symmetry. apply take_take_drop. }
  cbn [ig_cursor ig_clickhouse]. split.
  - unfold cursor_at. rewrite T. change (ig_cursor i') with (match last (take batchSize (drop k E)) with Some f => Some (fr_id f) | None => ig_cursor i end).
    rewrite last_app. destruct (last (take batchSize (drop k E))); [reflexivity | exact C].
  - change (ig_clickhouse i') with (ig_clickhouse i ++ (analytics_row <$> take batchSize (drop k E))).
    rewrite H0, T, fmap_app. reflexivity.
Qed.

(** C30: without outages the copy is complete and exact: from any point where
    ClickHouse holds the first rows of the stream and the cursor is behind them,
    enough passes leave there every event of a known attempt exactly once, in
    the order of the ids, with the cursor on the last; no pass is lost and no
    row repeated. *)
Theorem ingestion_complete k m i : synced k i -> (k <= List.length (enriched i))%nat ->
  (List.length (enriched i) <= k + m * batchSize)%nat ->
  ig_clickhouse (ticks m i) = analytics_row <$> enriched i /\
  ig_cursor (ticks m i) = fr_id <$> last (enriched i) /\ ig_running (ticks m i) = false.
Proof.
  intros Y K B. assert (G : forall m, enriched (ticks m i) = enriched i /\
    synced (Nat.min (k + m * batchSize) (List.length (enriched i))) (ticks m i)).
  { clear B m. induction m as [|m [E IH]]; [cbn; rewrite Nat.add_0_r, Nat.min_l by exact K; auto|].
    destruct (tick_synced (Nat.min (k + m * batchSize) (List.length (enriched i))) (ticks m i) ltac:(rewrite E; lia) IH) as [E' S']. rewrite E in E', S'. split; [exact E'|].
    replace (Nat.min (k + S m * batchSize) (List.length (enriched i)))
      with (Nat.min (Nat.min (k + m * batchSize) (List.length (enriched i)) + batchSize) (List.length (enriched i))) by (cbn; lia).
    exact S'. }
  destruct (G m) as [E (R & _ & C & H0)]. rewrite E in C, H0. rewrite Nat.min_r in C, H0 by exact B.
  unfold cursor_at in C. rewrite take_ge in C, H0 by lia. auto.
Qed.

(** ** With outages *)
Section Outage.
Context `{Outages}.

(** A pass copies nothing and leaves the cursor, or copies the next batch. *)
Lemma pass_moves_forward i : ig_running i = false ->
  exists n i' added, run (tick uuid_text batchSize) i = (inr n, i') /\ ig_running i' = false /\
    ig_clickhouse i' = ig_clickhouse i ++ (analytics_row <$> added) /\
    Forall (fun f => fresh_row (ig_cursor i) f = true) added /\ (n = 0%nat \/ n = List.length added) /\
    (forall c, ig_cursor i = Some c -> exists c', ig_cursor i' = Some c' /\ c <= c').
Proof.
  intros R. destruct (run_tick i R) as (n & added & cursor & i' & E & P & Q). exists n, i', added. split; [exact E|].
  assert (Fr : Forall (fun f => fresh_row (ig_cursor i) f = true) (batch (ig_cursor i) i)).
  { apply List.Forall_forall. intros f I. unfold AnalyticsIngestion.batch in I. apply list_elem_of_In in I.
    apply elem_of_take in I as (j & L & _). apply list_elem_of_lookup_2, list_elem_of_omap in L as (r & L & D).
    rewrite merge_sort_Permutation in L. apply list_elem_of_In, filter_In in L as [_ L].
    unfold fresh_row, past_cursor in *. now rewrite (enrich_id _ _ _ D). }
  rewrite P. split; [reflexivity|]. split; [reflexivity|]. cbn [ig_cursor].
  destruct Q as [(-> & -> & ->)|(-> & Ne & Q)].
  - split; [constructor|]. split; [now left|]. intros c C. exists c. split; [exact C | lia].
  - split; [exact Fr|]. split; [destruct Q as [[-> _]|[-> _]]; auto|]. intros c C. destruct Q as [[_ ->]|[_ ->]].
    + exists c. split; [exact C | lia].
    + destruct (last (batch (ig_cursor i) i)) as [f|] eqn:L; [|now apply last_None in L].
      exists (fr_id f). split; [reflexivity|]. apply last_Some_elem_of, list_elem_of_In in L.
      rewrite List.Forall_forall in Fr. specialize (Fr f L). rewrite C in Fr. cbn in Fr. lia.
Qed.
Definition passes (m : nat) (i : Ingestion) : Ingestion := Nat.iter m (fun i => snd (run (tick uuid_text batchSize) i)) i.

(** Whatever fails, and however often, the stream only moves forward: what
    passes add to ClickHouse are rows with ids past the cursor, the cursor never
    goes back and the guard of the pass is released.  So a transaction that
    commits an id at or below the cursor (ids are drawn before the commit) has
    its event never copied. *)
Theorem stream_moves_forward m c i : ig_running i = false -> ig_cursor i = Some c ->
  exists added c', ig_clickhouse (passes m i) = ig_clickhouse i ++ (analytics_row <$> added) /\
    Forall (fun f => c < fr_id f) added /\ ig_cursor (passes m i) = Some c' /\ c <= c' /\ ig_running (passes m i) = false.
Proof.
  intros R C. induction m as [|m (added & c' & H1 & F & C' & L & R')].
  - exists [], c. rewrite app_nil_r. split_and!; auto; lia.
  - destruct (pass_moves_forward (passes m i) R') as (n & i' & more & E & R2 & H2 & F2 & _ & C2).
    destruct (C2 c' C') as (c2 & C3 & L2). exists (added ++ more), c2.
    change (passes (S m) i) with (snd (run (tick uuid_text batchSize) (passes m i))). rewrite E. cbn [snd].
    rewrite H2, H1, fmap_app, app_assoc. split_and!; auto; [|lia]. apply Forall_app. split; [exact F|].
    eapply Forall_impl; [exact F2|]. intros f Q. rewrite C' in Q. cbn in Q. lia.
Qed.
End Outage.

Lemma concat_repeat_snoc {A} (l : list A) m : concat (repeat l (S m)) = concat (repeat l m) ++ l.
Proof. induction m as [|m IH]; [cbn; now rewrite app_nil_r|]. cbn in *. now rewrite IH at 1; rewrite <- app_assoc. Qed.

(** A batch is inserted before the cursor moves: as long as the cursor
    cannot be written, every pass inserts the same batch again, so ClickHouse
    (which does not deduplicate) holds it once per pass. *)
Theorem cursor_outage_duplicates `{Outages} m i e : ig_running i = false ->
  (forall i, cursor_table_fails i = None) -> (forall i, fetch_fails i = None) -> (forall i rows, insert_fails i rows = None) ->
  (forall i c, set_cursor_fails i c = Some e) ->
  ig_clickhouse (passes m i) = ig_clickhouse i ++ concat (repeat (analytics_row <$> batch (ig_cursor i) i) m) /\
  ig_cursor (passes m i) = ig_cursor i.
Proof.
  intros R F1 F2 F3 F4. assert (P : forall m, ig_running (passes m i) = false /\ ig_store (passes m i) = ig_store i /\
    ig_stream (passes m i) = ig_stream i /\ ig_cursor (passes m i) = ig_cursor i /\
    ig_clickhouse (passes m i) = ig_clickhouse i ++ concat (repeat (analytics_row <$> batch (ig_cursor i) i) m)).
  { clear m. induction m as [|m (R' & S1 & S2 & C & H1)]; [cbn; rewrite app_nil_r; auto|].
    change (passes (S m) i) with (snd (run (tick uuid_text batchSize) (passes m i))).
    rewrite (run_tick_inserting (Some e)) by auto. cbn [snd ig_running ig_store ig_stream ig_cursor ig_clickhouse]. split_and!; auto.
    assert (B : batch (ig_cursor (passes m i)) (passes m i) = batch (ig_cursor i) i)
      by (unfold AnalyticsIngestion.batch; now rewrite S1, S2, C).
    transitivity (ig_clickhouse (passes m i) ++ (analytics_row <$> batch (ig_cursor (passes m i)) (passes m i))); [reflexivity|].
    now rewrite B, H1, <- app_assoc, concat_repeat_snoc. }
  destruct (P m) as (_ & _ & _ & C & H1). auto.
Qed.
End Laws.

(** Two events of the lab's attempt; the second got its id first. *)
Module Backlog.
#[local] Existing Instance binary64.
Definition event (seq : nat) : AttemptEventRow := mkAttemptEventRow 9 seq 1700000000123 SYSTEM ENV_READY JNull.
Definition stream : list StreamRow := [mkStreamRow 7 (event 2); mkStreamRow 5 (event 1)].
Definition any_uuid (id : Id) : string := "00000000-0000-4000-8000-000000000000".
Definition start (cursor : option Z) : Ingestion := mkIngestion (Lab.store PASSED 5) stream cursor [] false false.
Definition read_only_cursor : Outages := {|
  cursor_table_fails := fun _ => None; fetch_fails := fun _ => None;
  insert_fails := fun _ _ => None; set_cursor_fails := fun _ _ => Some (DbError "read-only transaction") |}.

Lemma ingestion_complete_witness : an_seq <$> ig_clickhouse (ticks any_uuid 1 2 (start None)) = [1; 2]%nat /\
  ig_cursor (ticks any_uuid 1 2 (start None)) = Some 7 /\
  (an_occurred_at <$> ig_clickhouse (ticks any_uuid 1 2 (start None))) = ["2023-11-14 22:13:20.123"; "2023-11-14 22:13:20.123"]%string.
Proof.
  destruct (ingestion_complete any_uuid 1 0 2 (start None)) as (C & K & _).
  - repeat split. unfold distinct_ids. cbn. apply (bool_decide_unpack _). vm_compute. exact I.
  - cbn. lia.
  - vm_compute. lia.
  - rewrite C, K. vm_compute. repeat split.
Defined.

(** The pass after id 7 was copied, when id 5 commits. *)
Lemma stream_moves_forward_witness : exists added,
  ig_clickhouse (passes any_uuid 10 3 (start (Some 7))) = [] ++ (analytics_row <$> added) /\ Forall (fun f => 7 < fr_id f) added.
Proof.
  destruct (stream_moves_forward any_uuid 10 3 7 (start (Some 7)) eq_refl eq_refl) as (added & c' & C & F & _).
  exists added. split; [exact C | exact F].
Defined.

Lemma cursor_outage_duplicates_witness :
  an_seq <$> ig_clickhouse (@passes binary64 any_uuid 10 read_only_cursor 2 (start None)) = [1; 2; 1; 2]%nat.
Proof.
  rewrite (proj1 (@cursor_outage_duplicates binary64 any_uuid 10 read_only_cursor 2 (start None) (DbError "read-only transaction")
    eq_refl (fun _ => eq_refl) (fun _ => eq_refl) (fun _ _ => eq_refl) (fun _ _ => eq_refl))).
  vm_compute. reflexivity.
Defined.
End Backlog.
