(* ===== verification/AnalyticsQuery.v ===== *)
(** * The hourly rollups, from either store

    analytics/analytics-query.service.ts: the same rollup over ClickHouse, where
    the events were copied, and over Postgres.  How ClickHouse reads a time is
    the interface [ClickHouseTime], of which [datetime64] is an instance; its TTL
    of 400 days is not modelled. *)
From Stdlib Require Import Ascii.
From stdpp Require Import sorting pretty.
From S2P Require Import Prelude RegExp JsNum Binary64 Effects Schema AttemptStatus EventStore JsText JsonParse JsonLaws Evaluation AnalyticsIngestion.
Open Scope Z_scope.

(** ** Times in the form of ClickHouse's DateTime64 *)

(** DateTime64(3): YYYY-MM-DD hh:mm:ss.mmm, as milliseconds since 1970. *)
Definition field (from len : nat) (s : string) : Z := digits_value (take len (drop from (explode s))).
Definition days_from_civil (y m d : Z) : Z :=
  let y := if m <=? 2 then y - 1 else y in
  let era := y / 400 in
  let yoe := y mod 400 in
  let doy := (153 * (if m <=? 2 then m + 9 else m - 3) + 2) / 5 + d - 1 in
  era * 146097 + (yoe * 365 + yoe / 4 - yoe / 100 + doy) - 719468.
Definition read_datetime (s : string) : Z :=
  days_from_civil (field 0 4 s) (field 5 2 s) (field 8 2 s) * 86400000 +
  field 11 2 s * 3600000 + field 14 2 s * 60000 + field 17 2 s * 1000 + field 20 3 s.

(** The calendar: a day of a 400-year cycle has a year of it, and a day of that year. *)
Lemma cycle_day doe : 0 <= doe < 146097 ->
  let yoe := (doe - doe / 1460 + doe / 36524 - doe / 146096) / 365 in
  let doy := doe - (365 * yoe + yoe / 4 - yoe / 100) in
  0 <= yoe <= 399 /\ 0 <= doy <= 365 /\ doe = yoe * 365 + yoe / 4 - yoe / 100 + doy.
Proof. intros B. cbv zeta. Z.to_euclidean_division_equations. lia. Qed.
Lemma year_day doy : 0 <= doy <= 365 ->
  let mp := (5 * doy + 2) / 153 in
  let month := if mp <? 10 then mp + 3 else mp - 9 in
  let day := doy - (153 * mp + 2) / 5 + 1 in
  1 <= month <= 12 /\ 1 <= day <= 31 /\ (if month <=? 2 then month + 9 else month - 3) = mp /\ (month <= 2 <-> 306 <= doy).
Proof.
  intros B. cbv zeta. assert (M : 0 <= (5 * doy + 2) / 153 <= 11) by (Z.to_euclidean_division_equations; lia).
  destruct (Z.ltb_spec ((5 * doy + 2) / 153) 10); [rewrite (proj2 (Z.leb_gt _ 2)) by lia | rewrite (proj2 (Z.leb_le _ 2)) by lia];
    Z.to_euclidean_division_equations; lia.
Qed.
Lemma civil_roundtrip days : let '(d, m, y) := civil_from_days days in
  days_from_civil y m d = days /\ 1 <= m <= 12 /\ 1 <= d <= 31 /\
  (-719528 <= days <= 2932896 -> 0 <= y <= 9999).
Proof.
  unfold civil_from_days. pose proof (Z.mod_pos_bound (days + 719468) 146097 ltac:(lia)) as B.
  destruct (cycle_day _ B) as (Y & D & E). cbv zeta in Y, D, E.
  set (doe := (days + 719468) mod 146097) in *. set (yoe := (doe - doe / 1460 + doe / 36524 - doe / 146096) / 365) in *.
  set (doy := doe - (365 * yoe + yoe / 4 - yoe / 100)) in *.
  destruct (year_day doy D) as (M & Dy & R & F). cbv zeta in M, Dy, R, F. cbv zeta.
  set (mp := (5 * doy + 2) / 153) in *. set (month := if mp <? 10 then mp + 3 else mp - 9) in *.
  pose proof (Z.div_mod (days + 719468) 146097 ltac:(lia)) as Q. fold doe in Q. set (era := (days + 719468) / 146097) in *.
  split; [|split; [exact M | split; [exact Dy|]]].
  - unfold days_from_civil. rewrite R.
    replace (if month <=? 2 then yoe + era * 400 + (if month <=? 2 then 1 else 0) - 1 else yoe + era * 400 + (if month <=? 2 then 1 else 0))
      with (yoe + era * 400) by (destruct (month <=? 2); lia).
    rewrite Z.div_add, Z.div_small, Z.mod_add, Z.mod_small by lia. lia.
  - intros L. assert (era = (days + 719468 - doe) / 146097) by (Z.to_euclidean_division_equations; lia).
    destruct (Z.leb_spec month 2) as [J|J]; [apply F in J|]; clearbody doe yoe doy mp month era; Z.to_euclidean_division_equations; lia.
Qed.

Fixpoint all_below (n : nat) (p : Z -> bool) (from : Z) : bool :=
  match n with O => true | S n => p from && all_below n p (from + 1) end.
Lemma all_below_spec n p from : all_below n p from = true -> forall z, from <= z < from + Z.of_nat n -> p z = true.
Proof.
  revert from. induction n as [|n IH]; intros from A z B; [lia|]. cbn in A. apply andb_true_iff in A as [A0 A].
  destruct (Z.eq_dec z from) as [->|]; [exact A0|]. apply (IH _ A). lia.
Qed.
Definition padded_ok (w : nat) (n : Z) : bool :=
  let l := explode (padded (Z.of_nat w) n) in Nat.eqb (List.length l) w && forallb is_digit l && (digits_value l =? n).
Lemma padded_digits w n : In w [2; 3; 4]%nat -> 0 <= n < 10 ^ Z.of_nat w -> exists l, padded (Z.of_nat w) n = implode l /\
  List.length l = w /\ Forall (fun c => is_digit c = true) l /\ digits_value l = n.
Proof.
  intros W B. assert (T : padded_ok w n = true).
  { destruct W as [<-|[<-|[<-|[]]]].
    - now apply (all_below_spec 100 (padded_ok 2) 0); [vm_compute|].
    - now apply (all_below_spec 1000 (padded_ok 3) 0); [vm_compute|].
    - now apply (all_below_spec 10000 (padded_ok 4) 0); [vm_compute|]. }
  apply andb_true_iff in T as [[L D]%andb_true_iff V]. apply Nat.eqb_eq in L. apply Z.eqb_eq in V.
  exists (explode (padded (Z.of_nat w) n)). rewrite implode_explode. split_and!; auto.
  apply List.Forall_forall. now apply forallb_forall.
Qed.

Lemma find_char c l r : Forall (fun d => (c =? d)%char = false) l -> find_text [c] (l ++ c :: r) = Some (l, r).
Proof.
  induction 1 as [|d l N _ IH]; cbn; [now rewrite Ascii.eqb_refl|]. rewrite N. cbn in IH |- *. now rewrite IH.
Qed.
Lemma not_digit c d : is_digit c = false -> is_digit d = true -> (c =? d)%char = false.
Proof. intros N D. apply Ascii.eqb_neq. intros ->. congruence. Qed.
Definition numeral (w : nat) (l : chars) : Prop := List.length l = w /\ Forall (fun c => is_digit c = true) l.
Lemma numeral_without c w l : is_digit c = false -> numeral w l -> Forall (fun d => (c =? d)%char = false) l.
Proof. intros N [_ F]. eapply Forall_impl; [exact F|]. intros d. now apply not_digit. Qed.

Lemma read_stamp ly lm ld lh ln ls lk : numeral 4 ly -> numeral 2 lm -> numeral 2 ld -> numeral 2 lh -> numeral 2 ln ->
  numeral 2 ls -> numeral 3 lk ->
  read_datetime (replace_text "Z" EmptyString (replace_text "T" " "
    (implode ly ++ "-" ++ implode lm ++ "-" ++ implode ld ++ "T" ++ implode lh ++ ":" ++ implode ln ++ ":" ++ implode ls ++ "." ++ implode lk ++ "Z"))) =
  days_from_civil (digits_value ly) (digits_value lm) (digits_value ld) * 86400000 + digits_value lh * 3600000 +
  digits_value ln * 60000 + digits_value ls * 1000 + digits_value lk.
Proof.
  intros Y M D H N S K. unfold replace_text at 2. rewrite !explode_app, !explode_implode.
  replace (ly ++ _) with ((ly ++ "-" :: lm ++ "-" :: ld) ++ "T" :: lh ++ ":" :: ln ++ ":" :: ls ++ "." :: lk ++ ["Z"])%char
    by (repeat (cbn; rewrite <- ?app_assoc); reflexivity).
  change (explode "T") with ["T"%char]. rewrite find_char.
  2: { repeat first [apply Forall_app; split | apply Forall_cons; split]; try reflexivity; solve [eapply numeral_without; [reflexivity | eassumption] | constructor]. }
  cbn [explode substitution]. unfold replace_text. rewrite explode_implode.
  replace ((ly ++ _) ++ _) with ((ly ++ "-" :: lm ++ "-" :: ld ++ " " :: lh ++ ":" :: ln ++ ":" :: ls ++ "." :: lk) ++ "Z" :: [])%char
    by (repeat (cbn; rewrite <- ?app_assoc); reflexivity).
  change (explode "Z") with ["Z"%char]. rewrite find_char.
  2: { repeat first [apply Forall_app; split | apply Forall_cons; split]; try reflexivity; solve [eapply numeral_without; [reflexivity | eassumption] | constructor]. }
  cbn [explode substitution app]. rewrite app_nil_r. unfold read_datetime, field. rewrite explode_implode.
  destruct Y as [Y _], M as [M _], D as [D _], H as [H _], N as [N _], S as [S _], K as [K _].
  do 4 (destruct ly as [|? ly]; [discriminate Y|]). destruct ly; [|discriminate Y].
  do 2 (destruct lm as [|? lm]; [discriminate M|]). destruct lm; [|discriminate M].
  do 2 (destruct ld as [|? ld]; [discriminate D|]). destruct ld; [|discriminate D].
  do 2 (destruct lh as [|? lh]; [discriminate H|]). destruct lh; [|discriminate H].
  do 2 (destruct ln as [|? ln]; [discriminate N|]). destruct ln; [|discriminate N].
  do 2 (destruct ls as [|? ls]; [discriminate S|]). destruct ls; [|discriminate S].
  do 3 (destruct lk as [|? lk]; [discriminate K|]). destruct lk; [|discriminate K].
  reflexivity.
Qed.

(** The text ClickHouse is given denotes the event's time, to the millisecond. *)
Lemma read_datetime_of t : 0 <= t < 253402300800000 -> read_datetime (toClickHouseDateTime t) = t.
Proof.
  intros B. unfold toClickHouseDateTime, toISOString.
  pose proof (civil_roundtrip (t / 86400000)) as C. destruct (civil_from_days (t / 86400000)) as [[d m] y].
  destruct C as (C & M & D & Y). specialize (Y ltac:(Z.to_euclidean_division_equations; lia)).
  set (u := t mod 86400000). assert (U : 0 <= u < 86400000) by (apply Z.mod_pos_bound; lia).
  destruct (padded_digits 4 y) as (ly & Ey & Ly & Fy & Vy); [cbn; tauto | cbn; lia |].
  destruct (padded_digits 2 m) as (lm & Em & Lm & Fm & Vm); [cbn; tauto | cbn; lia |].
  destruct (padded_digits 2 d) as (ld & Ed & Ld & Fd & Vd); [cbn; tauto | cbn; lia |].
  destruct (padded_digits 2 (u / 3600000)) as (lh & Eh & Lh & Fh & Vh); [cbn; tauto | cbn; Z.to_euclidean_division_equations; lia |].
  destruct (padded_digits 2 (u / 60000 mod 60)) as (ln & En & Ln & Fn & Vn); [cbn; tauto | cbn; Z.to_euclidean_division_equations; lia |].
  destruct (padded_digits 2 (u / 1000 mod 60)) as (ls & Es & Ls & Fs & Vs); [cbn; tauto | cbn; Z.to_euclidean_division_equations; lia |].
  destruct (padded_digits 3 (u mod 1000)) as (lk & Ek & Lk & Fk & Vk); [cbn; tauto | cbn; Z.to_euclidean_division_equations; lia |].
  change (Z.of_nat 4) with 4 in *. change (Z.of_nat 3) with 3 in *. change (Z.of_nat 2) with 2 in *.
  rewrite Ey, Em, Ed, Eh, En, Es, Ek, read_stamp by (now split).
  rewrite Vy, Vm, Vd, Vh, Vn, Vs, Vk, C. subst u. Z.to_euclidean_division_equations. lia.
Qed.

(** ** analytics-query.service.ts *)
Inductive RollupGrain := G_activity | G_course | G_tenant | G_global.
Record EventRollupRow := mkEventRollupRow {
  ru_bucket : string; ru_events : nat; ru_milestones_gated : nat; ru_defence_msgs : nat; ru_distinct_attempts : nat }.
Definition more_events : relation EventRollupRow := fun a b => (ru_events b <= ru_events a)%nat.
#[export] Instance more_events_dec : RelDecision more_events.
Proof. intros a b. apply Nat.le_dec. Defined.

(** [GROUP BY] the bucket, with the aggregates; [ORDER BY events DESC]. *)
Section GroupBy.
Context {A : Type} (bucket : A -> string) (type : A -> AttemptEventType) (attempt : A -> Id).
Definition of_type (ty : AttemptEventType) (l : list A) : nat := List.length (List.filter (fun r => bool_decide (type r = ty)) l).
Definition group_row (rows : list A) (b : string) : EventRollupRow :=
  let g := List.filter (fun r => String.eqb (bucket r) b) rows in
  mkEventRollupRow b (List.length g) (of_type MILESTONE_GATED g) (of_type DEFENCE_MESSAGE g)
    (List.length (remove_dups (attempt <$> g))).
Definition group_by (rows : list A) : list EventRollupRow :=
  merge_sort more_events (group_row rows <$> remove_dups (bucket <$> rows)).
End GroupBy.

(** What ClickHouse reads in the occurred_at it was given. *)
Class ClickHouseTime := {
  ch_datetime : string -> Z;
  ch_reads : forall t, 0 <= t < 253402300800000 -> ch_datetime (toClickHouseDateTime t) = t
}.
#[export] Instance datetime64 : ClickHouseTime := {| ch_datetime := read_datetime; ch_reads := read_datetime_of |}.

Section Query.
Context `{Rounding} `{ClickHouseTime}.
Variables (uuid_text : Id -> string).
Definition window_ms (hours : Q) : Z := Z.max 1 (Qfloor hours) * 3600000.

(** [groupCol] over the columns of ClickHouse, [bucketExpr] over the joined rows. *)
Definition groupCol (grain : RollupGrain) (r : AnalyticsRow) : string :=
  match grain with
  | G_activity => uuid_text (an_activity_id r) | G_course => an_course_id r
  | G_tenant => uuid_text (an_tenant_id r) | G_global => EmptyString
  end.
Definition bucketExpr (grain : RollupGrain) (r : FetchedRow) : string :=
  match grain with
  | G_activity => uuid_text (fr_activity_id r) | G_course => default EmptyString (fr_course_id r)
  | G_tenant => uuid_text (fr_tenant_id r) | G_global => EmptyString
  end.
(** ClickHouse's now() has no fraction of a second. *)
Definition recent_ch (tenantId : Id) (hours : Q) (clock : Z) (r : AnalyticsRow) : bool :=
  Nat.eqb (an_tenant_id r) tenantId && (clock / 1000 * 1000 - window_ms hours <=? ch_datetime (an_occurred_at r)).
Definition recent_pg (tenantId : Id) (hours : Q) (clock : Z) (r : FetchedRow) : bool :=
  Nat.eqb (fr_tenant_id r) tenantId && (clock - window_ms hours <=? ev_occurred_at (fr_event r)).
Definition eventRollupClickHouse (tenantId : Id) (grain : RollupGrain) (hours : Q) (i : Ingestion) : list EventRollupRow :=
  group_by (groupCol grain) an_type an_attempt_id (List.filter (recent_ch tenantId hours (now (ig_store i))) (ig_clickhouse i)).
Definition eventRollupPostgres (tenantId : Id) (grain : RollupGrain) (hours : Q) (i : Ingestion) : list EventRollupRow :=
  group_by (bucketExpr grain) (fun r => ev_type (fr_event r)) (fun r => ev_attempt_id (fr_event r))
    (List.filter (recent_pg tenantId hours (now (ig_store i))) (omap (enrich uuid_text (ig_store i)) (ig_stream i))).
Definition eventRollup (clickHouseEnabled : bool) (tenantId : Id) (grain : RollupGrain) (hours : Q) (i : Ingestion) :=
  if clickHouseEnabled then eventRollupClickHouse tenantId grain hours i else eventRollupPostgres tenantId grain hours i.
End Query.

(** [escapeCh], and how ClickHouse reads a literal after its opening quote: the
    text and what follows the closing quote. *)
Definition replace_char (c : ascii) (by_ : chars) (l : chars) : chars := flat_map (fun d => if (d =? c)%char then by_ else [d]) l.
Definition escape_chars (l : chars) : chars := replace_char "\" ["\"; "\"]%char (replace_char "'" ["'"; "'"]%char l).
Definition escapeCh (s : string) : string := implode (escape_chars (explode s)).
Fixpoint read_literal (l : chars) : option (chars * chars) :=
  match l with
  | [] => None
  | c :: l =>
      if (c =? "'")%char then
        match l with
        | d :: l' => if (d =? "'")%char then '(s, rest) ← read_literal l'; Some (d :: s, rest) else Some ([], l)
        | [] => Some ([], [])
        end
      else if (c =? "\")%char then
        match l with d :: l' => '(s, rest) ← read_literal l'; Some (d :: s, rest) | [] => None end
      else '(s, rest) ← read_literal l; Some (c :: s, rest)
  end.
Lemma escape_cons c l : escape_chars (c :: l) =
  (if (c =? "'")%char then ["'"; "'"]%char else if (c =? "\")%char then ["\"; "\"]%char else [c]) ++ escape_chars l.
Proof.
  unfold escape_chars, replace_char. cbn [flat_map]. rewrite flat_map_app. f_equal.
  destruct (Ascii.eqb_spec c "'") as [->|Q]; [reflexivity|]. cbn. now destruct (c =? "\")%char.
Qed.
(** Whatever the tenant's identifier contains, the literal written into the
    ClickHouse query ends where it should and reads back as the identifier: no
    quote or backslash of it becomes part of the query. *)
Theorem literal_contained s rest : head rest <> Some "'"%char ->
  read_literal (explode (escapeCh s) ++ "'"%char :: rest) = Some (explode s, rest).
Proof.
  intros N. unfold escapeCh. rewrite explode_implode. induction (explode s) as [|c l IH].
  - cbn. destruct rest as [|d rest]; [easy|]. destruct (Ascii.eqb_spec d "'") as [->|D]; [now destruct N | reflexivity].
  - rewrite escape_cons. destruct (Ascii.eqb_spec c "'") as [->|Q]; [cbn; now rewrite IH|].
    destruct (Ascii.eqb_spec c "\") as [->|B]; [cbn; now rewrite IH|].
    cbn. rewrite (proj2 (Ascii.eqb_neq c "'") Q), (proj2 (Ascii.eqb_neq c "\") B). now rewrite IH.
Qed.
Lemma literal_contained_witness :
  read_literal (explode (escapeCh "a' OR '1'='1\") ++ "'"%char :: explode " AND x") = Some (explode "a' OR '1'='1\", explode " AND x").
Proof. apply literal_contained. discriminate. Defined.

(** ** The two stores agree *)
Lemma remove_dups_Permutation {A} `{EqDecision A} (l l' : list A) : l ≡ₚ l' -> remove_dups l ≡ₚ remove_dups l'.
Proof.
  intros P. apply NoDup_Permutation; [apply NoDup_remove_dups.. |]. intros x. rewrite !elem_of_remove_dups. now rewrite P.
Qed.
Lemma fmap_filter {A B} (f : A -> B) (p : B -> bool) l : List.filter p (f <$> l) = f <$> List.filter (fun x => p (f x)) l.
Proof. induction l as [|x l IH]; cbn; [easy|]. rewrite IH. now destruct (p (f x)). Qed.

Section GroupLaws.
Context {A : Type} (bucket : A -> string) (type : A -> AttemptEventType) (attempt : A -> Id).
Lemma group_by_Permutation l l' : l ≡ₚ l' -> group_by bucket type attempt l ≡ₚ group_by bucket type attempt l'.
Proof.
  intros P. unfold group_by. rewrite !merge_sort_Permutation.
  transitivity (group_row bucket type attempt l <$> remove_dups (bucket <$> l')); [apply fmap_Permutation, remove_dups_Permutation; now rewrite P|].
  erewrite list_fmap_ext; [reflexivity|]. intros j b _. unfold group_row, of_type. f_equal.
  1-3: now apply Permutation_length; repeat apply filter_Permutation.
  apply Permutation_length, remove_dups_Permutation. now rewrite (filter_Permutation _ _ _ P).
Qed.
Lemma group_by_fmap {B} (f : B -> A) l :
  group_by bucket type attempt (f <$> l) = group_by (bucket ∘ f) (type ∘ f) (attempt ∘ f) l.
Proof.
  unfold group_by. f_equal. rewrite <- list_fmap_compose. apply list_fmap_ext. intros j b _. unfold group_row, of_type.
  rewrite fmap_filter, !fmap_filter, !length_fmap, <- list_fmap_compose. reflexivity.
Qed.
Lemma group_by_ordered l : StronglySorted more_events (group_by bucket type attempt l).
Proof.
  apply Sorted_StronglySorted; [intros a b c; unfold more_events; lia|]. apply Sorted_merge_sort. intros a b. unfold more_events. lia.
Qed.
End GroupLaws.

Section Agreement.
Context `{Rounding} `{ClickHouseTime}.
Variables (uuid_text : Id -> string).
Abbreviation enriched i := (omap (enrich uuid_text (ig_store i)) (merge_sort by_id (ig_stream i))).

(** The times have four-digit years from 1970 on. *)
Definition datable (i : Ingestion) : Prop :=
  Forall (fun r => 0 <= ev_occurred_at (st_event r) < 253402300800000) (ig_stream i).
(** No event falls into the fraction of a second by which the two windows differ. *)
Definition no_gap (hours : Q) (i : Ingestion) : Prop :=
  Forall (fun r => ~ now (ig_store i) / 1000 * 1000 - window_ms hours <= ev_occurred_at (st_event r) <
    now (ig_store i) - window_ms hours) (ig_stream i).
(** The same state at the last whole second of the clock. *)
Definition at_second (i : Ingestion) : Ingestion := i <| ig_store ::= fun s => s <| now ::= fun t => t / 1000 * 1000 |> |>.

Lemma enrich_event s r f : enrich uuid_text s r = Some f -> fr_event f = st_event r.
Proof. unfold enrich. destruct (attempts s !! _); intros [= <-]. reflexivity. Qed.

(** Two clocks whose windows part the events of the stream alike give one rollup. *)
Lemma postgres_clock tenantId grain hours i (f : Z -> Z) :
  Forall (fun r => f (now (ig_store i)) - window_ms hours <= ev_occurred_at (st_event r) <->
    now (ig_store i) - window_ms hours <= ev_occurred_at (st_event r)) (ig_stream i) ->
  eventRollupPostgres uuid_text tenantId grain hours (i <| ig_store ::= fun s => s <| now ::= f |> |>) =
  eventRollupPostgres uuid_text tenantId grain hours i.
Proof.
  intros W. unfold eventRollupPostgres. cbn -[enrich omap window_ms]. f_equal.
  change (enrich uuid_text ((ig_store i) <| now ::= f |>)) with (enrich uuid_text (ig_store i)).
  apply List.filter_ext_in. intros e I. apply list_elem_of_In, list_elem_of_omap in I as (r & I & E).
  rewrite Forall_forall in W. unfold recent_pg. rewrite (enrich_event _ _ _ E). f_equal.
  apply eq_true_iff_eq. rewrite !Z.leb_le. now apply W.
Qed.

(** C31: Once the copy is complete, the ClickHouse rollup has the rows that Postgres
    would give at the last whole second (ClickHouse's now() has no fraction), whatever
    the grain, the tenant and the number of hours: the same buckets with the same
    numbers of events, gated milestones, defence messages and distinct attempts.  So
    the two stores answer alike when no event lies in the fraction of a second by
    which their windows differ ([fraction_disagrees] is one that does); both list the
    buckets by falling number of events.  The years must have four digits. *)
Theorem rollups_agree tenantId grain hours i : ig_clickhouse i = analytics_row <$> enriched i -> datable i ->
  eventRollup uuid_text true tenantId grain hours i ≡ₚ
    eventRollup uuid_text false tenantId grain hours (at_second i) /\
  (no_gap hours i ->
    eventRollup uuid_text true tenantId grain hours i ≡ₚ eventRollup uuid_text false tenantId grain hours i) /\
  forall enabled, StronglySorted more_events (eventRollup uuid_text enabled tenantId grain hours i).
Proof.
  intros C W. assert (A : eventRollup uuid_text true tenantId grain hours i ≡ₚ
    eventRollup uuid_text false tenantId grain hours (at_second i)).
  { unfold eventRollup, eventRollupClickHouse, eventRollupPostgres. rewrite C, fmap_filter, group_by_fmap.
    set (p := recent_pg tenantId hours (now (ig_store i) / 1000 * 1000)).
    rewrite (List.filter_ext_in _ p).
    - transitivity (group_by (bucketExpr uuid_text grain) (fun r => ev_type (fr_event r)) (fun r => ev_attempt_id (fr_event r))
        (List.filter p (enriched i))); [destruct grain; reflexivity |].
      apply group_by_Permutation, filter_Permutation. now rewrite merge_sort_Permutation.
    - intros f I. apply list_elem_of_In, list_elem_of_omap in I as (r & I & E). rewrite merge_sort_Permutation in I.
      unfold datable in W. rewrite Forall_forall in W. subst p.
      unfold recent_ch, recent_pg. cbn [an_tenant_id analytics_row an_occurred_at]. rewrite (enrich_event _ _ _ E).
      now rewrite ch_reads by exact (W r I). }
  split; [exact A |]. split; [|intros []; apply group_by_ordered].
  intros N. rewrite A. unfold at_second, eventRollup. rewrite postgres_clock; [reflexivity |].
  eapply Forall_impl; [exact N |]. intros r G. cbn beta in G |- *.
  set (w := window_ms hours) in *. Z.to_euclidean_division_equations. lia.
Qed.
End Agreement.

(** The backlog of the samples, copied once; and after two passes that could
    not move the cursor. *)
Module Copied.
#[local] Existing Instance binary64.
Definition uuid_text (id : Id) : string := pretty id.
Definition a_minute_later (i : Ingestion) : Ingestion := i <| ig_store ::= fun s => s <| now := 1700000060500 |> |>.
Definition once : Ingestion := a_minute_later (ticks uuid_text 10 1 (Backlog.start None)).
Definition twice : Ingestion := a_minute_later (@passes _ uuid_text 10 Backlog.read_only_cursor 2 (Backlog.start None)).

Lemma rollups_agree_witness :
  eventRollup uuid_text true 1 G_activity 24 once ≡ₚ eventRollup uuid_text false 1 G_activity 24 once /\
  eventRollup uuid_text true 1 G_activity 24 once = [mkEventRollupRow "3" 2 0 0 1].
Proof.
  split; [|vm_compute; reflexivity]. refine (proj1 (proj2 (rollups_agree uuid_text 1 G_activity 24 once _ _)) _).
  - vm_compute. reflexivity.
  - repeat constructor; vm_compute; (discriminate || reflexivity).
  - repeat constructor; vm_compute; intros [_ L]; discriminate L.
Defined.

(** Half a second after the hour of the events is over, ClickHouse still counts those
    that Postgres no longer does. *)
Definition just_over : Ingestion := once <| ig_store ::= fun s => s <| now := 1700003600500 |> |>.
Lemma fraction_disagrees :
  eventRollup uuid_text true 1 G_activity 1 just_over = [mkEventRollupRow "3" 2 0 0 1] /\
  eventRollup uuid_text false 1 G_activity 1 just_over = [].
Proof. vm_compute. split; reflexivity. Qed.

(** Repeated batches are counted again. *)
Lemma duplicates_counted : eventRollup uuid_text true 1 G_activity 24 twice = [mkEventRollupRow "3" 4 0 0 1] /\
  eventRollup uuid_text false 1 G_activity 24 twice = [mkEventRollupRow "3" 2 0 0 1].
Proof. vm_compute. split; reflexivity. Qed.
End Copied.
