(* ===== verification/AttemptService.v ===== *)
(** * The attempt service

    attempt/attempt.service.ts: create, provision, start, check, submit,
    suspend, cache and reactivate an attempt.  The orchestrator is another
    service: [Orchestrator]; every call to it is logged in [calls]. *)
From Stdlib Require Import Ascii.
From S2P Require Import Prelude JsNum Binary64 Effects Schema AttemptStatus EventStore Bkt Mastery Eligibility Criteria AttemptRepository ValidatorRunner Artifact Evaluation.

(** ** attempt/orchestrator-client.interface.ts *)
Inductive ProvisionStatus := P_PROVISIONING | P_READY | P_FAILED.
#[export] Instance provision_status_dec : EqDecision ProvisionStatus.
Proof. solve_decision. Defined.
Record ProvisionResult := mkProvisionResult { pres_environmentId : string; pres_status : ProvisionStatus }.
Record ConnectResult := mkConnectResult {
  con_terminalWsUrl : string; con_editorUrl : string; con_sessionToken : string; con_expiresAt : string }.
Record InjectFaultResult := mkInjectFaultResult { inj_applied : bool; inj_symptomVerified : bool }.

(** Each answer may depend on the calls made before; [inl] is a rejected call. *)
Class Orchestrator := {
  orch_provision : list RemoteCall -> ProvisionRequest -> exn + ProvisionResult;
  orch_injectFault : list RemoteCall -> string -> FaultSpec -> Id -> exn + InjectFaultResult;
  orch_destroy : list RemoteCall -> string -> string -> Id -> exn + unit;
  orch_connect : list RemoteCall -> string -> Id -> exn + ConnectResult
}.

Definition remote {A} (call : RemoteCall) (answer : list RemoteCall -> exn + A) : prog Store A :=
  let* r := act (fun s => inr (answer (calls s), s <| calls ::= fun l => l ++ [call] |>)) in
  match r with inl e => Throw e | inr a => Ret a end.

(** ** Provisioning requests *)
Definition tierMap (t : EnvTier) : string :=
  match t with
  | BROWSER => "T0_BROWSER"
  | SHARED_CONTAINER => "T1_SHARED_CONTAINER"
  | ISOLATED_VM => "T2_ISOLATED_MICROVM"
  | CLOUD_ACCOUNT => "T3_CLOUD_ACCOUNT"
  end.

Definition is_digit (c : ascii) : bool := ((48 <=? nat_of_ascii c) && (nat_of_ascii c <=? 57))%nat.
(** [.] matches any character but a line terminator (the code units 10 and 13;
    U+2028 and U+2029 are not single bytes). *)
Definition is_newline (c : ascii) : bool := (Nat.eqb (nat_of_ascii c) 10 || Nat.eqb (nat_of_ascii c) 13).

Fixpoint span_digits (l : list ascii) : list ascii * list ascii :=
  match l with
  | c :: l' => if is_digit c then let '(d, rest) := span_digits l' in (c :: d, rest) else ([], l)
  | [] => ([], [])
  end.

(** The pattern /^(.* )\.v(\d+)$/ (without the blank), read from the end: the
    digits, then "v", then ".". *)
Definition version_suffix (fixture : string) : option string :=
  let '(digits, rest) := span_digits (rev (String.list_ascii_of_string fixture)) in
  match digits, rest with
  | _ :: _, v :: dot :: prefix =>
      if (Ascii.eqb v "v") && (Ascii.eqb dot ".") && forallb (fun c => negb (is_newline c)) prefix
      then Some (String.string_of_list_ascii (rev digits)) else None
  | _, _ => None
  end.
(** fixtureId is [match[1] + ".v" + match[2]], the whole string again. *)
Definition fixture_ref (fixture : string) : string * string := (fixture, default "1"%string (version_suffix fixture)).

Definition provision_request (attemptId : Id) (version : ActivityVersion) : ProvisionRequest :=
  let environment := s_environment (av_spec version) in
  mkProvisionRequest attemptId
    (default "unknown"%string (av_blueprint_id version))
    (default "1"%string (av_blueprint_version version))
    (tierMap (default SHARED_CONTAINER (environment ≫= e_tier)))
    (default 90%Z (environment ≫= e_ttl_minutes))
    (default 15%Z (environment ≫= e_idle_timeout_minutes))
    (fixture_ref <$> default [] (environment ≫= e_seed))
    (match s_health_gate (av_spec version) with Some (c :: l) => Some (c :: l) | _ => None end).

Record CreateAttemptInput := mkCreateAttemptInput {
  ca_tenantId : Id; ca_userId : Id; ca_activityVersionId : Id; ca_idempotencyKey : option string }.

Record CheckWorkResult := mkCheckWorkResult { cw_tasks : list TaskResult; cw_all_required_passed : bool }.

Definition status_text (st : AttemptStatus) : string :=
  match st with
  | CREATED => "CREATED" | PROVISIONING => "PROVISIONING" | READY => "READY" | IN_PROGRESS => "IN_PROGRESS"
  | SUBMITTED => "SUBMITTED" | EVALUATING => "EVALUATING" | PASSED => "PASSED" | FAILED => "FAILED"
  | COMPLETED => "COMPLETED" | PROVISION_FAILED => "PROVISION_FAILED" | SUSPENDED => "SUSPENDED"
  | EVAL_FAILED => "EVAL_FAILED" | EXPIRED => "EXPIRED" | ABANDONED => "ABANDONED" | CACHED => "CACHED"
  end.

(** ** AttemptService *)
Section AttemptService.
Context `{Rounding} `{MathPow} `{Executor} `{ArtifactGrading} `{FaultPaths} `{Orchestrator}.
Variable quotaDisabled : bool.

Definition eventHasBeenRecorded (attemptId : Id) (type : AttemptEventType) : prog Store bool :=
  let* evs := replay attemptId in
  Ret (existsb (fun e => bool_decide (ev_type e = type)) evs).

Definition version_mode (versionId : Id) (s : Store) : option (Id * ActivityMode) :=
  v ← versions s !! versionId; a ← activities s !! av_activity_id v; Some (av_activity_id v, a_mode a).

Definition createAttempt (input : CreateAttemptInput) : prog Store (Id * Attempt) :=
  let* row := select (version_mode (ca_activityVersionId input)) in
  let* version := findOrThrow row in
  let* result := check quotaDisabled (ca_userId input) (ca_activityVersionId input) in
  if negb (eligible result) then attemptError (reasons result)
  else
    let* priorAttempt := findMostRecentCompletedAttempt (ca_userId input) version.1 in
    let* attempt := create (mkCreateRow (ca_tenantId input) (ca_userId input) version.1
      (ca_activityVersionId input) version.2 (ca_idempotencyKey input)
      (fst <$> priorAttempt) ((fun p => (retry_index p.2 + 1)%Z) <$> priorAttempt)) in
    let* alreadyHasEvent := eventHasBeenRecorded attempt.1 ATTEMPT_CREATED in
    when (negb alreadyHasEvent)
      (appendTypedEvent attempt.1 SYSTEM ATTEMPT_CREATED
         (JObj [("activity_version_id"%string, jnat (ca_activityVersionId input))])) ;;
    Ret attempt.

Definition t0_faults (spec : ActivitySpec) : list FaultSpec :=
  List.filter (fun f => String.eqb (f_apply_at f) "T0") (default [] (s_faults spec)).

Definition applyT0Faults (attemptId : Id) (environmentId : string) (spec : ActivitySpec) : prog Store unit :=
  for_each (t0_faults spec) (fun fault =>
    let* result := remote (CallInjectFault environmentId fault attemptId)
                     (fun log => orch_injectFault log environmentId fault attemptId) in
    appendTypedEvent attemptId SYSTEM FAULT_INJECTED
      (JObj [("fault_id"%string, JStr (f_id fault)); ("applied"%string, JBool (inj_applied result));
             ("symptom_verified"%string, JBool (inj_symptomVerified result))])).

(** [provision] after the orchestrator has answered. *)
Definition finish_provision (attemptId : Id) (version : ActivityVersion) (result : ProvisionResult)
    : prog Store Attempt :=
  let* refreshed := findById attemptId in
  match refreshed with
  | None => singleAttemptError "ATTEMPT_VANISHED"
  | Some refreshed =>
      match pres_status result with
      | P_READY =>
          appendTypedEvent attemptId SYSTEM ENV_READY
            (JObj [("environment_id"%string, JStr (pres_environmentId result))]) ;;
          applyT0Faults attemptId (pres_environmentId result) (av_spec version) ;;
          transition attemptId (Schema.version refreshed)
            (fun _ => (to READY) <| u_environmentId := Some (Some (pres_environmentId result)) |>)
      | _ =>
          appendTypedEvent attemptId SYSTEM ENV_FAILED (JObj []) ;;
          transition attemptId (Schema.version refreshed) (fun _ => to PROVISION_FAILED)
      end
  end.

Definition provision (attemptId : Id) : prog Store Attempt :=
  let* row := findById attemptId in
  let* attempt := findOrThrow row in
  if negb (bool_decide (status attempt = CREATED)) then singleAttemptError "INVALID_STATE_TRANSITION"
  else
    let* version := select_or_throw (fun s => versions s !! activity_version_id attempt) in
    appendTypedEvent attemptId SYSTEM ENV_REQUESTED
      (JObj [("blueprint_id"%string, jopt JStr (av_blueprint_id version))]) ;;
    transition attemptId (Schema.version attempt) (fun _ => to PROVISIONING) ;;
    let request := provision_request attemptId version in
    let* result := remote (CallProvision request) (fun log => orch_provision log request) in
    finish_provision attemptId version result.

Definition markStarted (attemptId : Id) : prog Store Attempt :=
  let* row := findById attemptId in
  let* attempt := findOrThrow row in
  if negb (bool_decide (status attempt = READY)) then Ret attempt
  else
    appendTypedEvent attemptId LEARNER ATTEMPT_STARTED (JObj []) ;;
    transition attemptId (Schema.version attempt) (fun clock => (to IN_PROGRESS) <| u_startedAt := Some clock |>).

Definition checkWork (attemptId : Id) : prog Store CheckWorkResult :=
  let* row := findById attemptId in
  let* attempt := findOrThrow row in
  if negb (bool_decide (status attempt = IN_PROGRESS)) then singleAttemptError "INVALID_STATE_TRANSITION"
  else
    match truthy_key (environment_id attempt) with
    | None => singleAttemptError "NO_ENVIRONMENT"
    | Some environmentId =>
        let* vrow := select (fun s => versions s !! activity_version_id attempt) in
        let* version := findOrThrow vrow in
        let* summaries := run_validators (mkRunValidationInput attemptId environmentId ScopeAll "manual"
          (default [] (s_tasks (av_spec version)))) in
        rebuildForAttempt attemptId ;;
        touch attemptId ;;
        Ret (mkCheckWorkResult summaries (forallb tr_passed (List.filter tr_required summaries)))
    end.

Definition submit (attemptId : Id) : prog Store Attempt :=
  let* row := findById attemptId in
  let* attempt := findOrThrow row in
  if negb (bool_decide (status attempt = IN_PROGRESS)) then singleAttemptError "INVALID_STATE_TRANSITION"
  else
    appendTypedEvent attemptId LEARNER E_SUBMITTED (JObj []) ;;
    transition attemptId (Schema.version attempt) (fun clock => (to SUBMITTED) <| u_submittedAt := Some clock |>) ;;
    evaluate attemptId ;;
    let* evaluated := findById attemptId in
    match evaluated with
    | None => singleAttemptError "ATTEMPT_VANISHED"
    | Some evaluated =>
        match truthy_key (environment_id evaluated) with
        | Some environmentId =>
            try_catch (remote (CallDestroy environmentId "submit" attemptId)
                         (fun log => orch_destroy log environmentId "submit" attemptId))
                      (fun _ => Ret tt)
        | None => Ret tt
        end ;;
        Ret evaluated
    end.

Definition connect (attemptId : Id) : prog Store ConnectResult :=
  let* row := findById attemptId in
  let* attempt := findOrThrow row in
  match truthy_key (environment_id attempt) with
  | None => singleAttemptError "NO_ENVIRONMENT"
  | Some environmentId =>
      remote (CallConnect environmentId attemptId) (fun log => orch_connect log environmentId attemptId)
  end.

Definition handleEnvironmentDestroyed (attemptId : Id) (reason : string) : prog Store unit :=
  let* row := findById attemptId in
  match row with
  | None => Ret tt
  | Some attempt =>
      if includes AttemptStatusGroups.TERMINAL (status attempt) then Ret tt
      else if includes [SUSPENDED; CACHED] (status attempt) && negb (String.eqb reason "submit") then Ret tt
      else
        let nextStatus := if String.eqb reason "submit" then EVALUATING else SUSPENDED in
        transition attemptId (Schema.version attempt)
          (fun _ => (to nextStatus) <| u_environmentId := Some None |>) ;;
        Ret tt
  end.

Definition cache (attemptId : Id) : prog Store unit :=
  let* row := findById attemptId in
  match row with
  | None => Ret tt
  | Some attempt =>
      if negb (bool_decide (status attempt = SUSPENDED)) then Ret tt
      else
        appendTypedEvent attemptId SYSTEM SNAPSHOT_TAKEN
          (JObj [("snapshot_id"%string, JNull); ("captured"%string, JBool false);
                 ("reason"%string, JStr "tier_does_not_snapshot")]) ;;
        appendTypedEvent attemptId SYSTEM E_SUSPENDED
          (JObj [("reason"%string, JStr "cache_sweep_inactive"); ("from_status"%string, JStr (status_text (status attempt)))]) ;;
        transition attemptId (Schema.version attempt)
          (fun clock => (to CACHED) <| u_snapshotId := Some None |> <| u_snapshotTakenAt := Some (Some clock) |>) ;;
        Ret tt
  end.

Definition reactivate (attemptId : Id) : prog Store Attempt :=
  let* row := findById attemptId in
  let* attempt := findOrThrow row in
  if negb (includes REACTIVATABLE_STATUSES (status attempt)) then Ret attempt
  else
    appendTypedEvent attemptId LEARNER RESUMED
      (JObj [("from_status"%string, JStr (status_text (status attempt)));
             ("snapshot_id"%string, jopt JStr (snapshot_id attempt))]) ;;
    transition attemptId (Schema.version attempt) (fun _ => (to CREATED) <| u_environmentId := Some None |>).
End AttemptService.
