(* ===== verification/AttemptLaws.v ===== *)
(** * What each handler of the attempt service does

    The functional behaviour of AttemptService's handlers, run alone: every
    branch, the errors included. *)
From stdpp Require Import sorting.
From S2P Require Import Prelude JsNum Binary64 Effects Schema AttemptStatus EventStore Bkt Mastery Eligibility Criteria Scoring AttemptRepository ValidatorRunner Artifact Evaluation AttemptService.

(** ** Creation *)
Section Create.
Context `{Rounding}.
Variable quotaDisabled : bool.

Definition event_of (ty : AttemptEventType) (id : Id) (s : Store) : Prop :=
  exists e, e ∈ events s /\ ev_attempt_id e = id /\ ev_type e = ty.

Lemma run_hasBeenRecorded id ty s : exists b, run (eventHasBeenRecorded id ty) s = (inr b, s) /\
  (b = true <-> event_of ty id s).
Proof.
  eexists. split; [reflexivity |]. rewrite existsb_exists. unfold event_of, replay_rows.
  setoid_rewrite <- list_elem_of_In. setoid_rewrite merge_sort_Permutation. setoid_rewrite list_elem_of_In.
  setoid_rewrite List.filter_In. setoid_rewrite Nat.eqb_eq. setoid_rewrite bool_decide_eq_true.
  split; intros (e & E); exists e; tauto.
Qed.

(** The attempts a new one on the activity retries; the newest counts. *)
Definition retryable (u a : Id) (r : Attempt) : Prop :=
  user_id r = u /\ activity_id r = a /\ status r ∈ AttemptStatusGroups.RETRYABLE_FROM.
Definition retries (u a : Id) (s : Store) (r : Attempt) : Prop :=
  (retry_of_attempt_id r = None /\ retry_index r = 0%Z /\
     forall id p, attempts s !! id = Some p -> ~ retryable u a p) \/
  (exists id0 p0, attempts s !! id0 = Some p0 /\ retryable u a p0 /\
     (forall id p, attempts s !! id = Some p -> retryable u a p -> (created_at p <= created_at p0)%Z) /\
     retry_of_attempt_id r = Some id0 /\ retry_index r = (retry_index p0 + 1)%Z).

Lemma run_findPrior u a s : exists o, run (findMostRecentCompletedAttempt u a) s = (inr o, s) /\
  match o with
  | None => forall id p, attempts s !! id = Some p -> ~ retryable u a p
  | Some (id0, p0) => attempts s !! id0 = Some p0 /\ retryable u a p0 /\
      forall id p, attempts s !! id = Some p -> retryable u a p -> (created_at p <= created_at p0)%Z
  end.
Proof.
  eexists. split; [reflexivity |]. set (q := fun r => _ && _ && _).
  assert (Q : forall r, q r = true <-> retryable u a r).
  { intros r. subst q. cbn beta. unfold retryable. rewrite !andb_true_iff, !Nat.eqb_eq, includes_spec. tauto. }
  pose proof (first_desc_spec (fun kv => created_at kv.2) (where_attempts q s)) as F.
  destruct (first_desc _ _) as [[id0 p0]|].
  - destruct F as [I M]. apply where_attempts_spec in I as [L P]. split_and!; [easy | now apply Q |].
    intros id p L' R. apply (M (id, p)). apply where_attempts_spec. now rewrite Q.
  - intros id p L R. assert (X : (id, p) ∈ where_attempts q s) by (apply where_attempts_spec; now rewrite Q).
    rewrite F in X. now apply elem_of_nil in X.
Qed.

(** A row the idempotency key of the input already names. *)
Definition replayed (input : CreateAttemptInput) (s : Store) (id : Id) (r : Attempt) : Prop :=
  attempts s !! id = Some r /\ user_id r = ca_userId input /\ activity_version_id r = ca_activityVersionId input /\
  exists key, truthy_key (ca_idempotencyKey input) = Some key /\ idempotency_key r = Some key.

Lemma has_key_spec u v key r : has_key u v key r = true <->
  user_id r = u /\ activity_version_id r = v /\ idempotency_key r = Some key.
Proof. unfold has_key. rewrite !andb_true_iff, !Nat.eqb_eq, bool_decide_eq_true. tauto. Qed.

Lemma run_create row s :
  (exists id r, run (create row) s = (inr (id, r), s) /\ attempts s !! id = Some r /\
     user_id r = cr_userId row /\ activity_version_id r = cr_activityVersionId row /\
     exists key, truthy_key (cr_idempotencyKey row) = Some key /\ idempotency_key r = Some key) \/
  (run (create row) s = (inr (fresh_uuid s, new_attempt row (now s)),
     s <| attempts ::= <[fresh_uuid s := new_attempt row (now s)]> |>) /\
   forall id r key, attempts s !! id = Some r -> user_id r = cr_userId row ->
     activity_version_id r = cr_activityVersionId row -> truthy_key (cr_idempotencyKey row) = Some key ->
     idempotency_key r <> Some key).
Proof.
  unfold create, insert_attempt. destruct (truthy_key (cr_idempotencyKey row)) as [key|] eqn:K.
  - run_simpl. set (l := where_attempts _ s).
    assert (X : forall id r, (id, r) ∈ l <-> attempts s !! id = Some r /\ user_id r = cr_userId row /\
      activity_version_id r = cr_activityVersionId row /\ idempotency_key r = Some key).
    { intros id r. subst l. now rewrite where_attempts_spec, has_key_spec. }
    destruct l as [|[id r] l0] eqn:E; cbn [head].
    + right. run_simpl. fold l. rewrite E. split; [reflexivity |].
      intros id r key' L U V [= <-] J. apply (not_elem_of_nil (id, r)). now apply X.
    + left. exists id, r. run_simpl. split; [reflexivity |].
      destruct (proj1 (X id r)) as (L & U & V & J); [now left |]. split_and!; eauto.
  - right. run_simpl. split; [reflexivity | easy].
Qed.
End Create.

(** What a successful creation leaves: the row and its ATTEMPT_CREATED event. *)
Definition created (input : CreateAttemptInput) (v : ActivityVersion) (a : Activity) (s s' : Store) (id : Id) (r : Attempt) : Prop :=
  attempts s !! id = None /\ s' = s <| attempts ::= <[id := r]> |> <| events := events s' |> /\
  status r = CREATED /\ version r = 1%nat /\ user_id r = ca_userId input /\ tenant_id r = ca_tenantId input /\
  activity_version_id r = ca_activityVersionId input /\ activity_id r = av_activity_id v /\ mode r = a_mode a /\
  environment_id r = None /\ idempotency_key r = truthy_key (ca_idempotencyKey input) /\
  retries (ca_userId input) (av_activity_id v) s r /\
  exists e, events s' = events s ++ [e] /\ ev_attempt_id e = id /\ ev_type e = ATTEMPT_CREATED /\ ev_seq e = 1%nat.

Lemma events_unknown s id : (forall e, e ∈ events s -> is_Some (attempts s !! ev_attempt_id e)) ->
  attempts s !! id = None -> of_attempt id (events s) = [].
Proof.
  intros F N. destruct (of_attempt id (events s)) as [|e l] eqn:E; [easy |].
  assert (I : e ∈ of_attempt id (events s)) by (rewrite E; now left).
  unfold of_attempt in I. apply list_elem_of_In, List.filter_In in I as [I X]. apply Nat.eqb_eq in X.
  apply list_elem_of_In, F in I as [r R]. congruence.
Qed.

(** The handler after the eligibility check. *)
Definition create_eligible (input : CreateAttemptInput) (v : ActivityVersion) (a : Activity) : prog Store (Id * Attempt) :=
  let* prior := findMostRecentCompletedAttempt (ca_userId input) (av_activity_id v) in
  let* attempt := create (mkCreateRow (ca_tenantId input) (ca_userId input) (av_activity_id v)
    (ca_activityVersionId input) (a_mode a) (ca_idempotencyKey input)
    (fst <$> prior) ((fun p => (retry_index p.2 + 1)%Z) <$> prior)) in
  let* recorded := eventHasBeenRecorded attempt.1 ATTEMPT_CREATED in
  when (negb recorded) (appendTypedEvent attempt.1 SYSTEM ATTEMPT_CREATED
    (JObj [("activity_version_id"%string, jnat (ca_activityVersionId input))])) ;;
  Ret attempt.

Lemma run_createAttempt `{Rounding} q input s v a :
  versions s !! ca_activityVersionId input = Some v -> activities s !! av_activity_id v = Some a ->
  run (createAttempt q input) s =
  match reasons_of q (ca_userId input) (ca_activityVersionId input) v s with
  | [] => run (create_eligible input v a) s
  | rs => (inl (AttemptErrors rs), s)
  end.
Proof.
  intros V A. unfold createAttempt. rewrite run_bind, run_select. unfold version_mode. rewrite V.
  cbn [mbind option_bind]. rewrite A. cbn [mbind option_bind findOrThrow bind fst snd]. rewrite run_bind, run_check, V. cbv zeta. cbn iota beta.
  destruct (reasons_of _ _ _ _ _); reflexivity.
Qed.

Lemma run_create_eligible input s v a :
  (forall e, e ∈ events s -> is_Some (attempts s !! ev_attempt_id e)) ->
  (exists id r s', run (create_eligible input v a) s = (inr (id, r), s') /\ created input v a s s' id r) \/
  (exists id r s', run (create_eligible input v a) s = (inr (id, r), s') /\ replayed input s id r /\
     (event_of ATTEMPT_CREATED id s -> s' = s)).
Proof.
  intros F. unfold create_eligible.
  destruct (run_findPrior (ca_userId input) (av_activity_id v) s) as (prior & E1 & P).
  set (row := mkCreateRow (ca_tenantId input) (ca_userId input) (av_activity_id v) (ca_activityVersionId input)
    (a_mode a) (ca_idempotencyKey input) (fst <$> prior) ((fun p => (retry_index p.2 + 1)%Z) <$> prior)).
  destruct (run_create row s) as [(id & r & E2 & L & U & W & K) | [E2 N]].
  - right. destruct (run_hasBeenRecorded id ATTEMPT_CREATED s) as (b & E3 & B).
    rewrite run_bind, E1, run_bind. fold row. rewrite E2, run_bind. cbn [fst]. rewrite E3, run_bind.
    destruct b; cbn [negb when]; eexists id, r, _; (split; [reflexivity |]); (split; [now split_and! |]); [easy |].
    intros X. now apply B in X.
  - left. set (id := fresh_uuid s) in *. set (s1 := s <| attempts ::= _ |>) in *.
    assert (Fr : attempts s !! id = None) by apply fresh_uuid_new.
    assert (Ev : of_attempt id (events s1) = []) by exact (events_unknown s id F Fr).
    destruct (run_hasBeenRecorded id ATTEMPT_CREATED s1) as (b & E3 & B).
    assert (b = false) as ->.
    { apply not_true_is_false. rewrite B. intros (e & I & X & _). apply (not_elem_of_nil e). rewrite <- Ev.
      unfold of_attempt. apply list_elem_of_In, List.filter_In. rewrite <- list_elem_of_In, Nat.eqb_eq. easy. }
    eexists id, _, _. rewrite run_bind, E1, run_bind. fold row. rewrite E2, run_bind. cbn [fst]. rewrite E3, run_bind.
    cbn [negb when]. rewrite run_appendTypedEvent. split; [reflexivity |].
    unfold created. split; [exact Fr |]. split; [reflexivity |]. do 9 (split; [reflexivity |]). split.
    + destruct prior as [[id0 p0]|]; [|left; now split_and!].
      right. exists id0, p0. destruct P as (P1 & P2 & P3). split_and!; easy.
    + eexists. split; [reflexivity |]. unfold appended. cbn [ev_attempt_id ev_type ev_seq]. now rewrite Ev.
Qed.



(** ** Provisioning *)
Section Provision.
Context `{Orchestrator}.

(** The log of an attempt, by type and fault. *)
Definition trace (id : Id) (s : Store) : list (AttemptEventType * option string) :=
  (fun e => (ev_type e, jstring "fault_id" (ev_payload e))) <$> of_attempt id (events s).

Lemma trace_append id actor ty payload s :
  trace id (snd (run (appendTypedEvent id actor ty payload) s)) = trace id s ++ [(ty, jstring "fault_id" payload)].
Proof.
  rewrite run_appendTypedEvent. unfold trace. change (events (snd _)) with (events s ++ [appended id actor ty payload s]).
  rewrite appended_of_attempt, Nat.eqb_refl, fmap_app. reflexivity.
Qed.

Lemma run_remote {A} c (answer : list RemoteCall -> exn + A) s :
  run (remote c answer) s =
  (match answer (calls s) with inl e => inl e | inr a => inr a end, s <| calls ::= fun l => l ++ [c] |>).
Proof. unfold remote. run_simpl. now destruct (answer (calls s)). Qed.

Definition injection (env : string) (id : Id) (f : FaultSpec) : RemoteCall := CallInjectFault env f id.
Definition injected (f : FaultSpec) : AttemptEventType * option string := (FAULT_INJECTED, Some (f_id f)).

(** The faults are injected in author order, each recorded, until a call is rejected. *)
Lemma run_inject_all id env spec s : exists o s' tried,
  run (applyT0Faults id env spec) s = (o, s') /\
  attempts s' = attempts s /\ now s' = now s /\ calls s' = calls s ++ (injection env id <$> tried) /\
  match o with
  | inr _ => tried = t0_faults spec /\ trace id s' = trace id s ++ (injected <$> t0_faults spec)
  | inl e => exists f rest before, t0_faults spec = before ++ f :: rest /\ tried = before ++ [f] /\
      orch_injectFault (calls s ++ (injection env id <$> before)) env f id = inl e /\
      trace id s' = trace id s ++ (injected <$> before)
  end.
Proof.
  unfold applyT0Faults. revert s. induction (t0_faults spec) as [|f l IH]; intros s; cbn [for_each].
  - exists (inr tt), s, []. rewrite run_ret. split_and!; try easy; cbn; now rewrite app_nil_r.
  - rewrite run_bind, run_bind, run_remote. destruct (orch_injectFault (calls s) env f id) as [e|res] eqn:A.
    + eexists _, _, [f]. split; [reflexivity |]. split_and!; try easy.
      exists f, l, []. split_and!; try easy; cbn; now rewrite app_nil_r.
    + set (s1 := s <| calls ::= _ |>). rewrite run_appendTypedEvent.
      set (s2 := s1 <| events ::= _ |>).
      assert (T : trace id s2 = trace id s ++ [injected f]).
      { pose proof (trace_append id SYSTEM FAULT_INJECTED
          (JObj [("fault_id"%string, JStr (f_id f)); ("applied"%string, JBool (inj_applied res));
             ("symptom_verified"%string, JBool (inj_symptomVerified res))]) s1) as T.
        rewrite run_appendTypedEvent in T. exact T. }
      assert (C : calls s2 = calls s ++ [injection env id f]) by reflexivity.
      destruct (IH s2) as (o & s' & tried & E & A1 & A2 & A3 & A4).
      exists o, s', (f :: tried). split; [exact E |]. split; [exact A1 |]. split; [exact A2 |].
      split; [rewrite A3, C, <- app_assoc; reflexivity |]. destruct o as [e|[]].
      * destruct A4 as (g & rest & before & -> & -> & I & A5). exists g, rest, (f :: before).
        split_and!; [easy | easy | rewrite C, <- app_assoc in I; exact I | rewrite A5, T, <- app_assoc; reflexivity].
      * destruct A4 as [-> A5]. split; [reflexivity |]. rewrite A5, T, <- app_assoc. reflexivity.
Qed.
End Provision.

(** What a run of [provision] leaves, by the orchestrator's answer. *)
Inductive provisioned `{Orchestrator} (id : Id) (v : ActivityVersion) (r : Attempt) (s s' : Store) : exn + Attempt -> Prop :=
  | provision_rejected e r' :
      orch_provision (calls s) (provision_request id v) = inl e ->
      attempts s' = <[id := r']> (attempts s) -> status r' = PROVISIONING -> version r' = S (version r) ->
      calls s' = calls s ++ [CallProvision (provision_request id v)] ->
      trace id s' = trace id s ++ [(ENV_REQUESTED, None)] ->
      provisioned id v r s s' (inl e)
  | provision_failed res r' :
      orch_provision (calls s) (provision_request id v) = inr res -> pres_status res <> P_READY ->
      attempts s' = <[id := r']> (attempts s) -> status r' = PROVISION_FAILED -> version r' = S (S (version r)) ->
      environment_id r' = environment_id r ->
      calls s' = calls s ++ [CallProvision (provision_request id v)] ->
      trace id s' = trace id s ++ [(ENV_REQUESTED, None); (ENV_FAILED, None)] ->
      provisioned id v r s s' (inr r')
  | provision_ready res r' :
      orch_provision (calls s) (provision_request id v) = inr res -> pres_status res = P_READY ->
      attempts s' = <[id := r']> (attempts s) -> status r' = READY -> version r' = S (S (version r)) ->
      environment_id r' = Some (pres_environmentId res) ->
      calls s' = calls s ++ CallProvision (provision_request id v)
                   :: (injection (pres_environmentId res) id <$> t0_faults (av_spec v)) ->
      trace id s' = trace id s ++ [(ENV_REQUESTED, None); (ENV_READY, None)] ++ (injected <$> t0_faults (av_spec v)) ->
      provisioned id v r s s' (inr r')
  | provision_fault_rejected res r' e before f rest :
      orch_provision (calls s) (provision_request id v) = inr res -> pres_status res = P_READY ->
      t0_faults (av_spec v) = before ++ f :: rest ->
      orch_injectFault (calls s ++ CallProvision (provision_request id v) :: (injection (pres_environmentId res) id <$> before))
        (pres_environmentId res) f id = inl e ->
      attempts s' = <[id := r']> (attempts s) -> status r' = PROVISIONING -> version r' = S (version r) ->
      calls s' = calls s ++ CallProvision (provision_request id v)
                   :: (injection (pres_environmentId res) id <$> before ++ [f]) ->
      trace id s' = trace id s ++ [(ENV_REQUESTED, None); (ENV_READY, None)] ++ (injected <$> before) ->
      provisioned id v r s s' (inl e).

Section ProvisionRuns.
Context `{Orchestrator}.

(** The steps before the orchestrator's answer. *)
Lemma run_provision_begin id s r v : attempts s !! id = Some r -> versions s !! activity_version_id r = Some v ->
  status r = CREATED ->
  exists r1 s1, attempts s1 = <[id := r1]> (attempts s) /\ status r1 = PROVISIONING /\
    version r1 = S (version r) /\ environment_id r1 = environment_id r /\
    calls s1 = calls s ++ [CallProvision (provision_request id v)] /\
    trace id s1 = trace id s ++ [(ENV_REQUESTED, None)] /\
    run (provision id) s =
    match orch_provision (calls s) (provision_request id v) with
    | inl e => (inl e, s1)
    | inr res => run (finish_provision id v res) s1
    end.
Proof.
  intros L V St. set (u := fun _ : Z => to PROVISIONING).
  pose proof (trace_append id SYSTEM ENV_REQUESTED (JObj [("blueprint_id"%string, jopt JStr (av_blueprint_id v))]) s) as T.
  rewrite run_appendTypedEvent in T. cbn [snd] in T. set (s0 := s <| events ::= _ |>) in T.
  set (r1 := updated (u (now s0)) (version r) (now s0) r).
  exists r1, (s0 <| attempts := <[id := r1]> (attempts s0) |> <| calls ::= fun l => l ++ [CallProvision (provision_request id v)] |>).
  do 5 (split; [reflexivity |]). split; [exact T |].
  unfold provision. rewrite run_bind. unfold findById. rewrite run_select, L. cbn [findOrThrow bind].
  rewrite St. cbn [bool_decide decide_rel negb]. rewrite bool_decide_true by reflexivity. cbn [negb].
  rewrite run_bind, run_select_or_throw, V, run_bind, run_appendTypedEvent. fold s0.
  rewrite run_bind, run_transition. change (attempts s0 !! id) with (attempts s !! id). rewrite L, Nat.eqb_refl.
  cbv zeta. rewrite run_bind, run_remote.
  change (calls (s0 <| attempts := _ |>)) with (calls s).
  destruct (orch_provision _ _); reflexivity.
Qed.

Lemma run_finish_failed id v res s r : attempts s !! id = Some r -> pres_status res <> P_READY ->
  exists r' s', run (finish_provision id v res) s = (inr r', s') /\ attempts s' = <[id := r']> (attempts s) /\
    status r' = PROVISION_FAILED /\ version r' = S (version r) /\ environment_id r' = environment_id r /\
    calls s' = calls s /\ trace id s' = trace id s ++ [(ENV_FAILED, None)].
Proof.
  intros L N. pose proof (trace_append id SYSTEM ENV_FAILED (JObj []) s) as T.
  rewrite run_appendTypedEvent in T. cbn [snd] in T. set (s0 := s <| events ::= _ |>) in T.
  eexists _, _. split.
  - unfold finish_provision. rewrite run_bind. unfold findById. rewrite run_select, L.
    destruct (pres_status res); try easy; rewrite run_bind, run_appendTypedEvent; fold s0;
      rewrite run_transition; change (attempts s0 !! id) with (attempts s !! id); rewrite L, Nat.eqb_refl; reflexivity.
  - split_and!; try reflexivity. exact T.
Qed.

Lemma run_finish_ready id v res s r : attempts s !! id = Some r -> pres_status res = P_READY ->
  exists s1 o s2 tried, trace id s1 = trace id s ++ [(ENV_READY, None)] /\ calls s1 = calls s /\
    attempts s1 = attempts s /\ run (applyT0Faults id (pres_environmentId res) (av_spec v)) s1 = (o, s2) /\
    attempts s2 = attempts s /\ calls s2 = calls s ++ (injection (pres_environmentId res) id <$> tried) /\
    match o with
    | inr _ => tried = t0_faults (av_spec v) /\
        trace id s2 = trace id s ++ (ENV_READY, None) :: (injected <$> t0_faults (av_spec v)) /\
        exists r', run (finish_provision id v res) s = (inr r', s2 <| attempts := <[id := r']> (attempts s) |>) /\
          status r' = READY /\ version r' = S (version r) /\ environment_id r' = Some (pres_environmentId res)
    | inl e => run (finish_provision id v res) s = (inl e, s2) /\
        exists f rest before, t0_faults (av_spec v) = before ++ f :: rest /\ tried = before ++ [f] /\
          orch_injectFault (calls s ++ (injection (pres_environmentId res) id <$> before))
            (pres_environmentId res) f id = inl e /\
          trace id s2 = trace id s ++ (ENV_READY, None) :: (injected <$> before)
    end.
Proof.
  intros L R. set (payload := JObj [("environment_id"%string, JStr (pres_environmentId res))]).
  pose proof (trace_append id SYSTEM ENV_READY payload s) as T.
  rewrite run_appendTypedEvent in T. cbn [snd] in T. set (s1 := s <| events ::= _ |>) in T.
  destruct (run_inject_all id (pres_environmentId res) (av_spec v) s1) as (o & s2 & tried & E & A & N & C & O).
  exists s1, o, s2, tried. split; [exact T |]. do 2 (split; [reflexivity |]). split; [exact E |].
  split; [exact A |]. split; [exact C |].
  assert (G : run (finish_provision id v res) s = match o with
    | inl e => (inl e, s2)
    | inr _ => run (transition id (version r)
                 (fun _ => (to READY) <| u_environmentId := Some (Some (pres_environmentId res)) |>)) s2 end).
  { unfold finish_provision. rewrite run_bind. unfold findById. rewrite run_select, L, R.
    rewrite run_bind, run_appendTypedEvent. fold payload s1. rewrite run_bind, E. now destruct o. }
  rewrite G. destruct o as [e|[]].
  - split; [reflexivity |]. destruct O as (f & rest & before & O1 & O2 & O3 & O4). exists f, rest, before.
    split_and!; [easy | easy | exact O3 | rewrite O4, T, <- app_assoc; reflexivity].
  - destruct O as [-> O]. split; [reflexivity |]. split; [rewrite O, T, <- app_assoc; reflexivity |].
    rewrite run_transition, A. change (attempts s1) with (attempts s). rewrite L, Nat.eqb_refl.
    eexists. split; [reflexivity |]. easy.
Qed.
End ProvisionRuns.

Lemma run_provision `{Orchestrator} id s r v :
  attempts s !! id = Some r -> versions s !! activity_version_id r = Some v -> status r = CREATED ->
  exists o s', run (provision id) s = (o, s') /\ provisioned id v r s s' o.
Proof.
  intros L V St. destruct (run_provision_begin id s r v L V St) as (r1 & s1 & A1 & S1 & V1 & E1 & C1 & T1 & ->).
  destruct (orch_provision _ _) as [e|res] eqn:O.
  - eexists _, _. split; [reflexivity |]. now apply provision_rejected with r1.
  - assert (L1 : attempts s1 !! id = Some r1) by (rewrite A1; apply lookup_insert_eq).
    assert (I : forall r', <[id := r']> (attempts s1) = <[id := r']> (attempts s)) by (intros r'; now rewrite A1, insert_insert_eq).
    destruct (provision_status_dec (pres_status res) P_READY) as [R|R].
    + destruct (run_finish_ready id v res s1 r1 L1 R) as (s0 & o & s2 & tried & _ & _ & _ & _ & A2 & C2 & F).
      destruct o as [e|[]].
      * destruct F as (F & f & rest & before & F1 & F2 & F3 & F4). eexists _, _. split; [exact F |].
        rewrite C1, <- app_assoc in F3.
        apply (provision_fault_rejected _ _ _ _ _ res r1 e before f rest); try easy.
        -- congruence.
        -- rewrite C2, C1, <- app_assoc, F2. reflexivity.
        -- rewrite F4, T1, <- app_assoc. reflexivity.
      * destruct F as (F1 & F2 & r' & F & S2 & V2 & E2). eexists _, _. split; [exact F |].
        apply (provision_ready _ _ _ _ _ res r'); try easy.
        -- cbn [attempts set_field]. apply I.
        -- now rewrite V2, V1.
        -- cbn [calls set_field]. rewrite C2, C1, <- app_assoc, F1. reflexivity.
        -- unfold trace at 1. cbn [events set_field]. fold (trace id s2). rewrite F2, T1, <- app_assoc. reflexivity.
    + destruct (run_finish_failed id v res s1 r1 L1 R) as (r' & s' & F & A2 & S2 & V2 & E2 & C2 & T2).
      eexists _, _. split; [exact F |]. apply (provision_failed _ _ _ _ _ res r'); try easy.
      * rewrite A2. apply I.
      * now rewrite V2, V1.
      * congruence.
      * congruence.
      * rewrite T2, T1, <- app_assoc. reflexivity.
Qed.

(** C2: Provisioning a CREATED attempt sends the orchestrator one request built
    from the version's spec.  A READY answer makes the attempt READY with that
    environment, two versions on, after every T0 fault was injected in author
    order and recorded; a FAILED (or still PROVISIONING) answer makes it
    PROVISION_FAILED; a rejected call, of provision or of a fault, leaves it
    PROVISIONING and is rethrown. *)
Theorem provision_spec `{Orchestrator} id s r v :
  attempts s !! id = Some r -> versions s !! activity_version_id r = Some v -> status r = CREATED ->
  exists o s', run (provision id) s = (o, s') /\ provisioned id v r s s' o.
Proof. apply run_provision. Qed.

(** An orchestrator that always answers. *)
Definition ready_orchestrator : Orchestrator := {|
  orch_provision _ _ := inr (mkProvisionResult "env-2" P_READY);
  orch_injectFault _ _ _ _ := inr (mkInjectFaultResult true true);
  orch_destroy _ _ _ _ := inr tt;
  orch_connect _ _ _ := inr (mkConnectResult "wss" "https" "token" "soon") |}.

Lemma provision_spec_witness :
  exists r s', run (@provision ready_orchestrator 9) (Lab.store CREATED 1) = (inr r, s') /\
    status r = READY /\ environment_id r = Some "env-2"%string.
Proof.
  destruct (@provision_spec ready_orchestrator 9 (Lab.store CREATED 1) (Lab.attempt CREATED 1) Lab.activity_version
    eq_refl eq_refl eq_refl) as (o & s' & E & P).
  destruct P as [e r' O | res r' O N | res r' O R A S V Env C T | res r' e before f rest O R F I];
    cbn [orch_provision ready_orchestrator] in O; try discriminate O.
  - injection O as <-. now destruct (N eq_refl).
  - injection O as <-. exists r', s'. split; [exact E | split; [exact S | exact Env]].
  - discriminate I.
Defined.

(** ** Environment-destroyed events *)
(** The statuses on which the event changes nothing. *)
Definition destroy_ignored (st : AttemptStatus) (reason : string) : bool :=
  is_terminal st || includes [SUSPENDED; CACHED] st && negb (String.eqb reason "submit").

(** An ENV_DESTROYED event is ignored for unknown and terminal attempts, and
    for SUSPENDED or CACHED ones unless the reason is submit; otherwise it drops
    the environment and makes the attempt EVALUATING (reason submit) or
    SUSPENDED, one version on; it never fails. *)
Theorem destroyed_spec id reason s :
  match attempts s !! id with
  | Some r =>
      if destroy_ignored (status r) reason
      then run (handleEnvironmentDestroyed id reason) s = (inr tt, s)
      else exists r', run (handleEnvironmentDestroyed id reason) s = (inr tt, s <| attempts := <[id := r']> (attempts s) |>) /\
        status r' = (if String.eqb reason "submit" then EVALUATING else SUSPENDED) /\
        environment_id r' = None /\ version r' = S (version r) /\ user_id r' = user_id r
  | None => run (handleEnvironmentDestroyed id reason) s = (inr tt, s)
  end.
Proof.
  unfold handleEnvironmentDestroyed, destroy_ignored, is_terminal. rewrite run_bind. unfold findById. rewrite run_select.
  destruct (attempts s !! id) as [r|] eqn:L; [|reflexivity].
  destruct (includes AttemptStatusGroups.TERMINAL (status r)); [reflexivity |]. cbn [orb].
  destruct (includes [SUSPENDED; CACHED] (status r) && _); [reflexivity |].
  eexists. rewrite run_bind, run_transition, L, Nat.eqb_refl. split; [reflexivity |]. now destruct (String.eqb _ _).
Qed.

(** ** Starting, caching, reactivating *)
Lemma run_reactivate id s r : attempts s !! id = Some r ->
  if includes REACTIVATABLE_STATUSES (status r)
  then exists r' s', run (reactivate id) s = (inr r', s') /\ attempts s' = <[id := r']> (attempts s) /\
         status r' = CREATED /\ environment_id r' = None /\ version r' = S (version r) /\
         trace id s' = trace id s ++ [(RESUMED, None)] /\ task_states s' = task_states s /\ scores s' = scores s
  else run (reactivate id) s = (inr r, s).
Proof.
  intros L. unfold reactivate. rewrite run_bind. unfold findById. rewrite run_select, L. cbn [findOrThrow bind].
  destruct (includes _ _) eqn:I; cbn [negb]; [|reflexivity].
  rewrite run_bind. set (payload := JObj _). pose proof (trace_append id LEARNER RESUMED payload s) as T.
  rewrite run_appendTypedEvent in *. cbn [snd] in T. set (s1 := s <| events ::= _ |>) in *.
  rewrite run_transition. change (attempts s1) with (attempts s). rewrite L, Nat.eqb_refl.
  eexists _, _. split; [reflexivity |]. split_and!; try reflexivity. exact T.
Qed.

(** Reactivation moves a SUSPENDED, CACHED or PROVISION_FAILED attempt back to
    CREATED without an environment, logs RESUMED and keeps the task progress; a
    second click changes nothing, and so does a click on any other status. *)
Theorem reactivate_idempotent id s r : attempts s !! id = Some r ->
  exists r' s', run (reactivate id) s = (inr r', s') /\ run (reactivate id) s' = (inr r', s') /\
    task_states s' = task_states s /\
    if includes REACTIVATABLE_STATUSES (status r)
    then attempts s' = <[id := r']> (attempts s) /\ status r' = CREATED /\ environment_id r' = None /\
         trace id s' = trace id s ++ [(RESUMED, None)]
    else r' = r /\ s' = s.
Proof.
  intros L. pose proof (run_reactivate id s r L) as R. destruct (includes _ (status r)) eqn:I.
  - destruct R as (r' & s' & E & A & S & N & V & T & K & _). exists r', s'. split; [exact E |]. split_and!; try easy.
    assert (L' : attempts s' !! id = Some r') by (rewrite A; apply lookup_insert_eq).
    pose proof (run_reactivate id s' r' L') as R. now rewrite S in R.
  - exists r, s. easy.
Qed.

Lemma reactivate_idempotent_witness :
  exists r' s', run (reactivate 9) (Lab.store SUSPENDED 5) = (inr r', s') /\ run (reactivate 9) s' = (inr r', s').
Proof.
  destruct (reactivate_idempotent 9 (Lab.store SUSPENDED 5) (Lab.attempt SUSPENDED 5) eq_refl) as (r' & s' & E & E' & _).
  exists r', s'. easy.
Defined.

Lemma run_start id s r : attempts s !! id = Some r ->
  if bool_decide (status r = READY)
  then exists r' s', run (markStarted id) s = (inr r', s') /\ attempts s' = <[id := r']> (attempts s) /\
         status r' = IN_PROGRESS /\ started_at r' = Some (now s) /\ version r' = S (version r) /\
         environment_id r' = environment_id r /\ trace id s' = trace id s ++ [(ATTEMPT_STARTED, None)]
  else run (markStarted id) s = (inr r, s).
Proof.
  intros L. unfold markStarted. rewrite run_bind. unfold findById. rewrite run_select, L. cbn [findOrThrow bind].
  destruct (bool_decide _) eqn:I; cbn [negb]; [|reflexivity].
  rewrite run_bind. pose proof (trace_append id LEARNER ATTEMPT_STARTED (JObj []) s) as T.
  rewrite run_appendTypedEvent in *. cbn [snd] in T. set (s1 := s <| events ::= _ |>) in *.
  rewrite run_transition. change (attempts s1) with (attempts s). rewrite L, Nat.eqb_refl.
  eexists _, _. split; [reflexivity |]. split_and!; try reflexivity. exact T.
Qed.

(** The first interaction with a READY attempt starts its clock: IN_PROGRESS,
    started_at now, one ATTEMPT_STARTED event; every later call is a no-op, so the
    start time is never overwritten. *)
Theorem start_once id s r r1 s1 : attempts s !! id = Some r -> status r = READY ->
  run (markStarted id) s = (inr r1, s1) ->
  status r1 = IN_PROGRESS /\ started_at r1 = Some (now s) /\ environment_id r1 = environment_id r /\
  attempts s1 = <[id := r1]> (attempts s) /\ trace id s1 = trace id s ++ [(ATTEMPT_STARTED, None)] /\
  run (markStarted id) s1 = (inr r1, s1).
Proof.
  intros L St E. pose proof (run_start id s r L) as R. rewrite St, bool_decide_true in R by easy.
  destruct R as (r' & s' & E' & A & S & D & V & N & T). rewrite E in E'. injection E' as <- <-.
  split_and!; try easy.
  assert (L' : attempts s1 !! id = Some r1) by (rewrite A; apply lookup_insert_eq).
  pose proof (run_start id s1 r1 L') as R. now rewrite S in R.
Qed.

Lemma start_once_witness : exists r1 s1,
  run (markStarted 9) (Lab.store READY 3) = (inr r1, s1) /\ run (markStarted 9) s1 = (inr r1, s1).
Proof.
  destruct (run (markStarted 9) (Lab.store READY 3)) as [[e|r1] s1] eqn:E;
    [exfalso; apply (f_equal fst) in E; revert E; vm_compute; discriminate |].
  exists r1, s1. split; [reflexivity |].
  now apply (start_once 9 (Lab.store READY 3) (Lab.attempt READY 3) r1 s1 eq_refl eq_refl).
Defined.

(** ** Checking work *)
Lemma tasks_named_verdicts id s :
  tasks_named (of_attempt id (events s)) <-> Forall (fun v => is_Some v.2) (verdicts id s).
Proof.
  unfold tasks_named, verdicts. rewrite Forall_fmap. induction (of_attempt id (events s)) as [|e l IH]; [easy |].
  cbn [List.filter]. rewrite Forall_cons, IH. destruct (is_task_event e).
  - rewrite Forall_cons. split; intros [G1 G2]; split; auto.
  - split; [now intros [_ G] | intros G; now split].
Qed.

Section CheckWork.
Context `{Executor}.

(** What the runner promises of the summary of a task. *)
Definition verdict_on (t : TaskSpec) (m : TaskResult) : Prop :=
  tr_taskKey m = t_key t /\ tr_required m = t_required t /\
  (tr_passed m = true <-> passes (tr_validatorResults m)).

Definition work_input (id : Id) (env : string) (v : ActivityVersion) : RunValidationInput :=
  mkRunValidationInput id env ScopeAll "manual" (default [] (s_tasks (av_spec v))).

Lemma run_checkWork id s r v env : attempts s !! id = Some r -> status r = IN_PROGRESS ->
  truthy_key (environment_id r) = Some env -> versions s !! activity_version_id r = Some v ->
  log_ok s -> tasks_named (of_attempt id (events s)) ->
  exists ms s1 m, run (checkWork id) s =
      (inr (mkCheckWorkResult ms (forallb tr_passed (List.filter tr_required ms))),
       s1 <| task_states := m |> <| attempts ::= alter (fun r => r <| last_activity_at := now s1 |>) id |>) /\
    runner_frame s s1 /\ rebuilt id s1 m /\
    Forall2 verdict_on (default [] (s_tasks (av_spec v))) ms /\
    verdicts id s1 = verdicts id s ++ (verdict <$> ms).
Proof.
  intros L St Env V Lok N. destruct (run_validators_runs (work_input id env v) s) as (ms & s1 & E & F & M & Vd).
  assert (N1 : tasks_named (of_attempt id (events s1))).
  { apply tasks_named_verdicts. cbn [work_input rv_attemptId] in Vd. rewrite Vd, Forall_app. split; [now apply tasks_named_verdicts |].
    apply Forall_fmap, Forall_forall. intros x _. now eexists. }
  destruct (run_rebuild id s1 (rf_log _ _ F Lok) N1) as (m & R & E2).
  exists ms, s1, m. split_and!; try easy.
  unfold checkWork. rewrite run_bind. unfold findById. rewrite run_select, L. cbn [findOrThrow bind].
  rewrite bool_decide_true by easy. cbn [negb]. rewrite Env, run_bind, run_select, V. cbn [findOrThrow bind].
  rewrite run_bind. fold (work_input id env v). rewrite E, run_bind, E2, run_bind. reflexivity.
Qed.
End CheckWork.

(** "Check my work" gives one verdict per task of the version and says all
    required ones passed exactly when they did; it rebuilds the task states from
    the log and marks the attempt active, and touches neither the attempt's status
    and version nor scores, mastery and cooldowns. *)
Theorem check_work_spec `{Executor} id s r v env : attempts s !! id = Some r -> status r = IN_PROGRESS ->
  truthy_key (environment_id r) = Some env -> versions s !! activity_version_id r = Some v ->
  log_ok s -> tasks_named (of_attempt id (events s)) ->
  exists ms b s', run (checkWork id) s = (inr (mkCheckWorkResult ms b), s') /\
    Forall2 verdict_on (default [] (s_tasks (av_spec v))) ms /\
    (b = true <-> forall m, m ∈ ms -> tr_required m = true -> tr_passed m = true) /\
    (forall k, task_states s' !! (id, k) = deriveTaskState (of_attempt id (events s')) !! Some k) /\
    attempts s' = <[id := r <| last_activity_at := now s |>]> (attempts s) /\
    scores s' = scores s /\ mastery s' = mastery s /\ activity_states s' = activity_states s.
Proof.
  intros L St Env V Lok N. destruct (run_checkWork id s r v env L St Env V Lok N) as (ms & s1 & m & E & F & R & M & _).
  eexists ms, _, _. split; [exact E |]. split; [exact M |]. split.
  { rewrite forallb_forall. setoid_rewrite List.filter_In. setoid_rewrite <- list_elem_of_In.
    split; [intros G m' I Q; auto | intros G m' [I Q]; auto]. }
  split; [intros k; apply R |]. split; [|destruct F; easy].
  cbn [attempts set_field]. rewrite (rf_now _ _ F), (rf_attempts _ _ F). apply map_eq. intros j.
  destruct (decide (id = j)) as [<-|Nj]; [now rewrite lookup_alter_eq, lookup_insert_eq, L | now rewrite lookup_alter_ne, lookup_insert_ne].
Qed.

Lemma check_work_spec_witness : exists ms s',
  run (@checkWork Lab.passing 9) (Lab.store IN_PROGRESS 3) = (inr (mkCheckWorkResult ms true), s').
Proof.
  destruct (@check_work_spec Lab.passing 9 (Lab.store IN_PROGRESS 3) (Lab.attempt IN_PROGRESS 3) Lab.activity_version "env-1"
    eq_refl eq_refl eq_refl eq_refl) as (ms & b & s' & E & _).
  - intros id. reflexivity.
  - constructor.
  - assert (b = true) as -> by (apply (f_equal fst) in E; revert E; vm_compute; now intros [= _ <-]).
    exists ms, s'. exact E.
Defined.

(** ** Submitting *)
(** C5: Only an IN_PROGRESS attempt can be submitted; the submission moves it to
    SUBMITTED, evaluates it, and returns it PASSED or FAILED; then the environment
    is torn down best-effort: one destroy call, whose failure does not fail the
    submission.  A failure of the evaluation is rethrown without a teardown. *)
Theorem submit_spec `{Rounding} `{MathPow} `{Executor} `{ArtifactGrading} `{FaultPaths} `{Orchestrator} id s r :
  attempts s !! id = Some r ->
  if bool_decide (status r = IN_PROGRESS)
  then exists r1 s1, attempts s1 = <[id := r1]> (attempts s) /\ status r1 = SUBMITTED /\
    submitted_at r1 = Some (now s) /\ version r1 = S (version r) /\ trace id s1 = trace id s ++ [(E_SUBMITTED, None)] /\
    match run (evaluate id) s1 with
    | (inl e, s2) => run (submit id) s = (inl e, s2)
    | (inr (sc, p), s2) => exists r2, attempts s2 = <[id := r2]> (attempts s) /\
        status r2 = (if p then PASSED else FAILED) /\ version r2 = S (S (version r)) /\
        run (submit id) s = (inr r2, match truthy_key (environment_id r2) with
          | Some env => s2 <| calls ::= fun l => l ++ [CallDestroy env "submit" id] |>
          | None => s2
          end)
    end
  else run (submit id) s = (inl (AttemptErrors ["INVALID_STATE_TRANSITION"%string]), s).
Proof.
  intros L. unfold submit at 1 2 3. rewrite !run_bind. unfold findById. rewrite !run_select, !L. cbn [findOrThrow bind].
  destruct (bool_decide _) eqn:St; cbn [negb]; [|reflexivity].
  pose proof (trace_append id LEARNER E_SUBMITTED (JObj []) s) as T.
  rewrite run_appendTypedEvent in T. cbn [snd] in T. set (s0 := s <| events ::= _ |>) in T.
  set (r1 := updated ((to SUBMITTED) <| u_submittedAt := Some (now s0) |>) (version r) (now s0) r).
  set (s1 := s0 <| attempts := <[id := r1]> (attempts s0) |>). exists r1, s1. do 4 (split; [reflexivity |]). split; [exact T |].
  assert (L1 : attempts s1 !! id = Some r1) by apply lookup_insert_eq.
  rewrite !run_bind, run_appendTypedEvent. fold s0. rewrite run_bind, run_transition.
  change (attempts s0 !! id) with (attempts s !! id). rewrite L, Nat.eqb_refl. cbv zeta. fold r1 s1. rewrite run_bind.
  destruct (run (evaluate id) s1) as [[e|[sc p]] s2] eqn:E; [reflexivity |].
  apply (run_evaluate id s1 r1) in E as (_ & _ & _ & (r2 & A & S2 & V2 & _) & _); [|exact L1].
  exists r2. split; [rewrite A; cbn [attempts s1 s0 set_field]; apply insert_insert_eq |]. split; [exact S2 |].
  split; [exact V2 |]. rewrite run_bind, run_select, A, lookup_insert_eq. rewrite run_bind.
  destruct (truthy_key (environment_id r2)) as [env|]; [|reflexivity].
  rewrite run_try, run_remote. now destruct (orch_destroy _ _ _ _).
Qed.

Lemma submit_spec_witness :
  let submission := @submit binary64 step_pow Lab.passing (@artifact_service Lab.grader) Lab.no_faults ready_orchestrator 9 in
  exists r s', run submission (Lab.store IN_PROGRESS 3) = (inr r, s') /\ (status r = PASSED \/ status r = FAILED).
Proof.
  intros submission.
  pose proof (@submit_spec binary64 step_pow Lab.passing (@artifact_service Lab.grader) Lab.no_faults ready_orchestrator
    9 (Lab.store IN_PROGRESS 3) (Lab.attempt IN_PROGRESS 3) eq_refl) as S.
  rewrite bool_decide_true in S by reflexivity. destruct S as (r1 & s1 & _ & _ & _ & _ & _ & S).
  destruct (run _ s1) as [[e|[sc p]] s2].
  - exfalso. apply (f_equal fst) in S. revert S. vm_compute. discriminate.
  - destruct S as (r2 & _ & St & _ & E). eexists r2, _. split; [exact E |]. rewrite St. destruct p; [now left | now right].
Defined.
