(* ===== verification/Lifecycle.v ===== *)
(** * The attempt life cycle

    What the handlers of AttemptService do together: run alone, every one of
    them moves attempts along the status graph; interleaved action by action,
    all of them but [provision] still do, and [provision] adds only the late
    moves of [late_graph] to the attempts it is requested for. *)
From S2P Require Import Prelude JsNum Binary64 Effects Schema AttemptStatus EventStore Bkt SkillGraph Mastery Eligibility Criteria Scoring AttemptRepository ValidatorRunner Artifact Evaluation AttemptService AttemptLaws.

(** ** Requests *)
Inductive Request :=
  | RCreate (input : CreateAttemptInput) | RStart (attemptId : Id) | RCheck (attemptId : Id)
  | RSubmit (attemptId : Id) | REvaluate (attemptId : Id) | RConnect (attemptId : Id)
  | RDestroyed (attemptId : Id) (reason : string) | RCache (attemptId : Id) | RReactivate (attemptId : Id)
  | RProvision (attemptId : Id).
(** The requests that provision only attempts of [late]. *)
Definition within (late : Id -> bool) (r : Request) : bool :=
  match r with RProvision id => late id | _ => true end.

Section Lifecycle.
Context `{Rounding} `{MathPow} `{Executor} `{ArtifactGrading} `{FaultPaths} `{Orchestrator}.
Variable quotaDisabled : bool.

Definition handle (r : Request) : prog Store unit :=
  match r with
  | RCreate input => createAttempt quotaDisabled input ;; Ret tt
  | RStart id => markStarted id ;; Ret tt
  | RCheck id => checkWork id ;; Ret tt
  | RSubmit id => submit id ;; Ret tt
  | REvaluate id => evaluate id ;; Ret tt
  | RConnect id => connect id ;; Ret tt
  | RDestroyed id reason => handleEnvironmentDestroyed id reason
  | RCache id => cache id
  | RReactivate id => reactivate id ;; Ret tt
  | RProvision id => reactivate id ;; provision id ;; Ret tt
  end.
Definition requested (late : Id -> bool) (p : prog Store unit) : Prop :=
  exists r, within late r = true /\ p = handle r.

(** ** Rely and guarantee *)
Section Guarantees.
Context {G : Graph}.

Lemma guaranteed_read {B} id (k : option Attempt -> prog Store B) Q s :
  (forall s' r, known_row id r s' -> guaranteed evolves (k (Some r)) Q s') ->
  (forall s', guaranteed evolves (k None) Q s') ->
  guaranteed evolves (bind (findById id) k) Q s.
Proof.
  intros S N. apply guaranteed_select. intros s' _. destruct (attempts s' !! id) eqn:L; [|apply N].
  apply S. now apply known_row_read.
Qed.
Lemma guaranteed_true {A} (p : prog Store A) Q s : guaranteed evolves p (fun _ _ => True) s ->
  (forall a s', Q a s') -> guaranteed evolves p Q s.
Proof. intros P T. eapply guaranteed_mono; [apply _ | exact P | auto]. Qed.

Lemma remote_evolves {A} c (answer : list RemoteCall -> exn + A) : preserves evolves (remote c answer).
Proof.
  unfold remote. apply preserves_bind; [|intros [e|a]; exact I].
  apply preserves_act. intros s r s' [= _ <-]. now apply evolves_frame.
Qed.
Hint Resolve remote_evolves : preserves.

Lemma check_evolves u v : preserves evolves (check quotaDisabled u v).
Proof.
  apply attempts_evolves. unfold check, check_prerequisites, getRequiresAncestors, meetsRequiresGate. preserves.
Qed.

Lemma create_guaranteed input s : guaranteed evolves (createAttempt quotaDisabled input) (fun _ _ => True) s.
Proof.
  apply guaranteed_last. unfold createAttempt, attemptError, eventHasBeenRecorded, replay,
    findMostRecentCompletedAttempt. preserves; auto using check_evolves, create_evolves with preserves.
Qed.

(** A handler that appends events and then moves the row it read. *)
Lemma guaranteed_move {B} id r u st' (k : Attempt -> prog Store B) s : known_row id r s ->
  (forall c, u_status (u c) = Some st') -> move id (status r) st' = true ->
  (forall r' s', known_row id r' s' -> guaranteed evolves (k r') (fun _ _ => True) s') ->
  guaranteed evolves (bind (transition id (version r) u) k) (fun _ _ => True) s.
Proof.
  intros K U E C. apply guaranteed_bind; [apply _|].
  eapply guaranteed_mono; [apply _ | now apply (transition_evolves id r u st') | cbn; auto].
Qed.
Lemma guaranteed_move_last id r u st' s : known_row id r s ->
  (forall c, u_status (u c) = Some st') -> move id (status r) st' = true ->
  guaranteed evolves (transition id (version r) u) (fun _ _ => True) s.
Proof. intros K U E. eapply guaranteed_mono; [apply _ | now apply (transition_evolves id r u st') | easy]. Qed.

Ltac log_event K := eapply guaranteed_after; [exact K | apply append_evolves | cbv beta; clear K; intros _ ? K].

Lemma markStarted_guaranteed id s : guaranteed evolves (markStarted id) (fun _ _ => True) s.
Proof.
  unfold markStarted. apply guaranteed_read; [|easy]. intros s1 r K. cbn [findOrThrow bind].
  destruct (bool_decide_reflect (status r = READY)) as [St|]; cbn [negb]; [|easy].
  log_event K. apply (guaranteed_move_last id r _ IN_PROGRESS); [exact K | easy | apply move_edge; now rewrite St].
Qed.

Lemma checkWork_guaranteed id s : guaranteed evolves (checkWork id) (fun _ _ => True) s.
Proof.
  apply guaranteed_last. unfold checkWork, findById, singleAttemptError, attemptError.
  preserves; auto using run_validators_evolves with preserves. now apply attempts_evolves, rebuild_keeps.
Qed.

Lemma connect_guaranteed id s : guaranteed evolves (connect id) (fun _ _ => True) s.
Proof.
  apply guaranteed_last. unfold connect, findById, singleAttemptError, attemptError. preserves.
Qed.

Lemma submit_guaranteed id s : guaranteed evolves (submit id) (fun _ _ => True) s.
Proof.
  unfold submit. apply guaranteed_read; [|easy]. intros s1 r K. cbn [findOrThrow bind].
  destruct (bool_decide_reflect (status r = IN_PROGRESS)) as [St|]; cbn [negb]; [|easy].
  log_event K. apply (guaranteed_move id r _ SUBMITTED); [exact K | easy | apply move_edge; now rewrite St |].
  intros r2 s3 K3. apply guaranteed_bind; [apply _|].
  eapply guaranteed_mono; [apply _ | apply evaluate_guaranteed |]. cbn beta. intros _ s4 _ _.
  apply guaranteed_last. unfold findById, singleAttemptError, attemptError. preserves.
Qed.

Lemma destroyed_guaranteed id reason s :
  guaranteed evolves (handleEnvironmentDestroyed id reason) (fun _ _ => True) s.
Proof.
  unfold handleEnvironmentDestroyed. apply guaranteed_read; [|easy]. intros s1 r K.
  destruct (includes AttemptStatusGroups.TERMINAL (status r)) eqn:T; [easy |].
  destruct (includes [SUSPENDED; CACHED] (status r) && _) eqn:C; [easy |].
  apply (guaranteed_move id r _ (if String.eqb reason "submit" then EVALUATING else SUSPENDED));
    [exact K | easy | apply move_edge | easy].
  destruct (String.eqb reason "submit"); cbn [negb] in C; revert T C; now destruct (status r).
Qed.

Lemma cache_guaranteed id s : guaranteed evolves (cache id) (fun _ _ => True) s.
Proof.
  unfold cache. apply guaranteed_read; [|easy]. intros s1 r K.
  destruct (bool_decide_reflect (status r = SUSPENDED)) as [St|]; cbn [negb]; [|easy].
  log_event K. log_event K. apply (guaranteed_move id r _ CACHED); [exact K | easy | apply move_edge; now rewrite St | easy].
Qed.

Lemma reactivate_guaranteed id s : guaranteed evolves (reactivate id) (fun _ _ => True) s.
Proof.
  unfold reactivate. apply guaranteed_read; [|easy]. intros s1 r K. cbn [findOrThrow bind].
  destruct (includes REACTIVATABLE_STATUSES (status r)) eqn:St; cbn [negb]; [|easy].
  log_event K. apply (guaranteed_move_last id r _ CREATED); [exact K | easy | apply move_edge].
  revert St. now destruct (status r).
Qed.

(** The re-read row is moved on whatever its status: the graph must allow that. *)
Lemma provision_guaranteed id s : (forall st st', st' = READY \/ st' = PROVISION_FAILED -> move id st st' = true) ->
  guaranteed evolves (provision id) (fun _ _ => True) s.
Proof.
  intros M. unfold provision. apply guaranteed_read; [|easy]. intros s1 r K. cbn [findOrThrow bind].
  destruct (bool_decide_reflect (status r = CREATED)) as [St|]; cbn [negb]; [|easy].
  apply guaranteed_select_or_throw. intros s2 version E2 _. apply (known_row_evolves _ _ _ _ K) in E2. clear K s1.
  rename E2 into K. log_event K.
  apply (guaranteed_move id r _ PROVISIONING); [exact K | easy | apply move_edge; now rewrite St |].
  intros r2 s4 _. apply guaranteed_seq; [apply _ | apply remote_evolves |]. intros result s5 _.
  unfold finish_provision. apply guaranteed_read; [|intros; apply guaranteed_last; unfold singleAttemptError, attemptError; preserves].
  clear - M. unfold applyT0Faults. intros s1 r K.
  assert (Failed : guaranteed evolves
    (appendTypedEvent id SYSTEM ENV_FAILED (JObj []) ;; transition id (Schema.version r) (fun _ => to PROVISION_FAILED))
    (fun _ _ => True) s1) by (log_event K; apply (guaranteed_move_last id r _ PROVISION_FAILED); auto).
  destruct (pres_status result); try exact Failed. clear Failed. log_event K.
  eapply guaranteed_after; [exact K | preserves |].
  intros _ s3 K3. apply (guaranteed_move_last id r _ READY); auto.
Qed.

Lemma handle_guaranteed r s :
  (forall id, r = RProvision id -> forall st st', st' = READY \/ st' = PROVISION_FAILED -> move id st st' = true) ->
  guaranteed evolves (handle r) (fun _ _ => True) s.
Proof.
  intros M. assert (D : forall A (p : prog Store A), guaranteed evolves p (fun _ _ => True) s ->
    guaranteed evolves (p ;; Ret tt) (fun _ _ => True) s).
  { intros A p K. apply guaranteed_bind; [apply _|].
    eapply guaranteed_mono; [apply _ | exact K | easy]. }
  destruct r as [| | | | | | | | |id]; cbn [handle]; try apply D;
    auto using create_guaranteed, markStarted_guaranteed, checkWork_guaranteed, submit_guaranteed,
      evaluate_guaranteed, connect_guaranteed, destroyed_guaranteed, cache_guaranteed, reactivate_guaranteed.
  apply guaranteed_bind; [apply _|]. eapply guaranteed_mono; [apply _ | apply reactivate_guaranteed |].
  cbn beta. intros _ s1 _ _. apply guaranteed_bind; [apply _|].
  eapply guaranteed_mono; [apply _ | apply provision_guaranteed; eauto | easy].
Qed.
End Guarantees.
End Lifecycle.

(** C1: However the requests of any number of learners and events interleave, one
    action at a time, no attempt disappears, a new one starts CREATED at version 1, and
    each attempt moves one version per move, along the status graph, with one kind of
    exception: a provisioning whose orchestrator answers late takes the attempt it was
    requested for to READY or PROVISION_FAILED, whatever its status by then.  So an
    attempt that is PASSED, FAILED, COMPLETED, EVAL_FAILED, EXPIRED or ABANDONED keeps
    that status for ever, unless a provision request for that very attempt is among the
    requests. *)
Theorem lifecycle_pool `{Rounding} `{MathPow} `{Executor} `{ArtifactGrading} `{FaultPaths} `{Orchestrator}
    q late ps s ps' s' :
  (forall p, p ∈ ps -> requested q late p) -> rtc (pstep (requested q late)) (ps, s) (ps', s') ->
  evolves (G := late_graph late) s s' /\
  forall id r, attempts s !! id = Some r -> is_final (status r) = true -> late id = false ->
    exists r', attempts s' !! id = Some r' /\ status r' = status r.
Proof.
  intros P T. set (G := late_graph late).
  assert (K : forall p, requested q late p -> forall s, guaranteed evolves p (fun _ _ => True) s).
  { intros p (r & W & ->) s0. apply handle_guaranteed. intros id -> st st' R. cbn in W |- *.
    unfold late_move. rewrite W. destruct R as [-> | ->]; apply orb_true_r. }
  destruct (pool_guarantee evolves (requested q late) (fun _ _ => True) ps s ps' s' K) as [V _]; [auto | exact T |].
  split; [exact V |]. intros id r L F N. destruct (evolves_lookup s s' id r V L) as (r' & L' & W).
  exists r'. split; [exact L' |]. apply (row_evolves_final id); [|exact W | exact F].
  intros x y. cbn. unfold late_move. rewrite N. apply orb_false_r.
Qed.

(** The handlers of the lab: every call answers. *)
Definition lab_handle : Request -> prog Store unit :=
  @handle binary64 step_pow Lab.passing (@artifact_service Lab.grader) Lab.no_faults ready_orchestrator false.
Definition lab_requested : (Id -> bool) -> prog Store unit -> Prop :=
  @requested binary64 step_pow Lab.passing (@artifact_service Lab.grader) Lab.no_faults ready_orchestrator false.

(** A late submission, teardown and resumption of a PASSED attempt, beside the
    provisioning of another one. *)
Lemma lifecycle_pool_witness :
  let pool := [lab_handle (RSubmit 9); lab_handle (RDestroyed 9 "submit"); lab_handle (RReactivate 9);
    lab_handle (RProvision 4)] in
  let fin := schedule [2; 1; 0; 3; 0; 1; 2; 3]%nat pool (Lab.store PASSED 5) in
  exists r, attempts fin.2 !! 9%nat = Some r /\ status r = PASSED.
Proof.
  intros pool fin.
  destruct (@lifecycle_pool binary64 step_pow Lab.passing (@artifact_service Lab.grader) Lab.no_faults ready_orchestrator
    false (Nat.eqb 4) pool (Lab.store PASSED 5) fin.1 fin.2) as [_ F].
  - intros p I. repeat (apply elem_of_cons in I as [->|I]; [eexists; split; [|reflexivity]; reflexivity |]). now apply elem_of_nil in I.
  - unfold fin. rewrite <- surjective_pairing. apply schedule_rtc.
  - exact (F 9%nat (Lab.attempt PASSED 5) eq_refl eq_refl eq_refl).
Defined.

(** Run alone, provisioning too moves its attempt along the graph, whatever
    the orchestrator answers. *)
Theorem provision_alone `{Orchestrator} id s : evolves (G := status_graph) s (snd (run (provision id) s)).
Proof.
  set (G := status_graph).
  unfold provision at 1. destruct (attempts s !! id) as [r|] eqn:L;
    [|rewrite run_bind; unfold findById; rewrite run_select, L; reflexivity].
  destruct (decide (status r = CREATED)) as [St|St];
    [|rewrite run_bind; unfold findById; rewrite run_select, L; cbn [findOrThrow bind]; now rewrite bool_decide_false].
  destruct (versions s !! activity_version_id r) as [v|] eqn:V;
    [|rewrite run_bind; unfold findById; rewrite run_select, L; cbn [findOrThrow bind]; rewrite St, bool_decide_true by easy;
      cbn [negb]; now rewrite run_bind, run_select_or_throw, V].
  destruct (run_provision id s r v L V St) as (o & s' & E & P). fold (provision id). rewrite E. cbn [snd].
  assert (W : forall r', attempts s' = <[id := r']> (attempts s) -> row_evolves id r r' -> evolves s s')
    by (intros r' A W; now apply (evolves_insert s s' id r r')).
  destruct P; eapply W; try eassumption;
    [apply row_evolves_edge | apply (row_evolves_two _ _ _ PROVISIONING) .. | apply row_evolves_edge];
    try easy; rewrite ?St; try reflexivity; now match goal with K : status _ = ?st |- context [status _] => rewrite K end.
Qed.

(** ** Interleavings that break the intended life cycle

    Concrete schedules of two handlers on one attempt, evaluated by the kernel. *)
Definition status_of (id : Id) (s : Store) : option AttemptStatus := status <$> attempts s !! id.
Definition environment_of (id : Id) (s : Store) : option string := attempts s !! id ≫= environment_id.

(** The version check does not protect [provision]: it re-reads the row after
    the orchestrator has answered, so an environment destroyed during that call
    suspends the attempt and [provision] still moves it, SUSPENDED to READY, with
    the destroyed environment; this is no edge of the status graph. *)
Theorem provision_overrides_destroy : exists before after,
  let pool := [@provision ready_orchestrator 9 ;; Ret tt; handleEnvironmentDestroyed 9 "idle"] in
  let s := Lab.store CREATED 1 in
  let mid := schedule before pool s in
  let fin := schedule after mid.1 mid.2 in
  status_of 9 mid.2 = Some SUSPENDED /\ environment_of 9 mid.2 = None /\
  forallb finished fin.1 = true /\ status_of 9 fin.2 = Some READY /\ environment_of 9 fin.2 = Some "env-2"%string /\
  edge SUSPENDED READY = false.
Proof. exists [0; 0; 0; 0; 0; 1; 1]%nat, [0; 0; 0]%nat. vm_compute. easy. Qed.

(** The same re-read undoes a verdict: the environment of a provisioning in flight is
    destroyed, the learner starts the lab again, works and submits, and PASSES; the
    first orchestrator call answers last and takes the attempt from PASSED to READY. *)
Theorem passed_reopened : exists before after,
  let pool := [lab_handle (RProvision 9); lab_handle (RDestroyed 9 "idle"); lab_handle (RProvision 9);
    lab_handle (RStart 9); lab_handle (RSubmit 9)] in
  let s := Lab.store CREATED 1 in
  let mid := schedule before pool s in
  let fin := schedule after mid.1 mid.2 in
  status_of 9 mid.2 = Some PASSED /\ forallb finished fin.1 = true /\ status_of 9 fin.2 = Some READY /\
  is_final PASSED = true.
Proof.
  exists (repeat 0 6 ++ repeat 1 9 ++ repeat 2 30 ++ repeat 3 9 ++ repeat 4 90)%nat, (repeat 0 9)%nat.
  vm_compute. easy.
Qed.

Definition lab_input (key : string) : CreateAttemptInput := mkCreateAttemptInput 1 7 4 (Some key).
(** The lab with no attempt yet. *)
Definition empty_lab : Store := (Lab.store CREATED 1) <| attempts := ∅ |> <| activities := {[ 3%nat := mkActivity 1 "lab" GUIDED_LAB ]} |>.

(** The quota of one environment per learner is only checked at creation, where
    CREATED attempts do not count: two creations and two provisionings, one after
    the other, leave a learner with two READY environments. *)
Theorem quota_bypass :
  let two : prog Store unit :=
    let* a := @createAttempt binary64 false (lab_input "k1") in
    let* b := @createAttempt binary64 false (lab_input "k2") in
    @provision ready_orchestrator a.1 ;; @provision ready_orchestrator b.1 ;; Ret tt in
  let fin := run two empty_lab in
  fin.1 = inr tt /\ length (active_attempts 7 fin.2) = 2%nat /\
  forallb (fun kv => bool_decide (status kv.2 = READY)) (active_attempts 7 fin.2) = true /\
  EligibilityConstants.MAX_CONCURRENT_ENVIRONMENTS_PER_LEARNER = 1%nat.
Proof. vm_compute. easy. Qed.

(** An evaluation is not atomic: when the environment is destroyed (idle) while
    an attempt is being evaluated, the closing transition conflicts and the submit
    fails with the attempt SUSPENDED, but the passing score, the mastery and its
    evidence row stay written. *)
Theorem evaluation_conflict : exists turns,
  let pool := [@submit binary64 step_pow Lab.passing (@artifact_service Lab.grader) Lab.no_faults ready_orchestrator 9 ;; Ret tt;
               handleEnvironmentDestroyed 9 "idle"] in
  let fin := schedule turns pool (Lab.store IN_PROGRESS 3) in
  (exists rest, fin.1 = Throw ConflictException :: rest) /\ forallb finished fin.1 = true /\
  status_of 9 fin.2 = Some SUSPENDED /\
  (score_passed <$> scores fin.2) = [true] /\ (me_attempt_id <$> evidence fin.2) = [9%nat] /\
  activity_states fin.2 = ∅.
Proof. exists (repeat 0%nat 8 ++ [1; 1]%nat ++ repeat 0%nat 60). split; [eexists; vm_compute; reflexivity | vm_compute; easy]. Qed.
