(* ===== verification/Hint.v ===== *)
(** * Hints

    attempt/hint.service.ts: the ladder of authored hints of a task, revealed
    one level at a time against a score penalty, and the guided fallback once
    the ladder is exhausted. *)
From stdpp Require Import sorting.
From S2P Require Import Prelude JsNum Binary64 Effects Schema AttemptStatus EventStore Bkt Mastery Criteria AttemptRepository ValidatorRunner Artifact Evaluation.

Definition GUIDED_FALLBACK_FLAG : string := "guided_fallback".

Definition dquote : string := String (Ascii.ascii_of_nat 34) EmptyString.

Record HintPreview := mkHintPreview {
  hp_taskKey : string; hp_nextLevel : Z; hp_penalty : Q; hp_hasMoreAfterThis : bool }.
Record HintReveal := mkHintReveal { hr_preview : HintPreview; hr_text : string }.
Record GuidedFallback := mkGuidedFallback { gf_taskKey : string; gf_text : string; gf_assisted : bool }.

(** [hints.sort((a, b) => a.level - b.level)], which is stable. *)
Fixpoint insert_hint (h : HintSpec) (l : list HintSpec) : list HintSpec :=
  match l with
  | [] => [h]
  | g :: l' => if Z.leb (h_level h) (h_level g) then h :: l else g :: insert_hint h l'
  end.
Definition sort_hints (l : list HintSpec) : list HintSpec := foldr insert_hint [] l.

Section HintService.
Definition getTaskSpec (attemptId : Id) (taskKey : string) : prog Store TaskSpec :=
  let* row := getActivitySpec attemptId in
  let* spec := findOrThrow row in
  match List.find (fun t => String.eqb (t_key t) taskKey) (default [] (s_tasks spec)) with
  | Some task => Ret task
  | None => Throw (BadRequestException "task not found on this activity")
  end.

Definition used_max_level (attemptId : Id) (taskKey : string) (s : Store) : Z :=
  from_option ts_hints_used_max_level 0%Z (task_states s !! (attemptId, taskKey)).
Definition getUsedMaxLevel (attemptId : Id) (taskKey : string) : prog Store Z :=
  select (used_max_level attemptId taskKey).

Definition ladder (task : TaskSpec) : list HintSpec := sort_hints (default [] (t_hints task)).
Definition next_hint (hints : list HintSpec) (usedMaxLevel : Z) : option HintSpec :=
  List.find (fun h => Z.ltb usedMaxLevel (h_level h)) hints.
Definition preview_of (taskKey : string) (hints : list HintSpec) (next : HintSpec) : HintPreview :=
  mkHintPreview taskKey (h_level next) (h_penalty next)
    (existsb (fun h => Z.ltb (h_level next) (h_level h)) hints).

Definition preview (attemptId : Id) (taskKey : string) : prog Store (option HintPreview) :=
  let* task := getTaskSpec attemptId taskKey in
  let hints := ladder task in
  let* usedMaxLevel := getUsedMaxLevel attemptId taskKey in
  match next_hint hints usedMaxLevel with
  | None => Ret None
  | Some next => Ret (Some (preview_of taskKey hints next))
  end.

(** The transaction: upsert of the level, then the penalty (numeric(5,4)). *)
Definition charge_hint (attemptId : Id) (taskKey : string) (next : HintSpec) : prog Store unit :=
  transaction (
    execute (fun s => s <| task_states := <[(attemptId, taskKey) :=
      (default empty_task (task_states s !! (attemptId, taskKey))) <| ts_hints_used_max_level := h_level next |>]>
      (task_states s) |>) ;;
    act (fun s =>
      match attempts s !! attemptId with
      | None => inr (tt, s)
      | Some a =>
          let? total := to_numeric 5 4 (hint_penalty_total a + h_penalty next) in
          inr (tt, s <| attempts := <[attemptId := a <| hint_penalty_total := total |>]> (attempts s) |>)
      end)).

Definition hint_payload (taskKey : string) (level : Z) : Json :=
  JObj [("task"%string, JStr taskKey); ("level"%string, JNum (inject_Z level))].

Definition reveal (attemptId : Id) (taskKey : string) : prog Store HintReveal :=
  let* task := getTaskSpec attemptId taskKey in
  let hints := ladder task in
  let* usedMaxLevel := getUsedMaxLevel attemptId taskKey in
  match next_hint hints usedMaxLevel with
  | None => Throw (BadRequestException "hint ladder exhausted")
  | Some next =>
      appendTypedEvent attemptId LEARNER HINT_REQUESTED (hint_payload taskKey (h_level next)) ;;
      charge_hint attemptId taskKey next ;;
      Ret (mkHintReveal (preview_of taskKey hints next) (h_text next))
  end.

Definition mark_assisted (attemptId : Id) (taskKey : string) : prog Store unit :=
  transaction (
    execute (fun s => s <| attempts ::= alter (fun a => a <| assistance_flags ::= fun l => l ++ [GUIDED_FALLBACK_FLAG] |>) attemptId |>) ;;
    execute (fun s => s <| task_states := <[(attemptId, taskKey) :=
      (default empty_task (task_states s !! (attemptId, taskKey))) <| ts_assisted := true |>]> (task_states s) |>)).

Definition fallback_text (task : TaskSpec) (taskKey : string) (hints : list HintSpec) : string :=
  match last hints with
  | Some h => h_text h
  | None => "See the reference approach for task " +:+ dquote +:+ default taskKey (t_title task) +:+ dquote +:+ "."
  end.

Definition guidedFallback (attemptId : Id) (taskKey : string) : prog Store GuidedFallback :=
  let* task := getTaskSpec attemptId taskKey in
  let hints := ladder task in
  let* usedMaxLevel := getUsedMaxLevel attemptId taskKey in
  if Nat.ltb 0 (length hints) && existsb (fun h => Z.ltb usedMaxLevel (h_level h)) hints then
    Throw (BadRequestException "hint ladder is not yet exhausted")
  else
    let* row := select (fun s => attempts s !! attemptId) in
    let* attempt := findOrThrow row in
    when (negb (includes (assistance_flags attempt) GUIDED_FALLBACK_FLAG))
      (appendTypedEvent attemptId LEARNER SOLUTION_VIEWED
         (JObj [("task"%string, JStr taskKey); ("via"%string, JStr GUIDED_FALLBACK_FLAG)]) ;;
       mark_assisted attemptId taskKey) ;;
    Ret (mkGuidedFallback taskKey (fallback_text task taskKey hints) true).
End HintService.

(** ** The ladder *)
Definition level_le : relation HintSpec := fun g h => (h_level g <= h_level h)%Z.
Definition level_lt : relation HintSpec := fun g h => (h_level g < h_level h)%Z.

Lemma insert_hint_perm h l : insert_hint h l ≡ₚ h :: l.
Proof.
  induction l as [|g l IH]; cbn; [reflexivity |]. destruct (Z.leb _ _); [reflexivity |].
  rewrite IH. apply Permutation_swap.
Qed.
Lemma sort_hints_perm l : sort_hints l ≡ₚ l.
Proof. induction l as [|h l IH]; cbn; [reflexivity |]. now rewrite insert_hint_perm, IH. Qed.

Lemma ladder_elem h task : h ∈ ladder task <-> h ∈ default [] (t_hints task).
Proof. unfold ladder. now rewrite sort_hints_perm. Qed.

Lemma insert_hint_sorted h l : StronglySorted level_le l -> StronglySorted level_le (insert_hint h l).
Proof.
  induction 1 as [|g l S IH F]; cbn; [repeat constructor |].
  destruct (Z.leb_spec (h_level h) (h_level g)) as [L|L].
  - constructor; [now constructor |]. constructor; [exact L |].
    eapply Forall_impl; [exact F |]. unfold level_le. intros x G. cbn in G. lia.
  - constructor; [exact IH |]. rewrite insert_hint_perm. constructor; [unfold level_le; lia | exact F].
Qed.
Lemma sort_hints_sorted l : StronglySorted level_le (sort_hints l).
Proof. induction l as [|h l IH]; cbn; [constructor | now apply insert_hint_sorted]. Qed.

(** Distinct levels give a strictly increasing ladder. *)
Lemma ladder_strict task : NoDup (h_level <$> default [] (t_hints task)) -> StronglySorted level_lt (ladder task).
Proof.
  unfold ladder. rewrite <- (sort_hints_perm (default [] (t_hints task))) at 1.
  induction (sort_hints_sorted (default [] (t_hints task))) as [|h l S IH F]; [constructor |].
  rewrite fmap_cons, NoDup_cons. intros [N D]. constructor; [auto |].
  rewrite Forall_forall in *. intros g G. specialize (F g G). unfold level_le, level_lt in *.
  assert (h_level h <> h_level g) by (intros E; apply N; rewrite E; now apply list_elem_of_fmap_2). lia.
Qed.

Lemma next_hint_spec hints used :
  match next_hint hints used with
  | Some h => h ∈ hints /\ (used < h_level h)%Z
  | None => forall h, h ∈ hints -> (h_level h <= used)%Z
  end.
Proof.
  unfold next_hint. destruct (List.find _ hints) as [h|] eqn:E.
  - apply find_some in E as [I L]. apply Z.ltb_lt in L. split; [now apply list_elem_of_In | exact L].
  - intros h I. apply list_elem_of_In in I. pose proof (find_none _ _ E h I) as L. apply Z.ltb_ge in L. exact L.
Qed.

(** The next hint is the least level above the used one. *)
Lemma next_hint_least hints used next : StronglySorted level_le hints -> next_hint hints used = Some next ->
  forall h, h ∈ hints -> (used < h_level h)%Z -> (h_level next <= h_level h)%Z.
Proof.
  unfold next_hint. induction 1 as [|g l S IH F]; [easy |]. cbn. destruct (Z.ltb_spec used (h_level g)) as [L|L].
  - intros [= <-] h [->|I]%elem_of_cons _; [lia |]. rewrite Forall_forall in F. now apply F.
  - intros E h [->|I]%elem_of_cons U; [lia | now apply IH].
Qed.

Lemma next_hint_at before h after used :
  Forall (fun g => (h_level g <= used)%Z) before -> (used < h_level h)%Z ->
  next_hint (before ++ h :: after) used = Some h.
Proof.
  intros B L. unfold next_hint. induction B as [|g before G B IH]; cbn.
  - now rewrite (proj2 (Z.ltb_lt _ _) L).
  - now rewrite (proj2 (Z.ltb_ge used (h_level g)) G).
Qed.

Lemma exhausted_existsb hints used :
  existsb (fun h => Z.ltb used (h_level h)) hints = true <-> next_hint hints used <> None.
Proof. unfold next_hint. rewrite existsb_find. now destruct (List.find _ _). Qed.

(** ** Revealing one hint *)
Section Reveal.
Variables (id : Id) (key : string).

(** The attempt's version has this task. *)
Definition has_task (s : Store) (task : TaskSpec) : Prop := run (getTaskSpec id key) s = (inr task, s).

Lemma has_task_spec s task : has_task s task <->
  exists spec, spec_of_attempt id s = Some spec /\
    List.find (fun t => String.eqb (t_key t) key) (default [] (s_tasks spec)) = Some task.
Proof.
  unfold has_task, getTaskSpec, getActivitySpec. rewrite run_bind, run_select, run_bind, run_find.
  destruct (spec_of_attempt id s) as [spec|]; [|split; [easy | now intros (? & [=] & _)]].
  destruct (List.find _ _) as [t|] eqn:E; cbn.
  - split; [intros [= ->]; eauto | intros (? & [= <-] & F); congruence].
  - split; [easy | intros (? & [= <-] & F); congruence].
Qed.

(** The task of an attempt does not depend on what its row accumulates. *)
Lemma has_task_frame s s' task a a' : has_task s task -> attempts s !! id = Some a -> attempts s' !! id = Some a' ->
  activity_version_id a' = activity_version_id a -> versions s' = versions s -> has_task s' task.
Proof.
  rewrite !has_task_spec. intros (spec & E & F) L L' V W. exists spec. split; [|exact F].
  unfold spec_of_attempt in *. rewrite L in E. rewrite L', W. cbn [mbind option_bind] in *. now rewrite V.
Qed.

Definition charged (next : HintSpec) (a : Attempt) (total : Q) (s : Store) : Store :=
  s <| events ::= fun l => l ++ [appended id LEARNER HINT_REQUESTED (hint_payload key (h_level next)) s] |>
    <| task_states := <[(id, key) := (default empty_task (task_states s !! (id, key))) <| ts_hints_used_max_level := h_level next |>]> (task_states s) |>
    <| attempts := <[id := a <| hint_penalty_total := total |>]> (attempts s) |>.

Lemma run_reveal s task a next total :
  has_task s task -> attempts s !! id = Some a ->
  next_hint (ladder task) (used_max_level id key s) = Some next ->
  numeric 5 4 (hint_penalty_total a + h_penalty next) = Some total ->
  run (reveal id key) s = (inr (mkHintReveal (preview_of key (ladder task) next) (h_text next)), charged next a total s).
Proof.
  intros T L N E. unfold reveal. rewrite run_bind, T, run_bind. unfold getUsedMaxLevel. rewrite run_select, N.
  rewrite run_bind, run_appendTypedEvent, run_bind. unfold charge_hint. rewrite run_transaction, run_bind, run_execute, run_act.
  cbn [attempts set_field]. rewrite L. unfold to_numeric. rewrite E. reflexivity.
Qed.

Lemma run_reveal_exhausted s task : has_task s task -> next_hint (ladder task) (used_max_level id key s) = None ->
  run (reveal id key) s = (inl (BadRequestException "hint ladder exhausted"), s).
Proof.
  intros T N. unfold reveal. rewrite run_bind, T, run_bind. unfold getUsedMaxLevel. now rewrite run_select, N.
Qed.

Lemma charged_used next a total s : used_max_level id key (charged next a total s) = h_level next.
Proof. unfold used_max_level. cbn [task_states charged set_field]. now rewrite lookup_insert_eq. Qed.

Lemma run_preview s task : has_task s task ->
  run (preview id key) s = (inr (preview_of key (ladder task) <$> next_hint (ladder task) (used_max_level id key s)), s).
Proof.
  intros T. unfold preview. rewrite run_bind, T, run_bind. unfold getUsedMaxLevel. rewrite run_select.
  now destruct (next_hint _ _).
Qed.

(** The table agrees with the log on the hints used. *)
Definition hints_logged (s : Store) : Prop :=
  used_max_level id key s = ts_hints_used_max_level (ensure (deriveTaskState (of_attempt id (events s))) (Some key)).

Lemma charged_logged next a total s : (used_max_level id key s < h_level next)%Z ->
  hints_logged s -> hints_logged (charged next a total s).
Proof.
  intros L H. unfold hints_logged. rewrite charged_used.
  change (events (charged next a total s)) with (events s ++ [appended id LEARNER HINT_REQUESTED (hint_payload key (h_level next)) s]).
  rewrite appended_of_attempt, Nat.eqb_refl, ensure_snoc. unfold hints_logged in H.
  assert (N : names_task (Some key) (appended id LEARNER HINT_REQUESTED (hint_payload key (h_level next)) s) = true)
    by now apply bool_decide_eq_true.
  rewrite N. unfold task_step. cbn [ev_type appended ts_hints_used_max_level set_field ev_payload]. rewrite <- H.
  assert (P : payload_level (hint_payload key (h_level next)) = h_level next) by apply Qfloor_Z.
  rewrite P. lia.
Qed.
End Reveal.

(** ** Climbing the whole ladder *)
Fixpoint reveals (n : nat) (id : Id) (key : string) : prog Store (list string) :=
  match n with
  | 0%nat => Ret []
  | S n => let* r := reveal id key in let* rest := reveals n id key in Ret (hr_text r :: rest)
  end.
(** The penalty after the hints, each sum stored in numeric(5,4). *)
Fixpoint charges (total : Q) (hints : list HintSpec) : option Q :=
  match hints with
  | [] => Some total
  | h :: hints => total' ← numeric 5 4 (total + h_penalty h); charges total' hints
  end.

Lemma StronglySorted_split {A} (R : relation A) before h after : StronglySorted R (before ++ h :: after) ->
  Forall (fun g => R g h) before /\ Forall (R h) after.
Proof.
  induction before as [|g before IH]; cbn; intros S; inversion S as [|? ? S' F]; subst; [now split |].
  destruct (IH S') as [F1 F2]. split; [|exact F2]. constructor; [|exact F1].
  rewrite Forall_forall in F. apply F. apply elem_of_app. right. now left.
Qed.

Lemma run_reveals id key task after : forall before s a total,
  ladder task = before ++ after -> StronglySorted level_lt (ladder task) ->
  Forall (fun g => (h_level g <= used_max_level id key s)%Z) before ->
  Forall (fun g => (used_max_level id key s < h_level g)%Z) after ->
  has_task id key s task -> attempts s !! id = Some a -> charges (hint_penalty_total a) after = Some total ->
  exists s', run (reveals (length after) id key) s = (inr (h_text <$> after), s') /\
    attempts s' = <[id := a <| hint_penalty_total := total |>]> (attempts s) /\ has_task id key s' task /\
    next_hint (ladder task) (used_max_level id key s') = None.
Proof.
  induction after as [|h after IH]; intros before s a total D S B G T L C.
  - exists s. injection C as <-. split; [reflexivity |]. split; [|split; [exact T |]].
    + rewrite insert_id; [reflexivity |]. rewrite L. now destruct a.
    + destruct (next_hint _ _) as [g|] eqn:N; [|easy]. pose proof (next_hint_spec (ladder task) (used_max_level id key s)) as X.
      rewrite N, D, app_nil_r in X. destruct X as [I U]. rewrite Forall_forall in B. specialize (B g I). cbn in B. lia.
  - cbn [charges] in C. destruct (numeric 5 4 _) as [total'|] eqn:E; [|easy]. cbn [mbind option_bind] in C.
    inversion G as [|? ? Gh G']; subst.
    assert (N : next_hint (ladder task) (used_max_level id key s) = Some h) by (rewrite D; now apply next_hint_at).
    pose proof S as S'. rewrite D in S'. apply StronglySorted_split in S' as [Fb Fa].
    set (a' := a <| hint_penalty_total := total' |>). set (s1 := charged id key h a total' s).
    assert (L1 : attempts s1 !! id = Some a') by apply lookup_insert_eq.
    destruct (IH (before ++ [h]) s1 a' total) as (s' & R & A & T' & X).
    + now rewrite <- app_assoc.
    + exact S.
    + unfold s1. rewrite charged_used. apply Forall_app. split; [|repeat constructor; lia].
      eapply Forall_impl; [exact Fb |]. unfold level_lt. intros x Hx. cbn in Hx. lia.
    + unfold s1. rewrite charged_used. exact Fa.
    + now apply (has_task_frame id key s s1 task a a').
    + exact L1.
    + exact C.
    + exists s'. split; [|split; [|now split]].
      * cbn [length reveals]. rewrite run_bind, (run_reveal id key s task a h total' T L N E). fold s1.
        rewrite run_bind, R. reflexivity.
      * rewrite A. cbn [attempts s1 charged set_field]. now rewrite insert_insert_eq.
Qed.

(** Revealing gives exactly what the preview announced: the least authored
    level above those used, its penalty and text; it logs HINT_REQUESTED, records
    the level, adds the penalty to the attempt and changes nothing else of it; a
    table that agreed with the log on the hints used still does. *)
Theorem reveal_spec id key s task a next total :
  has_task id key s task -> attempts s !! id = Some a ->
  next_hint (ladder task) (used_max_level id key s) = Some next ->
  numeric 5 4 (hint_penalty_total a + h_penalty next) = Some total ->
  exists p s', run (preview id key) s = (inr (Some p), s) /\
    run (reveal id key) s = (inr (mkHintReveal p (h_text next)), s') /\
    hp_nextLevel p = h_level next /\ hp_penalty p = h_penalty next /\
    next ∈ default [] (t_hints task) /\ (used_max_level id key s < h_level next)%Z /\
    (forall h, h ∈ default [] (t_hints task) -> (used_max_level id key s < h_level h)%Z -> (h_level next <= h_level h)%Z) /\
    attempts s' = <[id := a <| hint_penalty_total := total |>]> (attempts s) /\
    used_max_level id key s' = h_level next /\ (hints_logged id key s -> hints_logged id key s').
Proof.
  intros T L N E. exists (preview_of key (ladder task) next), (charged id key next a total s).
  pose proof (next_hint_spec (ladder task) (used_max_level id key s)) as X. rewrite N in X. destruct X as [I U].
  split; [now rewrite (run_preview id key s task T), N |]. split; [now apply run_reveal |].
  do 2 (split; [reflexivity |]). split; [now apply ladder_elem |]. split; [exact U |].
  split; [|split; [reflexivity |]; split; [apply charged_used | now apply charged_logged]].
  intros h H. apply (next_hint_least (ladder task)); [apply sort_hints_sorted | exact N |].
  now apply ladder_elem.
Qed.

Lemma reveal_spec_witness : exists p s',
  run (reveal 9 "t1") (Lab.store IN_PROGRESS 3) = (inr (mkHintReveal p "look at the logs"), s') /\ hp_nextLevel p = 1%Z.
Proof.
  destruct (reveal_spec 9 "t1" (Lab.store IN_PROGRESS 3) Lab.task (Lab.attempt IN_PROGRESS 3)
    (mkHintSpec 1 (1 # 100) "look at the logs") (1 # 100) eq_refl eq_refl eq_refl eq_refl)
    as (p & s' & _ & E & P & _). exists p, s'. split; [exact E | exact P].
Defined.

(** A ladder with distinct levels is climbed in order: after as many reveals as
    it has hints, all its texts were delivered from the lowest level up, the
    attempt is charged the sum of the penalties, and one more reveal is refused
    with nothing written. *)
Theorem ladder_climb id key s task a total :
  has_task id key s task -> attempts s !! id = Some a ->
  NoDup (h_level <$> default [] (t_hints task)) ->
  (forall h, h ∈ default [] (t_hints task) -> (used_max_level id key s < h_level h)%Z) ->
  charges (hint_penalty_total a) (ladder task) = Some total ->
  exists s', run (reveals (length (default [] (t_hints task))) id key) s = (inr (h_text <$> ladder task), s') /\
    attempts s' = <[id := a <| hint_penalty_total := total |>]> (attempts s) /\
    run (preview id key) s' = (inr None, s') /\
    run (reveal id key) s' = (inl (BadRequestException "hint ladder exhausted"), s').
Proof.
  intros T L D U C. rewrite <- (Permutation_length (sort_hints_perm (default [] (t_hints task)))). fold (ladder task).
  destruct (run_reveals id key task (ladder task) [] s a total) as (s' & R & A & T' & X); try easy.
  - now apply ladder_strict.
  - apply Forall_forall. intros h I. apply U. now apply ladder_elem.
  - exists s'. split; [exact R |]. split; [exact A |]. split; [|now apply run_reveal_exhausted with task].
    now rewrite (run_preview id key s' task T'), X.
Qed.

Lemma ladder_climb_witness : exists s',
  run (reveals 2 9 "t1") (Lab.store IN_PROGRESS 3) = (inr ["look at the logs"; "look at the pod"]%string, s').
Proof.
  destruct (ladder_climb 9 "t1" (Lab.store IN_PROGRESS 3) Lab.task (Lab.attempt IN_PROGRESS 3) (1 # 25) eq_refl eq_refl)
    as (s' & E & _).
  - cbn. repeat constructor; intros I; repeat (apply elem_of_cons in I as [I|I]; [discriminate |]); now apply elem_of_nil in I.
  - cbn. intros h I. repeat (apply elem_of_cons in I as [->|I]; [reflexivity |]). now apply elem_of_nil in I.
  - vm_compute. reflexivity.
  - exists s'. exact E.
Defined.

(** ** The guided fallback *)
Lemma run_fallback id key s task a : has_task id key s task -> attempts s !! id = Some a ->
  next_hint (ladder task) (used_max_level id key s) = None ->
  exists s', run (guidedFallback id key) s = (inr (mkGuidedFallback key (fallback_text task key (ladder task)) true), s') /\
    if includes (assistance_flags a) GUIDED_FALLBACK_FLAG then s' = s
    else attempts s' = <[id := a <| assistance_flags ::= fun l => l ++ [GUIDED_FALLBACK_FLAG] |>]> (attempts s) /\
      has_task id key s' task /\ used_max_level id key s' = used_max_level id key s /\
      (exists st, task_states s' !! (id, key) = Some st /\ ts_assisted st = true) /\
      exists e, events s' = events s ++ [e] /\ ev_type e = SOLUTION_VIEWED.
Proof.
  intros T L N. unfold guidedFallback. rewrite run_bind, T, run_bind. unfold getUsedMaxLevel. rewrite run_select.
  assert (X : existsb (fun h => Z.ltb (used_max_level id key s) (h_level h)) (ladder task) = false).
  { apply not_true_is_false. rewrite exhausted_existsb. now rewrite N. }
  rewrite X, andb_false_r, run_bind, run_select, L. cbn [findOrThrow bind]. rewrite run_bind.
  destruct (includes _ _); cbn [negb when]; [eexists; now split |].
  rewrite run_bind, run_appendTypedEvent. unfold mark_assisted. rewrite run_transaction, run_bind, !run_execute.
  eexists. split; [reflexivity |].
  set (a' := a <| assistance_flags ::= _ |>).
  set (s' := set_field task_states _ _).
  assert (A : attempts s' = <[id := a']> (attempts s)).
  { cbn [attempts s' set_field]. apply map_eq. intros j. destruct (decide (id = j)) as [<-|Nj].
    - now rewrite lookup_alter_eq, lookup_insert_eq, L.
    - now rewrite lookup_alter_ne, lookup_insert_ne. }
  split; [exact A |]. split; [|split; [|split]].
  - apply (has_task_frame id key s s' task a a'); try easy. rewrite A. apply lookup_insert_eq.
  - unfold used_max_level at 1. cbn [task_states s' set_field]. rewrite lookup_insert_eq.
    unfold used_max_level. now destruct (task_states s !! (id, key)).
  - eexists. split; [apply lookup_insert_eq | reflexivity].
  - eexists. split; reflexivity.
Qed.

(** "Just tell me" is refused, with nothing written, while an unrevealed level
    remains; after the ladder it gives the last guidance and flags the attempt as
    assisted, so that it no longer counts as genuine evidence of mastery; a second
    request changes nothing. *)
Theorem guided_fallback_spec id key s task a : has_task id key s task -> attempts s !! id = Some a ->
  match next_hint (ladder task) (used_max_level id key s) with
  | Some _ => run (guidedFallback id key) s = (inl (BadRequestException "hint ladder is not yet exhausted"), s)
  | None => exists g s' a', run (guidedFallback id key) s = (inr g, s') /\ run (guidedFallback id key) s' = (inr g, s') /\
      attempts s' = <[id := a']> (attempts s) /\ GUIDED_FALLBACK_FLAG ∈ assistance_flags a' /\
      Nat.eqb (length (assistance_flags a')) 0 = false /\ status a' = status a /\ version a' = version a
  end.
Proof.
  intros T L. destruct (next_hint _ _) as [h|] eqn:N.
  - unfold guidedFallback. rewrite run_bind, T, run_bind. unfold getUsedMaxLevel. rewrite run_select.
    assert (X : existsb (fun h => Z.ltb (used_max_level id key s) (h_level h)) (ladder task) = true)
      by (apply exhausted_existsb; now rewrite N).
    rewrite X. destruct (ladder task); [easy | reflexivity].
  - destruct (run_fallback id key s task a T L N) as (s1 & E & R).
    assert (F : forall a, GUIDED_FALLBACK_FLAG ∈ assistance_flags a -> Nat.eqb (length (assistance_flags a)) 0 = false)
      by (intros a0 I; destruct (assistance_flags a0); [now apply elem_of_nil in I | reflexivity]).
    destruct (includes (assistance_flags a) GUIDED_FALLBACK_FLAG) eqn:I.
    + subst s1. apply includes_spec in I. eexists _, s, a. split; [exact E |]. split; [exact E |].
      split; [now rewrite insert_id |]. auto.
    + destruct R as (A & T1 & U & _). set (a1 := a <| assistance_flags ::= _ |>) in A.
      assert (I1 : GUIDED_FALLBACK_FLAG ∈ assistance_flags a1) by (cbn; apply elem_of_app; right; now left).
      assert (L1 : attempts s1 !! id = Some a1) by (rewrite A; apply lookup_insert_eq).
      rewrite <- U in N. destruct (run_fallback id key s1 task a1 T1 L1 N) as (s2 & E2 & R2).
      rewrite (proj2 (includes_spec _ _) I1) in R2. subst s2.
      eexists _, s1, a1. split; [exact E |]. split; [exact E2 |]. split; [exact A |]. auto.
Qed.

(** Both hints of the lab are used. *)
Definition climbed : Store :=
  (Lab.store IN_PROGRESS 3) <| task_states := {[ (9%nat, "t1"%string) := mkTaskState T_PENDING None 0 2 false false ]} |>.

Lemma guided_fallback_spec_witness : exists g s', run (guidedFallback 9 "t1") climbed = (inr g, s') /\
  run (guidedFallback 9 "t1") s' = (inr g, s').
Proof.
  pose proof (guided_fallback_spec 9 "t1" climbed Lab.task (Lab.attempt IN_PROGRESS 3) eq_refl eq_refl) as G.
  assert (N : next_hint (ladder Lab.task) (used_max_level 9 "t1" climbed) = None) by (vm_compute; reflexivity).
  rewrite N in G. destruct G as (g & s' & a' & E & E' & _). exists g, s'. split; [exact E | exact E'].
Defined.

(** The task's assisted mark does not survive: the guided fallback sets it in
    attempt_task_state, but logs SOLUTION_VIEWED, which the replay ignores, so the
    next rebuild clears it (the attempt's own flag stays). *)
Theorem fallback_mark_wiped :
  let marked := (run (reveals 2 9 "t1" ;; guidedFallback 9 "t1") (Lab.store IN_PROGRESS 3)).2 in
  let rebuilt := (run (rebuildForAttempt 9) marked).2 in
  (ts_assisted <$> task_states marked !! (9%nat, "t1"%string)) = Some true /\
  (ts_assisted <$> task_states rebuilt !! (9%nat, "t1"%string)) = Some false /\
  (assistance_flags <$> attempts rebuilt !! 9%nat) = Some [GUIDED_FALLBACK_FLAG].
Proof. vm_compute. easy. Qed.

(** Two concurrent reveals read the same used level: both deliver level 1 and
    both charge its penalty, which one ladder step should cost once. *)
Theorem reveal_double_charge : exists turns,
  let fin := schedule turns [reveal 9 "t1"; reveal 9 "t1"] (Lab.store IN_PROGRESS 3) in
  forallb finished fin.1 = true /\ used_max_level 9 "t1" fin.2 = 1%Z /\
  (hint_penalty_total <$> attempts fin.2 !! 9%nat) = Some (1 # 50) /\
  numeric 5 4 (h_penalty (mkHintSpec 1 (1 # 100) "look at the logs")) = Some (1 # 100).
Proof. exists [0; 1; 0; 1; 0; 1; 0; 1; 0; 1; 0; 1]%nat. vm_compute. easy. Qed.
