(* ===== verification/Consumers.v ===== *)
(** * Event consumers, the cache sweep and the ownership guard

    attempt/command-executed.consumer.ts, env-destroyed.consumer.ts,
    cache-sweep.service.ts, attempt-ownership.ts and its guard, and the routes of
    attempt.controller.ts that combine services. *)
From S2P Require Import Prelude JsNum Binary64 Effects Schema AttemptStatus EventStore Bkt Mastery Criteria AttemptRepository ValidatorRunner Artifact Evaluation AttemptService AttemptLaws Lifecycle.

(** ** COMMAND_EXECUTED *)
(** [cmd.includes(part)]. *)
Definition contains (cmd part : string) : bool :=
  match String.index 0 part cmd with Some _ => true | None => false end.
Definition any_in (cmd : string) (parts : option (list string)) : bool :=
  existsb (contains cmd) (default [] parts).

(** One upsert: insert 1, or add 1. *)
Definition incrementSignal (attemptId : Id) (signalKey : string) : prog Store unit :=
  execute (fun s => s <| signals := <[(attemptId, signalKey) :=
    match signals s !! (attemptId, signalKey) with Some v => v + 1 | None => 1 end]> (signals s) |>).

Definition processSignalsFor (attemptId : Id) : prog Store (option ProcessSignals) :=
  let* spec := getActivitySpec attemptId in Ret (spec ≫= s_process_signals).

(** The payload of the envelope. *)
Record CommandPayload := mkCommandPayload {
  cp_cmd : string; cp_exit_code : Z; cp_duration_ms : Z; cp_cmd_hash : string; cp_source : string; cp_cwd : option string }.
Definition command_payload (p : CommandPayload) : Json :=
  JObj ([("cmd"%string, JStr (cp_cmd p)); ("exit_code"%string, JNum (inject_Z (cp_exit_code p)));
         ("duration_ms"%string, JNum (inject_Z (cp_duration_ms p))); ("cmd_hash"%string, JStr (cp_cmd_hash p));
         ("source"%string, JStr (cp_source p))]
        ++ match cp_cwd p with Some cwd => [("cwd"%string, JStr cwd)] | None => [] end).

Definition handleCommand (attemptId : Id) (payload : CommandPayload) : prog Store unit :=
  appendTypedEvent attemptId LEARNER COMMAND_EXECUTED (command_payload payload) ;;
  let* signals := processSignalsFor attemptId in
  match signals with
  | None => Ret tt
  | Some ps =>
      let cmd := cp_cmd payload in
      when (any_in cmd (ps_forbidden ps)) (incrementSignal attemptId "blast_radius_violations") ;;
      when (any_in cmd (ps_good_actions ps)) (incrementSignal attemptId "diagnostic_efficiency_good_count") ;;
      when (any_in cmd (ps_bad_actions ps)) (incrementSignal attemptId "diagnostic_efficiency_bad_count")
  end.

(** ** ENV_DESTROYED: an envelope without attempt_id is dropped. *)
Record EnvDestroyedEnvelope := mkEnvDestroyedEnvelope { ed_attempt_id : option Id; ed_reason : string }.
Definition handleMessage (envelope : EnvDestroyedEnvelope) : prog Store unit :=
  match ed_attempt_id envelope with
  | None => Ret tt
  | Some id => handleEnvironmentDestroyed id (ed_reason envelope)
  end.

(** ** The cache sweep *)
Module CacheSweepConstants.
Definition INACTIVITY_THRESHOLD_MS : Z := 72 * 60 * 60 * 1000.
End CacheSweepConstants.

Definition sweep : prog Store unit :=
  let* clock := select now in
  let* stale := findStaleSuspendedAttempts (clock - CacheSweepConstants.INACTIVITY_THRESHOLD_MS) in
  for_each stale (fun attempt => try_catch (cache attempt.1) (fun _ => Ret tt)).

(** ** Ownership *)
Record CallerClaims := mkCallerClaims { cl_userId : Id; cl_tenantId : Id }.

Definition isOwnedByCaller (attempt : option Attempt) (caller : option CallerClaims) : bool :=
  match attempt, caller with
  | Some a, Some c => Nat.eqb (user_id a) (cl_userId c) && Nat.eqb (tenant_id a) (cl_tenantId c)
  | _, _ => false
  end.

(** AttemptOwnershipGuard.canActivate, then the handler. *)
Definition guarded {A} (caller : option CallerClaims) (attemptId : Id) (p : prog Store A) : prog Store A :=
  let* attempt := findById attemptId in
  if isOwnedByCaller attempt caller then p else Throw ForbiddenException.

(** ** Routes that combine handlers *)
Section Routes.
Context `{Orchestrator}.

Definition provision_route (caller : option CallerClaims) (id : Id) : prog Store Attempt :=
  guarded caller id (reactivate id ;; provision id).
Definition connect_route (caller : option CallerClaims) (id : Id) : prog Store ConnectResult :=
  guarded caller id (touch id ;; connect id).
End Routes.

(** ** Laws *)
Lemma string_prefix_spec p s : String.prefix p s = true <-> exists rest, s = p +:+ rest.
Proof.
  revert s. induction p as [|c p IH]; intros s; cbn; [split; [eauto | now destruct s] |].
  destruct s as [|d s]; [split; [easy | now intros [rest [=]]] |].
  change (String.prefix (String c p) (String d s)) with (if Ascii.ascii_dec c d then String.prefix p s else false).
  destruct (Ascii.ascii_dec c d) as [->|N].
  - rewrite IH. split; intros [rest E]; exists rest; [now rewrite E | now injection E].
  - split; [easy |]. intros [rest E]. now injection E as ->.
Qed.

Lemma contains_spec cmd part : contains cmd part = true <-> exists before rest, cmd = before +:+ part +:+ rest.
Proof.
  unfold contains. induction cmd as [|c cmd IH].
  - destruct part as [|d part]; cbn; [split; [now exists EmptyString, EmptyString | easy] |].
    split; [easy |]. intros ([|? ?] & rest & [=]).
  - assert (X : (match String.index 0 part (String c cmd) with Some _ => true | None => false end) =
      String.prefix part (String c cmd) || match String.index 0 part cmd with Some _ => true | None => false end).
    { cbn [String.index]. destruct (String.prefix part (String c cmd)); [reflexivity |].
      now destruct (String.index 0 part cmd). }
    rewrite X, orb_true_iff, IH, string_prefix_spec. split.
    + intros [(rest & E) | (before & rest & ->)]; [now exists EmptyString, rest | now exists (String c before), rest].
    + intros ([|c' before] & rest & E); [left; now exists rest | right]. exists before, rest. now injection E.
Qed.

Lemma any_in_spec cmd parts : any_in cmd parts = true <->
  exists part before rest, part ∈ default [] parts /\ cmd = before +:+ part +:+ rest.
Proof.
  unfold any_in. rewrite existsb_exists. setoid_rewrite contains_spec. setoid_rewrite <- list_elem_of_In.
  split; [intros (p & I & b & r & E); eauto | intros (p & b & r & I & E); eauto].
Qed.

(** What a command adds to each signal. *)
Definition signal_gain (ps : option ProcessSignals) (cmd key : string) : Q :=
  match ps with
  | None => 0
  | Some ps =>
      (if String.eqb key "blast_radius_violations" && any_in cmd (ps_forbidden ps) then 1 else 0) +
      (if String.eqb key "diagnostic_efficiency_good_count" && any_in cmd (ps_good_actions ps) then 1 else 0) +
      (if String.eqb key "diagnostic_efficiency_bad_count" && any_in cmd (ps_bad_actions ps) then 1 else 0)
  end.
Definition signal (s : Store) (id : Id) (key : string) : Q := default 0 (signals s !! (id, key)).

Lemma run_increment b id k s : exists s', run (when b (incrementSignal id k)) s = (inr tt, s') /\
  s' = s <| signals := signals s' |> /\
  forall j key, signal s' j key == signal s j key + (if Nat.eqb j id && (String.eqb key k && b) then 1 else 0).
Proof.
  destruct b; cbn [when].
  - eexists. split; [apply run_execute |]. split; [reflexivity |]. intros j key. unfold signal. cbn [signals set_field].
    destruct (decide ((j, key) = (id, k))) as [[= -> ->]|N].
    + rewrite lookup_insert_eq, Nat.eqb_refl, String.eqb_refl. cbn. destruct (signals s !! _); cbn; lra.
    + rewrite lookup_insert_ne by congruence. destruct (Nat.eqb_spec j id) as [->|]; cbn; [|lra].
      destruct (String.eqb_spec key k) as [->|]; cbn; [easy | lra].
  - exists s. split; [reflexivity |]. split; [now destruct s |]. intros j key. rewrite !andb_false_r. lra.
Qed.

(** A command reported by the session broker is always logged, and raises by
    one exactly the signals of its own attempt that it triggers: blast-radius
    violations when it contains a forbidden text, good and bad diagnostic actions
    when it contains one of those; nothing without authored process signals. *)
Theorem command_signals id payload s : exists s', run (handleCommand id payload) s = (inr tt, s') /\
  s' = s <| events := events s ++ [appended id LEARNER COMMAND_EXECUTED (command_payload payload) s] |> <| signals := signals s' |> /\
  forall j key, signal s' j key == signal s j key +
    (if Nat.eqb j id then signal_gain (spec_of_attempt id s ≫= s_process_signals) (cp_cmd payload) key else 0).
Proof.
  unfold handleCommand. rewrite run_bind, run_appendTypedEvent. set (s1 := s <| events ::= _ |>).
  unfold processSignalsFor, getActivitySpec. rewrite run_bind, run_bind, run_select, run_ret.
  change (spec_of_attempt id s1) with (spec_of_attempt id s).
  destruct (spec_of_attempt id s ≫= s_process_signals) as [ps|].
  - cbv zeta. destruct (run_increment (any_in (cp_cmd payload) (ps_forbidden ps)) id "blast_radius_violations" s1) as (s2 & E2 & F2 & G2).
    destruct (run_increment (any_in (cp_cmd payload) (ps_good_actions ps)) id "diagnostic_efficiency_good_count" s2) as (s3 & E3 & F3 & G3).
    destruct (run_increment (any_in (cp_cmd payload) (ps_bad_actions ps)) id "diagnostic_efficiency_bad_count" s3) as (s4 & E4 & F4 & G4).
    exists s4. split; [now rewrite run_bind, E2, run_bind, E3 |]. split.
    + rewrite F4 at 1. rewrite F3 at 1. rewrite F2 at 1. reflexivity.
    + intros j key. rewrite G4, G3, G2. change (signal s1) with (signal s). unfold signal_gain.
      destruct (Nat.eqb j id); cbn [andb]; lra.
  - exists s1. split; [reflexivity |]. split; [reflexivity |]. intros j key.
    change (signal s1) with (signal s). cbn. destruct (Nat.eqb j id); lra.
Qed.

(** ** The sweep *)
Lemma run_cache id s : match attempts s !! id with
  | Some r => if bool_decide (status r = SUSPENDED)
      then exists r' s', run (cache id) s = (inr tt, s') /\ attempts s' = <[id := r']> (attempts s) /\ now s' = now s /\
        status r' = CACHED /\ version r' = S (version r) /\ snapshot_id r' = None /\ calls s' = calls s
      else run (cache id) s = (inr tt, s)
  | None => run (cache id) s = (inr tt, s)
  end.
Proof.
  unfold cache. rewrite run_bind. unfold findById. rewrite run_select. destruct (attempts s !! id) as [r|] eqn:L; [|reflexivity].
  destruct (bool_decide _); cbn [negb]; [|reflexivity].
  rewrite run_bind, run_appendTypedEvent, run_bind, run_appendTypedEvent, run_bind, run_transition.
  cbn [attempts set_field]. rewrite L, Nat.eqb_refl. eexists _, _. split; [reflexivity |]. split_and!; reflexivity.
Qed.

Definition stale (s : Store) (r : Attempt) : Prop :=
  status r = SUSPENDED /\ (last_activity_at r < now s - CacheSweepConstants.INACTIVITY_THRESHOLD_MS)%Z.

(** What the sweep has done to the rows, given the ids it visited. *)
Definition swept (s : Store) (visited : list Id) (s' : Store) : Prop :=
  calls s' = calls s /\
  forall id, match attempts s !! id with
  | Some r => if includes visited id && bool_decide (status r = SUSPENDED)
      then exists r', attempts s' !! id = Some r' /\ status r' = CACHED /\ version r' = S (version r)
      else attempts s' !! id = Some r
  | None => attempts s' !! id = None
  end.

Lemma includes_snoc {A} `{EqDecision A} (l : list A) x y : includes (l ++ [x]) y = includes l y || bool_decide (y = x).
Proof.
  apply eq_true_iff_eq. rewrite orb_true_iff, !includes_spec, bool_decide_eq_true, elem_of_app, list_elem_of_singleton. reflexivity.
Qed.

Lemma swept_step s visited id s1 : swept s visited s1 ->
  runs (try_catch (cache id) (fun _ => Ret tt)) s1 (fun _ s2 => swept s (visited ++ [id]) s2).
Proof.
  intros [C W]. pose proof (run_cache id s1) as R. pose proof (W id) as Wi.
  assert (Same : run (cache id) s1 = (inr tt, s1) ->
    match attempts s !! id with Some r => attempts s1 !! id = Some r -> status r <> SUSPENDED | None => True end ->
    runs (try_catch (cache id) (fun _ => Ret tt)) s1 (fun _ s2 => swept s (visited ++ [id]) s2)).
  { intros E N. exists tt, s1. rewrite run_try, E. split; [reflexivity |]. split; [exact C |]. intros j. specialize (W j).
    destruct (attempts s !! j) as [r|] eqn:Lj; [|exact W]. rewrite includes_snoc.
    destruct (includes visited j); cbn [orb] in *; [exact W |].
    destruct (bool_decide_reflect (j = id)) as [->|]; cbn [andb] in *; [|exact W].
    rewrite Lj in N. now rewrite bool_decide_false by now apply N. }
  destruct (attempts s1 !! id) as [r1|] eqn:L1; [|apply Same; [exact R | now destruct (attempts s !! id)]].
  destruct (bool_decide_reflect (status r1 = SUSPENDED)) as [St|St];
    [|apply Same; [exact R | destruct (attempts s !! id); [congruence | exact I]]].
  destruct R as (r' & s2 & E & A & _ & S2 & V2 & _ & C2). exists tt, s2. rewrite run_try, E. split; [reflexivity |].
  split; [congruence |]. intros j. specialize (W j). rewrite A. destruct (decide (id = j)) as [<-|N].
  - rewrite lookup_insert_eq. destruct (attempts s !! id) as [r|] eqn:L; [|congruence].
    rewrite includes_snoc, (bool_decide_true (id = id)), orb_true_r by easy. cbn [andb].
    destruct (includes visited id && _) eqn:I.
    + destruct W as (r'' & W & St' & _). congruence.
    + rewrite L1 in W. injection W as ->. rewrite bool_decide_true by easy. exists r'. easy.
  - rewrite lookup_insert_ne by easy. destruct (attempts s !! j) as [r|]; [|exact W].
    now rewrite includes_snoc, (bool_decide_false (j = id)), orb_false_r by congruence.
Qed.

(** A sweep never fails; it makes every attempt that has been SUSPENDED and
    inactive for more than 72 hours CACHED, one version on, touches no other
    attempt and makes no call to the orchestrator. *)
Theorem sweep_spec s : exists s', run sweep s = (inr tt, s') /\ calls s' = calls s /\
  forall id r, attempts s !! id = Some r ->
    (stale s r -> exists r', attempts s' !! id = Some r' /\ status r' = CACHED /\ version r' = S (version r)) /\
    (~ stale s r -> attempts s' !! id = Some r).
Proof.
  unfold sweep. rewrite run_bind, run_select, run_bind. unfold findStaleSuspendedAttempts. rewrite run_select.
  set (l := where_attempts _ s).
  destruct (runs_for_each (fun done s' => swept s done.*1 s') (fun attempt => try_catch (cache attempt.1) (fun _ => Ret tt)) l s)
    as ([] & s' & E & C & W).
  - intros done [id r] s1 Hs. rewrite fmap_app. now apply swept_step.
  - split; [reflexivity |]. intros id. destruct (attempts s !! id); reflexivity.
  - exists s'. split; [exact E |]. split; [exact C |]. intros id r L. specialize (W id). rewrite L in W.
    assert (X : includes l.*1 id && bool_decide (status r = SUSPENDED) = true <-> stale s r).
    { rewrite andb_true_iff, includes_spec, bool_decide_eq_true. subst l. unfold stale. rewrite list_elem_of_fmap. split.
      - intros [ [ [id' r'] [-> I] ] St]. apply where_attempts_spec in I as [L' P]. cbn in L. rewrite L in L'. injection L' as <-.
        apply andb_prop in P as [_ P]. apply Z.ltb_lt in P. easy.
      - intros [St Lt]. split; [|exact St]. exists (id, r). split; [reflexivity |]. apply where_attempts_spec. split; [exact L |].
        rewrite bool_decide_true by easy. now apply Z.ltb_lt. }
    destruct (includes l.*1 id && _); [split; [easy | intros N; now destruct N; apply X] |].
    split; [intros St; now apply X in St | easy].
Qed.

(** ** The guard *)
Definition owns (caller : option CallerClaims) (s : Store) (id : Id) : Prop :=
  exists a c, attempts s !! id = Some a /\ caller = Some c /\ user_id a = cl_userId c /\ tenant_id a = cl_tenantId c.

Lemma owned_spec caller s id : isOwnedByCaller (attempts s !! id) caller = true <-> owns caller s id.
Proof.
  unfold isOwnedByCaller, owns. destruct (attempts s !! id) as [a|], caller as [c|];
    try (split; [easy | now intros (? & ? & ? & ? & _)]).
  rewrite andb_true_iff, !Nat.eqb_eq. split; [intros [U T]; now exists a, c |].
  now intros (a' & c' & [= <-] & [= <-] & U & T).
Qed.

Lemma run_guarded {A} caller id (p : prog Store A) s :
  run (guarded caller id p) s = if isOwnedByCaller (attempts s !! id) caller then run p s else (inl ForbiddenException, s).
Proof. unfold guarded. rewrite run_bind. unfold findById. rewrite run_select. now destruct (isOwnedByCaller _ _). Qed.

(** A guarded route runs exactly when the attempt exists and both its user and
    tenant are the caller's; any other call, on a foreign or a missing attempt
    alike, is answered Forbidden with nothing read further or written. *)
Theorem guard_spec {A} caller id (p : prog Store A) s :
  (owns caller s id /\ run (guarded caller id p) s = run p s) \/
  (~ owns caller s id /\ run (guarded caller id p) s = (inl ForbiddenException, s)).
Proof.
  rewrite run_guarded, <- owned_spec. destruct (isOwnedByCaller _ _); [now left | right].
  split; [discriminate | reflexivity].
Qed.

(** "Start lab" clicked again provisions nothing: on an attempt of the caller
    that is neither CREATED nor resumable (so already PROVISIONING, READY, in
    progress or finished) the route is refused, without a call to the
    orchestrator and without a write. *)
Theorem provision_route_once `{Orchestrator} caller id s r :
  attempts s !! id = Some r -> owns caller s id ->
  status r <> CREATED -> includes REACTIVATABLE_STATUSES (status r) = false ->
  run (provision_route caller id) s = (inl (AttemptErrors ["INVALID_STATE_TRANSITION"%string]), s).
Proof.
  intros L O N I. unfold provision_route. rewrite run_guarded. apply owned_spec in O. rewrite O.
  pose proof (run_reactivate id s r L) as R. rewrite I in R. rewrite run_bind, R.
  unfold provision. rewrite run_bind. unfold findById. rewrite run_select, L. cbn [findOrThrow bind].
  now rewrite bool_decide_false by easy.
Qed.

Lemma provision_route_once_witness :
  run (@provision_route ready_orchestrator (Some (mkCallerClaims 7 1)) 9) (Lab.store READY 3) =
  (inl (AttemptErrors ["INVALID_STATE_TRANSITION"%string]), Lab.store READY 3).
Proof.
  apply (@provision_route_once ready_orchestrator (Some (mkCallerClaims 7 1)) 9 (Lab.store READY 3) (Lab.attempt READY 3)).
  - reflexivity.
  - exists (Lab.attempt READY 3), (mkCallerClaims 7 1). split_and!; reflexivity.
  - discriminate.
  - reflexivity.
Defined.
