(* ===== verification/ProjectScoring.v ===== *)
(** * The score of a project

    project/project-scoring.ts: the milestone scores and the viva score rolled
    up into one project score, the AI-graded part of which is capped. *)
From S2P Require Import Prelude JsNum Binary64 Effects Schema.

Inductive Component := CMilestone (key : MilestoneKey) | CDefence.
#[export] Instance component_eq_dec : EqDecision Component.
Proof. solve_decision. Defined.

Record MilestoneScoreInput := mkMilestoneScoreInput {
  mi_key : MilestoneKey; mi_score : option Q; mi_aiDerived : option bool }.
Record MappedSkill := mkMappedSkill { mk_skillId : Id; mk_weight : Q }.
Record ProjectRollupInput := mkProjectRollupInput {
  ri_milestones : list MilestoneScoreInput; ri_defenceScore : option Q; ri_mappedSkills : list MappedSkill }.
Record WeightedComponent := mkWeightedComponent {
  wc_component : Component; wc_rawScore : Q; wc_weight : Q; wc_weighted : Q; wc_aiDerived : bool }.
Record SkillEvidence := mkSkillEvidence { se_skillId : Id; se_evidenceScore : Q; se_weight : Q }.
Record ProjectRollupResult := mkProjectRollupResult {
  rr_finalScore : Q; rr_passThreshold : Q; rr_passed : bool; rr_breakdown : list WeightedComponent;
  rr_aiFraction : Q; rr_aiCapApplied : bool; rr_masteryEvidence : list SkillEvidence }.

Definition SP_PROJECT_DEFAULT_ID : string := "sp.project.default".
Definition AI_COMPONENTS : list Component := [CMilestone design; CMilestone hardening; CDefence].

(** A component before its weight is set. *)
Record AuthoredComponent := mkAuthoredComponent {
  ac_component : Component; ac_rawScore : Q; ac_authoredWeight : Q; ac_aiDerived : bool }.

Section ProjectScoringService.
Context `{Rounding}.

Definition MILESTONE_WEIGHTS (c : Component) : Q :=
  lit (match c with
       | CMilestone design => 2 # 10
       | CMilestone infra => 15 # 100
       | CMilestone implementation => 2 # 10
       | CMilestone hardening => 2 # 10
       | CMilestone final => 1 # 10
       | CDefence => 15 # 100
       end).
Definition PASS_THRESHOLD : Q := lit (7 # 10).
Definition AI_CAP : Q := lit (4 # 10).

(** [Math.max(0, Math.min(1, n))]. *)
Definition unit_clamp (n : Q) : Q := jmax 0 (jmin 1 n).

(** [byKey.get(key)]: the last milestone of a key counts. *)
Definition by_key (ms : list MilestoneScoreInput) (key : MilestoneKey) : option MilestoneScoreInput :=
  List.find (fun m => bool_decide (mi_key m = key)) (rev ms).

Definition milestone_component (ms : list MilestoneScoreInput) (key : MilestoneKey) : AuthoredComponent :=
  let m := by_key ms key in
  mkAuthoredComponent (CMilestone key) (unit_clamp (default 0 (m ≫= mi_score)))
    (MILESTONE_WEIGHTS (CMilestone key))
    (default false (m ≫= mi_aiDerived) || bool_decide (CMilestone key ∈ AI_COMPONENTS)).

Definition components (input : ProjectRollupInput) : list AuthoredComponent :=
  (milestone_component (ri_milestones input) <$> [design; infra; implementation; hardening; final]) ++
  [mkAuthoredComponent CDefence (unit_clamp (default 0 (ri_defenceScore input))) (MILESTONE_WEIGHTS CDefence) true].

Definition authoredAi (cs : list AuthoredComponent) : Q := sum_by ac_authoredWeight (List.filter ac_aiDerived cs).
Definition authoredNonAi (cs : list AuthoredComponent) : Q :=
  sum_by ac_authoredWeight (List.filter (fun c => negb (ac_aiDerived c)) cs).

Definition aiCapApplied (cs : list AuthoredComponent) : bool :=
  (0 <? authoredAi cs) && (0 <? authoredNonAi cs)
  && (AI_CAP <? authoredAi cs /! (authoredAi cs +! authoredNonAi cs)).
Definition aiWeightBudget (cs : list AuthoredComponent) : Q :=
  if Qeq_bool (authoredNonAi cs) 0 then 1 else if Qeq_bool (authoredAi cs) 0 then 0 else AI_CAP.

Definition effWeight (cs : list AuthoredComponent) (c : AuthoredComponent) : Q :=
  let half := if ac_aiDerived c then authoredAi cs else authoredNonAi cs in
  let budget := if ac_aiDerived c then aiWeightBudget cs else 1 -! aiWeightBudget cs in
  if Qeq_bool half 0 then 0 else ac_authoredWeight c /! half *! budget.

Definition weigh (cs : list AuthoredComponent) (c : AuthoredComponent) : WeightedComponent :=
  mkWeightedComponent (ac_component c) (ac_rawScore c) (effWeight cs c)
    (ac_rawScore c *! effWeight cs c) (ac_aiDerived c).
Definition weighted (input : ProjectRollupInput) : list WeightedComponent :=
  weigh (components input) <$> components input.

Definition rounded (c : WeightedComponent) : WeightedComponent :=
  mkWeightedComponent (wc_component c) (round4 (wc_rawScore c)) (round4 (wc_weight c))
    (round4 (wc_weighted c)) (wc_aiDerived c).

Definition rollup (input : ProjectRollupInput) : ProjectRollupResult :=
  let weighted := weighted input in
  let finalScore := round4 (unit_clamp (sum_by wc_weighted weighted)) in
  let finalAiWeighted := sum_by wc_weighted (List.filter wc_aiDerived weighted) in
  let aiFraction := if 0 <? finalScore then round4 (finalAiWeighted /! finalScore) else 0 in
  mkProjectRollupResult finalScore PASS_THRESHOLD (PASS_THRESHOLD <=? finalScore) (rounded <$> weighted)
    aiFraction (aiCapApplied (components input))
    ((fun s => mkSkillEvidence (mk_skillId s) finalScore (mk_weight s)) <$> ri_mappedSkills input).
End ProjectScoringService.

(** ** Laws of the roll-up *)
Section RollupLaws.
Context `{Rounding}.

Lemma unit_clamp_bounds n : 0 <= unit_clamp n <= 1.
Proof. unfold unit_clamp. qlra. Qed.
Lemma unit_clamp_mono n n' : n <= n' -> unit_clamp n <= unit_clamp n'.
Proof. intros L. unfold unit_clamp. now apply jmax_mono, jmin_mono; try apply Qle_refl. Qed.

Lemma round4_mono x y : x <= y -> round4 x <= round4 y.
Proof.
  intros L. unfold round4, div. apply rnd_mono. apply Qmult_le_compat_r; [|easy].
  rewrite <- Zle_Qle. apply jround_mono. unfold mul. apply rnd_mono. lra.
Qed.
Lemma round4_0 : round4 0 == 0.
Proof.
  unfold round4, mul. rewrite Qmult_0_l, rnd_0, (jround_int 0 : jround 0 = 0%Z).
  unfold div. assert (E : inject_Z 0 / 10000 == 0) by reflexivity. rewrite E. apply rnd_0.
Qed.
Lemma round4_1 : round4 1 == 1.
Proof.
  unfold round4, mul. rewrite Qmult_1_l, (rnd_int 10000) by lia. rewrite jround_int. now apply div_self.
Qed.
Lemma round4_unit x : 0 <= x <= 1 -> 0 <= round4 x <= 1.
Proof. intros []. rewrite <- round4_0 at 1. rewrite <- round4_1. split; now apply round4_mono. Qed.

Lemma weights_nonneg c : 0 <= MILESTONE_WEIGHTS c.
Proof. apply rnd_nonneg. now destruct c as [[]|]. Qed.
Lemma AI_CAP_unit : 0 <= AI_CAP <= 1.
Proof. now apply lit_unit. Qed.

Lemma budget_unit cs : 0 <= aiWeightBudget cs <= 1.
Proof. unfold aiWeightBudget. destruct (Qeq_bool _ _); [easy |]. destruct (Qeq_bool _ _); [easy | apply AI_CAP_unit]. Qed.

Lemma components_sane input c : c ∈ components input -> 0 <= ac_authoredWeight c /\ 0 <= ac_rawScore c <= 1.
Proof.
  intros I. unfold components in I. apply elem_of_app in I as [(k & -> & _)%list_elem_of_fmap | ->%list_elem_of_singleton];
    (split; [apply weights_nonneg | apply unit_clamp_bounds]).
Qed.

Lemma authored_nonneg input p : 0 <= sum_by ac_authoredWeight (List.filter p (components input)).
Proof.
  apply sum_by_nonneg. intros c I. apply (components_sane input).
  apply list_elem_of_In, filter_In in I. now apply list_elem_of_In.
Qed.

Lemma effWeight_nonneg input c : c ∈ components input -> 0 <= effWeight (components input) c.
Proof.
  intros I. unfold effWeight. destruct (Qeq_bool _ _); [easy |].
  apply mul_nonneg.
  - apply div_nonneg; [now apply (components_sane input) |]. destruct (ac_aiDerived c); apply authored_nonneg.
  - pose proof (budget_unit (components input)). destruct (ac_aiDerived c); [easy |]. apply rnd_nonneg. lra.
Qed.

(** The effective weights only depend on who graded what. *)
Definition same_shape (c c' : AuthoredComponent) : Prop :=
  ac_component c = ac_component c' /\ ac_authoredWeight c = ac_authoredWeight c' /\ ac_aiDerived c = ac_aiDerived c'.

Lemma shape_sum p cs cs' : (forall c c', same_shape c c' -> p c = p c') -> Forall2 same_shape cs cs' ->
  sum_by ac_authoredWeight (List.filter p cs) = sum_by ac_authoredWeight (List.filter p cs').
Proof.
  intros P F. unfold sum_by. generalize 0. induction F as [|c c' cs cs' S F IH]; intros acc; [easy |]. cbn.
  rewrite (P c c' S). destruct (p c'); cbn; [|apply IH]. destruct S as (_ & -> & _). apply IH.
Qed.

Lemma shape_effWeight cs cs' c c' : Forall2 same_shape cs cs' -> same_shape c c' -> effWeight cs c = effWeight cs' c'.
Proof.
  intros F (_ & W & A). unfold effWeight, aiWeightBudget, authoredAi, authoredNonAi.
  rewrite !(shape_sum _ cs cs') by (auto; intros ? ? (_ & _ & ->); reflexivity). now rewrite W, A.
Qed.

(** [input'] has the milestones of [input], graded the same way, with scores related by [R]. *)
Definition regraded (R : bool -> Q -> Q -> Prop) (input input' : ProjectRollupInput) : Prop :=
  Forall2 (fun m m' => mi_key m = mi_key m' /\ mi_aiDerived m = mi_aiDerived m' /\
             R (default false (mi_aiDerived m) || bool_decide (CMilestone (mi_key m) ∈ AI_COMPONENTS))
               (default 0 (mi_score m)) (default 0 (mi_score m')))
          (ri_milestones input) (ri_milestones input') /\
  R true (default 0 (ri_defenceScore input)) (default 0 (ri_defenceScore input')).

Definition by_keys (R : bool -> Q -> Q -> Prop) (c c' : AuthoredComponent) : Prop :=
  same_shape c c' /\ R (ac_aiDerived c) (ac_rawScore c) (ac_rawScore c').

Lemma find_regraded {P : MilestoneScoreInput -> MilestoneScoreInput -> Prop} ms ms' key :
  Forall2 (fun m m' => mi_key m = mi_key m' /\ P m m') ms ms' ->
  match by_key ms key, by_key ms' key with
  | Some m, Some m' => mi_key m = key /\ P m m'
  | None, None => True
  | _, _ => False
  end.
Proof.
  intros F%Forall2_reverse. unfold reverse in F. rewrite <- !rev_alt in F. unfold by_key.
  revert F. generalize (rev ms) (rev ms'). intros l l' F.
  induction F as [|m m' l l' [K Pm] F IH]; cbn; [exact I |].
  rewrite <- K. destruct (bool_decide (mi_key m = key)) eqn:B; [|apply IH].
  apply bool_decide_eq_true in B. now split.
Qed.

Lemma components_regraded (R : bool -> Q -> Q -> Prop) input input' :
  (forall b, R b 0 0) -> (forall b x y, R b x y -> R b (unit_clamp x) (unit_clamp y)) ->
  regraded R input input' -> Forall2 (by_keys R) (components input) (components input').
Proof.
  intros R0 Rc [F D]. unfold components. apply Forall2_app.
  - assert (G : forall key, by_keys R (milestone_component (ri_milestones input) key) (milestone_component (ri_milestones input') key)).
    { intros key. unfold milestone_component.
      pose proof (find_regraded (P := fun m m' => mi_aiDerived m = mi_aiDerived m' /\ _) _ _ key F) as G.
      destruct (by_key (ri_milestones input) key) as [m|], (by_key (ri_milestones input') key) as [m'|];
        [|easy | easy | split; [now split_and! | apply Rc, R0]].
      destruct G as (<- & A & G). split; [split_and!; cbn; now rewrite ?A |].
      cbn. apply Rc in G. now destruct (mi_score m), (mi_score m'). }
    repeat constructor; apply G.
  - repeat constructor. now apply Rc.
Qed.

Lemma weigh_sum cs l :
  sum_by wc_weighted (weigh cs <$> l) = sum_by (fun c => ac_rawScore c *! effWeight cs c) l.
Proof. unfold sum_by. generalize 0. induction l as [|c l IH]; intros acc; cbn -[effWeight]; [easy | apply IH]. Qed.
Lemma weighted_sum input :
  sum_by wc_weighted (weighted input) =
  sum_by (fun c => ac_rawScore c *! effWeight (components input) c) (components input).
Proof. apply weigh_sum. Qed.

Lemma fold_add_mono2 {A B} (f : A -> Q) (g : B -> Q) l l' acc acc' :
  Forall2 (fun x y => f x <= g y) l l' -> acc <= acc' ->
  fold_left (fun a x => a +! f x) l acc <= fold_left (fun a x => a +! g x) l' acc'.
Proof.
  intros F. revert acc acc'. induction F as [|x y l l' L F IH]; intros acc acc' La; cbn; [easy |].
  apply IH. now apply add_mono.
Qed.
End RollupLaws.

(** A project no milestone of which scores less, graded the same way. *)
Definition improved : ProjectRollupInput -> ProjectRollupInput -> Prop := regraded (fun _ x y => x <= y).

(** The project score is in [0, 1] whatever the milestones and the viva
    scored, a project passes exactly from the threshold on, and every mapped
    skill gets the project score as its evidence; raising a milestone or viva
    score, or gating a milestone that was missing, never lowers the project score. *)
Theorem rollup_monotone `{Rounding} input input' :
  improved input input' ->
  let r := rollup input in let r' := rollup input' in
  0 <= rr_finalScore r <= 1 /\ (rr_passed r = true <-> rr_passThreshold r <= rr_finalScore r) /\
  (forall e, e ∈ rr_masteryEvidence r -> se_evidenceScore e = rr_finalScore r) /\
  rr_finalScore r <= rr_finalScore r'.
Proof.
  intros G. cbn zeta. unfold rollup. cbn [rr_finalScore rr_passed rr_passThreshold rr_masteryEvidence].
  split_and!.
  - apply round4_unit, unit_clamp_bounds.
  - apply round4_unit, unit_clamp_bounds.
  - apply Qleb_le.
  - intros e (s & -> & _)%list_elem_of_fmap. reflexivity.
  - apply round4_mono, unit_clamp_mono. rewrite !weighted_sum.
    apply components_regraded in G; [|intros; apply Qle_refl | intros; now apply unit_clamp_mono].
    assert (S : Forall2 same_shape (components input) (components input'))
      by (eapply Forall2_impl; [exact G | now intros c c' [] ]).
    apply fold_add_mono2; [|apply Qle_refl].
    apply Forall2_same_length_lookup in G as [L G]. apply Forall2_same_length_lookup. split; [exact L |].
    intros i c c' Ec Ec'. destruct (G i c c' Ec Ec') as [Sc Rc].
    rewrite <- (shape_effWeight _ _ c c' S Sc). apply mul_mono_r; [|exact Rc].
    apply effWeight_nonneg. eapply list_elem_of_lookup_2, Ec.
Qed.

(** ** The cap on AI-graded components, in exact arithmetic *)
Section AiCap.
#[local] Existing Instance exact.

Lemma fold_exact {A} (f : A -> Q) l acc : fold_left (fun a x => a +! f x) l acc == acc + sum_by f l.
Proof.
  unfold sum_by. revert acc. induction l as [|x l IH]; intros acc; cbn [fold_left]; [ring |].
  change (acc +! f x) with (acc + f x). change (0 +! f x) with (0 + f x).
  pose proof (IH (acc + f x)). pose proof (IH (0 + f x)). lra.
Qed.
Lemma sum_cons {A} (f : A -> Q) x l : sum_by f (x :: l) == f x + sum_by f l.
Proof. pose proof (fold_exact f l (0 + f x)) as E. change (sum_by f (x :: l)) with (fold_left (fun a x => a +! f x) l (0 + f x)). lra. Qed.

Lemma sum_scaled {A} (f : A -> Q) (k : Q) l : sum_by (fun x => f x * k) l == sum_by f l * k.
Proof. induction l as [|x l IH]; [unfold sum_by; cbn [fold_left]; ring |]. rewrite !sum_cons, IH. ring. Qed.

Lemma sum_ge {A} (f : A -> Q) x l : (forall y, y ∈ l -> 0 <= f y) -> x ∈ l -> f x <= sum_by f l.
Proof.
  intros P I. induction I as [|y x l I IH]; rewrite sum_cons.
  - enough (0 <= sum_by f l) by lra. apply sum_by_nonneg. intros y Iy. apply P. now right.
  - pose proof (P x ltac:(now left)) as Py. specialize (IH ltac:(intros; apply P; now right)). lra.
Qed.

(** The weights of the AI-graded components add up to their budget. *)
Lemma ai_weight_total cs : ~ authoredAi cs == 0 ->
  sum_by (effWeight cs) (List.filter ac_aiDerived cs) == aiWeightBudget cs.
Proof.
  intros N. assert (E : Qeq_bool (authoredAi cs) 0 = false) by (apply not_true_is_false; now rewrite Qeq_bool_iff).
  assert (S : forall l, sum_by (effWeight cs) (List.filter ac_aiDerived l) ==
    sum_by (fun c => ac_authoredWeight c * (aiWeightBudget cs / authoredAi cs)) (List.filter ac_aiDerived l)).
  { intros l. induction l as [|c l IH]; [reflexivity |].
    cbn [List.filter]. destruct (ac_aiDerived c) eqn:A; [|exact IH]. rewrite !sum_cons, IH.
    unfold effWeight at 1. rewrite A, E. unfold div, mul. cbn [rnd exact]. field. exact N. }
  rewrite (S cs), (sum_scaled ac_authoredWeight). fold (authoredAi cs). field. exact N.
Qed.

Lemma regraded_sum cs l l' (w : AuthoredComponent -> Q) :
  (forall c, c ∈ l -> 0 <= w c) ->
  Forall2 (by_keys (fun ai x y => 0 <= x /\ y <= 1 /\ (ai = true \/ x == y))) l l' ->
  (forall c c', same_shape c c' -> w c == effWeight cs c') ->
  sum_by (fun c => ac_rawScore c *! effWeight cs c) l' <=
  sum_by (fun c => ac_rawScore c *! w c) l + sum_by w (List.filter ac_aiDerived l).
Proof.
  intros P F W. induction F as [|c c' l l' [S (L & U & R)] F IH]; [easy |].
  specialize (IH ltac:(intros; apply P; now right)). specialize (P c ltac:(now left)).
  rewrite !sum_cons. cbn [List.filter]. unfold mul in *. cbn [rnd exact] in *. rewrite <- (W c c' S).
  destruct (ac_aiDerived c); [rewrite sum_cons | destruct R as [R|R]; [easy | rewrite R]]; nra.
Qed.

Lemma round4_shift y : round4 (y + (2 # 5)) == round4 y + (2 # 5).
Proof.
  unfold round4, mul, div. cbn [rnd exact].
  assert (E : (y + (2 # 5)) * 10000 == y * 10000 + inject_Z 4000) by (change (inject_Z 4000) with (4000 # 1); ring).
  rewrite E. unfold jround.
  assert (J : Qfloor (y * 10000 + inject_Z 4000 + (1 # 2)) = (Qfloor (y * 10000 + (1 # 2)) + 4000)%Z).
  { pose proof (Qfloor_le (y * 10000 + (1 # 2))) as A. pose proof (Qlt_floor (y * 10000 + (1 # 2))) as B.
    pose proof (Qfloor_le (y * 10000 + inject_Z 4000 + (1 # 2))) as C. pose proof (Qlt_floor (y * 10000 + inject_Z 4000 + (1 # 2))) as D.
    set (f := Qfloor (y * 10000 + (1 # 2))) in *. set (g := Qfloor (_ + inject_Z 4000 + _)) in *.
    rewrite inject_Z_plus in B, D. change (inject_Z 1) with 1 in *.
    assert (inject_Z g < inject_Z (f + 4001)) by (rewrite inject_Z_plus; change (inject_Z 4000) with 4000 in *; change (inject_Z 4001) with 4001; lra).
    assert (inject_Z (f + 3999) < inject_Z g) by (rewrite inject_Z_plus; change (inject_Z 4000) with 4000 in *; change (inject_Z 3999) with 3999; lra).
    rewrite <- Zlt_Qlt in *. lia. }
  rewrite J, inject_Z_plus. change (inject_Z 4000) with 4000. field.
Qed.

(** Some milestone is graded by validators alone. *)
Definition some_deterministic (input : ProjectRollupInput) : Prop :=
  exists c, c ∈ components input /\ ac_aiDerived c = false.

Lemma deterministic_budget input : some_deterministic input -> aiWeightBudget (components input) == 2 # 5.
Proof.
  intros (c & I & A). unfold aiWeightBudget.
  assert (W : forall p c, c ∈ components input -> p c = true ->
    0 < sum_by ac_authoredWeight (List.filter p (components input))).
  { intros p d Id Pd. apply Qlt_le_trans with (ac_authoredWeight d).
    - unfold components in Id. apply elem_of_app in Id as [(k & -> & _)%list_elem_of_fmap | ->%list_elem_of_singleton]; [now destruct k | easy].
    - apply sum_ge; [|now apply list_elem_of_In, filter_In; split; [apply list_elem_of_In |]].
      intros y (Iy & _)%list_elem_of_In%filter_In. apply (components_sane input). now apply list_elem_of_In. }
  pose proof (W (fun c => negb (ac_aiDerived c)) c I ltac:(cbn beta; now rewrite A)) as N. fold (authoredNonAi (components input)) in N.
  assert (D : mkAuthoredComponent CDefence (unit_clamp (default 0 (ri_defenceScore input))) (MILESTONE_WEIGHTS CDefence) true ∈ components input)
    by (apply elem_of_app; right; now left).
  pose proof (W ac_aiDerived _ D eq_refl) as M. fold (authoredAi (components input)) in M.
  assert (Z : forall q, 0 < q -> Qeq_bool q 0 = false) by (intros q L; apply not_true_is_false; rewrite Qeq_bool_iff; lra).
  rewrite (Z _ N), (Z _ M). reflexivity.
Qed.

(** Two projects that agree on what the validators graded. *)
Definition same_validated : ProjectRollupInput -> ProjectRollupInput -> Prop :=
  regraded (fun ai x y => ai = true \/ x == y).

Lemma same_validated_sym i i' : same_validated i i' -> same_validated i' i.
Proof.
  intros [F D]. split; [|destruct D as [D|D]; [now left | now right]].
  apply Forall2_flip. eapply Forall2_impl; [exact F |]. cbn. intros m m' (-> & -> & R).
  split_and!; try easy. destruct R as [R|R]; [now left | now right].
Qed.

Lemma same_validated_shape i i' : same_validated i i' ->
  Forall2 (by_keys (fun ai x y => 0 <= x /\ y <= 1 /\ (ai = true \/ x == y))) (components i) (components i').
Proof.
  intros G. apply components_regraded in G; [|now right | intros b x y [R|R]; [now left | right; unfold unit_clamp; now rewrite R]].
  apply Forall2_same_length_lookup in G as [L G]. apply Forall2_same_length_lookup. split; [exact L |].
  intros k c c' E E'. destruct (G k c c' E E') as [S R]. split; [exact S |].
  split_and!; [apply (components_sane i) | apply (components_sane i') | exact R]; eapply list_elem_of_lookup_2; eassumption.
Qed.

Lemma ai_cap_one_way i i' : some_deterministic i -> same_validated i i' ->
  rr_finalScore (rollup i') <= rr_finalScore (rollup i) + (2 # 5).
Proof.
  intros D G. apply same_validated_shape in G. unfold rollup. cbn [rr_finalScore].
  assert (S : Forall2 same_shape (components i) (components i')) by (eapply Forall2_impl; [exact G | now intros c c' []]).
  pose proof (regraded_sum (components i') (components i) (components i') (effWeight (components i))
    (effWeight_nonneg i) G ltac:(intros c c' Sc; now rewrite (shape_effWeight _ _ c c' S Sc))) as B.
  rewrite <- !weighted_sum in B.
  assert (T : sum_by (effWeight (components i)) (List.filter ac_aiDerived (components i)) <= 2 # 5).
  { rewrite <- (deterministic_budget i D). destruct (Qeq_dec (authoredAi (components i)) 0) as [Z|N].
    - exfalso. revert Z. apply Qnot_eq_sym, Qlt_not_eq. apply Qlt_le_trans with (MILESTONE_WEIGHTS CDefence); [easy |].
      apply (sum_ge ac_authoredWeight (mkAuthoredComponent CDefence (unit_clamp (default 0 (ri_defenceScore i))) (MILESTONE_WEIGHTS CDefence) true)).
      + intros y (Iy & _)%list_elem_of_In%filter_In. apply (components_sane i). now apply list_elem_of_In.
      + apply list_elem_of_In, filter_In. split; [apply in_or_app; right; now left | reflexivity].
    - rewrite (ai_weight_total _ N). apply Qle_refl. }
  rewrite <- round4_shift. apply round4_mono.
  set (x := sum_by wc_weighted (weighted i)) in *. set (y := sum_by wc_weighted (weighted i')) in *.
  unfold unit_clamp. qlra.
Qed.

(** As long as one milestone is graded by validators alone, AI grades decide
    at most 40 % of a project: however the rubric-graded milestones and the viva
    are regraded, the project score moves by at most 0.4 (exact arithmetic). *)
Theorem ai_cap input input' :
  some_deterministic input -> same_validated input input' ->
  Qabs (rr_finalScore (rollup input) - rr_finalScore (rollup input')) <= 2 # 5.
Proof.
  intros D G. assert (D' : some_deterministic input').
  { destruct D as (c & I & A). apply same_validated_shape in G.
    apply list_elem_of_lookup in I as [k E]. destruct (Forall2_lookup_l _ _ _ _ _ G E) as (c' & E' & (_ & _ & S) & _).
    exists c'. split; [eapply list_elem_of_lookup_2, E' | congruence]. }
  pose proof (ai_cap_one_way _ _ D G). pose proof (ai_cap_one_way _ _ D' (same_validated_sym _ _ G)).
  apply Qabs_case; lra.
Qed.
End AiCap.

(** ** Concrete projects, in doubles *)
Definition project_scores (deterministic ai : Q) (a b c : bool) : ProjectRollupInput :=
  mkProjectRollupInput
    [mkMilestoneScoreInput design (Some ai) (Some true); mkMilestoneScoreInput infra (Some deterministic) (Some a);
     mkMilestoneScoreInput implementation (Some deterministic) (Some b); mkMilestoneScoreInput hardening (Some ai) (Some true);
     mkMilestoneScoreInput final (Some deterministic) (Some c)] (Some ai) [].

(** A project with full marks everywhere scores exactly 1 in doubles, whichever
    of its milestones carry a rubric gate; the reweighting discounts nothing. *)
Theorem perfect_project a b c : rr_finalScore (@rollup binary64 (project_scores 1 1 a b c)) == 1.
Proof. destruct a, b, c; vm_compute; reflexivity. Qed.

(** When the validator milestones carry rubric gates too, no weight is left for
    validators: the AI grades decide the whole score and the cap is not applied. *)
Theorem ai_cap_lost :
  let none := @rollup binary64 (project_scores 0 0 true true true) in
  let all := @rollup binary64 (project_scores 1 1 true true true) in
  rr_finalScore none == 0 /\ rr_finalScore all == 1 /\ rr_aiCapApplied all = false /\ rr_aiFraction all == 1.
Proof. cbn zeta. split_and!; vm_compute; reflexivity. Qed.

Lemma rollup_monotone_witness :
  let lo := @rollup binary64 (project_scores 1 0 false false false) in
  let hi := @rollup binary64 (project_scores 1 1 false false false) in
  rr_finalScore lo == @lit binary64 (6 # 10) /\ rr_passed lo = false /\ rr_finalScore lo <= rr_finalScore hi.
Proof.
  cbn zeta. split_and!; [vm_compute; reflexivity.. |].
  apply rollup_monotone. split; [repeat constructor; cbn; discriminate | discriminate].
Defined.

Lemma ai_cap_witness :
  Qabs (rr_finalScore (@rollup exact (project_scores 1 0 false false false)) -
        rr_finalScore (@rollup exact (project_scores 1 1 false false false))) <= 2 # 5.
Proof.
  apply ai_cap.
  - exists (@milestone_component exact (ri_milestones (project_scores 1 0 false false false)) infra).
    split; [right; left | vm_compute; reflexivity].
  - split; [|now left]. repeat constructor; cbn; try (now left); right; reflexivity.
Defined.
