(* ===== verification/ProjectRepository.v ===== *)
(** * The project tables

    project/project.repository.ts, the two tables of migration 0010, and the
    part of project/git.service.ts that records submissions.  The Git host is
    another service: [GitHost]. *)
From stdpp Require Import sorting.
From S2P Require Import Prelude JsNum Binary64 Effects Schema AttemptStatus Mastery AttemptRepository.

(** project-error.ts. *)
Definition projectError {A} (code : string) : prog Store A := Throw (BadRequestException code).

(** A rubric level; [Math.min] of no level is [Infinity]. *)
Inductive GateLevel := Level (l : Z) | Infinite.
#[export] Instance gate_level_dec : EqDecision GateLevel.
Proof. solve_decision. Defined.

(** ** project_milestone_state *)
Record SeedMilestoneInput := mkSeedMilestoneInput {
  sm_key : MilestoneKey; sm_ordinal : nat; sm_status : MilestoneStatus }.
Definition seeded_row (m : SeedMilestoneInput) : MilestoneState :=
  mkMilestoneState (sm_status m) (sm_ordinal m) None None None None 0.

(** INSERT ... ON CONFLICT DO NOTHING. *)
Definition seed_row (attemptId : Id) (rows : gmap (Id * MilestoneKey) MilestoneState) (m : SeedMilestoneInput)
    : gmap (Id * MilestoneKey) MilestoneState :=
  match rows !! (attemptId, sm_key m) with
  | Some _ => rows
  | None => <[(attemptId, sm_key m) := seeded_row m]> rows
  end.
Definition seedMilestones (attemptId : Id) (ms : list SeedMilestoneInput) : prog Store unit :=
  execute (fun s => s <| milestones := fold_left (seed_row attemptId) ms (milestones s) |>).

Definition MilestoneRow : Type := MilestoneKey * MilestoneState.
Definition by_ordinal : relation MilestoneRow := fun a b => (ms_ordinal a.2 <= ms_ordinal b.2)%nat.
#[export] Instance by_ordinal_dec : RelDecision by_ordinal.
Proof. intros a b. apply Nat.le_dec. Defined.
#[export] Instance by_ordinal_total : Total by_ordinal.
Proof. intros a b. unfold by_ordinal. lia. Qed.
#[export] Instance by_ordinal_trans : Transitive by_ordinal.
Proof. intros a b c. unfold by_ordinal. lia. Qed.

Definition milestone_rows (attemptId : Id) (s : Store) : list MilestoneRow :=
  merge_sort by_ordinal
    (omap (fun kv => if Nat.eqb kv.1.1 attemptId then Some (kv.1.2, kv.2) else None) (map_to_list (milestones s))).
Definition list_milestone_rows (attemptId : Id) : prog Store (list MilestoneRow) := select (milestone_rows attemptId).
Definition getMilestone (attemptId : Id) (key : MilestoneKey) : prog Store (option MilestoneState) :=
  select (fun s => milestones s !! (attemptId, key)).

Definition markSubmitted (attemptId : Id) (key : MilestoneKey) : prog Store nat :=
  act (fun s => match milestones s !! (attemptId, key) with
    | None => inl NoResultError
    | Some r =>
        let r' := r <| ms_status := M_SUBMITTED |> <| ms_submitted_at := Some (now s) |> <| ms_attempt_count ::= S |> in
        inr (ms_attempt_count r', s <| milestones := <[(attemptId, key) := r']> (milestones s) |>)
    end).

Record GateOutcomeInput := mkGateOutcomeInput {
  go_attemptId : Id; go_milestoneKey : MilestoneKey; go_passed : bool; go_score : Q; go_rubricLevel : option GateLevel }.

(** The CHECK on rubric_level, an integer column. *)
Definition rubric_column (level : option GateLevel) : exn + option Z :=
  match level with
  | None => inr None
  | Some (Level l) => if (1 <=? l)%Z && (l <=? 5)%Z then inr (Some l) else inl (DbError "rubric_level")
  | Some Infinite => inl (DbError "invalid input syntax for type integer")
  end.

Definition open_at (attemptId : Id) (ordinal : nat) (k : Id * MilestoneKey) (r : MilestoneState) : MilestoneState :=
  if Nat.eqb k.1 attemptId && Nat.eqb (ms_ordinal r) ordinal && bool_decide (ms_status r = LOCKED)
  then r <| ms_status := OPEN |> else r.

Definition gated_row (passed : bool) (score : Q) (level : option Z) (clock : Z) (r : MilestoneState) : MilestoneState :=
  r <| ms_status := if passed then GATED_PASS else GATED_FAIL |> <| ms_score := Some score |>
    <| ms_rubric_level := level |> <| ms_gated_at := Some clock |>.

(** One transaction. *)
Definition applyGateOutcome (input : GateOutcomeInput) : prog Store unit :=
  let key := (go_attemptId input, go_milestoneKey input) in
  act (fun s =>
    match milestones s !! key with
    | None => inl NoResultError
    | Some r =>
        let? score := to_numeric 5 4 (go_score input) in
        let? level := rubric_column (go_rubricLevel input) in
        let rows := <[key := gated_row (go_passed input) score level (now s) r]> (milestones s) in
        let rows := if go_passed input
                    then map_imap (fun k r' => Some (open_at (go_attemptId input) (ms_ordinal r + 1) k r')) rows
                    else rows in
        inr (tt, s <| milestones := rows |>)
    end).

(** ** project_submission *)
Definition recordSubmission (attemptId : Id) (key : MilestoneKey) (repoRef commitSha : string) (attemptNumber : nat)
    : prog Store unit :=
  execute (fun s => s <| submissions ::= fun l =>
    l ++ [mkProjectSubmission attemptId key repoRef commitSha attemptNumber None None (now s)] |>).

Definition is_submission (attemptId : Id) (key : MilestoneKey) (attemptNumber : nat) (r : ProjectSubmission) : bool :=
  Nat.eqb (sub_attempt_id r) attemptId && bool_decide (sub_milestone_key r = key) && Nat.eqb (sub_attempt_number r) attemptNumber.
Definition stamp (passed : bool) (score : Q) (r : ProjectSubmission) : ProjectSubmission :=
  r <| sub_outcome := Some (if passed then GATED_PASS else GATED_FAIL) |> <| sub_score := Some score |>.
Definition stampSubmissionOutcome (attemptId : Id) (key : MilestoneKey) (attemptNumber : nat) (passed : bool) (score : Q)
    : prog Store unit :=
  act (fun s => let? score := to_numeric 5 4 score in
    inr (tt, s <| submissions ::= fmap (fun r =>
      if is_submission attemptId key attemptNumber r then stamp passed score r else r) |>)).

Definition latest_first : relation ProjectSubmission := fun a b => (sub_submitted_at b <= sub_submitted_at a)%Z.
#[export] Instance latest_first_dec : RelDecision latest_first.
Proof. intros a b. apply Z.le_dec. Defined.

Definition submission_rows (attemptId : Id) (s : Store) : list ProjectSubmission :=
  merge_sort latest_first (List.filter (fun r => Nat.eqb (sub_attempt_id r) attemptId) (submissions s)).
Definition listSubmissions (attemptId : Id) : prog Store (list ProjectSubmission) := select (submission_rows attemptId).

(** [s.repo_ref && s.repo_ref !== 'none'], declared in two services. *)
Definition has_repo (r : ProjectSubmission) : bool :=
  negb (String.eqb (sub_repo_ref r) EmptyString) && negb (String.eqb (sub_repo_ref r) "none").
Definition resolveRepoRef (attemptId : Id) : prog Store (option string) :=
  let* prior := listSubmissions attemptId in
  Ret (sub_repo_ref <$> List.find has_repo prior).

(** ** GitService *)
(** [None] for a file or a diff that cannot be read. *)
Class GitHost := {
  git_isEnabled : bool;
  git_listCommits : string -> nat -> exn + list (string * string);
  git_readFile : string -> string -> option string;
  git_diff : string -> string -> string -> option string
}.

Section Git.
Context `{GitHost}.

(** A commit the learner names, else HEAD, else nothing. *)
Definition resolve_commit (repoRef : string) (commitSha : option string) : string :=
  let commitSha := default EmptyString commitSha in
  if String.eqb commitSha EmptyString && git_isEnabled then
    match git_listCommits repoRef 1 with
    | inr ((sha, _) :: _) => sha
    | _ => commitSha
    end
  else commitSha.

Definition recordMilestoneSubmission (attemptId : Id) (key : MilestoneKey) (repoRef : string) (attemptNumber : nat)
    (commitSha : option string) : prog Store string :=
  let commitSha := resolve_commit repoRef commitSha in
  recordSubmission attemptId key repoRef commitSha attemptNumber ;;
  Ret commitSha.
End Git.

(** ** Lemmas *)
Lemma milestone_rows_spec id s k r : (k, r) ∈ milestone_rows id s <-> milestones s !! (id, k) = Some r.
Proof.
  unfold milestone_rows. rewrite merge_sort_Permutation, list_elem_of_omap. split.
  - intros ([[i k'] r'] & I & E). apply elem_of_map_to_list in I. cbn in E.
    destruct (Nat.eqb_spec i id) as [->|]; [|easy]. now injection E as <- <-.
  - intros L. exists ((id, k), r). split; [now apply elem_of_map_to_list |]. cbn. now rewrite Nat.eqb_refl.
Qed.

Lemma milestone_rows_nil id s : milestone_rows id s = [] <-> forall k, milestones s !! (id, k) = None.
Proof.
  split.
  - intros E k. destruct (milestones s !! (id, k)) as [r|] eqn:L; [|easy].
    apply milestone_rows_spec in L. rewrite E in L. now apply elem_of_nil in L.
  - intros N. destruct (milestone_rows id s) as [|[k r] l] eqn:E; [easy |].
    assert (I : (k, r) ∈ milestone_rows id s) by (rewrite E; now left).
    apply milestone_rows_spec in I. now rewrite N in I.
Qed.

(** Searching the rows for a key finds the row of that key. *)
Lemma find_row id s k :
  List.find (fun r : MilestoneRow => bool_decide (r.1 = k)) (milestone_rows id s) =
  (fun r => (k, r)) <$> milestones s !! (id, k).
Proof.
  destruct (List.find _ _) as [[k' r]|] eqn:F.
  - apply find_some in F as [I B]. apply bool_decide_eq_true in B. cbn in B. subst k'.
    apply list_elem_of_In, milestone_rows_spec in I. now rewrite I.
  - destruct (milestones s !! (id, k)) as [r|] eqn:L; [|easy]. exfalso.
    apply milestone_rows_spec, list_elem_of_In in L. pose proof (find_none _ _ F _ L) as B.
    apply bool_decide_eq_false in B. now apply B.
Qed.

Lemma lookup_opened (id : Id) (n : nat) (m : gmap (Id * MilestoneKey) MilestoneState) k :
  map_imap (fun k r => Some (open_at id n k r)) m !! k = open_at id n k <$> m !! k.
Proof. rewrite map_lookup_imap. now destruct (m !! k). Qed.
