(* ===== verification/GitHosting.v ===== *)
(** * The platform's Git host

    project/forgejo.client.ts, a client of the Forgejo REST API, and
    project/git.service.ts, which enrols a project, seeds its repository and
    reads it for the viva: an instance of the interface [GitHost] that the
    submissions and the viva are proved against.  The host is outside:
    [ForgejoHost] answers any request in any way; a timeout is a failed fetch. *)
From Stdlib Require Import Ascii.
From stdpp Require Import pretty.
From S2P Require Import Prelude RegExp JsNum Binary64 Effects Schema JsText JsonParse JsonLaws ProjectRepository WorkspaceFiles.
Open Scope Z_scope.

(** ** fetch *)
Record HttpRequest := mkHttpRequest {
  hq_method : string; hq_url : string; hq_authorization : option string; hq_body : option Json }.
Record HttpResponse := mkHttpResponse { hr_status : Z; hr_text : string }.
Definition hr_ok (r : HttpResponse) : bool := (200 <=? hr_status r) && (hr_status r <=? 299).
Abbreviation Traffic := (list HttpRequest) (only parsing).
(** The host answers after the requests sent so far, or the fetch fails. *)
Class ForgejoHost := { http_fetch : Traffic -> HttpRequest -> string + HttpResponse }.

(** Names are put into URLs by percent-encoding what is not unreserved. *)
Definition percent (c : ascii) : string :=
  String "%" (String (upper (hex_digit (code c / 16))) (String (upper (hex_digit (code c mod 16))) EmptyString)).
Definition unreserved (marks : string) (c : ascii) : bool :=
  between "a" "z" (lower c) || is_digit c || bool_decide (c ∈ explode marks).
Definition enc (s : string) : string :=
  String.concat EmptyString ((fun c => if unreserved "-_.!~*'()" c then String c EmptyString else percent c) <$> explode s).
(** [URLSearchParams]. *)
Definition form_enc (s : string) : string :=
  String.concat EmptyString ((fun c => if (c =? " ")%char then "+"%string
    else if unreserved "*-._" c then String c EmptyString else percent c) <$> explode s).
Definition query (params : list (string * string)) : string :=
  String.concat "&" ((fun kv => form_enc kv.1 ++ "=" ++ form_enc kv.2)%string <$> params).

Record ForgejoConfig := mkForgejoConfig { FORGEJO_BASE_URL : option string; FORGEJO_ADMIN_TOKEN : option string }.
Definition baseUrl (c : ForgejoConfig) : string := replace_first (rx "/+$") EmptyString (default EmptyString (FORGEJO_BASE_URL c)).
Definition adminToken (c : ForgejoConfig) : string := default EmptyString (FORGEJO_ADMIN_TOKEN c).
Definition isConfigured (c : ForgejoConfig) : bool :=
  Nat.ltb 0 (String.length (baseUrl c)) && Nat.ltb 0 (String.length (adminToken c)).

(** Reading a property; of a field that is documented to be a text, the text. *)
Definition get (key : string) (j : option Json) : exn + option Json :=
  match j with
  | None | Some JNull => inl (JsError ("Cannot read properties of undefined (reading '" ++ key ++ "')"))
  | Some j => inr (jfield key j)
  end.
Definition text_at (key : string) (j : Json) : string := default EmptyString (jstring key j).

Record ForgejoCommit := mkForgejoCommit {
  fc_sha : string; fc_message : string; fc_authorName : string; fc_authoredAt : string; fc_htmlUrl : string }.
Record ForgejoRepo := mkForgejoRepo {
  fr_fullName : string; fr_cloneUrl : string; fr_htmlUrl : string; fr_defaultBranch : string; fr_empty : bool }.
Definition commit_of (r : Json) : exn + ForgejoCommit :=
  match get "commit" (Some r) with
  | inl e => inl e
  | inr commit =>
      match get "message" commit with
      | inl e => inl e
      | inr _ =>
          let commit := default JNull commit in
          let author := default JNull (jfield "author" commit) in
          inr (mkForgejoCommit (text_at "sha" r) (text_at "message" commit) (text_at "name" author) (text_at "date" author) (text_at "html_url" r))
      end
  end.
Definition already_exists (e : exn) : bool :=
  match e with HttpError status _ => (status =? 422) || (status =? 409) | _ => false end.

Section Client.
Context `{Rounding} `{ForgejoHost}.
Variables (config : ForgejoConfig) (randomBytes : Traffic -> nat -> chars) (clock : Z).
Abbreviation io := (prog Traffic) (only parsing).

Definition send (rq : HttpRequest) : io HttpResponse :=
  let* r := act (fun log => inr (http_fetch log rq, log ++ [rq])) in
  match r with inl message => Throw (JsError message) | inr res => Ret res end.
(** ForgejoApiError. *)
Definition api_error (method path : string) (res : HttpResponse) : exn :=
  HttpError (hr_status res) ("Forgejo " ++ method ++ " " ++ path ++ " → " ++ pretty (hr_status res) ++ ": " ++ slice_to 300 (hr_text res))%string.
Definition parse_body (text : string) : exn + option Json :=
  match text with
  | EmptyString => inr None
  | _ => match json_parse text with Some j => inr (Some j) | None => inl (JsError "SyntaxError") end
  end.
(** What a call makes of the response, with [decode] the reading of its value. *)
Definition answer {A} (decode : option Json -> exn + A) (method path : string) (res : HttpResponse) : exn + A :=
  if hr_ok res then match parse_body (hr_text res) with inl e => inl e | inr j => decode j end
  else inl (api_error method path res).
Definition admin_request (method path : string) (body : option Json) : HttpRequest :=
  mkHttpRequest method (baseUrl config ++ "/api/v1" ++ path)%string (Some ("token " ++ adminToken config)%string) body.
Definition api {A} (decode : option Json -> exn + A) (method path : string) (body : option Json) : io A :=
  let* res := send (admin_request method path body) in raise (answer decode method path res).
Definition ignored (j : option Json) : exn + unit := inr tt.

Definition healthz : io bool :=
  try_catch (let* res := send (mkHttpRequest "GET" (baseUrl config ++ "/api/healthz") None None) in Ret (hr_ok res))
    (fun _ => Ret false).
(** An answer that it already exists is success. *)
Definition idempotent (p : io unit) : io unit :=
  try_catch p (fun e => if already_exists e then Ret tt else Throw e).
Definition org_body (orgName : string) : Json := JObj [("username"%string, JStr orgName); ("visibility"%string, JStr "private")].
Definition ensureOrg (orgName : string) : io unit := idempotent (api ignored "POST" "/orgs" (Some (org_body orgName))).
Definition repo_path (orgName repoName : string) : string := "/repos/" ++ enc orgName ++ "/" ++ enc repoName.
Definition read_repo (r : option Json) : exn + ForgejoRepo :=
  match get "full_name" r with
  | inl e => inl e
  | inr _ =>
      let r := default JNull r in
      inr (mkForgejoRepo (text_at "full_name" r) (text_at "clone_url" r) (text_at "html_url" r) (text_at "default_branch" r)
             (match jfield "empty" r with Some (JBool b) => b | _ => false end))
  end.
Definition getRepo (orgName repoName : string) : io ForgejoRepo := api read_repo "GET" (repo_path orgName repoName) None.
Definition repos_path (orgName : string) : string := "/orgs/" ++ enc orgName ++ "/repos".
Definition repo_body (repoName defaultBranch description : string) (autoInit : bool) : Json :=
  JObj [("name"%string, JStr repoName); ("private"%string, JBool true); ("auto_init"%string, JBool autoInit);
    ("default_branch"%string, JStr defaultBranch); ("description"%string, JStr description)].
Definition ensureRepo (orgName repoName defaultBranch description : string) (autoInit : bool) : io ForgejoRepo :=
  idempotent (api ignored "POST" (repos_path orgName) (Some (repo_body repoName defaultBranch description autoInit))) ;;
  getRepo orgName repoName.
Definition contents_path (orgName repoName filePath : string) : string :=
  repo_path orgName repoName ++ "/contents/" ++ String.concat "/" (enc <$> split_on "/" filePath).
Definition file_body (contentUtf8 message branch : string) (sha : option string) : Json :=
  JObj ([("content"%string, JStr (implode (base64_encode (explode contentUtf8)))); ("message"%string, JStr message); ("branch"%string, JStr branch)] ++
        match truthy sha with Some sha => [("sha"%string, JStr sha)] | None => [] end).
Definition read_commit_sha (res : option Json) : exn + string :=
  match get "commit" res with
  | inl e => inl e
  | inr commit => match get "sha" commit with inl e => inl e | inr _ => inr (text_at "sha" (default JNull commit)) end
  end.
Definition putFile (orgName repoName filePath contentUtf8 branch message : string) (sha : option string) : io string :=
  api read_commit_sha (match truthy sha with Some _ => "PUT" | None => "POST" end) (contents_path orgName repoName filePath)
    (Some (file_body contentUtf8 message branch sha)).
Definition ref_query (ref : option string) : string :=
  match truthy ref with Some ref => "?ref=" ++ enc ref | None => EmptyString end.
Definition read_content (res : option Json) : exn + string :=
  match get "encoding" res with
  | inl e => inl e
  | inr _ =>
      let res := default JNull res in
      inr (if String.eqb (text_at "encoding" res) "base64" then implode (base64_decode (explode (text_at "content" res)))
           else text_at "content" res)
  end.
Definition getFileContent (orgName repoName filePath : string) (ref : option string) : io string :=
  api read_content "GET" (contents_path orgName repoName filePath ++ ref_query ref) None.
Definition commit_query (sha : option string) (limit : option nat) (path : option string) : string :=
  query (match truthy sha with Some sha => [("sha"%string, sha)] | None => [] end ++
         [("limit"%string, pretty (default 30%nat limit))] ++
         match truthy path with Some path => [("path"%string, path)] | None => [] end).
Definition read_commits (rows : option Json) : exn + list ForgejoCommit :=
  match rows with
  | Some (JArr rows) => map_or_throw commit_of rows
  | _ => inl (JsError "rows.map is not a function")
  end.
Definition commits_path (orgName repoName : string) (sha : option string) (limit : option nat) : string :=
  repo_path orgName repoName ++ "/commits?" ++ commit_query sha limit None.
Definition forgejo_listCommits (orgName repoName : string) (sha : option string) (limit : option nat) : io (list ForgejoCommit) :=
  api read_commits "GET" (commits_path orgName repoName sha limit) None.
Definition diff_request (orgName repoName sha : string) : HttpRequest :=
  admin_request "GET" (repo_path orgName repoName ++ "/git/commits/" ++ enc sha ++ ".diff")%string None.
Definition getCommitDiff (orgName repoName sha : string) : io string :=
  let rq := diff_request orgName repoName sha in
  let* res := send rq in
  raise (if hr_ok res then inr (hr_text res) else inl (api_error "GET" (hq_url rq) res)).
(** The commits before [base], oldest first. *)
Fixpoint until_base (base : string) (commits : list ForgejoCommit) : list string :=
  match commits with
  | [] => []
  | c :: commits => if String.eqb (fc_sha c) base then [] else fc_sha c :: until_base base commits
  end.
Definition getDiff (orgName repoName base head : string) : io string :=
  let* commits := forgejo_listCommits orgName repoName (Some head) (Some 250%nat) in
  let* parts := for_map (rev (until_base base commits)) (getCommitDiff orgName repoName) in
  Ret (join_lines parts).

(** [randomBytes(len).toString('base64url').slice(0, len)]. *)
Definition base64url (l : chars) : chars :=
  (fun c => if (c =? "+")%char then "-"%char else if (c =? "/")%char then "_"%char else c) <$>
    List.filter (fun c => negb (c =? "=")%char) (base64_encode l).
Definition cryptoRandom (len : nat) : io string :=
  select (fun log => implode (take len (base64url (randomBytes log len)))).
Record LearnerAccount := mkLearnerAccount { la_username : string; la_password : string; la_created : bool }.
Definition user_body (username email password : string) : Json :=
  JObj [("username"%string, JStr username); ("email"%string, JStr email); ("password"%string, JStr password);
    ("must_change_password"%string, JBool false); ("source_id"%string, JNum 0); ("login_name"%string, JStr username)].
Definition password_body (username password : string) : Json :=
  JObj [("login_name"%string, JStr username); ("source_id"%string, JNum 0); ("password"%string, JStr password);
    ("must_change_password"%string, JBool false)].
Definition user_path (username : string) : string := "/admin/users/" ++ enc username.
Definition ensureUser (username email : string) : io LearnerAccount :=
  let* password := cryptoRandom 24 in
  try_catch
    (api ignored "POST" "/admin/users" (Some (user_body username email password)) ;; Ret (mkLearnerAccount username password true))
    (fun e => if already_exists e then
                api ignored "PATCH" (user_path username) (Some (password_body username password)) ;;
                Ret (mkLearnerAccount username password false)
              else Throw e).
Definition collaborator_path (orgName repoName username : string) : string :=
  repo_path orgName repoName ++ "/collaborators/" ++ enc username.
Definition write_permission : Json := JObj [("permission"%string, JStr "write")].
Definition addRepoCollaborator (orgName repoName username : string) : io unit :=
  api ignored "PUT" (collaborator_path orgName repoName username) (Some write_permission).
(** With the learner's own credentials, which a token needs. *)
Definition token_request (username password tokenName : string) : HttpRequest :=
  mkHttpRequest "POST" (baseUrl config ++ "/api/v1/users/" ++ enc username ++ "/tokens")
    (Some ("Basic " ++ implode (base64_encode (explode (username ++ ":" ++ password))))%string)
    (Some (JObj [("name"%string, JStr tokenName); ("scopes"%string, JArr [JStr "write:repository"])])).
Definition read_token (text : string) : exn + string :=
  match json_parse text with
  | Some j => match get "sha1" (Some j) with inl e => inl e | inr _ => inr (text_at "sha1" j) end
  | None => inl (JsError "SyntaxError")
  end.
Definition createUserScopedToken (username password tokenName : string) : io string :=
  let rq := token_request username password tokenName in
  let* res := send rq in
  raise (if hr_ok res then read_token (hr_text res) else inl (api_error "POST" (hq_url rq) res)).
Definition deleteRepo (orgName repoName : string) : io unit := api ignored "DELETE" (repo_path orgName repoName) None.
Definition deleteOrg (orgName : string) : io unit := api ignored "DELETE" ("/orgs/" ++ enc orgName) None.

(** ** git.service.ts *)
Definition toRepoRef (org repo : string) : string := "forgejo:" ++ org ++ "/" ++ repo.
(** [/^forgejo:([^/]+)\/(.+)$/]: the groups end at the first slash and at the end
    of the text, and the second one has no line break. *)
Fixpoint at_slash (s : chars) : option (chars * chars) :=
  match s with
  | [] => None
  | c :: s => if (c =? "/")%char then Some ([], s) else '(a, b) ← at_slash s; Some (c :: a, b)
  end.
Definition ref_groups (repoRef : string) : option (string * string) :=
  s ← strip (explode "forgejo:") (explode repoRef);
  '(org, repo) ← at_slash s;
  match org, repo with
  | [], _ | _, [] => None
  | _, _ => if existsb is_newline repo then None else Some (implode org, implode repo)
  end.
Definition parseRepoRef (repoRef : string) : exn + (string * string) :=
  match ref_groups repoRef with
  | Some r => inr r
  | None => inl (JsError ("unrecognised repo_ref: " ++ repoRef))
  end.
Definition slug (s : string) : string :=
  replace_all (rx "^-+|-+$") (fun _ => EmptyString) (replace_all (rx "[^a-z0-9._-]+") (fun _ => "-"%string) (to_lower s)).
Definition orgNameFor (username : string) : string := slice_to 40 ("learner-" ++ slug username).
Definition repoNameFor (projectSlug : string) : string := slice_to 100 ("proj-" ++ slug projectSlug).

Definition with_repo {A} (repoRef : string) (f : string -> string -> io A) : io A :=
  match parseRepoRef repoRef with inl e => Throw e | inr (org, repo) => f org repo end.
Definition gs_listCommits (repoRef : string) (limit : option nat) (sha : option string) : io (list ForgejoCommit) :=
  if isConfigured config then with_repo repoRef (fun org repo => forgejo_listCommits org repo sha limit) else Ret [].
Definition gs_readFile (repoRef filePath : string) (ref : option string) : io (option string) :=
  if isConfigured config then
    with_repo repoRef (fun org repo => try_catch (let* t := getFileContent org repo filePath ref in Ret (Some t)) (fun _ => Ret None))
  else Ret None.
Definition gs_diff (repoRef base head : string) : io (option string) :=
  if isConfigured config then
    with_repo repoRef (fun org repo => try_catch (let* t := getDiff org repo base head in Ret (Some t)) (fun _ => Ret None))
  else Ret None.
Definition deleteLearnerRepo (repoRef : string) : io unit :=
  if isConfigured config then with_repo repoRef deleteRepo else Ret tt.

(** The interface of the viva and the submissions: the service as it answers
    after the requests [log].  Where readFile throws, on a reference that does not
    parse, so does the listing that follows it in every use. *)
Definition git_service (log : Traffic) : GitHost := {|
  git_isEnabled := isConfigured config;
  git_listCommits := fun repoRef limit =>
    match fst (run (gs_listCommits repoRef (Some limit) None) log) with
    | inl e => inl e
    | inr commits => inr ((fun c => (fc_sha c, fc_message c)) <$> commits)
    end;
  git_readFile := fun repoRef path => match fst (run (gs_readFile repoRef path None) log) with inr t => t | inl _ => None end;
  git_diff := fun repoRef base head => match fst (run (gs_diff repoRef base head) log) with inr t => t | inl _ => None end |}.

Record Learner := mkLearner { ln_username : string; ln_email : string }.
Record RequirementsFile := mkRequirementsFile { rf_path : string; rf_content : string }.
Record Enrolment := mkEnrolment { en_attemptId : string; en_learner : Learner; en_slug : string; en_requirements : list RequirementsFile }.
Record EnrolResult := mkEnrolResult {
  er_enabled : bool; er_repoRef : option string; er_cloneUrl : option string; er_htmlUrl : option string; er_pushToken : option string }.
Definition not_enrolled : EnrolResult := mkEnrolResult false None None None None.
Definition file_exists (org repo : string) (f : RequirementsFile) : io bool :=
  try_catch (getFileContent org repo (rf_path f) (Some "main"%string) ;; Ret true) (fun _ => Ret false).
Definition seed_file (org repo : string) (f : RequirementsFile) : io unit :=
  let* exists_ := file_exists org repo f in
  if exists_ then Ret tt
  else putFile org repo (rf_path f) (rf_content f) "main" ("seed: " ++ rf_path f) None ;; Ret tt.
Definition enrolProject (input : Enrolment) : io EnrolResult :=
  if negb (isConfigured config) then Ret not_enrolled
  else
    let username := ln_username (en_learner input) in
    let org := orgNameFor username in
    let repo := repoNameFor (en_slug input) in
    let* learnerAccount := ensureUser username (ln_email (en_learner input)) in
    ensureOrg org ;;
    ensureRepo org repo "main" ("Project attempt " ++ en_attemptId input ++ " — " ++ en_slug input) true ;;
    for_each (en_requirements input) (seed_file org repo) ;;
    addRepoCollaborator org repo username ;;
    let* pushToken := createUserScopedToken username (la_password learnerAccount)
                        ("push-" ++ en_attemptId input ++ "-" ++ pretty clock)%string in
    let* repoMeta := getRepo org repo in
    Ret (mkEnrolResult true (Some (toRepoRef org repo)) (Some (fr_cloneUrl repoMeta)) (Some (fr_htmlUrl repoMeta)) (Some pushToken)).
End Client.

(** ** Replacing every run of characters of a class *)
Section Runs.
Variable cl : cclass.
Let run_of : regexp := mkRegExp false (Seq (Rep true 1 None (Class cl)) Empty).
Let bad (c : ascii) : bool := class_mem false cl c.
Abbreviation clean := (Forall (fun c => bad c = false)) (only parsing).

Lemma run_found before c s : bad c = true -> is_Some (mtch false (rx_re run_of) Some (before, c :: s)).
Proof.
  intros B. apply (mtch_complete _ _ _ (before, c :: s) (Some c, s)); [|eauto].
  eapply M_seq; [|apply M_empty]. eapply M_more; [discriminate | now apply M_class | apply M_stop].
Qed.
Lemma run_grows p q : matches false (rx_re run_of) p q -> (List.length (q.2) < List.length (p.2))%nat.
Proof.
  intros M. inversion M as [| | r1 r2 a b c M1 M2 | | | | | | | | |]; subst. inversion M2; subst.
  inversion M1 as [| | | | | | g lo hi r a b c N C R | | | | |]; subst. apply matches_shrink in R.
  inversion C; subst. cbn in *. destruct R as [<-|R]; cbn in *; lia.
Qed.
Lemma find_run s : forall before,
  match find_match run_of before s with
  | Some (skipped, m, _) => clean skipped /\ m <> []
  | None => clean s
  end.
Proof.
  induction s as [|c s IH]; intros before; cbn [find_match].
  - destruct (mtch _ _ _ _) as [q|] eqn:E; [|constructor]. apply mtch_sound in E as (q' & M & _).
    apply run_grows in M. cbn in M. lia.
  - destruct (mtch _ _ _ _) as [q|] eqn:E.
    + split; [constructor|]. apply mtch_sound in E as (q' & M & [= ->]). pose proof (run_grows _ _ M) as G.
      apply matches_advances, advances_suffix in M as [m M]. cbn [snd] in M. rewrite M, take_suffix.
      intros ->. cbn in M. rewrite <- M in G. cbn in G. lia.
    + assert (N : bad c = false) by (destruct (bad c) eqn:B; [destruct (run_found before c s B) as [x X]; pose proof (eq_trans (eq_sym X) E); discriminate | reflexivity]).
      specialize (IH (Some c)). destruct (find_match run_of (Some c) s) as [[[sk m] q]|]; cbn; [|now constructor].
      destruct IH. split; [now constructor | easy].
Qed.
Lemma all_runs fuel : forall before s, (List.length s < fuel)%nat ->
  Forall (fun gm => clean gm.1) (find_all fuel run_of before s).1 /\ clean (find_all fuel run_of before s).2.
Proof.
  induction fuel as [|fuel IH]; intros before s L; [lia|]. cbn [find_all].
  pose proof (find_run s before) as F. destruct (find_match run_of before s) as [[[sk m] [b rest]]|] eqn:E; [|split; [constructor | exact F]].
  destruct F as [F N]. apply find_match_some in E as (E & _). destruct m as [|c m]; [easy|].
  specialize (IH b rest). cbn [snd] in E. rewrite E, !length_app in L. cbn in L. specialize (IH ltac:(lia)).
  destruct (find_all fuel run_of b rest) as [ms final]. cbn in *. destruct IH. split; [now constructor | easy].
Qed.
Lemma replaced_runs t s : (forall c, In c (explode t) -> bad c = false) ->
  clean (explode (replace_all run_of (fun _ => t) s)).
Proof.
  intros T. unfold replace_all, matches_in. pose proof (all_runs (S (List.length (explode s))) None (explode s) ltac:(lia)) as [A B].
  destruct (find_all _ _ _ _) as [ms final]. cbn [fst snd] in *. rewrite explode_implode.
  apply Forall_app. split; [|exact B]. induction A as [|gm ms A _ IH]; cbn; [constructor|].
  rewrite !Forall_app. split_and!; auto. apply List.Forall_forall. auto.
Qed.
End Runs.

(** Removing matches leaves characters of the text. *)
Lemma removed_chars x s c : In c (explode (replace_all x (fun _ => EmptyString) s)) -> In c (explode s).
Proof.
  unfold replace_all. pose proof (find_all_glue x (S (List.length (explode s))) None (explode s)) as G.
  unfold matches_in. destruct (find_all _ _ _ _) as [ms final]. cbn in *. rewrite explode_implode, <- G. unfold glue.
  rewrite !in_app_iff. intros [I|I]; [left | now right]. clear G. induction ms as [|gm ms IH]; cbn in *; [easy|].
  rewrite !in_app_iff in *. cbn [In] in I. tauto.
Qed.

(** ** Names and references *)
Definition name_char (c : ascii) : bool := class_mem false (mkClass false [Range "a" "z"; Range "0" "9"; Range "." "."; Range "_" "_"; Range "-" "-"]) c.
Lemma slug_chars s c : In c (explode (slug s)) -> name_char c = true.
Proof.
  unfold slug. intros I%removed_chars.
  change (rx "[^a-z0-9._-]+") with (mkRegExp false (Seq (Rep true 1 None (Class (mkClass true [Range "a" "z"; Range "0" "9"; Range "." "."; Range "_" "_"; Range "-" "-"]))) Empty)) in I.
  pose proof (replaced_runs (mkClass true [Range "a" "z"; Range "0" "9"; Range "." "."; Range "_" "_"; Range "-" "-"]) "-" (to_lower s)) as R.
  rewrite List.Forall_forall in R. specialize (R ltac:(intros x [<-|[]]; reflexivity) c I).
  unfold name_char, class_mem in *. cbn [cc_negated cc_items] in *. now rewrite negb_false_iff in R.
Qed.

Lemma name_chars_sliced n prefix s : (forall c, In c (explode prefix) -> name_char c = true) ->
  forall c, In c (explode (slice_to n (prefix ++ slug s))) -> name_char c = true.
Proof.
  intros P c. unfold slice_to. rewrite explode_implode, explode_app. intros I.
  assert (J : In c (explode prefix ++ explode (slug s))) by (rewrite <- (take_drop n _); apply in_or_app; now left).
  apply in_app_or in J as [J|J]; [auto | now apply slug_chars in J].
Qed.
Lemma at_slash_app a b : ~ In "/"%char a -> at_slash (a ++ "/"%char :: b) = Some (a, b).
Proof.
  induction a as [|c a IH]; intros N; [reflexivity|]. cbn [app at_slash].
  destruct (Ascii.eqb_spec c "/") as [->|D]; [destruct N; now left|]. rewrite IH; [reflexivity|]. intros I. apply N. now right.
Qed.
Lemma name_char_plain c : name_char c = true -> c <> "/"%char /\ is_newline c = false.
Proof. destruct c as [[] [] [] [] [] [] [] []]; vm_compute; intros E; (discriminate E || (split; [discriminate|reflexivity])). Qed.

Lemma parse_ref org repo : org <> EmptyString -> repo <> EmptyString -> ~ In "/"%char (explode org) ->
  (forall c, In c (explode repo) -> is_newline c = false) -> parseRepoRef (toRepoRef org repo) = inr (org, repo).
Proof.
  intros No Nr So Lr. unfold parseRepoRef, ref_groups, toRepoRef.
  change (strip (explode "forgejo:") (explode ("forgejo:" ++ org ++ "/" ++ repo))) with (Some (explode (org ++ "/" ++ repo))).
  cbn [mbind option_bind]. rewrite explode_app. change (explode ("/" ++ repo)) with ("/"%char :: explode repo).
  rewrite at_slash_app by exact So. cbn [mbind option_bind].
  destruct (explode org) as [|a l] eqn:Eo; [destruct org; easy|]. destruct (explode repo) as [|b r] eqn:Er; [destruct repo; easy|].
  assert (E : existsb is_newline (b :: r) = false).
  { apply not_true_iff_false. rewrite existsb_exists. intros (c & I & N). now rewrite (Lr c I) in N. }
  rewrite E, <- Eo, <- Er, !implode_explode. reflexivity.
Qed.

(** The reference that an enrolment answers is read back as the organisation
    and the repository it names, whatever the user name and the project are; both
    names are within the limits of the host, in its alphabet. *)
Theorem enrolled_ref_parses username project :
  let org := orgNameFor username in
  let repo := repoNameFor project in
  parseRepoRef (toRepoRef org repo) = inr (org, repo) /\
  (8 <= String.length org <= 40)%nat /\ (5 <= String.length repo <= 100)%nat /\
  (forall c, In c (explode (org ++ repo)) -> name_char c = true).
Proof.
  cbv zeta.
  assert (Ho : forall c, In c (explode (orgNameFor username)) -> name_char c = true).
  { apply name_chars_sliced. intros c I. cbn in I. repeat (destruct I as [<-|I]; [reflexivity|]). easy. }
  assert (Hr : forall c, In c (explode (repoNameFor project)) -> name_char c = true).
  { apply name_chars_sliced. intros c I. cbn in I. repeat (destruct I as [<-|I]; [reflexivity|]). easy. }
  split_and!.
  - apply parse_ref; [discriminate | discriminate | intros I%Ho%name_char_plain; easy | intros c I%Hr%name_char_plain; easy].
  - unfold orgNameFor, slice_to. rewrite <- explode_length, explode_implode, explode_app. cbn. lia.
  - unfold orgNameFor, slice_to. rewrite <- explode_length, explode_implode, length_take. lia.
  - unfold repoNameFor, slice_to. rewrite <- explode_length, explode_implode, explode_app. cbn. lia.
  - unfold repoNameFor, slice_to. rewrite <- explode_length, explode_implode, length_take. lia.
  - intros c. rewrite explode_app, in_app_iff. intros [I|I]; auto.
Qed.

(** Names are shared: characters outside the alphabet and letter case do not
    distinguish two learners, so both are enrolled in one repository. *)
Lemma repositories_shared project :
  orgNameFor "日本" = orgNameFor "Ελλάς" /\
  toRepoRef (orgNameFor "Ann Lee") (repoNameFor project) = toRepoRef (orgNameFor "ann-lee") (repoNameFor project).
Proof.
  split; [vm_compute; reflexivity|]. assert (E : orgNameFor "Ann Lee" = orgNameFor "ann-lee") by (vm_compute; reflexivity).
  now rewrite E.
Qed.

(** ** What is sent *)
Section Traffic.
Context `{Rounding} `{ForgejoHost}.
Variables (config : ForgejoConfig) (randomBytes : Traffic -> nat -> chars) (clock : Z).
Abbreviation io := (prog Traffic) (only parsing).

Definition outcome {A} (decode : option Json -> exn + A) (method path : string) (r : string + HttpResponse) : exn + A :=
  match r with inl message => inl (JsError message) | inr res => answer decode method path res end.
Lemma run_send rq log : run (send rq) log =
  (match http_fetch log rq with inl m => inl (JsError m) | inr res => inr res end, log ++ [rq]).
Proof. cbn. now destruct (http_fetch log rq). Qed.
Lemma run_api {A} (decode : option Json -> exn + A) method path body log :
  run (api config decode method path body) log =
  (outcome decode method path (http_fetch log (admin_request config method path body)), log ++ [admin_request config method path body]).
Proof.
  unfold api. rewrite run_bind, run_send. destruct (http_fetch _ _) as [m|res]; [reflexivity|]. apply run_raise.
Qed.

Lemma sends_api (P : HttpRequest -> Prop) {A} (decode : option Json -> exn + A) method path body :
  P (admin_request config method path body) -> sends P (api config decode method path body).
Proof. intros Q log. rewrite run_api. eexists. split; [reflexivity|]. now constructor. Qed.
Lemma sends_send (P : HttpRequest -> Prop) rq : P rq -> sends P (send rq).
Proof. intros Q log. rewrite run_send. eexists. split; [reflexivity|]. now constructor. Qed.
#[local] Hint Resolve sends_api sends_send : sends.

(** ** An enrolment *)
Definition read_request (org repo : string) (f : RequirementsFile) : HttpRequest :=
  admin_request config "GET" (contents_path org repo (rf_path f) ++ ref_query (Some "main"%string)) None.
Definition create_request (org repo : string) (f : RequirementsFile) : HttpRequest :=
  admin_request config "POST" (contents_path org repo (rf_path f)) (Some (file_body (rf_content f) ("seed: " ++ rf_path f) "main" None)).
(** The host serves the file after the requests [log]. *)
Definition readable (org repo : string) (f : RequirementsFile) (log : Traffic) : bool :=
  match outcome read_content "GET" (contents_path org repo (rf_path f) ++ ref_query (Some "main"%string)) (http_fetch log (read_request org repo f)) with
  | inr _ => true
  | inl _ => false
  end.
Lemma run_seed_file org repo f log : exists o,
  run (seed_file config org repo f) log =
  if readable org repo f log then (inr tt, log ++ [read_request org repo f])
  else (o, log ++ [read_request org repo f; create_request org repo f]).
Proof.
  unfold seed_file, file_exists, readable, getFileContent. rewrite run_bind, run_try, run_bind, run_api.
  fold (read_request org repo f). destruct (outcome _ _ _ _) as [e|t]; cbn beta iota; rewrite run_ret;
    [|exists (inr tt); apply run_ret].
  unfold putFile. rewrite run_bind, run_api. cbn [truthy]. fold (create_request org repo f). rewrite <- app_assoc. cbn [app].
  destruct (outcome _ _ _ _); eexists; reflexivity.
Qed.

(** The requests for a part of the files: each is read, and created when, and
    only when, it could not be read at that moment. *)
Inductive seeded (org repo : string) : Traffic -> list RequirementsFile -> Traffic -> Prop :=
  | seeded_stop log fs : seeded org repo log fs []
  | seeded_kept log f fs t : readable org repo f log = true ->
      seeded org repo (log ++ [read_request org repo f]) fs t -> seeded org repo log (f :: fs) (read_request org repo f :: t)
  | seeded_new log f fs t : readable org repo f log = false ->
      seeded org repo (log ++ [read_request org repo f; create_request org repo f]) fs t ->
      seeded org repo log (f :: fs) (read_request org repo f :: create_request org repo f :: t).
Lemma run_seeds org repo fs : forall log, exists t,
  snd (run (for_each fs (seed_file config org repo)) log) = log ++ t /\ seeded org repo log fs t.
Proof.
  induction fs as [|f fs IH]; intros log; cbn [for_each]; [exists []; rewrite app_nil_r; split; [reflexivity | constructor]|].
  rewrite run_bind. destruct (run_seed_file org repo f log) as [o E]. rewrite E. destruct (readable org repo f log) eqn:R.
  - destruct (IH (log ++ [read_request org repo f])) as (t & -> & S). eexists. rewrite <- app_assoc. split; [reflexivity|]. now apply seeded_kept.
  - destruct o as [e|[]].
    + eexists. split; [reflexivity|]. apply seeded_new; [easy | constructor].
    + destruct (IH (log ++ [read_request org repo f; create_request org repo f])) as (t & -> & S).
      eexists. rewrite <- app_assoc. split; [reflexivity|]. now apply seeded_new.
Qed.

Section Enrolment.
Variables (input : Enrolment) (password : string).
Definition username : string := ln_username (en_learner input).
Definition org : string := orgNameFor username.
Definition repo : string := repoNameFor (en_slug input).
Definition user_request : HttpRequest :=
  admin_request config "POST" "/admin/users" (Some (user_body username (ln_email (en_learner input)) password)).
Definition password_request : HttpRequest :=
  admin_request config "PATCH" (user_path username) (Some (password_body username password)).
Definition org_request : HttpRequest := admin_request config "POST" "/orgs" (Some (org_body org)).
Definition repo_request : HttpRequest := admin_request config "POST" (repos_path org)
  (Some (repo_body repo "main" ("Project attempt " ++ en_attemptId input ++ " — " ++ en_slug input) true)).
Definition meta_request : HttpRequest := admin_request config "GET" (repo_path org repo) None.
Definition collaborator_request : HttpRequest :=
  admin_request config "PUT" (collaborator_path org repo username) (Some write_permission).
Definition push_request : HttpRequest :=
  token_request config username password ("push-" ++ en_attemptId input ++ "-" ++ pretty clock).

(** The requests before and after the files. *)
Definition account_request (rq : HttpRequest) : Prop :=
  In rq [user_request; password_request; org_request; repo_request; meta_request].
Definition closing_request (rq : HttpRequest) : Prop := In rq [collaborator_request; push_request; meta_request].
End Enrolment.
Definition new_password (log : Traffic) : string := implode (take 24 (base64url (randomBytes log 24))).

Lemma run_ensureUser input log : exists o sent,
  run (ensureUser config randomBytes (username input) (ln_email (en_learner input))) log = (o, log ++ sent) /\
  Forall (account_request input (new_password log)) sent /\ (forall a, o = inr a -> la_password a = new_password log).
Proof.
  unfold ensureUser, cryptoRandom. rewrite run_bind, run_select. fold (new_password log). rewrite run_try, run_bind, run_api.
  destruct (outcome _ _ _ _) as [e|[]]; [|eexists _, _; rewrite run_ret; split; [reflexivity|]; split; [repeat constructor; cbn; tauto | now intros a [= <-]]].
  destruct (already_exists e); [|eexists _, _; split; [reflexivity|]; split; [repeat constructor; cbn; tauto | discriminate]].
  rewrite run_bind, run_api, <- app_assoc. destruct (outcome _ _ _ _) as [e2|[]]; eexists _, _; (split; [reflexivity|]; split; [repeat constructor; cbn; tauto|]); [discriminate | now intros a [= <-]].
Qed.
Lemma sends_idempotent P p : sends P p -> sends P (idempotent p).
Proof. intros S. apply sends_try; [exact S|]. intros e. destruct (already_exists e); auto with sends. Qed.
Lemma sends_org input pw : sends (account_request input pw) (ensureOrg config (org input)).
Proof. apply sends_idempotent, sends_api. cbn. tauto. Qed.
Lemma sends_repo input pw : sends (account_request input pw)
  (ensureRepo config (org input) (repo input) "main"
     ("Project attempt " ++ en_attemptId input ++ " — " ++ en_slug input) true).
Proof.
  apply sends_bind; [apply sends_idempotent, sends_api; cbn; tauto | intros _; apply sends_api; cbn; tauto].
Qed.
Definition close (input : Enrolment) (pw : string) : io EnrolResult :=
  addRepoCollaborator config (org input) (repo input) (username input) ;;
  let* pushToken := createUserScopedToken config (username input) pw ("push-" ++ en_attemptId input ++ "-" ++ pretty clock)%string in
  let* repoMeta := getRepo config (org input) (repo input) in
  Ret (mkEnrolResult true (Some (toRepoRef (org input) (repo input))) (Some (fr_cloneUrl repoMeta)) (Some (fr_htmlUrl repoMeta)) (Some pushToken)).
Lemma sends_close input pw : sends (closing_request input pw) (close input pw).
Proof.
  unfold close. apply sends_bind; [apply sends_api; cbn; tauto | intros _]. apply sends_bind.
  - apply sends_bind; [apply sends_send; cbn; tauto | auto with sends].
  - intros t. apply sends_bind; [apply sends_api; cbn; tauto | auto with sends].
Qed.

(** Whatever the host answers, an enrolment first touches the account, the
    organisation and the repository, then the files, then grants access: a file is
    created when, and only when, reading it has just failed, and it is created
    without a sha, which replaces nothing; nothing is deleted; the push token is
    asked for with the password of the learner that was set before, never with the
    administrator's token.  Without a configured host nothing is sent. *)
Theorem enrol_traffic input log :
  if isConfigured config then
    exists account seeds closing,
      snd (run (enrolProject config randomBytes clock input) log) = log ++ account ++ seeds ++ closing /\
      Forall (account_request input (new_password log)) account /\
      seeded (org input) (repo input) (log ++ account) (en_requirements input) seeds /\
      Forall (closing_request input (new_password log)) closing
  else run (enrolProject config randomBytes clock input) log = (inr not_enrolled, log).
Proof.
  unfold enrolProject. destruct (isConfigured config); cbn [negb]; [|reflexivity].
  fold (username input). fold (org input) (repo input). set (pw := new_password log).
  assert (Stop : forall account e, Forall (account_request input pw) account -> exists a seeds closing,
    snd (@inl exn EnrolResult e, log ++ account) = log ++ a ++ seeds ++ closing /\ Forall (account_request input pw) a /\
    seeded (org input) (repo input) (log ++ a) (en_requirements input) seeds /\ Forall (closing_request input pw) closing).
  { intros account e F. exists account, [], []. rewrite !app_nil_r. split_and!; [reflexivity | exact F | constructor | constructor]. }
  rewrite run_bind. destruct (run_ensureUser input log) as (o & s1 & E & F1 & P). rewrite E. fold pw in F1, P.
  destruct o as [e|a]; [now apply Stop|]. specialize (P a eq_refl). rewrite P.
  rewrite run_bind. destruct (sends_org input pw (log ++ s1)) as (s2 & E2 & F2).
  destruct (run (ensureOrg config (org input)) (log ++ s1)) as [o l2]. cbn [snd] in E2. subst l2. rewrite <- app_assoc.
  assert (F12 : Forall (account_request input pw) (s1 ++ s2)) by (apply Forall_app; auto).
  destruct o as [e|[]]; [now apply Stop|].
  rewrite run_bind. destruct (sends_repo input pw (log ++ s1 ++ s2)) as (s3 & E3 & F3).
  destruct (run (ensureRepo _ _ _ _ _ _) _) as [o l3]. cbn [snd] in E3. subst l3. rewrite <- app_assoc.
  assert (F13 : Forall (account_request input pw) ((s1 ++ s2) ++ s3)) by (apply Forall_app; auto).
  destruct o as [e|r]; [now apply Stop|].
  rewrite run_bind. destruct (run_seeds (org input) (repo input) (en_requirements input) (log ++ (s1 ++ s2) ++ s3)) as (s4 & E4 & S).
  destruct (run (for_each _ _) _) as [o l4]. cbn [snd] in E4. subst l4. destruct o as [e|[]].
  { exists ((s1 ++ s2) ++ s3), s4, []. split; [cbn [snd]; now rewrite app_nil_r, <- !app_assoc | split_and!; [exact F13 | exact S | constructor]]. }
  fold (close input pw). destruct (sends_close input pw ((log ++ (s1 ++ s2) ++ s3) ++ s4)) as (s5 & E5 & F5).
  exists ((s1 ++ s2) ++ s3), s4, s5. split; [etransitivity; [exact E5|]; now rewrite <- !app_assoc | split_and!; [exact F13 | exact S | exact F5]].
Qed.

(** ** A second enrolment *)
(** A host that has the learner, the organisation, the repository and its files. *)
Record already_enrolled (input : Enrolment) (clone html token : string) : Prop := {
  has_user : forall log pw, exists e, already_exists e = true /\
    outcome ignored "POST" "/admin/users" (http_fetch log (user_request input pw)) = inl e;
  sets_password : forall log pw, outcome ignored "PATCH" (user_path (username input)) (http_fetch log (password_request input pw)) = inr tt;
  has_org : forall log, exists e, already_exists e = true /\
    outcome ignored "POST" "/orgs" (http_fetch log (org_request input)) = inl e;
  has_repository : forall log, exists e, already_exists e = true /\
    outcome ignored "POST" (repos_path (org input)) (http_fetch log (repo_request input)) = inl e;
  shows_repository : forall log, exists r, fr_cloneUrl r = clone /\ fr_htmlUrl r = html /\
    outcome read_repo "GET" (repo_path (org input) (repo input)) (http_fetch log (meta_request input)) = inr r;
  serves_files : forall log f, In f (en_requirements input) -> readable (org input) (repo input) f log = true;
  adds_collaborator : forall log,
    outcome ignored "PUT" (collaborator_path (org input) (repo input) (username input)) (http_fetch log (collaborator_request input)) = inr tt;
  mints_token : forall log pw, exists res, hr_ok res = true /\ read_token (hr_text res) = inr token /\
    http_fetch log (push_request input pw) = inr res }.

Lemma run_idempotent (decode : option Json -> exn + unit) method path body log e :
  already_exists e = true -> outcome decode method path (http_fetch log (admin_request config method path body)) = inl e ->
  run (idempotent (api config decode method path body)) log = (inr tt, log ++ [admin_request config method path body]).
Proof. intros A O. unfold idempotent. now rewrite run_try, run_api, O, A. Qed.
Lemma run_kept_files org repo fs : forall log, (forall log f, In f fs -> readable org repo f log = true) ->
  run (for_each fs (seed_file config org repo)) log = (inr tt, log ++ (read_request org repo <$> fs)).
Proof.
  induction fs as [|f fs IH]; intros log R; cbn [for_each]; [cbn; now rewrite app_nil_r|].
  rewrite run_bind. destruct (run_seed_file org repo f log) as [o E]. rewrite R in E by now left. rewrite E, IH by (intros; apply R; now right).
  cbn. now rewrite <- app_assoc.
Qed.

(** An enrolment is idempotent: on a host that already has the learner, the
    organisation, the repository and its files it answers the same repository with
    a fresh token, and apart from the refused creations it only reads, sets the
    password, grants access and mints the token: no file is written. *)
Theorem reenrolment input clone html token log : isConfigured config = true -> already_enrolled input clone html token ->
  run (enrolProject config randomBytes clock input) log =
    (inr (mkEnrolResult true (Some (toRepoRef (org input) (repo input))) (Some clone) (Some html) (Some token)),
     log ++ [user_request input (new_password log); password_request input (new_password log); org_request input; repo_request input; meta_request input] ++
       (read_request (org input) (repo input) <$> en_requirements input) ++
       [collaborator_request input; push_request input (new_password log); meta_request input]).
Proof.
  intros C [U P O R M F G T]. unfold enrolProject. rewrite C. cbn [negb].
  fold (username input). fold (org input) (repo input). set (pw := new_password log).
  rewrite run_bind. unfold ensureUser, cryptoRandom. rewrite run_bind, run_select. fold (new_password log). fold pw. rewrite run_try, run_bind, run_api.
  fold (user_request input pw). destruct (U log pw) as (e & A & ->). rewrite A, run_bind, run_api. fold (password_request input pw).
  rewrite P, run_ret. cbn [la_password].
  rewrite run_bind. unfold ensureOrg. destruct (O ((log ++ [user_request input pw]) ++ [password_request input pw])) as (e2 & A2 & E2).
  rewrite (run_idempotent _ _ _ _ _ e2 A2 E2). fold (org_request input).
  rewrite run_bind. unfold ensureRepo. rewrite run_bind.
  edestruct R as (e3 & A3 & E3). rewrite (run_idempotent _ _ _ _ _ e3 A3 E3). fold (repo_request input). unfold getRepo. rewrite run_api. fold (meta_request input).
  edestruct M as (r & _ & _ & ->). rewrite run_bind, run_kept_files by auto.
  fold (close input pw). unfold close, addRepoCollaborator. rewrite run_bind, run_api. fold (collaborator_request input). rewrite G.
  rewrite run_bind. unfold createUserScopedToken. rewrite run_bind, run_send. fold (push_request input pw).
  edestruct T as (res & K & D & ->). rewrite K, run_raise, D. rewrite run_bind. unfold getRepo. rewrite run_api. fold (meta_request input).
  edestruct M as (r2 & <- & <- & ->). rewrite run_ret. f_equal. rewrite <- !app_assoc. reflexivity.
Qed.

(** ** The range of a diff *)
Lemma until_base_spec base newer c older : fc_sha c = base -> Forall (fun c => fc_sha c <> base) newer ->
  until_base base (newer ++ c :: older) = fc_sha <$> newer.
Proof.
  intros E F. induction F as [|n newer N F IH]; cbn; [now rewrite E, String.eqb_refl|].
  rewrite (proj2 (String.eqb_neq _ _) N). cbn. now rewrite IH.
Qed.
Definition serves_diff (d : string -> string) (org repo sha : string) : Prop :=
  forall log, exists res, http_fetch log (diff_request config org repo sha) = inr res /\ hr_ok res = true /\ hr_text res = d sha.
Lemma run_diffs d org repo shas : forall log, Forall (serves_diff d org repo) shas ->
  run (for_map shas (getCommitDiff config org repo)) log = (inr (d <$> shas), log ++ (diff_request config org repo <$> shas)).
Proof.
  induction shas as [|sha shas IH]; intros log F; cbn [for_map]; [cbn; now rewrite app_nil_r|].
  inversion F as [|? ? D F']; subst. destruct (D log) as (res & E & K & T). unfold getCommitDiff at 1.
  rewrite run_bind, run_bind, run_send, E, K, run_raise, T, run_bind, IH, run_ret by exact F'. cbn. now rewrite <- app_assoc.
Qed.

(** The diff between two commits is the diffs of exactly the commits after
    [base] up to [head], oldest first, joined by line breaks, when the listing
    reaches [base]; their order is the reverse of the listing. *)
Theorem diff_range d org repo base head newer c older log :
  outcome read_commits "GET" (commits_path org repo (Some head) (Some 250%nat))
    (http_fetch log (admin_request config "GET" (commits_path org repo (Some head) (Some 250%nat)) None)) = inr (newer ++ c :: older) ->
  fc_sha c = base -> Forall (fun c => fc_sha c <> base) newer -> Forall (serves_diff d org repo) (fc_sha <$> newer) ->
  fst (run (getDiff config org repo base head) log) = inr (join_lines (d <$> rev (fc_sha <$> newer))).
Proof.
  intros L E N S. unfold getDiff, forgejo_listCommits. rewrite run_bind, run_api, L, run_bind, (until_base_spec _ _ _ _ E N).
  rewrite (run_diffs d) by (apply Forall_rev; exact S). now rewrite run_ret.
Qed.

(** Without a configured host the service is the disabled one. *)
Lemma git_service_disabled log repoRef n path base head : isConfigured config = false ->
  @git_isEnabled (git_service config log) = false /\ @git_listCommits (git_service config log) repoRef n = inr [] /\
  @git_readFile (git_service config log) repoRef path = None /\ @git_diff (git_service config log) repoRef base head = None.
Proof. intros C. cbn. unfold gs_listCommits, gs_readFile, gs_diff. now rewrite C. Qed.
(** The commit of a submission is the newest one the host lists. *)
Lemma head_resolved log org repo commits : isConfigured config = true ->
  parseRepoRef (toRepoRef org repo) = inr (org, repo) ->
  outcome read_commits "GET" (commits_path org repo None (Some 1%nat))
    (http_fetch log (admin_request config "GET" (commits_path org repo None (Some 1%nat)) None)) = inr commits ->
  @resolve_commit (git_service config log) (toRepoRef org repo) None = match commits with c :: _ => fc_sha c | [] => EmptyString end.
Proof.
  intros C P L. unfold resolve_commit. cbn [git_isEnabled git_listCommits git_service]. rewrite C. cbn [default andb String.eqb].
  unfold gs_listCommits, with_repo. rewrite C, P. unfold forgejo_listCommits. rewrite run_api, L. now destruct commits as [|c l].
Qed.
End Traffic.

(** A host with one enrolled learner, by method and path. *)
Module Enrolled.
#[local] Existing Instance binary64.
Definition config : ForgejoConfig := mkForgejoConfig (Some "http://git/"%string) (Some "adm1n"%string).
Definition input : Enrolment := mkEnrolment "a-1" (mkLearner "Ann" "ann@x.org") "k8s-shop" [mkRequirementsFile "docs/spec.md" "Build it."].
Definition ok (text : string) : string + HttpResponse := inr (mkHttpResponse 200 text).
Definition json (j : Json) : string + HttpResponse := ok (stringify j).
Definition refused (status : Z) : string + HttpResponse := inr (mkHttpResponse status "exists").
#[local] Instance host : ForgejoHost := {| http_fetch := fun _ rq =>
  if includes "/tokens" (hq_url rq) then json (JObj [("sha1"%string, JStr "t0ken")])
  else if includes "/contents/" (hq_url rq) then json (JObj [("encoding"%string, JStr "base64"); ("content"%string, JStr "QnVpbGQ=")])
  else if String.eqb (hq_method rq) "POST" then refused (if includes "/repos" (hq_url rq) then 409 else 422)
  else if String.eqb (hq_method rq) "GET" then json (JObj [("full_name"%string, JStr "o/r"); ("clone_url"%string, JStr "http://git/o/r.git"); ("html_url"%string, JStr "http://git/o/r")])
  else ok EmptyString |}.

Lemma reenrolment_witness :
  fst (run (enrolProject config (fun _ n => repeat "x"%char n) 77 input) []) =
  inr (mkEnrolResult true (Some "forgejo:learner-ann/proj-k8s-shop"%string) (Some "http://git/o/r.git"%string) (Some "http://git/o/r"%string) (Some "t0ken"%string)).
Proof.
  rewrite (reenrolment config (fun _ n => repeat "x"%char n) 77 input "http://git/o/r.git" "http://git/o/r" "t0ken" []); [vm_compute; reflexivity | vm_compute; reflexivity |].
  split.
  - intros log pw. eexists. split; [|reflexivity]. reflexivity.
  - intros log pw. reflexivity.
  - intros log. eexists. split; [|reflexivity]. reflexivity.
  - intros log. eexists. split; [|reflexivity]. reflexivity.
  - intros log. eexists. split_and!; [| |vm_compute; reflexivity]; reflexivity.
  - intros log f [<-|[]]. vm_compute. reflexivity.
  - intros log. reflexivity.
  - intros log pw. eexists. split_and!; [| |reflexivity]; reflexivity.
Defined.
Definition commit (sha : string) : Json := JObj [("sha"%string, JStr sha); ("commit"%string, JObj [("message"%string, JStr "m")])].
Definition three_commits : ForgejoHost := {| http_fetch := fun _ rq =>
  if includes ".diff" (hq_url rq) then ok (hq_url rq) else json (JArr [commit "c3"; commit "c2"; commit "c1"]) |}.
Lemma diff_range_witness :
  fst (run (@getDiff _ three_commits config "o" "r" "c1" "c3") []) =
  inr (join_lines ["http://git/api/v1/repos/o/r/git/commits/c2.diff"; "http://git/api/v1/repos/o/r/git/commits/c3.diff"]%string).
Proof.
  exact (@diff_range binary64 three_commits config (fun sha => "http://git/api/v1/repos/o/r/git/commits/" ++ sha ++ ".diff")%string "o" "r" "c1" "c3"
    [mkForgejoCommit "c3" "m" "" "" ""; mkForgejoCommit "c2" "m" "" "" ""] (mkForgejoCommit "c1" "m" "" "" "") [] []
    ltac:(vm_compute; reflexivity) eq_refl ltac:(repeat constructor; discriminate)
    ltac:(repeat constructor; intros log; eexists; split_and!; vm_compute; reflexivity)).
Defined.
End Enrolled.
