(* ===== verification/Defence.v ===== *)
(** * The defence viva

    project/defence.service.ts: an examiner asks the questions a model derived
    from the learner's repository, one per answer, then the transcript is
    graded.  The question generator is another service: [VivaModel]. *)
From stdpp Require Import sorting pretty.
From Stdlib Require Import Ascii.
From S2P Require Import Prelude JsNum Binary64 Effects Schema AttemptStatus EventStore AttemptRepository Criteria ValidatorRunner Artifact ProjectScoring ProjectRepository.

Definition VIVA_RUBRIC_ID : string := "rub.reasoning.v1".
Definition DEFAULT_QUESTION_COUNT : nat := 7.

(** VivaModel.generateQuestions: design document, commits, diff, count. *)
Class VivaModel := {
  generateQuestions : string -> list (string * string) -> option string -> nat -> exn + list VivaQuestion
}.

Inductive VivaRole := R_LEARNER | R_EXAMINER.
#[export] Instance viva_role_dec : EqDecision VivaRole.
Proof. solve_decision. Defined.
Definition role_text (r : VivaRole) : string := match r with R_LEARNER => "LEARNER" | R_EXAMINER => "EXAMINER" end.

Record VivaScore := mkVivaScore {
  vsc_rubricId : string; vsc_overallLevel : GateLevel; vsc_criterionLevels : list (string * Z);
  vsc_provisional : bool; vsc_humanReviewRequired : bool }.
Record StartResult := mkStartResult { st_turn : nat; st_message : string; st_totalQuestions : nat }.
Record PostResult := mkPostResult {
  po_turn : nat; po_nextQuestion : option string; po_closed : bool; po_score : option VivaScore }.
Record TranscriptTurn := mkTranscriptTurn { tt_turn : Q; tt_role : string; tt_text : string }.

(** [text.trim()] is empty (on ASCII white space). *)
Definition is_space (c : ascii) : bool :=
  let n := nat_of_ascii c in Nat.eqb n 32 || (Nat.leb 9 n && Nat.leb n 13).
Fixpoint blank (s : string) : bool :=
  match s with EmptyString => true | String c s => is_space c && blank s end.
(** [s.split('\n')[0]]. *)
Fixpoint first_line (s : string) : string :=
  match s with
  | EmptyString => EmptyString
  | String c s => if Nat.eqb (nat_of_ascii c) 10 then EmptyString else String c (first_line s)
  end.

(** [Math.min(...grades.map((g) => g.level))]. *)
Definition lowest_level (grades : list CriterionGrade) : GateLevel :=
  match cg_level <$> grades with [] => Infinite | l :: ls => Level (fold_left Z.min ls l) end.
(** [JSON.stringify] writes [Infinity] as null. *)
Definition level_json (l : GateLevel) : Json := match l with Level l => JNum (inject_Z l) | Infinite => JNull end.

(** [levels[g.criterion] = g.level], in order. *)
Fixpoint set_level (c : string) (l : Z) (levels : list (string * Z)) : list (string * Z) :=
  match levels with
  | [] => [(c, l)]
  | kv :: levels => if String.eqb kv.1 c then (c, l) :: levels else kv :: set_level c l levels
  end.
Definition criterion_levels (grades : list CriterionGrade) : list (string * Z) :=
  fold_left (fun acc g => set_level (cg_criterion g) (cg_level g) acc) grades [].
Definition overall_level (grades : list CriterionGrade) : GateLevel :=
  match List.find (fun kv => String.eqb kv.1 "overall") (criterion_levels grades) with
  | Some kv => Level kv.2
  | None => lowest_level grades
  end.

(** The DEFENCE_MESSAGE events of an attempt, in order. *)
Definition defence_messages (attemptId : Id) (s : Store) : list AttemptEventRow :=
  List.filter (fun e => bool_decide (ev_type e = DEFENCE_MESSAGE)) (replay_rows attemptId s).

Definition is_score (e : AttemptEventRow) : bool :=
  match jstring "kind" (ev_payload e) with Some k => String.eqb k "score" | None => false end.
Definition transcript_of (attemptId : Id) (s : Store) : list TranscriptTurn :=
  omap (fun e => match jstring "text" (ev_payload e) with
                 | Some text => if is_score e then None else
                     Some (mkTranscriptTurn (default 0 (jnumber "turn" (ev_payload e)))
                             (default "UNKNOWN"%string (jstring "role" (ev_payload e))) text)
                 | None => None
                 end) (defence_messages attemptId s).

Definition rendered (t : TranscriptTurn) : string :=
  "[turn " +:+ pretty (Qfloor (tt_turn t)) +:+ "] " +:+ tt_role t +:+ ": " +:+ tt_text t.
Definition join (sep : string) (l : list string) : string :=
  match l with [] => EmptyString | x :: l => fold_left (fun acc y => acc +:+ sep +:+ y) l x end.
Definition newline : string := String (ascii_of_nat 10) EmptyString.

Section DefenceService.
Context `{Rounding} `{AiGrading} `{GitHost} `{VivaModel}.

Definition transcript (attemptId : Id) : prog Store (list TranscriptTurn) := select (transcript_of attemptId).

Definition assertFinalReached (attemptId : Id) : prog Store unit :=
  let* finalMs := getMilestone attemptId final in
  match finalMs with
  | None => projectError "DEFENCE_NOT_AVAILABLE"
  | Some m => if bool_decide (ms_status m = LOCKED) then projectError "DEFENCE_NOT_AVAILABLE" else Ret tt
  end.

Definition emitTurn (attemptId : Id) (role : VivaRole) (turn : nat) (text : string) (extra : list (string * Json))
    : prog Store unit :=
  appendTypedEvent attemptId (match role with R_LEARNER => LEARNER | R_EXAMINER => AI end) DEFENCE_MESSAGE
    (JObj ([("role"%string, JStr (role_text role)); ("turn"%string, jnat turn); ("text"%string, JStr text)] ++ extra)).

Definition nextTurn (attemptId : Id) : prog Store nat :=
  select (fun s => (length (defence_messages attemptId s) + 1)%nat).

Definition kind_text (k : VivaKind) : string := match k with Divergence => "divergence" | Reasoning => "reasoning" end.
Definition question_extra (q : VivaQuestion) (index : nat) : list (string * Json) :=
  [("grounded_in"%string, JStr (vq_groundedIn q)); ("kind"%string, JStr (kind_text (vq_kind q))); ("question_index"%string, jnat index)].

(** The learner's design document, commits and diff. *)
Definition grounding (repoRef : option string) : exn + (string * list (string * string) * option string) :=
  match truthy_key repoRef with
  | Some repo =>
      if git_isEnabled then
        let designDoc := match git_readFile repo "DESIGN.md" with
                         | Some d => d
                         | None => default EmptyString (git_readFile repo "docs/design.md")
                         end in
        match git_listCommits repo 50 with
        | inl e => inl e
        | inr commits =>
            inr (designDoc, commits,
                 match commits, last commits with
                 | newest :: _ :: _, Some oldest => git_diff repo oldest.1 newest.1
                 | _, _ => None
                 end)
        end
      else inr (EmptyString, [], None)
  | None => inr (EmptyString, [], None)
  end.

Definition fallback_question : VivaQuestion := mkVivaQuestion
  "Walk me through the single most significant way your implementation diverged from your milestone-1 design, and why."
  "design" Divergence.

Definition questions_for (designDoc : string) (commits : list (string * string)) (diff : option string) : list VivaQuestion :=
  match generateQuestions designDoc commits diff DEFAULT_QUESTION_COUNT with
  | inr questions => questions
  | inl _ => [fallback_question]
  end.

Definition viva_commits (repoRef : option string) : exn + list (string * string) :=
  match truthy_key repoRef with
  | Some repo => if git_isEnabled then git_listCommits repo 50 else inr []
  | None => inr []
  end.

Definition lift {A} (r : exn + A) : prog Store A := match r with inl e => Throw e | inr a => Ret a end.

Definition startViva (attemptId : Id) : prog Store StartResult :=
  assertFinalReached attemptId ;;
  let* repoRef := resolveRepoRef attemptId in
  let* ' (designDoc, commits, diff) := lift (grounding repoRef) in
  let questions := questions_for designDoc commits diff in
  execute (fun s => s <| vivas := <[attemptId := length (queues s)]> (vivas s) |>
                      <| queues ::= fun l => l ++ [mkVivaState questions 0 false] |>) ;;
  let* turn := nextTurn attemptId in
  match questions with
  | [] => Throw (JsError "Cannot read properties of undefined (reading 'text')")
  | first :: _ =>
      emitTurn attemptId R_EXAMINER turn (vq_text first) (question_extra first 1) ;;
      execute (fun s => s <| queues := alter (fun st => st <| vv_asked := 1%nat |>) (default 0%nat (vivas s !! attemptId)) (queues s) |>) ;;
      Ret (mkStartResult turn (vq_text first) (length questions))
  end.

(** What a learner's message does to the queue [st], between two awaits. *)
Inductive VivaMove := NoViva | Ask (st : nat) (q : VivaQuestion) | Close.
Definition queue_of (attemptId : Id) (s : Store) : option (nat * VivaState) :=
  st ← vivas s !! attemptId; v ← queues s !! st; Some (st, v).
Definition move_of (queue : option (nat * VivaState)) : VivaMove :=
  match queue with
  | None => NoViva
  | Some (st, v) =>
      if vv_closed v then NoViva
      else match vv_questions v !! vv_asked v with
           | Some q => Ask st q
           | None => Close
           end
  end.
Definition advance (attemptId : Id) : prog Store VivaMove :=
  act (fun s =>
    let move := move_of (queue_of attemptId s) in
    inr (move, match move, queue_of attemptId s with
               | Ask st _, _ => s <| queues := alter (fun v => v <| vv_asked ::= S |>) st (queues s) |>
               | Close, Some (st, _) => s <| queues := alter (fun v => v <| vv_closed := true |>) st (queues s) |>
               | _, _ => s
               end)).
Definition asked_so_far (st : nat) : prog Store nat :=
  select (fun s => from_option vv_asked 0%nat (queues s !! st)).

Definition viva_facts (turns : list TranscriptTurn) (commits : list (string * string)) : GradingFacts :=
  mkGradingFacts (join newline (rendered <$> turns)) [] []
    ((fun c => String.substring 0 8 c.1 +:+ " " +:+ first_line c.2) <$> commits).

Definition score_payload (turn : nat) (result : GradingResult) (review : bool) : Json :=
  JObj [("role"%string, JStr "SYSTEM"); ("turn"%string, jnat turn); ("kind"%string, JStr "score");
        ("rubric_id"%string, JStr VIVA_RUBRIC_ID);
        ("overall_level"%string, level_json (overall_level (gr_criterionGrades result)));
        ("criterion_levels"%string, JObj ((fun kv => (kv.1, JNum (inject_Z kv.2))) <$> criterion_levels (gr_criterionGrades result)));
        ("provisional"%string, JBool (gr_provisional result)); ("human_review_required"%string, JBool review)].

Definition review_required (rubric : Rubric) (result : GradingResult) : bool :=
  gr_provisional result || String.eqb (rb_humanReviewPolicy rubric) "ALWAYS_PROVISIONAL_UNTIL_CALIBRATED".

Definition scoreViva (attemptId : Id) : prog Store VivaScore :=
  match getRubric VIVA_RUBRIC_ID with
  | None => Throw (JsError "viva rubric rub.reasoning.v1 not found")
  | Some rubric =>
      let* turns := transcript attemptId in
      let* repoRef := resolveRepoRef attemptId in
      let* commits := lift (viva_commits repoRef) in
      let* result := lift (grader_grade rubric (viva_facts turns commits)) in
      let humanReviewRequired := review_required rubric result in
      let* next := nextTurn attemptId in
      appendTypedEvent attemptId AI DEFENCE_MESSAGE (score_payload (next - 1) result humanReviewRequired) ;;
      Ret (mkVivaScore VIVA_RUBRIC_ID (overall_level (gr_criterionGrades result))
             (criterion_levels (gr_criterionGrades result)) (gr_provisional result) humanReviewRequired)
  end.

Definition postMessage (attemptId : Id) (role : VivaRole) (text : string) : prog Store PostResult :=
  if blank text then projectError "EMPTY_DEFENCE_MESSAGE"
  else
    assertFinalReached attemptId ;;
    let* turn := nextTurn attemptId in
    emitTurn attemptId role turn text [] ;;
    if negb (bool_decide (role = R_LEARNER)) then Ret (mkPostResult turn None false None)
    else
      let* move := advance attemptId in
      match move with
      | NoViva => Ret (mkPostResult turn None false None)
      | Ask st q =>
          let* qTurn := nextTurn attemptId in
          let* index := asked_so_far st in
          emitTurn attemptId R_EXAMINER qTurn (vq_text q) (question_extra q index) ;;
          Ret (mkPostResult turn (Some (vq_text q)) false None)
      | Close =>
          let* score := scoreViva attemptId in
          Ret (mkPostResult turn None true (Some score))
      end.

(** The latest score marker with a number for its level; 1..4 to [0, 1]. *)
Definition defence_score_of (messages : list AttemptEventRow) : option Q :=
  (fun l => unit_clamp ((l -! 1) /! 3)) <$>
    head (omap (fun e => if is_score e then jnumber "overall_level" (ev_payload e) else None) (rev messages)).
Definition defenceComponentScore (attemptId : Id) : prog Store (option Q) :=
  select (fun s => defence_score_of (defence_messages attemptId s)).
End DefenceService.

(** ** The conversation *)

(** The [final] milestone has been reached. *)
Definition final_reached (id : Id) (s : Store) : bool :=
  match milestones s !! (id, final) with Some m => negb (bool_decide (ms_status m = LOCKED)) | None => false end.

Section Conversation.
Context `{Rounding} `{AiGrading} `{GitHost} `{VivaModel}.
Variable id : Id.

Lemma run_assertFinalReached s :
  run (assertFinalReached id) s =
  if final_reached id s then (inr tt, s) else (inl (BadRequestException "DEFENCE_NOT_AVAILABLE"), s).
Proof.
  unfold assertFinalReached, getMilestone, final_reached. rewrite run_bind, run_select.
  destruct (milestones s !! (id, final)) as [m|]; [|reflexivity]. now destruct (bool_decide _).
Qed.

(** A message event appended to the log. *)
Definition said (actor : EventActor) (payload : Json) (s : Store) : Store :=
  s <| events ::= fun l => l ++ [appended id actor DEFENCE_MESSAGE payload s] |>.

Lemma said_log_ok actor payload s : log_ok s -> log_ok (said actor payload s).
Proof. intros L. pose proof (append_log_ok id actor DEFENCE_MESSAGE payload s L) as G. now rewrite run_appendTypedEvent in G. Qed.

Lemma said_messages actor payload s : log_ok s ->
  defence_messages id (said actor payload s) =
  defence_messages id s ++ [appended id actor DEFENCE_MESSAGE payload s].
Proof.
  intros L. unfold defence_messages. rewrite !replay_log by (try apply said_log_ok; exact L).
  change (events (said actor payload s)) with (events s ++ [appended id actor DEFENCE_MESSAGE payload s]).
  rewrite of_attempt_app. cbn [of_attempt List.filter ev_attempt_id appended]. rewrite Nat.eqb_refl.
  rewrite List.filter_app. reflexivity.
Qed.

Definition turn_payload (role : VivaRole) (turn : nat) (text : string) (extra : list (string * Json)) : Json :=
  JObj ([("role"%string, JStr (role_text role)); ("turn"%string, jnat turn); ("text"%string, JStr text)] ++ extra).
Definition actor_of (role : VivaRole) : EventActor := match role with R_LEARNER => LEARNER | R_EXAMINER => AI end.

Lemma run_emitTurn role turn text extra s :
  run (emitTurn id role turn text extra) s = (inr tt, said (actor_of role) (turn_payload role turn text extra) s).
Proof. apply run_appendTypedEvent. Qed.

Definition ordinary (extra : list (string * Json)) : Prop :=
  jstring "kind" (JObj extra) <> Some "score"%string.

Lemma said_transcript role turn text extra s : log_ok s -> ordinary extra ->
  transcript_of id (said (actor_of role) (turn_payload role turn text extra) s) =
  transcript_of id s ++ [mkTranscriptTurn (inject_Z (Z.of_nat turn)) (role_text role) text].
Proof.
  intros L O. unfold transcript_of. rewrite said_messages by exact L. rewrite omap_app. f_equal.
  cbn -[is_score inject_Z]. assert (N : is_score (appended id (actor_of role) DEFENCE_MESSAGE (turn_payload role turn text extra) s) = false); [|now rewrite N].
  unfold is_score. change (jstring "kind" _) with (jstring "kind" (JObj extra)).
  destruct (jstring "kind" (JObj extra)) as [k|] eqn:E; [|reflexivity].
  apply String.eqb_neq. intros ->. now apply O.
Qed.

(** Question, answer, question, answer, ... *)
Fixpoint dialogue (qs : list VivaQuestion) (answers : list string) : list (VivaRole * string) :=
  match qs, answers with
  | q :: qs, a :: answers => (R_EXAMINER, vq_text q) :: (R_LEARNER, a) :: dialogue qs answers
  | q :: _, [] => [(R_EXAMINER, vq_text q)]
  | [], _ => []
  end.
Definition numbered (l : list (VivaRole * string)) : list TranscriptTurn :=
  imap (fun i rt => mkTranscriptTurn (inject_Z (Z.of_nat (i + 1))) (role_text rt.1) rt.2) l.

Lemma numbered_snoc l rt :
  numbered (l ++ [rt]) = numbered l ++ [mkTranscriptTurn (inject_Z (Z.of_nat (length l + 1))) (role_text rt.1) rt.2].
Proof. unfold numbered. rewrite imap_app. cbn. now rewrite Nat.add_0_r. Qed.

(** The viva of [id] has run [turns], with [k] of the questions asked. *)
Record viva_at (qs : list VivaQuestion) (k : nat) (turns : list (VivaRole * string)) (s0 s : Store) : Prop := mkVivaAt {
  va_log : log_ok s; va_final : final_reached id s = true;
  va_queue : exists st, queue_of id s = Some (st, mkVivaState qs k false);
  va_transcript : transcript_of id s = numbered turns;
  va_count : length (defence_messages id s) = length turns;
  va_submissions : submissions s = submissions s0 }.

Lemma viva_at_said qs k turns s0 s role text extra : ordinary extra -> viva_at qs k turns s0 s ->
  viva_at qs k (turns ++ [(role, text)]) s0
    (said (actor_of role) (turn_payload role (length (defence_messages id s) + 1) text extra) s).
Proof.
  intros O [L F Q T C S]. constructor; try easy.
  - now apply said_log_ok.
  - rewrite said_transcript, T, C, numbered_snoc by easy. reflexivity.
  - rewrite said_messages, !length_app, C by easy. reflexivity.
Qed.
Lemma run_nextTurn s : run (nextTurn id) s = (inr (length (defence_messages id s) + 1)%nat, s).
Proof. reflexivity. Qed.

Lemma run_speak qs k turns s0 s a : viva_at qs k turns s0 s -> blank a = false ->
  exists s1, viva_at qs k (turns ++ [(R_LEARNER, a)]) s0 s1 /\ queue_of id s1 = queue_of id s /\
  run (postMessage id R_LEARNER a) s =
  run (let* move := advance id in
       match move with
       | NoViva => Ret (mkPostResult (length turns + 1) None false None)
       | Ask st q =>
           let* qTurn := nextTurn id in
           let* index := asked_so_far st in
           emitTurn id R_EXAMINER qTurn (vq_text q) (question_extra q index) ;;
           Ret (mkPostResult (length turns + 1) (Some (vq_text q)) false None)
       | Close => let* score := scoreViva id in Ret (mkPostResult (length turns + 1) None true (Some score))
       end) s1.
Proof.
  intros V B. eexists. split; [apply (viva_at_said qs k turns s0 s R_LEARNER a [] ltac:(discriminate) V) |].
  split; [reflexivity |]. unfold postMessage. rewrite B, run_bind, run_assertFinalReached, (va_final _ _ _ _ _ V).
  rewrite run_bind, run_nextTurn, run_bind, run_emitTurn, (va_count _ _ _ _ _ V). reflexivity.
Qed.

(** While questions are left, an answer is followed by the next one. *)
Lemma post_ask qs k turns s0 s a q : viva_at qs k turns s0 s -> blank a = false -> qs !! k = Some q ->
  exists s', run (postMessage id R_LEARNER a) s = (inr (mkPostResult (length turns + 1) (Some (vq_text q)) false None), s') /\
    viva_at qs (S k) (turns ++ [(R_LEARNER, a); (R_EXAMINER, vq_text q)]) s0 s'.
Proof.
  intros V B E. destruct (run_speak qs k turns s0 s a V B) as (s1 & V1 & _ & ->).
  destruct (va_queue _ _ _ _ _ V1) as [st Q].
  set (s2 := s1 <| queues := alter (fun v => v <| vv_asked ::= S |>) st (queues s1) |>).
  assert (A : run (advance id) s1 = (inr (Ask st q), s2))
    by (unfold advance; rewrite run_act, Q; cbn [move_of vv_closed vv_questions vv_asked]; now rewrite E).
  assert (Q2 : queue_of id s2 = Some (st, mkVivaState qs (S k) false)).
  { unfold queue_of in *. subst s2. cbn [vivas queues set_field] in *. destruct (vivas s1 !! id) as [st'|]; [|easy]. cbn in *.
    destruct (queues s1 !! st') as [v|] eqn:L; [|easy]. injection Q as -> ->. rewrite list_lookup_alter_eq, L. reflexivity. }
  assert (V2 : viva_at qs (S k) (turns ++ [(R_LEARNER, a)]) s0 s2) by (destruct V1; constructor; eauto).
  eexists. rewrite run_bind, A, run_bind, run_nextTurn, run_bind. unfold asked_so_far at 1. rewrite run_select, run_bind, run_emitTurn, run_ret.
  split; [reflexivity |]. rewrite (assoc app turns [_] [_] : turns ++ [_; _] = _).
  apply viva_at_said; [|exact V2]. unfold ordinary. unfold question_extra. destruct (vq_kind q); vm_compute; discriminate.
Qed.
Lemma submission_rows_eq s s' : submissions s' = submissions s -> submission_rows id s' = submission_rows id s.
Proof. intros E. unfold submission_rows. now rewrite E. Qed.
Lemma run_resolveRepoRef s : run (resolveRepoRef id) s = (inr (sub_repo_ref <$> List.find has_repo (submission_rows id s)), s).
Proof. reflexivity. Qed.

(** The grading of a viva: rubric, commits, transcript and the grader's answer. *)
Record graded_by (s : Store) (turns : list (VivaRole * string)) (rubric : Rubric) (result : GradingResult) : Prop := mkGradedBy {
  gb_rubric : getRubric VIVA_RUBRIC_ID = Some rubric;
  gb_result : exists commits, viva_commits (sub_repo_ref <$> List.find has_repo (submission_rows id s)) = inr commits /\
    grader_grade rubric (viva_facts (numbered turns) commits) = inr result }.

Definition score_of (rubric : Rubric) (result : GradingResult) : VivaScore :=
  mkVivaScore VIVA_RUBRIC_ID (overall_level (gr_criterionGrades result))
    (criterion_levels (gr_criterionGrades result)) (gr_provisional result) (review_required rubric result).

Lemma score_message turn rubric result s l : log_ok s -> overall_level (gr_criterionGrades result) = Level l ->
  let s' := said AI (score_payload turn result (review_required rubric result)) s in
  transcript_of id s' = transcript_of id s /\
  defence_score_of (defence_messages id s') = Some (unit_clamp ((inject_Z l -! 1) /! 3)).
Proof.
  intros L E s'. subst s'. split.
  - unfold transcript_of. rewrite said_messages by exact L. rewrite omap_app. apply app_nil_r.
  - rewrite said_messages by exact L. unfold defence_score_of. rewrite rev_unit.
    set (e := appended _ _ _ _ _). cbn [omap list_omap].
    assert (S : is_score e = true) by reflexivity.
    assert (J : jnumber "overall_level" (ev_payload e) = Some (inject_Z l))
      by (unfold e, appended, score_payload; cbn [ev_payload]; now rewrite E).
    rewrite S, J. reflexivity.
Qed.

(** The viva is over: the conversation goes on, but asks and grades nothing. *)
Definition closed (s : Store) : Prop :=
  log_ok s /\ final_reached id s = true /\ exists v, queue_of id s = Some v /\ vv_closed v.2 = true.
Lemma post_closed s a : closed s -> blank a = false -> exists s',
  run (postMessage id R_LEARNER a) s =
    (inr (mkPostResult (length (defence_messages id s) + 1) None false None), s') /\
  closed s' /\ defence_score_of (defence_messages id s') = defence_score_of (defence_messages id s).
Proof.
  intros (L & F & [st v] & Q & C) B. unfold postMessage.
  rewrite B, run_bind, run_assertFinalReached, F, run_bind, run_nextTurn, run_bind, run_emitTurn.
  set (s1 := said _ _ s). cbn [negb bool_decide decide_rel]. rewrite bool_decide_true by reflexivity. cbn [negb].
  assert (A : run (advance id) s1 = (inr NoViva, s1)).
  { unfold advance. rewrite run_act. change (queue_of id s1) with (queue_of id s). rewrite Q. cbn in C |- *. now rewrite C. }
  rewrite run_bind, A, run_ret. exists s1. split; [reflexivity |]. split.
  - split; [now apply said_log_ok |]. split; [exact F | now exists (st, v)].
  - subst s1. rewrite said_messages by exact L. unfold defence_score_of. rewrite rev_unit. reflexivity.
Qed.

(** The answer to the last question closes the viva and has it graded. *)
Lemma post_close qs turns s0 s a rubric result l :
  viva_at qs (length qs) turns s0 s -> blank a = false ->
  graded_by s0 (turns ++ [(R_LEARNER, a)]) rubric result -> overall_level (gr_criterionGrades result) = Level l ->
  exists s', run (postMessage id R_LEARNER a) s =
      (inr (mkPostResult (length turns + 1) None true (Some (score_of rubric result))), s') /\
    transcript_of id s' = numbered (turns ++ [(R_LEARNER, a)]) /\
    defence_score_of (defence_messages id s') = Some (unit_clamp ((inject_Z l -! 1) /! 3)) /\
    closed s'.
Proof.
  intros V B [G (commits & C & R)] E. destruct (run_speak qs (length qs) turns s0 s a V B) as (s1 & V1 & _ & ->).
  destruct (va_queue _ _ _ _ _ V1) as [st Q].
  set (s2 := s1 <| queues := alter (fun v => v <| vv_closed := true |>) st (queues s1) |>).
  assert (A : run (advance id) s1 = (inr Close, s2)).
  { unfold advance. rewrite run_act, Q. cbn [move_of vv_closed vv_questions vv_asked].
    now rewrite (lookup_ge_None_2 qs (length qs)) by lia. }
  assert (Q2 : queue_of id s2 = Some (st, mkVivaState qs (length qs) true)).
  { unfold queue_of in *. subst s2. cbn [vivas queues set_field] in *. destruct (vivas s1 !! id) as [st'|]; [|easy]. cbn in *.
    destruct (queues s1 !! st') as [v|] eqn:L; [|easy]. injection Q as -> ->. rewrite list_lookup_alter_eq, L. reflexivity. }
  assert (T : transcript_of id s2 = numbered (turns ++ [(R_LEARNER, a)])) by exact (va_transcript _ _ _ _ _ V1).
  rewrite run_bind, A, run_bind. unfold scoreViva. rewrite G, run_bind. unfold transcript. rewrite run_select, T.
  rewrite run_bind, run_resolveRepoRef, (submission_rows_eq s0 s2) by exact (va_submissions _ _ _ _ _ V1).
  rewrite C, run_bind. cbn [lift]. rewrite run_ret, R, run_bind. cbn [lift]. rewrite run_ret, run_bind, run_nextTurn, run_bind, run_appendTypedEvent, !run_ret.
  destruct (score_message (length (defence_messages id s2) + 1 - 1) rubric result s2 l (va_log _ _ _ _ _ V1) E) as [T' S'].
  eexists. split; [reflexivity |]. split; [rewrite <- T; exact T' |]. split; [exact S' |].
  split; [apply said_log_ok, V1 |]. split; [exact (va_final _ _ _ _ _ V1) |].
  eexists. split; [exact Q2 | reflexivity].
Qed.
Lemma answer_all qs s0 rubric result l : overall_level (gr_criterionGrades result) = Level l ->
  forall answers k turns s, viva_at qs k turns s0 s -> (k <= length qs)%nat ->
  length answers = S (length (drop k qs)) -> Forall (fun a => blank a = false) answers ->
  graded_by s0 (turns ++ match answers with [] => [] | a :: rest => (R_LEARNER, a) :: dialogue (drop k qs) rest end) rubric result ->
  exists posts s', run (for_map answers (postMessage id R_LEARNER)) s = (inr posts, s') /\
    po_nextQuestion <$> posts = ((fun q => Some (vq_text q)) <$> drop k qs) ++ [None] /\
    po_score <$> posts = ((fun _ => None) <$> drop k qs) ++ [Some (score_of rubric result)] /\
    po_closed <$> posts = ((fun _ => false) <$> drop k qs) ++ [true] /\ closed s' /\
    transcript_of id s' = numbered (turns ++ match answers with [] => [] | a :: rest => (R_LEARNER, a) :: dialogue (drop k qs) rest end) /\
    defence_score_of (defence_messages id s') = Some (unit_clamp ((inject_Z l -! 1) /! 3)).
Proof.
  intros E answers. induction answers as [|a rest IH]; intros k turns s V K L B G; [easy |].
  apply Forall_cons in B as [Ba B]. injection L as L. cbn [for_map].
  destruct (qs !! k) as [q|] eqn:Eq.
  - destruct (post_ask qs k turns s0 s a q V Ba Eq) as (s1 & R & V1).
    rewrite (drop_S qs q k Eq) in *. cbn [length dialogue] in *. destruct rest as [|a2 rest]; [easy |].
    destruct (IH (S k) _ s1 V1) as (posts & s2 & R2 & P1 & P2 & P3 & P4 & P5 & P6); [now apply lookup_lt_Some in Eq | exact L | exact B | now rewrite <- app_assoc |].
    eexists _, s2. rewrite run_bind, R, run_bind, R2, run_ret. split; [reflexivity |]. cbn. rewrite P1, P2, P3, P5, <- app_assoc. split_and!; auto; apply P4.
  - apply lookup_ge_None in Eq. assert (k = length qs) as -> by lia.
    rewrite drop_all in *. destruct rest as [|]; [|easy]. cbn [dialogue] in *.
    destruct (post_close qs turns s0 s a rubric result l V Ba G E) as (s1 & R & T & S & C).
    eexists _, s1. cbn [for_map]. rewrite run_bind, R, run_bind, !run_ret. split_and!; auto; apply C.
Qed.

Lemma run_startViva s d c f q qs :
  log_ok s -> final_reached id s = true -> defence_messages id s = [] ->
  grounding (sub_repo_ref <$> List.find has_repo (submission_rows id s)) = inr (d, c, f) -> questions_for d c f = q :: qs ->
  exists s1, run (startViva id) s = (inr (mkStartResult 1 (vq_text q) (S (length qs))), s1) /\
    viva_at (q :: qs) 1 [(R_EXAMINER, vq_text q)] s s1.
Proof.
  intros L F M G E. unfold startViva.
  rewrite run_bind, run_assertFinalReached, F, run_bind, run_resolveRepoRef, run_bind, G. cbn [lift]. rewrite run_ret.
  cbn beta iota. rewrite E, run_bind, run_execute.
  set (s1 := s <| vivas := _ |> <| queues ::= _ |>).
  rewrite run_bind, run_nextTurn, run_bind, run_emitTurn, run_bind, run_execute, run_ret.
  assert (M1 : defence_messages id s1 = []) by exact M. rewrite M1.
  eexists. split; [reflexivity |]. set (s2 := said _ _ s1). set (s3 := s2 <| queues := _ |>).
  assert (T : transcript_of id s2 = transcript_of id s1 ++ [mkTranscriptTurn (inject_Z (Z.of_nat 1)) (role_text R_EXAMINER) (vq_text q)]).
  { apply (said_transcript R_EXAMINER 1); [exact L |]. unfold ordinary, question_extra. destruct (vq_kind q); vm_compute; discriminate. }
  constructor; try easy.
  - exact (said_log_ok _ _ s1 L).
  - exists (length (queues s)). unfold queue_of. subst s3 s2 s1. cbn [vivas queues set_field said].
    rewrite lookup_insert_eq. cbn [mbind option_bind default from_option].
    change (Datatypes.id (length (queues s))) with (length (queues s)).
    rewrite list_lookup_alter_eq, lookup_app_r, Nat.sub_diag by lia. reflexivity.
  - change (transcript_of id s3) with (transcript_of id s2). rewrite T. unfold transcript_of. rewrite M1. reflexivity.
  - change (defence_messages id s3) with (defence_messages id s2). unfold s2. rewrite said_messages by exact L. now rewrite M1.
Qed.
End Conversation.


(** Before the final milestone is reached no viva can be started and no message
    is recorded; a blank message is refused before that is looked at, and nothing
    is written in either case. *)
Theorem viva_needs_final `{AiGrading} `{GitHost} `{VivaModel} id role text s :
  final_reached id s = false ->
  run (startViva id) s = (inl (BadRequestException "DEFENCE_NOT_AVAILABLE"), s) /\
  run (postMessage id role text) s =
    (inl (BadRequestException (if blank text then "EMPTY_DEFENCE_MESSAGE" else "DEFENCE_NOT_AVAILABLE")), s).
Proof.
  intros F. unfold startViva, postMessage. split; [|destruct (blank text); [reflexivity |]];
    now rewrite run_bind, run_assertFinalReached, F.
Qed.

(** ** A viva of two questions *)
Definition no_git : GitHost :=
  {| git_isEnabled := false; git_listCommits _ _ := inr []; git_readFile _ _ := None; git_diff _ _ _ := None |}.
Definition two_questions : VivaModel :=
  {| generateQuestions _ _ _ _ := inr [mkVivaQuestion "Why a single region?" "design" Divergence;
                                       mkVivaQuestion "What fails first?" "abc123" Reasoning] |}.
Definition level_grader (l : Z) : AiGrading :=
  {| getRubric id := Some (mkRubric id 1 "INCIDENT_NOTE" [] [] "ALWAYS_PROVISIONAL_UNTIL_CALIBRATED");
     grader_grade r _ := inr (mkGradingResult (rb_id r) [mkCriterionGrade "clarity" 2 (1 # 2) [] "" []; mkCriterionGrade "overall" l 1 [] "" []] true None) |}.
Definition at_final : Store :=
  empty_store <| milestones := {[(7%nat, final) := mkMilestoneState OPEN 4 None None None None 0]} |>.


Lemma viva_needs_final_witness :
  run (@postMessage (level_grader 3) no_git 7 R_LEARNER "Hello") empty_store =
  (inl (BadRequestException "DEFENCE_NOT_AVAILABLE"), empty_store).
Proof. now apply (@viva_needs_final (level_grader 3) no_git two_questions 7 R_LEARNER "Hello" empty_store). Defined.
