(* ===== verification/Project.v ===== *)
(** * Projects and their milestones

    project/project.service.ts: the milestone state machine of a PROJECT
    attempt.  A submitted milestone is validated and graded; passing its gate
    opens the next one.  The orchestrator port is another service:
    [ProjectOrchestrator]. *)
From S2P Require Import Prelude JsNum Binary64 Effects Schema AttemptStatus EventStore Mastery AttemptRepository Criteria ValidatorRunner Artifact AttemptService ProjectScoring ProjectRepository Defence.

(** ** project-orchestrator.port.ts *)
Record ProjectEnvHandle := mkProjectEnvHandle { peh_environmentId : string; peh_status : ProvisionStatus }.
Class ProjectOrchestrator := {
  port_provisionForMilestone : list RemoteCall -> Id -> MilestoneKey -> exn + ProjectEnvHandle;
  port_snapshotAndSuspend : list RemoteCall -> string -> Id -> exn + unit
}.

Definition MILESTONE_SEQUENCE : list MilestoneKey := [design; infra; implementation; hardening; final].

Record MilestoneSpec := mkMilestoneSpec {
  ps_key : MilestoneKey; ps_title : string; ps_gate : MilestoneGate; ps_blocking : bool;
  ps_environmentRequired : bool; ps_taskKeys : list string; ps_rubric : option string; ps_minLevel : option Z }.
Record MilestoneView := mkMilestoneView {
  mv_key : MilestoneKey; mv_title : string; mv_status : MilestoneStatus; mv_ordinal : nat; mv_gate : MilestoneGate;
  mv_blocking : bool; mv_environmentRequired : bool; mv_score : option Q; mv_rubricLevel : option Z;
  mv_attemptCount : nat; mv_submittedAt : option Z; mv_gatedAt : option Z }.
Record TaskVerdict := mkTaskVerdict { tv_taskKey : string; tv_passed : bool }.
Record SubmitMilestoneInput := mkSubmitMilestoneInput {
  si_attemptId : Id; si_milestoneKey : MilestoneKey; si_designText : option string; si_commitSha : option string }.
Record SubmitMilestoneResult := mkSubmitMilestoneResult {
  sr_milestoneKey : MilestoneKey; sr_passed : bool; sr_score : Q; sr_rubricLevel : option GateLevel;
  sr_provisional : bool; sr_nextMilestoneOpened : option MilestoneKey; sr_validatorSummary : list TaskVerdict }.

Definition mkey_text (k : MilestoneKey) : string :=
  match k with
  | design => "design" | infra => "infra" | implementation => "implementation"
  | hardening => "hardening" | final => "final"
  end.
Definition capitalized (k : MilestoneKey) : string :=
  match k with
  | design => "Design" | infra => "Infra" | implementation => "Implementation"
  | hardening => "Hardening" | final => "Final"
  end.
Definition is_design (k : MilestoneKey) : bool := bool_decide (k = design).

(** ** The milestones of an activity *)
Definition canonical_spec (key : MilestoneKey) : MilestoneSpec :=
  mkMilestoneSpec key (capitalized key) (if is_design key then RUBRIC_MIN_LEVEL else ALL_VALIDATORS_PASS) true
    (negb (is_design key)) [] (if is_design key then Some "rub.architecture.v3"%string else None)
    (if is_design key then Some 3%Z else None).
Definition authored_spec (m : MilestoneAuthored) : MilestoneSpec :=
  mkMilestoneSpec (ma_key m) (ma_title m) (ma_gate m) (default true (ma_blocking m)) (ma_environment_required m)
    (default [] (ma_task_keys m)) (ma_rubric m) (ma_min_level m).
Definition specs_of (spec : ActivitySpec) : list MilestoneSpec :=
  match default [] (s_milestones spec) with
  | [] => canonical_spec <$> MILESTONE_SEQUENCE
  | ms => authored_spec <$> ms
  end.

Definition project_row (attemptId : Id) (s : Store) : option (ActivitySpec * ActivityMode) :=
  a ← attempts s !! attemptId; v ← versions s !! activity_version_id a; Some (av_spec v, mode a).
Definition loadMilestoneSpecs (attemptId : Id) : prog Store (list MilestoneSpec) :=
  let* version := select (project_row attemptId) in
  match version with
  | None => projectError "ATTEMPT_NOT_FOUND"
  | Some (spec, mode) =>
      if negb (bool_decide (mode = PROJECT)) then projectError "NOT_A_PROJECT" else Ret (specs_of spec)
  end.

(** [specs.find], and [specByKey.get] (the last of a key). *)
Definition find_spec (specs : list MilestoneSpec) (key : MilestoneKey) : option MilestoneSpec :=
  List.find (fun s => bool_decide (ps_key s = key)) specs.
Definition spec_by_key (specs : list MilestoneSpec) (key : MilestoneKey) : option MilestoneSpec :=
  find_spec (rev specs) key.

Definition view_of (specs : list MilestoneSpec) (row : MilestoneRow) : MilestoneView :=
  let s := spec_by_key specs row.1 in
  mkMilestoneView row.1 (from_option ps_title (mkey_text row.1) s) (ms_status row.2) (ms_ordinal row.2)
    (from_option ps_gate ALL_VALIDATORS_PASS s) (from_option ps_blocking true s)
    (from_option ps_environmentRequired (negb (is_design row.1)) s) (ms_score row.2) (ms_rubric_level row.2)
    (ms_attempt_count row.2) (ms_submitted_at row.2) (ms_gated_at row.2).

Definition seeds (specs : list MilestoneSpec) : list SeedMilestoneInput :=
  imap (fun i m => mkSeedMilestoneInput (ps_key m) i (if Nat.eqb i 0 then OPEN else LOCKED)) specs.

(** initProjectAttempt and listMilestones call each other; the second call of
    listMilestones finds the rows the first one seeded, so two rounds are
    enough ([listing]). *)
Fixpoint listMilestones_upto (rounds : nat) (attemptId : Id) : prog Store (list MilestoneView) :=
  match rounds with
  | 0%nat => Throw (JsError "Maximum call stack size exceeded")
  | S rounds =>
      let* specs := loadMilestoneSpecs attemptId in
      let* rows := list_milestone_rows attemptId in
      match rows with
      | [] =>
          (* initProjectAttempt *)
          let* specs := loadMilestoneSpecs attemptId in
          seedMilestones attemptId (seeds specs) ;;
          try_catch (appendTypedEvent attemptId SYSTEM MILESTONE_SUBMITTED
            (JObj [("seeded"%string, JArr ((fun m => JStr (mkey_text (ps_key m))) <$> specs))])) (fun _ => Ret tt) ;;
          listMilestones_upto rounds attemptId ;;
          (* back in listMilestones *)
          listMilestones_upto rounds attemptId
      | _ => Ret (view_of specs <$> rows)
      end
  end.
Definition listMilestones := listMilestones_upto 2.

(** ** The gate *)
Definition milestone_tasks (spec : MilestoneSpec) (full : ActivitySpec) : list TaskSpec :=
  List.filter (fun t => existsb (String.eqb (t_key t)) (ps_taskKeys spec)) (default [] (s_tasks full)).

Section Gate.
Context `{Rounding} `{Executor} `{AiGrading}.

Definition runMilestoneValidators (attemptId : Id) (spec : MilestoneSpec) : prog Store (list TaskVerdict) :=
  match ps_taskKeys spec with
  | [] => Ret []
  | _ =>
      let* full := select_or_throw (spec_of_attempt attemptId) in
      let* attempt := select_or_throw (fun s => attempts s !! attemptId) in
      let* summaries := run_validators (mkRunValidationInput attemptId
        (default "unknown-environment"%string (environment_id attempt)) ScopeAll "submit" (milestone_tasks spec full)) in
      Ret ((fun m => mkTaskVerdict (tr_taskKey m) (tr_passed m)) <$> summaries)
  end.

Definition validators_pass (spec : MilestoneSpec) (summary : list TaskVerdict) : bool :=
  match ps_taskKeys spec with [] => true | _ => forallb tv_passed summary end.

(** The level of the criterion [overall], else the lowest. *)
Definition gate_level (grades : list CriterionGrade) : GateLevel :=
  match List.find (fun g => String.eqb (cg_criterion g) "overall") grades with
  | Some g => Level (cg_level g)
  | None => lowest_level grades
  end.

Definition grade_rubric (spec : MilestoneSpec) (designText : string) : exn + (GateLevel * bool) :=
  match truthy_key (ps_rubric spec) ≫= getRubric with
  | None => inr (Level 0, true)
  | Some rubric =>
      match grader_grade rubric (mkGradingFacts designText [] [] []) with
      | inl e => inl e
      | inr result => inr (gate_level (gr_criterionGrades result), gr_provisional result)
      end
  end.
Definition gradeMilestoneRubric (spec : MilestoneSpec) (designText : string) : prog Store (GateLevel * bool) :=
  lift (grade_rubric spec designText).

Definition level_ge (l : GateLevel) (m : Z) : bool :=
  match l with Level l => Z.leb m l | Infinite => true end.

Definition gate_passed (spec : MilestoneSpec) (summary : list TaskVerdict) (level : option GateLevel) : bool :=
  let rubricPass := match level with None => true | Some l => level_ge l (default 3%Z (ps_minLevel spec)) end in
  match ps_gate spec with
  | ALL_VALIDATORS_PASS => validators_pass spec summary
  | RUBRIC_MIN_LEVEL => rubricPass
  | BOTH => validators_pass spec summary && rubricPass
  end.

Definition computeMilestoneScore (spec : MilestoneSpec) (summary : list TaskVerdict) (level : option GateLevel) : Q :=
  let validatorScore := match summary with
                        | [] => 1
                        | _ => count (List.filter tv_passed summary) /! count summary
                        end in
  let rubricScore := match level with
                     | None | Some Infinite => 1
                     | Some (Level l) => unit_clamp ((inject_Z l -! 1) /! 3)
                     end in
  match ps_gate spec with
  | ALL_VALIDATORS_PASS => round4 validatorScore
  | RUBRIC_MIN_LEVEL => round4 rubricScore
  | BOTH => round4 ((validatorScore +! rubricScore) /! 2)
  end.
End Gate.

(** ** Submitting a milestone *)
Section ProjectService.
Context `{Rounding} `{Executor} `{AiGrading} `{GitHost} `{ProjectOrchestrator}.

Definition applyEnvLifecycle (attemptId : Id) (spec : MilestoneSpec) (passed : bool) : prog Store unit :=
  if negb (ps_environmentRequired spec) then Ret tt
  else
    let* attempt := select (fun s => attempts s !! attemptId) in
    let environmentId := truthy_key (attempt ≫= environment_id) in
    if passed then
      match environmentId with
      | Some e => try_catch (remote (CallSuspend e attemptId) (fun log => port_snapshotAndSuspend log e attemptId)) (fun _ => Ret tt)
      | None => Ret tt
      end
    else
      match environmentId with
      | Some _ => Ret tt
      | None =>
          let* env := try_catch
            (let* h := remote (CallProvisionMilestone attemptId (ps_key spec))
                         (fun log => port_provisionForMilestone log attemptId (ps_key spec)) in
             Ret (Some h)) (fun _ => Ret None) in
          match truthy_key (peh_environmentId <$> env) with
          | Some e => execute (fun s => s <| attempts := alter (fun a => a <| environment_id := Some e |>) attemptId (attempts s) |>)
          | None => Ret tt
          end
      end.

Definition next_opened (rows : list MilestoneRow) (key : MilestoneKey) : option MilestoneKey :=
  cur ← List.find (fun r : MilestoneRow => bool_decide (r.1 = key)) rows;
  next ← List.find (fun r : MilestoneRow => Nat.eqb (ms_ordinal r.2) (ms_ordinal cur.2 + 1)) rows;
  if bool_decide (ms_status next.2 = OPEN) then Some next.1 else None.
Definition nextOpenedMilestone (attemptId : Id) (key : MilestoneKey) (passed : bool) : prog Store (option MilestoneKey) :=
  if negb passed then Ret None
  else let* rows := list_milestone_rows attemptId in Ret (next_opened rows key).

Definition ai_gate (g : MilestoneGate) : bool :=
  match g with RUBRIC_MIN_LEVEL | BOTH => true | ALL_VALIDATORS_PASS => false end.
Definition rollup_input (specs : list MilestoneSpec) (views : list MilestoneView) (defenceScore : option Q)
    (mapped : list ActivitySkill) : ProjectRollupInput :=
  mkProjectRollupInput
    ((fun m => mkMilestoneScoreInput (mv_key m) (mv_score m)
                 (Some (from_option (fun s => ai_gate (ps_gate s)) false (spec_by_key specs (mv_key m))))) <$> views)
    defenceScore ((fun r => mkMappedSkill (as_skill_id r) (as_weight r)) <$> mapped).

Definition mapped_skills (attemptId : Id) (s : Store) : list ActivitySkill :=
  match attempts s !! attemptId with
  | Some a => List.filter (fun r => Nat.eqb (as_version_id r) (activity_version_id a)) (activity_skills s)
  | None => []
  end.

Definition component_text (c : Component) : string :=
  match c with CMilestone k => mkey_text k | CDefence => "defence" end.

Definition finalizeProjectScore (attemptId : Id) : prog Store unit :=
  let* views := listMilestones attemptId in
  let* specs := loadMilestoneSpecs attemptId in
  let* defenceScore := defenceComponentScore attemptId in
  let* mapped := select (mapped_skills attemptId) in
  let r := rollup (rollup_input specs views defenceScore mapped) in
  act (fun s => let? sc := to_numeric 5 4 (rr_finalScore r) in
    inr (tt, s <| scores ::= fun l => l ++ [mkAttemptScore attemptId SP_PROJECT_DEFAULT_ID sc (rr_passed r)
      ((fun c => (component_text (wc_component c), wc_rawScore c)) <$> rr_breakdown r) (now s)] |>)) ;;
  appendTypedEvent attemptId SYSTEM EVALUATED
    (JObj [("final_score"%string, JNum (rr_finalScore r)); ("passed"%string, JBool (rr_passed r));
           ("profile"%string, JStr SP_PROJECT_DEFAULT_ID); ("ai_fraction"%string, JNum (rr_aiFraction r));
           ("mastery_evidence"%string, JArr ((fun e => JObj [("skillId"%string, jnat (se_skillId e));
              ("evidenceScore"%string, JNum (se_evidenceScore e)); ("weight"%string, JNum (se_weight e))]) <$> rr_masteryEvidence r))]).

(** The submission row, and the commit it points to. *)
Definition record_pointer (input : SubmitMilestoneInput) (attemptNumber : nat) : prog Store string :=
  let* repoRef := resolveRepoRef (si_attemptId input) in
  match truthy_key repoRef with
  | Some repoRef =>
      recordMilestoneSubmission (si_attemptId input) (si_milestoneKey input) repoRef attemptNumber (si_commitSha input)
  | None =>
      let commitSha := default EmptyString (si_commitSha input) in
      recordSubmission (si_attemptId input) (si_milestoneKey input) "none" commitSha attemptNumber ;;
      Ret commitSha
  end.

Definition run_rubric (spec : MilestoneSpec) (designText : option string) : prog Store (option GateLevel * bool) :=
  if ai_gate (ps_gate spec) then
    let* graded := gradeMilestoneRubric spec (default EmptyString designText) in
    Ret (Some graded.1, graded.2)
  else Ret (None, false).

Definition outcome_text (passed : bool) : string := if passed then "GATED_PASS" else "GATED_FAIL".

Definition gated_payload (key : MilestoneKey) (passed : bool) (score : Q) (level : option GateLevel) (provisional : bool) : Json :=
  JObj ([("milestone_key"%string, JStr (mkey_text key)); ("outcome"%string, JStr (outcome_text passed)); ("score"%string, JNum score)]
        ++ match level with Some l => [("rubric_level"%string, level_json l)] | None => [] end
        ++ [("provisional"%string, JBool provisional)]).

(** From the graded gate to the answer. *)
Definition conclude_milestone (input : SubmitMilestoneInput) (spec : MilestoneSpec) (attemptNumber : nat)
    (summary : list TaskVerdict) (level : option GateLevel) (provisional : bool) : prog Store SubmitMilestoneResult :=
  let attemptId := si_attemptId input in
  let key := si_milestoneKey input in
  let passed := gate_passed spec summary level in
  let score := computeMilestoneScore spec summary level in
  applyGateOutcome (mkGateOutcomeInput attemptId key passed score level) ;;
  stampSubmissionOutcome attemptId key attemptNumber passed score ;;
  applyEnvLifecycle attemptId spec passed ;;
  let* nextOpened := nextOpenedMilestone attemptId key passed in
  appendTypedEvent attemptId SYSTEM MILESTONE_GATED (gated_payload key passed score level provisional) ;;
  when (bool_decide (key = final) && passed) (try_catch (finalizeProjectScore attemptId) (fun _ => Ret tt)) ;;
  Ret (mkSubmitMilestoneResult key passed score level provisional nextOpened summary).

Definition gate_milestone (input : SubmitMilestoneInput) (spec : MilestoneSpec) : prog Store SubmitMilestoneResult :=
  let* attemptNumber := markSubmitted (si_attemptId input) (si_milestoneKey input) in
  record_pointer input attemptNumber ;;
  appendTypedEvent (si_attemptId input) LEARNER MILESTONE_SUBMITTED
    (JObj [("milestone_key"%string, JStr (mkey_text (si_milestoneKey input))); ("attempt_number"%string, jnat attemptNumber)]) ;;
  let* summary := runMilestoneValidators (si_attemptId input) spec in
  let* ' (level, provisional) := run_rubric spec (si_designText input) in
  conclude_milestone input spec attemptNumber summary level provisional.

Definition submitMilestone (input : SubmitMilestoneInput) : prog Store SubmitMilestoneResult :=
  let key := si_milestoneKey input in
  let* specs := loadMilestoneSpecs (si_attemptId input) in
  let* spec := findOrThrow (find_spec specs key) in
  let* rows := listMilestones (si_attemptId input) in
  let* row := findOrThrow (List.find (fun r => bool_decide (mv_key r = key)) rows) in
  match mv_status row with
  | LOCKED => projectError "MILESTONE_LOCKED"
  | GATED_PASS => projectError "MILESTONE_ALREADY_PASSED"
  | _ => gate_milestone input spec
  end.
End ProjectService.
