(* ===== verification/ProjectLaws.v ===== *)
(** * What the milestone state machine does

    Listing and seeding, the functional behaviour of a submission on every
    branch, the order milestones are worked in, and the roll-up of a finished
    project. *)
From S2P Require Import Prelude JsNum Binary64 Effects Schema AttemptStatus EventStore Mastery AttemptRepository Criteria ValidatorRunner Artifact AttemptService ProjectScoring ProjectRepository Defence Project.

(** ** Listing *)
Definition seed_payload (specs : list MilestoneSpec) : Json :=
  JObj [("seeded"%string, JArr ((fun m => JStr (mkey_text (ps_key m))) <$> specs))].
Definition seeded (id : Id) (sp : ActivitySpec) (s : Store) : Store :=
  let s1 := s <| milestones := fold_left (seed_row id) (seeds (specs_of sp)) (milestones s) |> in
  s1 <| events ::= fun l => l ++ [appended id SYSTEM MILESTONE_SUBMITTED (seed_payload (specs_of sp)) s1] |>.
(** The store once the milestones have been listed. *)
Definition listed (id : Id) (sp : ActivitySpec) (s : Store) : Store :=
  match milestone_rows id s with [] => seeded id sp s | _ => s end.

Section Listing.
Variables (id : Id) (sp : ActivitySpec).

Lemma seed_lookup l : forall m i k,
  fold_left (seed_row id) l m !! (i, k) =
  match m !! (i, k) with
  | Some r => Some r
  | None => if Nat.eqb i id then seeded_row <$> List.find (fun x => bool_decide (sm_key x = k)) l else None
  end.
Proof.
  induction l as [|x l IH]; intros m i k; cbn [fold_left List.find].
  - destruct (m !! (i, k)); [easy |]. now destruct (Nat.eqb i id).
  - rewrite IH. unfold seed_row. destruct (m !! (id, sm_key x)) as [r|] eqn:E.
    + destruct (m !! (i, k)) eqn:E2; [easy |]. destruct (Nat.eqb_spec i id) as [->|]; [|easy].
      destruct (bool_decide_reflect (sm_key x = k)) as [<-|]; [congruence | easy].
    + destruct (decide ((i, k) = (id, sm_key x))) as [[= -> ->]|N].
      * rewrite lookup_insert_eq, E, Nat.eqb_refl, bool_decide_true by easy. reflexivity.
      * rewrite lookup_insert_ne by congruence. destruct (m !! (i, k)); [easy |].
        destruct (Nat.eqb_spec i id) as [->|]; [|easy].
        rewrite bool_decide_false by congruence. reflexivity.
Qed.

Lemma specs_of_cons : exists m l, specs_of sp = m :: l.
Proof.
  unfold specs_of. destruct (default [] (s_milestones sp)) as [|m l]; cbn; eauto.
Qed.

Lemma seeded_rows s : milestone_rows id (seeded id sp s) <> [].
Proof.
  intros E. destruct specs_of_cons as (m & l & S).
  pose proof (proj1 (milestone_rows_nil id (seeded id sp s)) E (ps_key m)) as N. revert N. unfold seeded.
  cbn [milestones set_field]. rewrite seed_lookup, S. unfold seeds. cbn [imap List.find sm_key].
  rewrite bool_decide_true, Nat.eqb_refl by easy. now destruct (milestones s !! _).
Qed.
Lemma listed_rows s : milestone_rows id (listed id sp s) <> [].
Proof. unfold listed. destruct (milestone_rows id s) eqn:E; [apply seeded_rows | congruence]. Qed.
Lemma listed_idem s : listed id sp (listed id sp s) = listed id sp s.
Proof. unfold listed at 1. pose proof (listed_rows s) as N. now destruct (milestone_rows id (listed id sp s)). Qed.

Lemma listed_same s :
  attempts (listed id sp s) = attempts s /\ versions (listed id sp s) = versions s /\ now (listed id sp s) = now s /\
  submissions (listed id sp s) = submissions s /\ scores (listed id sp s) = scores s.
Proof. unfold listed. now destruct (milestone_rows id s). Qed.

Lemma project_row_same s s' : attempts s' = attempts s -> versions s' = versions s -> project_row id s' = project_row id s.
Proof. intros A V. unfold project_row. now rewrite A, V. Qed.

Lemma run_load s : project_row id s = Some (sp, PROJECT) -> run (loadMilestoneSpecs id) s = (inr (specs_of sp), s).
Proof. intros P. unfold loadMilestoneSpecs. rewrite run_bind, run_select, P. reflexivity. Qed.

Lemma run_listed n s : project_row id s = Some (sp, PROJECT) -> milestone_rows id s <> [] ->
  run (listMilestones_upto (S n) id) s = (inr (view_of (specs_of sp) <$> milestone_rows id s), s).
Proof.
  intros P N. cbn [listMilestones_upto]. rewrite run_bind, (run_load s P), run_bind. unfold list_milestone_rows.
  rewrite run_select. destruct (milestone_rows id s); [easy | reflexivity].
Qed.

Lemma run_listMilestones s : project_row id s = Some (sp, PROJECT) ->
  run (listMilestones id) s = (inr (view_of (specs_of sp) <$> milestone_rows id (listed id sp s)), listed id sp s).
Proof.
  intros P. unfold listed. destruct (milestone_rows id s) as [|x l] eqn:E.
  - assert (P' : project_row id (seeded id sp s) = Some (sp, PROJECT)) by exact P.
    pose proof (run_listed 0 _ P' (seeded_rows s)) as N. unfold listMilestones. remember 1%nat as n.
    cbn [listMilestones_upto].
    rewrite run_bind, (run_load s P), run_bind. unfold list_milestone_rows at 1. rewrite run_select, E.
    rewrite run_bind, (run_load s P), run_bind. unfold seedMilestones. rewrite run_execute, run_bind, run_try, run_appendTypedEvent.
    fold (seed_payload (specs_of sp)). change (_ <| events ::= _ |>) with (seeded id sp s).
    now rewrite run_bind, !N.
  - apply run_listed; [exact P | congruence].
Qed.
End Listing.

(** Listing the milestones of a project attempt always answers, and seeds an
    attempt that has none: afterwards every milestone of the activity has a row,
    the first OPEN and the others LOCKED; rows that exist, and the rows of other
    attempts, are kept, and listing again changes nothing. *)
Theorem listing id sp s :
  project_row id s = Some (sp, PROJECT) ->
  let s' := listed id sp s in
  run (listMilestones id) s = (inr (view_of (specs_of sp) <$> milestone_rows id s'), s') /\
  run (listMilestones id) s' = (inr (view_of (specs_of sp) <$> milestone_rows id s'), s') /\
  (forall k r, milestones s !! k = Some r -> milestones s' !! k = Some r) /\
  ((forall key, milestones s !! (id, key) = None) ->
   forall i m, specs_of sp !! i = Some m -> (forall j m', (j < i)%nat -> specs_of sp !! j = Some m' -> ps_key m' <> ps_key m) ->
     milestones s' !! (id, ps_key m) = Some (mkMilestoneState (if Nat.eqb i 0 then OPEN else LOCKED) i None None None None 0)).
Proof.
  intros P s'. split; [now apply run_listMilestones |]. split.
  { rewrite (run_listMilestones id sp s'); [subst s'; now rewrite listed_idem |].
    destruct (listed_same id sp s) as (A & V & _). rewrite (project_row_same id s s' A V). exact P. }
  subst s'. unfold listed. destruct (milestone_rows id s) as [|x l] eqn:E; cycle 1.
  { split; [easy |]. intros N. apply milestone_rows_nil in N. congruence. }
  unfold seeded. cbn [milestones set_field]. split.
  - intros [i k] r L. now rewrite seed_lookup, L.
  - intros N i m Em U. rewrite seed_lookup, N, Nat.eqb_refl. unfold seeds.
    assert (F : forall l n i, l !! i = Some m -> (forall j m', (j < i)%nat -> l !! j = Some m' -> ps_key m' <> ps_key m) ->
      List.find (fun x => bool_decide (sm_key x = ps_key m))
        (imap (fun i m => mkSeedMilestoneInput (ps_key m) (n + i) (if Nat.eqb (n + i) 0 then OPEN else LOCKED)) l) =
      Some (mkSeedMilestoneInput (ps_key m) (n + i) (if Nat.eqb (n + i) 0 then OPEN else LOCKED))).
    { clear. induction l as [|x l IH]; intros n i Em U; [easy |]. rewrite imap_cons. cbn [List.find sm_key].
      destruct i as [|i]; [injection Em as ->; now rewrite bool_decide_true |].
      rewrite bool_decide_false by (apply (U 0%nat x); [lia | easy]).
      rewrite (imap_ext _ (fun j m0 => mkSeedMilestoneInput (ps_key m0) (S n + j) (if Nat.eqb (S n + j) 0 then OPEN else LOCKED)))
        by (intros; cbn; now rewrite !Nat.add_succ_r).
      rewrite (IH (S n) i Em); [now rewrite Nat.add_succ_r |]. intros j m' L. apply (U (S j)). lia. }
    pose proof (F _ 0%nat i Em U) as G. cbn [Nat.add] in G. rewrite G. reflexivity.
Qed.

(** ** Submitting *)
Definition submitted (clock : Z) (r : MilestoneState) : MilestoneState :=
  r <| ms_status := M_SUBMITTED |> <| ms_submitted_at := Some clock |> <| ms_attempt_count ::= S |>.

(** What the project tables look like after a step that leaves them alone. *)
Record project_frame (s s' : Store) : Prop := mkProjectFrame {
  pf_milestones : milestones s' = milestones s; pf_submissions : submissions s' = submissions s;
  pf_versions : versions s' = versions s; pf_scores : scores s' = scores s; pf_now : now s' = now s;
  pf_modes : forall id, project_row id s' = project_row id s }.
#[export] Instance project_frame_preorder : PreOrder project_frame.
Proof. split; [now constructor | intros s1 s2 s3 [] []; constructor; congruence]. Qed.

Lemma frame_project s s' : runner_frame s s' -> project_frame s s'.
Proof. intros []. constructor; try easy. intros id. now apply project_row_same. Qed.
Lemma append_project_frame id actor ty payload : preserves project_frame (appendTypedEvent id actor ty payload).
Proof. eapply preserves_weaken; [exact frame_project | apply append_frame]. Qed.
#[export] Hint Resolve append_project_frame : preserves.

Section Submitting.
Context `{Rounding} `{Executor} `{AiGrading} `{GitHost} `{ProjectOrchestrator}.

(** The verdicts a submission gets, and the events that record them. *)
Definition verdict_event (v : TaskVerdict) : AttemptEventType * option string :=
  (if tv_passed v then TASK_PASSED else TASK_FAILED, Some (tv_taskKey v)).
Definition gated_tasks (spec : MilestoneSpec) (sp : ActivitySpec) : list string :=
  match ps_taskKeys spec with [] => [] | _ => t_key <$> milestone_tasks spec sp end.

Lemma spec_of_project id s sp m : project_row id s = Some (sp, m) ->
  spec_of_attempt id s = Some sp /\ exists a, attempts s !! id = Some a.
Proof.
  unfold project_row, spec_of_attempt. destruct (attempts s !! id) as [a|]; [|easy]. cbn.
  destruct (versions s !! _) as [v|]; [|easy]. cbn. intros [= <- _]. eauto.
Qed.

Lemma summary_keys (f : TaskResult -> string) ts ms : Forall2 (fun t m => f m = t_key t) ts ms -> f <$> ms = t_key <$> ts.
Proof. induction 1 as [|t m ts ms E F IH]; [easy |]. cbn. now f_equal. Qed.

Lemma run_milestone_validators id spec s sp m : project_row id s = Some (sp, m) ->
  exists summary s', run (runMilestoneValidators id spec) s = (inr summary, s') /\ runner_frame s s' /\
    tv_taskKey <$> summary = gated_tasks spec sp /\ verdicts id s' = verdicts id s ++ (verdict_event <$> summary).
Proof.
  intros P. destruct (spec_of_project id s sp m P) as (Sp & a & A). unfold runMilestoneValidators, gated_tasks.
  destruct (ps_taskKeys spec) as [|k ks]; [exists [], s; rewrite app_nil_r; split_and!; reflexivity |].
  rewrite run_bind, run_select_or_throw, Sp, run_bind, run_select_or_throw, A, run_bind.
  set (input := mkRunValidationInput _ _ _ _ _).
  destruct (run_validators_runs input s) as (ms & s' & R & F & T & V). rewrite R, run_ret.
  eexists _, s'. split; [reflexivity |]. split; [exact F |]. split.
  - rewrite <- list_fmap_compose. apply summary_keys. eapply Forall2_impl; [exact T |]. now intros t x [E _].
  - change (rv_attemptId input) with id in V. rewrite V, <- list_fmap_compose. reflexivity.
Qed.

Lemma applyEnvLifecycle_frame id spec passed : preserves project_frame (applyEnvLifecycle id spec passed).
Proof.
  unfold applyEnvLifecycle, remote. preserves.
  - apply preserves_act. intros s0 x s1 [= <- <-]. now constructor.
  - apply preserves_act. intros s0 x s1 [= <- <-]. now constructor.
  - apply preserves_execute. intros s0. constructor; try reflexivity. intros i. unfold project_row.
    cbn [attempts versions set_field]. destruct (decide (i = id)) as [->|N]; [rewrite lookup_alter_eq | now rewrite lookup_alter_ne by congruence].
    now destruct (attempts s0 !! id).
Qed.

Lemma run_applyEnvLifecycle id spec passed s : exists s', run (applyEnvLifecycle id spec passed) s = (inr tt, s') /\ project_frame s s'.
Proof.
  pose proof (preserves_run project_frame _ s (applyEnvLifecycle_frame id spec passed)) as F. revert F.
  enough (exists s', run (applyEnvLifecycle id spec passed) s = (inr tt, s')) as [s' E] by (rewrite E; eauto).
  unfold applyEnvLifecycle. destruct (ps_environmentRequired spec); cbn [negb]; [|eexists; reflexivity].
  rewrite run_bind, run_select. destruct passed, (truthy_key _) as [e|]; try (eexists; reflexivity).
  - rewrite run_try. unfold remote. rewrite run_bind, run_act. destruct (port_snapshotAndSuspend _ e _) as [x|[]]; eexists; reflexivity.
  - rewrite run_bind, run_try, run_bind. unfold remote. rewrite run_bind, run_act.
    destruct (port_provisionForMilestone _ id _) as [x|h]; rewrite ?run_throw, ?run_ret; cbn beta iota; rewrite ?run_ret;
      destruct (truthy_key _); eexists; reflexivity.
Qed.

(** Once an attempt has an environment, the gates only ever suspend it: whatever
    the outcomes of its later milestones, no environment is provisioned or
    restored for them and the attempt keeps the suspended one. *)
Lemma environment_never_restored id e a (outcomes : list (MilestoneSpec * bool)) : forall s,
  attempts s !! id = Some a -> truthy_key (environment_id a) = Some e ->
  exists s' n, run (for_each outcomes (fun o => applyEnvLifecycle id o.1 o.2)) s = (inr tt, s') /\
    attempts s' = attempts s /\ calls s' = calls s ++ repeat (CallSuspend e id) n.
Proof.
  induction outcomes as [|[spec passed] l IH]; intros s L E; cbn [for_each fst snd].
  - exists s, 0%nat. split_and!; try reflexivity. symmetry. apply app_nil_r.
  - assert (One : exists s' n, run (applyEnvLifecycle id spec passed) s = (inr tt, s') /\
      attempts s' = attempts s /\ calls s' = calls s ++ repeat (CallSuspend e id) n).
    { unfold applyEnvLifecycle. destruct (ps_environmentRequired spec); cbn [negb];
        [|exists s, 0%nat; split_and!; try reflexivity; symmetry; apply app_nil_r].
      rewrite run_bind, run_select, L. cbn [mbind option_bind]. rewrite E. destruct passed.
      - exists (s <| calls ::= fun l => l ++ [CallSuspend e id] |>), 1%nat. split_and!; try reflexivity.
        rewrite run_try. unfold remote. rewrite run_bind, run_act. now destruct (port_snapshotAndSuspend _ e id) as [|[]].
      - exists s, 0%nat. split_and!; try reflexivity. symmetry. apply app_nil_r. }
    destruct One as (s1 & n & R & A & C). rewrite run_bind, R. destruct (IH s1) as (s2 & m & R2 & A2 & C2); [congruence | exact E |].
    exists s2, (n + m)%nat. split_and!; [exact R2 | congruence |]. rewrite C2, C, <- app_assoc. f_equal. symmetry. apply repeat_app.
Qed.

(** The rubric's answer to the submitted text, when the gate asks for one. *)
Definition rubric_answer (spec : MilestoneSpec) (designText : option string) : exn + (option GateLevel * bool) :=
  if ai_gate (ps_gate spec) then
    match grade_rubric spec (default EmptyString designText) with
    | inl e => inl e
    | inr g => inr (Some g.1, g.2)
    end
  else inr (None, false).
Lemma run_run_rubric spec text s : run (run_rubric spec text) s =
  match rubric_answer spec text with inl e => (inl e, s) | inr g => (inr g, s) end.
Proof.
  unfold run_rubric, rubric_answer, gradeMilestoneRubric. destruct (ai_gate _); [|reflexivity].
  rewrite run_bind. now destruct (grade_rubric _ _).
Qed.

Lemma milestone_score_fits spec summary level : exists sc, numeric 5 4 (computeMilestoneScore spec summary level) = Some sc /\
  to_numeric 5 4 (computeMilestoneScore spec summary level) = inr sc /\ 0 <= computeMilestoneScore spec summary level <= 1.
Proof.
  assert (U : 0 <= computeMilestoneScore spec summary level <= 1).
  { assert (V : 0 <= match summary with [] => 1 | _ => count (List.filter tv_passed summary) /! count summary end <= 1).
    { destruct summary as [|x l]; [easy |]. set (n := x :: l).
      assert (L : count (List.filter tv_passed n) <= count n) by (unfold count; rewrite <- Zle_Qle; pose proof (List.filter_length tv_passed n); lia).
      assert (P : 0 < count n) by (unfold count, n; cbn [length]; change 0 with (inject_Z 0); rewrite <- Zlt_Qlt; lia).
      split; [apply div_nonneg; [|lra]; unfold count; change 0 with (inject_Z 0); rewrite <- Zle_Qle; lia | now apply div_le_1]. }
    assert (Rb : 0 <= match level with None | Some Infinite => 1 | Some (Level l) => unit_clamp ((inject_Z l -! 1) /! 3) end <= 1)
      by (destruct level as [[l|]|]; [apply unit_clamp_bounds | easy | easy]).
    unfold computeMilestoneScore. destruct (ps_gate spec); apply round4_unit; [exact V | exact Rb |].
    revert V Rb. generalize (match summary with [] => 1 | _ => count (List.filter tv_passed summary) /! count summary end).
    generalize (match level with None | Some Infinite => 1 | Some (Level l) => unit_clamp ((inject_Z l -! 1) /! 3) end).
    intros x y Y X. split; [apply div_nonneg; [apply add_nonneg; lra | lra] |].
    apply div_le_1; [lra |]. unfold add. apply (rnd_ub _ 2); [lia |]. change (inject_Z 2) with 2. lra. }
  destruct (numeric_signed 5 4 (computeMilestoneScore spec summary level)) as (sc & E & _); [lia | lra |].
  exists sc. unfold to_numeric. now rewrite E.
Qed.
Lemma find_view specs rows key :
  List.find (fun v => bool_decide (mv_key v = key)) (view_of specs <$> rows) =
  view_of specs <$> List.find (fun r : MilestoneRow => bool_decide (r.1 = key)) rows.
Proof. induction rows as [|r rows IH]; [easy |]. cbn. destruct (bool_decide (r.1 = key)); [easy | exact IH]. Qed.

Lemma run_submit input s sp spec : project_row (si_attemptId input) s = Some (sp, PROJECT) ->
  find_spec (specs_of sp) (si_milestoneKey input) = Some spec ->
  let s1 := listed (si_attemptId input) sp s in
  run (submitMilestone input) s =
  match milestones s1 !! (si_attemptId input, si_milestoneKey input) with
  | None => (inl NotFoundException, s1)
  | Some r => match ms_status r with
              | LOCKED => (inl (BadRequestException "MILESTONE_LOCKED"), s1)
              | GATED_PASS => (inl (BadRequestException "MILESTONE_ALREADY_PASSED"), s1)
              | _ => run (gate_milestone input spec) s1
              end
  end.
Proof.
  intros P F s1. unfold submitMilestone. rewrite run_bind, (run_load _ sp s P), run_bind, F, run_find.
  rewrite run_bind, (run_listMilestones _ sp s P). fold s1. rewrite run_bind, find_view, find_row.
  destruct (milestones s1 !! _) as [r|]; cbn [fmap option_fmap option_map]; rewrite run_find; [|reflexivity].
  cbn [view_of mv_status fst snd]. now destruct (ms_status r).
Qed.

(** The gate's part of a submission, up to the graded rubric. *)
Lemma run_gate input s sp spec r : let id := si_attemptId input in let key := (id, si_milestoneKey input) in
  project_row id s = Some (sp, PROJECT) -> milestones s !! key = Some r ->
  exists repo commit summary s1,
    tv_taskKey <$> summary = gated_tasks spec sp /\
    (List.find has_repo (submission_rows id s) = None -> repo = "none"%string /\ commit = default EmptyString (si_commitSha input)) /\
    milestones s1 = <[key := submitted (now s) r]> (milestones s) /\
    submissions s1 = submissions s ++ [mkProjectSubmission id key.2 repo commit (S (ms_attempt_count r)) None None (now s)] /\
    scores s1 = scores s /\ now s1 = now s /\ project_row id s1 = Some (sp, PROJECT) /\
    run (gate_milestone input spec) s =
      match rubric_answer spec (si_designText input) with
      | inl e => (inl e, s1)
      | inr g => run (conclude_milestone input spec (S (ms_attempt_count r)) summary g.1 g.2) s1
      end.
Proof.
  cbn zeta. set (id := si_attemptId input). set (key := si_milestoneKey input). intros P L. unfold gate_milestone. fold id key.
  rewrite run_bind. unfold markSubmitted. rewrite run_act, L. fold (submitted (now s) r).
  set (s1 := s <| milestones := _ |>).
  assert (R : exists repo commit, (List.find has_repo (submission_rows id s) = None -> repo = "none"%string /\ commit = default EmptyString (si_commitSha input)) /\
    run (record_pointer input (S (ms_attempt_count r))) s1 =
    (inr commit, s1 <| submissions ::= fun l => l ++ [mkProjectSubmission id key repo commit (S (ms_attempt_count r)) None None (now s)] |>)).
  { unfold record_pointer. fold id key. rewrite run_bind, run_resolveRepoRef, (submission_rows_eq id s s1) by reflexivity.
    destruct (List.find has_repo (submission_rows id s)) as [x|].
    - cbn [fmap option_fmap option_map]. destruct (truthy_key (Some (sub_repo_ref x))) as [ref|].
      + exists ref, (resolve_commit ref (si_commitSha input)). split; [easy |]. reflexivity.
      + exists "none"%string, (default EmptyString (si_commitSha input)). split; [easy |]. reflexivity.
    - exists "none"%string, (default EmptyString (si_commitSha input)). split; [easy |]. reflexivity. }
  destruct R as (repo & commit & N & R). cbn [ms_attempt_count submitted set_field]. rewrite run_bind, R.
  set (s2 := s1 <| submissions ::= _ |>). rewrite run_bind, run_appendTypedEvent. set (s3 := s2 <| events ::= _ |>).
  destruct (run_milestone_validators id spec s3 sp PROJECT P) as (summary & s4 & V & F & K & _).
  rewrite run_bind, V, run_bind, run_run_rubric. exists repo, commit, summary, s4.
  apply frame_project in F as [F1 F2 F3 F4 F5 F6]. rewrite F1, F2, F4, F5, F6. split_and!; try easy.
  now destruct (rubric_answer _ _) as [e|[level prov]].
Qed.
(** *** The roll-up of a project whose milestones are listed *)
Definition project_rollup (id : Id) (sp : ActivitySpec) (s : Store) : ProjectRollupResult :=
  rollup (rollup_input (specs_of sp) (view_of (specs_of sp) <$> milestone_rows id s)
    (defence_score_of (defence_messages id s)) (mapped_skills id s)).
Definition project_score (id : Id) (sp : ActivitySpec) (s : Store) : AttemptScore :=
  let r := project_rollup id sp s in
  mkAttemptScore id SP_PROJECT_DEFAULT_ID (default 0 (numeric 5 4 (rr_finalScore r))) (rr_passed r)
    ((fun c => (component_text (wc_component c), wc_rawScore c)) <$> rr_breakdown r) (now s).

Lemma rollup_fits i : exists v, numeric 5 4 (rr_finalScore (rollup i)) = Some v /\ 0 <= v <= 1.
Proof.
  assert (B : 0 <= rr_finalScore (rollup i) <= 1) by exact (round4_unit _ (unit_clamp_bounds (sum_by wc_weighted (weighted i)))).
  destruct (numeric_signed 5 4 (rr_finalScore (rollup i))) as (v & E & V & N); [lia | lra |].
  exists v. split; [exact E |]. split; [apply N, B | apply V].
Qed.

Lemma run_finalize id sp s : project_row id s = Some (sp, PROJECT) -> milestone_rows id s <> [] ->
  exists s', run (finalizeProjectScore id) s = (inr tt, s') /\ scores s' = scores s ++ [project_score id sp s] /\
    milestones s' = milestones s /\ submissions s' = submissions s.
Proof.
  intros P N. unfold finalizeProjectScore, listMilestones. rewrite run_bind, (run_listed id sp 1 s P N), run_bind, (run_load id sp s P).
  rewrite run_bind. unfold defenceComponentScore. rewrite run_select, run_bind, run_select, run_bind.
  fold (project_rollup id sp s). rewrite run_act. unfold to_numeric.
  destruct (rollup_fits (rollup_input (specs_of sp) (view_of (specs_of sp) <$> milestone_rows id s)
    (defence_score_of (defence_messages id s)) (mapped_skills id s))) as (v & E & _). fold (project_rollup id sp s) in E.
  rewrite E, run_appendTypedEvent. eexists. split; [reflexivity |]. unfold project_score. now rewrite E.
Qed.

(** *** The end of a submission *)
Definition outcome_of (spec : MilestoneSpec) (key : MilestoneKey) (summary : list TaskVerdict) (level : option GateLevel)
    (prov : bool) (next : option MilestoneKey) : SubmitMilestoneResult :=
  mkSubmitMilestoneResult key (gate_passed spec summary level) (computeMilestoneScore spec summary level) level prov next summary.

(** The milestone table once the gate of [key] came out. *)
Definition gated_table (id : Id) (key : MilestoneKey) (passed : bool) (score : Q) (col : option Z) (clock : Z)
    (r : MilestoneState) (m : gmap (Id * MilestoneKey) MilestoneState) : gmap (Id * MilestoneKey) MilestoneState :=
  let m' := <[(id, key) := gated_row passed score col clock r]> m in
  if passed then map_imap (fun k r' => Some (open_at id (ms_ordinal r + 1) k r')) m' else m'.

Lemma run_applyGate id key passed score level s r sc :
  milestones s !! (id, key) = Some r -> to_numeric 5 4 score = inr sc ->
  run (applyGateOutcome (mkGateOutcomeInput id key passed score level)) s =
  match rubric_column level with
  | inl e => (inl e, s)
  | inr col => (inr tt, s <| milestones := gated_table id key passed sc col (now s) r (milestones s) |>)
  end.
Proof.
  intros L T. unfold applyGateOutcome. rewrite run_act. cbn [go_attemptId go_milestoneKey go_passed go_score go_rubricLevel].
  rewrite L, T. now destruct (rubric_column level).
Qed.

Lemma run_conclude_milestone input s sp spec n summary level prov r :
  let id := si_attemptId input in let key := si_milestoneKey input in
  project_row id s = Some (sp, PROJECT) -> milestones s !! (id, key) = Some r ->
  let passed := gate_passed spec summary level in
  match rubric_column level with
  | inl e => run (conclude_milestone input spec n summary level prov) s = (inl e, s)
  | inr col => exists sc s2 s',
      numeric 5 4 (computeMilestoneScore spec summary level) = Some sc /\
      run (conclude_milestone input spec n summary level prov) s =
        (inr (outcome_of spec key summary level prov (if passed then next_opened (milestone_rows id s') key else None)), s') /\
      milestones s' = gated_table id key passed sc col (now s) r (milestones s) /\
      submissions s' = (fun x => if is_submission id key n x then stamp passed sc x else x) <$> submissions s /\
      milestones s2 = milestones s' /\
      scores s' = scores s ++ (if bool_decide (key = final) && passed then [project_score id sp s2] else [])
  end.
Proof.
  cbn zeta. set (id := si_attemptId input). set (key := si_milestoneKey input). intros P L. unfold conclude_milestone. fold id key.
  set (passed := gate_passed spec summary level). destruct (milestone_score_fits spec summary level) as (sc & E & T & _).
  rewrite run_bind, (run_applyGate id key passed _ level s r sc L T).
  destruct (rubric_column level) as [e|col]; [reflexivity |].
  remember (gated_table id key passed sc col (now s) r (milestones s)) as m' eqn:M. set (s1 := s <| milestones := m' |>).
  rewrite run_bind. unfold stampSubmissionOutcome. rewrite run_act, T. set (s3 := s1 <| submissions ::= _ |>).
  destruct (run_applyEnvLifecycle id spec passed s3) as (s4 & R4 & [F1 F2 F3 F4 F5 F6]).
  rewrite run_bind, R4, run_bind.
  set (next := if passed then next_opened (milestone_rows id s4) key else None).
  assert (N : run (nextOpenedMilestone id key passed) s4 = (inr next, s4)) by (unfold nextOpenedMilestone, next; now destruct passed).
  rewrite N, run_bind, run_appendTypedEvent. set (s5 := s4 <| events ::= _ |>). rewrite run_bind.
  assert (Rows : forall s', milestones s' = m' -> milestone_rows id s' = milestone_rows id s4)
    by (intros s' Es; unfold milestone_rows; now rewrite Es, F1).
  unfold when. destruct (bool_decide (key = final) && passed) eqn:Fin.
  - destruct (run_finalize id sp s5) as (s6 & R6 & S6 & M6 & U6).
    + exact (eq_trans (F6 id) P).
    + rewrite (Rows s5 F1). rewrite <- (Rows s1 eq_refl). intros Z. apply (proj1 (milestone_rows_nil id s1)) with (k := key) in Z.
      cbn [s1 milestones set_field] in Z. rewrite M in Z. unfold gated_table in Z. revert Z. destruct passed; [rewrite lookup_opened |]; now rewrite lookup_insert_eq.
    + rewrite run_try, R6, run_ret. exists sc, s5, s6. split_and!; [exact E | | | | |].
      * unfold outcome_of. fold passed. rewrite (Rows s6) by (now rewrite M6). reflexivity.
      * rewrite M6. exact (eq_trans F1 M).
      * rewrite U6. exact F2.
      * now rewrite M6.
      * rewrite S6. f_equal. exact F4.
  - rewrite !run_ret. exists sc, s5, s5. split_and!; [exact E | | exact (eq_trans F1 M) | exact F2 | reflexivity | rewrite app_nil_r; exact F4].
    unfold outcome_of. fold passed. now rewrite (Rows s5 F1).
Qed.
Definition workable (st : MilestoneStatus) : bool :=
  match st with OPEN | M_SUBMITTED | GATED_FAIL => true | LOCKED | GATED_PASS => false end.

Lemma stamp_new id key n passed sc row l :
  is_submission id key n row = true ->
  (forall x, x ∈ l -> sub_attempt_id x = id -> sub_milestone_key x = key -> (sub_attempt_number x < n)%nat) ->
  (fun x => if is_submission id key n x then stamp passed sc x else x) <$> (l ++ [row]) = l ++ [stamp passed sc row].
Proof.
  intros R L. rewrite fmap_app. f_equal; [|cbn; now rewrite R].
  rewrite <- (list_fmap_id l) at 2. apply list_fmap_ext. intros i x E. apply list_elem_of_lookup_2 in E.
  destruct (is_submission id key n x) eqn:B; [|easy]. unfold is_submission in B.
  apply andb_true_iff in B as [[I%Nat.eqb_eq K%bool_decide_eq_true]%andb_true_iff J%Nat.eqb_eq].
  specialize (L x E I K). lia.
Qed.

Lemma gated_table_at id key passed sc col clock r m :
  gated_table id key passed sc col clock r m !! (id, key) = Some (gated_row passed sc col clock r).
Proof.
  unfold gated_table. destruct passed; [rewrite lookup_opened |]; rewrite lookup_insert_eq; [|easy].
  cbn [fmap option_fmap option_map]. unfold open_at. rewrite (bool_decide_false (ms_status _ = LOCKED)) by (cbn; easy).
  now rewrite andb_false_r.
Qed.
Lemma gated_table_other id key passed sc col clock r m k : k <> (id, key) ->
  gated_table id key passed sc col clock r m !! k =
  if passed then open_at id (ms_ordinal r + 1) k <$> m !! k else m !! k.
Proof. intros N. unfold gated_table. destruct passed; [rewrite lookup_opened |]; now rewrite lookup_insert_ne. Qed.
(** The milestone table after a submission, however it ended. *)
Lemma submit_table input s :
  let id := si_attemptId input in let key := si_milestoneKey input in
  let m' := milestones (snd (run (submitMilestone input) s)) in
  m' = milestones s \/
  exists sp r, project_row id s = Some (sp, PROJECT) /\
    (m' = milestones (listed id sp s) \/
     (milestones (listed id sp s) !! (id, key) = Some r /\ workable (ms_status r) = true /\
      let m := <[(id, key) := submitted (now s) r]> (milestones (listed id sp s)) in
      (m' = m \/ exists passed sc col clock, m' = gated_table id key passed sc col clock (submitted (now s) r) m))).
Proof.
  cbn zeta. set (id := si_attemptId input). set (key := si_milestoneKey input).
  destruct (project_row id s) as [[sp md]|] eqn:P; cycle 1.
  { left. unfold submitMilestone. rewrite run_bind. unfold loadMilestoneSpecs. fold id. now rewrite run_bind, run_select, P. }
  destruct (decide (md = PROJECT)) as [->|Nm]; cycle 1.
  { left. unfold submitMilestone. rewrite run_bind. unfold loadMilestoneSpecs. fold id.
    rewrite run_bind, run_select, P. now rewrite bool_decide_false. }
  destruct (find_spec (specs_of sp) key) as [spec|] eqn:F; cycle 1.
  { left. unfold submitMilestone. fold id key. now rewrite run_bind, (run_load id sp s P), run_bind, F. }
  right. exists sp. pose proof (run_submit input s sp spec P F) as R. cbn zeta in R. fold id key in R.
  destruct (listed_same id sp s) as (A1 & A2 & A3 & _ & _).
  assert (P1 : project_row id (listed id sp s) = Some (sp, PROJECT)) by (rewrite (project_row_same id s); easy).
  set (s1 := listed id sp s) in *. rewrite R. clear R.
  destruct (milestones s1 !! (id, key)) as [r|] eqn:L; [|exists (seeded_row (mkSeedMilestoneInput key 0 OPEN)); split; [easy | now left]].
  exists r. split; [easy |].
  destruct (workable (ms_status r)) eqn:W; [|left; now destruct (ms_status r)].
  right. split; [easy |]. split; [easy |].
  replace (match ms_status r with LOCKED => _ | GATED_PASS => _ | _ => _ end) with (run (gate_milestone input spec) s1)
    by (now destruct (ms_status r)).
  destruct (run_gate input s1 sp spec r P1 L) as (repo & commit & summary & s2 & _ & _ & M2 & _ & _ & _ & P2 & G).
  rewrite G, <- A3. fold id key in M2. destruct (rubric_answer _ _) as [e|[level prov]]; [now left |]. cbn [fst snd].
  assert (L2 : milestones s2 !! (id, key) = Some (submitted (now s1) r)) by (rewrite M2; apply lookup_insert_eq).
  pose proof (run_conclude_milestone input s2 sp spec (S (ms_attempt_count r)) summary level prov _ P2 L2) as C.
  destruct (rubric_column level) as [e|col]; [left; now rewrite C |].
  destruct C as (sc & s3 & s' & _ & C & M & _). rewrite C. right. eexists _, _, _, _. cbn [snd]. rewrite <- M2. exact M.
Qed.
End Submitting.

(** A submission is refused, and nothing is written but the seeds of a first
    listing, when the attempt does not exist or is not a project, the activity
    has no such milestone, or the milestone is LOCKED or has already passed. *)
Theorem submit_refused `{Rounding} `{Executor} `{AiGrading} `{GitHost} `{ProjectOrchestrator} input s :
  let id := si_attemptId input in let key := si_milestoneKey input in
  match project_row id s with
  | None => run (submitMilestone input) s = (inl (BadRequestException "ATTEMPT_NOT_FOUND"), s)
  | Some (sp, GUIDED_LAB) | Some (sp, PRODUCTION_SIM) =>
      run (submitMilestone input) s = (inl (BadRequestException "NOT_A_PROJECT"), s)
  | Some (sp, PROJECT) =>
      match find_spec (specs_of sp) key with
      | None => run (submitMilestone input) s = (inl NotFoundException, s)
      | Some _ =>
          let s1 := listed id sp s in
          match ms_status <$> milestones s1 !! (id, key) with
          | None => run (submitMilestone input) s = (inl NotFoundException, s1)
          | Some LOCKED => run (submitMilestone input) s = (inl (BadRequestException "MILESTONE_LOCKED"), s1)
          | Some GATED_PASS => run (submitMilestone input) s = (inl (BadRequestException "MILESTONE_ALREADY_PASSED"), s1)
          | Some _ => exists n, run (gate_milestone input n) s1 = run (submitMilestone input) s
          end
      end
  end.
Proof.
  cbn zeta. destruct (project_row _ s) as [[sp m]|] eqn:P.
  - destruct m; [unfold submitMilestone; rewrite run_bind; unfold loadMilestoneSpecs; now rewrite run_bind, run_select, P.. |].
    destruct (find_spec _ _) as [spec|] eqn:F.
    + pose proof (run_submit input s sp spec P F) as R. cbn zeta in R. rewrite R.
      destruct (milestones _ !! _) as [r|]; cbn [fmap option_fmap option_map]; [|reflexivity].
      destruct (ms_status r); try reflexivity; now exists spec.
    + unfold submitMilestone. now rewrite run_bind, (run_load _ sp s P), run_bind, F.
  - unfold submitMilestone. rewrite run_bind. unfold loadMilestoneSpecs. now rewrite run_bind, run_select, P.
Qed.

(** C7: An admitted submission validates exactly the tasks the milestone names and
    asks the rubric when its gate does.  A graded gate that passes marks the
    milestone GATED_PASS and opens the next one if it is LOCKED; one that fails
    marks it GATED_FAIL; score, level and number of tries are stored, no other
    milestone changes, and the submission is recorded with its outcome.  When
    the grader fails or gives a level the column refuses, the submission fails
    and the milestone is left SUBMITTED. *)
Theorem submit_gates `{Rounding} `{Executor} `{AiGrading} `{GitHost} `{ProjectOrchestrator} input s sp spec r :
  let id := si_attemptId input in let key := si_milestoneKey input in let s1 := listed id sp s in
  project_row id s = Some (sp, PROJECT) -> find_spec (specs_of sp) key = Some spec ->
  milestones s1 !! (id, key) = Some r -> workable (ms_status r) = true ->
  (forall x, x ∈ submissions s -> sub_attempt_id x = id -> sub_milestone_key x = key -> (sub_attempt_number x <= ms_attempt_count r)%nat) ->
  exists summary, tv_taskKey <$> summary = gated_tasks spec sp /\
  match rubric_answer spec (si_designText input) with
  | inl e => exists s', run (submitMilestone input) s = (inl e, s') /\ milestones s' = <[(id, key) := submitted (now s) r]> (milestones s1)
  | inr (level, prov) =>
      match rubric_column level with
      | inl e => exists s', run (submitMilestone input) s = (inl e, s') /\ milestones s' = <[(id, key) := submitted (now s) r]> (milestones s1)
      | inr col => exists sc row r' s',
          let passed := gate_passed spec summary level in
          run (submitMilestone input) s =
            (inr (outcome_of spec key summary level prov (if passed then next_opened (milestone_rows id s') key else None)), s') /\
          numeric 5 4 (computeMilestoneScore spec summary level) = Some sc /\
          (milestones s' !! (id, key) = Some r' /\ ms_status r' = (if passed then GATED_PASS else GATED_FAIL) /\
           ms_score r' = Some sc /\ ms_rubric_level r' = col /\ ms_attempt_count r' = S (ms_attempt_count r) /\ ms_ordinal r' = ms_ordinal r) /\
          (forall k, k <> (id, key) -> milestones s' !! k =
             if passed then open_at id (ms_ordinal r + 1) k <$> milestones s1 !! k else milestones s1 !! k) /\
          submissions s' = submissions s ++ [row] /\ sub_milestone_key row = key /\ sub_attempt_number row = S (ms_attempt_count r) /\
          sub_outcome row = Some (ms_status r') /\ sub_score row = Some sc
      end
  end.
Proof.
  cbn zeta. set (id := si_attemptId input). set (key := si_milestoneKey input). intros P F L W N.
  destruct (listed_same id sp s) as (A1 & A2 & A3 & A4 & A5). set (s1 := listed id sp s) in *.
  assert (P1 : project_row id s1 = Some (sp, PROJECT)) by (rewrite (project_row_same id s s1); easy).
  assert (R : run (submitMilestone input) s = run (gate_milestone input spec) s1).
  { pose proof (run_submit input s sp spec P F) as R. cbn zeta in R. fold id key s1 in R. rewrite R, L. now destruct (ms_status r). }
  rewrite R. destruct (run_gate input s1 sp spec r P1 L) as (repo & commit & summary & s2 & K & _ & M2 & U2 & S2 & N2 & P2 & G).
  exists summary. split; [exact K |]. rewrite G. rewrite A3 in M2.
  destruct (rubric_answer spec (si_designText input)) as [e|[level prov]]; [now exists s2 |]. cbn [fst snd].
  assert (L2 : milestones s2 !! (id, key) = Some (submitted (now s) r)) by (rewrite M2; apply lookup_insert_eq).
  pose proof (run_conclude_milestone input s2 sp spec (S (ms_attempt_count r)) summary level prov _ P2 L2) as C.
  destruct (rubric_column level) as [e|col]; [now exists s2 |].
  destruct C as (sc & s3 & s' & E & C & M & U & _ & _). fold id key in C, M, U.
  eexists sc, _, _, s'. rewrite C. split; [reflexivity |]. split; [exact E |]. split; [|split].
  - rewrite M, gated_table_at. split_and!; try reflexivity.
  - intros k Nk. rewrite M, gated_table_other by exact Nk. now rewrite M2, lookup_insert_ne by (intros Z; now apply Nk).
  - rewrite U, U2, A4. rewrite stamp_new; [split_and!; try reflexivity; now destruct (gate_passed _ _ _) | | ].
    + unfold is_submission. cbn. rewrite !Nat.eqb_refl. now rewrite bool_decide_true.
    + intros x Ix I1 I2. specialize (N x Ix I1 I2). lia.
Qed.

(** ** The order milestones are worked in *)

(** The milestones of [id] have distinct positions; those before some position
    have passed, the one there can be worked on, those after it are LOCKED. *)
Definition in_order (id : Id) (m : gmap (Id * MilestoneKey) MilestoneState) : Prop :=
  (forall k k' r r', m !! (id, k) = Some r -> m !! (id, k') = Some r' -> ms_ordinal r = ms_ordinal r' -> k = k') /\
  exists n, forall k r, m !! (id, k) = Some r ->
    ((ms_ordinal r < n)%nat -> ms_status r = GATED_PASS) /\
    (ms_ordinal r = n -> workable (ms_status r) = true) /\
    ((n < ms_ordinal r)%nat -> ms_status r = LOCKED).

Section InOrder.
Variable id : Id.

Lemma in_order_listed sp s : in_order id (milestones s) -> in_order id (milestones (listed id sp s)).
Proof.
  intros O. unfold listed. destruct (milestone_rows id s) as [|x l] eqn:E; [|exact O].
  assert (N : forall k, milestones s !! (id, k) = None) by now apply milestone_rows_nil.
  assert (F : forall k r, milestones (seeded id sp s) !! (id, k) = Some r -> exists i m,
    specs_of sp !! i = Some m /\ ps_key m = k /\ ms_ordinal r = i /\ ms_status r = if Nat.eqb i 0 then OPEN else LOCKED).
  { intros k r L. unfold seeded in L. cbn [milestones set_field] in L. rewrite seed_lookup, N, Nat.eqb_refl in L.
    destruct (List.find _ _) as [x|] eqn:Fx; [|easy]. injection L as <-.
    apply find_some in Fx as [I B]. apply bool_decide_eq_true in B. apply list_elem_of_In, elem_of_lookup_imap in I as (i & m & -> & Em).
    exists i, m. now subst k. }
  split.
  - intros k k' r r' L L' Eo. apply F in L as (i & m & Em & <- & Oi & _). apply F in L' as (j & m' & Em' & <- & Oj & _).
    assert (i = j) as -> by congruence. congruence.
  - exists 0%nat. intros k r L. apply F in L as (i & m & _ & _ & Oi & St). rewrite Oi, St.
    split_and!; [lia | intros ->; reflexivity | destruct i; [lia | easy]].
Qed.

(** Replacing the workable milestone by a workable one. *)
Lemma in_order_rework m k r r' : in_order id m -> m !! (id, k) = Some r -> workable (ms_status r) = true ->
  workable (ms_status r') = true -> ms_ordinal r' = ms_ordinal r -> in_order id (<[(id, k) := r']> m).
Proof.
  intros [U [n O]] L W W' Eo. split.
  - intros k1 k2 r1 r2 L1 L2 E. apply (U k1 k2 (if decide (k1 = k) then r else r1) (if decide (k2 = k) then r else r2));
      (destruct (decide (k1 = k)) as [->|]; [rewrite lookup_insert_eq in L1; injection L1 as <- | rewrite lookup_insert_ne in L1 by congruence]);
      (destruct (decide (k2 = k)) as [->|]; [rewrite lookup_insert_eq in L2; injection L2 as <- | rewrite lookup_insert_ne in L2 by congruence]);
      try assumption; congruence.
  - exists n. intros k1 r1 L1. destruct (decide (k1 = k)) as [->|]; [|rewrite lookup_insert_ne in L1 by congruence; now apply O with k1].
    rewrite lookup_insert_eq in L1. injection L1 as <-. destruct (O k r L) as (A & B & C). rewrite Eo. split_and!.
    + intros H. rewrite (A H) in W. easy.
    + easy.
    + intros H. rewrite (C H) in W. easy.
Qed.

Lemma in_order_gated m k r passed sc col clock : in_order id m -> m !! (id, k) = Some r -> workable (ms_status r) = true ->
  in_order id (gated_table id k passed sc col clock r m).
Proof.
  intros O L W. destruct passed; [|now apply (in_order_rework m k r)]. destruct O as [U [n O]].
  assert (F : forall k1 r1, gated_table id k true sc col clock r m !! (id, k1) = Some r1 -> exists r0, m !! (id, k1) = Some r0 /\
    ms_ordinal r1 = ms_ordinal r0 /\ ms_status r1 = if decide (k1 = k) then GATED_PASS else ms_status (open_at id (ms_ordinal r + 1) (id, k1) r0)).
  { intros k1 r1 L1. destruct (decide (k1 = k)) as [->|Nk].
    - rewrite gated_table_at in L1. injection L1 as <-. now exists r.
    - rewrite gated_table_other in L1 by congruence. destruct (m !! (id, k1)) as [r0|]; [|easy]. injection L1 as <-.
      exists r0. split_and!; try easy. unfold open_at. now destruct (_ && _ && _). }
  assert (Nr : ms_ordinal r = n).
  { destruct (O k r L) as (A & B & C). destruct (Nat.lt_trichotomy (ms_ordinal r) n) as [H|[H|H]]; [|exact H|].
    - rewrite (A H) in W. easy.
    - rewrite (C H) in W. easy. }
  split.
  - intros k1 k2 r1 r2 L1 L2 E. apply F in L1 as (r1' & L1 & E1 & _). apply F in L2 as (r2' & L2 & E2 & _).
    apply (U k1 k2 r1' r2'); congruence.
  - exists (S n). intros k1 r1 L1. apply F in L1 as (r0 & L1 & -> & St). destruct (O k1 r0 L1) as (A & B & C). rewrite St.
    destruct (decide (k1 = k)) as [->|Nk].
    + assert (r0 = r) as -> by congruence. split_and!; intros; [easy | lia | lia].
    + assert (Ne : ms_ordinal r0 <> n) by (intros En; apply Nk, (U k1 k r0 r); congruence).
      unfold open_at. cbn [fst]. rewrite Nat.eqb_refl, Nr, Nat.add_1_r. split_and!; intros H.
      * rewrite (proj2 (Nat.eqb_neq _ _)) by lia. cbn. apply A. lia.
      * rewrite H, Nat.eqb_refl. rewrite bool_decide_true by (apply C; lia). reflexivity.
      * rewrite (proj2 (Nat.eqb_neq _ _)) by lia. cbn. apply C. lia.
Qed.
End InOrder.

(** Whatever is submitted, however the validators and the grader answer, and
    whether the submission succeeds or fails half-way, the milestones of a
    project stay in order: all before some position have passed, the one there
    is open, submitted or failed, and all later ones are LOCKED (requests of an
    attempt handled one after the other; [submission_race] interleaves them). *)
Theorem milestones_in_order `{Rounding} `{Executor} `{AiGrading} `{GitHost} `{ProjectOrchestrator} input s :
  in_order (si_attemptId input) (milestones s) ->
  in_order (si_attemptId input) (milestones (snd (run (submitMilestone input) s))).
Proof.
  set (id := si_attemptId input). intros O.
  destruct (submit_table input s) as [E | (sp & r & P & [E | (L & W & [E | (passed & sc & col & clock & E)])])];
    fold id in E; rewrite E; [exact O | now apply in_order_listed | |].
  - apply (in_order_rework id _ _ r); [now apply in_order_listed | exact L | exact W | easy | easy].
  - apply in_order_gated; [|apply lookup_insert_eq | easy].
    apply (in_order_rework id _ _ r); [now apply in_order_listed | exact L | exact W | easy | easy].
Qed.

(** Without a rubric file, or without a grade, the gate's level is one the
    rubric_level column refuses: every submission fails with a database error
    and leaves the milestone SUBMITTED, with one more try. *)
Theorem missing_rubric `{Rounding} `{Executor} `{AiGrading} `{GitHost} `{ProjectOrchestrator} input s sp spec r :
  let id := si_attemptId input in let key := si_milestoneKey input in let s1 := listed id sp s in
  project_row id s = Some (sp, PROJECT) -> find_spec (specs_of sp) key = Some spec ->
  milestones s1 !! (id, key) = Some r -> workable (ms_status r) = true -> ai_gate (ps_gate spec) = true ->
  truthy_key (ps_rubric spec) ≫= getRubric = None ->
  exists s', run (submitMilestone input) s = (inl (DbError "rubric_level"), s') /\
    milestones s' = <[(id, key) := submitted (now s) r]> (milestones s1).
Proof.
  cbn zeta. intros P F L W G N. destruct (listed_same (si_attemptId input) sp s) as (A1 & A2 & A3 & _).
  set (s1 := listed (si_attemptId input) sp s) in *.
  assert (P1 : project_row (si_attemptId input) s1 = Some (sp, PROJECT)) by (rewrite (project_row_same _ s s1); easy).
  pose proof (run_submit input s sp spec P F) as R. cbn zeta in R. fold s1 in R. rewrite L in R.
  destruct (run_gate input s1 sp spec r P1 L) as (repo & commit & summary & s2 & _ & _ & M2 & _ & _ & _ & P2 & E).
  exists s2. split; [|rewrite M2, A3; reflexivity].
  assert (An : rubric_answer spec (si_designText input) = inr (Some (Level 0), true))
    by (unfold rubric_answer, grade_rubric; now rewrite G, N).
  rewrite An in E. cbn [fst snd] in E.
  assert (L2 : milestones s2 !! (si_attemptId input, si_milestoneKey input) = Some (submitted (now s1) r)) by (rewrite M2; apply lookup_insert_eq).
  pose proof (run_conclude_milestone input s2 sp spec (S (ms_attempt_count r)) summary (Some (Level 0)) true _ P2 L2) as C.
  cbn [rubric_column] in C. rewrite R. destruct (ms_status r); try discriminate W; now rewrite E, C.
Qed.

(** A milestone none of whose task keys names a task of the activity passes a
    validator gate with full marks, and nothing is validated. *)
Lemma unmatched_tasks_pass `{Rounding} spec sp summary level :
  ps_gate spec = ALL_VALIDATORS_PASS -> milestone_tasks spec sp = [] -> tv_taskKey <$> summary = gated_tasks spec sp ->
  gate_passed spec summary level = true /\ computeMilestoneScore spec summary level == 1.
Proof.
  intros G N K. assert (summary = []) as -> by (unfold gated_tasks in K; rewrite N in K; destruct (ps_taskKeys spec); now apply fmap_nil_inv in K).
  unfold gate_passed, computeMilestoneScore, validators_pass. rewrite G. split; [now destruct (ps_taskKeys spec) | apply round4_1].
Qed.

(** ** A project with the canonical milestones *)
Module Proj.
Definition attempt : Attempt :=
  mkAttempt 1 7 3 4 PROJECT IN_PROGRESS None 0 [] None None 0 (Some 0%Z) None None None 0 0 0 1 None None.
Definition spec : ActivitySpec := mkActivitySpec None None None None None None None None None None.
Definition store : Store :=
  empty_store <| now := 5000%Z |>
    <| versions := {[ 4%nat := mkActivityVersion 3 1 V_PUBLISHED spec None None None None None None None None ]} |>
    <| attempts := {[ 9%nat := attempt ]} |>.
Definition no_executor : Executor := {| executor_execute _ _ _ _ := None |}.
Definition no_orchestrator : ProjectOrchestrator :=
  {| port_provisionForMilestone _ _ _ := inl RemoteError; port_snapshotAndSuspend _ _ _ := inl RemoteError |}.
(** Grades the text "good" at level 4 and every other at level 2. *)
Definition grader : AiGrading :=
  {| getRubric id := Some (mkRubric id 1 "INCIDENT_NOTE" [] [] "ALWAYS_PROVISIONAL_UNTIL_CALIBRATED");
     grader_grade r facts := inr (mkGradingResult (rb_id r)
       [mkCriterionGrade "overall" (if String.eqb (gf_artifactText facts) "good" then 4 else 2) 1 [] "" []] true None) |}.
Definition submit (key : MilestoneKey) (text : string) : SubmitMilestoneInput := mkSubmitMilestoneInput 9 key (Some text) None.
Definition submission := @submitMilestone binary64 no_executor grader no_git no_orchestrator.
Definition design_row : MilestoneState := mkMilestoneState OPEN 0 None None None None 0.
Definition design_spec : MilestoneSpec := canonical_spec design.
End Proj.

Lemma listing_witness :
  milestones (listed 9 Proj.spec Proj.store) !! (9%nat, infra) = Some (mkMilestoneState LOCKED 1 None None None None 0).
Proof.
  destruct (listing 9 Proj.spec Proj.store eq_refl) as (_ & _ & _ & F).
  apply (F (fun key => eq_refl) 1%nat (canonical_spec infra)); [reflexivity |].
  intros [|j] m' L E; [injection E as <-; discriminate | lia].
Defined.

Lemma submit_gates_witness :
  exists row s', run (Proj.submission (Proj.submit design "good")) Proj.store =
    (inr (@outcome_of binary64 Proj.design_spec design [] (Some (Level 4)) true (next_opened (milestone_rows 9 s') design)), s') /\
    submissions s' = [row] /\ sub_outcome row = Some GATED_PASS /\
    (exists r, milestones s' !! (9%nat, infra) = Some r /\ ms_status r = OPEN).
Proof.
  destruct (@submit_gates binary64 Proj.no_executor Proj.grader no_git Proj.no_orchestrator (Proj.submit design "good") Proj.store
    Proj.spec Proj.design_spec Proj.design_row eq_refl eq_refl eq_refl eq_refl) as (summary & K & sc & row & r' & s' & R & _ & (_ & St & _) & O & U & _ & _ & Out & _).
  - intros x I. now apply elem_of_nil in I.
  - apply fmap_nil_inv in K as ->. exists row, s'. split; [exact R |]. split; [exact U |]. split; [rewrite Out; f_equal; exact St |].
    specialize (O (9%nat, infra) ltac:(discriminate)). eexists. split; [exact O | reflexivity].
Defined.

Lemma milestones_in_order_witness :
  in_order 9 (milestones (snd (run (Proj.submission (Proj.submit design "bad")) Proj.store))).
Proof.
  apply (@milestones_in_order binary64 Proj.no_executor Proj.grader no_git Proj.no_orchestrator (Proj.submit design "bad") Proj.store).
  split; [intros k k' r r' L; discriminate L | exists 0%nat; intros k r L; discriminate L].
Defined.
