(* ===== verification/ProjectPool.v ===== *)
(** * Concurrent project requests

    Every interleaving of milestone submissions, listings and viva messages is
    a run of an abstract milestone machine, [mstep]; and what interleaving
    breaks: two submissions of one milestone can leave an earlier milestone
    failed while a later one is open. *)
From stdpp Require Import sorting.
From S2P Require Import Prelude JsNum Binary64 Effects Schema AttemptStatus EventStore Bkt Mastery AttemptRepository Criteria ValidatorRunner Artifact Evaluation AttemptService ProjectScoring ProjectRepository Defence Project ProjectLaws.

Abbreviation MilestoneTable := (gmap (Id * MilestoneKey) MilestoneState) (only parsing).

(** ** The abstract machine *)
Inductive mstep : relation MilestoneTable :=
  | mstep_seed id l m :
      (forall x, x ∈ l -> sm_status x = if Nat.eqb (sm_ordinal x) 0 then OPEN else LOCKED) ->
      mstep m (fold_left (seed_row id) l m)
  | mstep_submit id k r clock m :
      m !! (id, k) = Some r -> ms_status r <> LOCKED -> mstep m (<[(id, k) := submitted clock r]> m)
  | mstep_gate id k r passed sc col clock m :
      m !! (id, k) = Some r -> ms_status r <> LOCKED -> mstep m (gated_table id k passed sc col clock r m).

(** A row that stays where it is, is never locked again and never loses a try
    or a grading. *)
Record row_grows (r r' : MilestoneState) : Prop := mkRowGrows {
  rg_ordinal : ms_ordinal r' = ms_ordinal r; rg_unlocked : ms_status r <> LOCKED -> ms_status r' <> LOCKED;
  rg_tries : (ms_attempt_count r <= ms_attempt_count r')%nat; rg_gated : is_Some (ms_gated_at r) -> is_Some (ms_gated_at r') }.
#[export] Instance row_grows_preorder : PreOrder row_grows.
Proof. split; [now constructor | intros r1 r2 r3 [] []; constructor; (congruence || lia || auto)]. Qed.
Definition table_grows (m m' : MilestoneTable) : Prop :=
  forall k r, m !! k = Some r -> exists r', m' !! k = Some r' /\ row_grows r r'.
#[export] Instance table_grows_preorder : PreOrder table_grows.
Proof.
  split; [intros m k r L; now exists r |]. intros m1 m2 m3 G1 G2 k r L.
  destruct (G1 k r L) as (r' & L' & G). destruct (G2 k r' L') as (r2 & L2 & G'). exists r2. split; [easy | exact (transitivity G G')].
Qed.

(** A milestone is only worked on when it is the first or the one before it was graded. *)
Definition unlocked_ok (m : MilestoneTable) : Prop := forall id k r, m !! (id, k) = Some r -> ms_status r <> LOCKED ->
  ms_ordinal r = 0%nat \/ exists k' r', m !! (id, k') = Some r' /\ S (ms_ordinal r') = ms_ordinal r /\ is_Some (ms_gated_at r').

Lemma open_at_grows id n k r : row_grows r (open_at id n k r).
Proof. unfold open_at. destruct (_ && _ && _); [|reflexivity]. constructor; cbn; try easy; lia. Qed.

Lemma gated_table_inv id k r passed sc col clock m k1 r1 : m !! (id, k) = Some r ->
  gated_table id k passed sc col clock r m !! k1 = Some r1 ->
  exists r0, m !! k1 = Some r0 /\ row_grows r0 r1 /\
    (ms_status r1 <> LOCKED -> ms_status r0 <> LOCKED \/ k1 = (id, k) \/ (k1.1 = id /\ ms_ordinal r0 = S (ms_ordinal r))).
Proof.
  intros L. destruct (decide (k1 = (id, k))) as [->|N].
  - rewrite gated_table_at. intros [= <-]. exists r. split; [exact L |]. split; [|intros _; right; now left].
    constructor; cbn; try easy. now destruct passed.
  - rewrite gated_table_other by exact N. destruct passed; [|intros L1; exists r1; split; [easy | split; [reflexivity | auto]]].
    destruct (m !! k1) as [r0|]; [|easy]. intros [= <-]. exists r0. split; [easy |]. split; [apply open_at_grows |].
    unfold open_at. destruct (Nat.eqb_spec k1.1 id), (Nat.eqb_spec (ms_ordinal r0) (ms_ordinal r + 1)); cbn; try (now left).
    intros _. right. right. split; [easy | lia].
Qed.

Lemma mstep_grows m m' : mstep m m' -> table_grows m m'.
Proof.
  intros [id l t _ | id k r clock t L N | id k r passed sc col clock t L N] [i k'] r' L'.
  - exists r'. now rewrite seed_lookup, L'.
  - destruct (decide ((i, k') = (id, k))) as [[= -> ->]|D]; [|exists r'; now rewrite lookup_insert_ne].
    rewrite lookup_insert_eq. assert (r' = r) as -> by congruence. eexists. split; [reflexivity |]. constructor; cbn; (easy || lia).
  - destruct (decide ((i, k') = (id, k))) as [[= -> ->]|D].
    + rewrite gated_table_at. assert (r' = r) as -> by congruence. eexists. split; [reflexivity |]. constructor; cbn; try easy. now destruct passed.
    + rewrite gated_table_other, L' by exact D. destruct passed; cbn; eexists; (split; [reflexivity |]); [apply open_at_grows | reflexivity].
Qed.

Lemma unlocked_grows m m' id k r : table_grows m m' -> m !! (id, k) = Some r -> is_Some (ms_gated_at r) ->
  exists k' r', m' !! (id, k') = Some r' /\ ms_ordinal r' = ms_ordinal r /\ is_Some (ms_gated_at r').
Proof. intros G L S. destruct (G _ _ L) as (r' & L' & [O _ _ Gt]). exists k, r'. auto. Qed.

Lemma mstep_unlocked m m' : mstep m m' -> unlocked_ok m -> unlocked_ok m'.
Proof.
  intros S U. pose proof (mstep_grows m m' S) as G.
  assert (Old : forall id k r0 r, m !! (id, k) = Some r0 -> ms_status r0 <> LOCKED -> ms_ordinal r = ms_ordinal r0 ->
    ms_ordinal r = 0%nat \/ exists k' r', m' !! (id, k') = Some r' /\ Datatypes.S (ms_ordinal r') = ms_ordinal r /\ is_Some (ms_gated_at r')).
  { intros id k r0 r L N ->. destruct (U id k r0 L N) as [Z|(k' & r' & L' & E & Gt)]; [now left | right].
    destruct (unlocked_grows _ _ _ _ _ G L' Gt) as (k2 & r2 & L2 & E2 & G2). exists k2, r2. split; [easy |]. split; [lia | easy]. }
  intros i k1 r1 L1 N1. destruct S as [id l m Sd | id k r clock m L N | id k r passed sc col clock m L N].
  - rewrite seed_lookup in L1. destruct (m !! (i, k1)) as [r0|] eqn:L0; [injection L1 as ->; now apply (Old i k1 r1)|].
    destruct (Nat.eqb i id); [|easy]. destruct (List.find _ l) as [x|] eqn:F; [|easy]. injection L1 as <-.
    apply find_some in F as [I _]. apply list_elem_of_In, Sd in I. cbn in *. rewrite I in N1. left.
    now destruct (Nat.eqb_spec (sm_ordinal x) 0).
  - destruct (decide ((i, k1) = (id, k))) as [[= -> ->]|D].
    + rewrite lookup_insert_eq in L1. injection L1 as <-. now apply (Old id k r).
    + rewrite lookup_insert_ne in L1 by congruence. now apply (Old i k1 r1).
  - destruct (gated_table_inv id k r passed sc col clock m (i, k1) r1 L L1) as (r0 & L0 & [O _ _ _] & Why).
    destruct (Why N1) as [N0|[[= -> ->]|[Ei Eo]]]; [now apply (Old i k1 r0) | |].
    + apply (Old id k r r1 L N). assert (r0 = r) by congruence. congruence.
    + cbn in Ei. subst i. right. exists k, (gated_row passed sc col clock r). rewrite gated_table_at.
      split; [easy |]. split; [cbn; lia | now exists clock].
Qed.

(** ** The relation every action of a handler keeps *)
Definition no_repo (s : Store) : Prop := forall x, x ∈ submissions s -> has_repo x = false.
Record project_evolves (s s' : Store) : Prop := mkProjectEvolves {
  pe_machine : rtc mstep (milestones s) (milestones s'); pe_repo : no_repo s <-> no_repo s' }.
#[export] Instance project_evolves_preorder : PreOrder project_evolves.
Proof. split; [now constructor | intros s1 s2 s3 [A B] [C D]; constructor; [exact (transitivity A C) | now rewrite B]]. Qed.

Lemma frame_evolves_project s s' : milestones s' = milestones s -> submissions s' = submissions s -> project_evolves s s'.
Proof. intros M U. constructor; [now rewrite M | unfold no_repo; now rewrite U]. Qed.
Lemma project_frame_evolves s s' : project_frame s s' -> project_evolves s s'.
Proof. intros []. now apply frame_evolves_project. Qed.
Lemma append_project_evolves id actor ty payload : preserves project_evolves (appendTypedEvent id actor ty payload).
Proof. eapply preserves_weaken; [exact project_frame_evolves | apply append_project_frame]. Qed.
#[export] Hint Resolve append_project_evolves : preserves.

Lemma rtc_grows m m' : rtc mstep m m' -> table_grows m m'.
Proof. induction 1 as [|m1 m2 m3 S _ IH]; [reflexivity |]. exact (transitivity (mstep_grows _ _ S) IH). Qed.

(** The milestone may be worked on; other handlers cannot change that. *)
Definition unlocked (id : Id) (key : MilestoneKey) (s : Store) : Prop :=
  exists r, milestones s !! (id, key) = Some r /\ ms_status r <> LOCKED.
Lemma unlocked_stable id key s s' : project_evolves s s' -> unlocked id key s -> unlocked id key s'.
Proof. intros [M _] (r & L & N). destruct (rtc_grows _ _ M _ _ L) as (r' & L' & G). exists r'. split; [easy |]. now apply G. Qed.

(** ** Every handler keeps it *)
(** Steps over a part of a handler whose guarantee is known. *)
Tactic Notation "guarantee" tactic3(t) := apply guaranteed_bind; [typeclasses eauto |]; eapply guaranteed_mono; [typeclasses eauto | t |].

Inductive ProjectRequest :=
  | PList (attemptId : Id) | PSubmit (input : SubmitMilestoneInput)
  | PStartViva (attemptId : Id) | PMessage (attemptId : Id) (role : VivaRole) (text : string).

Section Pool.
Context `{Rounding} `{Executor} `{AiGrading} `{GitHost} `{VivaModel} `{ProjectOrchestrator}.

Lemma seeds_shape specs x : x ∈ seeds specs -> sm_status x = if Nat.eqb (sm_ordinal x) 0 then OPEN else LOCKED.
Proof. intros (i & m & -> & _)%elem_of_lookup_imap. reflexivity. Qed.

Lemma list_preserves n id : preserves project_evolves (listMilestones_upto n id).
Proof.
  induction n as [|n IH]; [exact I |]. cbn [listMilestones_upto]. unfold loadMilestoneSpecs, list_milestone_rows, seedMilestones, projectError.
  preserves; try exact IH.
  apply preserves_execute. intros s. constructor; [|easy]. apply rtc_once. cbn [milestones set_field].
  constructor. intros x. apply seeds_shape.
Qed.

Lemma env_preserves id spec passed : preserves project_evolves (applyEnvLifecycle id spec passed).
Proof. eapply preserves_weaken; [exact project_frame_evolves | apply applyEnvLifecycle_frame]. Qed.

Lemma finalize_preserves id : preserves project_evolves (finalizeProjectScore id).
Proof.
  unfold finalizeProjectScore, loadMilestoneSpecs, defenceComponentScore, projectError. preserves.
  - apply list_preserves.
  - apply preserves_act. intros s u s'. destruct (to_numeric 5 4 _); intros [= <- <-]. now apply frame_evolves_project.
Qed.

Lemma stamp_preserves id key n passed sc : preserves project_evolves (stampSubmissionOutcome id key n passed sc).
Proof.
  apply preserves_act. intros s u s'. destruct (to_numeric 5 4 _) as [|v]; intros [= <- <-]. constructor; [reflexivity |].
  unfold no_repo. cbn [submissions set_field].
  assert (G : forall x, has_repo (if is_submission id key n x then stamp passed v x else x) = has_repo x) by (intros x; now destruct (is_submission _ _ _ x)).
  split.
  - intros N x (y & -> & I)%list_elem_of_fmap. rewrite G. now apply N.
  - intros N x I. rewrite <- G. apply N. apply list_elem_of_fmap. now exists x.
Qed.

Lemma validators_preserves id spec : preserves project_evolves (runMilestoneValidators id spec).
Proof.
  unfold runMilestoneValidators. preserves.
  eapply preserves_weaken; [|apply run_validators_frame]. intros s0 s1 F. now apply project_frame_evolves, frame_project.
Qed.

Lemma viva_preserves id : preserves project_evolves (startViva id).
Proof.
  unfold startViva, assertFinalReached, getMilestone, resolveRepoRef, listSubmissions, lift, nextTurn, emitTurn, projectError.
  preserves; apply preserves_execute; intros s0; now apply frame_evolves_project.
Qed.
Lemma message_preserves id role text : preserves project_evolves (postMessage id role text).
Proof.
  unfold postMessage, assertFinalReached, getMilestone, scoreViva, advance, asked_so_far, transcript, resolveRepoRef,
    listSubmissions, lift, nextTurn, emitTurn, projectError.
  preserves. apply preserves_act. intros s0 x s1 [= <- <-].
  destruct (move_of _) as [|st q|]; [reflexivity | now apply frame_evolves_project |].
  destruct (queue_of id s0) as [[st v]|]; [now apply frame_evolves_project | reflexivity].
Qed.

(** A listing reports as workable only what no other handler can lock again. *)
Definition views_hold (id : Id) (views : list MilestoneView) (s : Store) : Prop :=
  forall v, v ∈ views -> mv_status v <> LOCKED -> unlocked id (mv_key v) s.

Lemma list_guaranteed n id s : guaranteed project_evolves (listMilestones_upto n id) (views_hold id) s.
Proof.
  revert s. induction n as [|n IH]; intros s; [exact I |]. cbn [listMilestones_upto].
  apply guaranteed_seq; [typeclasses eauto | unfold loadMilestoneSpecs, projectError; preserves |].
  intros specs s1 _. unfold list_milestone_rows. apply guaranteed_reads; [typeclasses eauto |]. intros s2 _.
  destruct (milestone_rows id s2) as [|x l] eqn:E.
  - apply guaranteed_seq; [typeclasses eauto | unfold loadMilestoneSpecs, projectError; preserves |]. intros specs' s3 _.
    apply guaranteed_seq; [typeclasses eauto | |].
    { apply preserves_execute. intros s4. constructor; [|easy]. apply rtc_once. constructor. intros y. apply seeds_shape. }
    intros _ s4 _. apply guaranteed_seq; [typeclasses eauto | preserves |]. intros _ s5 _.
    apply guaranteed_seq; [typeclasses eauto | apply list_preserves |]. intros _ s6 _. apply IH.
  - intros s3 L. intros v Iv N. rewrite <- E in Iv. apply list_elem_of_fmap in Iv as ([k r] & -> & I).
    apply milestone_rows_spec in I. apply (unlocked_stable id k s2 s3 L). now exists r.
Qed.
Lemma mark_guaranteed id key s : unlocked id key s ->
  guaranteed project_evolves (markSubmitted id key) (fun _ s' => unlocked id key s') s.
Proof.
  intros U s1 L1. destruct (unlocked_stable id key s s1 L1 U) as (r & L & N). rewrite L. split.
  - constructor; [|easy]. apply rtc_once. now apply (mstep_submit id key r (now s1) (milestones s1)).
  - intros s2 L2. apply (unlocked_stable id key _ s2 L2). exists (submitted (now s1) r). split; [apply lookup_insert_eq | discriminate].
Qed.

Lemma gate_guaranteed input s : unlocked (go_attemptId input) (go_milestoneKey input) s ->
  guaranteed project_evolves (applyGateOutcome input) (fun _ _ => True) s.
Proof.
  intros U s1 L1. destruct (unlocked_stable _ _ s s1 L1 U) as (r & L & N). rewrite L.
  destruct (to_numeric 5 4 (go_score input)) as [|sc]; [exact I |]. destruct (rubric_column (go_rubricLevel input)) as [|col]; [exact I |].
  split; [|easy]. constructor; [|easy]. apply rtc_once.
  exact (mstep_gate _ _ r (go_passed input) sc col (now s1) (milestones s1) L N).
Qed.

(** A repository is only recorded when one was recorded before. *)
Lemma record_evolves id key repo commit n s :
  (has_repo (mkProjectSubmission id key repo commit n None None (now s)) = true -> ~ no_repo s) ->
  project_evolves s (s <| submissions ::= fun l => l ++ [mkProjectSubmission id key repo commit n None None (now s)] |>).
Proof.
  intros W. constructor; [reflexivity |]. unfold no_repo in *. cbn [submissions set_field].
  destruct (has_repo _) eqn:B.
  - split; intros N; exfalso; apply (W eq_refl); [exact N | intros x I; apply N; apply elem_of_app; now left].
  - split; intros N x I; [|apply N, elem_of_app; now left].
    apply elem_of_app in I as [I | ->%list_elem_of_singleton]; [now apply N | exact B].
Qed.

Lemma pointer_guaranteed input n s : guaranteed project_evolves (record_pointer input n) (fun _ _ => True) s.
Proof.
  unfold record_pointer, resolveRepoRef, listSubmissions, recordMilestoneSubmission, recordSubmission.
  apply (guaranteed_reads project_evolves). intros s1 _. cbn [bind].
  destruct (List.find has_repo _) as [x|] eqn:F; cbn [fmap option_fmap option_map].
  - assert (Nr : forall s2, project_evolves s1 s2 -> ~ no_repo s2).
    { intros s2 [_ E] N. apply E in N. apply find_some in F as [I B]. apply list_elem_of_In in I.
      unfold submission_rows in I. rewrite merge_sort_Permutation in I. apply list_elem_of_In, filter_In in I as [I _].
      apply list_elem_of_In, N in I. congruence. }
    destruct (truthy_key _); intros s2 L2; (split; [apply record_evolves; intros _; now apply Nr | easy]).
  - intros s2 L2. split; [apply record_evolves; discriminate | easy].
Qed.

Lemma gate_milestone_guaranteed input spec s : unlocked (si_attemptId input) (si_milestoneKey input) s ->
  guaranteed project_evolves (gate_milestone input spec) (fun _ _ => True) s.
Proof.
  intros U. set (id := si_attemptId input) in *. set (key := si_milestoneKey input) in *. unfold gate_milestone. fold id key.
  guarantee (exact (mark_guaranteed id key s U)). intros n s1 _ U1.
  guarantee (exact (pointer_guaranteed input n s1)). intros _ s2 L2 _.
  apply (unlocked_stable id key s1 s2 L2) in U1.
  apply guaranteed_seq; [typeclasses eauto | preserves |]. intros _ s3 L3. apply (unlocked_stable id key s2 s3 L3) in U1.
  apply guaranteed_seq; [typeclasses eauto | apply validators_preserves |]. intros summary s4 L4. apply (unlocked_stable id key s3 s4 L4) in U1.
  apply guaranteed_seq; [typeclasses eauto | unfold run_rubric, gradeMilestoneRubric, lift; preserves |].
  intros [level prov] s5 L5. apply (unlocked_stable id key s4 s5 L5) in U1. unfold conclude_milestone. fold id key.
  guarantee (apply gate_guaranteed; exact U1). intros _ s6 _ _.
  eapply guaranteed_mono; [typeclasses eauto | apply guaranteed_preserves; [typeclasses eauto |] | easy].
  unfold nextOpenedMilestone, list_milestone_rows. preserves; [apply stamp_preserves | apply env_preserves | apply finalize_preserves].
Qed.

Lemma submission_guaranteed input s : guaranteed project_evolves (submitMilestone input) (fun _ _ => True) s.
Proof.
  unfold submitMilestone. apply guaranteed_seq; [typeclasses eauto | unfold loadMilestoneSpecs, projectError; preserves |]. intros specs s1 _.
  apply guaranteed_seq; [typeclasses eauto | preserves |]. intros spec s2 _.
  guarantee (apply list_guaranteed). intros rows s3 _ V.
  destruct (List.find _ rows) as [row|] eqn:F; [|exact I]. cbn [findOrThrow bind].
  apply find_some in F as [I K]. apply list_elem_of_In in I. apply bool_decide_eq_true in K.
  assert (U : mv_status row <> LOCKED -> unlocked (si_attemptId input) (si_milestoneKey input) s3) by (rewrite <- K; now apply V).
  destruct (mv_status row); try exact Logic.I; apply gate_milestone_guaranteed, U; discriminate.
Qed.

(** The handler of a request; its answer is dropped. *)
Definition handle_project (r : ProjectRequest) : prog Store unit :=
  match r with
  | PList id => listMilestones id ;; Ret tt
  | PSubmit input => submitMilestone input ;; Ret tt
  | PStartViva id => startViva id ;; Ret tt
  | PMessage id role text => postMessage id role text ;; Ret tt
  end.
Definition project_request (p : prog Store unit) : Prop := exists r, p = handle_project r.

Lemma handle_project_guaranteed r s : guaranteed project_evolves (handle_project r) (fun _ _ => True) s.
Proof.
  destruct r as [id|input|id|id role text]; cbn [handle_project]; cycle 1;
    [apply guaranteed_bind; [typeclasses eauto |]; eapply guaranteed_mono; [typeclasses eauto | apply submission_guaranteed | easy] | ..];
    (eapply guaranteed_mono; [typeclasses eauto | apply guaranteed_preserves; [typeclasses eauto | apply preserves_bind; [|easy]] | easy]);
    [apply viva_preserves | apply message_preserves | apply list_preserves].
Qed.
End Pool.

(** C6: Every interleaving of listings, submissions and viva messages, of any
    number of learners, is a run of the milestone machine, whose steps seed an
    attempt, submit a milestone that is not LOCKED, or grade it and open the
    next one.  So no milestone is locked again or moved, no try or grading is
    forgotten, and a milestone beyond the first is only unlocked once the one
    before it has been graded.  That the time of a grading is never cleared is
    what the code does and not what the table promises: migration 0010 says
    gated_at is of the current submission and null while SUBMITTED
    ([stale_gate] exhibits the difference). *)
Theorem milestone_machine `{Rounding} `{Executor} `{AiGrading} `{GitHost} `{VivaModel} `{ProjectOrchestrator} ps s ps' s' :
  (forall p, p ∈ ps -> project_request p) -> rtc (pstep project_request) (ps, s) (ps', s') ->
  rtc mstep (milestones s) (milestones s') /\
  table_grows (milestones s) (milestones s') /\
  (unlocked_ok (milestones s) -> unlocked_ok (milestones s')).
Proof.
  intros P T. destruct (pool_guarantee project_evolves project_request (fun _ _ => True) ps s ps' s') as [[M _] _];
    [intros p [r ->] s0; apply handle_project_guaranteed | intros p Ip; destruct (P p Ip) as [r ->]; apply handle_project_guaranteed | exact T |].
  split; [exact M |]. split; [now apply rtc_grows |].
  induction M as [|m1 m2 m3 S _ IH]; [easy |]. intros U. apply IH. now apply (mstep_unlocked m1).
Qed.

(** No request ever links a project to a repository: from a store where no
    submission names one, every interleaving of project requests leaves all
    submissions with the placeholder, so no commit is ever resolved and no viva
    is grounded in the learner's work (nothing records the repository an
    enrolment creates). *)
Theorem repo_never_linked `{Rounding} `{Executor} `{AiGrading} `{GitHost} `{VivaModel} `{ProjectOrchestrator} ps s ps' s' id :
  (forall p, p ∈ ps -> project_request p) -> rtc (pstep project_request) (ps, s) (ps', s') -> no_repo s ->
  no_repo s' /\ run (resolveRepoRef id) s' = (inr None, s').
Proof.
  intros P T N. destruct (pool_guarantee project_evolves project_request (fun _ _ => True) ps s ps' s') as [[_ E] _];
    [intros p [r ->] s0; apply handle_project_guaranteed | intros p Ip; destruct (P p Ip) as [r ->]; apply handle_project_guaranteed | exact T |].
  apply E in N. split; [exact N |]. rewrite run_resolveRepoRef.
  destruct (List.find has_repo _) as [x|] eqn:F; [|reflexivity]. exfalso.
  apply find_some in F as [I B]. apply list_elem_of_In in I. unfold submission_rows in I. rewrite merge_sort_Permutation in I.
  apply list_elem_of_In, filter_In in I as [I _]. apply list_elem_of_In, N in I. congruence.
Qed.

(** ** Two submissions of one milestone *)
Definition demo_request : ProjectRequest -> prog Store unit :=
  @handle_project binary64 Proj.no_executor Proj.grader no_git two_questions Proj.no_orchestrator.
Definition two_submissions : list (prog Store unit) :=
  [demo_request (PSubmit (Proj.submit design "good")); demo_request (PSubmit (Proj.submit design "bad"))].
(** The second is marked SUBMITTED, the first runs, the second is graded. *)
Definition race_turns : list nat := (replicate 10 1 ++ replicate 18 0 ++ replicate 18 1)%nat.

Lemma demo_requested p : p ∈ two_submissions ->
  @project_request binary64 Proj.no_executor Proj.grader no_git two_questions Proj.no_orchestrator p.
Proof. intros I. repeat (apply elem_of_cons in I as [->|I]; [eexists; reflexivity |]). now apply elem_of_nil in I. Qed.

(** A milestone submitted twice at once can be passed by one submission and
    then failed by the other: the passed gate is lost while the milestone it
    opened stays open, so the milestones are no longer in order (submitting is
    not serialised per milestone, and gating overwrites any status). *)
Theorem submission_race :
  exists ps' s',
    rtc (pstep (@project_request binary64 Proj.no_executor Proj.grader no_git two_questions Proj.no_orchestrator))
      (two_submissions, Proj.store) (ps', s') /\
    forallb finished ps' = true /\
    ms_status <$> milestones s' !! (9%nat, design) = Some GATED_FAIL /\
    ms_status <$> milestones s' !! (9%nat, infra) = Some OPEN /\
    ~ in_order 9 (milestones s').
Proof.
  exists (schedule race_turns two_submissions Proj.store).1, (schedule race_turns two_submissions Proj.store).2.
  split; [rewrite <- surjective_pairing; apply schedule_rtc |].
  assert (D : ms_status <$> milestones (schedule race_turns two_submissions Proj.store).2 !! (9%nat, design) = Some GATED_FAIL) by (vm_compute; reflexivity).
  assert (E : ms_status <$> milestones (schedule race_turns two_submissions Proj.store).2 !! (9%nat, infra) = Some OPEN) by (vm_compute; reflexivity).
  assert (Od : ms_ordinal <$> milestones (schedule race_turns two_submissions Proj.store).2 !! (9%nat, design) = Some 0%nat) by (vm_compute; reflexivity).
  assert (Oe : ms_ordinal <$> milestones (schedule race_turns two_submissions Proj.store).2 !! (9%nat, infra) = Some 1%nat) by (vm_compute; reflexivity).
  split; [vm_compute; reflexivity |]. split; [exact D |]. split; [exact E |].
  revert D E Od Oe. generalize (milestones (schedule race_turns two_submissions Proj.store).2). intros m D E Od Oe [_ [n O]].
  destruct (m !! (9%nat, design)) as [r|] eqn:L; [|discriminate]. destruct (m !! (9%nat, infra)) as [r'|] eqn:L'; [|discriminate].
  injection D as D. injection E as E. injection Od as Od. injection Oe as Oe.
  destruct (O design r L) as (A & _ & C). destruct (O infra r' L') as (A' & _ & C').
  destruct n as [|n]; [rewrite C' in E by lia; discriminate | rewrite A in D by lia; discriminate].
Qed.

(** A milestone that failed its gate is submitted again: while it is SUBMITTED the row
    still carries the grading time of the submission before. *)
Theorem stale_gate : exists turns,
  let pool := [demo_request (PSubmit (Proj.submit design "bad")); demo_request (PSubmit (Proj.submit design "good"))] in
  let fin := schedule turns pool Proj.store in
  exists r, milestones fin.2 !! (9%nat, design) = Some r /\
    ms_status r = M_SUBMITTED /\ ms_attempt_count r = 2%nat /\ is_Some (ms_gated_at r).
Proof.
  exists (replicate 40 0 ++ replicate 7 1)%nat. eexists. vm_compute. split; [reflexivity |]. cbn. eauto.
Qed.

Lemma milestone_machine_witness :
  exists ps' s', rtc (pstep (@project_request binary64 Proj.no_executor Proj.grader no_git two_questions Proj.no_orchestrator))
      (two_submissions, Proj.store) (ps', s') /\
    rtc mstep (milestones Proj.store) (milestones s') /\ unlocked_ok (milestones s').
Proof.
  eexists _, _. pose proof (schedule_rtc (@project_request binary64 Proj.no_executor Proj.grader no_git two_questions Proj.no_orchestrator)
    race_turns two_submissions Proj.store) as T. rewrite surjective_pairing in T. split; [exact T |].
  destruct (milestone_machine _ _ _ _ demo_requested T) as (M & _ & U). split; [exact M |]. apply U. intros id k r L. discriminate L.
Defined.

Lemma repo_never_linked_witness :
  exists s', run (resolveRepoRef 9) s' = (inr None, s') /\ length (submissions s') = 2%nat.
Proof.
  pose proof (schedule_rtc (@project_request binary64 Proj.no_executor Proj.grader no_git two_questions Proj.no_orchestrator)
    race_turns two_submissions Proj.store) as T. rewrite surjective_pairing in T.
  exists (schedule race_turns two_submissions Proj.store).2. split; [|vm_compute; reflexivity].
  apply (repo_never_linked _ _ _ _ 9 demo_requested T). intros x I. now apply elem_of_nil in I.
Defined.
