(* ===== verification/OrchestratorClients.v ===== *)
(** * The clients of the environment orchestrator

    common/base-grpc-client.ts (credentials, token, deadline, errors) and what
    is built on it: attempt/grpc-orchestrator.client.ts and
    project/grpc-project-orchestrator.ts, instances of the interfaces
    [Orchestrator] and [ProjectOrchestrator] that the services are proved
    against, with the stand-in attempt/fake-orchestrator.client.ts.  The server
    behind the channel is outside: [GrpcServer]. *)
From Stdlib Require Import Ascii.
From stdpp Require Import pretty.
From S2P Require Import Prelude RegExp JsNum Binary64 Effects Schema JsText JsonParse JsonLaws ExecutorBackends AttemptService AttemptLaws Evaluation WorkspaceFiles Project.
Open Scope Z_scope.

(** ** base-grpc-client.ts *)
Record GrpcConfig := mkGrpcConfig {
  ORCHESTRATOR_TLS_CA : option string; ORCHESTRATOR_CLIENT_TLS_CERT : option string;
  ORCHESTRATOR_CLIENT_TLS_KEY : option string; ORCHESTRATOR_SHARED_SECRET : option string;
  T3_DEFAULT_REGION : option string;
  T3_DEFAULT_BUDGET_USD : option Q   (* as Number reads it, none when that is not finite *) }.
Inductive ChannelCredentials := Insecure | MutualTls (ca key cert : string).
Record GrpcRequest := mkGrpcRequest {
  gq_method : string; gq_body : Json; gq_metadata : list (string * string); gq_deadlineMs : Z }.

(** A channel answers a status code with a message, or a response. *)
Class GrpcServer := { serve : ChannelCredentials -> list RemoteCall -> GrpcRequest -> (string * string) + Json }.

Definition DEFAULT_DEADLINE_MS : Z := 30000.
(** The three files, read together ([fs.readFileSync]). *)
Definition buildChannelCredentials (readFile : string -> option string) (c : GrpcConfig) : exn + ChannelCredentials :=
  match truthy (ORCHESTRATOR_TLS_CA c) with
  | None => inr Insecure
  | Some caPath =>
      match truthy (ORCHESTRATOR_CLIENT_TLS_CERT c), truthy (ORCHESTRATOR_CLIENT_TLS_KEY c) with
      | Some certPath, Some keyPath =>
          match readFile caPath, readFile certPath, readFile keyPath with
          | Some ca, Some cert, Some key => inr (MutualTls ca key cert)
          | _, _, _ => inl (JsError "mTLS is configured but a cert file could not be read")
          end
      | _, _ => inl (JsError "mTLS requires all three")
      end
  end.
Definition call_metadata (c : GrpcConfig) : list (string * string) :=
  match truthy (ORCHESTRATOR_SHARED_SECRET c) with
  | Some secret => [("authorization"%string, ("Bearer " ++ secret)%string)]
  | None => []
  end.
(** [x ?? ''] of a string field and [!!x] of any field of a response. *)
Definition jtext (key : string) (j : Json) : string := default EmptyString (jstring key j).
Definition js_true (j : option Json) : bool :=
  match j with
  | None | Some JNull | Some (JBool false) | Some (JStr EmptyString) => false
  | Some (JNum q) => negb (Qeq_bool q 0)
  | _ => true
  end.

Section Clients.
Context `{Rounding} `{GrpcServer}.
Variables (config : GrpcConfig) (channel : ChannelCredentials) (uuid_text : Id -> string).

Definition call (log : list RemoteCall) (method : string) (body : Json) (deadlineMs : Z) : exn + Json :=
  match serve channel log (mkGrpcRequest method body (call_metadata config) deadlineMs) with
  | inl (code, message) => inl (JsError ("gRPC " ++ method ++ " failed: " ++ code ++ " " ++ message))
  | inr response => inr response
  end.

(** ** grpc-orchestrator.client.ts *)
Definition TIER_MAP (tier : string) : Json :=
  if String.eqb tier "T0_BROWSER" then JStr "TIER_T0_BROWSER"
  else if String.eqb tier "T1_SHARED_CONTAINER" then JStr "TIER_T1_SHARED_CONTAINER"
  else if String.eqb tier "T2_ISOLATED_MICROVM" then JStr "TIER_T2_ISOLATED_MICROVM"
  else if String.eqb tier "T3_CLOUD_ACCOUNT" then JStr "TIER_T3_CLOUD_ACCOUNT" else JNull.
Definition provision_body (req : ProvisionRequest) : Json :=
  JObj [("attemptId"%string, JStr (uuid_text (pr_attempt_id req))); ("blueprintId"%string, JStr (pr_blueprint_id req));
    ("blueprintVersion"%string, JStr (pr_blueprint_version req)); ("tier"%string, TIER_MAP (pr_tier req));
    ("ttlMinutes"%string, JNum (inject_Z (pr_ttl_minutes req)));
    ("idleTimeoutMinutes"%string, JNum (inject_Z (pr_idle_timeout_minutes req)));
    ("fixtures"%string, JArr ((fun f => JObj [("fixtureId"%string, JStr f.1); ("version"%string, JStr f.2)]) <$> pr_fixtures req));
    ("healthGateJson"%string, JStr (match pr_health_gate req with Some gate => stringify (JArr gate) | None => EmptyString end))].
Definition statusMap (status : string) : ProvisionStatus :=
  if String.eqb status "ENVIRONMENT_STATUS_PROVISIONING" then P_PROVISIONING
  else if String.eqb status "ENVIRONMENT_STATUS_READY" then P_READY else P_FAILED.
Definition grpc_provision (log : list RemoteCall) (req : ProvisionRequest) : exn + ProvisionResult :=
  match call log "Provision" (provision_body req) 60000 with
  | inl e => inl e
  | inr r => inr (mkProvisionResult (jtext "environmentId" r) (statusMap (jtext "status" r)))
  end.
Definition environment_body (environmentId : string) (attemptId : Id) (more : list (string * Json)) : Json :=
  JObj (("environmentId"%string, JStr environmentId) :: more ++ [("attemptId"%string, JStr (uuid_text attemptId))]).
Definition grpc_destroy (log : list RemoteCall) (environmentId reason : string) (attemptId : Id) : exn + bool :=
  match call log "Destroy" (environment_body environmentId attemptId [("reason"%string, JStr reason)]) DEFAULT_DEADLINE_MS with
  | inl e => inl e
  | inr r => inr (js_true (jfield "alreadyDestroyed" r))
  end.
Definition grpc_connect (log : list RemoteCall) (environmentId : string) (attemptId : Id) : exn + ConnectResult :=
  match call log "Connect" (environment_body environmentId attemptId []) DEFAULT_DEADLINE_MS with
  | inl e => inl e
  | inr r => inr (mkConnectResult (jtext "terminalWsUrl" r) (jtext "editorUrl" r) (jtext "sessionToken" r) (jtext "expiresAt" r))
  end.
(** A failed call is an unapplied fault. *)
Definition grpc_injectFault (log : list RemoteCall) (environmentId : string) (fault : FaultSpec) (attemptId : Id) : exn + InjectFaultResult :=
  match call log "InjectFault" (environment_body environmentId attemptId
      [("faultId"%string, JStr (f_id fault));
       ("params"%string, JObj ((fun kv => (kv.1, JStr kv.2)) <$> default [] (f_params fault)))]) DEFAULT_DEADLINE_MS with
  | inl _ => inr (mkInjectFaultResult false false)
  | inr r => inr (mkInjectFaultResult (js_true (jfield "applied" r)) (js_true (jfield "symptomVerified" r)))
  end.
Definition exec_deadline (timeoutMs : Z) : Z := timeoutMs + 5000.
Definition exec_result (r : Json) : ExecShellResult :=
  mkExecShellResult (Qfloor (default 0%Q (jnumber "exitCode" r))) (jtext "stdout" r) (jtext "stderr" r) (truthy (jstring "errorMessage" r)).
Definition exec_body (req : ExecShellRequest) : Json :=
  environment_body (es_environmentId req) (es_attemptId req)
    [("command"%string, JStr (es_command req)); ("timeoutMs"%string, JNum (inject_Z (es_timeoutMs req)))].
Definition grpc_execShell (log : list RemoteCall) (req : ExecShellRequest) : exn + ExecShellResult :=
  match call log "ExecShell" (exec_body req) (exec_deadline (es_timeoutMs req)) with
  | inl e => inl e
  | inr r => inr (exec_result r)
  end.
Definition discard {A} (r : exn + A) : exn + unit := match r with inl e => inl e | inr _ => inr tt end.
Definition GrpcOrchestratorClient : Orchestrator := {|
  orch_provision := grpc_provision;
  orch_injectFault := grpc_injectFault;
  orch_destroy := fun log environmentId reason attemptId => discard (grpc_destroy log environmentId reason attemptId);
  orch_connect := grpc_connect |}.

(** ** grpc-project-orchestrator.ts *)
Definition mapStatus (status : string) : ProvisionStatus :=
  if String.eqb status "ENVIRONMENT_STATUS_READY" then P_READY
  else if String.eqb status "ENVIRONMENT_STATUS_PROVISION_FAILED" then P_FAILED else P_PROVISIONING.
(** The port gives neither region nor budget, so the defaults are taken. *)
Definition t3_hints (region : option string) (budgetUsd : option Q) : string :=
  let region := match region with Some r => r | None => default EmptyString (T3_DEFAULT_REGION config) end in
  let budgetRaw := match budgetUsd with Some b => b | None => default 0%Q (T3_DEFAULT_BUDGET_USD config) end in
  String.concat ";" ((match region with EmptyString => [] | _ => [("region=" ++ region)%string] end) ++
                     (if (0 <? budgetRaw)%Q then [("budget=" ++ number_text budgetRaw)%string] else [])).
Definition grpc_provisionForMilestone (log : list RemoteCall) (attemptId : Id) (milestoneKey : MilestoneKey)
    (region : option string) (budgetUsd : option Q) : exn + ProjectEnvHandle :=
  match call log "Provision" (JObj [("attemptId"%string, JStr (uuid_text attemptId));
      ("tier"%string, JStr "TIER_T3_CLOUD_ACCOUNT"); ("blueprintId"%string, JStr "bp.project.default");
      ("blueprintVersion"%string, JStr "v1"); ("networkPolicy"%string, JStr (t3_hints region budgetUsd))]) 120000 with
  | inl e => inl e
  | inr r => inr (mkProjectEnvHandle (jtext "environmentId" r) (mapStatus (jtext "status" r)))
  end.
Definition grpc_snapshotAndSuspend (log : list RemoteCall) (environmentId : string) (attemptId : Id) : exn + string :=
  match call log "Snapshot" (environment_body environmentId attemptId []) 120000 with
  | inl e => inl e
  | inr r => inr (jtext "snapshotId" r)
  end.
(** Two more operations of the port, which the project service does not use. *)
Definition grpc_restore (log : list RemoteCall) (attemptId : Id) (snapshotId : string) : exn + ProjectEnvHandle :=
  match call log "Restore" (JObj [("snapshotId"%string, JStr snapshotId); ("attemptId"%string, JStr (uuid_text attemptId))]) 120000 with
  | inl e => inl e
  | inr r => inr (mkProjectEnvHandle (jtext "environmentId" r) (mapStatus (jtext "status" r)))
  end.
Definition grpc_projectDestroy (log : list RemoteCall) (attemptId : Id) (environmentId : string) : exn + bool :=
  match call log "Destroy" (environment_body environmentId attemptId [("reason"%string, JStr "submit")]) 60000 with
  | inl e => inl e
  | inr r => inr (js_true (jfield "alreadyDestroyed" r))
  end.
Definition GrpcProjectOrchestrator : ProjectOrchestrator := {|
  port_provisionForMilestone := fun log attemptId key => grpc_provisionForMilestone log attemptId key None None;
  port_snapshotAndSuspend := fun log environmentId attemptId => discard (grpc_snapshotAndSuspend log environmentId attemptId) |}.
End Clients.

(** ** fake-orchestrator.client.ts *)
Definition fake_exec_result : ExecShellResult :=
  mkExecShellResult 1 EmptyString "fake orchestrator: no filesystem backing this environment" None.
Section Fake.
(** [randomUUID()], and the overrides by fault. *)
Variables (randomUUID : list RemoteCall -> string) (faultOverrides : gmap string InjectFaultResult) (clock : Z).
Definition setFaultOverride (faultId : string) (result : InjectFaultResult) : gmap string InjectFaultResult :=
  <[faultId := result]> faultOverrides.
Definition fake_injectFault (fault : FaultSpec) : InjectFaultResult :=
  default (mkInjectFaultResult true true) (faultOverrides !! f_id fault).
Definition FakeOrchestratorClient : Orchestrator := {|
  orch_provision := fun log _ => inr (mkProvisionResult ("fake-env-" ++ randomUUID log) P_READY);
  orch_injectFault := fun _ _ fault _ => inr (fake_injectFault fault);
  orch_destroy := fun _ _ _ _ => inr tt;
  orch_connect := fun log environmentId _ => inr (mkConnectResult
    ("ws://fake-gateway.invalid/v1/env/" ++ environmentId ++ "/terminal?session=fake-" ++ randomUUID log) EmptyString
    ("fake-" ++ randomUUID log) (toISOString (clock + 5 * 60000))) |}.
End Fake.

(** A channel without TLS is only opened when no authority is configured:
    otherwise the credentials are the contents of the three configured files, or
    the client refuses to start. *)
Theorem no_plaintext_fallback readFile c :
  match buildChannelCredentials readFile c with
  | inr Insecure => truthy (ORCHESTRATOR_TLS_CA c) = None
  | inr (MutualTls ca key cert) => exists caPath certPath keyPath,
      truthy (ORCHESTRATOR_TLS_CA c) = Some caPath /\ readFile caPath = Some ca /\
      truthy (ORCHESTRATOR_CLIENT_TLS_CERT c) = Some certPath /\ readFile certPath = Some cert /\
      truthy (ORCHESTRATOR_CLIENT_TLS_KEY c) = Some keyPath /\ readFile keyPath = Some key
  | inl _ => truthy (ORCHESTRATOR_TLS_CA c) <> None
  end.
Proof.
  unfold buildChannelCredentials. destruct (truthy (ORCHESTRATOR_TLS_CA c)) as [caPath|]; [|reflexivity].
  destruct (truthy (ORCHESTRATOR_CLIENT_TLS_CERT c)) as [certPath|]; [|easy].
  destruct (truthy (ORCHESTRATOR_CLIENT_TLS_KEY c)) as [keyPath|]; [|easy].
  destruct (readFile caPath) as [ca|] eqn:A; [|easy]. destruct (readFile certPath) as [cert|] eqn:B; [|easy].
  destruct (readFile keyPath) as [key|] eqn:D; [|easy]. exists caPath, certPath, keyPath. now split_and!.
Qed.

(** ** Provisioning through the client *)
Section Provisioning.
Context `{Rounding} `{GrpcServer}.
Variables (config : GrpcConfig) (channel : ChannelCredentials) (uuid_text : Id -> string).
#[local] Instance client : Orchestrator := GrpcOrchestratorClient config channel uuid_text.

Lemma statusMap_ready status : statusMap status = P_READY <-> status = "ENVIRONMENT_STATUS_READY"%string.
Proof.
  unfold statusMap. destruct (String.eqb_spec status "ENVIRONMENT_STATUS_PROVISIONING") as [->|N]; [easy|].
  destruct (String.eqb_spec status "ENVIRONMENT_STATUS_READY"); easy.
Qed.

(** Over the gRPC client, provisioning a CREATED attempt ends by the server's
    answer to one request that carries the token: ENVIRONMENT_STATUS_READY makes
    the attempt READY with the answered environment and every T0 fault is
    recorded, since a fault the server rejects counts as not applied; any other
    status makes it PROVISION_FAILED; only a failed Provision call is thrown,
    with its code and message, and leaves the attempt PROVISIONING. *)
Theorem grpc_provisioning id s r v :
  attempts s !! id = Some r -> versions s !! activity_version_id r = Some v -> status r = CREATED ->
  exists o s' r', run (provision id) s = (o, s') /\ attempts s' = <[id := r']> (attempts s) /\
    match serve channel (calls s) (mkGrpcRequest "Provision" (provision_body uuid_text (provision_request id v)) (call_metadata config) 60000) with
    | inl (code, message) => o = inl (JsError ("gRPC Provision failed: " ++ code ++ " " ++ message)%string) /\ status r' = PROVISIONING
    | inr response => o = inr r' /\
        if String.eqb (jtext "status" response) "ENVIRONMENT_STATUS_READY"
        then status r' = READY /\ environment_id r' = Some (jtext "environmentId" response) /\
             trace id s' = trace id s ++ [(ENV_REQUESTED, None); (ENV_READY, None)] ++ (injected <$> t0_faults (av_spec v))
        else status r' = PROVISION_FAILED /\ environment_id r' = environment_id r
    end.
Proof.
  intros L V St. destruct (run_provision id s r v L V St) as (o & s' & E & P). exists o, s'.
  assert (Faults : forall log env f, exists x, orch_injectFault log env f id = inr x)
    by (intros log env f; cbn; unfold grpc_injectFault; destruct (call _ _ _ _ _ _); eexists; reflexivity).
  destruct P as [e r' O A S _ _ _ | res r' O N A S _ En _ _ | res r' O R A S _ En _ T | res r' e before f rest _ _ _ I];
    [exists r' | exists r' | exists r' | destruct (Faults (calls s ++ CallProvision (provision_request id v) ::
      (injection (pres_environmentId res) id <$> before)) (pres_environmentId res) f) as [x X]; congruence].
  all: split; [exact E|]; split; [exact A|]; cbn in O; unfold grpc_provision, call in O; destruct (serve _ _ _) as [[code message]|response]; try discriminate O.
  - injection O as <-. auto.
  - injection O as <-. split; [reflexivity|]. cbn in N. rewrite statusMap_ready in N.
    now rewrite (proj2 (String.eqb_neq _ _) N).
  - injection O as <-. split; [reflexivity|]. cbn in R. apply statusMap_ready in R. rewrite R, String.eqb_refl. now split_and!.
Qed.
End Provisioning.

(** ** The T3 hints, packed here and unpacked by the orchestrator

    orchestrator/internal/orchestrator/server.go (parseT3Hints, in Go).
    [strconv.ParseFloat] is outside. *)
Class ParseFloat := { parse_float : string -> option Q }.
(** [strings.SplitN(s, c, 2)], when it has two parts. *)
Fixpoint cut (c : ascii) (s : string) : option (string * string) :=
  match s with
  | EmptyString => None
  | String a s => if (a =? c)%char then Some (EmptyString, s) else '(k, v) ← cut c s; Some (String a k, v)
  end.
Definition hint_step `{ParseFloat} (acc : string * Q) (part : string) : string * Q :=
  match cut "=" (trim part) with
  | None => acc
  | Some (key, value) =>
      if String.eqb (trim key) "region" then
        match trim value with EmptyString => acc | v => (v, acc.2) end
      else if String.eqb (trim key) "budget" then
        match parse_float (trim value) with
        | Some v => if (0 <? v)%Q then (acc.1, v) else acc
        | None => acc
        end
      else acc
  end.
Definition parseT3Hints `{ParseFloat} (s defRegion : string) (defBudget : Q) : string * Q :=
  fold_left hint_step (split_on ";" s) (defRegion, defBudget).

Lemma trim_edge s : s = EmptyString \/ (exists c l d, explode s = c :: l /\ last (c :: l) = Some d /\ is_space c = false /\ is_space d = false) -> trim s = s.
Proof.
  unfold trim. intros [->|(c & l & d & E & L & C & D)]; [reflexivity|]. rewrite E. cbn [drop_space]. rewrite C.
  apply last_Some in L as [l' L]. rewrite L, rev_app_distr. cbn [rev app drop_space]. rewrite D.
  change (d :: rev l') with (rev [d] ++ rev l'). rewrite <- rev_app_distr, rev_involutive, <- L, <- E. apply implode_explode.
Qed.
(** A text without blanks or semicolons at its ends, or within. *)
Definition plain_char (c : ascii) : bool := negb (is_space c) && negb (c =? ";")%char.
Definition plain_text (s : string) : Prop := forallb plain_char (explode s) = true.
Lemma plain_trim s : plain_text s -> trim s = s.
Proof.
  unfold plain_text. intros F. apply trim_edge. destruct (explode s) as [|c l] eqn:E.
  - left. now rewrite <- (implode_explode s), E.
  - right. destruct (last (c :: l)) as [d|] eqn:L; [|now apply last_None in L]. exists c, l, d. rewrite forallb_forall in F.
    assert (P : forall x, In x (c :: l) -> is_space x = false) by (intros x I; specialize (F x I); now apply andb_true_iff in F as [F%negb_true_iff _]).
    split_and!; auto; apply P; [now left|]. apply last_Some_elem_of in L. now apply list_elem_of_In.
Qed.
Lemma plain_free s : plain_text s -> free_of ";" s.
Proof.
  unfold plain_text, free_of. rewrite forallb_forall. intros F I. specialize (F _ I). now apply andb_true_iff in F as [_ F].
Qed.
Lemma plain_app a b : plain_text a -> plain_text b -> plain_text (a ++ b).
Proof. unfold plain_text. intros A B. now rewrite explode_app, forallb_app, A, B. Qed.
Lemma plain_digits l : Forall RegExp.is_digit l -> forallb plain_char l = true.
Proof.
  intros F. apply forallb_forall. intros c I. apply list_elem_of_In in I. rewrite Forall_forall in F. specialize (F c I).
  apply Is_true_true, digit_range in F. unfold plain_char, is_space. unfold JsonParse.digit_value in F. change (code "0") with 48%N in F.
  assert (D : (48 <= code c <= 57)%N) by lia.
  destruct (Ascii.eqb_spec c ";") as [->|_]; [cbn in D; lia|]. rewrite andb_true_r, negb_true_iff.
  rewrite (proj2 (N.leb_gt (code c) 13)), (proj2 (N.eqb_neq (code c) 32)), (proj2 (N.eqb_neq (code c) 160)) by lia. now rewrite andb_false_r.
Qed.
Lemma plain_pretty (z : Z) : plain_text (pretty z).
Proof.
  assert (P : forall p, plain_text (pretty (Zpos p))) by (intros p; apply plain_digits, (pretty_decimal (Zpos p)); lia).
  destruct z as [|p|p]; [reflexivity | apply P|]. change (pretty (Zneg p)) with ("-" ++ pretty (Zpos p))%string. now apply plain_app.
Qed.
Lemma plain_part (p : chars -> chars) s : (forall l c, In c (p l) -> In c l) -> plain_text s -> plain_text (implode (p (explode s))).
Proof.
  unfold plain_text. rewrite explode_implode, !forallb_forall. eauto.
Qed.
Lemma plain_zeros m : plain_text (repeat_text m "0").
Proof.
  unfold plain_text. rewrite explode_zeros. apply forallb_forall. intros c I. now apply repeat_spec in I as ->.
Qed.
Lemma plain_slice n s : plain_text s -> plain_text (slice_to n s).
Proof. apply (plain_part (take n)). intros l c I. rewrite <- (take_drop n l). apply in_or_app. now left. Qed.
Lemma plain_substring i m s : plain_text s -> plain_text (String.substring i m s).
Proof.
  unfold plain_text. rewrite explode_substring, !forallb_forall. intros F c I. apply F.
  rewrite <- (take_drop i (explode s)). apply in_or_app. right. rewrite <- (take_drop m (drop i (explode s))). apply in_or_app. now left.
Qed.
Create HintDb plain.
#[local] Hint Resolve plain_app plain_pretty plain_zeros plain_slice plain_substring : plain.
Lemma plain_layout k n s : plain_text (layout k n s).
Proof.
  assert (Lits : Forall plain_text ["."; "0."; "-"; "+"; "e"]%string) by (repeat constructor).
  repeat (apply Forall_cons in Lits as [? Lits]). unfold layout.
  repeat match goal with |- plain_text (if ?b then _ else _) => destruct b end; auto 8 with plain;
    repeat apply plain_app; auto with plain; [destruct (k =? 1) | destruct (n <? 1)]; auto 8 with plain.
Qed.
Lemma plain_number `{Rounding} x : plain_text (number_text x).
Proof.
  unfold number_text. destruct (Qeq_bool _ 0); [reflexivity|].
  assert (P : forall y, plain_text (positive_text y)).
  { intros y. unfold positive_text. destruct (shortest _ _ _ _) as [k s]. destruct (_ =? _); apply plain_layout. }
  destruct (_ <? _)%Q; [now apply plain_app | apply P].
Qed.

Lemma hint_region `{ParseFloat} acc r : plain_text r -> r <> EmptyString -> hint_step acc ("region=" ++ r) = (r, acc.2).
Proof.
  intros P N. unfold hint_step. rewrite plain_trim by now apply plain_app.
  change (cut "=" ("region=" ++ r)) with (Some ("region"%string, r)). cbn iota. rewrite (plain_trim r P).
  change (String.eqb (trim "region") "region") with true. cbn iota. now destruct r.
Qed.
Lemma hint_budget `{ParseFloat} acc t b : plain_text t -> parse_float t = Some b -> (0 <? b)%Q = true ->
  hint_step acc ("budget=" ++ t) = (acc.1, b).
Proof.
  intros P F B. unfold hint_step. rewrite plain_trim by now apply plain_app.
  change (cut "=" ("budget=" ++ t)) with (Some ("budget"%string, t)). cbn iota. rewrite (plain_trim t P), F, B. reflexivity.
Qed.

(** The orchestrator unpacks from the hints exactly the region and the budget
    the client packed, and takes its own default for the one that was left out;
    regions are texts without blanks and semicolons, and of ParseFloat it is
    assumed that it reads the text of the packed number as that number. *)
Theorem t3_hints_understood `{Rounding} `{ParseFloat} config region budget defRegion defBudget :
  (forall r, region = Some r -> plain_text r) -> (forall r, T3_DEFAULT_REGION config = Some r -> plain_text r) ->
  let b := match budget with Some b => b | None => default 0%Q (T3_DEFAULT_BUDGET_USD config) end in
  parse_float (number_text b) = Some b ->
  parseT3Hints (t3_hints config region budget) defRegion defBudget =
  (match (match region with Some r => Some r | None => T3_DEFAULT_REGION config end) with
   | Some EmptyString | None => defRegion | Some r => r end,
   if (0 <? b)%Q then b else defBudget).
Proof.
  intros R1 R2 b F. unfold parseT3Hints, t3_hints. fold b.
  set (r := match region with Some r => r | None => default EmptyString (T3_DEFAULT_REGION config) end).
  assert (P : plain_text r).
  { subst r. destruct region as [r|]; [now apply R1|]. destruct (T3_DEFAULT_REGION config) as [r|]; [now apply R2 | reflexivity]. }
  assert (E : (match (match region with Some r => Some r | None => T3_DEFAULT_REGION config end) with
    | Some EmptyString | None => defRegion | Some r => r end) = match r with EmptyString => defRegion | r => r end)
    by (subst r; destruct region as [[]|]; [easy..|]; now destruct (T3_DEFAULT_REGION config) as [[]|]).
  rewrite E. clear E. clearbody r. pose proof (plain_number b) as Pb.
  assert (Fr : free_of ";" ("region=" ++ r)) by now apply plain_free, plain_app.
  assert (Fb : free_of ";" ("budget=" ++ number_text b)) by now apply plain_free, plain_app.
  destruct (0 <? b)%Q eqn:B; destruct r as [|c r].
  - cbn [app]. rewrite split_on_concat by (easy || now repeat constructor). cbn [fold_left]. now rewrite hint_budget with (b := b).
  - cbn [app]. rewrite split_on_concat by (easy || now repeat constructor). cbn [fold_left].
    rewrite hint_region by easy. now rewrite hint_budget with (b := b).
  - reflexivity.
  - cbn [app]. rewrite split_on_concat by (easy || now repeat constructor). cbn [fold_left]. now rewrite hint_region.
Qed.
(** A server that has no fault handlers, and one whose environment is idle. *)
Module Servers.
#[local] Existing Instance binary64.
Definition config : GrpcConfig := mkGrpcConfig None None None (Some "s3cret"%string) (Some "eu-west-1"%string) (Some 20%Q).
Definition uuid_text (id : Id) : string := "attempt-9".
Definition answering (status : string) : GrpcServer := {|
  serve := fun _ _ rq =>
    if String.eqb (gq_method rq) "InjectFault" then inl ("UNIMPLEMENTED", "no handler")%string
    else inr (JObj [("environmentId"%string, JStr "env-7"); ("status"%string, JStr status)]) |}.

Lemma grpc_provisioning_witness : exists s' r',
  run (@provision (@GrpcOrchestratorClient _ (answering "ENVIRONMENT_STATUS_READY") config Insecure uuid_text) 9) (Lab.store CREATED 1) = (inr r', s') /\
  status r' = READY /\ environment_id r' = Some "env-7"%string.
Proof.
  destruct (@grpc_provisioning _ (answering "ENVIRONMENT_STATUS_READY") config Insecure uuid_text 9 (Lab.store CREATED 1)
    (Lab.attempt CREATED 1) Lab.activity_version eq_refl eq_refl eq_refl) as (o & s' & r' & E & A & O & S & V & _).
  exists s', r'. split; [rewrite <- O; exact E | split; [exact S | exact V]].
Defined.

(** A ParseFloat that reads what JSON reads. *)
#[local] Instance json_float : ParseFloat := {| parse_float := fun t => match json_parse t with Some (JNum q) => Some q | _ => None end |}.
Lemma t3_hints_understood_witness :
  t3_hints config None None = "region=eu-west-1;budget=20"%string /\
  parseT3Hints (t3_hints config None None) "us-east-1" 5 = ("eu-west-1"%string, 20%Q).
Proof.
  split; [vm_compute; reflexivity|]. rewrite (t3_hints_understood config None None "us-east-1" 5); [reflexivity | discriminate | | vm_compute; reflexivity].
  intros r [= <-]. reflexivity.
Defined.
End Servers.
