(* ===== verification/ContentCi.v ===== *)
(** * Content CI

    scripts/content-ci.ts: an activity is checked on a real environment: its
    validators must not pass on the untouched environment, must pass after the
    reference solution, and must answer the same when they are run again.  The
    orchestrator behind the channel, the scripts on disk and the clock are
    outside ([CiHost]); what is printed is the list of complaints. *)
From Stdlib Require Import Ascii.
From stdpp Require Import pretty.
From S2P Require Import Prelude RegExp JsNum Binary64 Effects Schema JsText JsonParse OrchestratorClients.
Open Scope Z_scope.

(** ** The spec, as far as it is read *)
Record CiValidator := mkCiValidator { cv_id : string; cv_type : string; cv_run : option string; cv_expect : option Json }.
Record CiTask := mkCiTask { ct_validators : list CiValidator; ct_solution_apply : option string }.
Record CiActivity := mkCiActivity {
  ca_id : string; ca_tier : string; ca_blueprint : string;
  ca_seed : list (string * option string);       (* fixture and version *)
  ca_tasks : list CiTask; ca_repo_path : option string }.

Abbreviation Requests := (list GrpcRequest) (only parsing).
(** [ci_serve] answers after the requests sent so far; [ci_script repo rel] is
    the file at the joined path; the clock stands still between requests. *)
Class CiHost := {
  ci_serve : Requests -> GrpcRequest -> (string * string) + Json;
  ci_script : string -> string -> option string;
  ci_now : Requests -> Z
}.
Record CiConfig := mkCiConfig { ci_secret : option string; FLAKE_RUNS : nat; CI_BUDGET_USD : Q }.

Record ValidatorRunResult := mkRunResult { vr_id : string; vr_status : string; vr_errorMessage : option string }.
Inductive Complaint :=
  | NoGoldenPath
  | ProvisionFailed (status : string)
  | NullPathFail (ids : list string)
  | GoldenPathFail (results : list ValidatorRunResult)
  | FlakeDetected (ids : list string)
  | CostOverBudget.

Inductive SolutionState := Runnable (repoPath : string) | NoSolution | PartialSolution (missing : list string).
Definition ci_tier (tier : string) : string :=
  if String.eqb tier "BROWSER" then "TIER_T0_BROWSER"
  else if String.eqb tier "SHARED_CONTAINER" then "TIER_T1_SHARED_CONTAINER"
  else if String.eqb tier "ISOLATED_VM" then "TIER_T2_ISOLATED_MICROVM"
  else if String.eqb tier "CLOUD_ACCOUNT" then "TIER_T3_CLOUD_ACCOUNT" else "TIER_T1_SHARED_CONTAINER".
Definition T1_HOURLY_RATE_USD `{Rounding} : Q := rnd (4 # 100).

Section Check.
Context `{Rounding} `{CiHost}.
Variables (config : CiConfig) (randomUUID : Requests -> string).
Abbreviation io := (prog Requests) (only parsing).

Definition ci_metadata : list (string * string) :=
  match truthy (ci_secret config) with Some secret => [("authorization"%string, ("Bearer " ++ secret)%string)] | None => [] end.
Definition rpc (method : string) (request : Json) (deadlineMs : Z) : io Json :=
  let rq := mkGrpcRequest method request ci_metadata deadlineMs in
  let* r := act (fun log => inr (ci_serve log rq, log ++ [rq])) in
  match r with
  | inl (code, message) => Throw (JsError ("gRPC " ++ method ++ " failed: " ++ code ++ " " ++ message))
  | inr response => Ret response
  end.

Definition validator_body (environmentId attemptId : string) (v : CiValidator) : Json :=
  JObj [("environmentId"%string, JStr environmentId); ("validatorId"%string, JStr (cv_id v)); ("validatorType"%string, JStr (cv_type v));
    ("run"%string, JStr (default EmptyString (cv_run v))); ("expectJson"%string, JStr (stringify (default (JObj []) (cv_expect v))));
    ("timeoutMs"%string, JNum 30000); ("attemptId"%string, JStr attemptId)].
Definition all_validators (tasks : list CiTask) : list CiValidator := concat (ct_validators <$> tasks).
(** The two nested loops visit the validators of all tasks in order. *)
Definition ci_runValidators (environmentId attemptId : string) (tasks : list CiTask) : io (list ValidatorRunResult) :=
  for_map (all_validators tasks) (fun v =>
    let* response := rpc "ExecValidator" (validator_body environmentId attemptId v) 60000 in
    Ret (mkRunResult (cv_id v) (jtext "status" response) (truthy (jstring "errorMessage" response)))).

Definition shell_body (environmentId attemptId script : string) : Json :=
  JObj [("environmentId"%string, JStr environmentId); ("command"%string, JStr script); ("timeoutMs"%string, JNum 90000); ("attemptId"%string, JStr attemptId)].
Definition exited_zero (response : Json) : bool :=
  match jfield "exitCode" response with
  | Some (JNum q) => Qeq_bool q 0
  | Some (JStr s) => String.eqb s "0"
  | _ => false
  end.
Definition apply_solution (environmentId attemptId repoPath rel : string) : io unit :=
  match ci_script repoPath rel with
  | None => Throw (JsError ("solution_apply script not found: " ++ rel))
  | Some script =>
      let* response := rpc "ExecShell" (shell_body environmentId attemptId script) 95000 in
      if js_true (jfield "errorMessage" response) then Throw (JsError ("applying " ++ rel ++ " failed"))
      else if exited_zero response then Ret tt
      else Throw (JsError (rel ++ " exited"))
  end.
Definition applySolutions (environmentId attemptId : string) (tasks : list CiTask) (repoPath : string) : io unit :=
  for_each tasks (fun task =>
    match truthy (ct_solution_apply task) with
    | None => Ret tt
    | Some rel => apply_solution environmentId attemptId repoPath rel
    end).

Definition classifySolution (spec : CiActivity) : SolutionState :=
  match truthy (ca_repo_path spec) with
  | None => NoSolution
  | Some repoPath =>
      match omap (fun t => truthy (ct_solution_apply t)) (ca_tasks spec) with
      | [] => NoSolution
      | declared =>
          match List.filter (fun rel => bool_decide (ci_script repoPath rel = None)) declared with
          | [] => Runnable repoPath
          | missing => PartialSolution missing
          end
      end
  end.

Definition ci_fixtures (spec : CiActivity) : list Json :=
  (fun s => JObj [("fixtureId"%string, JStr s.1); ("version"%string, JStr (default "1"%string s.2))]) <$>
    List.filter (fun s => negb (String.eqb s.1 EmptyString)) (ca_seed spec).
Definition ci_provision_body (spec : CiActivity) (attemptId : string) : Json :=
  JObj [("attemptId"%string, JStr attemptId); ("blueprintId"%string, JStr (ca_blueprint spec)); ("blueprintVersion"%string, JStr "1");
    ("tier"%string, JStr (ci_tier (ca_tier spec))); ("fixtures"%string, JArr (ci_fixtures spec));
    ("ttlMinutes"%string, JNum 15); ("idleTimeoutMinutes"%string, JNum 10)].
Definition destroy_body (environmentId attemptId : string) : Json :=
  JObj [("environmentId"%string, JStr environmentId); ("reason"%string, JStr "admin"); ("attemptId"%string, JStr attemptId)].

Definition passes (r : ValidatorRunResult) : bool := String.eqb (vr_status r) "PASS".
(** [r.find((x) => x.id === v.id)?.status] of each run. *)
Definition status_in (id : string) (run : list ValidatorRunResult) : option string :=
  vr_status <$> List.find (fun r => String.eqb (vr_id r) id) run.
Definition flaky_ids (tasks : list CiTask) (runs : list (list ValidatorRunResult)) : list string :=
  List.filter (fun id => Nat.ltb 1 (List.length (uniq (status_in id <$> runs)))) (cv_id <$> all_validators tasks).
Definition estimated_cost (elapsedMs : Z) : Q := (inject_Z elapsedMs /! inject_Z (1000 * 60 * 60)) *! T1_HOURLY_RATE_USD.
Definition complain (b : bool) (c : Complaint) : list Complaint := if b then [c] else [].

(** The body of the try block. *)
Definition measure (spec : CiActivity) (repoPath environmentId attemptId : string) (startedAt : Z) : io (list Complaint) :=
  let tasks := ca_tasks spec in
  let* nullResults := ci_runValidators environmentId attemptId tasks in
  applySolutions environmentId attemptId tasks repoPath ;;
  let* goldenResults := ci_runValidators environmentId attemptId tasks in
  let* more := for_map (seq 1 (FLAKE_RUNS config - 1)) (fun _ => ci_runValidators environmentId attemptId tasks) in
  let* elapsedMs := select (fun log => ci_now log - startedAt) in
  let falsePasses := List.filter passes nullResults in
  let falseFails := List.filter (fun r => negb (passes r)) goldenResults in
  let flaky := flaky_ids tasks (goldenResults :: more) in
  Ret (complain (Nat.ltb 0 (List.length falsePasses)) (NullPathFail (vr_id <$> falsePasses)) ++
       complain (Nat.ltb 0 (List.length falseFails)) (GoldenPathFail falseFails) ++
       complain (Nat.ltb 0 (List.length flaky)) (FlakeDetected flaky) ++
       complain (negb (Qle_bool (estimated_cost elapsedMs) (CI_BUDGET_USD config))) CostOverBudget).
(** [try { p } finally { q }]. *)
Definition finally {A} (p : io A) (q : io unit) : io A :=
  let* r := try_catch (let* a := p in Ret (inr a)) (fun e => Ret (inl e)) in
  q ;;
  raise r.
(** The verdict is true when nothing is complained about; a skipped activity has
    none. *)
Definition checkActivity (spec : CiActivity) (explicitlyRequested : bool) : io (bool * list Complaint) :=
  match classifySolution spec with
  | Runnable repoPath =>
      let* startedAt := select ci_now in
      let* attemptId := select randomUUID in
      let* provisionResp := rpc "Provision" (ci_provision_body spec attemptId) 60000 in
      if negb (String.eqb (jtext "status" provisionResp) "ENVIRONMENT_STATUS_READY")
      then Ret (false, [ProvisionFailed (jtext "status" provisionResp)])
      else
        let environmentId := jtext "environmentId" provisionResp in
        let* complaints := finally (measure spec repoPath environmentId attemptId startedAt)
                             (rpc "Destroy" (destroy_body environmentId attemptId) 60000 ;; Ret tt) in
        Ret (match complaints with [] => true | _ => false end, complaints)
  | _ => Ret (if explicitlyRequested then (false, [NoGoldenPath]) else (true, []))
  end.

(** ** main *)
Definition parseSelectors (argv : list string) : list string :=
  List.filter (fun s => negb (String.eqb s EmptyString)) (trim <$> concat (split_on "," <$> argv)).
(** The files to check, or none when a selector matches nothing. *)
Definition matching (allFiles : list string) (sel : string) : list string := List.filter (includes sel) allFiles.
Definition select_files (allFiles selectors : list string) : option (list string) :=
  match selectors with
  | [] => Some allFiles
  | _ => if existsb (fun sel => Nat.eqb (List.length (matching allFiles sel)) 0) selectors then None
         else Some (uniq (concat (matching allFiles <$> selectors)))
  end.
Fixpoint check_all (load : string -> exn + CiActivity) (explicit : bool) (files : list string) (allOk : bool) : io bool :=
  match files with
  | [] => Ret allOk
  | file :: files =>
      let* ok := try_catch (let* spec := raise (load file) in let* r := checkActivity spec explicit in Ret r.1) (fun _ => Ret false) in
      check_all load explicit files (allOk && ok)
  end.
(** The exit code. *)
Definition ci_main (load : string -> exn + CiActivity) (allFiles argv : list string) : io Z :=
  let selectors := parseSelectors argv in
  let explicit := match selectors with [] => false | _ => true end in
  match select_files (List.filter (fun f => String.eqb (String.substring (String.length f - 5) 5 f) ".yaml") allFiles) selectors with
  | None => Ret 1
  | Some files =>
      let* allOk := check_all load explicit files true in
      Ret (if allOk then 0 else 1)
  end.
End Check.

(** ** The verdict *)
Section Verdict.
Context `{Rounding} `{CiHost}.
Variables (config : CiConfig) (randomUUID : Requests -> string).
Abbreviation io := (prog Requests) (only parsing).

Lemma for_map_length {A B} (l : list A) (f : A -> io B) : forall log bs log', run (for_map l f) log = (inr bs, log') -> List.length bs = List.length l.
Proof.
  induction l as [|x l IH]; intros log bs log'; cbn [for_map]; [now intros [= <- _]|].
  rewrite run_bind. destruct (run (f x) log) as [[e|b] log1]; [discriminate|]. rewrite run_bind.
  destruct (run (for_map l f) log1) as [[e|bs'] log2] eqn:E; [discriminate|]. intros [= <- _]. cbn. f_equal. eauto.
Qed.
(** What every element of a loop answers. *)
Lemma for_map_forall2 {A B} (P : A -> B -> Prop) (l : list A) (f : A -> io B) :
  (forall x log b log', run (f x) log = (inr b, log') -> P x b) ->
  forall log bs log', run (for_map l f) log = (inr bs, log') -> Forall2 P l bs.
Proof.
  intros F. induction l as [|x l IH]; intros log bs log'; cbn [for_map]; [intros [= <- _]; constructor|].
  rewrite run_bind. destruct (run (f x) log) as [[e|b] log1] eqn:E1; [discriminate|]. rewrite run_bind.
  destruct (run (for_map l f) log1) as [[e|bs'] log2] eqn:E; [discriminate|]. intros [= <- _]. constructor; eauto.
Qed.
Lemma run_results env attempt tasks log rs log' : run (ci_runValidators config env attempt tasks) log = (inr rs, log') ->
  vr_id <$> rs = cv_id <$> all_validators tasks.
Proof.
  intros R. apply (for_map_forall2 (fun v r => vr_id r = cv_id v)) in R; [|].
  - induction R as [|v r l l' E _ IH]; [reflexivity|]. cbn. now rewrite E, IH.
  - intros v l b l'. rewrite run_bind. destruct (run (rpc _ _ _ _) l) as [[e|res] l1]; [discriminate|]. now intros [= <- _].
Qed.

Lemma find_by_id rs r : NoDup (vr_id <$> rs) -> In r rs -> List.find (fun x => String.eqb (vr_id x) (vr_id r)) rs = Some r.
Proof.
  induction rs as [|x rs IH]; [easy|]. cbn. intros [N D]%NoDup_cons [->|I]; [now rewrite String.eqb_refl|].
  destruct (String.eqb_spec (vr_id x) (vr_id r)) as [E|_]; [|auto]. destruct N. rewrite E. apply list_elem_of_fmap. exists r.
  split; [easy|]. now apply list_elem_of_In.
Qed.
Lemma uniq_small {A} `{EqDecision A} (l : list A) : (List.length (uniq l) <= 1)%nat <-> forall x y, x ∈ l -> y ∈ l -> x = y.
Proof.
  split.
  - intros L x y X Y. rewrite <- (elem_of_uniq l) in X, Y. destruct (uniq l) as [|a [|b u]]; cbn in L; [now apply elem_of_nil in X| |lia].
    apply list_elem_of_singleton in X, Y. congruence.
  - intros E. pose proof (NoDup_uniq l) as D. destruct (uniq l) as [|a [|b u]] eqn:U; cbn; [lia..|]. exfalso.
    apply NoDup_cons in D as [D _]. apply D. assert (a = b) as -> by (apply E; apply elem_of_uniq; rewrite U; set_solver). now left.
Qed.
Definition steady (tasks : list CiTask) (runs : list (list ValidatorRunResult)) : Prop :=
  forall id r1 r2, id ∈ cv_id <$> all_validators tasks -> r1 ∈ runs -> r2 ∈ runs -> status_in id r1 = status_in id r2.
Lemma flaky_none tasks runs : flaky_ids tasks runs = [] <-> steady tasks runs.
Proof.
  unfold flaky_ids. rewrite filter_nil, Forall_forall. unfold steady. split.
  - intros F id r1 r2 I R1 R2. specialize (F id I). apply Nat.ltb_ge in F.
    apply uniq_small with (l := status_in id <$> runs); [exact F | |]; now apply list_elem_of_fmap_2.
  - intros E id I. apply Nat.ltb_ge, uniq_small. intros x y (r1 & -> & R1)%list_elem_of_fmap (r2 & -> & R2)%list_elem_of_fmap. eauto.
Qed.
(** Runs that agree with a passing one pass, when no two validators share an id. *)
Lemma steady_passes tasks golden more : NoDup (cv_id <$> all_validators tasks) ->
  Forall (fun rs => vr_id <$> rs = cv_id <$> all_validators tasks) (golden :: more) ->
  Forall (fun r => passes r = true) golden ->
  (steady tasks (golden :: more) <-> Forall (Forall (fun r => passes r = true)) more).
Proof.
  intros D I G. assert (St : forall rs r, rs ∈ golden :: more -> r ∈ rs -> status_in (vr_id r) rs = Some (vr_status r)).
  { intros rs r M R. rewrite Forall_forall in I. unfold status_in. rewrite find_by_id; [easy | rewrite (I rs M); exact D | now apply list_elem_of_In]. }
  assert (Pass : forall rs id, rs ∈ golden :: more -> Forall (fun r => passes r = true) rs -> id ∈ cv_id <$> all_validators tasks -> status_in id rs = Some "PASS"%string).
  { intros rs id M P E. rewrite Forall_forall in I. rewrite <- (I rs M) in E. apply list_elem_of_fmap in E as (r & -> & R).
    rewrite (St rs r M R). rewrite Forall_forall in P. specialize (P r R). unfold passes in P. apply String.eqb_eq in P. now rewrite P. }
  split.
  - intros S. apply Forall_forall. intros rs M. apply Forall_forall. intros r R. unfold passes. apply String.eqb_eq.
    assert (E : vr_id r ∈ cv_id <$> all_validators tasks).
    { rewrite Forall_forall in I. rewrite <- (I rs) by now right. now apply list_elem_of_fmap_2. }
    specialize (S (vr_id r) golden rs E ltac:(now left) ltac:(now right)).
    rewrite (St rs r ltac:(now right) R), (Pass golden (vr_id r) ltac:(now left) G E) in S. congruence.
  - intros P id r1 r2 E M1 M2.
    assert (All : forall rs, rs ∈ golden :: more -> Forall (fun r => passes r = true) rs).
    { intros rs [->|M]%elem_of_cons; [easy|]. rewrite Forall_forall in P. auto. }
    rewrite !Pass; auto.
Qed.

(** The runs of an activity on a provisioned environment, one after the other. *)
Record measured (spec : CiActivity) (repoPath env attempt : string) (log : Requests)
    (null golden : list ValidatorRunResult) (more : list (list ValidatorRunResult)) (log' : Requests) : Prop := {
  untouched_solved : exists l1 l2 l3,
    run (ci_runValidators config env attempt (ca_tasks spec)) log = (inr null, l1) /\
    run (applySolutions config env attempt (ca_tasks spec) repoPath) l1 = (inr tt, l2) /\
    run (ci_runValidators config env attempt (ca_tasks spec)) l2 = (inr golden, l3) /\
    run (for_map (seq 1 (FLAKE_RUNS config - 1)) (fun _ => ci_runValidators config env attempt (ca_tasks spec))) l3 = (inr more, log');
  run_again : List.length more = (FLAKE_RUNS config - 1)%nat;
  of_all : Forall (fun rs => vr_id <$> rs = cv_id <$> all_validators (ca_tasks spec)) (null :: golden :: more) }.

Lemma complain_none b c : complain b c = [] <-> b = false.
Proof. now destruct b. Qed.
Lemma some_left {A} (l : list A) : Nat.ltb 0 (List.length l) = false <-> l = [].
Proof. now destruct l. Qed.
Lemma run_measure spec repoPath env attempt startedAt log cs log' :
  NoDup (cv_id <$> all_validators (ca_tasks spec)) ->
  run (measure config spec repoPath env attempt startedAt) log = (inr cs, log') ->
  exists null golden more, measured spec repoPath env attempt log null golden more log' /\
    (cs = [] <-> Forall (fun r => passes r = false) null /\ Forall (fun r => passes r = true) golden /\
       Forall (Forall (fun r => passes r = true)) more /\ (estimated_cost (ci_now log' - startedAt) <= CI_BUDGET_USD config)%Q).
Proof.
  intros D. unfold measure. rewrite run_bind. destruct (run (ci_runValidators _ _ _ _) log) as [[|null] l1] eqn:E1; [discriminate|].
  rewrite run_bind. destruct (run (applySolutions _ _ _ _ _) l1) as [[|[]] l2] eqn:E2; [discriminate|].
  rewrite run_bind. destruct (run (ci_runValidators _ _ _ _) l2) as [[|golden] l3] eqn:E3; [discriminate|].
  rewrite run_bind. destruct (run (for_map _ _) l3) as [[|more] l4] eqn:E4; [discriminate|].
  rewrite run_bind, run_select, run_ret. intros R. injection R as <- <-. exists null, golden, more.
  assert (I : Forall (fun rs => vr_id <$> rs = cv_id <$> all_validators (ca_tasks spec)) (null :: golden :: more)).
  { constructor; [eapply run_results, E1|]. constructor; [eapply run_results, E3|].
    apply (for_map_forall2 (fun _ rs => vr_id <$> rs = cv_id <$> all_validators (ca_tasks spec))) in E4.
    - clear -E4. induction E4; constructor; auto.
    - intros _ l rs l' R. eapply run_results, R. }
  split.
  - split; [exists l1, l2, l3; now split_and! | | exact I]. apply for_map_length in E4. now rewrite length_seq in E4.
  - assert (App : forall a b : list Complaint, a ++ b = [] <-> a = [] /\ b = []) by (intros a b; destruct a; cbn; intuition discriminate).
    rewrite !App, !complain_none, !some_left, negb_false_iff, Qle_bool_iff, flaky_none, !filter_nil.
    assert (G : Forall (fun r => negb (passes r) = false) golden <-> Forall (fun r => passes r = true) golden).
    { split; intros F; (eapply Forall_impl; [exact F|]); intros r; cbn beta; destruct (passes r); cbn; congruence. }
    rewrite G. inversion I as [|? ? _ I']; subst. split; intros (N & P & S & C); split_and!; auto; now apply (steady_passes (ca_tasks spec) golden more D I' P).
Qed.
Lemma run_finally {A} (p : io A) q log a log' : run (finally p q) log = (inr a, log') ->
  exists l, run p log = (inr a, l) /\ run q l = (inr tt, log').
Proof.
  unfold finally. rewrite run_bind, run_try, run_bind. destruct (run p log) as [[e|b] l]; cbn beta iota; rewrite run_ret, run_bind;
    destruct (run q l) as [[e2|[]] l2] eqn:Q; try discriminate; cbn [raise].
  intros [= -> <-]. eauto.
Qed.

(** C33: an activity with a runnable reference solution is accepted exactly when,
    on a provisioned environment, no validator passed before the solution was
    applied, every validator passed after it and again in each of the repeated
    runs, and the estimated cost is within the budget; with validator ids that
    are distinct in the activity. *)
Theorem ci_verdict spec explicit repoPath log ok complaints log' :
  classifySolution spec = Runnable repoPath -> NoDup (cv_id <$> all_validators (ca_tasks spec)) ->
  run (checkActivity config randomUUID spec explicit) log = (inr (ok, complaints), log') ->
  (ok = true <-> complaints = []) /\
  ((exists status, status <> "ENVIRONMENT_STATUS_READY"%string /\ complaints = [ProvisionFailed status]) \/
   exists env l1 null golden more l2,
     measured spec repoPath env (randomUUID log) l1 null golden more l2 /\
     (ok = true <-> Forall (fun r => passes r = false) null /\ Forall (fun r => passes r = true) golden /\
        Forall (Forall (fun r => passes r = true)) more /\ (estimated_cost (ci_now l2 - ci_now log) <= CI_BUDGET_USD config)%Q)).
Proof.
  intros C D. unfold checkActivity. rewrite C, run_bind, run_select, run_bind, run_select, run_bind.
  destruct (run (rpc _ _ _ _) log) as [[e|resp] l1]; [discriminate|].
  destruct (String.eqb_spec (jtext "status" resp) "ENVIRONMENT_STATUS_READY") as [_|N]; cbn [negb].
  - rewrite run_bind. destruct (run (finally _ _) l1) as [[e|cs] l3] eqn:F; [discriminate|]. rewrite run_ret. intros [= <- <- <-].
    split; [now destruct cs|]. right. apply run_finally in F as (l2 & M & _).
    destruct (run_measure _ _ _ _ _ _ _ _ D M) as (null & golden & more & Ms & V).
    exists (jtext "environmentId" resp), l1, null, golden, more, l2. split; [exact Ms|]. rewrite <- V. now destruct cs.
  - rewrite run_ret. intros [= <- <- _]. split; [easy|]. left. eauto.
Qed.

(** ** The environment *)
Definition provision_rq (spec : CiActivity) (log : Requests) : GrpcRequest :=
  mkGrpcRequest "Provision" (ci_provision_body spec (randomUUID log)) (ci_metadata config) 60000.
Definition destroy_rq (env attempt : string) : GrpcRequest :=
  mkGrpcRequest "Destroy" (destroy_body env attempt) (ci_metadata config) 60000.
(** A validator or a solution script, on the environment. *)
Definition working (env attempt : string) (rq : GrpcRequest) : Prop :=
  (exists v, rq = mkGrpcRequest "ExecValidator" (validator_body env attempt v) (ci_metadata config) 60000) \/
  (exists script, rq = mkGrpcRequest "ExecShell" (shell_body env attempt script) (ci_metadata config) 95000).

Lemma run_rpc method body deadline log :
  run (rpc config method body deadline) log =
  (match ci_serve log (mkGrpcRequest method body (ci_metadata config) deadline) with
   | inl (code, message) => inl (JsError ("gRPC " ++ method ++ " failed: " ++ code ++ " " ++ message)%string)
   | inr response => inr response
   end, log ++ [mkGrpcRequest method body (ci_metadata config) deadline]).
Proof. unfold rpc. rewrite run_bind. cbn. now destruct (ci_serve _ _) as [[code message]|response]. Qed.
Lemma sends_rpc (P : GrpcRequest -> Prop) method body deadline :
  P (mkGrpcRequest method body (ci_metadata config) deadline) -> sends P (rpc config method body deadline).
Proof. intros Q log. rewrite run_rpc. eexists. split; [reflexivity | now constructor]. Qed.
#[local] Hint Resolve sends_rpc : sends.

Lemma sends_validators env attempt tasks : sends (working env attempt) (ci_runValidators config env attempt tasks).
Proof.
  apply sends_for_map. intros v. apply sends_bind; [|auto with sends]. apply sends_rpc. left. now exists v.
Qed.
Lemma sends_solutions env attempt tasks repoPath : sends (working env attempt) (applySolutions config env attempt tasks repoPath).
Proof.
  apply sends_for_each. intros task. destruct (truthy (ct_solution_apply task)) as [rel|]; [|auto with sends]. unfold apply_solution.
  destruct (ci_script repoPath rel) as [script|]; [|auto with sends]. apply sends_bind.
  - apply sends_rpc. right. now exists script.
  - intros resp. destruct (js_true _); [auto with sends|]. destruct (exited_zero _); auto with sends.
Qed.
#[local] Hint Resolve sends_validators sends_solutions : sends.
Lemma sends_measure spec repoPath env attempt startedAt : sends (working env attempt) (measure config spec repoPath env attempt startedAt).
Proof. unfold measure. repeat (apply sends_bind; [auto with sends | intros ?]). auto with sends. Qed.

(** Whatever the orchestrator answers and whatever goes wrong, an environment
    that became ready is destroyed once, by the last request, and all requests in
    between are validators and solution scripts on it; without a runnable solution
    nothing is sent. *)
Theorem environment_destroyed spec explicit log :
  let log' := snd (run (checkActivity config randomUUID spec explicit) log) in
  match classifySolution spec with
  | Runnable _ =>
      match ci_serve log (provision_rq spec log) with
      | inr response =>
          if String.eqb (jtext "status" response) "ENVIRONMENT_STATUS_READY" then
            exists work, log' = log ++ provision_rq spec log :: work ++ [destroy_rq (jtext "environmentId" response) (randomUUID log)] /\
              Forall (working (jtext "environmentId" response) (randomUUID log)) work
          else log' = log ++ [provision_rq spec log]
      | inl _ => log' = log ++ [provision_rq spec log]
      end
  | _ => log' = log
  end.
Proof.
  cbv zeta. unfold checkActivity. destruct (classifySolution spec) as [repoPath| |missing]; [|reflexivity..].
  rewrite run_bind, run_select, run_bind, run_select, run_bind, run_rpc. fold (provision_rq spec log).
  destruct (ci_serve _ _) as [[code message]|resp]; [reflexivity|].
  destruct (String.eqb _ _); cbn [negb]; [|reflexivity].
  set (env := jtext "environmentId" resp). set (attempt := randomUUID log). set (l1 := log ++ [provision_rq spec log]).
  rewrite run_bind. unfold finally. rewrite run_bind, run_try, run_bind.
  destruct (sends_measure spec repoPath env attempt (ci_now log) l1) as (work & E & F).
  exists work. split; [|exact F]. destruct (run (measure _ _ _ _ _ _) l1) as [o l2]. cbn [snd] in E. subst l2.
  assert (G : forall (r : exn + list Complaint), snd (match run (rpc config "Destroy" (destroy_body env attempt) 60000 ;; Ret tt) (l1 ++ work) with
    | (inr _, s') => run (match r with inl e => Throw e | inr a => Ret a end) s' | (inl e, s') => (inl e, s') end) =
    log ++ provision_rq spec log :: work ++ [destroy_rq env attempt]).
  { intros r. rewrite run_bind, run_rpc. unfold l1. rewrite <- !app_assoc. cbn [app]. destruct (ci_serve _ _) as [[c m]|resp2]; [reflexivity|].
    rewrite run_ret. now destruct r. }
  destruct o as [e|cs]; cbn beta iota; rewrite run_ret, run_bind.
  - specialize (G (inl e)). destruct (run (_ ;; Ret tt) (l1 ++ work)) as [[e2|[]] l3]; exact G.
  - specialize (G (inr cs)). destruct (run (_ ;; Ret tt) (l1 ++ work)) as [[e2|[]] l3]; exact G.
Qed.
End Verdict.

(** ** Which files are checked *)
Lemma in_matching allFiles sel f : f ∈ matching allFiles sel <-> f ∈ allFiles /\ includes sel f = true.
Proof. unfold matching. rewrite !list_elem_of_In. apply filter_In. Qed.

(** The selectors choose exactly the files whose name contains one of them,
    each once, and a selector that matches nothing stops the run; without
    selectors every file is checked. *)
Theorem files_selected allFiles selectors :
  match select_files allFiles selectors with
  | None => exists sel, sel ∈ selectors /\ forall f, f ∈ allFiles -> includes sel f = false
  | Some files =>
      (forall sel, sel ∈ selectors -> exists f, f ∈ files /\ includes sel f = true) /\
      (selectors <> [] -> NoDup files) /\
      (forall f, f ∈ files <-> f ∈ allFiles /\ (selectors = [] \/ exists sel, sel ∈ selectors /\ includes sel f = true))
  end.
Proof.
  unfold select_files. destruct selectors as [|s0 l]; [split_and!; [now intros ? ?%elem_of_nil | easy | intuition] |].
  set (sels := s0 :: l). destruct (existsb _ sels) eqn:E.
  - apply existsb_exists in E as (sel & I & N). apply Nat.eqb_eq, List.length_zero_iff_nil in N. exists sel.
    split; [now apply list_elem_of_In|]. intros f F. apply not_true_iff_false. intros T.
    assert (M : f ∈ matching allFiles sel) by now apply in_matching. rewrite N in M. now apply elem_of_nil in M.
  - assert (U : forall f, f ∈ uniq (concat (matching allFiles <$> sels)) <-> f ∈ allFiles /\ exists sel, sel ∈ sels /\ includes sel f = true).
    { intros f. rewrite elem_of_uniq, list_elem_of_In, in_concat. split.
      - intros (m & M & I). apply list_elem_of_In, list_elem_of_fmap in M as (sel & -> & S). apply list_elem_of_In, in_matching in I as [I T]. eauto.
      - intros (I & sel & S & T). exists (matching allFiles sel). split; [now apply list_elem_of_In, list_elem_of_fmap_2|].
        now apply list_elem_of_In, in_matching. }
    split_and!; [|intros _; apply NoDup_uniq | intros f; rewrite U; intuition discriminate].
    intros sel S. assert (N : matching allFiles sel <> []).
    { intros N. rewrite <- not_true_iff_false, existsb_exists in E. apply E. exists sel. rewrite N. split; [now apply list_elem_of_In | easy]. }
    destruct (matching allFiles sel) as [|f m] eqn:M; [easy|]. exists f.
    assert (I : f ∈ matching allFiles sel) by (rewrite M; now left). apply in_matching in I as [I T]. split; [|exact T]. apply U. eauto.
Qed.

(** A lab with two tasks on a host that solves it. *)
Module Ci.
#[local] Existing Instance binary64.
Definition config : CiConfig := mkCiConfig (Some "s3cret"%string) 5 (8 # 100).
Definition validator (id run : string) : CiValidator := mkCiValidator id "SHELL_ASSERT" (Some run) None.
Definition lab (id1 id2 : string) : CiActivity := mkCiActivity "lab.demo" "SHARED_CONTAINER" "bp.demo" [("fx.ready"%string, None)]
  [mkCiTask [validator id1 "test -f a"] (Some "t1.sh"%string); mkCiTask [validator id2 "test -f b"] None] (Some "solutions/demo"%string).
Definition count (method : string) (log : Requests) : nat := List.length (List.filter (fun rq => String.eqb (gq_method rq) method) log).
(** Before the solution everything fails; after it validators pass, those that
    run [test -f b] only the first time when [flaky]. *)
#[local] Instance host (flaky : bool) : CiHost := {|
  ci_serve := fun log rq => inr (
    if String.eqb (gq_method rq) "Provision" then JObj [("status"%string, JStr "ENVIRONMENT_STATUS_READY"); ("environmentId"%string, JStr "env-1")]
    else if String.eqb (gq_method rq) "ExecShell" then JObj [("exitCode"%string, JNum 0)]
    else JObj [("status"%string, JStr (
      if (Nat.eqb (count "ExecShell" log) 0 || flaky && Nat.ltb 4 (count "ExecValidator" log) && String.eqb (default EmptyString (jstring "run" (gq_body rq))) "test -f b")%bool
      then "FAIL" else "PASS"))]);
  ci_script := fun _ _ => Some "touch a b"%string;
  ci_now := fun log => Z.of_nat (List.length log) * 1000 |}.
Definition check (flaky : bool) (id1 id2 : string) : (exn + bool * list Complaint) * Requests :=
  run (@checkActivity _ (host flaky) config (fun _ => "uuid"%string) (lab id1 id2) true) [].

Lemma ci_verdict_witness : exists env l1 null golden more l2,
  @measured _ (host false) config (lab "v1" "v2") "solutions/demo" env "uuid" l1 null golden more l2 /\
  Forall (fun r => passes r = true) golden.
Proof.
  destruct (@ci_verdict _ (host false) config (fun _ => "uuid"%string) (lab "v1" "v2") true "solutions/demo" [] true [] (snd (check false "v1" "v2"))
    eq_refl ltac:(repeat constructor; set_solver) ltac:(vm_compute; reflexivity)) as [_ [(st & _ & E)|(env & l1 & null & golden & more & l2 & M & V)]]; [discriminate|].
  exists env, l1, null, golden, more, l2. split; [exact M | now apply V].
Defined.

(** The ids of two validators of different tasks coincide: only the first of them
    is compared, so the flaky second one is accepted. *)
Lemma duplicate_id_hides_flake :
  fst (check true "v1" "v2") = inr (false, [FlakeDetected ["v2"%string]]) /\ fst (check true "v" "v") = inr (true, []).
Proof. split; vm_compute; reflexivity. Qed.
End Ci.
