(* ===== verification/WebSim.v ===== *)
(** * The incident view of a simulation

    src/web/src/lib/sim.ts, lib/format.ts and the decisions of
    components/sim/SimShell.tsx and SimDebrief.tsx: the ticket, the symptoms,
    the SLA clock and the escalations a learner of a PRODUCTION_SIM activity is
    shown.  The texts are modelled, the markup around them is not.  A time is
    the number of milliseconds Date.now and Date.parse give. *)
From Stdlib Require Import Ascii Sorting.Sorted.
From stdpp Require Import pretty.
From S2P Require Import Prelude RegExp JsNum JsText JsonParse JsonLaws Binary64 Effects Schema AttemptStatus AttemptService.
Local Open Scope string_scope.

(** The part of an ActivitySpec (lib/api-client.ts) the view reads. *)
Record SpecMeta := mkSpecMeta {
  me_title : option string; me_summary : option string; me_difficulty_level : option string; me_estimated_minutes : option Q }.
Record SimSpec := mkSimSpec { ss_meta : option SpecMeta; ss_faults : option (list FaultSpec) }.

Record SimTicket := mkSimTicket { ti_title : string; ti_body : string; ti_difficulty : option string }.
Record SimSymptom := mkSimSymptom {
  sy_label : string; sy_faultId : string; sy_appliesAt : string; sy_appliesAtMinutes : Q }.
Record SimClock := mkSimClock {
  ck_elapsedMs : Q; ck_budgetMs : option Q; ck_fraction : Q; ck_overSla : bool;
  ck_nextEscalation : option SimSymptom; ck_firedEscalations : list SimSymptom }.

Section Sim.
Context `{Rounding}.

(** [/^T\+(\d+)$/] on the trimmed text. *)
Definition parseApplyAt (applyAt : string) : Q :=
  let t := trim applyAt in
  if test (rx "^T\+(\d+)$") t then lit (inject_Z (digits_value (drop 2 (explode t)))) else 0%Q.

Definition or_else (o : option string) (fallback : string) : string := or_text (default "" o) fallback.
Definition buildTicket (spec : SimSpec) : SimTicket :=
  mkSimTicket
    (or_else (m ← ss_meta spec; t ← me_title m; Some (trim t)) "Production incident")
    (or_else (m ← ss_meta spec; t ← me_summary m; Some (trim t))
       "An incident has been raised against this service. Diagnose the root cause(s) and restore normal operation.")
    (m ← ss_meta spec; me_difficulty_level m).

(** [tail.replace(/-/g, ' ')]. *)
Definition faultLabel (faultId : string) : string :=
  replace_all (rx "-") (fun _ => " ") (List.last (split_on "."%char faultId) faultId).

(** The stable sort of [Array.sort]. *)
Fixpoint insert_symptom (s : SimSymptom) (l : list SimSymptom) : list SimSymptom :=
  match l with
  | [] => [s]
  | x :: l' => if (sy_appliesAtMinutes s <=? sy_appliesAtMinutes x)%Q then s :: l else x :: insert_symptom s l'
  end.
Definition sort_symptoms (l : list SimSymptom) : list SimSymptom := fold_right insert_symptom [] l.
Definition symptom (f : FaultSpec) : SimSymptom :=
  mkSimSymptom (faultLabel (f_id f)) (f_id f) (f_apply_at f) (parseApplyAt (f_apply_at f)).
Definition buildSymptoms (spec : SimSpec) : list SimSymptom :=
  sort_symptoms (symptom <$> default [] (ss_faults spec)).

Definition escalations (spec : SimSpec) : list SimSymptom :=
  List.filter (fun s => 0 <? sy_appliesAtMinutes s)%Q (buildSymptoms spec).
(** [started_at] parsed; null is now. *)
Definition elapsed (started_at : option Z) (now : Z) : Z := Z.max 0 (now - default now started_at).
Definition budget (spec : SimSpec) : option Q :=
  m ← ss_meta spec; minutes ← me_estimated_minutes m; Some (minutes *! 60000).

Definition computeClock (spec : SimSpec) (started_at : option Z) (now : Z) : SimClock :=
  let elapsedMs := inject_Z (elapsed started_at now) in
  let budgetMs := budget spec in
  let fraction := match budgetMs with
                  | Some b => if (0 <? b)%Q then jmin (3 # 2) (elapsedMs /! b) else 0%Q
                  | None => 0%Q
                  end in
  let overSla := match budgetMs with Some b => (b <? elapsedMs)%Q | None => false end in
  let elapsedMinutes := elapsedMs /! 60000 in
  let fired := List.filter (fun s => sy_appliesAtMinutes s <=? elapsedMinutes)%Q (escalations spec) in
  let pending := List.filter (fun s => elapsedMinutes <? sy_appliesAtMinutes s)%Q (escalations spec) in
  mkSimClock elapsedMs budgetMs fraction overSla (head pending) fired.
End Sim.

(** [String(n).padStart(2, '0')]; the durations shown are not negative. *)
Definition formatDuration (ms : Z) : string :=
  let total := ms / 1000 in
  padded 2 (total / 60) ++ ":" ++ padded 2 (total mod 60).
Definition isProductionSim (mode : option string) : bool := bool_decide (mode = Some "PRODUCTION_SIM").

(** ** lib/format.ts *)
Definition formatPercent `{Rounding} (value : Q) : string :=
  let rounded := jround (value *! 100) in
  pretty (if (rounded =? 0)%Z then 0%Z else rounded) ++ "%".
Definition formatMode (mode : string) : string := replace_all (rx "_") (fun _ => " ") mode.

(** ** SimShell.tsx *)
Section Shell.
Context `{Rounding}.

Inductive BarColor := danger | warning | accent.
Record SlaTimerView := mkSlaTimerView {
  sl_color : BarColor; sl_time : string; sl_bar : option Z; sl_over : bool }.
Definition SlaTimer (clock : SimClock) : SlaTimerView :=
  let pct := jround (ck_fraction clock *! 100) in
  mkSlaTimerView
    (if ck_overSla clock then danger else if (lit (8 # 10) <? ck_fraction clock)%Q then warning else accent)
    (formatDuration (jfloor (ck_elapsedMs clock)) ++
     match ck_budgetMs clock with Some b => " / " ++ formatDuration (jfloor b) | None => "" end)
    (match ck_budgetMs clock with Some _ => Some (Z.min 100 pct) | None => None end)
    (ck_overSla clock).

(** A row of the list: its label, whether it is lit, and the note beside it. *)
Record SymptomView := mkSymptomView { sv_faultId : string; sv_label : string; sv_active : bool; sv_note : option string }.
Definition symptom_view (clock : SimClock) (s : SimSymptom) : SymptomView :=
  let isEscalation := (0 <? sy_appliesAtMinutes s)%Q in
  let active := negb isEscalation || bool_decide (sy_faultId s ∈ sy_faultId <$> ck_firedEscalations clock) in
  mkSymptomView (sy_faultId s) (sy_label s) active
    (if isEscalation then Some (if active then "escalated" else "escalates " ++ sy_appliesAt s) else None).
Definition SymptomList (symptoms : list SimSymptom) (clock : SimClock) : list SymptomView := symptom_view clock <$> symptoms.

Inductive Banner := Escalated (text : string) | Expected (text : string).
Definition EscalationBanner (clock : SimClock) : option Banner :=
  match last (ck_firedEscalations clock) with
  | Some justFired => Some (Escalated ("Escalation: a second failure — " ++ faultLabel (sy_faultId justFired) ++
      " — has now surfaced (" ++ sy_appliesAt justFired ++ "). Re-triage; the ticket now has more than one root cause."))
  | None =>
      match ck_nextEscalation clock with
      | Some next => Some (Expected ("Heads up: this incident is expected to escalate at " ++ sy_appliesAt next ++ " if not contained."))
      | None => None
      end
  end.

(** IncidentNoteEditor's button, and what it says after a submission. *)
Definition note_too_short (content : string) : bool := (String.length (trim content) <? 40)%nat.
Definition saved_note (provisional : bool) : string :=
  if provisional then "Submitted. This note will be human-reviewed before it affects any score." else "Submitted.".

(** ** SimDebrief.tsx *)
Record FaultView := mkFaultView { fv_label : string; fv_faultId : string; fv_badge : option string; fv_text : string }.
Definition injected_text : string :=
  "This fault was injected into your environment after the health gate passed. See the reference solution for the full diagnostic path and fix.".
Definition fault_view (faultNotes : list (string * string)) (s : SimSymptom) : FaultView :=
  mkFaultView (sy_label s) (sy_faultId s)
    (if (0 <? sy_appliesAtMinutes s)%Q then Some ("escalated " ++ sy_appliesAt s) else None)
    (default injected_text (snd <$> List.find (fun kv => String.eqb kv.1 (sy_faultId s)) faultNotes)).
Definition debrief_faults (faultNotes : list (string * string)) (spec : SimSpec) : list FaultView :=
  fault_view faultNotes <$> buildSymptoms spec.
Definition debrief_penalties (penalties : list (string * Q)) : list string :=
  (fun kv => replace_all (rx "_") (fun _ => " ") kv.1 ++ " −" ++ formatPercent kv.2) <$>
  List.filter (fun kv => 0 <? kv.2)%Q penalties.
End Shell.

(** ** Symptoms *)
Section SimLaws.
Context `{Rounding}.
Local Open Scope list_scope.
Local Open Scope Q_scope.

Definition by_minutes (a b : SimSymptom) : Prop := sy_appliesAtMinutes a <= sy_appliesAtMinutes b.
Definition at_minute (m : Q) (s : SimSymptom) : bool := Qeq_bool (sy_appliesAtMinutes s) m.

Lemma insert_symptom_perm s l : insert_symptom s l ≡ₚ s :: l.
Proof. induction l as [|x l IH]; cbn; [easy|]. destruct (_ <=? _); [easy|]. rewrite IH. apply Permutation_swap. Qed.
Lemma insert_symptom_sorted s l : StronglySorted by_minutes l -> StronglySorted by_minutes (insert_symptom s l).
Proof.
  induction 1 as [|x l S IH F]; cbn; [repeat constructor|]. destruct (_ <=? _) eqn:E; qprop.
  - constructor; [now constructor|]. constructor; [exact E|]. eapply Forall_impl; [exact F|]. unfold by_minutes. intros y Y. lra.
  - constructor; [exact IH|]. rewrite insert_symptom_perm. constructor; [unfold by_minutes; lra | exact F].
Qed.
Lemma insert_symptom_stable m s l : StronglySorted by_minutes l ->
  List.filter (at_minute m) (insert_symptom s l) = List.filter (at_minute m) (s :: l).
Proof.
  induction 1 as [|x l S IH F]; [reflexivity|]. cbn [insert_symptom]. destruct (_ <=? _) eqn:E; [reflexivity|]. qprop.
  cbn [List.filter] in *. rewrite IH. destruct (at_minute m s) eqn:A, (at_minute m x) eqn:B; try reflexivity.
  unfold at_minute in A, B. apply Qeq_bool_eq in A, B. lra.
Qed.
Lemma sort_symptoms_spec l : sort_symptoms l ≡ₚ l /\ StronglySorted by_minutes (sort_symptoms l) /\
  forall m, List.filter (at_minute m) (sort_symptoms l) = List.filter (at_minute m) l.
Proof.
  induction l as [|s l (P & S & T)]; cbn; [split_and!; [easy | constructor | easy]|]. split_and!.
  - now rewrite insert_symptom_perm, P.
  - now apply insert_symptom_sorted.
  - intros m. rewrite insert_symptom_stable by exact S. cbn. now rewrite T.
Qed.

(** The list of symptoms has one row for each authored fault, earliest
    first, and faults of the same minute keep the author's order. *)
Theorem symptoms_ordered spec :
  buildSymptoms spec ≡ₚ symptom <$> default [] (ss_faults spec) /\ StronglySorted by_minutes (buildSymptoms spec) /\
  forall m, List.filter (at_minute m) (buildSymptoms spec) = List.filter (at_minute m) (symptom <$> default [] (ss_faults spec)).
Proof. apply sort_symptoms_spec. Qed.

(** ** The clock *)
(** A threshold cuts a sorted list in two. *)
Lemma cut_sorted t l : StronglySorted by_minutes l ->
  l = List.filter (fun s => sy_appliesAtMinutes s <=? t) l ++ List.filter (fun s => t <? sy_appliesAtMinutes s) l.
Proof.
  induction 1 as [|x l S IH F]; [reflexivity|]. cbn. unfold Qltb at 1. destruct (sy_appliesAtMinutes x <=? t) eqn:E; cbn; [now rewrite <- IH|].
  qprop. assert (forall y, y ∈ l -> t < sy_appliesAtMinutes y) as A.
  { intros y I. rewrite Forall_forall in F. specialize (F y I). unfold by_minutes in F. lra. }
  assert (List.filter (fun s => sy_appliesAtMinutes s <=? t) l = []) as ->.
  { clear -A. induction l as [|y l IH]; [reflexivity|]. cbn. pose proof (A y ltac:(now left)) as Y.
    rewrite (proj2 (Qleb_gt _ _) Y). apply IH. intros z I. apply A. now right. }
  cbn. f_equal. rewrite filter_all; [reflexivity|]. intros y I. now apply Qltb_lt, A.
Qed.
Lemma sorted_escalations spec : StronglySorted by_minutes (escalations spec).
Proof. apply StronglySorted_list_filter, sort_symptoms_spec. Qed.

(** At every instant the escalations are split at the elapsed time: those
    fired, then those to come, the next one being the earliest of the latter.
    The bar stays between 0 and 1.5, and is at least full once the budget is
    spent. *)
Theorem clock_splits spec started_at now :
  let c := computeClock spec started_at now in
  (exists pending, escalations spec = ck_firedEscalations c ++ pending /\ ck_nextEscalation c = head pending /\
     Forall (fun s => sy_appliesAtMinutes s <= ck_elapsedMs c /! 60000) (ck_firedEscalations c) /\
     Forall (fun s => ck_elapsedMs c /! 60000 < sy_appliesAtMinutes s) pending) /\
  0 <= ck_elapsedMs c /\ 0 <= ck_fraction c <= 3 # 2 /\
  (forall b, ck_budgetMs c = Some b -> 0 < b -> ck_overSla c = true -> 1 <= ck_fraction c).
Proof.
  cbn -[escalations]. set (e := inject_Z (elapsed started_at now)).
  assert (0 <= e) as E by (unfold e, elapsed; change 0 with (inject_Z 0); rewrite <- Zle_Qle; lia). split_and!.
  - eexists. split; [apply (cut_sorted (e /! 60000)), sorted_escalations|]. split_and!; [reflexivity | |];
      apply Forall_forall; intros s I; apply list_elem_of_In, filter_In in I as [_ I]; now qprop.
  - exact E.
  - destruct (budget spec) as [b|]; [|lra]. destruct (0 <? b) eqn:B; [|lra]. qprop.
    apply jmin_glb; [lra | apply div_nonneg; lra].
  - destruct (budget spec) as [b|]; [|lra]. destruct (0 <? b) eqn:B; [|lra]. apply jmin_le_l.
  - intros b -> P O. rewrite (proj2 (Qltb_lt 0 b) P). qprop. apply jmin_glb; [lra|]. unfold div.
    apply rnd_ge_fix; [exact rnd_1|]. apply Qle_shift_div_l; lra.
Qed.

(** As time passes, no fired escalation is taken back, the bar never
    shrinks and an overrun stays. *)
Theorem clock_monotone spec started now now' : (now <= now')%Z ->
  let c := computeClock spec (Some started) now in let c' := computeClock spec (Some started) now' in
  ck_firedEscalations c `prefix_of` ck_firedEscalations c' /\ ck_fraction c <= ck_fraction c' /\
  (ck_overSla c = true -> ck_overSla c' = true).
Proof.
  intros L. cbn -[escalations]. set (e := inject_Z (elapsed (Some started) now)). set (e' := inject_Z (elapsed (Some started) now')).
  assert (e <= e') as E by (unfold e, e', elapsed; rewrite <- Zle_Qle; change (default _ (Some started)) with started; lia). split_and!.
  - assert (e /! 60000 <= e' /! 60000) as D by (apply rnd_mono, Qmult_le_compat_r; [exact E | easy]). revert D. generalize (e /! 60000), (e' /! 60000). clear.
    intros t t' D. pose proof (sorted_escalations spec) as S. induction S as [|x l S IH F]; [reflexivity|]. cbn.
    destruct (sy_appliesAtMinutes x <=? t) eqn:A; qprop.
    + rewrite (proj2 (Qleb_le _ t')) by lra. now apply prefix_cons.
    + replace (List.filter _ l) with (@nil SimSymptom); [apply prefix_nil|]. symmetry. apply (proj2 (filter_nil _ _)).
      eapply Forall_impl; [exact F|]. intros y Y. apply Qleb_gt. unfold by_minutes in Y. lra.
  - destruct (budget spec) as [b|]; [|lra]. destruct (0 <? b) eqn:B; [|lra]. qprop. apply jmin_mono; [lra|].
    apply rnd_mono. apply Qmult_le_compat_r; [exact E | apply Qlt_le_weak, Qinv_lt_0_compat, B].
  - destruct (budget spec) as [b|]; [|easy]. intros O. qprop. apply Qltb_lt. lra.
Qed.

(** ** Escalations and the faults that are injected *)
Lemma not_T0 applyAt : 0 < parseApplyAt applyAt -> applyAt <> "T0"%string.
Proof. intros P ->. revert P. unfold parseApplyAt. change (test (rx "^T\+(\d+)$") (trim "T0")) with false. cbn. lra. Qed.

(** An escalation the learner is told has surfaced is a fault the attempt
    service never injects, at provisioning or later; the debrief says of it,
    as of every fault without notes, that it was injected. *)
Theorem escalations_never_injected spec aspec started_at now s :
  ss_faults spec = s_faults aspec -> s ∈ ck_firedEscalations (computeClock spec started_at now) ->
  sv_active (symptom_view (computeClock spec started_at now) s) = true /\
  (exists f, f ∈ default [] (s_faults aspec) /\ s = symptom f /\ f ∉ t0_faults aspec) /\
  fv_text (fault_view [] s) = injected_text.
Proof.
  intros S I. split_and!; [| | reflexivity].
  - cbn. rewrite (bool_decide_eq_true_2 _ (list_elem_of_fmap_2 sy_faultId _ _ I)). apply orb_true_r.
  - cbn in I. apply list_elem_of_In, filter_In in I as [I _]. apply filter_In in I as [I P]. apply list_elem_of_In in I.
    unfold buildSymptoms in I. rewrite (proj1 (sort_symptoms_spec _)), S in I. apply list_elem_of_fmap in I as (f & -> & I). exists f. split_and!; [easy | easy |].
    unfold t0_faults. rewrite list_elem_of_In, filter_In. intros [_ T%String.eqb_eq]. cbn in P. qprop. now apply not_T0 in P.
Qed.
End SimLaws.

(** ** Text *)
(** Minutes and seconds read back. *)
Definition seconds_of (text : string) : option Z :=
  match split_on ":"%char text with
  | [m; s] => Some (digits_value (explode m) * 60 + digits_value (explode s))
  | _ => None
  end.
Lemma padded_value w n : 0 <= n -> digits_value (explode (padded w n)) = n /\ Forall RegExp.is_digit (explode (padded w n)).
Proof.
  intros N. unfold padded. rewrite explode_app, explode_zeros, digits_value_app.
  destruct (zeros_value (Z.to_nat (w - Z.of_nat (String.length (pretty n))))) as [-> Z0].
  destruct (decide (n = 0)) as [->|P]; [split; [reflexivity | apply Forall_app; split; [exact Z0 | now repeat constructor]]|].
  destruct (pretty_decimal n ltac:(lia)) as (D & V & _). split; [lia | now apply Forall_app].
Qed.
Lemma digits_free l : Forall RegExp.is_digit l -> ~ In ":"%char l.
Proof. intros F I. rewrite List.Forall_forall in F. now specialize (F _ I). Qed.

(** A duration is shown as minutes and two digits of seconds, from which
    the whole seconds are read back, however long it is. *)
Theorem duration_roundtrip ms : 0 <= ms -> seconds_of (formatDuration ms) = Some (ms / 1000).
Proof.
  intros P. unfold formatDuration, seconds_of. set (total := ms / 1000). assert (0 <= total) as T by (apply Z.div_pos; lia).
  destruct (padded_value 2 (total / 60) ltac:(apply Z.div_pos; lia)) as [V F].
  destruct (padded_value 2 (total mod 60) ltac:(apply Z.mod_pos_bound; lia)) as [V' F'].
  change (padded 2 (total / 60) ++ ":" ++ padded 2 (total mod 60))%string with
    (padded 2 (total / 60) ++ String ":" (padded 2 (total mod 60)))%string.
  rewrite (proj1 (split_on_app ":" _ _ (digits_free _ F))), (proj2 (split_on_app ":" _ EmptyString (digits_free _ F'))), V, V'.
  f_equal. pose proof (Z.div_mod total 60). lia.
Qed.

(** ** Witnesses *)
#[local] Existing Instance binary64.
Definition outage : SimSpec := mkSimSpec (Some (mkSpecMeta (Some "INC-42") None (Some "L3") (Some 30%Q)))
  (Some [mkFaultSpec "f.k8s.wrong-selector" "T+10" None None; mkFaultSpec "f.k8s.no-endpoints" "T0" None None]).
Definition outage_activity : ActivitySpec :=
  mkActivitySpec None None None None None (ss_faults outage) None None None None.

Lemma clock_monotone_witness :
  sy_label <$> ck_firedEscalations (computeClock outage (Some 0) 660000) = ["wrong selector"] /\
  ck_firedEscalations (computeClock outage (Some 0) 660000) `prefix_of` ck_firedEscalations (computeClock outage (Some 0) 1900000) /\
  ck_overSla (computeClock outage (Some 0) 1900000) = true.
Proof.
  split; [now vm_compute|]. destruct (clock_monotone outage 0 660000 1900000 ltac:(lia)) as (P & _ & _). split; [exact P | now vm_compute].
Defined.

Lemma escalations_never_injected_witness :
  let s := symptom (mkFaultSpec "f.k8s.wrong-selector" "T+10" None None) in
  s ∈ ck_firedEscalations (computeClock outage (Some 0) 660000) /\ fv_text (fault_view [] s) = injected_text /\
  f_id <$> t0_faults outage_activity = ["f.k8s.no-endpoints"].
Proof.
  intros s. assert (s ∈ ck_firedEscalations (computeClock outage (Some 0) 660000)) as I by (vm_compute; left).
  split; [exact I|]. destruct (escalations_never_injected outage outage_activity (Some 0) 660000 s eq_refl I) as (_ & _ & T).
  split; [exact T | now vm_compute].
Defined.

Lemma duration_roundtrip_witness : formatDuration 7265000 = "121:05" /\ seconds_of (formatDuration 7265000) = Some 7265.
Proof. split; [now vm_compute | now apply (duration_roundtrip 7265000)]. Defined.
