(* ===== verification/WebClient.v ===== *)
(** * The HTTP client and the session of the web application

    src/web/src/lib: api-client.ts (request and its errors), error-message.ts,
    auth-token.ts and session.ts; and the server's side of an error,
    practice-core/src/common/all-exceptions.filter.ts.  A browser's fetch, its
    clock and its localStorage are inputs. *)
From Stdlib Require Import Ascii.
From S2P Require Import Prelude RegExp JsNum JsText JsonParse JsonLaws Binary64 Effects Schema WorkspaceFiles GitHosting.
Local Open Scope Z_scope.

(** ** all-exceptions.filter.ts *)

(** What a handler threw: an HttpException with its response, another Error, or
    a value that is no Error, as [String] shows it. *)
Inductive Thrown :=
  | HttpException (status : Z) (response : Json) (message : string)
  | AnError (message : string)
  | NoError (text : string).

Definition is_object (j : Json) : bool := match j with JObj _ | JArr _ => true | _ => false end.
(** [a ?? b] on a field. *)
Definition not_null (o : option Json) : option Json := match o with Some JNull => None | o => o end.

Section Client.
Context `{Rounding}.

Definition error_message (response : Json) (message : string) : Json :=
  match response with
  | JStr s => JStr s
  | _ => default (JStr message) (not_null (jfield "message" response))
  end.
(** The status and body of the response, and what is logged. *)
Definition catch (exception : Thrown) (url : string) : Z * Json :=
  match exception with
  | HttpException status response message =>
      (status, JObj ([("statusCode", JNum (inject_Z status)); ("path", JStr url); ("message", error_message response message)] ++
                     (if is_object response then [("detail", response)] else [])))
  | AnError _ | NoError _ =>
      (500, JObj [("statusCode", JNum 500); ("path", JStr url); ("message", JStr "Internal server error")])
  end%string.
Definition logged (exception : Thrown) (method url : string) : option string :=
  match exception with
  | HttpException status _ message =>
      if 500 <=? status then Some (method ++ " " ++ url ++ " -> " ++ number_text (inject_Z status) ++ ": " ++ message)%string else None
  | AnError message | NoError message => Some (method ++ " " ++ url ++ " -> 500 (unhandled): " ++ message)%string
  end.
(** [response.status(status).json(body)]. *)
Definition sent (r : Z * Json) : HttpResponse := mkHttpResponse r.1 (stringify r.2).

(** ** api-client.ts: request *)
Inductive ClientError :=
  | ApiError (status : Z) (body : Json)
  | TypeError (message : string)
  | SyntaxError (message : string)
  | OtherError (message : string).

(** The messages a browser gives: the text of a body read a second time, and of
    a body that is no JSON. *)
Variables (body_used no_json : string).

(** A body can be read once: when [res.json()] has rejected, [res.text()]
    rejects too. *)
Definition failed_request (res : HttpResponse) : ClientError :=
  match json_parse (hr_text res) with
  | Some body => ApiError (hr_status res) body
  | None => TypeError body_used
  end.
Definition request (fetched : string + HttpResponse) : ClientError + Json :=
  match fetched with
  | inl message => inl (TypeError message)
  | inr res =>
      if hr_ok res then
        match json_parse (hr_text res) with Some j => inr j | None => inl (SyntaxError no_json) end
      else inl (failed_request res)
  end.
Definition api_error_message (status : Z) (body : Json) : string :=
  ("API error " ++ number_text (inject_Z status) ++ ": " ++ stringify body)%string.

(** ** error-message.ts *)
Record UserFacingError := mkUserFacingError { ue_headline : string; ue_detail : option string }.
Variable API_BASE_URL : string.
Definition toUserFacingError (error : ClientError) : UserFacingError :=
  match error with
  | ApiError status body =>
      mkUserFacingError (match jfield "message" body with Some (JStr m) => m | _ => api_error_message status body end) None
  | TypeError message =>
      if test (rx_i "fetch") message
      then mkUserFacingError ("Could not reach practice-core at " ++ API_BASE_URL ++
             ". Is it running (`npm run start:dev` in /practice-core)?")%string (Some message)
      else mkUserFacingError "Something went wrong." (Some message)
  | SyntaxError message | OtherError message => mkUserFacingError "Something went wrong." (Some message)
  end.

(** What the learner is shown when a handler throws. *)
Definition learner_sees (exception : Thrown) (url : string) : option UserFacingError :=
  match request (inr (sent (catch exception url))) with
  | inl e => Some (toUserFacingError e)
  | inr _ => None
  end.
End Client.

(** ** session.ts and auth-token.ts: reading a token *)

(** [atob]: ASCII white space is dropped, at most two "=" end a text whose
    length is a multiple of four, and what is left must be digits. *)
Definition base64_standard (c : ascii) : bool :=
  match base64_value c with Some _ => negb ((c =? "-") || (c =? "_"))%char | None => false end.
Definition unpadded (l : chars) : chars :=
  if (List.length l mod 4 =? 0)%nat then
    match rev l with
    | "="%char :: "="%char :: r => rev r
    | "="%char :: r => rev r
    | _ => l
    end
  else l.
Definition atob (text : string) : option string :=
  let l := unpadded (List.filter (fun c => negb (is_space c)) (explode text)) in
  if negb (List.length l mod 4 =? 1)%nat && forallb base64_standard l then Some (implode (base64_decode l)) else None.

(** [payload.replace(/-/g, '+').replace(/_/g, '/')]. *)
Definition replace_char (a b : ascii) (s : string) : string := implode ((fun c => if (c =? a)%char then b else c) <$> explode s).
Definition standard_digits (s : string) : string := replace_char "_" "/" (replace_char "-" "+" s).
(** The claims of [token.split('.')[1]]. *)
Definition claims_of `{Rounding} (token : string) : option Json :=
  payload ← split_on "."%char token !! 1%nat;
  text ← atob (standard_digits payload);
  json_parse text.

Record Session := mkSession { sn_userId : string; sn_tenantId : string; sn_role : string }.
Definition decodeClaims `{Rounding} (token : string) : option Session :=
  json ← claims_of token;
  userId ← jstring "userId" json;
  tenantId ← jstring "tenantId" json;
  Some (mkSession userId tenantId (default "learner"%string (jstring "role" json))).
(** [json.exp * 1000]. *)
Definition decodeExpiry `{Rounding} (token : string) : option Q :=
  json ← claims_of token; exp ← jnumber "exp" json; Some (exp *! 1000).

(** ** What an error becomes *)
Section Errors.
#[local] Existing Instance binary64.
Variables (body_used no_json API_BASE_URL : string).
Abbreviation sees := (learner_sees body_used no_json API_BASE_URL).

Lemma status_textual status : 400 <= status < 600 -> textual (inject_Z status) = true.
Proof.
  assert (T : forallb (fun n => textual (inject_Z (Z.of_nat n))) (List.seq 400 200) = true) by (vm_compute; reflexivity).
  intros B. rewrite forallb_forall in T. specialize (T (Z.to_nat status)). rewrite Z2Nat.id in T by lia.
  apply T, in_seq. lia.
Qed.
Lemma field_ok key j v : json_ok j = true -> jfield key j = Some v -> json_ok v = true.
Proof.
  destruct j as [| | | | |fs]; try discriminate. cbn. intros [_ F]%andb_prop. destruct (List.find _ fs) as [kv|] eqn:E; [|discriminate].
  intros [= <-]. apply List.find_some in E as [I _]. rewrite forallb_forall in F. now apply F.
Qed.
Lemma error_message_ok response message : json_ok response = true -> json_ok (error_message response message) = true.
Proof.
  intros K. unfold error_message. destruct response as [| | |s| |fs]; try easy.
  destruct (jfield "message" (JObj fs)) as [[]|] eqn:E; try easy; cbn [not_null default]; exact (field_ok _ _ _ K E).
Qed.
Lemma catch_ok e url : (match e with HttpException status response _ => 400 <= status < 600 /\ json_ok response = true | _ => True end) ->
  json_ok (catch e url).2 = true /\ hr_ok (sent (catch e url)) = false.
Proof.
  destruct e as [status response message|m|t]; [|easy..]. intros [B K]. split.
  - cbn [catch snd]. pose proof (status_textual status B) as T. pose proof (error_message_ok response message K) as M.
    destruct (is_object response); cbn [json_ok forallb app snd]; rewrite T, M, ?K; reflexivity.
  - unfold hr_ok, sent. cbn. lia.
Qed.
Lemma request_error e url : json_ok (catch e url).2 = true -> hr_ok (sent (catch e url)) = false ->
  request body_used no_json (inr (sent (catch e url))) = inl (ApiError (catch e url).1 (catch e url).2).
Proof. intros J O. unfold request, failed_request. rewrite O. cbn [hr_text hr_status sent]. now rewrite parse_stringify. Qed.

(** From the handler to the screen: of an HttpException the learner sees
    exactly its message, when that is a text, and otherwise the JSON of the
    whole answer; of any other error, whatever it says, always the same words. *)
Theorem error_shown url :
  (forall status response message, 400 <= status < 600 -> json_ok response = true ->
     sees (HttpException status response message) url =
     Some (mkUserFacingError (match error_message response message with
                              | JStr m => m
                              | _ => api_error_message status (catch (HttpException status response message) url).2
                              end) None)) /\
  (forall message, sees (AnError message) url = Some (mkUserFacingError "Internal server error" None)) /\
  (forall text, sees (NoError text) url = Some (mkUserFacingError "Internal server error" None)).
Proof.
  split; [|split].
  - intros status response message B K. unfold learner_sees.
    destruct (catch_ok (HttpException status response message) url (conj B K)) as [J O].
    rewrite (request_error _ url J O). reflexivity.
  - intros m. destruct (catch_ok (AnError m) url I) as [J O]. unfold learner_sees. now rewrite (request_error _ url J O).
  - intros m. destruct (catch_ok (NoError m) url I) as [J O]. unfold learner_sees. now rewrite (request_error _ url J O).
Qed.

(** An answer that is no JSON, as a proxy's page, is never an ApiError: the
    second read of the body fails, and the status is lost. *)
Lemma unreadable_error status text : hr_ok (mkHttpResponse status text) = false -> json_parse text = None ->
  request body_used no_json (inr (mkHttpResponse status text)) = inl (TypeError body_used).
Proof. intros O P. unfold request, failed_request. rewrite O. cbn [hr_text hr_status]. now rewrite P. Qed.
(** A handler that returns null is answered with an empty body, which [request] rejects. *)
Lemma empty_answer_rejected : request body_used no_json (inr (mkHttpResponse 200 EmptyString)) = inl (SyntaxError no_json).
Proof. reflexivity. Qed.
End Errors.

(** ** Tokens: what was signed is read *)
Lemma standard_digit n : (n < 64)%N -> base64_standard (base64_digit n) = true /\ is_space (base64_digit n) = false /\
  (base64_digit n =? "=")%char = false.
Proof.
  assert (T : forallb (fun k => base64_standard (base64_digit (N.of_nat k)) && negb (is_space (base64_digit (N.of_nat k))) &&
    negb (base64_digit (N.of_nat k) =? "=")%char) (List.seq 0 64) = true) by (vm_compute; reflexivity).
  intros L. rewrite forallb_forall in T. specialize (T (N.to_nat n)). rewrite N2Nat.id in T.
  assert (I : In (N.to_nat n) (List.seq 0 64)) by (apply in_seq; lia). specialize (T I).
  rewrite !andb_true_iff, !negb_true_iff in T. tauto.
Qed.
Abbreviation plain_digits l := (List.filter (fun c => negb (c =? "=")%char) (base64_encode l)).

Lemma plain_digits_spec l : base64_digits (plain_digits l) = base64_digits (base64_encode l) /\
  Forall (fun c => base64_standard c = true /\ is_space c = false /\ (c =? "=")%char = false) (plain_digits l) /\
  (List.length (plain_digits l) mod 4 <> 1)%nat.
Proof.
  remember (List.length l) as n eqn:N. revert l N.
  induction n as [n IH] using lt_wf_ind. intros [|a [|b [|c l]]] N; cbn [base64_encode].
  - split_and!; [reflexivity | constructor | easy].
  - pose proof (code_bound a). cbn [List.filter].
    destruct (standard_digit (code a / 4)) as (A1 & A2 & A3); [packed|]. destruct (standard_digit (code a mod 4 * 16)) as (B1 & B2 & B3); [packed|].
    rewrite A3, B3. cbn [negb]. change (("=" =? "=")%char) with true. cbn [negb]. split_and!; [| repeat constructor; assumption | easy].
    rewrite !digits_cons by packed. reflexivity.
  - pose proof (code_bound a). pose proof (code_bound b). cbn [List.filter].
    destruct (standard_digit (code a / 4)) as (A1 & A2 & A3); [packed|]. destruct (standard_digit (code a mod 4 * 16 + code b / 16)) as (B1 & B2 & B3); [packed|].
    destruct (standard_digit (code b mod 16 * 4)) as (C1 & C2 & C3); [packed|].
    rewrite A3, B3, C3. change (("=" =? "=")%char) with true. cbn [negb]. split_and!; [| repeat constructor; assumption | easy].
    rewrite !digits_cons by packed. reflexivity.
  - pose proof (code_bound a). pose proof (code_bound b). pose proof (code_bound c). cbn [List.filter].
    destruct (standard_digit (code a / 4)) as (A1 & A2 & A3); [packed|]. destruct (standard_digit (code a mod 4 * 16 + code b / 16)) as (B1 & B2 & B3); [packed|].
    destruct (standard_digit (code b mod 16 * 4 + code c / 64)) as (C1 & C2 & C3); [packed|]. destruct (standard_digit (code c mod 64)) as (D1 & D2 & D3); [packed|].
    rewrite A3, B3, C3, D3. cbn [negb]. destruct (IH (List.length l) ltac:(cbn in N; lia) l eq_refl) as (G & F & M). split_and!.
    + rewrite !digits_cons by packed. now rewrite G.
    + repeat constructor; assumption.
    + cbn [List.length]. replace (S (S (S (S (List.length (plain_digits l)))))) with (List.length (plain_digits l) + 1 * 4)%nat by lia.
      now rewrite Nat.Div0.mod_add.
Qed.

Lemma unpadded_plain l : Forall (fun c => (c =? "=")%char = false) l -> unpadded l = l.
Proof.
  intros F. unfold unpadded. destruct (_ =? 0)%nat; [|reflexivity]. destruct (rev l) as [|c r] eqn:E; [reflexivity|].
  assert ((c =? "=")%char = false) as C.
  { rewrite List.Forall_forall in F. apply F. apply in_rev. rewrite E. now left. }
  destruct (Ascii.eqb_spec c "="%char) as [->|N]; [discriminate|].
  destruct c as [[] [] [] [] [] [] [] []]; try reflexivity; congruence.
Qed.
Lemma atob_plain l : atob (implode (plain_digits l)) = Some (implode l).
Proof.
  destruct (plain_digits_spec l) as (D & F & M). unfold atob. rewrite explode_implode.
  rewrite (filter_all (fun c => negb (is_space c))).
  2: { intros c I. rewrite Forall_forall in F. destruct (F c I) as (_ & -> & _). reflexivity. }
  rewrite unpadded_plain by (eapply Forall_impl; [exact F | intros c (_ & _ & E); exact E]).
  apply Nat.eqb_neq in M. rewrite M. cbn [negb andb].
  replace (forallb base64_standard (plain_digits l)) with true.
  - unfold base64_decode. rewrite D. change (base64_bytes (base64_digits (base64_encode l))) with (base64_decode (base64_encode l)).
    now rewrite base64_decode_encode.
  - symmetry. apply forallb_forall. intros c I. rewrite List.Forall_forall in F. now apply F.
Qed.
(** The URL alphabet and back. *)
Lemma standard_digits_url l : standard_digits (implode (base64url l)) = implode (plain_digits l).
Proof.
  unfold standard_digits, replace_char, base64url. rewrite !explode_implode. f_equal. rewrite <- !list_fmap_compose.
  destruct (plain_digits_spec l) as (_ & F & _). induction F as [|c d [S _] F IH]; [reflexivity|]. cbn [fmap list_fmap]. f_equal; [|exact IH].
  unfold base64_standard in S. destruct (base64_value c); [|discriminate]. apply negb_true_iff, orb_false_iff in S as [S1 S2]. cbn.
  destruct (Ascii.eqb_spec c "+"%char) as [->|N1]; [reflexivity|]. destruct (Ascii.eqb_spec c "/"%char) as [->|N2]; [reflexivity|].
  now rewrite S1, S2.
Qed.
Lemma url_no_dot l : free_of "."%char (implode (base64url l)).
Proof.
  unfold free_of, base64url. rewrite explode_implode. intros I. apply list_elem_of_In, list_elem_of_fmap in I as (c & E & I).
  destruct (plain_digits_spec l) as (_ & F & _). rewrite Forall_forall in F. destruct (F c I) as (S & _).
  destruct (c =? "+")%char; [discriminate|]. destruct (c =? "/")%char; [discriminate|]. subst c. discriminate.
Qed.

(** A signed token (RFC 7519): three parts, the second the claims. *)
Definition jwt `{Rounding} (header : string) (claims : Json) (signature : string) : string :=
  (header ++ "." ++ implode (base64url (explode (stringify claims))) ++ "." ++ signature)%string.

Lemma claims_of_jwt `{Rounding} header claims signature : free_of "."%char header -> json_ok claims = true ->
  claims_of (jwt header claims signature) = Some claims.
Proof.
  intros F K. unfold claims_of, jwt. set (payload := implode (base64url _)).
  change (header ++ "." ++ payload ++ "." ++ signature)%string with (header ++ String "." (payload ++ String "." signature))%string.
  rewrite (proj1 (split_on_app "." _ _ F)), (proj1 (split_on_app "." payload signature (url_no_dot _))). cbn [lookup list_lookup mbind option_bind].
  unfold payload. rewrite standard_digits_url, atob_plain, implode_explode. cbn [mbind option_bind]. now apply parse_stringify.
Qed.

(** Of a token that carries a user, a tenant, a role and an expiry the
    client reads back exactly these, whatever the header and the signature. *)
Theorem session_roundtrip `{Rounding} header signature userId tenantId role exp : free_of "."%char header -> textual exp = true ->
  let token := jwt header (JObj [("userId", JStr userId); ("tenantId", JStr tenantId); ("role", JStr role); ("exp", JNum exp)]%string) signature in
  decodeClaims token = Some (mkSession userId tenantId role) /\ decodeExpiry token = Some (exp *! 1000).
Proof.
  intros F T token. unfold decodeClaims, decodeExpiry, token. rewrite claims_of_jwt; [split; reflexivity | exact F |].
  cbn [json_ok forallb snd]. now rewrite T.
Qed.

(** ** auth-token.ts: one token for the whole tab *)

(** [StoredToken], as localStorage holds it; a text that is no JSON, or has no
    number there, is not fresh. *)
Definition REFRESH_MARGIN_MS : Q := 300000.
Definition stored_text `{Rounding} (token : string) (expiresAt : Q) : string :=
  stringify (JObj [("token", JStr token); ("expiresAt", JNum expiresAt)]%string).
Definition fresh_token `{Rounding} (now : Z) (stored : option string) : option string :=
  raw ← truthy stored;
  json ← json_parse raw;
  expiresAt ← jnumber "expiresAt" json;
  if (REFRESH_MARGIN_MS <? expiresAt -! inject_Z now)%Q then Some (default "undefined"%string (jstring "token" json)) else None.

(** The expiry of a token just minted: its claim, or eleven hours from now. *)
Definition expiry `{Rounding} (token : string) (now : Z) : Q :=
  default (inject_Z (now + 11 * 60 * 60 * 1000)) (decodeExpiry token).

(** The module's state and the calls that wait: [tb_minting] are the requests to
    dev-login not yet answered, [tb_settled] those answered whose [finally] has
    not run.  Waiters are calls that hold [inFlight]. *)
Record Tab := mkTab {
  tb_now : Z; tb_storage : option string; tb_inFlight : bool;
  tb_minting : nat; tb_settled : option (ClientError + string); tb_requests : nat;
  tb_waiting : list nat; tb_returned : list (nat * (ClientError + string)) }.
#[export] Instance eta_Tab : Eta Tab := fun t =>
  mkTab (tb_now t) (tb_storage t) (tb_inFlight t) (tb_minting t) (tb_settled t) (tb_requests t) (tb_waiting t) (tb_returned t).
Definition fresh_tab (now : Z) (storage : option string) : Tab := mkTab now storage false 0 None 0 [] [].

(** The synchronous part of [getAuthToken], called by [caller]. *)
Definition getAuthToken `{Rounding} (caller : nat) (t : Tab) : Tab :=
  match fresh_token (tb_now t) (tb_storage t) with
  | Some token => t <| tb_returned ::= cons (caller, inr token) |>
  | None =>
      let t := if tb_inFlight t then t
               else t <| tb_inFlight := true |> <| tb_minting ::= S |> <| tb_requests ::= S |> in
      t <| tb_waiting ::= cons caller |>
  end.
(** The answer to dev-login: the token is stored, or the mint rejects. *)
Definition minted `{Rounding} (answer : ClientError + string) (t : Tab) : Tab :=
  let t := t <| tb_minting ::= pred |> <| tb_settled := Some answer |> in
  match answer with
  | inr token => t <| tb_storage := Some (stored_text token (expiry token (tb_now t))) |>
  | inl _ => t
  end.
(** [finally], and the promise the waiters hold. *)
Definition cleaned (answer : ClientError + string) (t : Tab) : Tab :=
  t <| tb_settled := None |> <| tb_inFlight := false |> <| tb_waiting := [] |>
    <| tb_returned ::= app ((fun c => (c, answer)) <$> tb_waiting t) |>.

Section Tabs.
Context `{Rounding}.

Inductive tab_step : Tab -> Tab -> Prop :=
  | step_call caller t : tab_step t (getAuthToken caller t)
  | step_answer answer t : (0 < tb_minting t)%nat -> tab_step t (minted answer t)
  | step_finally answer t : tb_settled t = Some answer -> tab_step t (cleaned answer t)
  | step_clock now t : tb_now t <= now -> tab_step t (t <| tb_now := now |>)
  | step_storage storage t : tab_step t (t <| tb_storage := storage |>).   (* another tab, or the user *)
Inductive tab_reach (t0 : Tab) : Tab -> Prop :=
  | reach_start : tab_reach t0 t0
  | reach_step t t' : tab_reach t0 t -> tab_step t t' -> tab_reach t0 t'.

(** One request at most is on its way or settling, exactly while [inFlight] is set,
    and nobody waits otherwise. *)
Record one_mint (t : Tab) : Prop := mkOneMint {
  om_count : (tb_minting t + match tb_settled t with Some _ => 1 | None => 0 end = if tb_inFlight t then 1 else 0)%nat;
  om_waiting : tb_inFlight t = false -> tb_waiting t = [] }.

Lemma one_mint_step t t' : one_mint t -> tab_step t t' -> one_mint t'.
Proof.
  intros [C W]. destruct 1 as [caller t|answer t P|answer t S|now t L|st t].
  - unfold getAuthToken. destruct (fresh_token _ _); [split; assumption|]. destruct (tb_inFlight t) eqn:F; split; cbn.
    + now rewrite F.
    + now rewrite F.
    + lia.
    + easy.
  - unfold minted. destruct (tb_inFlight t) eqn:F; [|lia]. destruct (tb_settled t) eqn:S; [lia|].
    destruct answer; split; cbn; rewrite ?F; (easy || lia).
  - rewrite S in C. destruct (tb_inFlight t) eqn:F; [|lia]. split; cbn; [lia | easy].
  - now split.
  - now split.
Qed.

(** A call that returned has the token that was fresh when it asked, or the
    answer of a mint it waited for; what is returned is never taken back. *)
Definition calls (t : Tab) : list nat := (fst <$> tb_returned t) ++ tb_waiting t.
Lemma calls_step t t' : tab_step t t' -> calls t' ≡ₚ calls t \/ exists c, t' = getAuthToken c t /\ calls t' ≡ₚ c :: calls t.
Proof.
  destruct 1 as [caller t|answer t P|answer t S|now t L|st t]; [right; exists caller; split; [reflexivity|] | left..]; unfold calls.
  - unfold getAuthToken. destruct (fresh_token _ _); [reflexivity|]. destruct (tb_inFlight t); cbn; now rewrite Permutation_middle.
  - unfold minted. now destruct answer.
  - unfold cleaned. cbn. rewrite fmap_app, <- list_fmap_compose, app_nil_r. cbn.
    rewrite (list_fmap_ext _ id) by easy. rewrite list_fmap_id. apply Permutation_app_comm.
  - reflexivity.
  - reflexivity.
Qed.

(** Starting from a loaded page, whatever the calls, the answers, their
    delays, failures and changes of the storage: at most one login request is
    outstanding, every call waits for it or has returned, and once nothing is in
    flight nobody is left waiting. *)
Theorem one_login_at_a_time now storage t : tab_reach (fresh_tab now storage) t ->
  (tb_minting t <= 1)%nat /\ one_mint t.
Proof.
  intros R. assert (one_mint t) as O.
  { induction R as [|t t' R IH S]; [now split|]. eapply one_mint_step; eauto. }
  split; [|exact O]. destruct O as [C _]. destruct (tb_inFlight t); lia.
Qed.

(** A failed login is not remembered: after it every call that waited has
    its error, the storage is as it was, and the next call, if no fresh token is
    stored, sends a new request. *)
Theorem failed_login_retried now storage t error caller : tab_reach (fresh_tab now storage) t -> (0 < tb_minting t)%nat ->
  fresh_token (tb_now t) (tb_storage t) = None ->
  let t1 := cleaned (inl error) (minted (inl error) t) in
  tab_reach (fresh_tab now storage) t1 /\ tb_storage t1 = tb_storage t /\ tb_waiting t1 = [] /\
  tb_returned t1 = ((fun c => (c, inl error)) <$> tb_waiting t) ++ tb_returned t /\
  tb_requests (getAuthToken caller t1) = S (tb_requests t) /\ tb_waiting (getAuthToken caller t1) = [caller].
Proof.
  intros R P F t1. split_and!; try reflexivity.
  - apply (reach_step _ (minted (inl error) t)); [apply (reach_step _ t); [exact R | now constructor] | now constructor].
  - unfold getAuthToken, t1. cbn. now rewrite F.
  - unfold getAuthToken, t1. cbn. now rewrite F.
Qed.

(** A minted token is returned to the calls that come later, until five minutes
    before its expiry. *)
Lemma minted_token_fresh token t now : textual (expiry token (tb_now t)) = true ->
  (REFRESH_MARGIN_MS < expiry token (tb_now t) -! inject_Z now)%Q ->
  fresh_token now (tb_storage (minted (inr token) t)) = Some token.
Proof.
  intros T L. set (e := expiry token (tb_now t)) in *. change (fresh_token now (Some (stored_text token e)) = Some token).
  unfold fresh_token. assert (truthy (Some (stored_text token e)) = Some (stored_text token e)) as -> by reflexivity.
  cbn [mbind option_bind].
  unfold stored_text. rewrite parse_stringify by (cbn [json_ok forallb snd]; now rewrite T). cbn.
  unfold REFRESH_MARGIN_MS in *. apply Qltb_lt in L. now rewrite L.
Qed.
End Tabs.

(** ** Witnesses *)
#[local] Existing Instance binary64.

Lemma session_roundtrip_witness :
  let token := jwt "eyJhbGciOiJIUzI1NiJ9" (JObj [("userId", JStr "u-1"); ("tenantId", JStr "t-1"); ("role", JStr "learner"); ("exp", JNum 1700043200)]%string) "c2ln" in
  decodeClaims token = Some (mkSession "u-1" "t-1" "learner") /\ decodeExpiry token = Some 1700043200000%Q.
Proof.
  intros token. destruct (session_roundtrip "eyJhbGciOiJIUzI1NiJ9" "c2ln" "u-1" "t-1" "learner" 1700043200) as [D E].
  - unfold free_of. cbn. intuition discriminate.
  - vm_compute. reflexivity.
  - split; [exact D|]. rewrite (E : decodeExpiry token = _). vm_compute. reflexivity.
Defined.

Definition two_calls : Tab := getAuthToken 2 (getAuthToken 1 (fresh_tab 0 None)).
Lemma two_calls_reached : tab_reach (fresh_tab 0 None) two_calls.
Proof. unfold two_calls. do 2 (eapply reach_step; [|constructor]). constructor. Qed.
Lemma one_login_at_a_time_witness : (tb_minting two_calls <= 1)%nat /\ tb_requests two_calls = 1%nat /\ tb_waiting two_calls = [2; 1]%nat.
Proof.
  split; [exact (proj1 (one_login_at_a_time 0 None two_calls two_calls_reached)) | now vm_compute].
Defined.
Lemma failed_login_retried_witness :
  tb_returned (cleaned (inl (OtherError "dev-login failed: 503")) (minted (inl (OtherError "dev-login failed: 503")) two_calls)) =
    [(2%nat, inl (OtherError "dev-login failed: 503")); (1%nat, inl (OtherError "dev-login failed: 503"))].
Proof.
  destruct (failed_login_retried 0 None two_calls (OtherError "dev-login failed: 503") 3 two_calls_reached) as (_ & _ & _ & R & _);
    [cbn; lia | reflexivity | exact R].
Defined.
