(* ===== verification/WebRoutes.v ===== *)
(** * The requests of the web application and the routes of the server

    src/web/src/lib/api-client.ts: the request each function of [api] sends;
    practice-core: the routes its controllers declare.  Two programs stand between
    them, each an interface with the law its documentation gives: the URL parser of
    [fetch] ([UrlParser]) and the router, Nest over Express ([Router]). *)
From Stdlib Require Import Ascii.
From S2P Require Import Prelude RegExp JsNum JsText Effects Schema JsonLaws GitHosting.
Local Open Scope string_scope.

(** ** The routes *)
Inductive Verb := GET | POST | DELETE.
#[export] Instance verb_eq_dec : EqDecision Verb.
Proof. solve_decision. Defined.
Inductive Segment := Lit (text : string) | Param (name : string).
Record Route := mkRoute { rt_verb : Verb; rt_segments : list Segment; rt_handler : string }.

Definition segments (path : string) : list string := List.filter (fun s => negb (String.eqb s "")) (split_on "/" path).
Definition segment (s : string) : Segment := match s with String ":" name => Param name | _ => Lit s end.
(** [@Controller(prefix)] and its [@Get(path)], [@Post(path)], [@Delete(path)]. *)
Definition controller (name prefix : string) (routes : list (Verb * string * string)) : list Route :=
  (fun r => mkRoute r.1.1 (segment <$> (segments prefix ++ segments r.1.2)%list) (name ++ "." ++ r.2)) <$> routes.

Definition AuthController := controller "AuthController" "v1/auth" [(POST, "dev-login", "devLogin")].
Definition MetricsController := controller "MetricsController" "" [(GET, "metrics", "scrape")].
Definition SkillController := controller "SkillController" "v1/practice/skills" [(GET, "", "list")].
Definition CatalogController := controller "CatalogController" "v1/practice/activities"
  [(GET, "", "list"); (GET, "by-skill", "listBySkill"); (GET, ":activityVersionId", "getOne")].
Definition AttemptController := controller "AttemptController" "v1/practice/attempts"
  [(POST, "", "create"); (POST, ":id/provision", "provision"); (POST, ":id/start", "start"); (POST, ":id/check", "check");
   (POST, ":id/submit", "submit"); (POST, ":id/connect", "connect"); (GET, ":id", "getById"); (GET, "", "list");
   (GET, ":id/evaluation", "getEvaluation"); (GET, ":id/tasks", "getTasks"); (GET, ":id/tasks/:key/hints", "previewHint");
   (POST, ":id/tasks/:key/hints", "revealHint"); (POST, ":id/tasks/:key/guided-fallback", "guidedFallback");
   (GET, ":id/files", "listFiles"); (GET, ":id/files/content", "readFile"); (POST, ":id/files/content", "writeFile");
   (POST, ":id/artifacts/:key", "submitArtifact")].
Definition ProjectController := controller "ProjectController" "v1/practice/attempts/:id"
  [(GET, "milestones", "listMilestones"); (POST, "milestones/:key/submit", "submitMilestone");
   (POST, "defence/messages", "postDefenceMessage")].
Definition CurriculumController := controller "CurriculumController" "v1/practice/courses" [(GET, "", "list"); (GET, ":slug", "getTree")].
Definition RecommendationController := controller "RecommendationController" "v1/practice/recommendations" [(GET, "", "list")].
Definition DashboardController := controller "DashboardController" "v1/practice/dashboard" [(GET, "", "get")].
Definition AdminController := controller "AdminController" "v1/admin"
  [(POST, "activities/lint", "lintSpec"); (POST, "activities/publish", "publishSpec"); (POST, "activities/draft", "draftSpec");
   (POST, "activity-versions/:id/submit-review", "submitForReview"); (POST, "activity-versions/:id/review-decision", "reviewDecision");
   (POST, "activity-versions/:id/publish", "publishApprovedVersion"); (GET, "activities/:activityId/analytics/dropoff", "taskDropoff");
   (GET, "activities/:activityId/analytics/validators", "validatorHealth"); (GET, "analytics/activity-health", "activityHealth");
   (GET, "analytics/rollup", "analyticsRollup"); (GET, "cost/by-grain", "costByGrain"); (GET, "cost/accounts", "costAccounts");
   (GET, "cost/budget-breaches", "budgetBreaches")].
Definition PrivacyController := controller "PrivacyController" "v1/practice/me" [(GET, "export", "export"); (DELETE, "data", "erase")].
Definition MentorController := controller "MentorController" "v1/practice/attempts" [(POST, ":id/mentor", "reply")].
Definition AppController := controller "AppController" "" [(GET, "", "getHello")].

(** In the order AppModule imports the modules. *)
Definition server_routes : list Route := Eval vm_compute in
  (AuthController ++ MetricsController ++ SkillController ++ CatalogController ++ AttemptController ++ ProjectController ++
   CurriculumController ++ RecommendationController ++ DashboardController ++ AdminController ++ PrivacyController ++
   MentorController ++ AppController)%list.

(** ** URLs and the router

    A path segment that no URL parser rewrites: percent-encoded text that is neither
    empty nor a dot segment. *)
Definition plain (s : string) : Prop := exists t, s = enc t /\ t <> "" /\ t <> "." /\ t <> "..".
(** The target of a request: its segments and the query. *)
Definition target (segs : list string) (query : string) : string := "/" ++ String.concat "/" segs ++ query.
Definition is_query (q : string) : Prop := q = "" \/ exists r, q = "?" ++ r.

(** What [fetch] asks the server for, given the text after the base URL, an origin.  A URL is
    parsed first (url.spec.whatwg.org): the fragment is cut off, dot segments are
    resolved and characters of the query may be encoded; a path of plain segments
    without a fragment arrives as it is. *)
Class UrlParser := {
  sent : string -> string;
  sent_plain segs q : segs <> [] -> Forall plain segs -> is_query q -> free_of "#" q ->
    exists q', is_query q' /\ sent (target segs q) = target segs q' }.

(** A literal of a route matches its text in either case, a parameter any text that is
    not empty; Express is case-insensitive unless told otherwise. *)
Definition fits (s : Segment) (text : string) : bool :=
  match s with Lit t => String.eqb (to_lower t) (to_lower text) | Param _ => negb (String.eqb text "") end.
Fixpoint fits_all (ss : list Segment) (texts : list string) : bool :=
  match ss, texts with
  | [], [] => true
  | s :: ss, t :: ts => fits s t && fits_all ss ts
  | _, _ => false
  end.
Definition first_fit (routes : list Route) (verb : Verb) (segs : list string) : option string :=
  rt_handler <$> List.find (fun r => bool_decide (rt_verb r = verb) && fits_all (rt_segments r) segs) routes.
(** The router: the first declared route whose method and pattern fit the path answers,
    whatever the query (expressjs.com, Routing). *)
Class Router := {
  route : list Route -> Verb -> string -> option string;
  route_first routes verb segs q : segs <> [] -> Forall plain segs -> is_query q ->
    route routes verb (target segs q) = first_fit routes verb segs }.

(** ** api-client.ts: the functions of [api] *)
Inductive ApiCall :=
  | listCatalog (tenantId : string) | listSkillCatalog (tenantId courseSlug : string) | getActivityVersion (activityVersionId : string)
  | getAttempt (id : string) | listAttempts (userId : string)
  | createAttempt (tenant_id user_id activity_version_id idempotencyKey : string)
  | provisionAttempt (id : string) | startAttempt (id : string) | checkAttempt (id : string) | submitAttempt (id : string)
  | connectAttempt (id : string) | getEvaluation (id : string) | getTasks (id : string)
  | previewHint (attemptId taskKey : string) | revealHint (attemptId taskKey : string)
  | getDashboard (userId tenantId : string) | getSkills (userId courseSlug : string) | getCourseTree (slug tenantId : string)
  | submitArtifact (attemptId key content : string)
  | listWorkspaceFiles (attemptId dir : string) | readWorkspaceFile (attemptId path : string)
  | writeWorkspaceFile (attemptId path content : string).

Definition attempts : string := "/v1/practice/attempts".
Definition attempt_path (id rest : string) : string := "/v1/practice/attempts/" ++ id ++ rest.
(** [request(path, { method })]: without a method it is a GET. *)
Definition api_target (c : ApiCall) : Verb * string :=
  match c with
  | listCatalog tenantId => (GET, "/v1/practice/activities?tenant_id=" ++ enc tenantId)
  | listSkillCatalog tenantId courseSlug =>
      (GET, "/v1/practice/activities/by-skill?tenant_id=" ++ enc tenantId ++ "&course=" ++ enc courseSlug)
  | getActivityVersion activityVersionId => (GET, "/v1/practice/activities/" ++ activityVersionId)
  | getAttempt id => (GET, attempt_path id "")
  | listAttempts userId => (GET, "/v1/practice/attempts?user_id=" ++ enc userId)
  | createAttempt _ _ _ _ => (POST, "/v1/practice/attempts")
  | provisionAttempt id => (POST, attempt_path id "/provision")
  | startAttempt id => (POST, attempt_path id "/start")
  | checkAttempt id => (POST, attempt_path id "/check")
  | submitAttempt id => (POST, attempt_path id "/submit")
  | connectAttempt id => (POST, attempt_path id "/connect")
  | getEvaluation id => (GET, attempt_path id "/evaluation")
  | getTasks id => (GET, attempt_path id "/tasks")
  | previewHint attemptId taskKey => (GET, attempt_path attemptId ("/tasks/" ++ taskKey ++ "/hints"))
  | revealHint attemptId taskKey => (POST, attempt_path attemptId ("/tasks/" ++ taskKey ++ "/hints"))
  | getDashboard userId tenantId => (GET, "/v1/practice/dashboard?user_id=" ++ enc userId ++ "&tenant_id=" ++ enc tenantId)
  | getSkills userId courseSlug => (GET, "/v1/practice/skills?user_id=" ++ enc userId ++ "&course=" ++ enc courseSlug)
  | getCourseTree slug tenantId => (GET, "/v1/practice/courses/" ++ slug ++ "?tenant_id=" ++ enc tenantId)
  | submitArtifact attemptId key _ => (POST, attempt_path attemptId ("/artifacts/" ++ enc key))
  | listWorkspaceFiles attemptId dir => (GET, attempt_path attemptId ("/files?dir=" ++ enc dir))
  | readWorkspaceFile attemptId path => (GET, attempt_path attemptId ("/files/content?path=" ++ enc path))
  | writeWorkspaceFile attemptId path _ => (POST, attempt_path attemptId ("/files/content?path=" ++ enc path))
  end.
Definition api_body (c : ApiCall) : option Json :=
  match c with
  | createAttempt tenant_id user_id activity_version_id _ =>
      Some (JObj [("tenant_id", JStr tenant_id); ("user_id", JStr user_id); ("activity_version_id", JStr activity_version_id)])
  | submitArtifact _ _ content | writeWorkspaceFile _ _ content => Some (JObj [("content", JStr content)])
  | _ => None
  end.
(** The headers of a request, those of the call last. *)
Definition api_headers (token : string) (c : ApiCall) : list (string * string) :=
  [("Content-Type", "application/json"); ("Authorization", "Bearer " ++ token)] ++
  match c with createAttempt _ _ _ key => [("Idempotency-Key", key)] | _ => [] end.

(** The handler each function is written for. *)
Definition api_handler (c : ApiCall) : string :=
  match c with
  | listCatalog _ => "CatalogController.list" | listSkillCatalog _ _ => "CatalogController.listBySkill"
  | getActivityVersion _ => "CatalogController.getOne" | getAttempt _ => "AttemptController.getById"
  | listAttempts _ => "AttemptController.list" | createAttempt _ _ _ _ => "AttemptController.create"
  | provisionAttempt _ => "AttemptController.provision" | startAttempt _ => "AttemptController.start"
  | checkAttempt _ => "AttemptController.check" | submitAttempt _ => "AttemptController.submit"
  | connectAttempt _ => "AttemptController.connect" | getEvaluation _ => "AttemptController.getEvaluation"
  | getTasks _ => "AttemptController.getTasks" | previewHint _ _ => "AttemptController.previewHint"
  | revealHint _ _ => "AttemptController.revealHint" | getDashboard _ _ => "DashboardController.get"
  | getSkills _ _ => "SkillController.list" | getCourseTree _ _ => "CurriculumController.getTree"
  | submitArtifact _ _ _ => "AttemptController.submitArtifact" | listWorkspaceFiles _ _ => "AttemptController.listFiles"
  | readWorkspaceFile _ _ => "AttemptController.readFile" | writeWorkspaceFile _ _ _ => "AttemptController.writeFile"
  end.

(** ** The paths of the client

    Most parameters are put into the path as they are: they must be words, which the
    percent-encoding would not change and which are not dot segments. *)
Definition word (s : string) : Prop :=
  s <> "" /\ s <> "." /\ s <> ".." /\ forallb (unreserved "-_.!~*'()") (explode s) = true.
Definition well_formed (c : ApiCall) : Prop :=
  match c with
  | getActivityVersion id => word id /\ to_lower id <> "by-skill"
  | getAttempt id | provisionAttempt id | startAttempt id | checkAttempt id | submitAttempt id
  | connectAttempt id | getEvaluation id | getTasks id | listWorkspaceFiles id _ | readWorkspaceFile id _
  | writeWorkspaceFile id _ _ => word id
  | previewHint id key | revealHint id key => word id /\ word key
  | getCourseTree slug _ => word slug
  | submitArtifact id key _ => word id /\ key <> "" /\ key <> "." /\ key <> ".."
  | _ => True
  end.

(** The segments and the query of each target. *)
Definition client_path (c : ApiCall) : list string :=
  let attempt id rest := "attempts" :: id :: rest in
  "v1" :: "practice" ::
  match c with
  | listCatalog _ => ["activities"] | listSkillCatalog _ _ => ["activities"; "by-skill"]
  | getActivityVersion id => ["activities"; id] | getAttempt id => attempt id []
  | listAttempts _ | createAttempt _ _ _ _ => ["attempts"]
  | provisionAttempt id => attempt id ["provision"] | startAttempt id => attempt id ["start"]
  | checkAttempt id => attempt id ["check"] | submitAttempt id => attempt id ["submit"]
  | connectAttempt id => attempt id ["connect"] | getEvaluation id => attempt id ["evaluation"]
  | getTasks id => attempt id ["tasks"]
  | previewHint id key | revealHint id key => attempt id ["tasks"; key; "hints"]
  | getDashboard _ _ => ["dashboard"] | getSkills _ _ => ["skills"] | getCourseTree slug _ => ["courses"; slug]
  | submitArtifact id key _ => attempt id ["artifacts"; enc key]
  | listWorkspaceFiles id _ => attempt id ["files"]
  | readWorkspaceFile id _ | writeWorkspaceFile id _ _ => attempt id ["files"; "content"]
  end.
Definition client_query (c : ApiCall) : string :=
  match c with
  | listCatalog t | getCourseTree _ t => "?tenant_id=" ++ enc t
  | listSkillCatalog t k => "?tenant_id=" ++ enc t ++ "&course=" ++ enc k
  | listAttempts u => "?user_id=" ++ enc u
  | getDashboard u t => "?user_id=" ++ enc u ++ "&tenant_id=" ++ enc t
  | getSkills u k => "?user_id=" ++ enc u ++ "&course=" ++ enc k
  | listWorkspaceFiles _ dir => "?dir=" ++ enc dir
  | readWorkspaceFile _ path | writeWorkspaceFile _ path _ => "?path=" ++ enc path
  | _ => ""
  end.
Lemma api_target_eq c : (api_target c).2 = target (client_path c) (client_query c).
Proof.
  destruct c; unfold target; cbn [api_target client_path client_query snd String.concat]; unfold attempt_path;
    rewrite ?append_assoc, ?append_nil_r; reflexivity.
Qed.

(** The percent-encoded pieces of a text. *)
Definition piece (c : ascii) : string := if unreserved "-_.!~*'()" c then String c "" else percent c.
Lemma concat_nil_cons x l : String.concat "" (x :: l) = x ++ String.concat "" l.
Proof. destruct l; cbn; [now rewrite append_nil_r | reflexivity]. Qed.
Lemma enc_cons c s : enc (String c s) = piece c ++ enc s.
Proof. unfold enc. cbn [explode fmap list_fmap]. apply concat_nil_cons. Qed.
Lemma free_app c a b : free_of c a -> free_of c b -> free_of c (a ++ b).
Proof. unfold free_of. rewrite explode_app. intros A B [I|I]%in_app_iff; auto. Qed.

(** Percent-encoding leaves none of the characters that structure a URL. *)
Definition structural (c : ascii) : bool := existsb (Ascii.eqb c) ["/"; "?"; "#"]%char.
Lemma piece_free c : forallb (fun x => negb (structural x)) (explode (piece c)) = true /\ piece c <> "".
Proof. destruct c as [[] [] [] [] [] [] [] []]; split; vm_compute; easy. Qed.
Lemma enc_free c s : structural c = true -> free_of c (enc s).
Proof.
  intros S. induction s as [|x s IH]; [now intros []|]. rewrite enc_cons. apply free_app; [|exact IH].
  destruct (piece_free x) as [P _]. rewrite forallb_forall in P. intros I. specialize (P c I). now rewrite S in P.
Qed.
Lemma enc_nonempty s : s <> "" -> enc s <> "".
Proof.
  destruct s as [|c s]; [easy|]. intros _. rewrite enc_cons. destruct (piece_free c) as [_ P]. destruct (piece c); easy.
Qed.
Lemma enc_unreserved s : forallb (unreserved "-_.!~*'()") (explode s) = true -> enc s = s.
Proof.
  induction s as [|c s IH]; [reflexivity|]. cbn [explode forallb]. intros [U F]%andb_true_iff.
  rewrite enc_cons, (IH F). unfold piece. now rewrite U.
Qed.
Lemma word_plain s : word s -> plain s.
Proof. intros (N & D1 & D2 & F). exists s. now rewrite enc_unreserved. Qed.
Ltac literal_plain := apply word_plain; repeat split; easy.

Lemma client_path_plain c : well_formed c -> Forall plain (client_path c).
Proof.
  destruct c; cbn [well_formed client_path]; intros W;
    repeat match type of W with _ /\ _ => let W1 := fresh "W" in destruct W as [W1 W] end;
    repeat (constructor; [first [literal_plain | now apply word_plain | now eexists] |]); constructor.
Qed.
Lemma client_query_ok c : is_query (client_query c) /\ free_of "#" (client_query c).
Proof.
  split; [destruct c; cbn [client_query]; (now left) || (right; eexists; reflexivity) |].
  assert (L : forall s, forallb (fun x => negb (x =? "#")%char) (explode s) = true -> free_of "#" s).
  { intros s F I. rewrite forallb_forall in F. now specialize (F _ I). }
  destruct c; cbn [client_query]; repeat (apply free_app || (now apply enc_free) || (now apply L)).
Qed.

(** The search of the routes on a path with named parts that are not empty. *)
Ltac find_route := repeat match goal with N : ?w <> "" |- _ => destruct w; [now destruct N | clear N] end; vm_compute; reflexivity.
Lemma find_skip {A} (f : A -> bool) l l' : List.find f l = None -> List.find f (l ++ l')%list = List.find f l'.
Proof. induction l as [|x l IH]; [easy|]. cbn. destruct (f x); [discriminate | exact IH]. Qed.
Lemma version_route id : id <> "" -> to_lower id <> "by-skill" ->
  first_fit server_routes GET ["v1"; "practice"; "activities"; id] = Some "CatalogController.getOne".
Proof.
  intros N B. assert (fits (Lit "by-skill") id = false) as F by (apply String.eqb_neq; intros E; apply B; symmetry; exact E).
  unfold first_fit. change server_routes with (take 4 server_routes ++ drop 4 server_routes)%list.
  rewrite find_skip by (clear F B; find_route).
  change (drop 4 server_routes) with
    (mkRoute GET [Lit "v1"; Lit "practice"; Lit "activities"; Lit "by-skill"] "CatalogController.listBySkill" :: drop 5 server_routes).
  cbn [List.find rt_segments rt_verb fits_all]. rewrite F, andb_false_l, !andb_false_r. clear F B. find_route.
Qed.
Lemma first_fit_client c : well_formed c -> first_fit server_routes (api_target c).1 (client_path c) = Some (api_handler c).
Proof.
  unfold client_path. destruct c; cbn [well_formed api_target api_handler fst]; intros W;
    try (vm_compute; reflexivity); try (destruct W as [N _]; clear -N; find_route).
  - destruct W as [(N & _) B]. now apply version_route.
  - destruct W as [[N _] [K _]]. clear -N K. find_route.
  - destruct W as [[N _] [K _]]. clear -N K. find_route.
  - destruct W as [[N _] [K _]]. apply enc_nonempty in K. clear -N K.
    generalize dependent (enc key). intros k K. find_route.
Qed.

(** C36: Every function of the client reaches the handler it is written for: whatever
    texts the encoded parameters hold, the method and the path that arrive fit a route
    of the server, and none that is declared before it.  The parameters that are put
    into the path unencoded must be words of unreserved characters, other than a dot
    segment, and a version must not be called by-skill in any case; an artifact key must
    not be empty or a dot segment either, which encoding leaves as it is
    ([unserved] shows what becomes of the others).  [UrlParser] and [Router] are what
    the URL standard and Express document. *)
Theorem calls_served `{UrlParser} `{Router} c : well_formed c ->
  route server_routes (api_target c).1 (sent (api_target c).2) = Some (api_handler c).
Proof.
  intros W. rewrite api_target_eq. destruct (client_query_ok c) as [Q F].
  pose proof (client_path_plain c W) as P. assert (N : client_path c <> []) by easy.
  destruct (sent_plain (client_path c) (client_query c) N P Q F) as (q' & Q' & E).
  rewrite E, route_first by assumption. now apply first_fit_client.
Qed.

(** ** An URL parser and a router

    The parts of both that the paths of the client can meet: the fragment and the dot
    segments, written with or without percent-encoding; segments compared in order. *)
Module Standard.
Definition dots (s : string) : bool :=
  existsb (String.eqb (to_lower s)) ["."; ".."; "%2e"; ".%2e"; "%2e."; "%2e%2e"].
Definition up (s : string) : bool := existsb (String.eqb (to_lower s)) [".."; ".%2e"; "%2e."; "%2e%2e"].
(** The segments kept so far, latest first; a dot segment at the end leaves an empty one. *)
Fixpoint resolve (kept segs : list string) : list string :=
  match segs with
  | [] => rev kept
  | s :: segs =>
      if dots s then
        let kept := if up s then tail kept else kept in
        match segs with [] => rev ("" :: kept) | _ => resolve kept segs end
      else resolve (s :: kept) segs
  end.
Definition before (c : ascii) (s : string) : string := default "" (head (split_on c s)).
Fixpoint from (c : ascii) (s : string) : string :=
  match s with String d s' => if (d =? c)%char then s else from c s' | "" => "" end.
Definition parse_url (t : string) : string :=
  let t := before "#" t in
  "/" ++ String.concat "/" (resolve [] (tail (split_on "/" (before "?" t)))) ++ from "?" t.
Definition path_segments (t : string) : list string := tail (split_on "/" (before "?" t)).

(** No encoded text is a dot segment, unless it was one. *)
Lemma low_piece c : match to_lower (piece c) with
  | String "%" (String a (String b _)) => negb ((a =? "2")%char && (b =? "e")%char) = true
  | String "%" _ => False
  | String "." r => c = "."%char /\ r = ""
  | String _ r => r = ""
  | "" => False
  end.
Proof. destruct c as [[] [] [] [] [] [] [] []]; vm_compute; auto. Qed.
Lemma to_lower_app a b : to_lower (a ++ b) = to_lower a ++ to_lower b.
Proof.
  unfold to_lower. rewrite explode_app, fmap_app. generalize (lower <$> explode a) (lower <$> explode b). intros l m.
  induction l as [|x l IH]; [reflexivity|]. exact (f_equal (String x) IH).
Qed.
Lemma low_enc_cons c s : to_lower (enc (String c s)) = to_lower (piece c) ++ to_lower (enc s).
Proof. now rewrite enc_cons, to_lower_app. Qed.
Lemma low_head c rest d r : d = "." \/ d = "%2e" -> to_lower (piece c) ++ rest = d ++ r -> c = "."%char /\ rest = r.
Proof.
  pose proof (low_piece c) as P. intros D E.
  destruct (to_lower (piece c)) as [|x p]; [easy|]. destruct D as [-> | ->]; injection E as -> E.
  - destruct P as [-> ->]. now split.
  - destruct p as [|a [|b p]]; try easy. injection E as -> -> _. discriminate P.
Qed.
Lemma low_enc_nil t : to_lower (enc t) = "" -> t = "".
Proof.
  destruct t as [|c t]; [easy|]. rewrite low_enc_cons. pose proof (low_piece c) as P. now destruct (to_lower (piece c)).
Qed.
Lemma enc_dots t : t <> "" -> t <> "." -> t <> ".." -> dots (enc t) = false.
Proof.
  intros N D1 D2. apply not_true_iff_false. intros D.
  assert (S : exists d r, (d = "." \/ d = "%2e") /\ (r = "" \/ r = "." \/ r = "%2e") /\ to_lower (enc t) = d ++ r).
  { unfold dots in D. apply existsb_exists in D as (x & I & E%String.eqb_eq). rewrite E. clear -I.
    destruct I as [<-|[<-|[<-|[<-|[<-|[<-|[]]]]]]];
      [exists ".", "" | exists ".", "." | exists "%2e", "" | exists ".", "%2e" | exists "%2e", "." | exists "%2e", "%2e"]; tauto. }
  destruct S as (d & r & Dd & R & E). destruct t as [|c t]; [easy|]. rewrite low_enc_cons in E.
  apply low_head in E as [-> E]; [|exact Dd]. destruct R as [->|R]; [apply low_enc_nil in E as ->; now apply D1 |].
  destruct t as [|c t]; [destruct R as [-> | ->]; discriminate|]. rewrite low_enc_cons in E. rewrite <- (append_nil_r r) in E.
  apply low_head in E as [-> E]; [|exact R]. apply low_enc_nil in E as ->. now apply D2.
Qed.

Lemma resolve_plain segs : forall kept, Forall plain segs -> resolve kept segs = (rev kept ++ segs)%list.
Proof.
  induction segs as [|s segs IH]; intros kept P; [now rewrite app_nil_r|]. apply Forall_cons in P as [(t & -> & N & D1 & D2) P].
  cbn [resolve]. rewrite enc_dots by assumption. rewrite IH by exact P. cbn. now rewrite <- app_assoc.
Qed.
Lemma segment_free c s : structural c = true -> plain s -> free_of c s.
Proof. intros S (t & -> & _). now apply enc_free. Qed.
Lemma concat_free c sep l : free_of c sep -> Forall (free_of c) l -> free_of c (String.concat sep l).
Proof.
  intros S F. induction F as [|x l X F IH]; [now intros []|]. destruct l as [|y l]; [exact X|].
  apply free_app; [exact X|]. now apply free_app.
Qed.
Lemma path_free c segs : c <> "/"%char -> structural c = true -> Forall plain segs -> free_of c ("/" ++ String.concat "/" segs).
Proof.
  intros N S P. assert (F : free_of c "/") by (intros [I|[]]; congruence). apply free_app; [exact F|].
  apply concat_free; [exact F|]. eapply Forall_impl; [exact P|]. intros s. now apply segment_free.
Qed.
Lemma before_none c s : free_of c s -> before c s = s.
Proof. intros F. unfold before. now rewrite (proj2 (split_on_app c s "" F)). Qed.
Lemma before_query segs q : Forall plain segs -> is_query q -> before "?" (target segs q) = "/" ++ String.concat "/" segs.
Proof.
  intros P Q. pose proof (path_free "?" segs ltac:(easy) eq_refl P) as F. unfold target. rewrite <- append_assoc.
  destruct Q as [->|[r ->]]; [rewrite append_nil_r; now apply before_none|].
  unfold before. change ("?" ++ r) with (String "?" r). now rewrite (proj1 (split_on_app "?" _ r F)).
Qed.
Lemma segments_of segs q : segs <> [] -> Forall plain segs -> is_query q -> path_segments (target segs q) = segs.
Proof.
  intros N P Q. unfold path_segments. rewrite before_query by assumption.
  change ("/" ++ String.concat "/" segs) with ("" ++ String "/" (String.concat "/" segs)).
  rewrite (proj1 (split_on_app "/" "" _ (fun I => I))). cbn [tail].
  apply split_on_concat; [exact N|]. eapply Forall_impl; [exact P|]. intros s. now apply segment_free.
Qed.
Lemma from_app c p q : free_of c p -> q = "" \/ (exists r, q = String c r) -> from c (p ++ q) = q.
Proof.
  intros F Q. induction p as [|x p IH].
  - destruct Q as [->|[r ->]]; [reflexivity|]. change (from c ("" ++ String c r)) with (if (c =? c)%char then String c r else from c r). now rewrite Ascii.eqb_refl.
  - change (from c (String x p ++ q)) with (if (x =? c)%char then String x (p ++ q) else from c (p ++ q)).
    destruct (Ascii.eqb_spec x c) as [->|]; [destruct F; now left|]. apply IH. intros I. apply F. now right.
Qed.

#[export] Instance parser : UrlParser.
Proof.
  refine {| sent := parse_url |}. intros segs q N P Q F. exists q. split; [exact Q|]. unfold parse_url.
  assert (T : target segs q = ("/" ++ String.concat "/" segs) ++ q) by (unfold target; now rewrite append_assoc).
  assert (B : before "#" (target segs q) = target segs q).
  { apply before_none. rewrite T. apply free_app; [now apply path_free | exact F]. }
  rewrite B. pose proof (segments_of segs q N P Q) as S. unfold path_segments in S. rewrite S, resolve_plain by exact P.
  rewrite T at 1. rewrite from_app; [reflexivity | now apply path_free |]. destruct Q as [->|[r ->]]; [now left | right; now exists r].
Defined.
#[export] Instance router : Router.
Proof.
  refine {| route routes verb t := first_fit routes verb (path_segments t) |}.
  intros routes verb segs q N P Q. now rewrite segments_of.
Defined.
End Standard.
Import Standard.

Lemma calls_served_witness :
  route server_routes POST (sent "/v1/practice/attempts/a-1/artifacts/incident%20note%2Fv2") = Some "AttemptController.submitArtifact".
Proof.
  refine (calls_served (submitArtifact "a-1" "incident note/v2" "text") _). repeat split; easy.
Defined.

(** Words that are none: an id with a fragment sign loses the action that follows it, an
    artifact key of two dots removes the segment before it, and both requests reach no
    route; a version called By-Skill is taken for the listing by skill. *)
Theorem unserved :
  sent (api_target (provisionAttempt "a#b")).2 = "/v1/practice/attempts/a" /\
  route server_routes POST (sent (api_target (provisionAttempt "a#b")).2) = None /\
  sent (api_target (submitArtifact "a-1" ".." "text")).2 = "/v1/practice/attempts/a-1/" /\
  route server_routes POST (sent (api_target (submitArtifact "a-1" ".." "text")).2) = None /\
  route server_routes GET (sent (api_target (getActivityVersion "By-Skill")).2) = Some "CatalogController.listBySkill".
Proof. vm_compute. repeat split. Qed.
