(* ===== verification/Reporting.v ===== *)
(** * Reports

    admin/analytics.service.ts, admin/cost-dashboard.service.ts,
    experiment/north-star.service.ts: the aggregates an administrator reads, as
    the queries define them, and the JavaScript that turns their rows into
    numbers; what the orchestrator's meter (orchestrator/internal/costmeter,
    internal/cloudcost) writes into the table they sum.  Outside: how PostgreSQL
    divides numerics ([NumericDivision]) and collates texts ([Collation]), the
    email of an account and the name of a tenant. *)
From Stdlib Require Import Ascii.
From stdpp Require Import sorting pretty.
From S2P Require Import Prelude RegExp JsNum Binary64 Effects Schema AttemptStatus EventStore JsText JsonParse Mastery Authoring AnalyticsIngestion AnalyticsQuery Experiment.
Open Scope Z_scope.

(** ** What the queries read *)

(** env.usage_meter and env.cloud_account, the orchestrator's tables. *)
Record UsageRow := mkUsageRow {
  um_environment_id : string; um_attempt_id : Id; um_window_start : Z; um_window_end : Z;
  um_cloud_cost_usd : Q; um_ai_cost_usd : Q; um_total_cost_usd : Q }.
Inductive AccountState := AVAILABLE | IN_USE | NUKING | QUARANTINED.
#[export] Instance account_state_eq_dec : EqDecision AccountState.
Proof. solve_decision. Defined.
Record CloudAccount := mkCloudAccount {
  cl_aws_account_id : string; cl_state : AccountState; cl_region : string; cl_attempt_id : option Id;
  cl_budget_usd : option Q; cl_quarantine_reason : option string }.
Record Env := mkEnv { usage_meter : list UsageRow; cloud_account : list CloudAccount }.

(** The database: [env] is [None] where the orchestrator's migrations have not
    run; [active_seconds] holds the attempts whose column differs from its
    default, 0. *)
Record Db := mkDb { store : Store; env : option Env; tests : Experiments; active_seconds : gmap Id Z }.
#[export] Instance eta_Db : Eta Db := fun d => mkDb (store d) (env d) (tests d) (active_seconds d).

(** [/] on numerics, whose scale the server chooses. *)
Class NumericDivision := {
  ndiv : Q -> Q -> Q;
  ndiv_zero : forall b, ndiv 0 b = 0%Q
}.
Definition twenty_decimals : NumericDivision.
Proof. refine {| ndiv a b := default 0%Q (numeric 1000 20 (a / b)) |}. intros b. unfold Qdiv. now rewrite (numeric_proper _ _ _ 0%Q) by ring. Defined.
(** The order of texts in [ORDER BY]. *)
Class Collation := {
  text_le : relation string;
  text_le_dec :: RelDecision text_le;
  text_le_total :: Total text_le;
  text_le_trans :: Transitive text_le
}.

(** By the bytes of the texts, the collation "C". *)
Fixpoint bytes_le (a b : string) : bool :=
  match a, b with
  | EmptyString, _ => true
  | String _ _, EmptyString => false
  | String c a, String d b => if (N_of_ascii c <? N_of_ascii d)%N then true else (N_of_ascii c =? N_of_ascii d)%N && bytes_le a b
  end.
Lemma bytes_le_total a b : bytes_le a b = true \/ bytes_le b a = true.
Proof.
  revert b. induction a as [|c a IH]; intros [|d b]; cbn; auto. destruct (N.ltb_spec (N_of_ascii c) (N_of_ascii d)); [auto|].
  destruct (N.ltb_spec (N_of_ascii d) (N_of_ascii c)); [auto|]. replace (N_of_ascii d) with (N_of_ascii c) by lia. rewrite N.eqb_refl. apply IH.
Qed.
Lemma bytes_le_trans a b c : bytes_le a b = true -> bytes_le b c = true -> bytes_le a c = true.
Proof.
  revert b c. induction a as [|x a IH]; intros [|y b] [|z c]; cbn; try easy.
  destruct (N.ltb_spec (N_of_ascii x) (N_of_ascii y)), (N.ltb_spec (N_of_ascii y) (N_of_ascii z)), (N.ltb_spec (N_of_ascii x) (N_of_ascii z));
    try easy; rewrite ?andb_true_iff, ?N.eqb_eq; intuition (try lia); eauto.
Qed.
Definition bytes_collation : Collation.
Proof.
  refine {| text_le a b := bytes_le a b = true |}.
  - intros a b. unfold Decision. destruct (bytes_le a b); [left | right]; easy.
  - exact bytes_le_total.
  - exact bytes_le_trans.
Defined.

(** [GROUP BY key]: the rows of each value of the key. *)
Definition groups {A K} `{EqDecision K} (key : A -> K) (l : list A) : list (K * list A) :=
  (fun k => (k, List.filter (fun x => bool_decide (key x = k)) l)) <$> remove_dups (key <$> l).
Definition qsum (l : list Q) : Q := fold_right (fun x acc => Qred (x + acc)) 0%Q l.
(** [avg]: NULL over no rows. *)
Definition avg `{NumericDivision} (l : list Q) : option Q :=
  match l with [] => None | _ => Some (ndiv (qsum l) (inject_Z (Z.of_nat (List.length l)))) end.
(** [count( * ) FILTER (WHERE p)]. *)
Definition count_where {A} (p : A -> bool) (l : list A) : nat := List.length (List.filter p l).
Definition count_status (sts : list AttemptStatus) (l : list Attempt) : nat := count_where (fun a => AttemptStatus.includes sts (status a)) l.
Definition number (n : nat) : Q := inject_Z (Z.of_nat n).
(** [n > 0 ? a / n : otherwise]. *)
Definition rate `{Rounding} (a n : nat) (otherwise : Q) : Q := if (0 <? n)%nat then number a /! number n else otherwise.

(** ** analytics.service.ts *)
Record ActivityHealthRow := mkActivityHealthRow {
  ah_activity_id : Id; ah_slug : string; ah_started : nat; ah_completed : nat; ah_abandoned : nat;
  ah_pass_rate : option Q; ah_avg_hint_penalty : option Q; ah_avg_reset_count : option Q }.
Record TaskDropoffRow := mkTaskDropoffRow { td_task_key : string; td_reached : nat; td_passed : nat; td_dropoff_rate : Q }.
Record ValidatorHealthRow := mkValidatorHealthRow { vh_validator_id : string; vh_total_runs : nat; vh_fail_rate : Q; vh_error_rate : Q }.

Definition more_started : relation ActivityHealthRow := fun a b => (ah_started b <= ah_started a)%nat.
#[export] Instance more_started_dec : RelDecision more_started.
Proof. intros a b. apply Nat.le_dec. Defined.

Section Analytics.
Context `{Rounding} `{NumericDivision} `{Collation} `{RowOrder}.

Definition attempts_of (s : Store) (activityId : Id) : list Attempt :=
  List.filter (fun a => Nat.eqb (activity_id a) activityId) (snd <$> map_to_list (attempts s)).
Definition health_row (s : Store) (row : Id * Activity) : ActivityHealthRow :=
  let atts := attempts_of s row.1 in
  let passed_count := count_status [PASSED; COMPLETED] atts in
  let scored_count := count_status [PASSED; FAILED; COMPLETED] atts in
  mkActivityHealthRow row.1 (a_slug row.2) (List.length atts)
    (count_status [PASSED; FAILED; COMPLETED] atts) (count_status [ABANDONED; EXPIRED] atts)
    (if (0 <? scored_count)%nat then Some (number passed_count /! number scored_count) else None)
    (lit <$> avg (hint_penalty_total <$> atts)) (lit <$> avg (inject_Z ∘ reset_count <$> atts)).
Definition getActivityHealth (tenantId : Id) (s : Store) : list ActivityHealthRow :=
  merge_sort more_started (in_order (health_row s <$>
    List.filter (fun row => Nat.eqb (a_tenant_id row.2) tenantId) (map_to_list (activities s)))).

Definition task_rows (activityId : Id) (s : Store) : list (string * TaskState) :=
  omap (fun '(id, key, st) =>
    match attempts s !! id with
    | Some a => if Nat.eqb (activity_id a) activityId then Some (key, st) else None
    | None => None
    end) (map_to_list (task_states s)).
Definition by_text {A} (f : A -> string) : relation A := fun a b => text_le (f a) (f b).
#[local] Instance by_text_dec {A} (f : A -> string) : RelDecision (by_text f).
Proof. intros a b. apply text_le_dec. Defined.
Definition dropoff_row (g : string * list (string * TaskState)) : TaskDropoffRow :=
  let reached := List.length g.2 in
  let passed := count_where (fun r => bool_decide (ts_status r.2 = T_PASSED)) g.2 in
  mkTaskDropoffRow g.1 reached passed (if (0 <? reached)%nat then 1 -! (number passed /! number reached) else 0%Q).
Definition getTaskDropoff (activityId : Id) (s : Store) : list TaskDropoffRow :=
  merge_sort (by_text td_task_key) (dropoff_row <$> groups fst (task_rows activityId s)).

Definition run_of (s : Store) (r : ValidatorResultRow) : option ValidationRun :=
  List.find (fun run => Nat.eqb (vr_id run) (vres_run_id r)) (validation_runs s).
Definition result_rows (activityId : Id) (s : Store) : list ValidatorResultRow :=
  List.filter (fun r =>
    match run ← run_of s r; attempts s !! vr_attempt_id run with
    | Some a => Nat.eqb (activity_id a) activityId
    | None => false
    end) (validator_results s).
Definition validator_row (g : string * list ValidatorResultRow) : ValidatorHealthRow :=
  let total := List.length g.2 in
  let of_status st := count_where (fun r => bool_decide (vres_status r = st)) g.2 in
  mkValidatorHealthRow g.1 total (rate (of_status FAIL) total 0) (rate (of_status ERROR) total 0).
Definition getValidatorHealth (activityId : Id) (s : Store) : list ValidatorHealthRow :=
  merge_sort (by_text vh_validator_id) (validator_row <$> groups vres_validator_id (result_rows activityId s)).
End Analytics.

(** ** cost-dashboard.service.ts *)
Inductive CostGrain := C_learner | C_course | C_activity | C_tenant.
Record CostRow := mkCostRow {
  cr_bucket : string; cr_label : string; cr_attempts : nat; cr_compute_cost_usd : Q; cr_cloud_cost_usd : Q;
  cr_ai_cost_usd : Q; cr_total_cost_usd : Q }.
#[export] Instance eta_CostRow : Eta CostRow := fun r =>
  mkCostRow (cr_bucket r) (cr_label r) (cr_attempts r) (cr_compute_cost_usd r) (cr_cloud_cost_usd r) (cr_ai_cost_usd r) (cr_total_cost_usd r).
Record AccountSpendRow := mkAccountSpendRow {
  sp_aws_account_id : string; sp_state : AccountState; sp_region : string; sp_attempt_id : option Id; sp_budget_usd : option Q;
  sp_spend_usd : Q; sp_quarantined : bool; sp_quarantine_reason : option string }.

(** A row of the query's FROM: a usage row and its attempt. *)
Record Usage := mkUsage { us_row : UsageRow; us_attempt : Id; us_of : Attempt; us_activity : Activity }.

Definition dearer (f : CostRow -> Q) : relation CostRow := fun a b => (f b <= f a)%Q.
#[export] Instance dearer_dec f : RelDecision (dearer f).
Proof. intros a b. unfold Decision. destruct (Qlt_le_dec (f a) (f b)) as [L|L]; [right; now apply Qlt_not_le | now left]. Defined.
Definition more_spent : relation AccountSpendRow := fun a b => (sp_spend_usd b <= sp_spend_usd a)%Q.
#[export] Instance more_spent_dec : RelDecision more_spent.
Proof. intros a b. unfold Decision. destruct (Qlt_le_dec (sp_spend_usd a) (sp_spend_usd b)) as [L|L]; [right; now apply Qlt_not_le | now left]. Defined.

Section Cost.
Context `{Rounding} `{RowOrder}.
Variables (uuid_text : Id -> string) (email : Id -> string) (tenant_name : Id -> string).

Definition window_start (days : Q) (clock : Z) : Z := clock - Z.max 1 (jfloor days) * 86400000.
Definition recent (days : Q) (clock : Z) (u : UsageRow) : bool := window_start days clock <=? um_window_start u.

(** The course of a version, by the topics it is linked to: LIMIT 1 keeps any. *)
Definition course_of_version (s : Store) (versionId : Id) : option (Id * Course) :=
  id ← head (in_order (omap (fun l => t ← topics s !! at_topic_id l; m ← tp_module_id t; md ← modules s !! m; Some (md_course_id md))
    (List.filter (fun l => Nat.eqb (at_version_id l) versionId) (activity_topics s))));
  course ← courses s !! id; Some (id, course).
Definition key_expr (grain : CostGrain) (s : Store) (u : Usage) : string :=
  match grain with
  | C_learner => uuid_text (user_id (us_of u))
  | C_course => match course_of_version s (activity_version_id (us_of u)) with Some (id, _) => uuid_text id | None => EmptyString end
  | C_activity => uuid_text (activity_id (us_of u))
  | C_tenant => uuid_text (tenant_id (us_of u))
  end.
Definition bucket_expr (grain : CostGrain) (s : Store) (u : Usage) : string :=
  match grain with
  | C_learner => email (user_id (us_of u))
  | C_course => match course_of_version s (activity_version_id (us_of u)) with Some (_, c) => co_slug c | None => "no-course"%string end
  | C_activity => a_slug (us_activity u)
  | C_tenant => tenant_name (tenant_id (us_of u))
  end.

Definition joined (s : Store) (u : UsageRow) : option Usage :=
  a ← attempts s !! um_attempt_id u; act ← activities s !! activity_id a; Some (mkUsage u (um_attempt_id u) a act).
Definition tenant_usage (tenantId : Id) (days : Q) (s : Store) (e : Env) : list Usage :=
  List.filter (fun u => Nat.eqb (tenant_id (us_of u)) tenantId && recent days (now s) (us_row u)) (omap (joined s) (usage_meter e)).
(** The aggregates of a group, as the server computes them. *)
Definition cost_group (g : string * string * list Usage) : CostRow :=
  let costs f := qsum ((fun u => f (us_row u)) <$> g.2) in
  mkCostRow g.1.1 g.1.2 (List.length (remove_dups (us_attempt <$> g.2)))
    (costs (fun u => um_total_cost_usd u - um_cloud_cost_usd u - um_ai_cost_usd u)%Q)
    (costs um_cloud_cost_usd) (costs um_ai_cost_usd) (costs um_total_cost_usd).
Definition cost_query (tenantId : Id) (grain : CostGrain) (days : Q) (s : Store) (e : Env) : list CostRow :=
  merge_sort (dearer cr_total_cost_usd)
    (in_order (cost_group <$> groups (fun u => (key_expr grain s u, bucket_expr grain s u)) (tenant_usage tenantId days s e))).
Definition rounded (r : CostRow) : CostRow :=
  let round f := round4 (lit (f r)) in
  mkCostRow (cr_bucket r) (cr_label r) (cr_attempts r) (round cr_compute_cost_usd) (round cr_cloud_cost_usd)
    (round cr_ai_cost_usd) (round cr_total_cost_usd).

(** [envSchemaPresent], the memo of the first look, and the look. *)
Definition hasEnvSchema (memo : option bool) (d : Db) : bool :=
  match memo with Some present => present | None => bool_decide (is_Some (env d)) end.
(** A table that is not there fails the query. *)
Definition usage_of (d : Db) : exn + Env := match env d with Some e => inr e | None => inl (DbError "undefined_table") end.
Definition costByGrain (tenantId : Id) (grain : CostGrain) (days : Q) (memo : option bool) (d : Db) : (exn + list CostRow) * option bool :=
  let present := hasEnvSchema memo d in
  ((if present then let? e := usage_of d in inr (rounded <$> cost_query tenantId grain days (store d) e) else inr []), Some present).

Definition account_row (days : Q) (clock : Z) (e : Env) (a : CloudAccount) : AccountSpendRow :=
  let spend := qsum (um_cloud_cost_usd <$> List.filter (fun u => bool_decide (cl_attempt_id a = Some (um_attempt_id u)) && recent days clock u) (usage_meter e)) in
  mkAccountSpendRow (cl_aws_account_id a) (cl_state a) (cl_region a) (cl_attempt_id a) (cl_budget_usd a) spend
    (bool_decide (cl_state a = QUARANTINED)) (cl_quarantine_reason a).
Definition account_view (r : AccountSpendRow) : AccountSpendRow :=
  mkAccountSpendRow (sp_aws_account_id r) (sp_state r) (sp_region r) (sp_attempt_id r) (lit <$> sp_budget_usd r)
    (round4 (lit (sp_spend_usd r))) (sp_quarantined r) (sp_quarantine_reason r).
Definition accountSpend (days : Q) (memo : option bool) (d : Db) : (exn + list AccountSpendRow) * option bool :=
  let present := hasEnvSchema memo d in
  ((if present then let? e := usage_of d in inr (account_view <$> merge_sort more_spent (in_order (account_row days (now (store d)) e <$> cloud_account e))) else inr []), Some present).
End Cost.

(** [budgetBreachHistory]. *)
Record BudgetBreachRow := mkBudgetBreachRow {
  bb_aws_account_id : option string; bb_attempt_id : Id; bb_reason : string; bb_resources_remaining : option Z; bb_at : Z }.
Definition later_event : relation AttemptEventRow := fun a b => ev_occurred_at b <= ev_occurred_at a.
#[export] Instance later_event_dec : RelDecision later_event.
Proof. intros a b. apply Z.le_dec. Defined.

Section Breaches.
Context `{Rounding} `{RowOrder}.
(** The text PostgreSQL gives a value that is no string, and its cast to int. *)
Variables (jsonb_text : Json -> string) (to_int : string -> option Z).

(** [payload->>'key']. *)
Definition text_of (key : string) (payload : Json) : option string :=
  match jfield key payload with
  | Some (JStr s) => Some s
  | Some JNull | None => None
  | Some j => Some (jsonb_text j)
  end.
Definition type_name (ty : AttemptEventType) : string := match ty with ACCOUNT_NUKED => "ACCOUNT_NUKED" | _ => "ACCOUNT_QUARANTINED" end.
Definition breach_row (e : AttemptEventRow) : exn + BudgetBreachRow :=
  let? remaining := match text_of "resources_remaining" (ev_payload e) with
                    | None | Some "" => inr None
                    | Some t => match to_int t with Some n => inr (Some n) | None => inl (DbError "invalid_text_representation") end
                    end in
  inr (mkBudgetBreachRow (text_of "cloud_account_id" (ev_payload e)) (ev_attempt_id e)
    (default (type_name (ev_type e)) (text_of "reason" (ev_payload e))) remaining (ev_occurred_at e)).
Definition is_breach (tenantId : Id) (s : Store) (e : AttemptEventRow) : bool :=
  bool_decide (ev_type e = ACCOUNT_QUARANTINED \/ ev_type e = ACCOUNT_NUKED) &&
  match attempts s !! ev_attempt_id e with Some a => Nat.eqb (tenant_id a) tenantId | None => false end.
Definition budgetBreachHistory (tenantId : Id) (limit : Z) (s : Store) : exn + list BudgetBreachRow :=
  map_or_throw breach_row (take (Z.to_nat (Z.max 1 (Z.min limit 500)))
    (merge_sort later_event (in_order (List.filter (is_breach tenantId s) (events s))))).
End Breaches.

(** ** north-star.service.ts *)
Record NorthStarRow := mkNorthStarRow {
  ns_group : string; ns_masteryGainPerLearnerHour : Q; ns_positiveMasteryDeltaSum : Q; ns_activeLearnerHours : Q;
  ns_attempts : nat; ns_completed : nat; ns_abandoned : nat; ns_completionRate : Q; ns_abandonmentRate : Q; ns_costPerAttemptUsd : Q }.
Record PerAttempt := mkPerAttempt {
  pa_user_id : Id; pa_status : AttemptStatus; pa_active_seconds : Z; pa_pos_delta : Q; pa_cost_usd : Q }.

Section NorthStar.
Context `{Rounding} `{NumericDivision} `{Collation}.

Definition per_attempt (d : Db) (e : Env) (row : Id * Attempt) : PerAttempt :=
  mkPerAttempt (user_id row.2) (status row.2) (default 0 (active_seconds d !! row.1))
    (qsum ((fun m => if (0 <? me_delta m)%Q then me_delta m else 0%Q) <$> List.filter (fun m => Nat.eqb (me_attempt_id m) row.1) (evidence (store d))))
    (qsum (um_total_cost_usd <$> List.filter (fun u => Nat.eqb (um_attempt_id u) row.1) (usage_meter e))).
Definition scoped_attempts (since : Z) (s : Store) : list (Id * Attempt) :=
  List.filter (fun row => now s - since * 86400000 <=? created_at row.2) (map_to_list (attempts s)).
Definition group_expr (experimentKey : option string) (d : Db) (pa : PerAttempt) : string :=
  match truthy experimentKey with
  | Some key => default "unassigned"%string (assignments (tests d) !! (key, pa_user_id pa))
  | None => "all"%string
  end.
Definition north_star_row (g : string * list PerAttempt) : NorthStarRow :=
  let gain := lit (qsum (pa_pos_delta <$> g.2)) in
  let hours := lit (ndiv (inject_Z (foldr Z.add 0 (pa_active_seconds <$> g.2))) 3600) in
  let attempts := List.length g.2 in
  let completed := count_where (fun pa => AttemptStatus.includes [PASSED; COMPLETED] (pa_status pa)) g.2 in
  let abandoned := count_where (fun pa => AttemptStatus.includes [ABANDONED; EXPIRED] (pa_status pa)) g.2 in
  let cost := lit (qsum (pa_cost_usd <$> g.2)) in
  mkNorthStarRow g.1 (if (0 <? hours)%Q then gain /! hours else 0%Q) gain hours attempts completed abandoned
    (rate completed attempts 0) (rate abandoned attempts 0) (if (0 <? attempts)%nat then cost /! number attempts else 0%Q).
Definition by_group : relation NorthStarRow := fun a b => text_le (ns_group a) (ns_group b).
#[export] Instance by_group_dec : RelDecision by_group.
Proof. intros a b. apply text_le_dec. Defined.

Definition metrics (experimentKey : option string) (sinceDays : option Q) (d : Db) : exn + list NorthStarRow :=
  let since := Z.max 1 (jfloor (default 30%Q sinceDays)) in
  let? e := usage_of d in
  inr (merge_sort by_group (north_star_row <$> groups (group_expr experimentKey d) (per_attempt d e <$> scoped_attempts since (store d)))).
End NorthStar.

(** ** admin.controller.ts: the reports *)
Definition normalizeRollupGrain (g : string) : RollupGrain :=
  match g with "course" => G_course | "tenant" => G_tenant | "global" => G_global | _ => G_activity end%string.
Definition normalizeCostGrain (g : string) : CostGrain :=
  match g with "learner" => C_learner | "course" => C_course | "tenant" => C_tenant | _ => C_activity end%string.
(** [Number(text) || otherwise], given the number. *)
Definition number_or (q : option Q) (otherwise : Q) : Q :=
  match q with Some q => if Qeq_bool q 0 then otherwise else q | None => otherwise end.

Section Routes.
Context `{Rounding} `{NumericDivision} `{Collation} `{RowOrder} `{JwtService}.
Variables (uuid_text email tenant_name : Id -> string).

Definition taskDropoff (header : option string) (activityId : Id) : prog Store (list TaskDropoffRow) :=
  guarded_route None CLASS_ROLES header (fun auth =>
    assertActivityInCallerTenant auth activityId ;; select (getTaskDropoff activityId)).
Definition validatorHealth (header : option string) (activityId : Id) : prog Store (list ValidatorHealthRow) :=
  guarded_route None CLASS_ROLES header (fun auth =>
    assertActivityInCallerTenant auth activityId ;; select (getValidatorHealth activityId)).
Definition activityHealth (header : option string) : prog Store (list ActivityHealthRow) :=
  guarded_route None CLASS_ROLES header (fun auth => select (getActivityHealth (ac_tenantId auth))).
Definition analyticsRollup `{ClickHouseTime} (clickHouse : bool) (auth : AuthClaims) (grain : string) (hours : option Q) (i : Ingestion)
    : string * string * list EventRollupRow :=
  (if clickHouse then "clickhouse" else "postgres", grain,
   eventRollup uuid_text clickHouse (ac_tenantId auth) (normalizeRollupGrain grain) (number_or hours 24) i)%string.
Definition cost_by_grain (auth : AuthClaims) (grain : string) (days : option Q) :=
  costByGrain uuid_text email tenant_name (ac_tenantId auth) (normalizeCostGrain grain) (number_or days 30).
Definition costAccounts (auth : AuthClaims) (days : option Q) := accountSpend (number_or days 30).
Definition budgetBreaches (jsonb_text : Json -> string) (to_int : string -> option Z) (auth : AuthClaims) (limit : option Q) :=
  budgetBreachHistory jsonb_text to_int (ac_tenantId auth) (jfloor (number_or limit 50)).
End Routes.

(** ** What the orchestrator writes into usage_meter *)
Section Meter.
Context `{Rounding}.
Definition hourlyRateUSD : Q := lit (4 # 100).
(** costmeter: the cost since the environment was started, a row a minute. *)
Definition tick_cost (startedAt clock : Z) : Q := (inject_Z (clock - startedAt) /! 3600000) *! hourlyRateUSD.
Definition emitUsageRow (envID : string) (attemptID : Id) (clock : Z) (costUSD : Q) (e : Env) : option Env :=
  c ← numeric 10 6 costUSD;
  Some (mkEnv (usage_meter e ++ [mkUsageRow envID attemptID (clock - 60000) clock c 0 c]) (cloud_account e)).
(** cloudcost: the cost of an account over a window, written over the row that
    has it. *)
Definition same_window (envID : string) (attemptID : Id) (start : Z) (u : UsageRow) : bool :=
  String.eqb (um_environment_id u) envID && Nat.eqb (um_attempt_id u) attemptID && (um_window_start u =? start).
Definition upsertCost (accountID : string) (attemptID : Id) (start stop : Z) (amountUSD : Q) (e : Env) : option Env :=
  let envID := ("cloud:" ++ accountID)%string in
  c ← numeric 10 6 amountUSD;
  if existsb (same_window envID attemptID start) (usage_meter e)
  then Some (mkEnv ((fun u => if same_window envID attemptID start u
                              then mkUsageRow envID attemptID start stop c (um_ai_cost_usd u) (um_ai_cost_usd u + c)%Q else u) <$> usage_meter e)
                   (cloud_account e))
  else Some (mkEnv (usage_meter e ++ [mkUsageRow envID attemptID start stop c 0 c]) (cloud_account e)).

Inductive metered : Env -> Env -> Prop :=
  | metered_tick envID attemptID startedAt clock e e' :
      emitUsageRow envID attemptID clock (tick_cost startedAt clock) e = Some e' -> metered e e'
  | metered_cloud accountID attemptID start stop amount e e' :
      upsertCost accountID attemptID start stop amount e = Some e' -> metered e e'.
(** The rows of an environment metered for so many minutes. *)
Fixpoint minutes (n : nat) (envID : string) (attemptID : Id) (startedAt : Z) (e : Env) : Env :=
  match n with
  | O => e
  | S n =>
      let clock := startedAt + Z.of_nat (S n) * 60000 in
      let e := minutes n envID attemptID startedAt e in
      default e (emitUsageRow envID attemptID clock (tick_cost startedAt clock) e)
  end.
End Meter.

(** ** Groups *)
Section GroupLaws.
Context {A K : Type} `{EqDecision K} (key : A -> K).
Local Open Scope list_scope.

Lemma filter_disjoint (p q : A -> bool) l : (forall x, p x = true -> q x = false) ->
  List.filter p l ++ List.filter q l ≡ₚ List.filter (fun x => p x || q x) l.
Proof.
  intros D. induction l as [|x l IH]; cbn; [easy|]. specialize (D x).
  destruct (p x); cbn; [rewrite D by easy; cbn; now rewrite IH|].
  destruct (q x); cbn; [|exact IH]. rewrite <- Permutation_middle. now rewrite IH.
Qed.
Lemma groups_of ks l : NoDup ks ->
  concat ((fun k => List.filter (fun x => bool_decide (key x = k)) l) <$> ks) ≡ₚ List.filter (fun x => bool_decide (key x ∈ ks)) l.
Proof.
  induction 1 as [|k ks N _ IH]; cbn.
  - rewrite (proj2 (filter_nil _ l)); [easy|]. apply Forall_forall. intros x _. apply bool_decide_eq_false, not_elem_of_nil.
  - rewrite IH, filter_disjoint.
    + erewrite List.filter_ext; [reflexivity|]. intros x. cbn. apply eq_true_iff_eq.
      rewrite orb_true_iff, !bool_decide_eq_true, elem_of_cons. tauto.
    + intros x E%bool_decide_eq_true. apply bool_decide_eq_false. now rewrite E.
Qed.
(** The groups are a partition of the rows, and none is empty. *)
Lemma groups_partition l : concat (snd <$> groups key l) ≡ₚ l.
Proof.
  unfold groups. rewrite <- list_fmap_compose. unfold compose. cbn. rewrite groups_of by apply NoDup_remove_dups.
  rewrite filter_all; [easy|]. intros x I. apply bool_decide_eq_true, elem_of_remove_dups, list_elem_of_fmap. now exists x.
Qed.
Lemma groups_keys l : NoDup (fst <$> groups key l).
Proof. unfold groups. rewrite <- list_fmap_compose. cbn. rewrite list_fmap_id. apply NoDup_remove_dups. Qed.
Lemma groups_members l g : In g (groups key l) -> forall x, In x g.2 <-> In x l /\ key x = g.1.
Proof.
  intros I x. apply list_elem_of_In, list_elem_of_fmap in I as (k & -> & _). cbn. rewrite filter_In, bool_decide_eq_true. easy.
Qed.
End GroupLaws.

Lemma count_concat {A} (p : A -> bool) ll : count_where p (concat ll) = sum_list_with (count_where p) ll.
Proof. unfold count_where. induction ll as [|l ll IH]; cbn; [easy|]. now rewrite List.filter_app, length_app, IH. Qed.
#[export] Instance count_where_Permutation {A} (p : A -> bool) : Proper (Permutation ==> eq) (count_where p).
Proof. intros l l' E. unfold count_where. apply Permutation_length. now apply filter_Permutation. Qed.
Lemma count_where_le {A} (p : A -> bool) l : (count_where p l <= List.length l)%nat.
Proof. unfold count_where. apply List.filter_length_le. Qed.
Lemma count_where_disjoint {A} (p q : A -> bool) l : (forall x, p x = true -> q x = false) ->
  (count_where p l + count_where q l <= List.length l)%nat.
Proof.
  intros D. unfold count_where. rewrite <- length_app, (Permutation_length (filter_disjoint p q l D)). apply List.filter_length_le.
Qed.
Lemma qsum_cons x l : (qsum (x :: l) == x + qsum l)%Q.
Proof. apply Qred_correct. Qed.
Lemma qsum_app l l' : (qsum (l ++ l') == qsum l + qsum l')%Q.
Proof. induction l as [|x l IH]; cbn [app]; [symmetry; apply Qplus_0_l|]. rewrite !qsum_cons, IH. apply Qplus_assoc. Qed.
#[export] Instance qsum_Permutation : Proper (Permutation ==> Qeq) qsum.
Proof.
  induction 1 as [|x l l' _ IH|x y l|l l' l'' _ IH _ IH']; rewrite ?qsum_cons; [easy | now rewrite IH | | now rewrite IH].
  rewrite !Qplus_assoc. now rewrite (Qplus_comm x y).
Qed.
Lemma qsum_concat ll : (qsum (concat ll) == qsum (qsum <$> ll))%Q.
Proof. induction ll as [|l ll IH]; [easy|]. cbn [concat fmap list_fmap]. now rewrite qsum_app, qsum_cons, IH. Qed.

(** ** Activities *)
Lemma NoDup_fmap_filter {A B} (f : A -> B) (p : A -> bool) l : NoDup (f <$> l) -> NoDup (f <$> List.filter p l).
Proof.
  induction l as [|x l IH]; cbn; [easy|]. intros [N D]%NoDup_cons. destruct (p x); cbn; [|auto].
  apply NoDup_cons. split; [|auto]. intros (y & E & I)%list_elem_of_fmap. apply N, list_elem_of_fmap.
  exists y. split; [easy|]. apply list_elem_of_In, filter_In in I as [I _]. now apply list_elem_of_In.
Qed.
Lemma count_where_mono {A} (p q : A -> bool) l : (forall x, p x = true -> q x = true) -> (count_where p l <= count_where q l)%nat.
Proof.
  intros M. unfold count_where. induction l as [|x l IH]; cbn; [easy|]. specialize (M x).
  destruct (p x); [rewrite M by easy; cbn; lia | destruct (q x); cbn; lia].
Qed.
Lemma rate_unit `{Rounding} a n o : (a <= n)%nat -> (0 <= o <= 1)%Q -> (0 <= rate a n o <= 1)%Q.
Proof.
  intros L O. unfold rate. destruct (Nat.ltb_spec 0 n) as [P|]; [|easy]. unfold number. split.
  - apply div_nonneg; change 0%Q with (inject_Z 0); rewrite <- Zle_Qle; lia.
  - apply div_le_1; [change 0%Q with (inject_Z 0); rewrite <- Zlt_Qlt; lia | rewrite <- Zle_Qle; lia].
Qed.

Section HealthLaws.
Context `{Rounding} `{NumericDivision} `{RowOrder}.

(** The health report of a tenant: each of its activities on one row
    and no other's, the most attempted first; the attempts counted complete and
    those counted abandoned are different ones; the pass rate is a fraction, and
    is given exactly when an attempt of the activity was scored. *)
Theorem health_report tenantId s :
  let report := getActivityHealth tenantId s in
  (forall id, (exists r, r ∈ report /\ ah_activity_id r = id) <-> exists a, activities s !! id = Some a /\ a_tenant_id a = tenantId) /\
  NoDup (ah_activity_id <$> report) /\ StronglySorted more_started report /\
  forall r, r ∈ report ->
    (ah_completed r + ah_abandoned r <= ah_started r)%nat /\
    (ah_pass_rate r = None <-> ah_completed r = 0%nat) /\
    match ah_pass_rate r with Some p => (0 <= p <= 1)%Q | None => True end.
Proof.
  set (rows := List.filter (fun row => Nat.eqb (a_tenant_id row.2) tenantId) (map_to_list (activities s))).
  assert (P : getActivityHealth tenantId s ≡ₚ health_row s <$> rows) by (unfold getActivityHealth; now rewrite merge_sort_Permutation, in_order_perm).
  cbv zeta. split; [|split; [|split]].
  - intros id. setoid_rewrite P. split.
    + intros (r & I & <-). apply list_elem_of_fmap in I as ([i a] & -> & I). apply list_elem_of_In, filter_In in I as [I E].
      apply list_elem_of_In, elem_of_map_to_list in I. apply Nat.eqb_eq in E. now exists a.
    + intros (a & L & E). exists (health_row s (id, a)). split; [|easy]. apply list_elem_of_fmap. exists (id, a). split; [easy|].
      apply list_elem_of_In, filter_In. split; [now apply list_elem_of_In, elem_of_map_to_list | now apply Nat.eqb_eq].
  - rewrite P, <- list_fmap_compose. change (ah_activity_id ∘ health_row s) with (fst : Id * Activity -> Id).
    apply NoDup_fmap_filter, NoDup_fst_map_to_list.
  - apply Sorted_StronglySorted; [intros a b c; unfold more_started; lia|]. apply Sorted_merge_sort. intros a b. unfold more_started. lia.
  - intros r I. rewrite P in I. apply list_elem_of_fmap in I as (row & -> & _). cbn -[count_status Nat.ltb]. split_and!.
    + unfold count_status. apply count_where_disjoint. intros a. now destruct (status a).
    + destruct (Nat.ltb_spec 0 (count_status [PASSED; FAILED; COMPLETED] (attempts_of s row.1))) as [L|L].
      * split; [discriminate|]. intros E. exfalso. revert L. rewrite E. lia.
      * split; [intros _; lia | easy].
    + pose proof (rate_unit (count_status [PASSED; COMPLETED] (attempts_of s row.1)) (count_status [PASSED; FAILED; COMPLETED] (attempts_of s row.1)) 0) as R.
      unfold rate in R. destruct (0 <? _)%nat; [|easy]. apply R; [|easy].
      apply count_where_mono. intros a. now destruct (status a).
Qed.
End HealthLaws.

(** ** The north star *)
Section NorthStarLaws.
Context `{Rounding} `{NumericDivision} `{Collation}.

Definition grouped (experimentKey : option string) (since : Z) (d : Db) (e : Env) : list NorthStarRow :=
  north_star_row <$> groups (group_expr experimentKey d) (per_attempt d e <$> scoped_attempts since (store d)).
Lemma grouped_count (p : PerAttempt -> bool) (f : NorthStarRow -> nat) key since d e :
  (forall g, f (north_star_row g) = count_where p g.2) ->
  sum_list_with f (grouped key since d e) = count_where p (per_attempt d e <$> scoped_attempts since (store d)).
Proof.
  intros F. set (l := _ <$> _). transitivity (count_where p (concat (snd <$> groups (group_expr key d) l))); [|now rewrite groups_partition].
  rewrite count_concat. unfold grouped. fold l. clearbody l.
  induction (groups (group_expr key d) l) as [|g gs IH]; [easy|]. cbn [fmap list_fmap sum_list_with]. now rewrite F, <- IH.
Qed.
Lemma metrics_rows key since d : metrics key since d =
  (let? e := usage_of d in inr (merge_sort by_group (grouped key (Z.max 1 (jfloor (default 30%Q since))) d e))).
Proof. reflexivity. Qed.
#[export] Instance sum_list_Permutation {A} (f : A -> nat) : Proper (Permutation ==> eq) (sum_list_with f).
Proof. induction 1; cbn; lia. Qed.
Lemma count_all {A} (l : list A) : count_where (fun _ => true) l = List.length l.
Proof. unfold count_where. now rewrite filter_all. Qed.

(** A comparison of variants loses no attempt and counts none twice: over
    the variants of an experiment (with the learners it does not have as one
    more) the attempts, the completed and the abandoned ones add up to those of
    the overall report of the same window; a row counts the attempts of the
    learners assigned its variant. *)
Theorem variants_partition key since d :
  match metrics (Some key) since d, metrics None since d with
  | inr rows, inr overall =>
      NoDup (ns_group <$> rows) /\ StronglySorted by_group rows /\ (List.length overall <= 1)%nat /\
      sum_list_with ns_attempts rows = sum_list_with ns_attempts overall /\
      sum_list_with ns_completed rows = sum_list_with ns_completed overall /\
      sum_list_with ns_abandoned rows = sum_list_with ns_abandoned overall /\
      forall r, r ∈ rows -> ns_attempts r =
        count_where (fun row => String.eqb (group_expr (Some key) d (per_attempt d (default (mkEnv [] []) (env d)) row)) (ns_group r))
          (scoped_attempts (Z.max 1 (jfloor (default 30%Q since))) (store d))
  | inl e, inl e' => e = e' /\ env d = None
  | _, _ => False
  end.
Proof.
  rewrite !metrics_rows. unfold usage_of. destruct (env d) as [e|] eqn:E; [|easy]. cbn [default from_option].
  set (n := Z.max 1 _). assert (P : forall k, merge_sort by_group (grouped k n d e) ≡ₚ grouped k n d e) by (intros; apply merge_sort_Permutation).
  split_and!; rewrite ?P.
  - unfold grouped. rewrite <- list_fmap_compose. apply groups_keys.
  - apply Sorted_StronglySorted; [intros a b c; unfold by_group; apply text_le_trans|]. apply Sorted_merge_sort. intros a b. apply text_le_total.
  - unfold grouped, groups. rewrite !length_fmap. induction (scoped_attempts n (store d)) as [|x l IH]; cbn; [lia|].
    destruct (decide_rel _ _ _) as [|N]; [exact IH|]. cbn. destruct l as [|y l]; cbn in *; [lia|]. destruct N. now left.
  - now rewrite !(grouped_count (fun _ => true)) by (intros; now rewrite count_all).
  - now rewrite !(grouped_count (fun pa => AttemptStatus.includes [PASSED; COMPLETED] (pa_status pa))).
  - now rewrite !(grouped_count (fun pa => AttemptStatus.includes [ABANDONED; EXPIRED] (pa_status pa))).
  - intros r I. rewrite P in I. apply list_elem_of_fmap in I as (g & -> & I). cbn [north_star_row ns_attempts ns_group].
    apply list_elem_of_fmap in I as (k & -> & _). cbn [fst snd]. rewrite fmap_filter, length_fmap. unfold count_where. f_equal.
    apply List.filter_ext. intros row. apply eq_true_iff_eq. now rewrite bool_decide_eq_true, String.eqb_eq.
Qed.

Lemma not_positive q : (q == 0)%Q -> (0 <? q)%Q = false.
Proof. intros E. unfold Qltb. apply negb_false_iff, Qle_bool_iff. now rewrite E. Qed.

(** No statement of the service writes active_seconds, so on any database
    it leaves (the column at its default) the practice time is 0 and the
    mastery gain per learner-hour, the metric the report is for, is 0 in every
    group, whatever the learners gained. *)
Theorem north_star_zero key since d :
  match metrics key since (d <| active_seconds := ∅ |>) with
  | inr rows => Forall (fun r => ns_masteryGainPerLearnerHour r = 0%Q /\ (ns_activeLearnerHours r == 0)%Q) rows
  | inl _ => env d = None
  end.
Proof.
  rewrite metrics_rows. unfold usage_of. cbn [env set_field active_seconds]. change (env (d <| active_seconds := ∅ |>)) with (env d).
  destruct (env d) as [e|]; [|easy]. apply Forall_forall. intros r I. rewrite merge_sort_Permutation in I.
  apply list_elem_of_fmap in I as (g & -> & I).
  assert (Z0 : foldr Z.add 0 (pa_active_seconds <$> g.2) = 0).
  { apply list_elem_of_fmap in I as (k & -> & _). cbn [snd]. rewrite fmap_filter. induction (List.filter _ _) as [|row l IH]; [easy|].
    cbn [fmap list_fmap foldr per_attempt pa_active_seconds]. cbn in IH |- *. rewrite lookup_empty. cbn. exact IH. }
  cbn [north_star_row ns_masteryGainPerLearnerHour ns_activeLearnerHours]. rewrite Z0, ndiv_zero. rewrite not_positive by apply rnd_0.
  split; [reflexivity | apply rnd_0].
Qed.
End NorthStarLaws.

(** ** Costs *)
Section CostLaws.
Context `{Rounding} `{RowOrder}.
Variables (uuid_text email tenant_name : Id -> string).
Abbreviation query := (cost_query uuid_text email tenant_name).

(** The attempts of the groups are those of all rows, when the group of a row
    depends on its attempt. *)
Lemma distinct_groups {A K} `{EqDecision K} (key : A -> K) (f : A -> Id) ks l : NoDup ks ->
  (forall x y, In x l -> In y l -> f x = f y -> key x = key y) ->
  sum_list_with (fun k => List.length (remove_dups (f <$> List.filter (fun x => bool_decide (key x = k)) l))) ks =
  List.length (remove_dups (f <$> List.filter (fun x => bool_decide (key x ∈ ks)) l)).
Proof.
  intros D F. induction D as [|k ks N _ IH]; cbn [sum_list_with].
  - rewrite (proj2 (filter_nil _ l)); [easy|]. apply Forall_forall. intros x _. apply bool_decide_eq_false, not_elem_of_nil.
  - rewrite IH, <- length_app. apply Permutation_length, NoDup_Permutation.
    + apply NoDup_app. split_and!; [apply NoDup_remove_dups | | apply NoDup_remove_dups]. intros a.
      rewrite !elem_of_remove_dups, !list_elem_of_fmap. intros (x & -> & I) (y & E & J).
      apply list_elem_of_In, filter_In in I as [I Ex%bool_decide_eq_true], J as [J Ey%bool_decide_eq_true].
      apply N. rewrite <- Ex, (F x y I J E). exact Ey.
    + apply NoDup_remove_dups.
    + intros a. rewrite elem_of_app, !elem_of_remove_dups, !list_elem_of_fmap. setoid_rewrite list_elem_of_In. setoid_rewrite filter_In.
      setoid_rewrite bool_decide_eq_true. setoid_rewrite elem_of_cons. naive_solver.
Qed.

Lemma cost_groups_sum (f : CostRow -> Q) (g : UsageRow -> Q) tenantId grain days s e :
  (forall x, f (cost_group x) = qsum ((fun u => g (us_row u)) <$> x.2)) ->
  (qsum (f <$> query tenantId grain days s e) == qsum ((fun u => g (us_row u)) <$> tenant_usage tenantId days s e))%Q.
Proof.
  intros F. unfold cost_query. rewrite merge_sort_Permutation, in_order_perm. set (l := tenant_usage _ _ _ _). set (key := fun u : Usage => _).
  transitivity (qsum ((fun u => g (us_row u)) <$> concat (snd <$> groups key l))); [|now rewrite groups_partition].
  clearbody l. induction (groups key l) as [|x gs IH]; [easy|]. cbn [fmap list_fmap concat]. rewrite fmap_app, qsum_app, qsum_cons, F.
  cbn [fmap list_fmap] in IH. now rewrite IH.
Qed.

Lemma same_attempt tenantId days s e x y : In x (tenant_usage tenantId days s e) -> In y (tenant_usage tenantId days s e) ->
  us_attempt x = us_attempt y -> us_of x = us_of y /\ us_activity x = us_activity y.
Proof.
  assert (J : forall u, In u (tenant_usage tenantId days s e) -> attempts s !! us_attempt u = Some (us_of u) /\ activities s !! activity_id (us_of u) = Some (us_activity u)).
  { intros u I. apply filter_In in I as [I _]. apply list_elem_of_In, list_elem_of_omap in I as (r & _ & E).
    unfold joined in E. destruct (attempts s !! _) as [a|] eqn:A; [|easy]. cbn in E. destruct (activities s !! _) as [act|] eqn:B; [|easy].
    injection E as <-. cbn. now rewrite A, B. }
  intros Ix Iy E. destruct (J x Ix) as [Ax Bx], (J y Iy) as [Ay By]. rewrite E in Ax. assert (O : us_of x = us_of y) by congruence.
  split; [exact O|]. rewrite O in Bx. congruence.
Qed.

(** C35: the cost report of a tenant says the same whichever way it is broken
    down: by learner, course, activity or tenant, the rows of the query add up
    to the cloud, AI, compute and total cost of the tenant's usage in the window,
    and to its distinct attempts; usage of other tenants' attempts counts for
    nothing. *)
Theorem grains_agree tenantId grain days s e :
  let rows := query tenantId grain days s e in
  let usage := tenant_usage tenantId days s e in
  let total g := qsum ((fun u => g (us_row u)) <$> usage) in
  (qsum (cr_total_cost_usd <$> rows) == total um_total_cost_usd /\
   qsum (cr_cloud_cost_usd <$> rows) == total um_cloud_cost_usd /\
   qsum (cr_ai_cost_usd <$> rows) == total um_ai_cost_usd /\
   qsum (cr_compute_cost_usd <$> rows) == total (fun u => um_total_cost_usd u - um_cloud_cost_usd u - um_ai_cost_usd u))%Q /\
  sum_list_with cr_attempts rows = List.length (remove_dups (us_attempt <$> usage)) /\
  Forall (fun u => tenant_id (us_of u) = tenantId) usage.
Proof.
  cbv zeta. split_and!; try now apply cost_groups_sum.
  { now apply (cost_groups_sum cr_compute_cost_usd (fun u => um_total_cost_usd u - um_cloud_cost_usd u - um_ai_cost_usd u)%Q). }
  - unfold cost_query. rewrite merge_sort_Permutation, in_order_perm. set (key := fun u : Usage => _).
    transitivity (List.length (remove_dups (us_attempt <$> List.filter (fun x => bool_decide (key x ∈ remove_dups (key <$> tenant_usage tenantId days s e))) (tenant_usage tenantId days s e)))).
    + rewrite <- (distinct_groups key us_attempt _ _ (NoDup_remove_dups _)).
      * unfold groups. induction (remove_dups _) as [|k ks IH]; [easy|]. cbn [fmap list_fmap sum_list_with]. f_equal. exact IH.
      * intros x y Ix Iy E. destruct (same_attempt _ _ _ _ _ _ Ix Iy E) as [O A]. unfold key, key_expr, bucket_expr. now rewrite O, A.
    + rewrite filter_all; [easy|]. intros x I. apply bool_decide_eq_true, elem_of_remove_dups, list_elem_of_fmap. now exists x.
  - apply List.Forall_forall. intros u I. apply filter_In in I as [_ I]. apply andb_true_iff in I as [I _]. now apply Nat.eqb_eq.
Qed.

(** A row of the meter has no compute: the cost of the environment is its cloud cost. *)
Definition no_compute (e : Env) : Prop :=
  Forall (fun u => um_total_cost_usd u == um_cloud_cost_usd u + um_ai_cost_usd u)%Q (usage_meter e).
Lemma metered_no_compute e e' : metered e e' -> no_compute e -> no_compute e'.
Proof.
  unfold no_compute. intros [envID attemptID startedAt clock e1 e2 E|accountID attemptID start stop amount e1 e2 E] F.
  - unfold emitUsageRow in E. destruct (numeric 10 6 _) as [c|]; [|easy]. injection E as <-. cbn.
    apply Forall_app. split; [exact F|]. repeat constructor. cbn. now rewrite Qplus_0_r.
  - unfold upsertCost in E. destruct (numeric 10 6 _) as [c|]; [|easy]. cbn in E. destruct (existsb _ _); injection E as <-; cbn.
    + apply Forall_fmap. eapply Forall_impl; [exact F|]. intros u U. cbn. destruct (same_window _ _ _ u); cbn; [apply Qplus_comm | exact U].
    + apply Forall_app. split; [exact F|]. repeat constructor. cbn. now rewrite Qplus_0_r.
Qed.

(** What the orchestrator meters is reported as no compute at all: after
    any sequence of its writes, the minute rows of the environments and the
    costs of the cloud accounts, every row of the cost report, whatever the
    grain, has compute cost 0, and the cost of the environments stands under
    cloud cost. *)
Theorem compute_never_charged e tenantId grain days s accounts : rtc metered (mkEnv [] accounts) e ->
  Forall (fun r => cr_compute_cost_usd r == 0 /\ cr_total_cost_usd r == cr_cloud_cost_usd r + cr_ai_cost_usd r)%Q (query tenantId grain days s e).
Proof.
  intros R. assert (N : no_compute e).
  { remember (mkEnv [] accounts) as e0 eqn:E0. assert (N0 : no_compute e0) by (subst; constructor). clear E0.
    induction R as [|e0 e1 e2 M _ IH]; [easy|]. apply IH. now apply (metered_no_compute e0). }
  apply List.Forall_forall. intros r I. apply list_elem_of_In in I. unfold cost_query in I. rewrite merge_sort_Permutation, in_order_perm in I.
  apply list_elem_of_fmap in I as (g & -> & I). apply list_elem_of_In in I. pose proof (groups_members _ _ _ I) as M.
  assert (U : Forall (fun u => um_total_cost_usd (us_row u) == um_cloud_cost_usd (us_row u) + um_ai_cost_usd (us_row u))%Q g.2).
  { apply List.Forall_forall. intros u J. apply M in J as [J _]. apply filter_In in J as [J _].
    apply list_elem_of_In, list_elem_of_omap in J as (row & J & E). unfold joined in E. destruct (attempts s !! _); [|easy]. cbn in E.
    destruct (activities s !! _); [|easy]. injection E as <-. cbn. unfold no_compute in N. rewrite Forall_forall in N. now apply N. }
  cbn [cost_group cr_compute_cost_usd cr_total_cost_usd cr_cloud_cost_usd cr_ai_cost_usd]. clear M I.
  induction U as [|u l E _ [IH1 IH2]]; [easy|]. cbn [fmap list_fmap]. rewrite !qsum_cons. cbn [fmap list_fmap] in IH1, IH2. rewrite IH1, IH2, E.
  split; ring.
Qed.
End CostLaws.

(** ** Who reads what *)
Section Confinement.
Context `{Rounding} `{NumericDivision} `{Collation} `{RowOrder} `{JwtService}.

(** The activity reports are for the authors and admins of the tenant:
    without a valid token the answer is Unauthorized, to a learner Forbidden,
    about an activity of another tenant (or of none) that it was not found, and
    otherwise the report; nothing is written. *)
Theorem reports_confined header activityId s :
  run (taskDropoff header activityId) s =
    (match authenticate header with
     | inl _ => inl UnauthorizedException
     | inr auth =>
         if bool_decide (ac_role auth = R_LEARNER) then inl ForbiddenException
         else match activities s !! activityId with
              | Some a => if Nat.eqb (a_tenant_id a) (ac_tenantId auth) then inr (getTaskDropoff activityId s)
                          else inl (BadRequestException "activity not found")
              | None => inl (BadRequestException "activity not found")
              end
     end, s) /\
  run (validatorHealth header activityId) s =
    (match run (taskDropoff header activityId) s with
     | (inl e, _) => inl e
     | (inr _, _) => inr (getValidatorHealth activityId s)
     end, s) /\
  run (activityHealth header) s =
    (match authenticate header with
     | inl _ => inl UnauthorizedException
     | inr auth => if bool_decide (ac_role auth = R_LEARNER) then inl ForbiddenException else inr (getActivityHealth (ac_tenantId auth) s)
     end, s).
Proof.
  unfold taskDropoff, validatorHealth, activityHealth. rewrite !run_guarded_route. destruct (authenticate header) as [e|[u t r]] eqn:E.
  - apply authenticate_fails in E as ->. easy.
  - destruct r; cbn; [easy | |]; destruct (activities s !! activityId) as [a|]; cbn; try easy; now destruct (Nat.eqb _ _).
Qed.
End Confinement.

(** ** Samples *)
Module Hour.
#[local] Existing Instance binary64.
#[local] Existing Instance insertion_order.
#[local] Existing Instance twenty_decimals.
Definition uuid_text (id : Id) : string := pretty id.
Definition email (id : Id) : string := "learner@example.org".
Definition tenant_name (id : Id) : string := "tenant".
Definition lab (tenant user : Id) : Attempt :=
  mkAttempt tenant user 2 3 GUIDED_LAB IN_PROGRESS None 0 [] None None 0 None None None None 0 0 0 1 None None.
Definition s : Store := empty_store <| activities := {[ 2%nat := mkActivity 1 "pods" GUIDED_LAB ]} |>
  <| attempts := {[ 7%nat := lab 1 4; 8%nat := lab 5 6 ]} |> <| now := 3600000 |>
  <| task_states := {[ (7%nat, "a"%string) := mkTaskState T_PASSED None 1 0 false false; (8%nat, "a"%string) := mkTaskState T_FAILED None 1 0 false false;
                       (7%nat, "b"%string) := mkTaskState T_PASSED None 1 0 false false ]} |>.
Definition hour : Env := minutes 60 "env-7" 7 0 (mkEnv [] [mkCloudAccount "111" IN_USE "eu-west-1" (Some 8%nat) None None]).

(** A meter row is written each minute with the cost since the start, and the
    report adds them up: an hour of an environment that cost four cents is
    reported as a dollar and twenty-two, all of it cloud cost. *)
Lemma minutes_charged_again :
  (fst (costByGrain uuid_text email tenant_name 1 C_tenant 30 None (mkDb s (Some hour) (mkExperiments ∅ ∅) ∅))) =
    inr [mkCostRow "1" "tenant" 1 0 (round4 (122 # 100)) 0 (round4 (122 # 100))] /\
  tick_cost 0 3600000 == lit (4 # 100).
Proof. vm_compute. split; reflexivity. Qed.
Definition one : Env := Eval vm_compute in minutes 1 "env-7" 7 0 (mkEnv [] []).
Definition two : Env := Eval vm_compute in minutes 2 "env-7" 7 0 (mkEnv [] []).
Lemma compute_never_charged_witness :
  Forall (fun r => cr_compute_cost_usd r == 0 /\ cr_total_cost_usd r == cr_cloud_cost_usd r + cr_ai_cost_usd r)%Q
    (cost_query uuid_text email tenant_name 1 C_tenant 30 s two) /\
  List.length (usage_meter two) = 2%nat.
Proof.
  split; [|reflexivity]. apply (compute_never_charged uuid_text email tenant_name two 1 C_tenant 30 s []).
  apply (rtc_l _ _ one); [|apply (rtc_l _ _ two); [|apply rtc_refl]].
  - apply (metered_tick "env-7" 7 0 60000). vm_compute. reflexivity.
  - apply (metered_tick "env-7" 7 0 120000). vm_compute. reflexivity.
Defined.

(** The accounts report is the same for every caller: an admin of tenant 1
    reads which attempt of tenant 5 holds an account. *)
Lemma accounts_of_every_tenant :
  (forall auth auth' days memo d, costAccounts auth days memo d = costAccounts auth' days memo d) /\
  (sp_attempt_id <$> match fst (costAccounts (mkAuthClaims 3 1 R_AUTHOR) None None (mkDb s (Some hour) (mkExperiments ∅ ∅) ∅)) with
                     | inr rows => rows | inl _ => [] end) = [Some 8%nat] /\
  tenant_id <$> attempts s !! 8%nat = Some 5%nat.
Proof. split; [easy|]. vm_compute. split; reflexivity. Qed.

(** The first look for the tables decides for the life of the process: made
    before the orchestrator's migrations, the report stays empty after them. *)
Lemma first_look_decides d days :
  let memo := snd (costByGrain uuid_text email tenant_name 1 C_tenant days None (d <| env := None |>)) in
  forall d', fst (costByGrain uuid_text email tenant_name 1 C_tenant days memo d') = inr [].
Proof. intros memo d'. reflexivity. Qed.

(** Two attempts of an activity: one passed both tasks, the other failed the
    first and never had a row for the second, whose drop-off is 0. *)
Lemma dropoff_own_rows (c : Collation) :
  getTaskDropoff 2 s ≡ₚ [mkTaskDropoffRow "a" 2 1 (1 # 2); mkTaskDropoffRow "b" 1 1 0].
Proof. unfold getTaskDropoff. rewrite merge_sort_Permutation. vm_compute. apply Permutation_refl || apply perm_swap. Qed.
End Hour.
