(* ===== verification/Dashboard.v ===== *)
(** * What a learner's pages read

    dashboard/dashboard.controller.ts, skill/skill.controller.ts, the listings of
    attempt/attempt.repository.ts and skill/mastery.service.ts, and the routes of
    attempt/attempt.controller.ts behind the ownership guard (two of them, that
    combine handlers, are in Consumers.v). *)
From stdpp Require Import sorting.
From S2P Require Import Prelude JsNum Binary64 Effects Schema AttemptStatus EventStore Bkt Mastery Criteria AttemptRepository ValidatorRunner Artifact Evaluation AttemptService AttemptLaws Hint SkillGraph Catalog Eligibility WorkspaceFiles Consumers Recommendation RecommendationLaws.
Open Scope Z_scope.

(** ** The listings *)
Definition newest : relation (Id * Attempt) := fun a b => created_at b.2 <= created_at a.2.
#[export] Instance newest_dec : RelDecision newest.
Proof. intros a b. apply Z.le_dec. Defined.

Record MasteryRow := mkMasteryRow {
  mr_skill_id : Id; mr_slug : string; mr_name : string; mr_domain : string; mr_p_mastery : Q;
  mr_band : option MasteryBand; mr_evidence_count : Z; mr_last_evidence_at : option Z }.
Definition stronger : relation MasteryRow := fun a b => (mr_p_mastery b <= mr_p_mastery a)%Q.
#[export] Instance stronger_dec : RelDecision stronger.
Proof. intros a b. unfold Decision. destruct (Qlt_le_dec (mr_p_mastery a) (mr_p_mastery b)) as [L|L]; [right; now apply Qlt_not_le | now left]. Defined.

Section Listings.
Context `{RowOrder}.

(** A list of statuses, if there is one, must hold the attempt's. *)
Definition has_status (sts : option (list AttemptStatus)) (a : Attempt) : bool :=
  match sts with Some (x :: l) => includes (x :: l) (status a) | _ => true end.
Definition listForUser (userId : Id) (sts : option (list AttemptStatus)) (s : Store) : list (Id * Attempt) :=
  merge_sort newest (Schema.in_order (List.filter (fun r => Nat.eqb (user_id r.2) userId && has_status sts r.2) (map_to_list (attempts s)))).

Definition mastery_row (s : Store) (row : (Id * Id) * SkillMastery) : option (Skill * MasteryRow) :=
  let '((_, skillId), sm) := row in
  sk ← skills s !! skillId;
  Some (sk, mkMasteryRow skillId (sk_slug sk) (sk_name sk) (sk_domain sk) (sm_p_mastery sm) (sm_band sm) (sm_evidence_count sm) (sm_last_evidence_at sm)).
Definition listMasteryForUser (userId : Id) (courseSlug : string) (s : Store) : list MasteryRow :=
  merge_sort stronger (Schema.in_order (snd <$> List.filter (fun r => String.eqb (sk_course_slug r.1) courseSlug)
    (omap (mastery_row s) (List.filter (fun row => Nat.eqb row.1.1 userId) (map_to_list (mastery s)))))).
End Listings.

(** ** DashboardController and SkillController *)
Definition DEFAULT_COURSE : string := "devops-with-ai".
Definition CONTINUE : list AttemptStatus := [CREATED; PROVISIONING; READY; IN_PROGRESS; SUSPENDED; CACHED; PROVISION_FAILED].
Record Dashboard := mkDashboard {
  da_continueAttempt : option (Id * Attempt); da_recommended : list Recommendation;
  da_masterySnapshot : list MasteryRow; da_recent : list (Id * Attempt) }.

Section Home.
Context `{Rounding} `{RowOrder}.
Variable quotaDisabled : bool.

(** [Promise.all]: only the first of the four writes, and only recommendations. *)
Definition get (userId tenantId : Id) (courseSlug : option string) : prog Store Dashboard :=
  let course := default DEFAULT_COURSE courseSlug in
  let* recommended := recommend quotaDisabled userId tenantId 3 in
  let* masterySnapshot := select (listMasteryForUser userId course) in
  let* recentAttempts := select (listForUser userId None) in
  let* inProgress := select (listForUser userId (Some CONTINUE)) in
  Ret (mkDashboard (head inProgress) recommended (take 5 masterySnapshot) (take 5 recentAttempts)).
Definition skills_list (userId : Id) (courseSlug : option string) : prog Store (list MasteryRow) :=
  select (listMasteryForUser userId (default DEFAULT_COURSE courseSlug)).
End Home.

(** ** AttemptController *)
Section AttemptController.
Context `{Rounding} `{MathPow} `{Executor} `{ArtifactGrading} `{FaultPaths} `{Orchestrator} `{RowOrder}.
Variable quotaDisabled : bool.

Definition create_route (auth : CallerClaims) (activity_version_id : Id) (idempotencyKey : option string) : prog Store (Id * Attempt) :=
  createAttempt quotaDisabled (mkCreateAttemptInput (cl_tenantId auth) (cl_userId auth) activity_version_id idempotencyKey).
Definition start_route (caller : option CallerClaims) (id : Id) : prog Store Attempt := guarded caller id (markStarted id).
Definition check_route (caller : option CallerClaims) (id : Id) : prog Store CheckWorkResult := guarded caller id (checkWork id).
Definition submit_route (caller : option CallerClaims) (id : Id) : prog Store Attempt := guarded caller id (submit id).
Definition getById (caller : option CallerClaims) (id : Id) : prog Store (option Attempt) := guarded caller id (findById id).
Definition list_attempts (auth : CallerClaims) : prog Store (list (Id * Attempt)) := select (listForUser (cl_userId auth) None).
Definition getEvaluation (caller : option CallerClaims) (id : Id) : prog Store (option AttemptScore) := guarded caller id (getLatestScore id).
Definition getTasks (caller : option CallerClaims) (id : Id) : prog Store (list ((Id * string) * TaskState)) := guarded caller id (getTaskStates id).
Definition previewHint (caller : option CallerClaims) (id : Id) (key : string) : prog Store (option HintPreview) := guarded caller id (preview id key).
Definition revealHint (caller : option CallerClaims) (id : Id) (key : string) : prog Store HintReveal := guarded caller id (reveal id key).
Definition guided_fallback (caller : option CallerClaims) (id : Id) (key : string) : prog Store GuidedFallback := guarded caller id (guidedFallback id key).
Definition submitArtifact (caller : option CallerClaims) (id : Id) (key content : string) : prog Store unit := guarded caller id (submit_artifact id key content).
End AttemptController.

(** The file routes run over the workspace as well. *)
Section Files.
Context {Pod : Type} `{WorkspacePod Pod}.
Definition over_store {A} (p : prog Store A) : prog (Editor Pod) A := lift ed_store (fun s e => mkEditor s (ed_pod e)) p.
Definition guarded_files {A} (caller : option CallerClaims) (attemptId : Id) (p : prog (Editor Pod) A) : prog (Editor Pod) A :=
  let* attempt := over_store (findById attemptId) in
  if isOwnedByCaller attempt caller then p else Throw ForbiddenException.
Definition listFiles (caller : option CallerClaims) (id : Id) (dir : option string) : prog (Editor Pod) (list WorkspaceFileEntry) :=
  guarded_files caller id (list_files id (default "."%string dir)).
Definition readFile (caller : option CallerClaims) (id : Id) (path : string) : prog (Editor Pod) string := guarded_files caller id (read_file id path).
Definition writeFile (caller : option CallerClaims) (id : Id) (path content : string) : prog (Editor Pod) unit :=
  guarded_files caller id (write_file id path content ;; over_store (touch id)).
End Files.

(** ** Laws *)
Section Laws.
Context `{RowOrder}.

Lemma elem_listForUser u sts s id a : (id, a) ∈ listForUser u sts s <-> attempts s !! id = Some a /\ user_id a = u /\ has_status sts a = true.
Proof.
  unfold listForUser. rewrite merge_sort_Permutation, in_order_perm, list_elem_of_In, filter_In, <- list_elem_of_In, elem_of_map_to_list.
  cbn. now rewrite andb_true_iff, Nat.eqb_eq.
Qed.
Lemma listForUser_sorted u sts s : StronglySorted newest (listForUser u sts s).
Proof.
  apply Sorted_StronglySorted; [intros a b c; unfold newest; lia|]. apply Sorted_merge_sort. intros a b. unfold newest. lia.
Qed.
Lemma sorted_head {A} (R : relation A) l x y : StronglySorted R l -> Reflexive R -> head l = Some x -> y ∈ l -> R x y.
Proof.
  intros S Rf E I. destruct S as [|z l S F]; [easy|]. injection E as ->. apply elem_of_cons in I as [->|I]; [apply Rf|].
  rewrite Forall_forall in F. now apply F.
Qed.
Lemma sorted_take {A} (R : relation A) n l : StronglySorted R l -> StronglySorted R (take n l).
Proof.
  revert n. induction l as [|x l IH]; intros [|n] S; cbn; try constructor; apply StronglySorted_inv in S as [S F]; [auto|].
  now apply Forall_take.
Qed.
Lemma elem_listMastery u c s r : r ∈ listMasteryForUser u c s <->
  exists sm sk, mastery s !! (u, mr_skill_id r) = Some sm /\ skills s !! mr_skill_id r = Some sk /\ sk_course_slug sk = c /\
    mastery_row s ((u, mr_skill_id r), sm) = Some (sk, r).
Proof.
  unfold listMasteryForUser. rewrite merge_sort_Permutation, in_order_perm, list_elem_of_fmap. split.
  - intros ([sk r'] & -> & I). apply list_elem_of_In, filter_In in I as [I E%String.eqb_eq]. apply list_elem_of_In, list_elem_of_omap in I as ([[u' k] sm] & I & M).
    apply list_elem_of_In, filter_In in I as [I U%Nat.eqb_eq]. apply list_elem_of_In, elem_of_map_to_list in I. cbn in U, E. subst u'.
    cbn [snd]. pose proof M as M'. cbn in M. destruct (skills s !! k) as [sk'|] eqn:K; [|easy]. injection M as -> <-. cbn [mr_skill_id]. eauto 10.
  - intros (sm & sk & M & K & C & R). exists (sk, r). split; [easy|]. apply list_elem_of_In, filter_In. split; [|now apply String.eqb_eq].
    apply list_elem_of_In, list_elem_of_omap. eexists (_, sm). split; [|exact R]. apply list_elem_of_In, filter_In. split; [|cbn; apply Nat.eqb_refl].
    now apply list_elem_of_In, elem_of_map_to_list.
Qed.
End Laws.

(** What the page shows of the attempts and the mastery of a learner. *)
Record shows `{RowOrder} (u : Id) (course : string) (s : Store) (d : Dashboard) : Prop := mkShows {
  sh_continue : match da_continueAttempt d with
    | Some (id, a) => attempts s !! id = Some a /\ user_id a = u /\ status a ∈ CONTINUE /\
        forall j b, attempts s !! j = Some b -> user_id b = u -> status b ∈ CONTINUE -> created_at b <= created_at a
    | None => forall j b, attempts s !! j = Some b -> user_id b = u -> status b ∉ CONTINUE
    end;
  sh_recent : (List.length (da_recent d) <= 5)%nat /\ StronglySorted newest (da_recent d) /\
    forall id a, (id, a) ∈ da_recent d -> attempts s !! id = Some a /\ user_id a = u;
  sh_mastery : (List.length (da_masterySnapshot d) <= 5)%nat /\ StronglySorted stronger (da_masterySnapshot d) /\
    forall r, r ∈ da_masterySnapshot d -> exists sm sk, mastery s !! (u, mr_skill_id r) = Some sm /\ skills s !! mr_skill_id r = Some sk /\
      sk_course_slug sk = course /\ mr_p_mastery r = sm_p_mastery sm }.

Section Home.
Context `{Rounding} `{RowOrder}.

Lemma stronger_sorted u c s : StronglySorted stronger (listMasteryForUser u c s).
Proof.
  apply Sorted_StronglySorted; [intros a b d; unfold stronger; intros; eapply Qle_trans; eassumption|]. apply Sorted_merge_sort.
  intros a b. unfold stronger. destruct (Qlt_le_dec (mr_p_mastery a) (mr_p_mastery b)) as [L|L]; [right; now apply Qlt_le_weak | now left].
Qed.
Lemma page_shows u course s recommended :
  shows u course s (mkDashboard (head (listForUser u (Some CONTINUE) s)) recommended (take 5 (listMasteryForUser u course s)) (take 5 (listForUser u None s))).
Proof.
  assert (E : forall id a, (id, a) ∈ listForUser u (Some CONTINUE) s <-> attempts s !! id = Some a /\ user_id a = u /\ status a ∈ CONTINUE).
  { intros id a. rewrite elem_listForUser. unfold has_status, CONTINUE. now rewrite includes_spec. }
  split; cbn [da_continueAttempt da_recent da_masterySnapshot].
  - destruct (head _) as [[id a]|] eqn:Hd.
    + assert (I : (id, a) ∈ listForUser u (Some CONTINUE) s) by (destruct (listForUser u _ s); [easy|]; injection Hd as ->; now left).
      apply E in I as (L & U & S). split_and!; auto. intros j b Lj Uj Sj.
      apply (sorted_head newest (listForUser u (Some CONTINUE) s) (id, a) (j, b)); [apply listForUser_sorted | intros x; unfold newest; lia | exact Hd | now apply E].
    + intros j b Lj Uj Sj. assert (I : (j, b) ∈ listForUser u (Some CONTINUE) s) by now apply E. destruct (listForUser u _ s); [now apply elem_of_nil in I | easy].
  - split_and!; [rewrite length_take; lia | apply sorted_take, listForUser_sorted |]. intros id a I.
    assert (J : (id, a) ∈ listForUser u None s) by (rewrite <- (take_drop 5); apply elem_of_app; now left). apply elem_listForUser in J as (? & ? & _). easy.
  - split_and!; [rewrite length_take; lia | apply sorted_take, stronger_sorted |]. intros r I.
    assert (J : r ∈ listMasteryForUser u course s) by (rewrite <- (take_drop 5); apply elem_of_app; now left).
    apply elem_listMastery in J as (sm & sk & M & K & C & R). exists sm, sk. split_and!; auto. cbn in R. rewrite K in R. cbn in R.
    now injection R as <-.
Qed.

(** Recommending writes nothing but recommendations. *)
Lemma recommend_writes q u t s top s' : run (recommend q u t 3) s = (inr top, s') -> exists l, s' = s <| recommendations := l |>.
Proof.
  rewrite run_recommend. intros R. destruct (slice_to 3 _) as [|x l]; [injection R as _ <-; exists (recommendations s); now destruct s|].
  cbv zeta in R. destruct (map_or_throw (recommendation_row u (now s)) (x :: l)) as [|rows]; [easy|]. injection R as _ <-. now eexists.
Qed.
Lemma run_get q u t course s top s' : run (recommend q u t 3) s = (inr top, s') ->
  exists d, run (get q u t course) s = (inr d, s') /\ da_recommended d = top /\ shows u (default DEFAULT_COURSE course) s d /\ attempts s' = attempts s.
Proof.
  intros R. destruct (recommend_writes q u t s top s' R) as [l ->]. eexists. unfold get. rewrite run_bind, R.
  split; [rewrite !run_bind; reflexivity|]. split; [easy|]. split; [exact (page_shows u _ s top) | easy].
Qed.

(** The home page answers whenever the recommendations do, writes only
    what they write, and offers to continue the newest of the learner's
    attempts that can still be entered (none when there is none), the five
    newest attempts and the five best mastered skills of the course, all of
    them the learner's own.  While one of the attempts holds an environment and
    the quota is in force, nothing else is recommended. *)
Theorem home_page q u t course s :
  match run (recommend q u t 3) s with
  | (inr top, s') => exists d, run (get q u t course) s = (inr d, s') /\ da_recommended d = top /\ shows u (default DEFAULT_COURSE course) s d /\
      (q = false -> (exists id a, attempts s !! id = Some a /\ user_id a = u /\ status a ∈ QUOTA_STATUSES) -> da_recommended d = [] /\ s' = s)
  | (inl e, s') => run (get q u t course) s = (inl e, s')
  end.
Proof.
  destruct (run (recommend q u t 3) s) as [[e|top] s'] eqn:R; [unfold get; now rewrite run_bind, R|].
  destruct (run_get q u t course s top s' R) as (d & G & T & S & _). exists d. split_and!; [easy.. |]. intros -> (id & a & L & U & Q).
  rewrite (active_lab_hides_all u t 3 s id a L U Q) in R. injection R as E1 E2. split; [now rewrite T | now symmetry].
Qed.
End Home.

Section Guarded.
Context `{Rounding} `{MathPow} `{Executor} `{ArtifactGrading} `{FaultPaths} `{Orchestrator}.
Context {Pod : Type} `{WorkspacePod Pod}.

(** An attempt is its owner's: whoever asks for an attempt that does not
    exist, or is not of both their user and their tenant, is refused by every
    route under its id, and neither the store nor the workspace changes. *)
Theorem attempt_private caller id s pod key text path content dir :
  ~ owns caller s id ->
  run (start_route caller id) s = (inl ForbiddenException, s) /\ run (check_route caller id) s = (inl ForbiddenException, s) /\
  run (submit_route caller id) s = (inl ForbiddenException, s) /\ run (provision_route caller id) s = (inl ForbiddenException, s) /\
  run (connect_route caller id) s = (inl ForbiddenException, s) /\ run (getById caller id) s = (inl ForbiddenException, s) /\
  run (getEvaluation caller id) s = (inl ForbiddenException, s) /\ run (getTasks caller id) s = (inl ForbiddenException, s) /\
  run (previewHint caller id key) s = (inl ForbiddenException, s) /\ run (revealHint caller id key) s = (inl ForbiddenException, s) /\
  run (guided_fallback caller id key) s = (inl ForbiddenException, s) /\ run (submitArtifact caller id key text) s = (inl ForbiddenException, s) /\
  run (listFiles caller id dir) (mkEditor s pod) = (inl ForbiddenException, mkEditor s pod) /\
  run (readFile caller id path) (mkEditor s pod) = (inl ForbiddenException, mkEditor s pod) /\
  run (writeFile caller id path content) (mkEditor s pod) = (inl ForbiddenException, mkEditor s pod).
Proof.
  intros N. assert (O : isOwnedByCaller (attempts s !! id) caller = false).
  { destruct (isOwnedByCaller _ _) eqn:E; [|easy]. now apply owned_spec in E. }
  unfold start_route, check_route, submit_route, provision_route, connect_route, getById, getEvaluation, getTasks, previewHint, revealHint,
    guided_fallback, submitArtifact. rewrite !run_guarded, O.
  assert (F : forall A (p : prog (Editor Pod) A), run (guarded_files caller id p) (mkEditor s pod) = (inl ForbiddenException, mkEditor s pod)).
  { intros A p. unfold guarded_files. rewrite run_bind. cbn. rewrite O. reflexivity. }
  unfold listFiles, readFile, writeFile. rewrite !F. easy.
Qed.
End Guarded.

(** ** A stranger *)
Lemma attempt_private_witness :
  fst (run (getTasks (Some (mkCallerClaims 8 1)) 9) (Lab.store READY 3)) = inl ForbiddenException /\
  fst (run (writeFile (Some (mkCallerClaims 8 1)) 9 "main.tf" "x") (mkEditor (Lab.store READY 3) (None : option string))) = inl ForbiddenException.
Proof.
  pose proof (@attempt_private binary64 step_pow Lab.passing (@artifact_service Lab.grader) Lab.no_faults AttemptLaws.ready_orchestrator _ one_file_pod
    (Some (mkCallerClaims 8 1)) 9 (Lab.store READY 3) None "k" "t" "main.tf" "x" None) as P.
  destruct P as (_ & _ & _ & _ & _ & _ & _ & T & _ & _ & _ & _ & _ & _ & W).
  { intros O. apply owned_spec in O. discriminate O. }
  split; [now rewrite T | now rewrite W].
Defined.
