(* ===== verification/WebPages.v ===== *)
(** * The learner's pages

    src/web/src/app: the attempt page, the home page, the activity page and the
    catalog, as what they show and offer for given answers of the server, and
    lib/attempt-status.ts, mastery.ts, courses.ts, routes.ts, idempotency.ts.
    Markup, classes and icons are not modelled. *)
From Stdlib Require Import Ascii.
From stdpp Require Import pretty sorting.
From S2P Require Import Prelude RegExp JsNum Binary64 Effects Schema AttemptStatus EventStore JsText Bkt Elo Mastery SkillGraph Criteria AttemptRepository ValidatorRunner Artifact Evaluation AttemptService AttemptLaws Catalog CatalogLaws Eligibility Recommendation Consumers WebSim Dashboard.
Local Open Scope string_scope.

(** ** lib *)
Inductive Variant := accent | success | warning | danger | muted | outline.
(** A status the table does not have is [None]: its [.variant] throws. *)
Definition ATTEMPT_STATUS_META (st : AttemptStatus) : option (string * Variant) :=
  match st with
  | CREATED => Some ("Created", muted) | PROVISIONING => Some ("Provisioning", accent) | READY => Some ("Ready", accent)
  | IN_PROGRESS => Some ("In progress", accent) | SUBMITTED => Some ("Submitted", accent) | EVALUATING => Some ("Evaluating", accent)
  | PASSED => Some ("Passed", success) | COMPLETED => Some ("Completed", success) | FAILED => Some ("Failed", danger)
  | EVAL_FAILED => Some ("Evaluation failed", danger) | PROVISION_FAILED => Some ("Provisioning failed", danger)
  | EXPIRED => Some ("Expired", warning) | ABANDONED => Some ("Abandoned", warning) | SUSPENDED => Some ("Suspended", warning)
  | CACHED => None
  end.
Definition MASTERY_BAND_META (band : string) : option Variant :=
  match band with
  | "Novice" => Some muted | "Developing" => Some warning | "Competent" => Some accent
  | "Proficient" => Some success | "Mastered" => Some success | _ => None
  end.
Definition masteryBandVariant (band : string) : Variant := default muted (MASTERY_BAND_META band).
Definition COURSES : list (string * string) := [("devops-with-ai", "DevOps With AI"); ("genai-with-ml", "Generative AI With ML")].
Definition courseLabel (slug : string) : string := default slug (snd <$> List.find (fun c => String.eqb c.1 slug) COURSES).
Definition attemptRoute (attemptId : string) : string := "/attempts/" ++ attemptId.
Definition catalogEntryRoute (activityVersionId : string) : string := "/catalog/" ++ activityVersionId.
Definition makeIdempotencyKey (scope : string) (clock : Z) : string := "web-" ++ scope ++ "-" ++ pretty clock.
Definition mode_name (m : ActivityMode) : string :=
  match m with GUIDED_LAB => "GUIDED_LAB" | PRODUCTION_SIM => "PRODUCTION_SIM" | PROJECT => "PROJECT" end.

(** ** attempts/[id]/page.tsx *)
Definition EVALUATED_STATUSES : list AttemptStatus := [PASSED; FAILED; COMPLETED; EVAL_FAILED].
(** [refetchInterval]. *)
Definition refetch_ms (attempt : option Attempt) : option Z :=
  match attempt with
  | Some a => if AttemptStatus.includes [PROVISIONING; EVALUATING] (status a) then Some 1500%Z else None
  | None => None
  end.
Definition isEvaluated (a : Attempt) : bool := AttemptStatus.includes EVALUATED_STATUSES (status a).
Definition fake_environment (a : Attempt) : bool :=
  match environment_id a with Some e => String.prefix "fake-env-" e | None => false end.
Definition isWorkspaceActive (a : Attempt) : bool :=
  bool_decide (status a = IN_PROGRESS) && bool_decide (is_Some (truthy (environment_id a))) && negb (fake_environment a).

(** What the page has fetched, and its own state. *)
Record PageActivity := mkPageActivity { pa_tasks : option (list TaskSpec); pa_surfaces : option (list string) }.
Record PageState := mkPageState {
  ps_isLoading : bool; ps_attempt : option Attempt; ps_activity : option PageActivity; ps_evaluation : option AttemptScore;
  ps_checkResult : option CheckWorkResult; ps_checkError : option string;
  ps_starting : bool; ps_checking : bool; ps_submitting : bool; ps_retrying : bool; ps_session : bool }.

Inductive Action := Start | CheckWork | Submit | TryAgain | BackToActivity | ViewHistory.
#[export] Instance action_eq_dec : EqDecision Action.
Proof. solve_decision. Defined.
Inductive Rail := SimRail | TaskRail (tasks : list TaskSpec).
Inductive Bar := CheckFailed (error : string) | Checked (all_passed : bool) (tasks : list (string * bool)).
Inductive Result := Debrief | ResultPanel.
Record AttemptView := mkAttemptView {
  vw_title : string; vw_badge : string * Variant; vw_buttons : list (Action * bool); vw_bar : option Bar;
  vw_workspace : option (Rail * bool); vw_notices : list string; vw_result : option Result }.
Inductive Page := LoadingPage | NotFoundPage | CrashedPage | AttemptPage_ (v : AttemptView).

(** AttemptHeader: its buttons and whether each is enabled. *)
Definition header_buttons (p : PageState) (a : Attempt) : list (Action * bool) :=
  (if bool_decide (status a = READY) then [(Start, negb (ps_starting p))] else []) ++
  (if bool_decide (status a = IN_PROGRESS)
   then [(CheckWork, negb (ps_checking p || ps_submitting p)); (Submit, negb (ps_submitting p || ps_checking p))] else []).
Definition CheckResultBar (result : option CheckWorkResult) (error : option string) : option Bar :=
  match truthy error, result with
  | Some e, _ => Some (CheckFailed e)
  | None, Some r => Some (Checked (cw_all_required_passed r) ((fun t => (tr_taskKey t, tr_passed t)) <$> cw_tasks r))
  | None, None => None
  end.
Definition ResultActions (p : PageState) : list (Action * bool) :=
  [(TryAgain, negb (ps_retrying p || negb (ps_session p))); (BackToActivity, true); (ViewHistory, true)].

Definition AttemptPage (p : PageState) : Page :=
  if ps_isLoading p then LoadingPage
  else match ps_attempt p with
  | None => NotFoundPage
  | Some a =>
      match ATTEMPT_STATUS_META (status a) with
      | None => CrashedPage
      | Some badge =>
          let isSim := isProductionSim (Some (mode_name (mode a))) in
          let active := isWorkspaceActive a in
          let needsEditor := match ps_activity p with
                             | Some act => AttemptStatus.includes (default ["terminal"; "editor"] (pa_surfaces act)) "editor"
                             | None => true
                             end in
          AttemptPage_ (mkAttemptView (formatMode (mode_name (mode a))) badge
            (header_buttons p a ++ (if negb active && isEvaluated a then ResultActions p else []))
            (if active then CheckResultBar (ps_checkResult p) (ps_checkError p) else None)
            (if active then Some (if isSim && bool_decide (is_Some (ps_activity p)) then SimRail
                                  else TaskRail (default [] (ps_activity p ≫= pa_tasks)), needsEditor) else None)
            (if active then []
             else (if bool_decide (status a = PROVISIONING) then ["Setting up your environment"] else []) ++
                  (if bool_decide (status a = EVALUATING) then ["Scoring your submission"] else []) ++
                  (if bool_decide (status a = IN_PROGRESS) then ["This attempt has no live workspace"] else []) ++
                  (if fake_environment a then ["This environment was provisioned by FakeOrchestratorClient"] else []))
            (if negb active && isEvaluated a && bool_decide (is_Some (ps_evaluation p))
             then Some (if isSim && bool_decide (is_Some (ps_activity p)) then Debrief else ResultPanel) else None))
      end
  end.

(** The question before a submission, if any. *)
Definition unpassed (r : CheckWorkResult) : list string :=
  tr_taskKey <$> List.filter (fun t => tr_required t && negb (tr_passed t)) (cw_tasks r).
Definition submit_warning (checkResult : option CheckWorkResult) : option string :=
  match checkResult with
  | None => Some ("You haven't run " ++ dquoted "Check my work" ++ " yet. Submit and score this attempt now?")
  | Some r =>
      match unpassed r with
      | [] => None
      | keys => Some ("These required tasks aren't passing yet: " ++ String.concat ", " keys ++ ". Submit anyway?")
      end
  end.
(** Whether the submission is sent, given the answer to the question. *)
Definition handleSubmit (checkResult : option CheckWorkResult) (confirm : string -> bool) : bool :=
  match submit_warning checkResult with Some w => confirm w | None => true end.

(** ** Starting a lab: catalog/[activityVersionId]/page.tsx, and trying again *)
Section StartFlow.
Context `{Rounding} `{Orchestrator}.
Variables (quotaDisabled : bool) (uuid_text : Id -> string).
(** [scope] is "start" on the activity page, "retry" under a result; [clock] is
    the browser's. *)
Definition start_lab (scope : string) (session : CallerClaims) (activityVersionId : Id) (clock : Z) : prog Store Id :=
  let idempotencyKey := makeIdempotencyKey (scope ++ "-" ++ uuid_text activityVersionId) clock in
  let* created := create_route quotaDisabled session activityVersionId (Some idempotencyKey) in
  provision_route (Some session) created.1 ;;
  Ret created.1.
End StartFlow.

(** ** page.tsx: home *)
Section Home.
Context `{Rounding}.
Definition param (key : string) (r : Recommendation) : option Json := jfield key (rc_reasonParams r).
(** [Number(text)], [None] for NaN. *)
Variable string_number : string -> option Q.
Definition json_number (j : Json) : option Q :=
  match j with
  | JNull => Some 0%Q
  | JBool b => Some (if b then 1 else 0)%Q
  | JNum q => Some q
  | _ => string_number (js_string j)
  end.
Definition reason_label (r : Recommendation) : string :=
  match rc_reasonCode r with
  | CURRICULUM_ADJACENT =>
      "Related to " ++ match param "topic" r with Some JNull | None => "your current topic" | Some j => js_string j end
  | REMEDIATION =>
      "Recommended because your mastery of this skill is " ++
      match param "mastery" r with
      | Some j => match json_number j with Some q => formatPercent q | None => "NaN%" end
      | None => "low"
      end
  | code => reason_text code
  end.
Variable uuid_text : Id -> string.
Record HomeView := mkHomeView {
  hv_continue : option (string * string); hv_recommended : list (string * string * string);
  hv_mastery : list (string * Q * option MasteryBand) }.
Definition Home (d : Dashboard) : HomeView :=
  mkHomeView ((fun ia => (attemptRoute (uuid_text ia.1), formatMode (mode_name (mode ia.2)) ++ " — " ++ status_text (status ia.2))) <$> da_continueAttempt d)
    ((fun r => (catalogEntryRoute (uuid_text (rc_activityVersionId r)), rc_slug r, reason_label r)) <$> da_recommended d)
    ((fun m => (mr_name m, lit (mr_p_mastery m), mr_band m)) <$> da_masterySnapshot d).
End Home.

(** ** catalog/page.tsx *)
(** [byDomain]: a Map, in the order its keys were first set. *)
Fixpoint add_entry (d : string) (e : SkillCatalogRow) (m : list (string * list SkillCatalogRow)) : list (string * list SkillCatalogRow) :=
  match m with
  | [] => [(d, [e])]
  | (d', l) :: m => if String.eqb d' d then (d', l ++ [e])%list :: m else (d', l) :: add_entry d e m
  end.
Definition domains_of (data : list SkillCatalogRow) : list (string * list SkillCatalogRow) :=
  fold_left (fun m e => add_entry (sk_domain (sr_skill e)) e m) data [].
Definition has_activity (e : SkillCatalogRow) : bool := bool_decide (is_Some (sr_activity e)).
Definition available (e : SkillCatalogRow) : bool := has_activity e && bool_decide (is_Some (sr_version e)).
Definition availableCount (data : list SkillCatalogRow) : nat := List.length (List.filter has_activity data).
Definition domain_line (group : string * list SkillCatalogRow) : string :=
  let n := List.length (List.filter has_activity group.2) in
  (if (0 <? n)%nat then pretty n ++ " lab" ++ (if (1 <? n)%nat then "s" else "") ++ " live · " else "") ++
  pretty (List.length group.2) ++ " skills".
(** A card: where it leads, or nothing when it is locked. *)
Definition SkillCard (uuid_text : Id -> string) (e : SkillCatalogRow) : option string :=
  if available e then (fun v => catalogEntryRoute (uuid_text v.1)) <$> sr_version e else None.

(** ** Laws *)
Definition actions (pg : Page) : list Action := match pg with AttemptPage_ v => fst <$> vw_buttons v | _ => [] end.
Definition crashes (pg : Page) : Prop := pg = CrashedPage.

Lemma fake_not_active a : fake_environment a = true -> isWorkspaceActive a = false.
Proof. intros F. unfold isWorkspaceActive. rewrite F. apply andb_false_r. Qed.

(** What the page of an attempt offers is decided by its status alone. *)
Definition offered (st : AttemptStatus) : list Action :=
  match st with
  | READY => [Start]
  | IN_PROGRESS => [CheckWork; Submit]
  | PASSED | FAILED | COMPLETED | EVAL_FAILED => [TryAgain; BackToActivity; ViewHistory]
  | _ => []
  end.
Lemma page_offers p a : ps_isLoading p = false -> ps_attempt p = Some a -> actions (AttemptPage p) = offered (status a).
Proof.
  intros L A. unfold AttemptPage, isEvaluated, isWorkspaceActive, header_buttons. rewrite L, A.
  destruct (status a); cbn; rewrite ?andb_false_r; try reflexivity.
Qed.
Lemma page_crashes p a : ps_isLoading p = false -> ps_attempt p = Some a -> crashes (AttemptPage p) <-> status a = CACHED.
Proof. intros L A. unfold AttemptPage, crashes. rewrite L, A. now destruct (status a). Qed.

Section Continue.
Context `{Rounding} `{MathPow} `{Executor} `{ArtifactGrading} `{FaultPaths} `{Orchestrator} `{RowOrder}.

(** What is left of an attempt the home page offers to continue. *)
Inductive continued (p : PageState) (c : CallerClaims) (id : Id) (s : Store) (a : Attempt) : Prop :=
| can_start r s' : status a = READY -> actions (AttemptPage p) = [Start] ->
    run (start_route (Some c) id) s = (inr r, s') -> status r = IN_PROGRESS -> continued p c id s a
| can_work : status a = IN_PROGRESS -> actions (AttemptPage p) = [CheckWork; Submit] -> continued p c id s a
| waits : status a = PROVISIONING -> actions (AttemptPage p) = [] -> refetch_ms (Some a) = Some 1500 -> continued p c id s a
| page_throws : status a = CACHED -> crashes (AttemptPage p) -> continued p c id s a
| stuck : status a ∈ [CREATED; SUSPENDED; PROVISION_FAILED] -> actions (AttemptPage p) = [] -> ~ crashes (AttemptPage p) ->
    refetch_ms (Some a) = None -> continued p c id s a.

Lemma continue_cases c id s a p : attempts s !! id = Some a -> owns (Some c) s id -> status a ∈ CONTINUE ->
  ps_isLoading p = false -> ps_attempt p = Some a -> continued p c id s a.
Proof.
  intros A O St L P. pose proof (page_offers p a L P) as Of. pose proof (page_crashes p a L P) as Cr.
  assert (NC : status a <> CACHED -> ~ crashes (AttemptPage p)) by now rewrite Cr.
  unfold CONTINUE in St. rewrite !elem_of_cons, elem_of_nil in St.
  destruct St as [S|[S|[S|[S|[S|[S|[S|[]]]]]]]]; rewrite S in Of, NC;
    try (apply stuck; [rewrite S; set_solver | exact Of | now apply NC | unfold refetch_ms; now rewrite S]).
  - apply waits; [easy.. | unfold refetch_ms; now rewrite S].
  - pose proof (run_start id s a A) as R. rewrite bool_decide_true in R by easy. destruct R as (r & s' & R & _ & SR & _).
    apply (can_start p c id s a r s'); try easy. unfold start_route. rewrite run_guarded. apply owned_spec in O. now rewrite O.
  - now apply can_work.
  - now apply page_throws; [| apply Cr].
Qed.

(** C39: an attempt the home page offers to continue can be started (READY, and
    the server moves it to IN_PROGRESS) or worked on (IN_PROGRESS) from its page.
    Of the other statuses it links to, PROVISIONING is waited for, and CREATED,
    SUSPENDED and PROVISION_FAILED have no button and no refresh on the page;
    for CACHED the page throws. *)
Theorem continue_from_home q u t course s d s' id a p :
  run (get q u t course) s = (inr d, s') -> da_continueAttempt d = Some (id, a) -> tenant_id a = t ->
  ps_isLoading p = false -> ps_attempt p = Some a -> continued p (mkCallerClaims u t) id s' a.
Proof.
  intros G C T L P. unfold get in G. rewrite run_bind in G. destruct (run (recommend q u t 3) s) as [[e|top] s1] eqn:R; [discriminate G|].
  destruct (run_get q u t course s top s1 R) as (d' & G' & _ & S & A). unfold get in G'. rewrite run_bind, R in G'. rewrite G' in G. injection G as -> ->.
  pose proof (sh_continue _ _ _ _ S) as K. rewrite C in K. destruct K as (K & U & St & _). apply continue_cases; try easy; [now rewrite A|].
  exists a, (mkCallerClaims u t). now rewrite A.
Qed.
End Continue.

(** ** Submitting *)
Lemma unpassed_nil r : unpassed r = [] <-> forallb tr_passed (List.filter tr_required (cw_tasks r)) = true.
Proof.
  unfold unpassed. induction (cw_tasks r) as [|t l IH]; cbn; [easy|].
  destruct (tr_required t); cbn; [|exact IH]. destruct (tr_passed t); cbn; [exact IH | easy].
Qed.
Lemma warned r : submit_warning (Some r) = None <-> forallb tr_passed (List.filter tr_required (cw_tasks r)) = true.
Proof. rewrite <- unpassed_nil. unfold submit_warning. now destruct (unpassed r). Qed.
Lemma sent r confirm : handleSubmit (Some r) confirm = forallb tr_passed (List.filter tr_required (cw_tasks r)) || confirm (default "" (submit_warning (Some r))).
Proof.
  unfold handleSubmit. pose proof (warned r) as W. destruct (forallb _ _); [now rewrite (proj2 W)|].
  destruct (submit_warning (Some r)); [easy|]. now discriminate (proj1 W).
Qed.
Lemma check_answer `{Executor} id s r s' : run (checkWork id) s = (inr r, s') ->
  cw_all_required_passed r = forallb tr_passed (List.filter tr_required (cw_tasks r)).
Proof.
  unfold checkWork. intros E.
  repeat (rewrite run_bind in E; match type of E with (let (_, _) := ?x in _) = _ => destruct x as [[?|?] ?]; try discriminate E
                                 | match ?x with _ => _ end = _ => destruct x as [[?|?] ?]; try discriminate E end;
    repeat match type of E with run (if ?b then _ else _) _ = _ => destruct b; try discriminate E
           | run (match ?x with _ => _ end) _ = _ => destruct x; try discriminate E end).
  all: injection E as <- _; reflexivity.
Qed.

(** A submission is sent without a question exactly when a check of the work
    has answered and every required task in it passed, whatever the optional ones
    did; the question names the required tasks that did not.  For an answer of
    the server this is when the bar under the header says the attempt is ready
    to submit. *)
Theorem submit_confirmed `{Executor} cr id s :
  (handleSubmit cr (fun _ => false) = true <-> exists r, cr = Some r /\ forall t, t ∈ cw_tasks r -> tr_required t = true -> tr_passed t = true) /\
  match run (checkWork id) s with
  | (inr r, _) => CheckResultBar (Some r) None = Some (Checked (handleSubmit (Some r) (fun _ => false)) ((fun t => (tr_taskKey t, tr_passed t)) <$> cw_tasks r)) /\
      forall k, k ∈ unpassed r <-> exists t, t ∈ cw_tasks r /\ tr_taskKey t = k /\ tr_required t = true /\ tr_passed t = false
  | (inl _, _) => True
  end.
Proof.
  split.
  - destruct cr as [r|]; [|split; [easy | now intros (r & [=] & _)]]. rewrite sent, orb_false_r, forallb_forall. split.
    + intros F. exists r. split; [easy|]. intros t I R. apply F, filter_In. split; [now apply list_elem_of_In | easy].
    + intros (r' & [= <-] & F) t I. apply filter_In in I as [I R]. apply F; [now apply list_elem_of_In | easy].
  - destruct (run (checkWork id) s) as [[e|r] s'] eqn:E; [easy|]. split.
    + unfold CheckResultBar. cbn [truthy]. now rewrite (check_answer id s r s' E), sent, orb_false_r.
    + intros k. unfold unpassed. rewrite list_elem_of_fmap. setoid_rewrite list_elem_of_In. setoid_rewrite filter_In.
      setoid_rewrite andb_true_iff. setoid_rewrite negb_true_iff. naive_solver.
Qed.

(** ** The catalog *)
Section CatalogPage.
Local Open Scope list_scope.
Definition in_domain (d : string) (e : SkillCatalogRow) : bool := String.eqb (sk_domain (sr_skill e)) d.
(** The groups of a list, the ones seen so far. *)
Definition groups_of (m : list (string * list SkillCatalogRow)) (seen : list SkillCatalogRow) : Prop :=
  NoDup (fst <$> m) /\ (forall d l, (d, l) ∈ m -> l = List.filter (in_domain d) seen /\ l <> []) /\
  (forall e, e ∈ seen -> sk_domain (sr_skill e) ∈ fst <$> m).
Lemma add_entry_keys d e m : fst <$> add_entry d e m = if decide (d ∈ fst <$> m) then fst <$> m else (fst <$> m) ++ [d].
Proof.
  induction m as [|[d' l] m IH]; [easy|]. cbn [add_entry]. destruct (String.eqb_spec d' d) as [->|N]; rewrite !fmap_cons; cbn [fst].
  - rewrite decide_True; [easy | now left].
  - rewrite IH. destruct (decide (d ∈ fst <$> m)) as [I|I].
    + rewrite decide_True; [easy | now right].
    + rewrite decide_False; [easy|]. rewrite elem_of_cons. intros [J|J]; [now subst | now apply I].
Qed.
Lemma elem_add_entry d e m d' l : (d', l) ∈ add_entry d e m -> NoDup (fst <$> m) ->
  (d' <> d /\ (d', l) ∈ m) \/ (d' = d /\ (exists l', (d, l') ∈ m /\ l = (l' ++ [e])%list)) \/ (d' = d /\ d ∉ fst <$> m /\ l = [e]).
Proof.
  induction m as [|[k lk] m IH]; cbn; intros I N.
  - apply list_elem_of_singleton in I as [= -> ->]. right. right. split_and!; [easy | apply not_elem_of_nil | easy].
  - apply NoDup_cons in N as [N Nm]. destruct (String.eqb_spec k d) as [->|K].
    + apply elem_of_cons in I as [[= -> ->]|I]; [right; left; split; [easy|]; exists lk; split; [now left | easy]|].
      left. split; [|now right]. intros ->. apply N, list_elem_of_fmap. now exists (d, l).
    + apply elem_of_cons in I as [[= -> ->]|I]; [left; split; [congruence | now left]|].
      destruct (IH I Nm) as [[A B]|[(-> & l' & A & B)|(-> & A & B)]]; [left; split; [easy | now right] | right; left; split; [easy|]; exists l'; split; [now right | easy] |].
      right. right. split_and!; try easy. rewrite elem_of_cons. now intros [->|J].
Qed.
Lemma groups_step m seen e : groups_of m seen -> groups_of (add_entry (sk_domain (sr_skill e)) e m) (seen ++ [e])%list.
Proof.
  intros (N & G & C). set (d := sk_domain (sr_skill e)). assert (K := add_entry_keys d e m).
  assert (M : forall x, x ∈ fst <$> m \/ x = d -> x ∈ fst <$> add_entry d e m).
  { intros x. rewrite K. destruct (decide _); [naive_solver|]. rewrite elem_of_app, list_elem_of_singleton. easy. }
  split_and!.
  - rewrite K. destruct (decide _) as [|D]; [easy|]. apply NoDup_app. split_and!; [easy | | apply NoDup_singleton].
    intros x I J%list_elem_of_singleton. now subst.
  - intros d' l I. rewrite List.filter_app. cbn [List.filter]. change (in_domain d' e) with (String.eqb d d'). apply elem_add_entry in I as [[A B]|[(-> & l' & A & B)|(-> & A & B)]]; [| | |easy].
    + rewrite (proj2 (String.eqb_neq d d')) by congruence. rewrite app_nil_r. now apply G.
    + rewrite String.eqb_refl. destruct (G _ _ A) as [<- _]. split; [easy|]. subst l. now destruct l'.
    + rewrite String.eqb_refl. split; [|now subst l]. subst l. replace (List.filter _ seen) with (@nil SkillCatalogRow); [easy|]. symmetry.
      destruct (List.filter _ seen) as [|x xs] eqn:F; [easy|]. exfalso. apply A.
      assert (I : In x (List.filter (in_domain d) seen)) by (rewrite F; now left).
      apply filter_In in I as [I E%String.eqb_eq]. rewrite <- E. now apply C, list_elem_of_In.
  - intros x I. apply M. apply elem_of_app in I as [I|I%list_elem_of_singleton]; [left; now apply C | right; now subst].
Qed.
Lemma domains_groups data : groups_of (domains_of data) data.
Proof.
  unfold domains_of. assert (H : forall seen m, groups_of m seen -> groups_of (fold_left (fun m e => add_entry (sk_domain (sr_skill e)) e m) data m) (seen ++ data)%list).
  { induction data as [|e data IH]; intros seen m G; cbn; [now rewrite app_nil_r|].
    replace (seen ++ e :: data)%list with ((seen ++ [e]) ++ data)%list by now rewrite <- app_assoc. now apply IH, groups_step. }
  apply (H []). split_and!; [apply NoDup_nil_2 | intros d l I; now apply elem_of_nil in I | intros e I; now apply elem_of_nil in I].
Qed.

(** The domains in the order they are met. *)
Definition first_seen (ks : list string) : list string := fold_left (fun seen k => if decide (k ∈ seen) then seen else seen ++ [k]) ks [].
Lemma first_seen_snoc ks k : first_seen (ks ++ [k]) = if decide (k ∈ first_seen ks) then first_seen ks else first_seen ks ++ [k].
Proof. unfold first_seen. now rewrite fold_left_app. Qed.
Lemma domains_snoc data e : domains_of (data ++ [e]) = add_entry (sk_domain (sr_skill e)) e (domains_of data).
Proof. unfold domains_of. now rewrite fold_left_app. Qed.
Lemma domains_keys data : fst <$> domains_of data = first_seen (sk_domain ∘ sr_skill <$> data).
Proof.
  induction data as [|e data IH] using rev_ind; [easy|]. rewrite domains_snoc, add_entry_keys, IH, fmap_app.
  change (sk_domain ∘ sr_skill <$> [e]) with [sk_domain (sr_skill e)]. now rewrite first_seen_snoc.
Qed.
Lemma first_seen_sorted (o : string -> Z) ks : StronglySorted Z.le (o <$> ks) -> StronglySorted Z.le (o <$> first_seen ks) /\ first_seen ks ⊆ ks.
Proof.
  induction ks as [|k ks IH] using rev_ind; [easy|]. rewrite fmap_app. intros S.
  apply StronglySorted_app in S as (S1 & S & _). destruct (IH S) as [F I]. rewrite first_seen_snoc. destruct (decide _); [split; [easy | set_solver]|].
  split; [|set_solver]. rewrite fmap_app. apply StronglySorted_app. split_and!; [|easy | repeat constructor].
  intros x y X Y. apply S1; [|easy]. apply list_elem_of_fmap in X as (z & -> & Z). apply list_elem_of_fmap. exists z. split; [easy | now apply I].
Qed.

Lemma teaching_sorted `{RowOrder} t course s : StronglySorted teaching_order (skill_catalog t course s).
Proof. apply Sorted_StronglySorted; [apply _ | apply Sorted_merge_sort, _]. Qed.
Lemma sorted_orders o data : StronglySorted teaching_order data -> (forall e, e ∈ data -> sk_domain_order (sr_skill e) = o (sk_domain (sr_skill e))) ->
  StronglySorted Z.le (o <$> (sk_domain ∘ sr_skill <$> data)).
Proof.
  intros S O. induction S as [|e l S IH F]; [constructor|]. rewrite !fmap_cons. constructor; [apply IH; intros x I; apply O; now right|].
  rewrite !Forall_fmap. apply Forall_forall. intros x I. rewrite Forall_forall in F. specialize (F x I). cbn.
  rewrite <- !O by (try (now left); now right). destruct F as [F|[F _]]; lia.
Qed.
Lemma card_of_row uuid_text `{RowOrder} t course s e : e ∈ skill_catalog t course s ->
  bool_decide (is_Some (SkillCard uuid_text e)) = has_activity e.
Proof.
  intros I. unfold skill_catalog in I. rewrite merge_sort_Permutation, in_order_perm in I. apply list_elem_of_In, filter_In in I as [I _].
  apply list_elem_of_In, list_elem_of_fmap in I as ([k r] & -> & _). unfold SkillCard, available, has_activity, skill_catalog_row. cbn [sr_activity sr_version fst snd].
  destruct (published_version s r) as [v|]; cbn; [|easy]. destruct (activities s !! _) as [a|]; cbn; [|easy]. now destruct (Nat.eqb _ _).
Qed.

(** The catalog page shows every skill the server lists, once, under its
    domain: a group is the skills of the domain in the order of the list, and when
    each domain has one domain_order the groups come in that order.  The count
    of live labs is the number of cards that lead to an activity. *)
Theorem catalog_page `{RowOrder} uuid_text t course s :
  let data := skill_catalog t course s in
  NoDup (fst <$> domains_of data) /\
  (forall e, e ∈ data <-> exists d l, (d, l) ∈ domains_of data /\ e ∈ l) /\
  (forall d l, (d, l) ∈ domains_of data -> l = List.filter (in_domain d) data) /\
  (forall o, (forall e, e ∈ data -> sk_domain_order (sr_skill e) = o (sk_domain (sr_skill e))) ->
     StronglySorted Z.le (o <$> (fst <$> domains_of data))) /\
  availableCount data = List.length (omap (SkillCard uuid_text) data).
Proof.
  intros data. destruct (domains_groups data) as (N & G & C). split_and!; [exact N | | intros d l I; now apply G | |].
  - intros e. split.
    + intros I. pose proof (C e I) as K. apply list_elem_of_fmap in K as ([d l] & K & M). exists d, l. split; [easy|]. cbn in K.
      rewrite (proj1 (G d l M)). apply list_elem_of_In, filter_In. split; [now apply list_elem_of_In | now apply String.eqb_eq].
    + intros (d & l & M & I). rewrite (proj1 (G d l M)) in I. now apply list_elem_of_In, filter_In in I as [I%list_elem_of_In _].
  - intros o O. rewrite domains_keys. now apply first_seen_sorted, sorted_orders; [apply teaching_sorted|].
  - unfold availableCount. assert (A : forall e, e ∈ data -> bool_decide (is_Some (SkillCard uuid_text e)) = has_activity e) by apply card_of_row.
    clear N G C. induction data as [|e l IH]; [easy|]. cbn. rewrite <- A by now left.
    assert (IHl : List.length (List.filter has_activity l) = List.length (omap (SkillCard uuid_text) l)) by (apply IH; intros x I; apply A; now right).
    destruct (SkillCard uuid_text e); cbn; now rewrite IHl.
Qed.
End CatalogPage.

(** ** A provision that fails *)
Module Stranded.
Definition no_cluster : Orchestrator := {|
  orch_provision _ _ := inr (mkProvisionResult "" P_FAILED);
  orch_injectFault _ _ _ _ := inr (mkInjectFaultResult false false);
  orch_destroy _ _ _ _ := inr tt; orch_connect _ _ _ := inl (JsError "no cluster") |}.
Definition learner : CallerClaims := mkCallerClaims 7 1.
(** The learner's click, and what the store holds after it. *)
Definition after : Store := (run (@provision_route no_cluster (Some learner) 9) (Lab.store CREATED 1)).2.
Definition home : option Dashboard :=
  match (run (@get binary64 insertion_order false 7 1 None) after).1 with inr d => Some d | _ => None end.
Definition page_of (a : Attempt) : PageState :=
  mkPageState false (Some a) None None None None false false false false true.

Example nothing_to_do : home ≫= da_continueAttempt = (fun a => (9%nat, a)) <$> (attempts after !! 9%nat) /\
  (status <$> attempts after !! 9%nat) = Some PROVISION_FAILED /\
  ((actions ∘ AttemptPage ∘ page_of) <$> attempts after !! 9%nat) = Some [].
Proof. vm_compute. easy. Qed.

Lemma continue_from_home_witness : exists d s' a, run (@get binary64 insertion_order false 7 1 None) after = (inr d, s') /\
  da_continueAttempt d = Some (9%nat, a) /\ continued (page_of a) learner 9 s' a.
Proof.
  assert (C : match (run (@get binary64 insertion_order false 7 1 None) after).1 with inr d => fst <$> da_continueAttempt d | _ => None end = Some 9%nat)
    by (vm_compute; reflexivity).
  destruct (run (@get binary64 insertion_order false 7 1 None) after) as [[e|d] s'] eqn:E; [discriminate C|]. cbn [fst] in C.
  destruct (da_continueAttempt d) as [[id a]|] eqn:D; [|discriminate C]. injection C as ->.
  exists d, s', a. split; [reflexivity|]. split; [exact D|].
  assert (T : tenant_id a = 1%nat).
  { assert (T : match (run (@get binary64 insertion_order false 7 1 None) after).1 with inr d => tenant_id ∘ snd <$> da_continueAttempt d | _ => None end = Some 1%nat)
      by (vm_compute; reflexivity). rewrite E in T. cbn [fst] in T. rewrite D in T. now injection T. }
  now apply (@continue_from_home binary64 insertion_order false 7 1 None after d s' 9 a (page_of a)).
Defined.
End Stranded.
