(* ===== verification/WebWorkspace.v ===== *)
(** * The workspace: the file editor and the terminal

    src/web/src/components/WorkspaceEditor.tsx and WorkspaceTerminal.tsx, as the
    state they keep and the steps of the learner, the server and the browser.
    The text of the mounted editor is Monaco's; a file's content reaches it when
    it is mounted, from the cache of the queries.  Names of
    members of Object.prototype are not file extensions here. *)
From Stdlib Require Import Ascii.
From stdpp Require Import strings gmap pretty.
From S2P Require Import Prelude RegExp JsText.
Local Open Scope string_scope.

(** ** WorkspaceEditor.tsx *)
Module FileEditor.
Definition EXTENSION_LANGUAGE : list (string * string) :=
  [("sh", "shell"); ("bash", "shell"); ("py", "python"); ("js", "javascript"); ("ts", "typescript"); ("json", "json");
   ("yaml", "yaml"); ("yml", "yaml"); ("md", "markdown"); ("go", "go"); ("tf", "hcl"); ("Dockerfile", "dockerfile")].
(** [text.split(c).pop()]: what follows the last [c]. *)
Fixpoint last_part (c : ascii) (acc : chars) (t : chars) : chars :=
  match t with [] => acc | x :: t => last_part c (if Ascii.eqb x c then [] else (acc ++ [x])%list) t end.
Definition after_last (c : ascii) (s : string) : string := implode (last_part c [] (explode s)).
Definition languageForPath (path : string) : string :=
  let name := after_last "/" path in
  if String.eqb name "Dockerfile" then "dockerfile"
  else default "plaintext" (snd <$> List.find (fun e => String.eqb e.1 (after_last "." name)) EXTENSION_LANGUAGE).

(** The queries of the file contents, one for each path that was opened (React Query
    with its default options): the answer they hold, and the fetch under way with what
    the server has read of the file, if it has. *)
Record State := mkState {
  selectedPath : option string; dirty : bool; pendingContent : option string; saveError : option string; saving : bool;
  text : option string;                      (* what the mounted editor holds *)
  writes : list (string * string);           (* sent and not answered *)
  cache : gmap string string; fetches : gmap string (option string);
  disk : gmap string string }.               (* the files of the pod *)
#[export] Instance eta_State : Eta State := fun s =>
  mkState (selectedPath s) (dirty s) (pendingContent s) (saveError s) (saving s) (text s) (writes s) (cache s) (fetches s) (disk s).
Definition opened (files : gmap string string) : State := mkState None false None None false None [] ∅ ∅ files.

(** A fetch is started unless one is under way. *)
Definition start_fetch (path : string) (s : State) : State :=
  s <| fetches ::= fun m => <[path := default None (m !! path)]> m |>.
(** The editor of the new file is mounted at once with the answer the query holds, else
    when one arrives; the query is fetched in either case. *)
Definition selectFile (path : string) (s : State) : State :=
  if bool_decide (Some path = selectedPath s) then s
  else start_fetch path (s <| selectedPath := Some path |> <| dirty := false |> <| pendingContent := None |> <| saveError := None |>
                           <| text := cache s !! path |>).
Definition onChange (value : string) (s : State) : State :=
  s <| pendingContent := Some value |> <| dirty := true |> <| text := Some value |>.
(** [save] up to its [await]. *)
Definition save (s : State) : State :=
  match selectedPath s, pendingContent s with
  | Some path, Some content => s <| saving := true |> <| saveError := None |> <| writes ::= fun l => (l ++ [(path, content)])%list |>
  | _, _ => s
  end.
(** [invalidateQueries]: the fetch of the file on display starts again; its answer, and
    that of another file, is kept until a new one arrives. *)
Definition invalidate (path : string) (s : State) : State :=
  if bool_decide (Some path = selectedPath s) then s <| fetches ::= <[path := None]> |> else s.
Definition saved (path : string) (s : State) : State := invalidate path (s <| dirty := false |>) <| saving := false |>.
Definition save_failed (headline : string) (s : State) : State :=
  s <| saveError := Some ("Save failed: " ++ headline) |> <| saving := false |>.
(** The button: its label, and whether it can be clicked. *)
Definition save_button (s : State) : option (string * bool) :=
  (fun _ => (if saving s then "Saving…" else if dirty s then "Save" else "Saved", dirty s && negb (saving s))) <$> selectedPath s.
(** The answer to a fetch: a mounted editor takes no notice of it ([defaultValue]). *)
Definition fetched (path content : string) (s : State) : State :=
  let s := s <| cache ::= <[path := content]> |> <| fetches ::= delete path |> in
  if bool_decide (Some path = selectedPath s) then s <| text ::= fun t => Some (default content t) |> else s.

Inductive Event :=
| Select (path : string) | Typed (value : string) | Save | Written | Refused (headline : string) (wrote : bool)
| Read (path : string)                       (* the server reads the file for a fetch *)
| Fetched (path : string) | FetchFailed (path : string)
| Focused                                    (* the window: the query on display is fetched again *)
| Evicted (path : string)                    (* five minutes after the file was left *)
| Changed (path content : string).           (* by a command in the terminal *)
(** An event that cannot happen in a state is [None]. *)
Definition step (e : Event) (s : State) : option State :=
  match e with
  | Select path => Some (selectFile path s)
  | Typed value => match text s with Some _ => Some (onChange value s) | None => None end
  | Save => match save_button s with Some (_, true) => Some (save s) | _ => None end
  | Written => match writes s with
               | (path, content) :: rest => Some (saved path (s <| disk ::= <[path := content]> |> <| writes := rest |>))
               | [] => None
               end
  | Refused headline wrote => match writes s with
               | (path, content) :: rest =>
                   Some (save_failed headline ((if wrote then s <| disk ::= <[path := content]> |> else s) <| writes := rest |>))
               | [] => None
               end
  | Read path => match fetches s !! path, disk s !! path with
               | Some _, Some content => Some (s <| fetches ::= <[path := Some content]> |>)
               | _, _ => None
               end
  | Fetched path => match fetches s !! path with Some (Some content) => Some (fetched path content s) | _ => None end
  | FetchFailed path => match fetches s !! path with Some _ => Some (s <| fetches ::= delete path |>) | None => None end
  | Focused => match selectedPath s with Some path => Some (start_fetch path s) | None => None end
  | Evicted path => if bool_decide (Some path = selectedPath s) then None else Some (s <| cache ::= delete path |>)
  | Changed path content => Some (s <| disk ::= <[path := content]> |>)
  end.
Fixpoint play (es : list Event) (s : State) : option State :=
  match es with [] => Some s | e :: es => step e s ≫= play es end.

(** What the queries know of a file, if anything, is what the file holds. *)
Definition current (path : string) (s : State) : bool :=
  let holds c := bool_decide (disk s !! path = Some c) in
  from_option holds true (cache s !! path) && from_option holds true (mjoin (fetches s !! path)).
(** While a save is under way nothing is typed and no other file chosen; a file is only
    opened when what the queries know of it is current; and the file on display is not
    changed by others. *)
Definition quiet (e : Event) (s : State) : bool :=
  match e with
  | Select path => bool_decide (Some path = selectedPath s) || negb (saving s) && current path s
  | Typed _ => negb (saving s)
  | Changed path _ => negb (bool_decide (Some path = selectedPath s))
  | _ => true
  end.
Fixpoint unhurried (es : list Event) (s : State) : bool :=
  match es with [] => true | e :: es => quiet e s && match step e s with Some s => unhurried es s | None => true end end.

(** *** At most one write is under way *)
Definition one_write (s : State) : Prop :=
  (if saving s then exists w, writes s = [w] else writes s = []) /\ (dirty s = true -> is_Some (pendingContent s) /\ is_Some (selectedPath s)) /\
  (is_Some (text s) -> is_Some (selectedPath s)).
Lemma one_write_step e s s' : step e s = Some s' -> one_write s -> one_write s'.
Proof.
  intros E (W & D & T). unfold one_write.
  destruct e as [path|value| | |headline wrote|path|path|path| |path|path content]; cbn in E.
  - injection E as <-. unfold selectFile. destruct (bool_decide _); [easy|]. cbn. split; [exact W|]. split; [easy|]. intros _. now eexists.
  - destruct (text s) eqn:P; [|easy]. injection E as <-. cbn. split_and!; [exact W | split; [now eexists | apply T; now eexists] | intros _; apply T; now eexists].
  - unfold save_button in E. destruct (selectedPath s) eqn:P; [|easy]. cbn in E. destruct (dirty s) eqn:Di; [|easy]. destruct (saving s) eqn:Sv; [easy|]. cbn in E.
    injection E as <-. destruct (D eq_refl) as [[c Pc] _]. unfold save. rewrite P, Pc. cbn. rewrite W, P, Di. split_and!; [now eexists | naive_solver | easy].
  - destruct (writes s) as [|[p c] rest] eqn:Ws; [easy|]. injection E as <-. unfold saved, invalidate. cbn.
    destruct (saving s); [|easy]. destruct W as [w [= <- ->]]. now destruct (bool_decide _).
  - destruct (writes s) as [|[p c] rest] eqn:Ws; [easy|]. injection E as <-. destruct (saving s); [|easy]. destruct W as [w [= <- ->]]. now destruct wrote.
  - destruct (fetches s !! path), (disk s !! path); try easy. now injection E as <-.
  - destruct (fetches s !! path) as [[c|]|]; try easy. injection E as <-. unfold fetched. cbn.
    destruct (bool_decide_reflect (Some path = selectedPath s)) as [P|]; [|exact (conj W (conj D T))]. cbn. rewrite <- P. naive_solver.
  - destruct (fetches s !! path); [|easy]. now injection E as <-.
  - destruct (selectedPath s) eqn:P; [|easy]. injection E as <-. cbn. rewrite P. easy.
  - destruct (bool_decide _); [easy|]. now injection E as <-.
  - now injection E as <-.
Qed.
Lemma one_write_reached files es s : play es (opened files) = Some s -> one_write s.
Proof.
  assert (H : forall s0, one_write s0 -> play es s0 = Some s -> one_write s).
  { induction es as [|e es IH]; cbn; intros s0 O E; [now injection E as <-|]. destruct (step e s0) as [s1|] eqn:S; [|easy]. cbn in E. eauto using one_write_step. }
  apply H. split_and!; [easy.. |]. now intros [x [=]].
Qed.

(** *** What "Saved" means *)
Lemma current_spec path s : current path s = true <->
  (forall c, cache s !! path = Some c -> disk s !! path = Some c) /\
  (forall c, fetches s !! path = Some (Some c) -> disk s !! path = Some c).
Proof.
  unfold current. rewrite andb_true_iff. destruct (cache s !! path) as [a|], (fetches s !! path) as [[b|]|]; cbn;
    rewrite ?bool_decide_eq_true; naive_solver.
Qed.
Definition consistent (s : State) : Prop :=
  one_write s /\
  (forall t, text s = Some t -> if dirty s then pendingContent s = Some t else exists p, selectedPath s = Some p /\ disk s !! p = Some t) /\
  (saving s = true -> exists p t, selectedPath s = Some p /\ text s = Some t /\ writes s = [(p, t)] /\ dirty s = true) /\
  (dirty s = true -> is_Some (text s)) /\
  (text s = None -> forall p, selectedPath s = Some p -> current p s = true).
Lemma consistent_step e s s' : quiet e s = true -> step e s = Some s' -> consistent s -> consistent s'.
Proof.
  intros Q E (O & T & V & D & K). pose proof (one_write_step e s s' E O) as O'. split; [exact O'|]. clear O'. destruct O as (W & P & _).
  destruct e as [path|value| | |headline wrote|path|path|path| |path|path content]; cbn in E, Q.
  - injection E as <-. unfold selectFile. destruct (bool_decide_reflect (Some path = selectedPath s)) as [|N]; [easy|].
    apply andb_true_iff in Q as [Sv Cu]. apply negb_true_iff in Sv. pose proof (proj1 (current_spec path s) Cu) as [C1 C2]. cbn. rewrite Sv.
    split_and!; [|easy..|].
    + intros t C. exists path. auto.
    + intros C p [= <-]. apply current_spec. cbn. split; [congruence|]. intros c F. rewrite lookup_insert_eq in F.
      destruct (fetches s !! path) as [[b|]|]; cbn in F; try easy. auto.
  - destruct (text s) eqn:Tx; [|easy]. injection E as <-. cbn. apply negb_true_iff in Q. rewrite Q. split_and!; [easy.. | now eexists | easy].
  - unfold save_button in E. destruct (selectedPath s) as [p|] eqn:Sp; [|easy]. cbn in E. destruct (dirty s) eqn:Di; [|easy]. destruct (saving s) eqn:Sv; [easy|]. cbn in E.
    injection E as <-. destruct (D eq_refl) as [t Tx]. specialize (T t Tx). unfold save. rewrite Sp, T. cbn. rewrite Di, Sp, Tx, W. naive_solver.
  - destruct (writes s) as [|[p c] rest] eqn:Ws; [easy|]. injection E as <-. cbn. destruct (saving s); [|easy]. destruct (V eq_refl) as (p' & t & Sp & Tx & [= -> -> ->] & Di).
    unfold saved, invalidate. cbn. rewrite Sp, bool_decide_true by reflexivity. cbn. rewrite ?Tx, ?Sp. split_and!; [|easy..].
    intros t' [= <-]. exists p'. now rewrite lookup_insert_eq.
  - destruct (writes s) as [|[p c] rest] eqn:Ws; [easy|]. injection E as <-. destruct (saving s); [|easy]. destruct (V eq_refl) as (p' & t & Sp & Tx & [= -> -> ->] & Di).
    rewrite Di in T. destruct wrote; cbn; rewrite Di, Tx; split_and!; try easy; intros t' [= <-]; now apply T.
  - destruct (fetches s !! path) as [f|] eqn:Fe, (disk s !! path) as [c|] eqn:Dk; try easy. injection E as <-. cbn. split_and!; [exact T | exact V | exact D |].
    intros Tx p Sp. specialize (K Tx p Sp). apply current_spec in K as [K1 K2]. apply current_spec. cbn. split; [exact K1|].
    intros c' L. destruct (decide (path = p)) as [->|Ne]; [rewrite lookup_insert_eq in L; congruence | rewrite lookup_insert_ne in L by exact Ne; auto].
  - destruct (fetches s !! path) as [[c|]|] eqn:Fe; try easy. injection E as <-. unfold fetched. cbn.
    destruct (bool_decide_reflect (Some path = selectedPath s)) as [Sp|N]; cbn.
    + rewrite <- Sp in *. destruct (text s) as [t|] eqn:Tx; cbn; [split_and!; [intros t' [= <-]; now apply T | exact V | easy | easy]|].
      destruct (dirty s) eqn:Di; [destruct (D eq_refl); congruence|]. split_and!; [|naive_solver | easy | easy].
      intros t [= <-]. exists path. split; [reflexivity|]. pose proof (K eq_refl path eq_refl) as C. apply current_spec in C as [_ C]. now apply C.
    + split_and!; [exact T | exact V | exact D |]. intros Tx p Sp. assert (path <> p) by congruence. specialize (K Tx p Sp). apply current_spec in K as [K1 K2].
      apply current_spec. cbn. now rewrite lookup_insert_ne, lookup_delete_ne.
  - destruct (fetches s !! path) eqn:Fe; [|easy]. injection E as <-. split_and!; [exact T | exact V | exact D |].
    intros Tx p Sp. specialize (K Tx p Sp). apply current_spec in K as [K1 K2]. apply current_spec. cbn. split; [exact K1|].
    intros c L. apply lookup_delete_Some in L as [_ L]. auto.
  - destruct (selectedPath s) as [q|] eqn:Sp; [|easy]. injection E as <-. unfold start_fetch. cbn. rewrite ?Sp. split_and!; [exact T | exact V | exact D |].
    intros Tx p [= <-]. specialize (K Tx q eq_refl). apply current_spec in K as [K1 K2]. apply current_spec. cbn. split; [exact K1|].
    intros c L. rewrite lookup_insert_eq in L. destruct (fetches s !! q) as [[b|]|]; cbn in L; try easy. auto.
  - destruct (bool_decide_reflect (Some path = selectedPath s)) as [|N]; [easy|]. injection E as <-. split_and!; [exact T | exact V | exact D |].
    intros Tx p Sp. specialize (K Tx p Sp). apply current_spec in K as [K1 K2]. apply current_spec. cbn. split; [|exact K2].
    intros c L. apply lookup_delete_Some in L as [_ L]. auto.
  - injection E as <-. apply negb_true_iff, bool_decide_eq_false in Q. cbn.
    assert (Kp : forall p, selectedPath s = Some p -> <[path := content]> (disk s) !! p = disk s !! p)
      by (intros p Sp; apply lookup_insert_ne; congruence).
    split_and!; [|exact V | exact D |].
    + intros t Tx. specialize (T t Tx). destruct (dirty s); [exact T|]. destruct T as (p & Sp & Dk). exists p. now rewrite Kp.
    + intros Tx p Sp. specialize (K Tx p Sp). apply current_spec in K as [K1 K2]. apply current_spec. cbn. rewrite Kp by exact Sp. auto.
Qed.
Lemma consistent_reached files es s : unhurried es (opened files) = true -> play es (opened files) = Some s -> consistent s.
Proof.
  assert (H : forall s0, consistent s0 -> unhurried es s0 = true -> play es s0 = Some s -> consistent s).
  { induction es as [|e es IH]; cbn; intros s0 O U E; [now injection E as <-|]. apply andb_true_iff in U as [Q U].
    destruct (step e s0) as [s1|] eqn:S; [|easy]. cbn in E. eauto using consistent_step. }
  apply H. unfold consistent, one_write. cbn. split_and!; easy.
Qed.

(** C38: However the learner types, chooses files and saves, whatever the server
    answers and whenever the queries are fetched, at most one write is under way,
    exactly while the button reads Saving.  The button reads Saved only when the pod's
    file holds the text of the editor, and a refused write leaves the text to be saved
    again, under three conditions that the code does not see to: nothing is typed and
    no other file chosen while a save is under way; a file is opened only when what the
    queries still know of it, from before, is what it holds; and nobody else changes
    the file on display.  Without them Saved can be wrong, as the examples below show
    for each. *)
Theorem saved_is_on_disk files es s : play es (opened files) = Some s ->
  (List.length (writes s) = if saving s then 1 else 0)%nat /\
  (unhurried es (opened files) = true -> forall p t, selectedPath s = Some p -> text s = Some t ->
     (save_button s = Some ("Saved", false) <-> dirty s = false /\ saving s = false) /\
     (save_button s = Some ("Saved", false) -> disk s !! p = Some t) /\
     (dirty s = true -> pendingContent s = Some t) /\
     (forall h w s', step (Refused h w) s = Some s' -> save_button s' = Some ("Save", true) /\ text s' = Some t /\ pendingContent s' = Some t)).
Proof.
  intros E. split.
  - destruct (one_write_reached files es s E) as (W & _). destruct (saving s); [now destruct W as [w ->] | now rewrite W].
  - intros U p t Sp Tx. destruct (consistent_reached files es s U E) as ((W & _) & T & V & D & _). specialize (T t Tx).
    assert (B : save_button s = Some ("Saved", false) <-> dirty s = false /\ saving s = false).
    { unfold save_button. rewrite Sp. cbn. destruct (saving s), (dirty s); cbn; split; try easy; now intros []. }
    split_and!; [exact B | | |].
    + intros [Di _]%B. rewrite Di in T. destruct T as (p' & Sp' & T). congruence.
    + intros Di. now rewrite Di in T.
    + intros h w s' R. cbn in R. destruct (writes s) as [|[p' c] rest] eqn:Ws; [easy|]. injection R as <-.
      destruct (saving s); [|easy]. destruct (V eq_refl) as (p2 & t2 & Sp2 & Tx2 & _ & Di). rewrite Di in T.
      unfold save_button. destruct w; cbn; rewrite Sp, Di; easy.
Qed.

Definition two_files : gmap string string := {[ "main.tf" := "a"; "notes.md" := "n" ]}.
Definition open (path : string) : list Event := [Select path; Read path; Fetched path].
(** A file is saved, fetched again, left and opened once more. *)
Definition edit : list Event :=
  (open "main.tf" ++ [Typed "b"; Save; Written; Read "main.tf"; Fetched "main.tf"] ++ open "notes.md" ++ [Select "main.tf"])%list.
Lemma saved_is_on_disk_witness : exists s, play edit (opened two_files) = Some s /\
  save_button s = Some ("Saved", false) /\ text s = Some "b" /\ disk s !! "main.tf" = Some "b".
Proof.
  assert (V : (fun s => (selectedPath s, text s, save_button s)) <$> play edit (opened two_files) = Some (Some "main.tf", Some "b", Some ("Saved", false)))
    by (vm_compute; reflexivity).
  assert (U : unhurried edit (opened two_files) = true) by (vm_compute; reflexivity).
  destruct (play edit (opened two_files)) as [s|] eqn:E; [|discriminate V]. injection V as Sp Tx B. exists s. split; [reflexivity|]. split; [exact B|].
  split; [exact Tx|]. destruct (saved_is_on_disk two_files edit s E) as [_ S]. destruct (S U "main.tf" "b" Sp Tx) as (_ & D & _). exact (D B).
Defined.

(** A file that was never opened, or was forgotten since, is current. *)
Lemma forgotten_current path s : cache s !! path = None -> fetches s !! path = None -> current path s = true.
Proof. intros C F. unfold current. now rewrite C, F. Qed.

Definition shown (path : string) (es : list Event) : option (option (string * bool) * option string * option string) :=
  (fun s => (save_button s, text s, disk s !! path)) <$> play es (opened two_files).
(** An answer to a save takes the mark off whatever is in the editor by then:
    what was typed meanwhile, in this file or another, reads Saved and cannot be
    saved until it is changed again.  Choosing another file drops what was not
    saved without a question. *)
Example typed_while_saving :
  shown "main.tf" (open "main.tf" ++ [Typed "b"; Save; Typed "bc"; Written])%list = Some (Some ("Saved", false), Some "bc", Some "b").
Proof. vm_compute. reflexivity. Qed.
Example other_file_while_saving :
  shown "notes.md" (open "main.tf" ++ [Typed "b"; Save] ++ open "notes.md" ++ [Typed "n2"; Written])%list
  = Some (Some ("Saved", false), Some "n2", Some "n").
Proof. vm_compute. reflexivity. Qed.
Example switched_unsaved :
  shown "main.tf" (open "main.tf" ++ [Typed "b"; Select "notes.md"; Select "main.tf"])%list = Some (Some ("Saved", false), Some "a", Some "a").
Proof. vm_compute. reflexivity. Qed.
(** A file opened again shows the answer its query holds: after a write that was
    refused although it had landed, and before the fetch that follows a save has come
    back, that is the text from before, marked Saved; when the fetch does come back the
    mounted editor keeps the old text, and saving it then undoes the earlier save. *)
Example stale_after_refused_write :
  shown "main.tf" (open "main.tf" ++ [Typed "b"; Save; Refused "timeout" true; Select "notes.md"; Select "main.tf"; Read "main.tf"; Fetched "main.tf"])%list
  = Some (Some ("Saved", false), Some "a", Some "b").
Proof. vm_compute. reflexivity. Qed.
Example stale_after_save :
  shown "main.tf" (open "main.tf" ++ [Typed "b"; Save; Written; Select "notes.md"; Select "main.tf"; Read "main.tf"; Fetched "main.tf"])%list
  = Some (Some ("Saved", false), Some "a", Some "b").
Proof. vm_compute. reflexivity. Qed.
Example undone_save :
  shown "main.tf" (open "main.tf" ++ [Typed "b"; Save; Written; Select "notes.md"; Select "main.tf"; Typed "a!"; Save; Written])%list
  = Some (Some ("Saved", false), Some "a!", Some "a!").
Proof. vm_compute. reflexivity. Qed.
(** A command in the terminal changes the file on display. *)
Example changed_in_terminal :
  shown "main.tf" (open "main.tf" ++ [Changed "main.tf" "z"; Focused; Read "main.tf"; Fetched "main.tf"])%list
  = Some (Some ("Saved", false), Some "a", Some "z").
Proof. vm_compute. reflexivity. Qed.
Example languages :
  languageForPath <$> ["./lab/main.tf"; "Dockerfile"; "app/Dockerfile"; "Makefile"; "sh"; "a.b/x"; "values.prod.yaml"; ""]
  = ["hcl"; "dockerfile"; "dockerfile"; "plaintext"; "shell"; "plaintext"; "yaml"; "plaintext"].
Proof. vm_compute. reflexivity. Qed.
End FileEditor.

(** ** WorkspaceTerminal.tsx *)
Module Terminal.
Definition RECONNECT_DELAYS_MS : list Z := [500; 1000; 2000; 4000; 8000]%Z.
Inductive ConnectionState := connecting | opened | reconnecting.
#[export] Instance connection_eq_dec : EqDecision ConnectionState.
Proof. solve_decision. Defined.
Inductive ReadyState := SOCKET_CONNECTING | SOCKET_OPEN | SOCKET_CLOSING.
#[export] Instance ready_eq_dec : EqDecision ReadyState.
Proof. solve_decision. Defined.

(** The source's fourth state, closed, is never set; a change of attempt is an
    [Unmount] followed by a [Mount]. *)

(** What may still call back: a connect call, a socket, a timer.  Each belongs to
    the value [attemptRef] had when its chain began. *)
Inductive Link := Calling | Socket (ready : ReadyState) | Timer (delay : Z).
#[export] Instance link_eq_dec : EqDecision Link.
Proof. solve_decision. Defined.
Record Session := mkSession {
  attemptRef : nat; mounted : bool; unmountedRef : bool; state : ConnectionState; reconnectCount : nat; error : option string;
  links : gmap nat (nat * Link); next : nat; wsRef : option nat; screen : list string; sent : list (nat * string) }.
#[export] Instance eta_Session : Eta Session := fun s =>
  mkSession (attemptRef s) (mounted s) (unmountedRef s) (state s) (reconnectCount s) (error s) (links s) (next s) (wsRef s) (screen s) (sent s).
Definition fresh : Session := mkSession 0 false false connecting 0 None ∅ 0 None [] [].

Section Reconnect.
(** How often React runs the updater of a state: once; twice in the strict mode
    of development. *)
Variable updater_runs : nat.

Definition stale (myAttempt : nat) (s : Session) : bool := unmountedRef s || negb (Nat.eqb myAttempt (attemptRef s)).
Definition link (g : nat) (l : Link) (s : Session) : Session := s <| links ::= <[next s := (g, l)]> |> <| next ::= S |>.
(** [connect] up to its [await]. *)
Definition connect (myAttempt : nat) (s : Session) : Session :=
  if stale myAttempt s then s
  else link myAttempt Calling
         (s <| state ::= fun prev => if bool_decide (prev = connecting) then connecting else reconnecting |> <| error := None |>).
Definition delay_of (count : nat) : Z := List.nth (Nat.min (count - 1) (List.length RECONNECT_DELAYS_MS - 1)) RECONNECT_DELAYS_MS 0%Z.
Definition scheduleReconnect (myAttempt : nat) (s : Session) : Session :=
  if stale myAttempt s then s
  else let count := (reconnectCount s + 1)%nat in
       Nat.iter updater_runs (link myAttempt (Timer (delay_of count))) (s <| state := reconnecting |>) <| reconnectCount := count |>.

Inductive Event :=
| Mount | Unmount | Answered (id : nat) | Rejected (id : nat) (message : string)
| Opened (id : nat) | Message (id : nat) (data : string) | Closed (id : nat) | Fired (id : nat) | Key (data : string).
Definition close_ws (s : Session) : Session :=
  match wsRef s with
  | Some i => s <| links ::= alter (fun gl => match gl.2 with Socket _ => (gl.1, Socket SOCKET_CLOSING) | _ => gl end) i |>
  | None => s
  end.
Definition step (e : Event) (s : Session) : option Session :=
  match e with
  | Mount => if mounted s then None else Some (connect (attemptRef s) (s <| mounted := true |> <| unmountedRef := false |>))
  | Unmount => if mounted s then Some (close_ws (s <| mounted := false |> <| unmountedRef := true |> <| attemptRef ::= S |>)) else None
  | Answered id => match links s !! id with
      | Some (g, Calling) => Some (if stale g s then s <| links ::= delete id |>
                                   else s <| links ::= <[id := (g, Socket SOCKET_CONNECTING)]> |> <| wsRef := Some id |>)
      | _ => None
      end
  | Rejected id message => match links s !! id with
      | Some (g, Calling) => let s := s <| links ::= delete id |> in
                             Some (if stale g s then s else scheduleReconnect g (s <| error := Some message |>))
      | _ => None
      end
  | Opened id => match links s !! id with
      | Some (g, Socket SOCKET_CONNECTING) =>
          let s := s <| links ::= <[id := (g, Socket SOCKET_OPEN)]> |> in
          Some (if stale g s then s else s <| state := opened |> <| reconnectCount := 0%nat |>)
      | _ => None
      end
  | Message id data => match links s !! id with
      | Some (g, Socket SOCKET_OPEN) => Some (if stale g s then s else s <| screen ::= fun l => (l ++ [data])%list |>)
      | _ => None
      end
  | Closed id => match links s !! id with
      | Some (g, Socket _) => Some (scheduleReconnect g (s <| links ::= delete id |>))
      | _ => None
      end
  | Fired id => match links s !! id with
      | Some (g, Timer _) => Some (connect g (s <| links ::= delete id |>))
      | _ => None
      end
  | Key data => if mounted s then
      Some (match wsRef s with
            | Some i => match links s !! i with
                        | Some (_, Socket SOCKET_OPEN) => s <| sent ::= fun l => (l ++ [(i, data)])%list |>
                        | _ => s
                        end
            | None => s
            end) else None
  end.
Inductive reached : Session -> Prop :=
| reached_fresh : reached fresh
| reached_step e s s' : reached s -> step e s = Some s' -> reached s'.
End Reconnect.

(** ConnectionBanner. *)
Definition ConnectionBanner (s : Session) : option string :=
  match state s with
  | opened => None
  | connecting => Some "Connecting to workspace…"
  | reconnecting => Some ("Connection lost — reconnecting (attempt " ++ pretty (reconnectCount s) ++ ")…" ++
      match truthy (error s) with Some e => "(" ++ e ++ ")" | None => "" end)
  end.

(** *** One chain *)
(** What the state says of the link of the current chain. *)
Definition fits (s : Session) (i : nat) (l : Link) : Prop :=
  (state s = opened <-> l = Socket SOCKET_OPEN) /\
  match l with
  | Calling => True
  | Socket r => wsRef s = Some i /\ r <> SOCKET_CLOSING
  | Timer d => (0 < reconnectCount s)%nat /\ d = delay_of (reconnectCount s)
  end.
Definition live_socket (l : Link) : Prop := match l with Socket r => r <> SOCKET_CLOSING | _ => False end.
Definition known (s : Session) : Prop := forall i g l, links s !! i = Some (g, l) ->
  (i < next s)%nat /\ (g <= attemptRef s)%nat /\ (g = attemptRef s -> mounted s = true) /\ (live_socket l -> g = attemptRef s).
Record chained (s : Session) : Prop := mkChained {
  ch_unmounted : mounted s = true -> unmountedRef s = false;
  ch_known : known s;
  ch_one : mounted s = true -> exists i l, links s !! i = Some (attemptRef s, l) /\ fits s i l /\
             forall j l', links s !! j = Some (attemptRef s, l') -> j = i }.
(** Between a link and the next. *)
Definition idle (s : Session) : Prop :=
  mounted s = true /\ unmountedRef s = false /\ known s /\ forall j l, links s !! j <> Some (attemptRef s, l).

Lemma known_delete i s : known s -> known (s <| links ::= delete i |>).
Proof. intros K j g l L. cbn in L. apply lookup_delete_Some in L as [_ L]. exact (K _ _ _ L). Qed.
Lemma fits_ext s s' i l : state s' = state s -> wsRef s' = wsRef s -> reconnectCount s' = reconnectCount s -> fits s i l -> fits s' i l.
Proof. unfold fits. now intros -> -> ->. Qed.
Lemma stale_link s i g l : chained s -> links s !! i = Some (g, l) -> stale g s = negb (Nat.eqb g (attemptRef s)).
Proof.
  intros C L. unfold stale. destruct (Nat.eqb_spec g (attemptRef s)) as [E|N]; [|apply orb_true_r].
  destruct (ch_known s C _ _ _ L) as (_ & _ & M & _). now rewrite (ch_unmounted s C (M E)).
Qed.
(** The live link taken away leaves the chain idle, another changes nothing. *)
Lemma delete_live s i l : chained s -> links s !! i = Some (attemptRef s, l) -> idle (s <| links ::= delete i |>).
Proof.
  intros C L. destruct (ch_known s C _ _ _ L) as (_ & _ & M & _). specialize (M eq_refl).
  split_and!; [exact M | exact (ch_unmounted s C M) | apply known_delete, C |]. intros j l' E. cbn in E. apply lookup_delete_Some in E as [N E].
  destruct (ch_one s C M) as (i' & l0 & _ & _ & U). rewrite (U _ _ E), (U _ _ L) in N. easy.
Qed.
Lemma delete_stale s i g l : chained s -> links s !! i = Some (g, l) -> g <> attemptRef s -> chained (s <| links ::= delete i |>).
Proof.
  intros C L N. split; [apply C | apply known_delete, C |]. intros M. destruct (ch_one s C M) as (j & l' & Lj & F & U). exists j, l'. cbn.
  split_and!; [|now apply (fits_ext s) |].
  - apply lookup_delete_Some. split; [|easy]. intros ->. congruence.
  - intros k lk E. apply lookup_delete_Some in E as [_ E]. now apply (U k lk).
Qed.
Lemma link_idle s l : idle s -> fits (link (attemptRef s) l s) (next s) l -> chained (link (attemptRef s) l s).
Proof.
  intros (M & Un & K & N) F. split; cbn; [easy | |].
  - intros i g l' E. cbn in E |- *. apply lookup_insert_Some in E as [[<- [= <- <-]]|[D E]]; [split_and!; [lia | lia | easy | easy]|].
    destruct (K _ _ _ E) as (? & ? & ? & ?). split_and!; [lia | easy..].
  - intros _. exists (next s), l. split_and!; [apply lookup_insert_eq | exact F |]. intros j l' E. apply lookup_insert_Some in E as [[<- _]|[_ E]]; [easy|].
    now destruct (N j l').
Qed.
Lemma connect_idle s : idle s -> chained (connect (attemptRef s) s).
Proof.
  intros I. pose proof I as (M & Un & K & N). unfold connect, stale. rewrite Un, Nat.eqb_refl. cbn [orb negb].
  set (s1 := s <| state ::= _ |> <| error := None |>). assert (F : fits (link (attemptRef s) Calling s1) (next s) Calling).
  { split; [|easy]. cbn. now destruct (bool_decide _). }
  exact (link_idle s1 Calling I F).
Qed.
Lemma schedule_idle s : idle s -> chained (scheduleReconnect 1 (attemptRef s) s).
Proof.
  intros I. pose proof I as (M & Un & K & N). unfold scheduleReconnect, stale. rewrite Un, Nat.eqb_refl. cbn [orb negb]. cbv zeta. cbn [Nat.iter].
  set (s1 := s <| state := reconnecting |> <| reconnectCount := (reconnectCount s + 1)%nat |>).
  set (l := Timer _). assert (F : fits (link (attemptRef s) l s1) (next s) l) by (split; [easy|]; cbn; split; [lia | easy]).
  exact (link_idle s1 l I F).
Qed.
Lemma update_live s s' i l l' : chained s -> links s !! i = Some (attemptRef s, l) -> links s' = <[i := (attemptRef s, l')]> (links s) ->
  attemptRef s' = attemptRef s -> mounted s' = mounted s -> unmountedRef s' = unmountedRef s -> next s' = next s -> fits s' i l' -> chained s'.
Proof.
  intros C L E A M Un N F. destruct (ch_known s C _ _ _ L) as (Ni & _ & Mt & _). specialize (Mt eq_refl).
  split; [now rewrite M, Un; apply C | |].
  - intros j g lk. rewrite E, A, M, N. intros [[<- [= <- <-]]|[_ Lj]]%lookup_insert_Some; [split_and!; [lia | lia | easy | easy] | exact (ch_known s C _ _ _ Lj)].
  - intros _. destruct (ch_one s C Mt) as (k & l0 & _ & _ & U). exists i, l'. rewrite E, A. split_and!; [apply lookup_insert_eq | easy |].
    intros j lj [[<- _]|[_ Lj]]%lookup_insert_Some; [easy|]. now rewrite (U _ _ Lj), (U _ _ L).
Qed.
Lemma chained_ext s s' : chained s -> links s' = links s -> attemptRef s' = attemptRef s -> mounted s' = mounted s -> unmountedRef s' = unmountedRef s ->
  next s' = next s -> state s' = state s -> wsRef s' = wsRef s -> reconnectCount s' = reconnectCount s -> chained s'.
Proof.
  intros [Un K O] L A M U N S W R. split; unfold known; rewrite ?L, ?A, ?M, ?U, ?N; [easy.. |]. intros Mt. destruct (O Mt) as (i & l & Li & F & Ul).
  exists i, l. split_and!; [easy | now apply (fits_ext s) | easy].
Qed.
Lemma live_is_newest s i g l : chained s -> links s !! i = Some (g, l) -> live_socket l -> wsRef s = Some i.
Proof.
  intros C L V. destruct (ch_known s C _ _ _ L) as (_ & _ & M & G). specialize (G V). subst g.
  destruct (ch_one s C (M eq_refl)) as (k & l' & Lk & [_ F] & U). pose proof (U _ _ L) as ->. rewrite L in Lk. injection Lk as <-.
  destruct l; [easy | apply F | easy].
Qed.
Lemma chained_unmount s : chained s -> mounted s = true ->
  chained (close_ws (s <| mounted := false |> <| unmountedRef := true |> <| attemptRef ::= S |>)).
Proof.
  intros C M. unfold close_ws. cbn [wsRef set_field]. split; [now destruct (wsRef _) | | now destruct (wsRef _)].
  assert (K : forall i g l, links s !! i = Some (g, l) -> (i < next s)%nat /\ (g <= S (attemptRef s))%nat /\ (g = S (attemptRef s) -> false = true)).
  { intros i g l L. destruct (ch_known s C _ _ _ L) as (? & ? & _ & _). split_and!; [easy | lia | lia]. }
  intros i g l. pose proof (live_is_newest s i g l C) as O. cbn. destruct (wsRef s) as [w|]; cbn.
  - rewrite lookup_alter_Some. intros [(<- & [g' l'] & L & E)|[N L]].
    + destruct (K _ _ _ L) as (? & ? & ?). destruct l'; injection E as -> ->; split_and!; easy.
    + destruct (K _ _ _ L) as (? & ? & ?). split_and!; [easy..|]. intros V. specialize (O L V). congruence.
  - intros L. destruct (K _ _ _ L) as (? & ? & ?). split_and!; [easy..|]. intros V. now specialize (O L V).
Qed.
Lemma connect_stale g s : stale g s = true -> connect g s = s.
Proof. unfold connect. now intros ->. Qed.
Lemma schedule_stale g s : stale g s = true -> scheduleReconnect 1 g s = s.
Proof. unfold scheduleReconnect. now intros ->. Qed.
Lemma chained_step e s s' : chained s -> step 1 e s = Some s' -> chained s'.
Proof.
  intros C E. destruct e as [| |id|id msg|id|id data|id|id|data]; cbn [step] in E.
  - destruct (mounted s) eqn:M; [easy|]. injection E as <-.
    assert (I : idle (s <| mounted := true |> <| unmountedRef := false |>)); [|exact (connect_idle _ I)]. split_and!; [easy | easy | |].
    + intros i g l L. destruct (ch_known s C _ _ _ L) as (? & ? & ? & ?). now split_and!.
    + intros j l L. destruct (ch_known s C _ _ _ L) as (_ & _ & Mt & _). specialize (Mt eq_refl). congruence.
  - destruct (mounted s) eqn:M; [|easy]. injection E as <-. now apply chained_unmount.
  - destruct (links s !! id) as [[g [|r|d]]|] eqn:L; try easy. rewrite (stale_link s id g _ C L) in E. destruct (Nat.eqb_spec g (attemptRef s)) as [->|N];
      injection E as <-; [|now apply (delete_stale s id g Calling)].
    apply (update_live s _ id Calling (Socket SOCKET_CONNECTING)); [easy.. |]. split; [|easy]. cbn. split; [|easy].
    intros S. destruct (ch_known s C _ _ _ L) as (_ & _ & M & _). destruct (ch_one s C (M eq_refl)) as (k & l & Lk & [F _] & U).
    rewrite (U _ _ L), Lk in L. injection L as ->. now apply F in S.
  - destruct (links s !! id) as [[g [|r|d]]|] eqn:L; try easy. injection E as <-. change (stale g _) with (stale g s).
    rewrite (stale_link s id g _ C L). destruct (Nat.eqb_spec g (attemptRef s)) as [->|N]; [|now apply (delete_stale s id g Calling)].
    assert (I : idle (s <| links ::= delete id |> <| error := Some msg |>)) by exact (delete_live s id Calling C L). exact (schedule_idle _ I).
  - destruct (links s !! id) as [[g [|[| |]|d]]|] eqn:L; try easy. injection E as <-. change (stale g _) with (stale g s).
    rewrite (stale_link s id g _ C L). destruct (Nat.eqb_spec g (attemptRef s)) as [->|N].
    + apply (update_live s _ id (Socket SOCKET_CONNECTING) (Socket SOCKET_OPEN)); [easy.. |]. split; [easy|]. cbn. split; [|easy].
      now apply (live_is_newest s id _ _ C L).
    + destruct (ch_known s C _ _ _ L) as (_ & _ & _ & V). now destruct N; apply V.
  - destruct (links s !! id) as [[g [|[| |]|d]]|] eqn:L; try easy. destruct (stale g s); injection E as <-; [easy | now apply (chained_ext s)].
  - destruct (links s !! id) as [[g [|r|d]]|] eqn:L; try easy. injection E as <-. pose proof (stale_link s id g _ C L) as St.
    destruct (Nat.eqb_spec g (attemptRef s)) as [->|N]; [pose proof (delete_live s id _ C L) as I; exact (schedule_idle _ I)|].
    rewrite schedule_stale by exact St. now apply (delete_stale s id g (Socket r)).
  - destruct (links s !! id) as [[g [|r|d]]|] eqn:L; try easy. injection E as <-. pose proof (stale_link s id g _ C L) as St.
    destruct (Nat.eqb_spec g (attemptRef s)) as [->|N]; [pose proof (delete_live s id _ C L) as I; exact (connect_idle _ I)|].
    rewrite connect_stale by exact St. now apply (delete_stale s id g (Timer d)).
  - destruct (mounted s) eqn:M; [|easy]. injection E as <-. destruct (wsRef s) as [i|] eqn:W; [|easy]. destruct (links s !! i) as [[g [|[| |]|d]]|]; try easy.
    apply (chained_ext s); try easy; cbn; congruence.
Qed.

Lemma chained_reached s : reached 1 s -> chained s.
Proof.
  induction 1 as [|e s s' R IH E]; [|now apply (chained_step e s)]. split; [easy | | easy]. intros i g l L. unfold fresh in L. cbn [links] in L. now rewrite lookup_empty in L.
Qed.
Lemma delay_bounds n : (500 <= delay_of n <= 8000)%Z.
Proof.
  unfold delay_of. assert (F : Forall (fun d => 500 <= d <= 8000)%Z RECONNECT_DELAYS_MS) by (repeat constructor; lia).
  rewrite Forall_forall in F. apply F, list_elem_of_In, nth_In. cbn. lia.
Qed.

(** C37: whatever the order of answers, of sockets opening and closing, of timers
    and of remounts, a mounted terminal has exactly one way to go on, a call, a
    socket or a timer of 0.5 to 8 seconds, so it never gives up and never
    connects twice; it shows no banner exactly while that is an open socket, and
    a key is sent to that socket or dropped.  An unmounted one has nothing left
    that changes it.  This needs React to run an updater once. *)
Theorem one_chain s : reached 1 s ->
  (mounted s = true -> exists i l, (forall j l', links s !! j = Some (attemptRef s, l') <-> (j, l') = (i, l)) /\
     (ConnectionBanner s = None <-> l = Socket SOCKET_OPEN) /\ (forall d, l = Timer d -> 500 <= d <= 8000)%Z /\
     forall data s', step 1 (Key data) s = Some s' ->
       sent s' = (sent s ++ if bool_decide (l = Socket SOCKET_OPEN) then [(i, data)] else [])%list) /\
  (mounted s = false -> forall e s', step 1 e s = Some s' -> e = Mount \/
     (state s', error s', reconnectCount s', screen s', sent s') = (state s, error s, reconnectCount s, screen s, sent s)).
Proof.
  intros R. pose proof (chained_reached s R) as C. split; intros M.
  - destruct (ch_one s C M) as (i & l & L & [Op F] & U). exists i, l. split_and!.
    + intros j l'. split; [|now intros [= -> ->]]. intros Lj. pose proof (U _ _ Lj) as ->. congruence.
    + rewrite <- Op. unfold ConnectionBanner. now destruct (state s).
    + intros d ->. destruct F as [_ ->]. apply delay_bounds.
    + intros data s' E. cbn in E. rewrite M in E. injection E as <-. case_bool_decide as O.
      * subst l. destruct F as [-> _]. now rewrite L.
      * destruct (wsRef s) as [j|]; [|cbn; now rewrite app_nil_r]. destruct (links s !! j) as [[g [|[| |]|d]]|] eqn:Lj; cbn; rewrite ?app_nil_r; try easy.
        exfalso. apply O. destruct (ch_known s C _ _ _ Lj) as (_ & _ & _ & G). rewrite (G ltac:(discriminate)) in Lj. pose proof (U _ _ Lj) as ->. congruence.
  - assert (St : forall i g l, links s !! i = Some (g, l) -> stale g s = true).
    { intros i g l L. rewrite (stale_link s i g l C L). destruct (Nat.eqb_spec g (attemptRef s)) as [G|]; [|easy].
      destruct (ch_known s C _ _ _ L) as (_ & _ & Mt & _). specialize (Mt G). congruence. }
    intros e s' E. destruct e as [| |id|id msg|id|id data|id|id|data]; cbn [step] in E; rewrite ?M in E; try easy; [now left|..]; right;
      (destruct (links s !! id) as [[g [|[| |]|d]]|] eqn:L; try easy); pose proof (St _ _ _ L) as S; injection E as <-;
      first [ change (stale g _) with (stale g s); rewrite S; reflexivity | rewrite connect_stale by exact S; reflexivity | rewrite schedule_stale by exact S; reflexivity ].
Qed.

(** Up to the first answer, after a refused call, and open. *)
Fixpoint play (runs : nat) (es : list Event) (s : Session) : option Session :=
  match es with [] => Some s | e :: es => step runs e s ≫= play runs es end.
Lemma play_reached runs es s s' : reached runs s -> play runs es s = Some s' -> reached runs s'.
Proof.
  revert s. induction es as [|e es IH]; cbn; intros s R E; [now injection E as <-|]. destruct (step runs e s) as [s1|] eqn:S; [|easy]. cbn in E.
  apply (IH s1); [now apply (reached_step runs e s) | exact E].
Qed.
Definition dropped_once : list Event := [Mount; Answered 0; Opened 0; Message 0 "$ "; Key "ls"; Closed 0; Key "x"; Fired 1; Rejected 2 "503"; Fired 3; Answered 4; Opened 4; Key "y"].
Example reconnects : (fun s => (state s, reconnectCount s, screen s, sent s, map_to_list (links s))) <$> play 1 dropped_once fresh
  = Some (opened, 0%nat, ["$ "], [(0%nat, "ls"); (4%nat, "y")], [(4%nat, (0%nat, Socket SOCKET_OPEN))]).
Proof. vm_compute. reflexivity. Qed.
(** Where an updater runs twice, one dropped connection becomes two. *)
Example strict_mode_doubles : (fun s => (snd <$> map_to_list (links s))) <$>
  play 2 [Mount; Answered 0; Opened 0; Closed 0; Fired 1; Fired 2; Answered 3; Opened 3; Answered 4; Opened 4] fresh
  = Some [(0%nat, Socket SOCKET_OPEN); (0%nat, Socket SOCKET_OPEN)].
Proof. vm_compute. reflexivity. Qed.
Lemma one_chain_witness : exists s i, play 1 dropped_once fresh = Some s /\ links s !! i = Some (attemptRef s, Socket SOCKET_OPEN) /\ ConnectionBanner s = None.
Proof.
  assert (V : (fun s => (mounted s, ConnectionBanner s)) <$> play 1 dropped_once fresh = Some (true, None)) by (vm_compute; reflexivity).
  destruct (play 1 dropped_once fresh) as [s|] eqn:E; [|discriminate V]. injection V as M B. exists s.
  destruct (one_chain s (play_reached 1 dropped_once fresh s (reached_fresh 1) E)) as [O _]. destruct (O M) as (i & l & U & Ba & _). exists i.
  split; [reflexivity|]. split; [|exact B]. apply Ba in B as ->. now apply U.
Defined.
End Terminal.
